(* ===== verification/_CoqProject ===== *)
-Q . S2P
Prelude.v
FiniteSums.v
PyStr.v
PyVal.v
PyEnum.v
ProcessState.v
StrictJsonHeap.v
ProcessModel.v
ProcessStore.v
ProcessWrites.v
ProcessExecution.v
TerminalCleanup.v
ProcessInvariant.v
StaleRecovery.v
ProcessProperties.v
ProcessTransition.v
ResourceAuthority.v
DataLabels.v
SinkTrust.v
CapabilityModel.v
AuthorityRules.v
DataRelease.v
CapabilityEvaluator.v
EvaluatorProperties.v
RegexTimeouts.v
ResourceTables.v
ResourceManager.v
ReservationPages.v
ResourceViews.v
ResourceLedger.v
ResourceErrors.v
ResourceCharges.v
ResourceInvariant.v
ResourceEnvelopes.v
ResourceShares.v
ResourceSafety.v
ResourceKill.v
ResourceRecovery.v
ResourceSamples.v
JsonColumn.v
CapabilityTables.v
CapabilityLease.v
CapabilitySpec.v
JsonEquality.v
CapabilityManager.v
CapabilityEvolution.v
CapabilityOperations.v
CapabilityServices.v
CapabilityRollback.v
CapabilityDelegation.v
CapabilityHistory.v
CapabilityDecisions.v
CapabilityProperties.v
CapabilitySamples.v
StoreSteps.v
EffectModel.v
EffectTables.v
EffectLedger.v
EffectInvariant.v
EffectUpdates.v
EffectSettlement.v
EffectHistory.v
EffectPages.v
EffectReconciliation.v
EffectProperties.v
EffectSamples.v
MessageTables.v
ProcessMessages.v
MessageSteps.v
MessageHistory.v
MessageProperties.v
MessageSamples.v
WorkingDirectory.v
ProcessLifecycle.v
LifecycleSteps.v
LifecycleHistory.v
HumanInterrupt.v
LifecycleCleanup.v
LifecycleProperties.v
LifecycleSamples.v
