(* ===== verification/Prelude.v ===== *)
(** * Agent libOS verification library

    Agent libOS runs language-model agents as processes: a runtime keeps them
    in an SQL store, gives each a lease while a worker executes it, parks it
    in a typed wait state, and lets it reach resources only through typed
    capabilities.  This library models the deterministic core of that runtime
    as executable functions, translated from [src/agent_libos/], and proves
    what makes it correct.

    ** Conventions

    - A Python function that may raise is a function into [res]; one that also
      reads or writes the store is a function into [M Store] (a state monad
      with exceptions, this file).  An exception carries the static part of
      its message.  [transaction] restores the store when its body raises, as
      the SQL savepoint does; [ProcessStore.sql_transaction] adds what the
      store checks on the way out.
    - Python values that arrive untyped (decoded JSON, constructor arguments)
      are [PyVal.pyval]; [bool] and [int] are kept apart the way [isinstance]
      sees them, integers are unbounded as in Python, and floats are IEEE
      doubles ([SpecFloat]).  A string has one character per code point, up to
      U+00FF.
    - The clock, fresh identifiers, [json.dumps], [json.loads], [sha256] and
      callbacks are parameters.  A statement about time takes the instants as
      arguments.
    - SQL statements are functions of the tables: [UPDATE ... WHERE] is
      [ProcessStore.update_where] with the clause as a boolean predicate, and
      [ORDER BY pid] is a sort of the keys.

    ** Files

    - [Prelude]: results, the state monad, their inversion lemmas and tactics.
    - [PyStr]: the [str] methods the sources use.
    - [PyVal]: untyped Python values and JSON texts.
    - [ProcessState] ([models/process_state.py]): the status, wait state and
      outcome of a process, the product type the three must form, their
      canonical JSON mappings, the projection to and the upcast from the
      legacy status message, and the remapping of identifiers on restore.
    - [StrictJsonHeap] (same file): the cycle check of [_strict_json_value] on
      an explicit heap of containers, which may be shared or cyclic.
    - [ProcessModel] ([models/process.py]): budgets, usage, reservations,
      pages, tokens and the process row, with their validators.
    - [ProcessStore], [ProcessWrites] ([storage/sql.py], with the ambient
      scopes of [process_execution.py]): the tables, counters and ambient
      scopes, and the one write path of a process row, [_update_process], with
      the fences it must pass.
    - [ProcessExecution] ([storage/sql.py]): claiming, completing and releasing
      an execution lease, the exec claims, and paged recovery of leases left
      by another runtime.
    - [TerminalCleanup] ([storage/sql.py]): the durable two-phase cleanup work
      item of a terminal process.
    - [ProcessInvariant], [StaleRecovery], [ProcessProperties]: the store
      invariant, the ordering of stores, and the theorems about histories.
    - [ProcessTransition] ([process_transition.py]): the transition service,
      written against a repository interface (a class with laws) that the
      modelled store instantiates.
    - [ResourceAuthority] ([capability/resources.py]): typed resource patterns.
    - [PyEnum]: string enums as a class with laws, coercion and ranking.
    - [PyStr] ends with keyset pages (rows read in the order of a date and an
      identifier), [PyVal] with dicts whose keys are texts.
    - [DataLabels] ([models/data_flow.py], [memory/data_labels.py]): labels,
      source references and flow contexts, aggregation, and propagation to
      derived Objects.
    - [SinkTrust] ([models/data_flow.py], [runtime/data_flow_manager.py],
      [storage/sql.py]): Sinks, the trust registry and its two operations,
      resolution, clearance and the classification of an egress.
    - [CapabilityModel], [AuthorityRules], [DataRelease],
      [CapabilityEvaluator] ([models/capability.py], [capability/rules.py],
      [capability/evaluator.py], [capability/effect_binding.py]): rules and
      their codec, bounded regex conditions, constraints and bindings, the
      decision over a list of matching capabilities.
    - [EvaluatorProperties], [RegexTimeouts]: the theorems on that decision.
    - [JsonColumn], [JsonEquality] ([utils/serde.py]): what a JSON column holds
      after [dumps] and [loads], and comparisons with what was read from one.
    - [CapabilityTables] ([storage/sql.py], [storage/repositories.py]): the
      [capabilities] and [capability_use_reservations] tables with the
      conditional updates on them, paged abandoning, settlement by effect
      recovery and the rollback of an exec.  [CapabilityHost] is what the
      services are constructed with.
    - [CapabilityLease] ([capability/lease.py], [mutation.py],
      [transaction.py]): finite uses, durable mutations, and the authority
      transaction, parameterised by the revalidation of a decision.
    - [CapabilitySpec], [CapabilityManager] ([capability/manager.py]): specs and
      constraints; chains, decisions, issue, delegation, derivation, revocation,
      handles.  A manager operation is a composition of the layers below in one
      [authority_unit], the store transaction.
    - [CapabilityEvolution], [CapabilityOperations],
      [CapabilityServices], [CapabilityDelegation]: well-formed rows; the
      relation [advance] between tables and its rules; that every update, every
      service and every delegation advances the tables.
    - [CapabilityHistory], [CapabilityDecisions], [CapabilityRollback],
      [CapabilityProperties]: any sequence of service calls, chains of parents,
      what an allowing decision rests on, the exec rollback, and the theorems;
      [CapabilitySamples] holds a concrete host and tables.
    - [StoreSteps]: operations that move a store along a preorder.
    - [EffectModel], [EffectTables] ([models/external_effect.py],
      [storage/sql.py]): effect records; their table, its transition ledger,
      the keyset queries and the recovery settlement, over one store that
      contains the capability and envelope tables a settlement converges.
    - [EffectLedger] ([evidence/external_effects.py], with what it calls of
      [runtime/operation_manager.py] and [capability/effect_binding.py]):
      intents, marks, outcomes, startup reconciliation and Host receipts.  A
      provider is the answers it gives.
    - [EffectInvariant], [EffectUpdates], [EffectSettlement], [EffectHistory]:
      the abstract life of an effect, the invariant and the order of stores;
      what each statement and a whole settlement do; every operation moves the
      tables along that order.
    - [EffectPages], [EffectReconciliation], [EffectProperties]: keyset pages
      as pieces of one sorted list; paging over rows in motion as a loop over a
      snapshot; what reconciliation leaves; the theorems.  [EffectSamples]
      holds concrete tables.
    - [MessageTables], [ProcessMessages] ([models/messages.py],
      [storage/sql.py], [runtime/message_manager.py],
      [evidence/message_projection.py]): the message table beside the process
      table, and the manager's operations; a wait and a wake are transitions
      of [ProcessTransition] on that store.
    - [MessageSteps], [MessageHistory], [MessageProperties]:
      what each operation leaves when it returns and when it raises; queries,
      and their agreement with waits; any history; the theorems.
      [MessageSamples] holds concrete queues.
    - [WorkingDirectory], [ProcessLifecycle] ([runtime/process_manager.py],
      [storage/sql.py]): working directories; waiting for a child, signals,
      exit and terminal cleanup over the tables of [ResourceTables] and a world
      that only the ports change.
    - [LifecycleSteps], [LifecycleHistory]: what a transition
      and a wake do to the lives of processes; the walks over the process tree;
      every operation keeps the invariant of waits and the Host's pause.
    - [HumanInterrupt] ([human/manager.py]): the human manager's interrupt of a
      process, and when it keeps that invariant.
    - [LifecycleCleanup], [LifecycleProperties]: one cleanup
      run to its end, the pages of startup recovery, and the theorems.
      [LifecycleSamples] holds a concrete family of processes.
    - [ResourceTables], [ResourceManager] ([storage/sql.py],
      [runtime/resource_manager.py]): the reservation tables beside the process
      table, and every operation of the resource manager over them.
    - [ReservationPages], [ResourceViews], [ResourceLedger], [ResourceErrors]:
      the keyset pages as one sorted list; on the discrete fields, the integers
      the manager's functions compute; which errors mean a limit.
    - [ResourceCharges], [ResourceInvariant],
      [ResourceEnvelopes], [ResourceShares], [ResourceSafety],
      [ResourceRecovery], [ResourceKill]: the effect of each operation on the
      ledger, the ledger invariant and the theorems; [ResourceSamples] holds
      the concrete tables they are instantiated on.
    ** What the theorems show

    - Process table: over any history of operations by any callers, rows stay
      well formed, a lease exists only on a RUNNING row, every terminal row has
      its cleanup item, and the durable counters stay above the rows
      ([process_store_invariant]); rows only move forward
      ([process_rows_evolve]); a worker that lost its lease can change nothing
      ([lost_lease_is_fenced]); concurrent writers cannot overwrite each other
      ([no_lost_update]).  The exact effect of a claim, a patch and a typed
      transition is a lemma on each.
    - Recovery: the paged loop terminates, recovers every stale row once and
      counts it ([recover_complete]).
    - Waits: a wait token wakes its own wait at most once, a registration
      never steals a wait owned by another condition, and pause or resume
      never discards a condition wait.
    - Cleanup: the work item is a refinement of a four-state machine, its lease
      excludes other workers, and it can always be driven to completion.
    - Codecs: the wait and outcome codecs are inverse to each other and accept
      canonical mappings only; the legacy upcast recovers what it projected;
      the heap traversal decides exactly the finite JSON unfoldings.
    - Resources: what a pattern matches, and when the cover relation used by
      delegation is sound.  Two lemmas record where it is not.
    - Data flow: aggregation is the least upper bound of a restrictiveness
      order, so order and grouping of sources do not matter; resolution of a
      Sink is unambiguous after any registry history; the exact conditions of
      an egress; and no aggregate leaves more easily than its sources.
    - Capability decisions: what an allowed decision implies about every
      matching capability, independence from their order, and that regex
      timeouts only make the decision stricter.
    - Capability services: after [revoke] returned, no history makes an allowing
      decision select the capability or one delegated from it
      ([revocation_is_final]); a finite capability is never overdrawn
      ([finite_use_budget]); every delegated row keeps attenuating its parent,
      in its expiry too ([delegation_attenuates], given that the Host's times
      read back as written and texts order as times, [TimeLaws]); an allowing
      decision selects the foremost live grant ([authorize_allowed_sound]); a
      claim spends exactly one use of that grant or nothing
      ([claim_spends_once]); a derivation grants what was asked or nothing
      ([derive_authority_atomic]); rolling an exec back restores what it staged
      ([exec_rollback_restores]).  Histories contain every service but the two
      deletions of rows an aborted exec or publication created.
    - External effects: the effects and their ledger refine an abstract machine
      of effect lives ([effects_refine_lifecycle]); the ledger answers exactly what
      changed ([ledger_finds_every_change]); a held idempotency key blocks
      ([idempotency_key_blocks]); a settlement on a receipt is whole or
      nothing, across the effect, capability, envelope and audit tables
      ([receipt_settlement_converges]); an undispatched effect cannot be
      settled as done ([prepared_effect_needs_certificate]); reconciliation
      that returns has handled every pending effect and counted it
      ([reconciliation_drains]), and it returns where the providers settle
      nothing and their receipts can be stored
      ([silent_providers_never_block]).
    - Messages: no process is left waiting with an unread message that its wait
      matches ([no_lost_wakeup]), given that other managers neither start such
      a wait nor make a message unread; acknowledgements are whole, exact and
      final ([ack_exactly_once]); a post commits its message, evidence and
      wake together ([post_is_atomic]); evidence about a message to a
      Run-bound process has only hashes of its content
      ([run_bound_evidence_is_content_free]); windows are exact
      ([page_is_exact]).
    - Process lives: no parent is left waiting for a child that has ended
      ([no_lost_child_wakeup]); the process manager holds the Host's pause until
      the Host lifts it ([host_pause_holds]); an exit that returns is complete
      ([exit_completes]); startup recovery completes every cleanup
      ([recovery_completes]); and a signal never reaches a running Task-Run
      process, which is a defect of the source
      ([signals_spare_task_runs]).  Between the steps of the manager other
      managers may do anything that changes no status, wait or parent, and the
      Object-task notifier may change them within the same rules.  The human
      manager may interrupt processes, except to pause or resume one the Host
      has parked and to end one a parent waits for: there the source loses the
      pause and the wakeup, as two samples show.
    - Resource accounting: on discrete fields no history of preflighted charges
      makes a process commit more than its limit ([no_overcommit]; a charge that
      may exceed it does, as a sample shows); a charge is all or nothing and a
      preflight that passed is never contradicted afterwards
      ([charge_is_atomic]); the preflight is exact; a settlement within its
      envelope is never refused; recovery drains the undispatched envelopes;
      and a limit never kills a running Task-Run process, which is a defect of
      the source.
    ** Bounds and fuel

    - [ResourceAuthority.squeeze] runs with the length of the text as fuel;
      every round removes a character.
    - [ProcessExecution.recover_loop] takes one unit of fuel per page;
      [recover_complete] shows any fuel above the number of stale rows is
      enough.
    - [StrictJsonHeap] bounds the depth of the traversal by the number of
      containers, since a path that repeats one is rejected.
    - [ProcessState._strict_json_value] is structural: it works on the
      unfolded value.
    - [CapabilityManager.parents_active], [chain_constraint_error] and [issuers]
      run with two more than the number of capabilities; each step visits one
      not seen before ([parent_chain_decides]).
    - [ProcessLifecycle.recover_cleanup_pages] takes one unit of fuel per page;
      one more than the number of items is enough ([recovery_completes]).  The
      walks over the process tree run with one more than the number of rows;
      when no process is below itself that is enough
      ([LifecycleSteps.descendants_end], [terminal_descendants_end]).
    - [CapabilityTables.abandon_pages] takes one unit of fuel per page.
    - [EffectLedger.iter_external_effect_recovery] and
      [EffectTables._query_external_effect_changes] take one unit of fuel per
      page; one more than the number of effects is enough.
      [EffectLedger.approval_chain] runs with two more than the number of
      operations; it stops at one it has seen.
    - [ResourceManager._process_chain] and [_descendant_tree] run with one more
      than the number of rows; a longer chain repeats a process, and on a
      forest the climb ends at the root ([ResourceViews.process_chain_run]).
    - [ResourceManager.iter_active] and [recover_pages] take one unit of fuel
      per page; the number of envelopes is enough
      ([ReservationPages.iter_active_rows], [recovery_releases_undispatched]).
    - The ledger theorems are about the discrete fields (calls, tokens, bytes):
      seconds are binary64 sums, which are not associative.
    ** Not modelled

    The evidence an exec publication or a post-exec completion needs (Objects,
    capabilities and operation rows) is an interface, [ExecEvidence], that
    every theorem quantifies over.  Process replacement during a checkpoint
    restore, memory-root edits and publication recovery are outside the
    operations of the histories.  Network protocols, provider calls, the
    sandbox, operating-system access, schema migrations, user interfaces and
    configuration are I/O or glue and are left out, and so are the managers
    that run programs above the store: launching and scheduling processes,
    Object memory, Object tasks and Task Runs, whose state lives in thread pools and
    in provider sessions as much as in tables.  Of the life of a process the
    finalization of processes a limit has killed, the merge of a child's memory,
    thread locks and exceptions outside [Exception] are left out.  Of the messages the sweep that
    deletes the messages of a purged Run is left out.  Of the effect ledger the classifiers of
    providers, the retention of payloads and the JSON projections are left
    out.  Of the capability services the
    JSON projections and presentation pages, the safety reports of semantic
    approvals and the classifier of shell commands are left out; audit and
    event sinks are a log of keys and are taken not to fail. *)

From stdpp Require Export base gmap strings list option.
From Stdlib Require Export ZArith Lia.

#[global] Arguments String.append : simpl nomatch.

Declare Scope libos_scope.
Delimit Scope libos_scope with libos.

(** ** Errors

    The exception classes of [agent_libos/models/exceptions.py] and the builtin
    and database driver classes the modelled code raises.  An error carries the
    static part of its message, which tells the raising branches apart. *)

Inductive exn : Set :=
| ValidationError (msg : string)
| ProcessError (msg : string)
| ProcessRevisionConflict (msg : string)
| ResourceLimitExceeded (msg : string)
| CapabilityDenied (msg : string)
| SemanticAuthorityTripDeferred (code : string)
| NotFound (msg : string)
| ProcessWaitRequired (child_pid : string)
| ProcessMessageWaitRequired (recipient_pid : string)
| ProcessTerminalCleanupRequired (pid phase : string)
| TimeoutError (msg : string)
| KeyError (key : string)
| ValueError (msg : string)
| TypeError (msg : string)
| OverflowError (msg : string)
| RuntimeError (msg : string)
| IntegrityError (msg : string).

#[export] Instance exn_eq_dec : EqDecision exn.
Proof. solve_decision. Defined.

(** [ProcessRevisionConflict], [ResourceLimitExceeded] and
    [ProcessTerminalCleanupRequired] are subclasses of [ProcessError]; [ValidationError] is not a [ValueError]. *)
Definition is_process_error (e : exn) : bool :=
  match e with
  | ProcessError _ | ProcessRevisionConflict _ | ResourceLimitExceeded _ | ProcessTerminalCleanupRequired _ _ => true
  | _ => false
  end.

(** [SemanticAuthorityTripDeferred] is a subclass of [CapabilityDenied]. *)
Definition is_capability_denied (e : exn) : bool :=
  match e with CapabilityDenied _ | SemanticAuthorityTripDeferred _ => true | _ => false end.

(** ** Results: a value or a raised exception *)

Inductive res (A : Type) : Type :=
| Ok (a : A)
| Err (e : exn).
Arguments Ok {A} a.
Arguments Err {A} e.

#[export] Instance res_ret : MRet res := fun A a => Ok a.
#[export] Instance res_bind : MBind res := fun A B f m =>
  match m with Ok a => f a | Err e => Err e end.
#[export] Instance res_fmap : FMap res := fun A B f m =>
  match m with Ok a => Ok (f a) | Err e => Err e end.

#[export] Instance res_eq_dec `{EqDecision A} : EqDecision (res A).
Proof. solve_decision. Defined.

Definition is_Ok {A} (r : res A) : bool :=
  match r with Ok _ => true | Err _ => false end.

(** [raise_if b e]: an early [raise] guarded by a condition. *)
Definition raise_if (b : bool) (e : exn) : res unit :=
  if b then Err e else Ok tt.

Definition of_option {A} (e : exn) (o : option A) : res A :=
  match o with Some a => Ok a | None => Err e end.

(** [try c except ValueError -> handler], keeping the other exceptions. *)
Definition catch_value_error {A} (r : res A) (h : string → res A) : res A :=
  match r with Err (ValueError m) => h m | _ => r end.

Section Loops.
Context {A B : Type}.

(** A left-to-right list comprehension whose body may raise. *)
Definition mapR (f : A → res B) : list A → res (list B) :=
  fix mapR l :=
    match l with
    | [] => Ok []
    | x :: l' => y ← f x; ys ← mapR l'; Ok (y :: ys)
    end.

(** A left-to-right [for] loop whose body may raise. *)
Definition foldR (f : B → A → res B) : B → list A → res B :=
  fix foldR acc l :=
    match l with
    | [] => Ok acc
    | x :: l' => acc' ← f acc x; foldR acc' l'
    end.
End Loops.

(** ** Stateful operations

    An operation reads and writes a store and returns a value or raises.
    An exception leaves the writes made before it in place, unless they
    were made inside a [transaction] scope: the SQL store's
    [transaction()] opens a savepoint and rolls back to it when its body
    raises. *)

Definition M (S A : Type) : Type := S → S * res A.

#[export] Instance M_ret S : MRet (M S) := fun A a s => (s, Ok a).
#[export] Instance M_bind S : MBind (M S) := fun A B f m s =>
  match m s with
  | (s', Ok a) => f a s'
  | (s', Err e) => (s', Err e)
  end.

Definition get_state {S} : M S S := fun s => (s, Ok s).
Definition put_state {S} (s : S) : M S unit := fun _ => (s, Ok tt).
Definition modify {S} (f : S → S) : M S unit := fun s => (f s, Ok tt).
Definition raise {S A} (e : exn) : M S A := fun s => (s, Err e).
Definition lift_res {S A} (r : res A) : M S A := fun s => (s, r).

Definition transaction {S A} (m : M S A) : M S A := fun s =>
  match m s with
  | (s', Ok a) => (s', Ok a)
  | (_, Err e) => (s, Err e)
  end.

(** ** Inversion lemmas and the automation built on them *)

Lemma bind_Ok {A B} (m : res A) (f : A → res B) b :
  m ≫= f = Ok b ↔ ∃ a, m = Ok a ∧ f a = Ok b.
Proof. destruct m; cbn; naive_solver. Qed.

Lemma res_bind_ok {A B} (a : A) (f : A → res B) : Ok a ≫= f = f a.
Proof. done. Qed.

Lemma res_bind_err {A B} (e : exn) (f : A → res B) : (Err e : res A) ≫= f = Err e.
Proof. done. Qed.

Lemma bind_Err {A B} (m : res A) (f : A → res B) e :
  m ≫= f = Err e ↔ m = Err e ∨ ∃ a, m = Ok a ∧ f a = Err e.
Proof. destruct m; cbn; naive_solver. Qed.

Lemma raise_if_Ok b e u : raise_if b e = Ok u ↔ b = false.
Proof. destruct b, u; cbn; naive_solver. Qed.

Lemma of_option_Ok {A} e (o : option A) a : of_option e o = Ok a ↔ o = Some a.
Proof. destruct o; cbn; naive_solver. Qed.

Lemma M_bind_Ok {S A B} (m : M S A) (f : A → M S B) s s' b :
  (m ≫= f) s = (s', Ok b) ↔ ∃ a s1, m s = (s1, Ok a) ∧ f a s1 = (s', Ok b).
Proof. unfold mbind, M_bind. destruct (m s) as [? []]; naive_solver. Qed.

Lemma transaction_Ok {S A} (m : M S A) s s' a :
  transaction m s = (s', Ok a) ↔ m s = (s', Ok a).
Proof. unfold transaction. destruct (m s) as [? []]; naive_solver. Qed.

(** A transaction that raises leaves the store as it found it. *)
Lemma transaction_Err {S A} (m : M S A) s s' e :
  transaction m s = (s', Err e) → s' = s.
Proof. unfold transaction. destruct (m s) as [? []]; naive_solver. Qed.

Lemma mapR_Ok {A B} (f : A → res B) l l' :
  mapR f l = Ok l' ↔ Forall2 (fun x y => f x = Ok y) l l'.
Proof.
  revert l'. induction l as [|x l IH]; intros l'; cbn.
  - split; [intros [= <-]; constructor | by inversion 1].
  - rewrite bind_Ok. setoid_rewrite bind_Ok. split.
    + intros (y & Hy & ys & Hys & [= <-]). constructor; [done|]. by apply IH.
    + inversion 1; subst. naive_solver.
Qed.

Lemma mapR_length {A B} (f : A → res B) l l' :
  mapR f l = Ok l' → length l' = length l.
Proof. rewrite mapR_Ok. intros H. symmetry. by eapply Forall2_length. Qed.

Lemma mapR_id {A} (f : A → res A) l :
  Forall (fun x => f x = Ok x) l → mapR f l = Ok l.
Proof.
  induction 1 as [|x l Hx _ IH]; cbn; [done|]. by rewrite Hx; cbn; rewrite IH.
Qed.

(** ** Lists *)

Lemma elem_of_concat_map {A B} (f : A → list B) (l : list A) (y : B) :
  y ∈ concat (map f l) ↔ ∃ x, x ∈ l ∧ y ∈ f x.
Proof.
  induction l as [|x l IH]; cbn; [set_solver|]. rewrite elem_of_app, IH.
  setoid_rewrite elem_of_cons. naive_solver.
Qed.

Lemma filter_and_sublist {A} (f g : A → bool) l :
  List.filter (fun s => f s && g s) l `sublist_of` List.filter f l.
Proof.
  induction l as [|x l IH]; cbn; [constructor|]. destruct (f x), (g x); cbn; auto using sublist_skip, sublist_cons.
Qed.

Lemma list_filter_sublist {A} (f : A → bool) l : List.filter f l `sublist_of` l.
Proof. induction l as [|x l IH]; cbn; [constructor|]. destruct (f x); auto using sublist_skip, sublist_cons. Qed.

Lemma NoDup_list_filter {A} (f : A → bool) l : NoDup l → NoDup (List.filter f l).
Proof. intros H. eapply sublist_NoDup; [exact H|apply list_filter_sublist]. Qed.

Lemma NoDup_map_sublist {A B} (f : A → B) (l k : list A) :
  l `sublist_of` k → NoDup (map f k) → NoDup (map f l).
Proof. intros H Hk. eapply sublist_NoDup; [exact Hk|]. by apply (fmap_sublist f). Qed.

(** Run the first command of a [res] computation with a known equation. *)
Tactic Notation "res_run" uconstr(lem) :=
  rewrite lem by done; rewrite ?res_bind_ok, ?res_bind_err.

(** One step of the inversion of a successful or failed monadic run. *)
Ltac res_step :=
  match goal with
  | H : Ok _ = Ok _ |- _ => injection H as H
  | H : Err _ = Err _ |- _ => injection H as H
  | H : Ok _ = Err _ |- _ => discriminate H
  | H : Err _ = Ok _ |- _ => discriminate H
  | H : mret _ = Ok _ |- _ => injection H as H
  | H : mbind _ ?m = Ok _ |- _ =>
      apply bind_Ok in H; let a := fresh "a" in
      let H1 := fresh "Hm" in destruct H as (a & H1 & H)
  | H : mbind _ ?m ?s = (_, Ok _) |- _ =>
      apply M_bind_Ok in H; let a := fresh "a" in let s1 := fresh "s" in
      let H1 := fresh "Hm" in destruct H as (a & s1 & H1 & H)
  | H : transaction _ _ = (_, Ok _) |- _ => apply (proj1 (transaction_Ok _ _ _ _)) in H
  | H : raise_if _ _ = Ok _ |- _ => apply raise_if_Ok in H
  | H : of_option _ _ = Ok _ |- _ => apply of_option_Ok in H
  | H : lift_res _ _ = (_, _) |- _ => unfold lift_res in H
  | H : get_state _ = (_, _) |- _ => unfold get_state in H
  | H : modify _ _ = (_, _) |- _ => unfold modify in H
  | H : raise _ _ = (_, _) |- _ => unfold raise in H
  | H : mret _ _ = (_, _) |- _ => unfold mret, M_ret in H
  | H : (_, _) = (_, _) |- _ => injection H as H
  | H : andb _ _ = true |- _ => apply andb_true_iff in H as [? H]
  | H : orb _ _ = false |- _ => apply orb_false_iff in H as [? H]
  | H : negb _ = true |- _ => apply negb_true_iff in H
  | H : negb _ = false |- _ => apply negb_false_iff in H
  | H : (if ?b then Err _ else _) = Ok _ |- _ =>
      let E := fresh "Hb" in destruct b eqn:E; [discriminate H|]
  | H : (if ?b then _ else Err _) = Ok _ |- _ =>
      let E := fresh "Hb" in destruct b eqn:E; [|discriminate H]
  end.

Ltac res_simpl := repeat (res_step; simplify_eq).

(** Split on the discriminee of a successful match, pruning the branches
    that raise. *)
Ltac res_match :=
  match goal with
  | H : match ?x with _ => _ end = Ok _ |- _ => destruct x eqn:?; try discriminate H
  end; res_simpl.

(** Case analysis on whatever match blocks a hypothesis, pruning branches
    that raise. *)
Ltac res_cases H :=
  repeat (res_simpl;
          match type of H with
          | context [match ?x with _ => _ end] =>
              let E := fresh "E" in destruct x eqn:E; simplify_eq
          end); res_simpl.
