(* ===== verification/FiniteSums.v ===== *)
(** * Finite sums

    Integer sums over lists: extensionality, permutations, updates, covers and
    grouping. *)

From S2P Require Import Prelude.
From stdpp Require Import sorting.

(** ** Finite sums *)

Fixpoint zsum {A} (f : A → Z) (l : list A) : Z :=
  match l with [] => 0 | x :: l' => f x + zsum f l' end%Z.

Section Sums.
Context {A : Type}.
Implicit Types (f g : A → Z) (l k : list A).
Local Open Scope Z_scope.

Lemma zsum_app f l k : zsum f (l ++ k) = zsum f l + zsum f k.
Proof. induction l as [|x l IH]; cbn; [done|]. rewrite IH. lia. Qed.

Lemma zsum_ext f g l : (∀ x, x ∈ l → f x = g x) → zsum f l = zsum g l.
Proof.
  induction l as [|x l IH]; intros H; cbn; [done|]. rewrite (H x) by set_solver.
  rewrite IH; [done|]. set_solver.
Qed.

Lemma zsum_le f g l : (∀ x, x ∈ l → f x <= g x) → zsum f l <= zsum g l.
Proof.
  induction l as [|x l IH]; intros H; cbn; [done|]. pose proof (H x ltac:(set_solver)).
  assert (zsum f l <= zsum g l) by (apply IH; set_solver). lia.
Qed.

Lemma zsum_nonneg f l : (∀ x, x ∈ l → 0 <= f x) → 0 <= zsum f l.
Proof.
  induction l as [|x l IH]; intros H; cbn; [done|]. pose proof (H x ltac:(set_solver)).
  assert (0 <= zsum f l) by (apply IH; set_solver). lia.
Qed.

Lemma zsum_zero f l : (∀ x, x ∈ l → f x = 0) → zsum f l = 0.
Proof.
  induction l as [|x l IH]; intros H; cbn; [done|]. rewrite (H x) by set_solver. rewrite IH; [done|]. set_solver.
Qed.

Lemma zsum_perm f l k : l ≡ₚ k → zsum f l = zsum f k.
Proof. induction 1; cbn; lia. Qed.

#[export] Instance zsum_proper f : Proper ((≡ₚ) ==> (=)) (zsum f).
Proof. intros l k. apply zsum_perm. Qed.

Lemma zsum_plus f g l : zsum (fun x => f x + g x) l = zsum f l + zsum g l.
Proof. induction l as [|x l IH]; cbn; [done|]. rewrite IH. lia. Qed.

Lemma zsum_filter (b : A → bool) f l :
  zsum f (List.filter b l) = zsum (fun x => if b x then f x else 0) l.
Proof. induction l as [|x l IH]; cbn; [done|]. destruct (b x); cbn; rewrite IH; lia. Qed.

Lemma zsum_map {B} (h : B → A) f (l : list B) : zsum f (map h l) = zsum (fun x => f (h x)) l.
Proof. induction l as [|x l IH]; cbn; [done|]. by rewrite IH. Qed.

Context `{EqDecision A}.

(** Changing one term. *)
Lemma zsum_update f g l x :
  NoDup l → x ∈ l → (∀ y, y ∈ l → y ≠ x → g y = f y) → zsum g l = zsum f l - f x + g x.
Proof.
  intros Hnd Hx Hg. induction Hnd as [|y l Hy Hnd IH]; [by apply elem_of_nil in Hx|].
  cbn. apply elem_of_cons in Hx as [->|Hx].
  - rewrite (zsum_ext g f l); [lia|]. intros z Hz. apply Hg; [by right|]. by intros ->.
  - rewrite IH; [|done|intros; apply Hg; [by right|done]]. rewrite (Hg y); [lia|by left|].
    by intros ->.
Qed.

(** Terms outside a cover vanish. *)
Lemma zsum_cover f l k :
  NoDup l → NoDup k → l ⊆ k → (∀ x, x ∈ k → x ∉ l → f x = 0) → zsum f l = zsum f k.
Proof.
  intros Hl. revert k. induction Hl as [|x l Hx Hl IH]; intros k Hk Hsub Hz; cbn.
  - symmetry. apply zsum_zero. intros y Hy. apply Hz; [done|]. apply not_elem_of_nil.
  - assert (Hxk : x ∈ k) by set_solver. apply list_elem_of_split in Hxk as (k1 & k2 & ->).
    rewrite <-Permutation_middle in Hk |- *. cbn. f_equal.
    apply NoDup_cons in Hk as [Hxk Hk]. apply IH; [done| |].
    + intros y Hy. assert (y ∈ k1 ++ x :: k2) as Hyk by set_solver.
      rewrite <-Permutation_middle in Hyk. apply elem_of_cons in Hyk as [->|]; done.
    + intros y Hy Hyl. apply Hz; [rewrite <-Permutation_middle; by right|].
      apply not_elem_of_cons. split; [|done]. by intros ->.
Qed.
End Sums.

(** Grouping terms by a key. *)
Lemma zsum_group {A} (key : A → option string) (f : A → Z) (l : list A) (ks : list string) :
  NoDup ks → (∀ x c, x ∈ l → key x = Some c → c ∈ ks) →
  zsum (fun c => zsum (fun x => if decide (key x = Some c) then f x else 0%Z) l) ks
  = zsum (fun x => match key x with Some _ => f x | None => 0%Z end) l.
Proof.
  intros Hnd. induction l as [|x l IH]; intros Hk; cbn.
  - by apply zsum_zero.
  - rewrite <-IH by set_solver. rewrite zsum_plus. f_equal.
    destruct (key x) as [c|] eqn:E.
    + rewrite (zsum_update (fun _ => 0%Z) _ ks c Hnd).
      * rewrite decide_True by done. rewrite (zsum_zero (fun _ => 0%Z)) by done. lia.
      * apply (Hk x c); [left|done].
      * intros y _ Hy. by rewrite decide_False by congruence.
    + apply zsum_zero. intros y _. by rewrite decide_False.
Qed.

Lemma zsum_one (ks : list string) (b : string) (v : Z) :
  NoDup ks → (0 <= v)%Z → (zsum (fun c => if decide (c = b) then v else 0) ks <= v)%Z.
Proof.
  intros Hnd Hv. destruct (decide (b ∈ ks)) as [Hb|Hb].
  - rewrite (zsum_update (fun _ => 0%Z) _ ks b Hnd Hb).
    + rewrite decide_True by done. rewrite zsum_zero by done. lia.
    + intros y _ Hy. by rewrite decide_False.
  - rewrite zsum_zero; [done|]. intros y Hy. rewrite decide_False; [done|]. by intros ->.
Qed.

(** ** Sums over the values of a map *)

Section MapSums.
Context {A : Type}.
Implicit Types (f g : A → Z) (m : gmap string A).
Local Open Scope Z_scope.

Definition map_sum f m : Z := zsum f (map snd (map_to_list m)).

Lemma map_sum_insert f m k x : m !! k = None → map_sum f (<[k := x]> m) = f x + map_sum f m.
Proof. intros Hk. unfold map_sum. by rewrite (map_to_list_insert m k x Hk). Qed.

Lemma map_sum_update f m k x y : m !! k = Some x → map_sum f (<[k := y]> m) = map_sum f m - f x + f y.
Proof.
  intros Hk. transitivity (f y + map_sum f (delete k m)).
  - rewrite <-insert_delete_eq. by apply map_sum_insert, lookup_delete_eq.
  - rewrite <-(insert_delete_id m k x Hk) at 2. rewrite map_sum_insert by apply lookup_delete_eq. lia.
Qed.

Lemma map_sum_fmap f m (h : A → A) : map_sum f (h <$> m) = map_sum (fun x => f (h x)) m.
Proof.
  unfold map_sum. rewrite map_to_list_fmap, !zsum_map. unfold fmap, list_fmap.
  induction (map_to_list m) as [|kx l IH]; cbn; [done|]. by rewrite IH.
Qed.

Lemma map_sum_ext f g m : (∀ k x, m !! k = Some x → f x = g x) → map_sum f m = map_sum g m.
Proof.
  intros H. unfold map_sum. rewrite !zsum_map. apply zsum_ext. intros [k x] Hx%elem_of_map_to_list. by apply (H k).
Qed.

Lemma map_sum_nonneg f m : (∀ k x, m !! k = Some x → 0 <= f x) → 0 <= map_sum f m.
Proof.
  intros H. unfold map_sum. rewrite zsum_map. apply zsum_nonneg. intros [k x] Hx%elem_of_map_to_list. by apply (H k).
Qed.
End MapSums.
