(* ===== verification/PyStr.v ===== *)
(** * Python strings

    A Python [str] is a sequence of code points; here a [string], one
    character per code point U+0000..U+00FF (code points above that range
    are outside the model).  The operations are the methods of [str] the
    modelled code calls, with the library lemmas about them; at the end, lists
    of rows ordered by a pair of texts and read page by page. *)

From S2P Require Import Prelude.
From Stdlib Require Import Ascii.
From stdpp Require Import sorting.

(** ** Character classes *)

(** [str.isspace] on one character of the modelled range. *)
Definition is_space (c : ascii) : bool :=
  let n := N_of_ascii c in
  ((9 <=? n) && (n <=? 13) || (28 <=? n) && (n <=? 32)
   || (n =? 133) || (n =? 160))%N.

Definition is_control (c : ascii) : bool :=
  let n := N_of_ascii c in ((n <? 32) || (n =? 127))%N.

(** The class [[0-9a-f]]. *)
Definition is_lower_hex (c : ascii) : bool :=
  let n := N_of_ascii c in
  ((48 <=? n) && (n <=? 57) || (97 <=? n) && (n <=? 102))%N.

(** Lower-casing of the ASCII and Latin-1 capital letters. *)
Definition lower_ascii (c : ascii) : ascii :=
  let n := N_of_ascii c in
  if ((65 <=? n) && (n <=? 90) || (192 <=? n) && (n <=? 222) && negb (n =? 215))%N
  then ascii_of_N (n + 32)%N else c.

(** ** Methods *)

Fixpoint str_all (p : ascii → bool) (s : string) : bool :=
  match s with
  | EmptyString => true
  | String c s' => p c && str_all p s'
  end.

Definition str_any (p : ascii → bool) (s : string) : bool :=
  negb (str_all (fun c => negb (p c)) s).

(** [c in s] for a one-character [c]. *)
Definition contains_char (c : ascii) (s : string) : bool :=
  str_any (Ascii.eqb c) s.

Fixpoint lstrip_by (p : ascii → bool) (s : string) : string :=
  match s with
  | EmptyString => EmptyString
  | String c s' => if p c then lstrip_by p s' else s
  end.

Fixpoint rstrip_by (p : ascii → bool) (s : string) : string :=
  match s with
  | EmptyString => EmptyString
  | String c s' =>
      match rstrip_by p s' with
      | EmptyString => if p c then EmptyString else String c EmptyString
      | r => String c r
      end
  end.

(** [s.strip()]. *)
Definition strip (s : string) : string := rstrip_by is_space (lstrip_by is_space s).

(** [s.rstrip("/")] for one character. *)
Definition rstrip_char (c : ascii) (s : string) : string := rstrip_by (Ascii.eqb c) s.

(** [s.startswith(p)]. *)
Fixpoint startswith (p s : string) : bool :=
  match p, s with
  | EmptyString, _ => true
  | String a p', String b s' => Ascii.eqb a b && startswith p' s'
  | _, _ => false
  end.

(** [s.endswith(x)]. *)
Fixpoint endswith (x s : string) : bool :=
  String.eqb x s || match s with EmptyString => false | String _ s' => endswith x s' end.

(** [s[n:]]. *)
Fixpoint drop_str (n : nat) (s : string) : string :=
  match n, s with
  | S n', String _ s' => drop_str n' s'
  | _, _ => s
  end.

(** [s[:n]]. *)
Fixpoint take_str (n : nat) (s : string) : string :=
  match n, s with
  | S n', String c s' => String c (take_str n' s')
  | _, _ => EmptyString
  end.

(** [s[:-n]] for a positive [n]. *)
Definition drop_last (n : nat) (s : string) : string :=
  take_str (String.length s - n) s.

(** [s.split(sep, 1)] for a separator that occurs in [s]. *)
Fixpoint split_once (sep : ascii) (s : string) : option (string * string) :=
  match s with
  | EmptyString => None
  | String c s' =>
      if Ascii.eqb sep c then Some (EmptyString, s')
      else match split_once sep s' with
           | Some (a, b) => Some (String c a, b)
           | None => None
           end
  end.

(** [s.split(sep)]. *)
Fixpoint split_all (sep : ascii) (s : string) : list string :=
  match s with
  | EmptyString => [EmptyString]
  | String c s' =>
      if Ascii.eqb sep c then EmptyString :: split_all sep s'
      else match split_all sep s' with
           | w :: ws => String c w :: ws
           | [] => [String c EmptyString]
           end
  end.

(** [sep.join(l)]. *)
Fixpoint join (sep : string) (l : list string) : string :=
  match l with
  | [] => EmptyString
  | [x] => x
  | x :: l' => x +:+ sep +:+ join sep l'
  end.

(** [s.count(c)] for one character. *)
Fixpoint count_char (c : ascii) (s : string) : nat :=
  match s with
  | EmptyString => 0
  | String d s' => (if Ascii.eqb c d then 1 else 0) + count_char c s'
  end.

Fixpoint lower (s : string) : string :=
  match s with
  | EmptyString => EmptyString
  | String c s' => String (lower_ascii c) (lower s')
  end.

(** Lexicographic order on code points, Python's [<] on strings. *)
Fixpoint str_ltb (a b : string) : bool :=
  match a, b with
  | EmptyString, EmptyString => false
  | EmptyString, String _ _ => true
  | String _ _, EmptyString => false
  | String c a', String d b' =>
      (N_of_ascii c <? N_of_ascii d)%N
      || (Ascii.eqb c d && str_ltb a' b')
  end.

Definition str_leb (a b : string) : bool := negb (str_ltb b a).

(** [re.fullmatch(r"[0-9a-f]{64}", s)]. *)
Definition is_sha256_hex (s : string) : bool :=
  (String.length s =? 64) && str_all is_lower_hex s.

(** ** Stripping *)

Lemma lstrip_by_head p s :
  match lstrip_by p s with EmptyString => True | String c _ => p c = false end.
Proof. induction s as [|c s IH]; cbn; [done|]. by destruct (p c) eqn:E. Qed.

Lemma lstrip_by_fix p s :
  match s with EmptyString => True | String c _ => p c = false end → lstrip_by p s = s.
Proof. destruct s; cbn; [done|]. by intros ->. Qed.

Lemma rstrip_by_idem p s : rstrip_by p (rstrip_by p s) = rstrip_by p s.
Proof.
  induction s as [|c s IH]; cbn; [done|].
  destruct (rstrip_by p s) as [|d r] eqn:E; cbn.
  - destruct (p c) eqn:Ec; cbn; [done|]. by rewrite Ec.
  - cbn in IH. rewrite IH. done.
Qed.

Lemma rstrip_by_head p s :
  match s with EmptyString => True | String c _ => p c = false end →
  match rstrip_by p s with EmptyString => True | String c _ => p c = false end.
Proof.
  destruct s as [|c s]; cbn; [done|]. intros Hc.
  destruct (rstrip_by p s); cbn; by rewrite ?Hc.
Qed.

Lemma strip_idem s : strip (strip s) = strip s.
Proof.
  unfold strip. rewrite (lstrip_by_fix is_space (rstrip_by _ _)).
  - apply rstrip_by_idem.
  - apply rstrip_by_head, lstrip_by_head.
Qed.

(** ** Prefixes, suffixes, slices *)

Lemma startswith_app p s : startswith p (p +:+ s) = true.
Proof. induction p as [|c p IH]; cbn; [done|]. by rewrite Ascii.eqb_refl. Qed.

Lemma startswith_spec p s : startswith p s = true ↔ ∃ r, s = p +:+ r.
Proof.
  split.
  - revert s. induction p as [|c p IH]; intros s; cbn; [by exists s|].
    destruct s as [|d s]; [done|]. intros [->%Ascii.eqb_eq H]%andb_true_iff.
    destruct (IH _ H) as [r ->]. by exists r.
  - intros [r ->]. apply startswith_app.
Qed.

Lemma startswith_refl s : startswith s s = true.
Proof. rewrite startswith_spec. exists "". induction s; cbn; congruence. Qed.

Lemma startswith_trans a b c :
  startswith a b = true → startswith b c = true → startswith a c = true.
Proof.
  rewrite !startswith_spec. intros [r ->] [q ->]. exists (r +:+ q).
  induction a; cbn; congruence.
Qed.

Lemma string_app_assoc (a b c : string) : (a +:+ b) +:+ c = a +:+ (b +:+ c).
Proof. induction a; cbn; congruence. Qed.

Lemma string_app_nil_r (a : string) : a +:+ "" = a.
Proof. induction a; cbn; congruence. Qed.

Lemma string_app_inj (a b c : string) : a +:+ b = a +:+ c → b = c.
Proof. induction a; cbn; naive_solver. Qed.

Lemma string_length_app (a b : string) :
  String.length (a +:+ b) = String.length a + String.length b.
Proof. induction a; cbn; congruence. Qed.

Lemma drop_str_app p s : drop_str (String.length p) (p +:+ s) = s.
Proof. by induction p. Qed.

Lemma take_str_app p s : take_str (String.length p) (p +:+ s) = p.
Proof. induction p; cbn; [by destruct s|congruence]. Qed.

Lemma endswith_spec x s : endswith x s = true ↔ ∃ r, s = r +:+ x.
Proof.
  split.
  - induction s as [|c s IH]; cbn; intros H.
    + apply orb_true_iff in H as [->%String.eqb_eq|]; [by exists ""|done].
    + apply orb_true_iff in H as [->%String.eqb_eq|H]; [by exists ""|].
      destruct (IH H) as [r ->]. by exists (String c r).
  - intros [r ->]. induction r as [|c r IH]; cbn.
    + destruct x; cbn; by rewrite ?Ascii.eqb_refl, ?String.eqb_refl.
    + rewrite IH. by rewrite orb_true_r.
Qed.

Lemma drop_last_app s x : drop_last (String.length x) (s +:+ x) = s.
Proof.
  unfold drop_last. rewrite string_length_app.
  replace (String.length s + String.length x - String.length x) with (String.length s) by lia.
  apply take_str_app.
Qed.

(** ** Character membership *)

Lemma str_all_app p a b : str_all p (a +:+ b) = str_all p a && str_all p b.
Proof. induction a as [|c a IH]; cbn; [done|]. by rewrite IH, andb_assoc. Qed.

Lemma contains_char_nil c : contains_char c "" = false.
Proof. done. Qed.

Lemma contains_char_cons c d s :
  contains_char c (String d s) = Ascii.eqb c d || contains_char c s.
Proof. unfold contains_char, str_any. cbn. by rewrite negb_andb, negb_involutive. Qed.

Lemma contains_char_app c a b :
  contains_char c (a +:+ b) = contains_char c a || contains_char c b.
Proof. unfold contains_char, str_any. by rewrite str_all_app, negb_andb. Qed.

(** ** Splitting *)

Lemma split_once_spec sep s a b :
  split_once sep s = Some (a, b) ↔
  s = a +:+ String sep b ∧ contains_char sep a = false.
Proof.
  revert a. induction s as [|c s IH]; intros a; cbn.
  - split; [done|]. intros [H _]. by destruct a.
  - destruct (Ascii.eqb sep c) eqn:E.
    + apply Ascii.eqb_eq in E as ->. split.
      * by intros [= <- <-].
      * intros [Ha Hc]. destruct a as [|d a]; cbn in *; simplify_eq; [done|].
        rewrite contains_char_cons, Ascii.eqb_refl in Hc. done.
    + destruct (split_once sep s) as [[a' b']|] eqn:Es.
      * split.
        -- intros [= <- <-]. destruct (proj1 (IH a')) as [-> Hc]; [done|].
           split; [done|]. by rewrite contains_char_cons, E.
        -- intros [Ha Hc]. destruct a as [|d a]; cbn in *; simplify_eq.
           { by rewrite Ascii.eqb_refl in E. }
           rewrite contains_char_cons, E in Hc. cbn in Hc.
           by pose proof (proj2 (IH a) (conj eq_refl Hc)) as [= <- <-].
      * split; [done|]. intros [Ha Hc]. destruct a as [|d a]; cbn in *; simplify_eq.
        { by rewrite Ascii.eqb_refl in E. }
        rewrite contains_char_cons, E in Hc. cbn in Hc.
        by pose proof (proj2 (IH a) (conj eq_refl Hc)).
Qed.

Lemma split_once_None sep s : split_once sep s = None ↔ contains_char sep s = false.
Proof.
  induction s as [|c s IH]; cbn; [done|]. rewrite contains_char_cons.
  destruct (Ascii.eqb sep c); cbn; [done|].
  destruct (split_once sep s) as [[]|]; naive_solver.
Qed.

(** ** The order on strings *)

Lemma str_ltb_irrefl s : str_ltb s s = false.
Proof.
  induction s as [|c s IH]; cbn; [done|]. by rewrite N.ltb_irrefl, Ascii.eqb_refl.
Qed.

Lemma str_ltb_trans a b c : str_ltb a b = true → str_ltb b c = true → str_ltb a c = true.
Proof.
  revert b c. induction a as [|x a IH]; intros [|y b] [|z c]; cbn; try done.
  rewrite !orb_true_iff, !andb_true_iff, !N.ltb_lt, !Ascii.eqb_eq.
  intros [?|[-> ?]] [?|[-> ?]]; [left; lia|by left|by left|]. right; eauto.
Qed.

Lemma str_ltb_total a b : str_ltb a b = true ∨ a = b ∨ str_ltb b a = true.
Proof.
  revert b. induction a as [|x a IH]; intros [|y b]; cbn; auto.
  destruct (N.lt_trichotomy (N_of_ascii x) (N_of_ascii y)) as [H|[H|H]].
  - left. by rewrite (proj2 (N.ltb_lt _ _) H).
  - assert (x = y) as -> by (by rewrite <-(ascii_N_embedding x), H, ascii_N_embedding).
    rewrite N.ltb_irrefl, Ascii.eqb_refl. cbn. destruct (IH b) as [?|[->|?]]; auto.
  - right; right. by rewrite (proj2 (N.ltb_lt _ _) H).
Qed.

Lemma str_leb_refl s : str_leb s s = true.
Proof. unfold str_leb. by rewrite str_ltb_irrefl. Qed.

(** ** Strings the strict validators accept *)

(** A canonical identifier: non-empty and already stripped. *)
Definition wf_str (s : string) : bool := String.eqb (strip s) s && negb (String.eqb s "").

Lemma wf_str_spec s : wf_str s = true ↔ strip s = s ∧ s ≠ "".
Proof.
  unfold wf_str. rewrite andb_true_iff, String.eqb_eq, negb_true_iff, String.eqb_neq. done.
Qed.

Lemma strip_wf s : strip s ≠ "" → wf_str (strip s) = true.
Proof. intros H. apply wf_str_spec. by rewrite strip_idem. Qed.

Lemma rstrip_by_none p s : str_all (fun c => negb (p c)) s = true → rstrip_by p s = s.
Proof.
  induction s as [|c s IH]; cbn; [done|].
  intros [Hc Hs]%andb_true_iff. rewrite (IH Hs). apply negb_true_iff in Hc.
  destruct s; by rewrite ?Hc.
Qed.

Lemma strip_no_space s : str_all (fun c => negb (is_space c)) s = true → strip s = s.
Proof.
  intros H. unfold strip. rewrite (lstrip_by_fix is_space s).
  - by apply rstrip_by_none.
  - destruct s as [|c s]; [done|]. cbn in H.
    by apply andb_true_iff in H as [?%negb_true_iff _].
Qed.

Lemma str_all_impl (p q : ascii → bool) s :
  (∀ c, p c = true → q c = true) → str_all p s = true → str_all q s = true.
Proof.
  intros H. induction s as [|c s IH]; cbn; [done|].
  rewrite !andb_true_iff. naive_solver.
Qed.

Lemma lower_hex_not_space c : is_lower_hex c = true → negb (is_space c) = true.
Proof.
  unfold is_lower_hex, is_space. generalize (N_of_ascii c) as n. intros n.
  rewrite negb_true_iff, !orb_true_iff, !andb_true_iff, !N.leb_le.
  rewrite !orb_false_iff, !andb_false_iff, !N.leb_gt, !N.eqb_neq. lia.
Qed.

Lemma sha256_hex_wf s : is_sha256_hex s = true → wf_str s = true.
Proof.
  unfold is_sha256_hex. intros [Hl%Nat.eqb_eq Hh]%andb_true_iff.
  apply wf_str_spec. split.
  - apply strip_no_space. eapply str_all_impl; [apply lower_hex_not_space|done].
  - by intros ->.
Qed.

Create HintDb libos_str.
#[export] Hint Resolve strip_wf sha256_hex_wf : libos_str.

(** The code point order as a decidable total order. *)
Definition str_le (a b : string) : Prop := str_leb a b = true.

#[export] Instance str_le_dec : RelDecision str_le.
Proof. intros a b. unfold str_le. apply _. Defined.

#[export] Instance str_le_total : Total str_le.
Proof.
  intros a b. unfold str_le, str_leb.
  destruct (str_ltb_total a b) as [H|[->|H]].
  - left. destruct (str_ltb b a) eqn:E; [|done].
    pose proof (str_ltb_trans _ _ _ H E) as C. by rewrite str_ltb_irrefl in C.
  - left. by rewrite str_ltb_irrefl.
  - right. destruct (str_ltb a b) eqn:E; [|done].
    pose proof (str_ltb_trans _ _ _ H E) as C. by rewrite str_ltb_irrefl in C.
Qed.

Lemma str_le_lt_or_eq a b : str_le a b ↔ str_ltb a b = true ∨ a = b.
Proof.
  unfold str_le, str_leb. rewrite negb_true_iff. split.
  - intros H. destruct (str_ltb_total a b) as [?|[?|?]]; [by left|by right|congruence].
  - intros [H| ->]; [|apply str_ltb_irrefl]. destruct (str_ltb b a) eqn:E; [|done].
    pose proof (str_ltb_trans _ _ _ H E) as C. by rewrite str_ltb_irrefl in C.
Qed.

#[export] Instance str_le_trans : Transitive str_le.
Proof.
  intros a b c. rewrite !str_le_lt_or_eq. intros [H1| ->] [H2| ->]; auto.
  left. by eapply str_ltb_trans.
Qed.

#[export] Instance str_le_antisymm : AntiSymm (=) str_le.
Proof.
  intros a b H1 H2. apply str_le_lt_or_eq in H1 as [H1|H1]; [|done].
  apply str_le_lt_or_eq in H2 as [H2|H2]; [|done].
  pose proof (str_ltb_trans _ _ _ H1 H2) as C. rewrite str_ltb_irrefl in C. discriminate C.
Qed.

(** *** Rows by date, then by identifier *)

(** [ORDER BY created_at, id], on the two columns. *)
Definition dated_ltb (a b : string * string) : bool :=
  str_ltb (fst a) (fst b) || String.eqb (fst a) (fst b) && str_ltb (snd a) (snd b).

Lemma dated_irrefl a : dated_ltb a a = false.
Proof. unfold dated_ltb. by rewrite !str_ltb_irrefl, andb_false_r. Qed.

Lemma dated_trans a b c : dated_ltb a b = true → dated_ltb b c = true → dated_ltb a c = true.
Proof.
  unfold dated_ltb. rewrite !orb_true_iff, !andb_true_iff, !String.eqb_eq.
  intros [H1|[E1 H1]] [H2|[E2 H2]].
  - left. by eapply str_ltb_trans.
  - left. by rewrite <-E2.
  - left. by rewrite E1.
  - right. split; [congruence|by eapply str_ltb_trans].
Qed.

Lemma dated_total a b : dated_ltb a b = true ∨ a = b ∨ dated_ltb b a = true.
Proof.
  destruct a as [x i], b as [y j]. unfold dated_ltb. cbn. destruct (str_ltb_total x y) as [-> |[-> | -> ]].
  - by left.
  - rewrite str_ltb_irrefl, String.eqb_refl. cbn. destruct (str_ltb_total i j) as [-> |[-> | -> ]]; auto.
  - by right; right.
Qed.

Lemma dated_asym a b : dated_ltb a b = true → dated_ltb b a = false.
Proof.
  intros Hab. destruct (dated_ltb b a) eqn:Hba; [|done]. pose proof (dated_trans _ _ _ Hab Hba) as Hx.
  by rewrite dated_irrefl in Hx.
Qed.

(** Rows ordered by such a key. *)
Definition dated_le {A} (key : A → string * string) (a b : A) : Prop := dated_ltb (key b) (key a) = false.

#[export] Instance dated_le_trans {A} (key : A → string * string) : Transitive (dated_le key).
Proof.
  unfold dated_le. intros x y z Hxy Hyz. destruct (dated_ltb (key z) (key x)) eqn:Hzx; [exfalso|done].
  destruct (dated_total (key y) (key z)) as [Hc|[Hc|Hc]]; [|congruence..].
  pose proof (dated_trans _ _ _ Hc Hzx). congruence.
Qed.

#[export] Instance dated_le_total {A} (key : A → string * string) : Total (dated_le key).
Proof.
  unfold dated_le. intros x y. destruct (dated_ltb (key y) (key x)) eqn:Hyx; [right|by left].
  by apply dated_asym.
Qed.

(** ** Stable sorts

    [list.sort] and [sorted]: elements with equal keys keep their order.  A
    second sort refines the first one: what it leaves tied stays in the order it
    was in. *)

Section StableSort.
Context {A : Type} (R : relation A) `{!RelDecision R}.

Fixpoint insert_stable (x : A) (l : list A) : list A :=
  match l with
  | [] => [x]
  | y :: l' => if bool_decide (R x y) then x :: y :: l' else y :: insert_stable x l'
  end.

Definition stable_sort (l : list A) : list A := foldr insert_stable [] l.

Lemma insert_stable_perm x l : insert_stable x l ≡ₚ x :: l.
Proof.
  induction l as [|y l IH]; cbn; [done|]. case_bool_decide; [done|]. rewrite IH. apply Permutation_swap.
Qed.

Lemma stable_sort_perm l : stable_sort l ≡ₚ l.
Proof. induction l as [|x l IH]; cbn; [done|]. by rewrite insert_stable_perm, IH. Qed.

(** Below in [R], and, where [R] ties them, below in [Q]. *)
Definition refined (Q : relation A) (x y : A) : Prop := R x y ∧ (R y x → Q x y).

Context `{!Transitive R, !Total R} (Q : relation A).

Lemma insert_stable_sorted x l :
  Forall (Q x) l → StronglySorted (refined Q) l → StronglySorted (refined Q) (insert_stable x l).
Proof.
  intros Hq Hs. induction Hs as [|y l Hs IH Hy]; cbn; [by repeat constructor|].
  apply Forall_cons in Hq as [Hxy Hq]. case_bool_decide as Hr.
  - constructor; [by constructor|]. constructor; [done|].
    apply Forall_forall. intros z Hz. rewrite Forall_forall in Hy, Hq. destruct (Hy z Hz) as [Hyz _].
    split; [by etrans|]. intros _. by apply Hq.
  - constructor; [by apply IH|]. rewrite insert_stable_perm. constructor; [|done].
    split; [|done]. by destruct (total R x y).
Qed.

Lemma stable_sort_sorted l : StronglySorted Q l → StronglySorted (refined Q) (stable_sort l).
Proof.
  induction 1 as [|x l Hs IH Hx]; cbn; [constructor|]. apply insert_stable_sorted; [|done].
  by rewrite stable_sort_perm.
Qed.
End StableSort.

Lemma stable_sort_ordered {A} (R : relation A) `{!RelDecision R, !Transitive R, !Total R} l :
  StronglySorted R (stable_sort R l).
Proof.
  assert (StronglySorted (refined R (fun _ _ => True)) (stable_sort R l)) as Hs.
  { apply stable_sort_sorted; [done..|]. induction l; constructor; [done|]. by apply Forall_forall. }
  induction Hs as [|x k Hs IH Hx]; constructor; [done|]. eapply Forall_impl; [exact Hx|by intros y []].
Qed.

(** ** Keyset pages

    Rows read in the order of a date and an identifier, page by page from a
    cursor: distinct rows in that order are one strictly sorted list, and what
    lies beyond the last row of a page is the rest of the list. *)

Section Keyset.
Context {A : Type} (key : A → string * string).

Definition dated_lt (a b : A) : Prop := dated_ltb (key a) (key b) = true.

Lemma dated_strict_ext l k :
  StronglySorted dated_lt l → StronglySorted dated_lt k → (∀ x, x ∈ l ↔ x ∈ k) → l = k.
Proof.
  assert (Hlt : ∀ u v w : A, dated_lt u v → dated_lt v u → u = w).
  { intros u v w H1 H2. apply dated_asym in H1. unfold dated_lt in H2. congruence. }
  assert (Hne : ∀ u : A, ¬ dated_lt u u) by (intros u Hu; unfold dated_lt in Hu; by rewrite dated_irrefl in Hu).
  revert k. induction l as [|x l IH]; intros k Hl Hk Hx.
  - destruct k as [|y k]; [done|]. exfalso. apply (not_elem_of_nil y), Hx. left.
  - destruct k as [|y k]; [exfalso; apply (not_elem_of_nil x), Hx; left|].
    inversion Hl as [|? ? Hl' Hxl]; inversion Hk as [|? ? Hk' Hyk]; subst. rewrite Forall_forall in Hxl, Hyk.
    assert (x = y) as <-.
    { destruct (proj1 (elem_of_cons _ _ _) (proj1 (Hx x) ltac:(left))) as [Exy|Hin]; [done|].
      destruct (proj1 (elem_of_cons _ _ _) (proj2 (Hx y) ltac:(left))) as [Exy|Hin']; [done|]. by apply (Hlt x y); [apply Hxl|apply Hyk]. }
    f_equal. apply IH; [done..|]. intros z. split; intros Hz.
    + destruct (proj1 (elem_of_cons _ _ _) (proj1 (Hx z) ltac:(by right))) as [Exy|Hxy]; [subst z|done]. apply Hxl in Hz. by destruct (Hne x).
    + destruct (proj1 (elem_of_cons _ _ _) (proj2 (Hx z) ltac:(by right))) as [Exy|Hxy]; [subst z|done]. apply Hyk in Hz. by destruct (Hne x).
Qed.

Lemma dated_app_inv l k : StronglySorted dated_lt (l ++ k) →
  StronglySorted dated_lt l ∧ StronglySorted dated_lt k ∧ ∀ x y, x ∈ l → y ∈ k → dated_lt x y.
Proof.
  induction l as [|x l IH]; cbn; intros Hs; [split; [constructor|split; [done|intros ? ? Hx; by apply elem_of_nil in Hx]]|].
  inversion Hs as [|? ? Hs' Hall]; subst. destruct (IH Hs') as (H1 & H2 & H3). rewrite Forall_app, !Forall_forall in Hall.
  destruct Hall as [Ha Hb]. split; [constructor; [done|by apply Forall_forall]|]. split; [done|].
  intros u v [->|Hu]%elem_of_cons Hv; [by apply Hb|by apply H3].
Qed.

(** What lies beyond the last row of a page. *)
Lemma dated_beyond_last n l x y :
  StronglySorted dated_lt l → list.last (take n l) = Some x → (y ∈ l ∧ dated_lt x y) ↔ y ∈ drop n l.
Proof.
  intros Hs Hx. apply last_Some in Hx as [p Hp]. pose proof (take_drop n l) as Hl. rewrite Hp in Hl.
  rewrite <-Hl in Hs. apply dated_app_inv in Hs as (Hp' & _ & Hlt). apply dated_app_inv in Hp' as (_ & _ & Hpx).
  unfold dated_lt in *. split.
  - intros [Hy Hxy]. rewrite <-Hl in Hy. rewrite !elem_of_app, list_elem_of_singleton in Hy. destruct Hy as [[Hy| ->]|Hy]; [| |done].
    + assert (dated_ltb (key y) (key x) = true) as Hyx by (apply Hpx; [done|left]). apply dated_asym in Hyx. congruence.
    + by rewrite dated_irrefl in Hxy.
  - intros Hy. split; [rewrite <-Hl; apply elem_of_app; by right|]. apply Hlt; [|done]. apply elem_of_app. right. left.
Qed.

(** Distinct rows in order are strictly sorted. *)
Lemma dated_sorted_strict l :
  NoDup (map key l) → StronglySorted (dated_le key) l → StronglySorted dated_lt l.
Proof.
  intros Hnd Hs. induction Hs as [|x l Hs IH Hx]; [constructor|]. cbn in Hnd. apply NoDup_cons in Hnd as [Hni Hnd].
  constructor; [by apply IH|]. rewrite Forall_forall in *. intros y Hy. specialize (Hx y Hy). unfold dated_le in Hx. unfold dated_lt.
  destruct (dated_total (key x) (key y)) as [|[He|]]; [done| |congruence].
  exfalso. apply Hni. rewrite He. by apply list_elem_of_In, in_map, list_elem_of_In.
Qed.
End Keyset.
