(* ===== verification/PyVal.v ===== *)
(** * Python numbers and dynamic values

    [num] is a Python number: an unbounded [int] or an IEEE 754 binary64
    [float] (the axiom-free [spec_float] of the standard library).  [pyval]
    is a dynamically typed value as the code receives it from JSON columns,
    tool arguments and authorization contexts.  [json] is the exact JSON
    tree the strict validators produce; at the end, dicts whose keys are texts. *)

From S2P Require Import Prelude PyStr.
From Stdlib Require Export SpecFloat.

(** ** Numbers *)

Definition prec : Z := 53.
Definition emax : Z := 1024.

Inductive num : Set :=
| NInt (z : Z)
| NFloat (f : spec_float).

#[export] Instance spec_float_eq_dec : EqDecision spec_float.
Proof. solve_decision. Defined.
#[export] Instance num_eq_dec : EqDecision num.
Proof. solve_decision. Defined.

(** [math.isfinite]. *)
Definition sf_finite (f : spec_float) : bool :=
  match f with
  | S754_zero _ | S754_finite _ _ _ => true
  | S754_infinity _ | S754_nan => false
  end.

(** The exact value of a number: [m * 2^e], an infinity, or NaN. *)
Inductive num_view : Set :=
| VFin (m e : Z)
| VInf (negative : bool)
| VNan.

Definition view_of_num (n : num) : num_view :=
  match n with
  | NInt z => VFin z 0
  | NFloat (S754_zero _) => VFin 0 0
  | NFloat (S754_finite s m e) => VFin (if s then Z.neg m else Z.pos m) e
  | NFloat (S754_infinity s) => VInf s
  | NFloat S754_nan => VNan
  end.

(** Python compares an [int] with a [float] by their exact values. *)
Definition num_compare (a b : num) : option comparison :=
  match view_of_num a, view_of_num b with
  | VNan, _ | _, VNan => None
  | VInf s, VInf t =>
      Some (match s, t with true, false => Lt | false, true => Gt | _, _ => Eq end)
  | VInf s, _ => Some (if s then Lt else Gt)
  | _, VInf t => Some (if t then Gt else Lt)
  | VFin m e, VFin m' e' =>
      let k := Z.min e e' in
      Some (Z.compare (Z.shiftl m (e - k)) (Z.shiftl m' (e' - k)))
  end.

Definition num_eqb (a b : num) : bool :=
  match num_compare a b with Some Eq => true | _ => false end.
Definition num_ltb (a b : num) : bool :=
  match num_compare a b with Some Lt => true | _ => false end.
Definition num_leb (a b : num) : bool :=
  match num_compare a b with Some Lt | Some Eq => true | _ => false end.
Definition num_gtb (a b : num) : bool := num_ltb b a.

(** [float(n)]: an integer rounds to the nearest binary64 value and raises
    when it is out of range. *)
Definition to_float (n : num) : res spec_float :=
  match n with
  | NFloat f => Ok f
  | NInt z =>
      match binary_normalize prec emax z 0 false with
      | S754_infinity _ => Err (OverflowError "int too large to convert to float")
      | f => Ok f
      end
  end.

(** [a + b] and [a - b]: exact on integers, binary64 otherwise. *)
Definition num_add (a b : num) : res num :=
  match a, b with
  | NInt x, NInt y => Ok (NInt (x + y))
  | _, _ => x ← to_float a; y ← to_float b; Ok (NFloat (SFadd prec emax x y))
  end.

Definition num_sub (a b : num) : res num :=
  match a, b with
  | NInt x, NInt y => Ok (NInt (x - y))
  | _, _ => x ← to_float a; y ← to_float b; Ok (NFloat (SFsub prec emax x y))
  end.

(** [max(a, b)] and [min(a, b)] return the first argument on ties. *)
Definition num_max (a b : num) : num := if num_gtb b a then b else a.
Definition num_min (a b : num) : num := if num_ltb b a then b else a.

(** ** Dynamic values *)

Inductive pyval : Type :=
| PNone
| PBool (b : bool)
| PInt (z : Z)
| PFloat (f : spec_float)
| PStr (s : string)
| PList (l : list pyval)
| PTuple (l : list pyval)
| PSet (l : list pyval)
| PDict (kvs : list (pyval * pyval)).

(** The number a value denotes in arithmetic and comparisons: [bool] is a
    subclass of [int]. *)
Definition num_of (v : pyval) : option num :=
  match v with
  | PBool b => Some (NInt (if b then 1 else 0))
  | PInt z => Some (NInt z)
  | PFloat f => Some (NFloat f)
  | _ => None
  end.

(** [a == b].  Mappings compare by content whatever their order. *)
Fixpoint py_eq (a b : pyval) {struct a} : bool :=
  match a, b with
  | PNone, PNone => true
  | PStr s, PStr t => String.eqb s t
  | PList l, PList m | PTuple l, PTuple m =>
      (fix go (l m : list pyval) : bool :=
         match l, m with
         | [], [] => true
         | x :: l', y :: m' => py_eq x y && go l' m'
         | _, _ => false
         end) l m
  | PSet l, PSet m =>
      (length l =? length m) &&
      (fix go (l : list pyval) : bool :=
         match l with
         | [] => true
         | x :: l' => existsb (py_eq x) m && go l'
         end) l
  | PDict d, PDict e =>
      (length d =? length e) &&
      (fix go (d : list (pyval * pyval)) : bool :=
         match d with
         | [] => true
         | (k, v) :: d' =>
             existsb (fun kv => py_eq k (fst kv) && py_eq v (snd kv)) e && go d'
         end) d
  | _, _ =>
      match num_of a, num_of b with
      | Some x, Some y => num_eqb x y
      | _, _ => false
      end
  end.

(** [d.get(key)] for a string key: only a [str] key can equal it. *)
Fixpoint dict_get (d : list (pyval * pyval)) (key : string) : option pyval :=
  match d with
  | [] => None
  | (PStr k, v) :: d' => if String.eqb k key then Some v else dict_get d' key
  | _ :: d' => dict_get d' key
  end.

(** [value.get(key)] with the default [None]. *)
Definition dict_get_none (d : list (pyval * pyval)) (key : string) : pyval :=
  match dict_get d key with Some v => v | None => PNone end.

Definition dict_has (d : list (pyval * pyval)) (key : string) : bool :=
  match dict_get d key with Some _ => true | None => false end.

Definition is_str (v : pyval) : bool := match v with PStr _ => true | _ => false end.
Definition is_bool (v : pyval) : bool := match v with PBool _ => true | _ => false end.
Definition is_dict (v : pyval) : bool := match v with PDict _ => true | _ => false end.
Definition is_none (v : pyval) : bool := match v with PNone => true | _ => false end.

(** An optional string as a value. *)
Definition py_opt (o : option string) : pyval :=
  match o with Some s => PStr s | None => PNone end.

(** The string keys of a mapping, in order. *)
Fixpoint str_keys (d : list (pyval * pyval)) : list string :=
  match d with
  | [] => []
  | (PStr k, _) :: d' => k :: str_keys d'
  | _ :: d' => str_keys d'
  end.

(** [any(type(key) is not str for key in value)]. *)
Definition has_non_str_key (d : list (pyval * pyval)) : bool :=
  existsb (fun kv => negb (is_str (fst kv))) d.

(** [set(value) == expected] for string keys (keys of a dict are unique). *)
Definition keys_are (d : list (pyval * pyval)) (expected : list string) : bool :=
  forallb (fun k => bool_decide (k ∈ expected)) (str_keys d)
  && forallb (fun k => bool_decide (k ∈ str_keys d)) expected.

(** [set(value) - fields] is not empty. *)
Definition has_unknown_key (d : list (pyval * pyval)) (fields : list string) : bool :=
  existsb (fun kv => match fst kv with PStr k => negb (bool_decide (k ∈ fields)) | _ => true end) d.

Definition dict_get_default (d : list (pyval * pyval)) (key : string) (default : pyval) : pyval :=
  match dict_get d key with Some v => v | None => default end.

(** [value.get(key) or default]: the falsy values of the decoded JSON types. *)
Definition py_falsy (v : pyval) : bool :=
  match v with
  | PNone | PBool false | PStr "" | PList [] | PTuple [] | PSet [] | PDict [] => true
  | PInt z => (z =? 0)%Z
  | PFloat f => num_eqb (NFloat f) (NInt 0)
  | _ => false
  end.

(** [tuple(value)] of an iterable value. *)
Definition py_items (v : pyval) : res (list pyval) :=
  match v with
  | PList l | PTuple l | PSet l => Ok l
  | PDict d => Ok (map fst d)
  | PStr s => Ok (map (fun c => PStr (String c "")) (String.list_ascii_of_string s))
  | _ => Err (TypeError "object is not iterable")
  end.

(** ** JSON trees *)

Inductive json : Type :=
| JNull
| JBool (b : bool)
| JInt (z : Z)
| JFloat (f : spec_float)
| JStr (s : string)
| JList (l : list json)
| JObj (kvs : list (string * json)).

Fixpoint py_of_json (j : json) : pyval :=
  match j with
  | JNull => PNone
  | JBool b => PBool b
  | JInt z => PInt z
  | JFloat f => PFloat f
  | JStr s => PStr s
  | JList l => PList (map py_of_json l)
  | JObj kvs => PDict (map (fun kv => (PStr (fst kv), py_of_json (snd kv))) kvs)
  end.

(** Every number of the tree is finite. *)
Fixpoint json_finite (j : json) : bool :=
  match j with
  | JFloat f => sf_finite f
  | JList l => forallb json_finite l
  | JObj kvs => forallb (fun kv => json_finite (snd kv)) kvs
  | _ => true
  end.

(** ** Induction principles for the nested types *)

Section Induction.
Variable P : json → Prop.
Hypothesis Hnull : P JNull.
Hypothesis Hbool : ∀ b, P (JBool b).
Hypothesis Hint : ∀ z, P (JInt z).
Hypothesis Hfloat : ∀ f, P (JFloat f).
Hypothesis Hstr : ∀ s, P (JStr s).
Hypothesis Hlist : ∀ l, Forall P l → P (JList l).
Hypothesis Hobj : ∀ kvs, Forall (fun kv => P (snd kv)) kvs → P (JObj kvs).

Fixpoint json_ind' (j : json) : P j :=
  match j with
  | JNull => Hnull
  | JBool b => Hbool b
  | JInt z => Hint z
  | JFloat f => Hfloat f
  | JStr s => Hstr s
  | JList l => Hlist l
      ((fix go (l : list json) : Forall P l :=
          match l with
          | [] => Forall_nil_2 P
          | x :: l' => Forall_cons_2 P x l' (json_ind' x) (go l')
          end) l)
  | JObj kvs => Hobj kvs
      ((fix go (l : list (string * json)) : Forall (fun kv => P (snd kv)) l :=
          match l with
          | [] => Forall_nil_2 _
          | x :: l' => Forall_cons_2 _ x l' (json_ind' (snd x)) (go l')
          end) kvs)
  end.
End Induction.

(** ** Number lemmas *)

Lemma num_compare_int a b : num_compare (NInt a) (NInt b) = Some (a ?= b)%Z.
Proof. unfold num_compare. cbn. by rewrite !Z.shiftl_0_r. Qed.

Lemma num_ltb_int a b : num_ltb (NInt a) (NInt b) = (a <? b)%Z.
Proof. unfold num_ltb. rewrite num_compare_int. by unfold Z.ltb; destruct (a ?= b)%Z. Qed.

Lemma num_gtb_int a b : num_gtb (NInt a) (NInt b) = (b <? a)%Z.
Proof. apply num_ltb_int. Qed.

Lemma num_eqb_int a b : num_eqb (NInt a) (NInt b) = (a =? b)%Z.
Proof.
  unfold num_eqb. rewrite num_compare_int.
  destruct (Z.compare_spec a b); symmetry; [by apply Z.eqb_eq|apply Z.eqb_neq; lia..].
Qed.

Lemma num_compare_refl n : view_of_num n ≠ VNan → num_compare n n = Some Eq.
Proof.
  unfold num_compare. destruct (view_of_num n) as [m e|s|]; [|by destruct s|done].
  intros _. by rewrite Z.compare_refl.
Qed.

(** ** Objects with text keys

    Python dicts whose keys are texts, in insertion order: what JSON columns,
    metadata, receipts and constraints are. *)

Definition Payload : Type := list (string * pyval).

(** [d.get(key)]. *)
Definition item_get (d : list (string * pyval)) (key : string) : option pyval :=
  option_map snd (List.find (fun kv => String.eqb (fst kv) key) d).

(** The value under [key] is the text [t]. *)
Definition item_is (d : list (string * pyval)) (key t : string) : bool :=
  match item_get d key with Some v => py_eq v (PStr t) | None => false end.

Definition item_has (d : list (string * pyval)) (key : string) : bool :=
  bool_decide (is_Some (item_get d key)).

(** [d.pop(key, None)]. *)
Definition item_pop (d : list (string * pyval)) (key : string) : list (string * pyval) :=
  List.filter (fun kv => negb (String.eqb (fst kv) key)) d.

(** [d[key] = value]. *)
Fixpoint item_set (d : list (string * pyval)) (key : string) (v : pyval) : list (string * pyval) :=
  match d with
  | [] => [(key, v)]
  | (k, w) :: d' => if String.eqb k key then (k, v) :: d' else (k, w) :: item_set d' key v
  end.

(** [{**d, **e}]. *)
Definition payload_merge (d e : Payload) : Payload :=
  foldl (fun acc kv => item_set acc (fst kv) (snd kv)) d e.

(** The text items of a mapping value. *)
Definition str_items (d : list (pyval * pyval)) : list (string * pyval) :=
  omap (fun kv => match fst kv with PStr k => Some (k, snd kv) | _ => None end) d.

(** The object as a value. *)
Definition py_object (d : Payload) : pyval := PDict (map (fun kv => (PStr (fst kv), snd kv)) d).

Definition payload_eq (d e : Payload) : bool := py_eq (py_object d) (py_object e).

(** [a if a is not None else b]. *)
Definition or_payload (a : option Payload) (b : Payload) : Payload :=
  match a with Some d => d | None => b end.

(** [dict.fromkeys]. *)
Definition fromkeys (l : list string) : list string :=
  foldl (fun acc x => if bool_decide (x ∈ acc) then acc else acc ++ [x]) [] l.

Lemma fromkeys_spec l : NoDup (fromkeys l) ∧ ∀ x, x ∈ fromkeys l ↔ x ∈ l.
Proof.
  unfold fromkeys. induction l as [|y l IH] using rev_ind.
  - split; [constructor|done].
  - rewrite foldl_app. cbn. destruct IH as [Hnd Hin]. case_bool_decide as Hy.
    + split; [done|]. intros x. rewrite elem_of_app, list_elem_of_singleton, Hin. rewrite Hin in Hy. naive_solver.
    + split; [|intros x; by rewrite !elem_of_app, Hin].
      apply list.NoDup_app. split; [done|]. split; [|apply NoDup_singleton].
      intros x Hx ->%list_elem_of_singleton. done.
Qed.

Lemma item_get_set d key v : item_get (item_set d key v) key = Some v.
Proof.
  unfold item_get. induction d as [|[k w] d IH]; cbn; [by rewrite String.eqb_refl|].
  destruct (String.eqb_spec k key) as [->|Hne]; cbn; [by rewrite String.eqb_refl|].
  by rewrite (proj2 (String.eqb_neq _ _) Hne).
Qed.
