(* ===== verification/PyEnum.v ===== *)
(** * String enums

    A [StrEnum] of [models/base.py]: a finite list of members, each with a
    distinct string value.  A class, so that coercion, membership and ranking
    in an order are written and proved once. *)

From S2P Require Import Prelude PyStr PyVal.

Class StrEnum (E : Type) := {
  enum_members : list E;
  enum_value : E → string;
}.

(** What an instance promises. *)
Class StrEnumLaws (E : Type) `{StrEnum E} := {
  enum_members_complete (e : E) : e ∈ enum_members;
  enum_value_inj (e e' : E) : enum_value e = enum_value e' → e = e';
}.

Section Enum.
Context {E : Type} `{StrEnum E}.

(** [enum_type(value)]: the member with that value; anything else, a value
    that is not a string included, raises [ValueError]. *)
Definition enum_of (v : pyval) : option E :=
  match v with
  | PStr s => List.find (fun e => String.eqb (enum_value e) s) enum_members
  | _ => None
  end.

Definition enum_call (label : string) (v : pyval) : res E :=
  of_option (ValueError (label +:+ " must be one of the enum values")) (enum_of v).

Lemma enum_of_value `{!StrEnumLaws E} (e : E) : enum_of (PStr (enum_value e)) = Some e.
Proof.
  cbn. destruct (List.find _ _) as [e'|] eqn:F.
  - apply List.find_some in F as [_ F]. apply String.eqb_eq in F.
    f_equal. by apply enum_value_inj.
  - eapply List.find_none in F; [|apply list_elem_of_In, (enum_members_complete e)].
    by rewrite String.eqb_refl in F.
Qed.

Lemma enum_of_Some v e : enum_of v = Some e → v = PStr (enum_value e).
Proof.
  destruct v; cbn; try done. intros F. apply List.find_some in F as [_ F].
  apply String.eqb_eq in F. by subst.
Qed.

Lemma enum_call_value `{!StrEnumLaws E} label (e : E) :
  enum_call label (PStr (enum_value e)) = Ok e.
Proof. unfold enum_call. by rewrite enum_of_value. Qed.
End Enum.

(** Members are listed completely and their values differ. *)
Ltac solve_enum :=
  split; [intros []; cbn; repeat (try (left; done); right)
         |intros [] []; cbn; congruence].

(** [order.index(value)] for a value that occurs. *)
Fixpoint str_index (order : list string) (s : string) : nat :=
  match order with
  | [] => 0
  | x :: rest => if String.eqb x s then 0 else S (str_index rest s)
  end.

(** [max(xs, key=f)] and [min(xs, key=f)] on a non-empty sequence: the first
    of the extreme elements. *)
Section Extrema.
Context {A : Type} (f : A → nat).

Definition max_by (x : A) (l : list A) : A :=
  foldl (fun best y => if f best <? f y then y else best) x l.

Definition min_by (x : A) (l : list A) : A :=
  foldl (fun best y => if f y <? f best then y else best) x l.

Lemma max_by_spec x l : max_by x l ∈ x :: l ∧ ∀ y, y ∈ x :: l → f y <= f (max_by x l).
Proof.
  unfold max_by. revert x. induction l as [|z l IH]; intros x; cbn [foldl].
  - split; [left|]. intros y Hy. apply list_elem_of_singleton in Hy. by subst.
  - destruct (Nat.ltb_spec (f x) (f z)) as [Hlt|Hge].
    + destruct (IH z) as [Hin Hmax]. split; [by right|].
      intros y Hy. apply elem_of_cons in Hy as [->|Hy]; [|by apply Hmax].
      specialize (Hmax z ltac:(left)). lia.
    + destruct (IH x) as [Hin Hmax]. split.
      * apply elem_of_cons in Hin as [E|Hin]; [rewrite E; left|by do 2 right].
      * intros y Hy. apply elem_of_cons in Hy as [->|Hy]; [apply Hmax; left|].
        apply elem_of_cons in Hy as [->|Hy]; [|apply Hmax; by right].
        specialize (Hmax x ltac:(left)). lia.
Qed.

Lemma min_by_spec x l : min_by x l ∈ x :: l ∧ ∀ y, y ∈ x :: l → f (min_by x l) <= f y.
Proof.
  unfold min_by. revert x. induction l as [|z l IH]; intros x; cbn [foldl].
  - split; [left|]. intros y Hy. apply list_elem_of_singleton in Hy. by subst.
  - destruct (Nat.ltb_spec (f z) (f x)) as [Hlt|Hge].
    + destruct (IH z) as [Hin Hmin]. split; [by right|].
      intros y Hy. apply elem_of_cons in Hy as [->|Hy]; [|by apply Hmin].
      specialize (Hmin z ltac:(left)). lia.
    + destruct (IH x) as [Hin Hmin]. split.
      * apply elem_of_cons in Hin as [E|Hin]; [rewrite E; left|by do 2 right].
      * intros y Hy. apply elem_of_cons in Hy as [->|Hy]; [apply Hmin; left|].
        apply elem_of_cons in Hy as [->|Hy]; [|apply Hmin; by right].
        specialize (Hmin x ltac:(left)). lia.
Qed.
End Extrema.
