(* ===== verification/ProcessState.v ===== *)
(** * Typed process state

    [agent_libos/models/process_state.py]: the wait states and terminal
    outcomes of an agent process, the product invariant between them and the
    status, the canonical mappings persisted in the process table, the legacy
    projection and its decoder, and the identity remapping used by fork and
    restore. *)

From S2P Require Import Prelude PyStr PyVal.
From Stdlib Require Import Ascii.

Definition PROCESS_STATE_SCHEMA_VERSION : Z := 1.

(** ** Field validators *)

Definition _non_empty_string (value : pyval) (field_name : string) : res string :=
  match value with
  | PStr s =>
      if String.eqb (strip s) ""
      then Err (ValidationError ("process state " +:+ field_name +:+ " must be a non-empty string"))
      else Ok (strip s)
  | _ => Err (ValidationError ("process state " +:+ field_name +:+ " must be a non-empty string"))
  end.

Definition _optional_string (value : pyval) (field_name : string) : res (option string) :=
  match value with
  | PNone => Ok None
  | _ => s ← _non_empty_string value field_name; Ok (Some s)
  end.

(** [bool] is excluded although it is a subclass of [int]. *)
Definition _nonnegative_integer (value : pyval) (field_name : string) : res Z :=
  match value with
  | PInt z =>
      if (z <? 0)%Z
      then Err (ValidationError ("process state " +:+ field_name +:+ " must be a non-negative integer"))
      else Ok z
  | _ => Err (ValidationError ("process state " +:+ field_name +:+ " must be a non-negative integer"))
  end.

Definition _positive_integer (value : pyval) (field_name : string) : res Z :=
  selected ← _nonnegative_integer value field_name;
  if (selected =? 0)%Z
  then Err (ValidationError ("process state " +:+ field_name +:+ " must be positive"))
  else Ok selected.

Definition _sha256 (value : pyval) (field_name : string) : res string :=
  selected ← _non_empty_string value field_name;
  if is_sha256_hex selected then Ok selected
  else Err (ValidationError ("process state " +:+ field_name +:+ " must be a canonical SHA-256")).

Definition _optional_sha256 (value : pyval) (field_name : string) : res (option string) :=
  match value with
  | PNone => Ok None
  | _ => s ← _sha256 value field_name; Ok (Some s)
  end.

(** The mapping must have exactly the keys [schema_version], [kind] and
    [fields], the current schema version and the expected kind. *)
Definition _canonical_mapping (value : list (pyval * pyval)) (kind : string)
    (fields : list string) : res (list (pyval * pyval)) :=
  _ ← raise_if (has_non_str_key value)
        (ValidationError ("process state " +:+ kind +:+ " contains a non-string JSON object key"));
  let selected := value in
  let expected := "schema_version" :: "kind" :: fields in
  _ ← raise_if (negb (keys_are selected expected))
        (ValidationError ("process state " +:+ kind +:+ " is not canonical"));
  _ ← raise_if
        (match dict_get selected "schema_version" with
         | Some (PInt z) => negb (z =? PROCESS_STATE_SCHEMA_VERSION)%Z
         | _ => true
         end)
        (ValidationError "unsupported process state schema_version");
  _ ← raise_if
        (match dict_get selected "kind" with
         | Some (PStr k) => negb (String.eqb k kind)
         | _ => true
         end)
        (ValidationError "process state kind mismatch");
  Ok selected.

(** [selected[key]] after the key set has been checked. *)
Definition field (d : list (pyval * pyval)) (key : string) : pyval := dict_get_none d key.

(** ** Strict JSON values

    [_strict_json_value] on a value without sharing, such as the ones the
    JSON decoder produces.  Module [StrictJsonHeap] models the same function
    on an arbitrary object graph, where the cycle check matters. *)

Fixpoint _strict_json_value (v : pyval) : res json :=
  match v with
  | PNone => Ok JNull
  | PStr s => Ok (JStr s)
  | PBool b => Ok (JBool b)
  | PInt z => Ok (JInt z)
  | PFloat f =>
      if sf_finite f then Ok (JFloat f)
      else Err (ValidationError "process state message filters contain a non-finite number")
  | PDict kvs =>
      normalized ← mapR (fun kv =>
        match kv with
        | (PStr k, item) => j ← _strict_json_value item; Ok (k, j)
        | _ => Err (ValidationError "process state message filters contain a non-string JSON object key")
        end) kvs;
      Ok (JObj normalized)
  | PList l => items ← mapR _strict_json_value l; Ok (JList items)
  | PTuple _ | PSet _ =>
      Err (ValidationError "process state message filters contain non-JSON value")
  end.

(** ** Wait states and outcomes *)

Record StaleExecutionReceipt : Set := {
  stale_pid : string;
  recovered_by_owner_sha256 : string;
  prior_owner_sha256 : option string;
  prior_lease_sha256 : option string;
  prior_execution_generation : Z;
  recovered_execution_generation : Z;
  recovered_state_generation : Z;
}.

#[export] Instance StaleExecutionReceipt_eq_dec : EqDecision StaleExecutionReceipt.
Proof. solve_decision. Defined.

Inductive ProcessWaitState : Type :=
| ChildProcessWait (child_pid : string)
| MessageProcessWait (filters : list (string * json))
| HumanProcessWait (request_ids : list string)
| ToolProcessWait (operation_id : string)
| PausedProcessWait (reason_oid : option string)
| HostResumeProcessWait (reason_oid : string)
| StaleExecutionProcessWait (receipt : StaleExecutionReceipt).

Inductive ProcessOutcome : Set :=
| ExitedProcessOutcome (result_oid : option string)
| FailedProcessOutcome (result_oid code : option string)
| KilledProcessOutcome (reason_oid code : option string).

#[export] Instance ProcessOutcome_eq_dec : EqDecision ProcessOutcome.
Proof. solve_decision. Defined.

(** [kind] class attributes. *)
Definition wait_kind (w : ProcessWaitState) : string :=
  match w with
  | ChildProcessWait _ => "child"
  | MessageProcessWait _ => "message"
  | HumanProcessWait _ => "human"
  | ToolProcessWait _ => "tool"
  | PausedProcessWait _ => "paused"
  | HostResumeProcessWait _ => "host_resume"
  | StaleExecutionProcessWait _ => "stale_execution"
  end.

Definition outcome_kind (o : ProcessOutcome) : string :=
  match o with
  | ExitedProcessOutcome _ => "exited"
  | FailedProcessOutcome _ _ => "failed"
  | KilledProcessOutcome _ _ => "killed"
  end.

(** ** Constructors: the dataclasses' [__post_init__] *)

Definition mk_ChildProcessWait (child_pid : pyval) : res ProcessWaitState :=
  s ← _non_empty_string child_pid "child_pid"; Ok (ChildProcessWait s).

Definition mk_MessageProcessWait (filters : pyval) : res ProcessWaitState :=
  match filters with
  | PDict _ =>
      j ← _strict_json_value filters;
      match j with
      | JObj kvs => Ok (MessageProcessWait kvs)
      | _ => Err (ValidationError "process state message filters must be an object")
      end
  | _ => Err (ValidationError "process state message filters must be an object")
  end.

Definition mk_HumanProcessWait (request_ids : list pyval) : res ProcessWaitState :=
  ids ← mapR (fun r => _non_empty_string r "request_ids[]") request_ids;
  match ids with
  | [] => Err (ValidationError "process state human request_ids must not be empty")
  | _ =>
      if bool_decide (NoDup ids) then Ok (HumanProcessWait ids)
      else Err (ValidationError "process state human request_ids must not contain duplicates")
  end.

Definition mk_ToolProcessWait (operation_id : pyval) : res ProcessWaitState :=
  s ← _non_empty_string operation_id "operation_id"; Ok (ToolProcessWait s).

Definition mk_PausedProcessWait (reason_oid : pyval) : res ProcessWaitState :=
  s ← _optional_string reason_oid "reason_oid"; Ok (PausedProcessWait s).

Definition mk_HostResumeProcessWait (reason_oid : pyval) : res ProcessWaitState :=
  s ← _non_empty_string reason_oid "reason_oid"; Ok (HostResumeProcessWait s).

Definition mk_StaleExecutionProcessWait
    (pid recovered_by prior_owner prior_lease prior_gen rec_gen rec_state : pyval)
    : res ProcessWaitState :=
  pid ← _non_empty_string pid "pid";
  by_ ← _sha256 recovered_by "recovered_by_owner_sha256";
  po ← _optional_sha256 prior_owner "prior_owner_sha256";
  pl ← _optional_sha256 prior_lease "prior_lease_sha256";
  pg ← _nonnegative_integer prior_gen "prior_execution_generation";
  rg ← _positive_integer rec_gen "recovered_execution_generation";
  rs ← _positive_integer rec_state "recovered_state_generation";
  Ok (StaleExecutionProcessWait
        {| stale_pid := pid; recovered_by_owner_sha256 := by_;
           prior_owner_sha256 := po; prior_lease_sha256 := pl;
           prior_execution_generation := pg;
           recovered_execution_generation := rg;
           recovered_state_generation := rs |}).

Definition mk_ExitedProcessOutcome (result_oid : pyval) : res ProcessOutcome :=
  r ← _optional_string result_oid "result_oid"; Ok (ExitedProcessOutcome r).

Definition mk_FailedProcessOutcome (result_oid code : pyval) : res ProcessOutcome :=
  r ← _optional_string result_oid "result_oid";
  c ← _optional_string code "code"; Ok (FailedProcessOutcome r c).

Definition mk_KilledProcessOutcome (reason_oid code : pyval) : res ProcessOutcome :=
  r ← _optional_string reason_oid "reason_oid";
  c ← _optional_string code "code"; Ok (KilledProcessOutcome r c).

(** ** The status/wait/outcome product *)

Definition validate_process_state_fields (selected_status : string)
    (wait_state : option ProcessWaitState) (outcome : option ProcessOutcome) : res unit :=
  _ ← (if String.eqb selected_status "waiting_event" then
         match wait_state with
         | Some (ChildProcessWait _) | Some (MessageProcessWait _) => Ok tt
         | _ => Err (ValidationError "waiting_event requires a child or message process wait state")
         end
       else if String.eqb selected_status "waiting_human" then
         match wait_state with
         | Some (HumanProcessWait _) => Ok tt
         | _ => Err (ValidationError "waiting_human requires a human process wait state")
         end
       else if String.eqb selected_status "waiting_tool" then
         match wait_state with
         | Some (ToolProcessWait _) => Ok tt
         | _ => Err (ValidationError "waiting_tool requires a tool process wait state")
         end
       else if String.eqb selected_status "paused" then
         match wait_state with
         | Some (PausedProcessWait _) | Some (HostResumeProcessWait _)
         | Some (StaleExecutionProcessWait _) => Ok tt
         | _ => Err (ValidationError "paused requires a paused process wait state")
         end
       else
         match wait_state with
         | None => Ok tt
         | Some _ => Err (ValidationError (selected_status +:+ " processes cannot carry a wait state"))
         end);
  if String.eqb selected_status "exited" then
    match outcome with
    | Some (ExitedProcessOutcome _) => Ok tt
    | _ => Err (ValidationError "exited requires an exited process outcome")
    end
  else if String.eqb selected_status "failed" then
    match outcome with
    | Some (FailedProcessOutcome _ _) => Ok tt
    | _ => Err (ValidationError "failed requires a failed process outcome")
    end
  else if String.eqb selected_status "killed" then
    match outcome with
    | Some (KilledProcessOutcome _ _) => Ok tt
    | _ => Err (ValidationError "killed requires a killed process outcome")
    end
  else
    match outcome with
    | None => Ok tt
    | Some _ => Err (ValidationError (selected_status +:+ " processes cannot carry a terminal outcome"))
    end.

(** ** Canonical mappings *)

Definition with_header (kind : string) (fields : list (string * pyval)) : pyval :=
  PDict ((PStr "schema_version", PInt PROCESS_STATE_SCHEMA_VERSION)
         :: (PStr "kind", PStr kind)
         :: map (fun kv => (PStr (fst kv), snd kv)) fields).

Definition wait_fields (w : ProcessWaitState) : list (string * pyval) :=
  match w with
  | ChildProcessWait child_pid => [("child_pid", PStr child_pid)]
  | MessageProcessWait filters => [("filters", py_of_json (JObj filters))]
  | HumanProcessWait ids => [("request_ids", PList (map PStr ids))]
  | ToolProcessWait op => [("operation_id", PStr op)]
  | PausedProcessWait r => [("reason_oid", py_opt r)]
  | HostResumeProcessWait r => [("reason_oid", PStr r)]
  | StaleExecutionProcessWait r =>
      [("pid", PStr (stale_pid r));
       ("recovered_by_owner_sha256", PStr (recovered_by_owner_sha256 r));
       ("prior_owner_sha256", py_opt (prior_owner_sha256 r));
       ("prior_lease_sha256", py_opt (prior_lease_sha256 r));
       ("prior_execution_generation", PInt (prior_execution_generation r));
       ("recovered_execution_generation", PInt (recovered_execution_generation r));
       ("recovered_state_generation", PInt (recovered_state_generation r))]
  end.

Definition process_wait_state_to_mapping (value : option ProcessWaitState) : pyval :=
  match value with
  | None => PNone
  | Some w => with_header (wait_kind w) (wait_fields w)
  end.

Definition outcome_fields (o : ProcessOutcome) : list (string * pyval) :=
  match o with
  | ExitedProcessOutcome r => [("result_oid", py_opt r)]
  | FailedProcessOutcome r c => [("result_oid", py_opt r); ("code", py_opt c)]
  | KilledProcessOutcome r c => [("reason_oid", py_opt r); ("code", py_opt c)]
  end.

Definition process_outcome_to_mapping (value : option ProcessOutcome) : pyval :=
  match value with
  | None => PNone
  | Some o => with_header (outcome_kind o) (outcome_fields o)
  end.

Definition stale_field_names : list string :=
  ["pid"; "recovered_by_owner_sha256"; "prior_owner_sha256"; "prior_lease_sha256";
   "prior_execution_generation"; "recovered_execution_generation";
   "recovered_state_generation"].

Definition process_wait_state_from_mapping (value : pyval) : res (option ProcessWaitState) :=
  match value with
  | PNone => Ok None
  | PDict d =>
      let is_kind k := py_eq (dict_get_none d "kind") (PStr k) in
      if is_kind "child" then
        sel ← _canonical_mapping d "child" ["child_pid"];
        w ← mk_ChildProcessWait (field sel "child_pid"); Ok (Some w)
      else if is_kind "message" then
        sel ← _canonical_mapping d "message" ["filters"];
        _ ← raise_if (negb (is_dict (field sel "filters")))
              (ValidationError "process state message filters must be an object");
        w ← mk_MessageProcessWait (field sel "filters"); Ok (Some w)
      else if is_kind "human" then
        sel ← _canonical_mapping d "human" ["request_ids"];
        match field sel "request_ids" with
        | PList ids => w ← mk_HumanProcessWait ids; Ok (Some w)
        | _ => Err (ValidationError "process state human request_ids must be a list")
        end
      else if is_kind "tool" then
        sel ← _canonical_mapping d "tool" ["operation_id"];
        w ← mk_ToolProcessWait (field sel "operation_id"); Ok (Some w)
      else if is_kind "paused" then
        sel ← _canonical_mapping d "paused" ["reason_oid"];
        w ← mk_PausedProcessWait (field sel "reason_oid"); Ok (Some w)
      else if is_kind "host_resume" then
        sel ← _canonical_mapping d "host_resume" ["reason_oid"];
        w ← mk_HostResumeProcessWait (field sel "reason_oid"); Ok (Some w)
      else if is_kind "stale_execution" then
        sel ← _canonical_mapping d "stale_execution" stale_field_names;
        w ← mk_StaleExecutionProcessWait
              (field sel "pid") (field sel "recovered_by_owner_sha256")
              (field sel "prior_owner_sha256") (field sel "prior_lease_sha256")
              (field sel "prior_execution_generation")
              (field sel "recovered_execution_generation")
              (field sel "recovered_state_generation");
        Ok (Some w)
      else Err (ValidationError "unsupported process wait state kind")
  | _ => Err (ValidationError "process wait state must be an object or null")
  end.

Definition process_outcome_from_mapping (value : pyval) : res (option ProcessOutcome) :=
  match value with
  | PNone => Ok None
  | PDict d =>
      let is_kind k := py_eq (dict_get_none d "kind") (PStr k) in
      if is_kind "exited" then
        sel ← _canonical_mapping d "exited" ["result_oid"];
        o ← mk_ExitedProcessOutcome (field sel "result_oid"); Ok (Some o)
      else if is_kind "failed" then
        sel ← _canonical_mapping d "failed" ["result_oid"; "code"];
        o ← mk_FailedProcessOutcome (field sel "result_oid") (field sel "code"); Ok (Some o)
      else if is_kind "killed" then
        sel ← _canonical_mapping d "killed" ["reason_oid"; "code"];
        o ← mk_KilledProcessOutcome (field sel "reason_oid") (field sel "code"); Ok (Some o)
      else Err (ValidationError "unsupported process outcome kind")
  | _ => Err (ValidationError "process outcome must be an object or null")
  end.

(** The public projection of durable process state. *)
Definition process_state_to_mapping (status : pyval)
    (wait_state : option ProcessWaitState) (outcome : option ProcessOutcome)
    (state_generation : pyval) : res pyval :=
  match status with
  | PStr selected_status =>
      match state_generation with
      | PInt g =>
          _ ← raise_if (g <? 0)%Z
                (ValidationError "process state state_generation must be a non-negative integer");
          _ ← validate_process_state_fields selected_status wait_state outcome;
          Ok (PDict [(PStr "status", PStr selected_status);
                     (PStr "wait_state", process_wait_state_to_mapping wait_state);
                     (PStr "outcome", process_outcome_to_mapping outcome);
                     (PStr "state_generation", PInt g)])
      | _ => Err (ValidationError "process state state_generation must be a non-negative integer")
      end
  | _ => Err (ValidationError "process state status must be a string")
  end.

(** ** Strict decoding of persisted columns

    [json.loads] is called with an object hook and a constant hook; the
    hooks run bottom-up while the text is decoded.  [raw_json] is the tree of
    hook calls the decoder makes for a text. *)

Inductive raw_json : Type :=
| RNull | RBool (b : bool) | RInt (z : Z) | RFloat (f : spec_float) | RStr (s : string)
| RConst (name : string)                      (* NaN, Infinity, -Infinity *)
| RList (l : list raw_json)
| RObj (pairs : list (string * raw_json)).

Fixpoint _strict_json_object_from (selected : list (pyval * pyval))
    (pairs : list (string * pyval)) : res (list (pyval * pyval)) :=
  match pairs with
  | [] => Ok selected
  | (key, value) :: pairs' =>
      if dict_has selected key
      then Err (ValidationError "persisted process state contains duplicate JSON object key")
      else _strict_json_object_from (selected ++ [(PStr key, value)]) pairs'
  end.

Definition _strict_json_object (pairs : list (string * pyval)) : res (list (pyval * pyval)) :=
  _strict_json_object_from [] pairs.

Definition _reject_non_finite_json_constant (value : string) : res pyval :=
  Err (ValidationError "persisted process state contains non-finite JSON number").

Fixpoint run_hooks (r : raw_json) : res pyval :=
  match r with
  | RNull => Ok PNone
  | RBool b => Ok (PBool b)
  | RInt z => Ok (PInt z)
  | RFloat f => Ok (PFloat f)
  | RStr s => Ok (PStr s)
  | RConst name => _reject_non_finite_json_constant name
  | RList l => items ← mapR run_hooks l; Ok (PList items)
  | RObj pairs =>
      decoded ← mapR (fun kv => y ← run_hooks (snd kv); Ok (fst kv, y)) pairs;
      d ← _strict_json_object decoded;
      Ok (PDict d)
  end.

Section Json.
(** [json_parse s] is the hook-call tree of the text [s], or [None] when
    the decoder raises [JSONDecodeError]; [json_loads] is the decoder with
    its default hooks; [json_dumps] is [json.dumps(_, sort_keys=True)]. *)
Variable json_parse : string → option raw_json.
Variable json_loads : string → option pyval.
Variable json_dumps : list (string * json) → string.

Definition _load_strict_json (value : string) (label : string) : res pyval :=
  match json_parse value with
  | Some r => run_hooks r
  | None => Err (ValidationError ("persisted process " +:+ label +:+ " is not valid JSON"))
  end.

Definition process_wait_state_from_json (value : option string) : res (option ProcessWaitState) :=
  match value with
  | None => Ok None
  | Some s => decoded ← _load_strict_json s "wait state"; process_wait_state_from_mapping decoded
  end.

Definition process_outcome_from_json (value : option string) : res (option ProcessOutcome) :=
  match value with
  | None => Ok None
  | Some s => decoded ← _load_strict_json s "outcome"; process_outcome_from_mapping decoded
  end.

(** *** Legacy status messages *)

Definition legacy_status_message (wait_state : option ProcessWaitState)
    (outcome : option ProcessOutcome) (fallback : option string) : option string :=
  let by_outcome :=
    match outcome with
    | Some (ExitedProcessOutcome (Some oid)) | Some (FailedProcessOutcome (Some oid) _) =>
        Some ("result_oid:" +:+ oid)
    | Some (KilledProcessOutcome (Some oid) _) => Some ("result_oid:" +:+ oid)
    | _ => fallback
    end in
  match wait_state with
  | Some (ChildProcessWait pid) => Some ("waiting for " +:+ pid)
  | Some (MessageProcessWait filters) => Some ("waiting_message:" +:+ json_dumps filters)
  | Some (HumanProcessWait ids) =>
      let prefix := if (length ids =? 1) then "waiting for human request "
                    else "waiting for human requests " in
      Some (prefix +:+ join "," ids)
  | Some (HostResumeProcessWait oid) => Some ("host_resume_required:" +:+ oid)
  | Some (StaleExecutionProcessWait _) => Some "stale_execution_recovery"
  | Some (PausedProcessWait (Some oid)) => Some ("result_oid:" +:+ oid)
  | _ => by_outcome
  end.

Record UpcastProcessState : Type := {
  up_wait_state : option ProcessWaitState;
  up_outcome : option ProcessOutcome;
  up_status_message : option string;
}.

Definition upcast_wait (w : ProcessWaitState) : UpcastProcessState :=
  {| up_wait_state := Some w; up_outcome := None;
     up_status_message := legacy_status_message (Some w) None None |}.

(** [message and message.startswith(prefix)], returning the rest. *)
Definition after_prefix (prefix : string) (message : option string) : option string :=
  match message with
  | Some m =>
      if negb (String.eqb m "") && startswith prefix m
      then Some (drop_str (String.length prefix) m) else None
  | None => None
  end.

Definition _upcast_legacy_event_wait (message : option string) : res UpcastProcessState :=
  match after_prefix "waiting_message:" message with
  | Some encoded =>
      match json_loads encoded with
      | None => Err (ValidationError "legacy process message wait contains invalid JSON")
      | Some filters =>
          _ ← raise_if (negb (is_dict filters))
                (ValidationError "legacy process message wait filters must be an object");
          w ← mk_MessageProcessWait filters; Ok (upcast_wait w)
      end
  | None =>
      match after_prefix "waiting for " message with
      | Some pid => w ← mk_ChildProcessWait (PStr pid); Ok (upcast_wait w)
      | None => Err (ValidationError "legacy waiting_event process has no identifiable wait state")
      end
  end.

(** [tuple(item.strip() for item in text.split(",") if item.strip())]. *)
Definition split_ids (text : string) : list string :=
  List.filter (fun s => negb (String.eqb s "")) (map strip (split_all "," text)).

Definition _upcast_legacy_human_wait (message : option string) : res UpcastProcessState :=
  let request_ids :=
    match after_prefix "waiting for human requests " message with
    | Some text => split_ids text
    | None =>
        match after_prefix "waiting for human request " message with
        | Some text => split_ids text
        | None => []
        end
    end in
  match request_ids with
  | [] => Err (ValidationError "legacy waiting_human process has no identifiable request")
  | _ => w ← mk_HumanProcessWait (map PStr request_ids); Ok (upcast_wait w)
  end.

Definition _upcast_legacy_pause (message : option string) : res UpcastProcessState :=
  match after_prefix "host_resume_required:" message with
  | Some oid => w ← mk_HostResumeProcessWait (PStr oid); Ok (upcast_wait w)
  | None =>
      match after_prefix "result_oid:" message with
      | Some oid => w ← mk_PausedProcessWait (PStr oid); Ok (upcast_wait w)
      | None =>
          w ← mk_PausedProcessWait PNone;
          Ok {| up_wait_state := Some w; up_outcome := None; up_status_message := message |}
      end
  end.

Definition _upcast_legacy_outcome (status : string) (message : option string)
    : res UpcastProcessState :=
  result_oid ← match after_prefix "result_oid:" message with
               | Some oid => s ← _non_empty_string (PStr oid) "result_oid"; Ok (PStr s)
               | None => Ok PNone
               end;
  outcome ← (if String.eqb status "exited" then mk_ExitedProcessOutcome result_oid
             else if String.eqb status "failed" then mk_FailedProcessOutcome result_oid PNone
             else mk_KilledProcessOutcome result_oid PNone);
  Ok {| up_wait_state := None; up_outcome := Some outcome;
        up_status_message := legacy_status_message None (Some outcome) message |}.

Definition upcast_legacy_process_state (selected_status : string)
    (message : option string) : res UpcastProcessState :=
  if String.eqb selected_status "waiting_event" then _upcast_legacy_event_wait message
  else if String.eqb selected_status "waiting_human" then _upcast_legacy_human_wait message
  else if String.eqb selected_status "waiting_tool" then
    Err (ValidationError "legacy waiting_tool process has no typed operation identity")
  else if String.eqb selected_status "paused" then _upcast_legacy_pause message
  else if bool_decide (selected_status ∈ ["exited"; "failed"; "killed"]) then
    _upcast_legacy_outcome selected_status message
  else Ok {| up_wait_state := None; up_outcome := None; up_status_message := message |}.
End Json.

(** ** Identity remapping on fork and restore *)

Definition remap_id (m : gmap string string) (id : string) : string := default id (m !! id).

Definition remap_process_wait_state (value : option ProcessWaitState)
    (pids objects : gmap string string) : res (option ProcessWaitState) :=
  match value with
  | Some (ChildProcessWait pid) =>
      w ← mk_ChildProcessWait (PStr (remap_id pids pid)); Ok (Some w)
  | Some (PausedProcessWait r) =>
      w ← mk_PausedProcessWait (py_opt (remap_id objects <$> r)); Ok (Some w)
  | Some (HostResumeProcessWait r) =>
      w ← mk_HostResumeProcessWait (PStr (remap_id objects r)); Ok (Some w)
  | Some (StaleExecutionProcessWait _) =>
      w ← mk_PausedProcessWait PNone; Ok (Some w)
  | _ => Ok value
  end.

Definition remap_process_outcome (value : option ProcessOutcome)
    (objects : gmap string string) : res (option ProcessOutcome) :=
  match value with
  | Some (ExitedProcessOutcome r) =>
      o ← mk_ExitedProcessOutcome (py_opt (remap_id objects <$> r)); Ok (Some o)
  | Some (FailedProcessOutcome r c) =>
      o ← mk_FailedProcessOutcome (py_opt (remap_id objects <$> r)) (py_opt c); Ok (Some o)
  | Some (KilledProcessOutcome r c) =>
      o ← mk_KilledProcessOutcome (py_opt (remap_id objects <$> r)) (py_opt c); Ok (Some o)
  | None => Ok None
  end.

(** ** Process statuses ([models/process.py]) *)

Inductive ProcessStatus : Set :=
| CREATED | RUNNABLE | RUNNING | WAITING_EVENT | WAITING_TOOL | WAITING_HUMAN
| PAUSED | SUSPENDED | EXITED | FAILED | KILLED.

#[export] Instance ProcessStatus_eq_dec : EqDecision ProcessStatus.
Proof. solve_decision. Defined.

Definition status_value (s : ProcessStatus) : string :=
  match s with
  | CREATED => "created" | RUNNABLE => "runnable" | RUNNING => "running"
  | WAITING_EVENT => "waiting_event" | WAITING_TOOL => "waiting_tool"
  | WAITING_HUMAN => "waiting_human" | PAUSED => "paused" | SUSPENDED => "suspended"
  | EXITED => "exited" | FAILED => "failed" | KILLED => "killed"
  end.

(** ** Well-formed values: what [__post_init__] guarantees *)

Definition wf_opt (p : string → bool) (o : option string) : bool :=
  match o with Some s => p s | None => true end.

Definition wait_state_wf (w : ProcessWaitState) : bool :=
  match w with
  | ChildProcessWait s | ToolProcessWait s | HostResumeProcessWait s => wf_str s
  | MessageProcessWait f => json_finite (JObj f)
  | HumanProcessWait ids =>
      forallb wf_str ids && bool_decide (NoDup ids) && bool_decide (ids ≠ [])
  | PausedProcessWait r => wf_opt wf_str r
  | StaleExecutionProcessWait r =>
      wf_str (stale_pid r) && is_sha256_hex (recovered_by_owner_sha256 r)
      && wf_opt is_sha256_hex (prior_owner_sha256 r)
      && wf_opt is_sha256_hex (prior_lease_sha256 r)
      && (0 <=? prior_execution_generation r)%Z
      && (0 <? recovered_execution_generation r)%Z
      && (0 <? recovered_state_generation r)%Z
  end.

Definition outcome_wf (o : ProcessOutcome) : bool :=
  match o with
  | ExitedProcessOutcome r => wf_opt wf_str r
  | FailedProcessOutcome r c | KilledProcessOutcome r c => wf_opt wf_str r && wf_opt wf_str c
  end.

(** The product type of status, wait state and outcome. *)
Inductive state_shape :
  ProcessStatus → option ProcessWaitState → option ProcessOutcome → Prop :=
| shape_plain st : st ∈ [CREATED; RUNNABLE; RUNNING; SUSPENDED] → state_shape st None None
| shape_child p : state_shape WAITING_EVENT (Some (ChildProcessWait p)) None
| shape_message f : state_shape WAITING_EVENT (Some (MessageProcessWait f)) None
| shape_human ids : state_shape WAITING_HUMAN (Some (HumanProcessWait ids)) None
| shape_tool op : state_shape WAITING_TOOL (Some (ToolProcessWait op)) None
| shape_paused r : state_shape PAUSED (Some (PausedProcessWait r)) None
| shape_host r : state_shape PAUSED (Some (HostResumeProcessWait r)) None
| shape_stale r : state_shape PAUSED (Some (StaleExecutionProcessWait r)) None
| shape_exited r : state_shape EXITED None (Some (ExitedProcessOutcome r))
| shape_failed r c : state_shape FAILED None (Some (FailedProcessOutcome r c))
| shape_killed r c : state_shape KILLED None (Some (KilledProcessOutcome r c)).

(** ** Lemmas on the validators *)

Lemma non_empty_string_Ok v f s :
  _non_empty_string v f = Ok s → wf_str s = true.
Proof.
  destruct v; cbn; try done. destruct (String.eqb_spec (strip s0) ""); [done|].
  intros [= <-]. by apply strip_wf.
Qed.

Lemma non_empty_string_wf s f : wf_str s = true → _non_empty_string (PStr s) f = Ok s.
Proof.
  intros [Hs Hn]%wf_str_spec. cbn. rewrite Hs. by destruct (String.eqb_spec s "").
Qed.

Lemma optional_string_Ok v f o : _optional_string v f = Ok o → wf_opt wf_str o = true.
Proof.
  destruct v; cbn -[_non_empty_string]; intros H; res_simpl; try done;
    by eapply non_empty_string_Ok.
Qed.

Lemma optional_string_wf o f : wf_opt wf_str o = true → _optional_string (py_opt o) f = Ok o.
Proof.
  destruct o as [s|]; cbn -[_non_empty_string]; [|done].
  intros H. by rewrite (non_empty_string_wf _ _ H).
Qed.

Lemma sha256_Ok v f s : _sha256 v f = Ok s → is_sha256_hex s = true.
Proof. unfold _sha256. intros H. by res_simpl. Qed.

Lemma sha256_wf s f : is_sha256_hex s = true → _sha256 (PStr s) f = Ok s.
Proof.
  intros H. unfold _sha256. rewrite (non_empty_string_wf _ _ (sha256_hex_wf _ H)).
  cbn. by rewrite H.
Qed.

Lemma optional_sha256_Ok v f o : _optional_sha256 v f = Ok o → wf_opt is_sha256_hex o = true.
Proof.
  destruct v; cbn -[_sha256]; intros H; res_simpl; try done; by eapply sha256_Ok.
Qed.

Lemma optional_sha256_wf o f :
  wf_opt is_sha256_hex o = true → _optional_sha256 (py_opt o) f = Ok o.
Proof.
  destruct o as [s|]; cbn -[_sha256]; [|done]. intros H. by rewrite (sha256_wf _ _ H).
Qed.

Lemma nonneg_Ok v f z : _nonnegative_integer v f = Ok z → (0 <= z)%Z.
Proof. destruct v; cbn; try done. destruct (Z.ltb_spec z0 0); [done|]. by intros [= <-]. Qed.

Lemma nonneg_wf z f : (0 <= z)%Z → _nonnegative_integer (PInt z) f = Ok z.
Proof. intros H. cbn. destruct (Z.ltb_spec z 0); [lia|done]. Qed.

Lemma positive_Ok v f z : _positive_integer v f = Ok z → (0 < z)%Z.
Proof.
  unfold _positive_integer. intros H. res_simpl. apply nonneg_Ok in Hm.
  apply Z.eqb_neq in Hb. lia.
Qed.

Lemma positive_wf z f : (0 < z)%Z → _positive_integer (PInt z) f = Ok z.
Proof.
  intros H. unfold _positive_integer. rewrite nonneg_wf by lia. cbn.
  destruct (Z.eqb_spec z 0); [lia|done].
Qed.

(** ** Strict JSON *)

(** The strict decoder accepts exactly the finite JSON trees, unchanged. *)
Lemma strict_json_iff v j :
  _strict_json_value v = Ok j ↔ v = py_of_json j ∧ json_finite j = true.
Proof.
  revert v. induction j as [|b|z|f|s|l IH|kvs IH] using json_ind'; intros v.
  1-5: destruct v; cbn; split; intros H; res_cases H; destruct_and?; simplify_eq; try done.
  1: { match goal with E : sf_finite _ = true |- _ => by rewrite E end. }
  - assert (∀ l0, mapR _strict_json_value l0 = Ok l
                  ↔ l0 = map py_of_json l ∧ forallb json_finite l = true) as Hgo.
    { intros l0. rewrite mapR_Ok. revert l0.
      induction IH as [|j l Hj _ IHl]; intros l0; cbn.
      - split; [by inversion 1|]. intros [-> _]. constructor.
      - split.
        + inversion 1 as [|x ? ? ? Hx Hl]; subst. apply IHl in Hl as [-> ->].
          by apply Hj in Hx as [-> ->].
        + intros [-> [??]%andb_true_iff]. constructor; [by apply Hj|by apply IHl]. }
    cbn. split.
    + intros H. destruct v; cbn in H; res_cases H. apply Hgo in Hm as [-> ?]. done.
    + intros [-> H]. cbn. by rewrite (proj2 (Hgo _) (conj eq_refl H)).
  - set (entry := fun kv : pyval * pyval => match kv with
        | (PStr k, item) => j ← _strict_json_value item; Ok (k, j)
        | _ => Err (ValidationError "process state message filters contain a non-string JSON object key")
        end).
    assert (∀ l0, mapR entry l0 = Ok kvs ↔
        l0 = map (fun kv => (PStr (fst kv), py_of_json (snd kv))) kvs
        ∧ forallb (fun kv => json_finite (snd kv)) kvs = true) as Hgo.
    { intros l0. rewrite mapR_Ok. revert l0.
      induction IH as [|[k j] l Hj _ IHl]; intros l0; cbn in *.
      - split; [by inversion 1|]. intros [-> _]. constructor.
      - split.
        + inversion 1 as [|[x v0] ? ? ? Hx Hl]; subst. apply IHl in Hl as [-> ->].
          destruct x; cbn in Hx; res_simpl. apply Hj in Hm as [-> Hf]. by cbn in Hf; rewrite Hf.
        + intros [-> [Hf ?]%andb_true_iff]. constructor; [|by apply IHl].
          cbn. by rewrite (proj2 (Hj _) (conj eq_refl Hf)). }
    cbn. split.
    + intros H. destruct v; cbn in H; res_cases H. apply Hgo in Hm as [-> ?]. done.
    + intros [-> H]. cbn. fold entry. by rewrite (proj2 (Hgo _) (conj eq_refl H)).
Qed.

(** ** Canonical mappings *)

Lemma str_keys_fields (fields : list (string * pyval)) :
  str_keys (map (fun kv => (PStr (fst kv), snd kv)) fields) = map fst fields.
Proof. induction fields as [|[k v] l IH]; cbn; congruence. Qed.

Lemma has_non_str_key_fields (fields : list (string * pyval)) :
  has_non_str_key (map (fun kv => (PStr (fst kv), snd kv)) fields) = false.
Proof. by induction fields. Qed.

Lemma keys_are_same (d : list (pyval * pyval)) keys : str_keys d = keys → keys_are d keys = true.
Proof.
  intros <-. unfold keys_are. apply andb_true_iff.
  rewrite !forallb_forall. split; intros k Hk; apply bool_decide_eq_true, list_elem_of_In, Hk.
Qed.

(** A freshly written mapping is canonical for its own kind and fields. *)
Lemma canonical_with_header kind fields d :
  with_header kind fields = PDict d →
  _canonical_mapping d kind (map fst fields) = Ok d.
Proof.
  intros [= <-]. unfold _canonical_mapping.
  unfold has_non_str_key. cbn -[keys_are]. fold (has_non_str_key (map (fun kv => (PStr (fst kv), snd kv)) fields)).
  rewrite has_non_str_key_fields. cbn -[keys_are].
  rewrite keys_are_same by (cbn; by rewrite str_keys_fields). cbn.
  by rewrite String.eqb_refl.
Qed.

Lemma mapR_non_empty ids f :
  forallb wf_str ids = true →
  mapR (fun r => _non_empty_string r f) (map PStr ids) = Ok ids.
Proof.
  intros H. apply mapR_Ok. induction ids as [|s ids IH]; cbn in *; constructor.
  - apply non_empty_string_wf. by apply andb_true_iff in H as [].
  - apply IH. by apply andb_true_iff in H as [].
Qed.

Lemma mapR_non_empty_Ok vs f ids :
  mapR (fun r => _non_empty_string r f) vs = Ok ids → forallb wf_str ids = true.
Proof.
  rewrite mapR_Ok. induction 1 as [|v s vs ids Hv _ IH]; cbn; [done|].
  by rewrite (non_empty_string_Ok _ _ _ Hv).
Qed.

Lemma mk_Human_wf ids :
  wait_state_wf (HumanProcessWait ids) = true →
  mk_HumanProcessWait (map PStr ids) = Ok (HumanProcessWait ids).
Proof.
  unfold wait_state_wf. rewrite !andb_true_iff, !bool_decide_eq_true. intros [[Hw Hd] Hn].
  unfold mk_HumanProcessWait. res_run mapR_non_empty.
  destruct ids; [done|]. by rewrite bool_decide_eq_true_2.
Qed.

Lemma mk_Stale_wf r :
  wait_state_wf (StaleExecutionProcessWait r) = true →
  mk_StaleExecutionProcessWait (PStr (stale_pid r)) (PStr (recovered_by_owner_sha256 r))
    (py_opt (prior_owner_sha256 r)) (py_opt (prior_lease_sha256 r))
    (PInt (prior_execution_generation r)) (PInt (recovered_execution_generation r))
    (PInt (recovered_state_generation r)) = Ok (StaleExecutionProcessWait r).
Proof.
  intros H. cbn in H. rewrite !andb_true_iff, Z.leb_le, !Z.ltb_lt in H.
  destruct H as [[[[[[? ?] ?] ?] ?] ?] ?].
  unfold mk_StaleExecutionProcessWait.
  res_run non_empty_string_wf. res_run sha256_wf.
  res_run optional_sha256_wf. res_run optional_sha256_wf.
  res_run nonneg_wf. res_run positive_wf. res_run positive_wf. by destruct r.
Qed.

(** Whatever a constructor accepts is well formed. *)
Lemma mk_wait_wf w :
  (∃ v, mk_ChildProcessWait v = Ok w) ∨ (∃ v, mk_MessageProcessWait v = Ok w)
  ∨ (∃ v, mk_HumanProcessWait v = Ok w) ∨ (∃ v, mk_ToolProcessWait v = Ok w)
  ∨ (∃ v, mk_PausedProcessWait v = Ok w) ∨ (∃ v, mk_HostResumeProcessWait v = Ok w)
  ∨ (∃ a b c d e f g, mk_StaleExecutionProcessWait a b c d e f g = Ok w) →
  wait_state_wf w = true.
Proof.
  intros [[v H]|[[v H]|[[v H]|[[v H]|[[v H]|[[v H]|(?&?&?&?&?&?&?&H)]]]]]].
  - unfold mk_ChildProcessWait in H. res_simpl. by eapply non_empty_string_Ok.
  - unfold mk_MessageProcessWait in H. destruct v; try done. res_simpl.
    destruct a; try done. res_simpl. by apply strict_json_iff in Hm as [_ ?].
  - unfold mk_HumanProcessWait in H. res_simpl. apply mapR_non_empty_Ok in Hm.
    unfold wait_state_wf. rewrite Hm, Hb. by rewrite bool_decide_eq_true_2.
  - unfold mk_ToolProcessWait in H. res_simpl. by eapply non_empty_string_Ok.
  - unfold mk_PausedProcessWait in H. res_simpl. by eapply optional_string_Ok.
  - unfold mk_HostResumeProcessWait in H. res_simpl. by eapply non_empty_string_Ok.
  - unfold mk_StaleExecutionProcessWait in H. res_simpl. cbn.
    repeat match goal with
    | H : _non_empty_string _ _ = Ok _ |- _ => apply non_empty_string_Ok in H as ->
    | H : _sha256 _ _ = Ok _ |- _ => apply sha256_Ok in H as ->
    | H : _optional_sha256 _ _ = Ok _ |- _ => apply optional_sha256_Ok in H as ->
    | H : _nonnegative_integer _ _ = Ok _ |- _ => apply nonneg_Ok, Z.leb_le in H as ->
    | H : _positive_integer _ _ = Ok _ |- _ => apply positive_Ok, Z.ltb_lt in H as ->
    end. done.
Qed.

Lemma mk_outcome_wf o :
  (∃ v, mk_ExitedProcessOutcome v = Ok o) ∨ (∃ v c, mk_FailedProcessOutcome v c = Ok o)
  ∨ (∃ v c, mk_KilledProcessOutcome v c = Ok o) → outcome_wf o = true.
Proof.
  intros [[v H]|[(v & c & H)|(v & c & H)]];
    [unfold mk_ExitedProcessOutcome in H|unfold mk_FailedProcessOutcome in H
    |unfold mk_KilledProcessOutcome in H]; res_simpl; cbn;
    repeat match goal with H : _optional_string _ _ = Ok _ |- _ => apply optional_string_Ok in H as -> end;
    done.
Qed.

Lemma wait_from_mapping_wf v w :
  process_wait_state_from_mapping v = Ok (Some w) → wait_state_wf w = true.
Proof.
  unfold process_wait_state_from_mapping. intros H. apply mk_wait_wf.
  destruct v as [| | | | | | | |d]; try done.
  repeat match type of H with (if ?b then _ else _) = _ => destruct b end; try done;
    res_simpl; eauto 12.
  - destruct (field a "request_ids"); try done. res_simpl. eauto 12.
  - do 6 right. eauto 12.
Qed.

Lemma outcome_from_mapping_wf v o :
  process_outcome_from_mapping v = Ok (Some o) → outcome_wf o = true.
Proof.
  unfold process_outcome_from_mapping. intros H. apply mk_outcome_wf.
  destruct v as [| | | | | | | |d]; try done.
  repeat match type of H with (if ?b then _ else _) = _ => destruct b end; try done;
    res_simpl; eauto 12.
Qed.

(** Decoding a freshly encoded mapping reduces to the constructor. *)
Ltac canonical_run fl :=
  match goal with
  | |- context [_canonical_mapping ?d ?kind ?fields] =>
      rewrite (canonical_with_header kind fl d eq_refl : _canonical_mapping d kind fields = Ok d)
  end; rewrite ?res_bind_ok.

(** (C36) Decoding the canonical mapping of any well-formed wait state gives
    that wait state back: no persisted field is lost, coerced or renamed. *)
Theorem process_wait_state_roundtrip (w : ProcessWaitState) :
  wait_state_wf w = true →
  process_wait_state_from_mapping (process_wait_state_to_mapping (Some w)) = Ok (Some w).
Proof.
  intros Hw. pose (fl := wait_fields w). destruct w as [s|f|ids|s|r|s|r];
    unfold process_wait_state_to_mapping, process_wait_state_from_mapping, with_header;
    cbn -[_canonical_mapping mk_ChildProcessWait mk_MessageProcessWait mk_HumanProcessWait
          mk_ToolProcessWait mk_PausedProcessWait mk_HostResumeProcessWait
          mk_StaleExecutionProcessWait]; canonical_run fl; unfold field;
    cbn -[mk_HumanProcessWait mk_StaleExecutionProcessWait _non_empty_string _optional_string].
  - unfold mk_ChildProcessWait. by res_run non_empty_string_wf.
  - pose proof (proj2 (strict_json_iff _ (JObj f)) (conj eq_refl Hw)) as H. cbn in H.
    by rewrite H.
  - by res_run mk_Human_wf.
  - unfold mk_ToolProcessWait. by res_run non_empty_string_wf.
  - unfold mk_PausedProcessWait. by res_run optional_string_wf.
  - unfold mk_HostResumeProcessWait. by res_run non_empty_string_wf.
  - by res_run mk_Stale_wf.
Qed.

Lemma process_wait_state_roundtrip_witness :
  wait_state_wf (HumanProcessWait ["hreq_1"; "hreq_2"]) = true
  ∧ process_wait_state_from_mapping
      (process_wait_state_to_mapping (Some (HumanProcessWait ["hreq_1"; "hreq_2"])))
    = Ok (Some (HumanProcessWait ["hreq_1"; "hreq_2"])).
Proof. split; [by vm_compute|]. apply process_wait_state_roundtrip. by vm_compute. Defined.

(** The outcome codec has the same property. *)
Lemma outcome_roundtrip (o : ProcessOutcome) :
  outcome_wf o = true →
  process_outcome_from_mapping (process_outcome_to_mapping (Some o)) = Ok (Some o).
Proof.
  intros Hw. pose (fl := outcome_fields o). destruct o as [r|r c|r c]; cbn in Hw;
    unfold process_outcome_to_mapping, process_outcome_from_mapping, with_header;
    cbn -[_canonical_mapping mk_ExitedProcessOutcome mk_FailedProcessOutcome
          mk_KilledProcessOutcome]; canonical_run fl; unfold field;
    cbn -[_optional_string mk_ExitedProcessOutcome mk_FailedProcessOutcome
          mk_KilledProcessOutcome]; try apply andb_true_iff in Hw as [? ?];
    unfold mk_ExitedProcessOutcome, mk_FailedProcessOutcome, mk_KilledProcessOutcome;
    repeat (res_run optional_string_wf); done.
Qed.

(** The persisted-column decoder is strict: it accepts an object only
    when the key set is exactly the header plus the fields of the decoded
    kind, the schema version is the current one, and every decoded value
    satisfies the constructor's checks; anything else raises. *)
Theorem process_wait_state_decode_strict (v : pyval) (w : ProcessWaitState) :
  process_wait_state_from_mapping v = Ok (Some w) →
  wait_state_wf w = true
  ∧ ∃ d, v = PDict d
      ∧ has_non_str_key d = false
      ∧ keys_are d ("schema_version" :: "kind" :: map fst (wait_fields w)) = true
      ∧ dict_get d "schema_version" = Some (PInt PROCESS_STATE_SCHEMA_VERSION)
      ∧ dict_get d "kind" = Some (PStr (wait_kind w)).
Proof.
  intros H. split; [by eapply wait_from_mapping_wf|].
  unfold process_wait_state_from_mapping in H.
  destruct v as [| | | | | | | |d]; try done. exists d. split; [done|].
  assert (∀ kind fields sel, _canonical_mapping d kind fields = Ok sel →
     has_non_str_key d = false ∧ keys_are d ("schema_version" :: "kind" :: fields) = true
     ∧ dict_get d "schema_version" = Some (PInt PROCESS_STATE_SCHEMA_VERSION)
     ∧ dict_get d "kind" = Some (PStr kind)) as Hcanon.
  { intros kind fields sel Hc. unfold _canonical_mapping in Hc. res_simpl.
    destruct (dict_get sel "schema_version") as [[]|]; try done.
    destruct (dict_get sel "kind") as [[]|]; try done. res_simpl.
    apply Z.eqb_eq in Hm1 as ->. apply String.eqb_eq in Hm2 as ->. done. }
  assert (∀ kind sel, _canonical_mapping d kind (map fst (wait_fields w)) = Ok sel →
     wait_kind w = kind → has_non_str_key d = false
     ∧ keys_are d ("schema_version" :: "kind" :: map fst (wait_fields w)) = true
     ∧ dict_get d "schema_version" = Some (PInt PROCESS_STATE_SCHEMA_VERSION)
     ∧ dict_get d "kind" = Some (PStr (wait_kind w))) as Hfin
    by (intros kind sel ? ->; eauto).
  repeat match type of H with (if ?b then _ else _) = _ => destruct b end; try done; res_simpl.
  - unfold mk_ChildProcessWait in *. res_simpl. eauto.
  - unfold mk_MessageProcessWait in *. destruct (field a "filters"); try done. res_simpl.
    res_match. eauto.
  - destruct (field a "request_ids"); try done. res_simpl.
    unfold mk_HumanProcessWait in *. res_simpl. eauto.
  - unfold mk_ToolProcessWait in *. res_simpl. eauto.
  - unfold mk_PausedProcessWait in *. res_simpl. eauto.
  - unfold mk_HostResumeProcessWait in *. res_simpl. eauto.
  - unfold mk_StaleExecutionProcessWait in *. res_simpl. eauto.
Qed.

Definition sample_child_mapping : pyval :=
  PDict [(PStr "kind", PStr "child"); (PStr "schema_version", PInt 1);
         (PStr "child_pid", PStr " pid_7 ")].

Lemma process_wait_state_decode_strict_witness :
  wait_state_wf (ChildProcessWait "pid_7") = true
  ∧ ∃ d, sample_child_mapping = PDict d
      ∧ has_non_str_key d = false
      ∧ keys_are d ("schema_version" :: "kind" :: map fst (wait_fields (ChildProcessWait "pid_7"))) = true
      ∧ dict_get d "schema_version" = Some (PInt PROCESS_STATE_SCHEMA_VERSION)
      ∧ dict_get d "kind" = Some (PStr (wait_kind (ChildProcessWait "pid_7"))).
Proof. apply process_wait_state_decode_strict. by vm_compute. Defined.

(** ** The status/wait/outcome product *)

Lemma validate_fields_shape (st : ProcessStatus)
    (w : option ProcessWaitState) (o : option ProcessOutcome) :
  validate_process_state_fields (status_value st) w o = Ok tt ↔ state_shape st w o.
Proof.
  split.
  - intros H. destruct st, w as [[]|], o as [[]|]; cbn in H; try done; constructor; set_solver.
  - intros H. inversion H; subst; try done.
    by repeat match goal with Hin : _ ∈ _ |- _ => apply elem_of_cons in Hin as [->|Hin] end;
      [..|by apply not_elem_of_nil in H0].
Qed.

(** (C37) The validator accepts exactly the product type: each waiting status
    carries its own wait kind, each terminal status its own outcome, and no
    other status carries either. *)
Theorem validate_process_state_fields_iff (st : ProcessStatus)
    (w : option ProcessWaitState) (o : option ProcessOutcome) :
  is_Ok (validate_process_state_fields (status_value st) w o) = true ↔ state_shape st w o.
Proof.
  rewrite <-validate_fields_shape.
  by destruct (validate_process_state_fields _ w o) as [[]|].
Qed.

(** At most one of wait state and outcome is present. *)
Lemma state_shape_exclusive st w o : state_shape st w o → w = None ∨ o = None.
Proof. inversion 1; auto. Qed.

Lemma state_shape_terminal st w o :
  state_shape st w o → (is_Some o ↔ st ∈ [EXITED; FAILED; KILLED]).
Proof.
  inversion 1; subst; split; intros Hx; try set_solver; try (by destruct Hx);
    set_unfold; destruct_or?; simplify_eq; done.
Qed.

(** ** Remapping *)

Definition map_values_wf (m : gmap string string) : Prop :=
  ∀ k v, m !! k = Some v → wf_str v = true.

Lemma remap_id_wf m s : map_values_wf m → wf_str s = true → wf_str (remap_id m s) = true.
Proof. intros Hm Hs. unfold remap_id. destruct (m !! s) eqn:E; cbn; eauto. Qed.

Lemma remap_opt_wf m o :
  map_values_wf m → wf_opt wf_str o = true → wf_opt wf_str (remap_id m <$> o) = true.
Proof. destruct o; cbn; [apply remap_id_wf|done]. Qed.

Definition not_stale (w : option ProcessWaitState) : Prop :=
  match w with Some (StaleExecutionProcessWait _) => False | _ => True end.

(** Remapping the state of a restored or forked process succeeds, keeps
    the status/wait/outcome product valid for the same status, and never
    carries a stale-execution receipt to the new concurrency identity. *)
Theorem remap_preserves_product (st : ProcessStatus) (w : option ProcessWaitState)
    (o : option ProcessOutcome) (pids objects : gmap string string) :
  validate_process_state_fields (status_value st) w o = Ok tt →
  from_option wait_state_wf true w = true → from_option outcome_wf true o = true →
  map_values_wf pids → map_values_wf objects →
  ∃ w' o', remap_process_wait_state w pids objects = Ok w'
    ∧ remap_process_outcome o objects = Ok o'
    ∧ validate_process_state_fields (status_value st) w' o' = Ok tt
    ∧ from_option wait_state_wf true w' = true ∧ from_option outcome_wf true o' = true
    ∧ not_stale w'.
Proof.
  rewrite validate_fields_shape. setoid_rewrite validate_fields_shape.
  intros Hs Hw Ho Hp Hobj.
  inversion Hs; subst; cbn -[wf_str _non_empty_string _optional_string] in *;
    try apply andb_true_iff in Ho as [? ?];
    unfold mk_ExitedProcessOutcome, mk_FailedProcessOutcome, mk_KilledProcessOutcome,
      mk_ChildProcessWait, mk_PausedProcessWait, mk_HostResumeProcessWait;
    repeat first
      [ rewrite optional_string_wf by (by first [apply remap_opt_wf | idtac])
      | rewrite non_empty_string_wf by (by apply remap_id_wf) ];
    rewrite ?res_bind_ok; do 2 eexists;
    (split; [reflexivity|]); (split; [reflexivity|]);
    (split; [by constructor|]); cbn -[wf_str]; rewrite ?remap_opt_wf, ?remap_id_wf by done;
    try (by repeat split); by destruct_and?.
Qed.

Lemma remap_preserves_product_witness :
  ∃ w' o', remap_process_wait_state (Some (ChildProcessWait "p1")) {["p1" := "p9"]} ∅ = Ok w'
    ∧ remap_process_outcome None ∅ = Ok o'
    ∧ validate_process_state_fields (status_value WAITING_EVENT) w' o' = Ok tt
    ∧ from_option wait_state_wf true w' = true ∧ from_option outcome_wf true o' = true
    ∧ not_stale w'.
Proof.
  apply (remap_preserves_product WAITING_EVENT); try by vm_compute.
  intros k v H. apply lookup_singleton_Some in H as [_ <-]. by vm_compute.
Defined.

(** ** The legacy projection *)

(** States the status-message projection determines: no tool wait, no stale
    receipt, no code, identifiers without separators, and a fallback message
    that is not itself a machine-readable prefix. *)
Definition plain_message (m : option string) : Prop :=
  after_prefix "result_oid:" m = None ∧ after_prefix "host_resume_required:" m = None.

Definition comma_free (s : string) : bool := negb (contains_char "," s).

Definition legacy_projectable (w : option ProcessWaitState) (o : option ProcessOutcome) : Prop :=
  match w with
  | Some (ToolProcessWait _) | Some (StaleExecutionProcessWait _) => False
  | Some (HumanProcessWait ids) => forallb comma_free ids = true
  | _ => True
  end ∧
  match o with
  | Some (FailedProcessOutcome _ c) | Some (KilledProcessOutcome _ c) => c = None
  | _ => True
  end.

Lemma split_all_no_sep sep s : contains_char sep s = false → split_all sep s = [s].
Proof.
  induction s as [|c s IH]; cbn; [done|]. rewrite contains_char_cons.
  intros [-> H]%orb_false_iff. by rewrite (IH H).
Qed.

Lemma split_all_app sep s t :
  contains_char sep s = false → split_all sep (s +:+ String sep t) = s :: split_all sep t.
Proof.
  induction s as [|c s IH]; cbn; [by rewrite Ascii.eqb_refl|]. rewrite contains_char_cons.
  intros [-> H]%orb_false_iff. by rewrite (IH H).
Qed.

Lemma split_all_join ids :
  ids ≠ [] → forallb comma_free ids = true → split_all "," (join "," ids) = ids.
Proof.
  induction ids as [|s ids IH]; [done|]. intros _. cbn.
  intros [Hs%negb_true_iff Hi]%andb_true_iff. destruct ids as [|t ids]; [by apply split_all_no_sep|].
  change (s +:+ "," +:+ join "," (t :: ids)) with (s +:+ String "," (join "," (t :: ids))).
  rewrite split_all_app by done. by rewrite IH.
Qed.

Lemma split_ids_join ids :
  ids ≠ [] → forallb comma_free ids = true → forallb wf_str ids = true →
  split_ids (join "," ids) = ids.
Proof.
  intros Hn Hc Hw. unfold split_ids. rewrite split_all_join by done. clear Hn Hc.
  induction ids as [|s ids IH]; [done|]. cbn -[wf_str] in *.
  apply andb_true_iff in Hw as [[Hs Hne]%wf_str_spec Hw]. rewrite Hs.
  destruct (String.eqb_spec s ""); [done|]. cbn. by rewrite IH.
Qed.

Lemma after_prefix_app p s :
  p ≠ "" → after_prefix p (Some (p +:+ s)) = Some s.
Proof.
  intros Hp. unfold after_prefix. rewrite startswith_app, drop_str_app.
  destruct (String.eqb_spec (p +:+ s) ""); [by destruct p|done].
Qed.

Lemma after_prefix_head c p d s :
  Ascii.eqb c d = false → after_prefix (String c p) (Some (String d s)) = None.
Proof. intros H. cbn. by rewrite H. Qed.

Lemma upcast_human_wait dumps fb ids :
  wait_state_wf (HumanProcessWait ids) = true → forallb comma_free ids = true →
  _upcast_legacy_human_wait dumps
    (legacy_status_message dumps (Some (HumanProcessWait ids)) None fb)
  = Ok (upcast_wait dumps (HumanProcessWait ids)).
Proof.
  intros Hw Hc. assert (Hw' := Hw). unfold wait_state_wf in Hw'.
  rewrite !andb_true_iff, !bool_decide_eq_true in Hw'. destruct Hw' as [[Hi _] Hn].
  unfold _upcast_legacy_human_wait, legacy_status_message.
  assert (∀ t, after_prefix "waiting for human requests " (Some ("waiting for human request " +:+ t)) = None)
    as Hs by (intros; reflexivity).
  destruct (length ids =? 1).
  - rewrite Hs, after_prefix_app by done. rewrite split_ids_join by done.
    rewrite mk_Human_wf by done. by destruct ids.
  - rewrite after_prefix_app by done. rewrite split_ids_join by done.
    rewrite mk_Human_wf by done. by destruct ids.
Qed.

Lemma upcast_outcome loads dumps o fallback :
  outcome_wf o = true → legacy_projectable None (Some o) → plain_message fallback →
  let msg := legacy_status_message dumps None (Some o) fallback in
  upcast_legacy_process_state loads dumps (outcome_kind o) msg
  = Ok {| up_wait_state := None; up_outcome := Some o; up_status_message := msg |}.
Proof.
  intros Hw [_ Hp] [Hf _]. cbv zeta.
  assert (∀ r, wf_str r = true → mk_ExitedProcessOutcome (PStr r) = Ok (ExitedProcessOutcome (Some r))
    ∧ mk_FailedProcessOutcome (PStr r) PNone = Ok (FailedProcessOutcome (Some r) None)
    ∧ mk_KilledProcessOutcome (PStr r) PNone = Ok (KilledProcessOutcome (Some r) None)) as Hmk.
  { intros r Hr. unfold mk_ExitedProcessOutcome, mk_FailedProcessOutcome, mk_KilledProcessOutcome.
    change (PStr r) with (py_opt (Some r)). by rewrite !optional_string_wf. }
  destruct o as [[r|]|[r|] c|[r|] c]; cbn in Hp; subst; cbn -[wf_str] in Hw;
    rewrite ?andb_true_r in Hw; unfold upcast_legacy_process_state;
    cbn -[_upcast_legacy_outcome legacy_status_message]; unfold _upcast_legacy_outcome;
    unfold legacy_status_message; rewrite ?Hf, ?after_prefix_app by done;
    try (by cbn); rewrite (non_empty_string_wf r) by done; destruct (Hmk r Hw) as (H1 & H2 & H3);
    cbn -[mk_ExitedProcessOutcome mk_FailedProcessOutcome mk_KilledProcessOutcome];
    by rewrite ?H1, ?H2, ?H3.
Qed.

(** The legacy status message is a faithful encoding of the states the
    pre-typed protocol could express: decoding the projected message of such
    a state recovers exactly its wait state and outcome.  [json_loads] and
    [json_dumps] are the JSON library, which reads back the object it wrote. *)
Theorem legacy_message_roundtrip
    (json_loads : string → option pyval) (json_dumps : list (string * json) → string)
    (st : ProcessStatus) (w : option ProcessWaitState) (o : option ProcessOutcome)
    (fallback : option string) :
  (∀ f, w = Some (MessageProcessWait f) →
        json_loads (json_dumps f) = Some (py_of_json (JObj f))) →
  validate_process_state_fields (status_value st) w o = Ok tt →
  from_option wait_state_wf true w = true → from_option outcome_wf true o = true →
  legacy_projectable w o → plain_message fallback →
  let msg := legacy_status_message json_dumps w o fallback in
  upcast_legacy_process_state json_loads json_dumps (status_value st) msg
  = Ok {| up_wait_state := w; up_outcome := o; up_status_message := msg |}.
Proof.
  rewrite validate_fields_shape. intros Hj Hs Hw Ho [Hpw Hpo] [Hf1 Hf2].
  cbv zeta. inversion Hs as [st' Hst| | | | | | | |r|r c|r c]; subst;
    cbn -[wf_str after_prefix] in Hw, Ho; unfold upcast_legacy_process_state.
  - by repeat match goal with H : _ ∈ _ |- _ => apply elem_of_cons in H as [->|H] end;
      [..|by apply not_elem_of_nil in Hst].
  - cbn -[_upcast_legacy_event_wait legacy_status_message].
    unfold _upcast_legacy_event_wait, legacy_status_message.
    change (after_prefix "waiting_message:" (Some ("waiting for " +:+ p))) with (@None string).
    rewrite after_prefix_app by done. unfold mk_ChildProcessWait.
    by res_run non_empty_string_wf.
  - cbn -[_upcast_legacy_event_wait legacy_status_message].
    unfold _upcast_legacy_event_wait, legacy_status_message.
    rewrite after_prefix_app, (Hj f) by done. cbn -[mk_MessageProcessWait py_of_json].
    replace (mk_MessageProcessWait (py_of_json (JObj f))) with (Ok (MessageProcessWait f)); [done|].
    pose proof (proj2 (strict_json_iff _ (JObj f)) (conj eq_refl Hw)) as H. cbn in H. cbn.
    by rewrite H.
  - cbn -[_upcast_legacy_human_wait legacy_status_message].
    rewrite upcast_human_wait by done. done.
  - done.
  - cbn -[_upcast_legacy_pause legacy_status_message]. unfold _upcast_legacy_pause.
    destruct r as [r|]; unfold legacy_status_message.
    + change (after_prefix "host_resume_required:" (Some ("result_oid:" +:+ r))) with (@None string).
      rewrite after_prefix_app by done. unfold mk_PausedProcessWait.
      by rewrite (optional_string_wf (Some r) _ Hw).
    + by rewrite Hf1, Hf2.
  - cbn -[_upcast_legacy_pause legacy_status_message].
    unfold _upcast_legacy_pause, legacy_status_message.
    rewrite after_prefix_app by done. unfold mk_HostResumeProcessWait.
    by res_run non_empty_string_wf.
  - done.
  - by apply (upcast_outcome json_loads json_dumps (ExitedProcessOutcome r)).
  - by apply (upcast_outcome json_loads json_dumps (FailedProcessOutcome r c)).
  - by apply (upcast_outcome json_loads json_dumps (KilledProcessOutcome r c)).
Qed.

Lemma legacy_message_roundtrip_witness :
  let dumps := fun _ : list (string * json) => "{}" in
  let loads := fun _ : string => Some (PDict []) in
  let msg := legacy_status_message dumps (Some (HumanProcessWait ["h1"; "h2"])) None None in
  upcast_legacy_process_state loads dumps "waiting_human" msg
  = Ok {| up_wait_state := Some (HumanProcessWait ["h1"; "h2"]); up_outcome := None;
          up_status_message := msg |}.
Proof.
  apply (legacy_message_roundtrip _ _ WAITING_HUMAN); try by vm_compute.
Defined.
