(* ===== verification/StrictJsonHeap.v ===== *)
(** * Strict JSON validation of an object graph

    [_strict_json_value] of [models/process_state.py] receives values whose
    dicts and lists may be shared or may contain themselves, so it tracks the
    identities of the containers being visited.  Here containers live in a
    heap and values refer to them by identity; the model is the source's
    recursion with fuel, and one more than the number of containers is always
    enough. *)

From S2P Require Import Prelude PyStr PyVal.

Inductive hval : Set :=
| HNone
| HBool (b : bool)
| HInt (z : Z)
| HFloat (f : spec_float)
| HStr (s : string)
| HRef (identity : nat)
| HOther (type_name : string).

Inductive hobj : Set :=
| ODict (kvs : list (hval * hval))
| OList (l : list hval).

(** ** Runs that may exhaust their fuel: [None] is out of fuel *)

Definition run_bind {A B} (m : option (res A)) (f : A → option (res B)) : option (res B) :=
  match m with
  | None => None
  | Some (Err e) => Some (Err e)
  | Some (Ok a) => f a
  end.

Definition run_map {A B} (f : A → option (res B)) : list A → option (res (list B)) :=
  fix run_map l :=
    match l with
    | [] => Some (Ok [])
    | x :: l' => run_bind (f x) (fun y => run_bind (run_map l') (fun ys => Some (Ok (y :: ys))))
    end.

Definition cycle_error : exn := ValidationError "process state message filters contain a cycle".

(** [active] is [active_containers]: an identity is added before the
    children are visited and removed on the way out. *)
Fixpoint _strict_json_value (fuel : nat) (h : gmap nat hobj) (active : gset nat)
    (value : hval) : option (res json) :=
  match fuel with
  | O => None
  | S n =>
      match value with
      | HNone => Some (Ok JNull)
      | HStr s => Some (Ok (JStr s))
      | HBool b => Some (Ok (JBool b))
      | HInt z => Some (Ok (JInt z))
      | HFloat f =>
          Some (if sf_finite f then Ok (JFloat f)
                else Err (ValidationError "process state message filters contain a non-finite number"))
      | HOther _ => Some (Err (ValidationError "process state message filters contain non-JSON value"))
      | HRef id =>
          match h !! id with
          | None => Some (Err (ValidationError "process state message filters contain non-JSON value"))
          | Some (ODict kvs) =>
              if decide (id ∈ active) then Some (Err cycle_error)
              else run_bind
                     (run_map (fun kv =>
                        match fst kv with
                        | HStr k => run_bind (_strict_json_value n h ({[id]} ∪ active) (snd kv))
                                             (fun j => Some (Ok (k, j)))
                        | _ => Some (Err (ValidationError
                                 "process state message filters contain a non-string JSON object key"))
                        end) kvs)
                     (fun normalized => Some (Ok (JObj normalized)))
          | Some (OList l) =>
              if decide (id ∈ active) then Some (Err cycle_error)
              else run_bind (run_map (_strict_json_value n h ({[id]} ∪ active)) l)
                            (fun items => Some (Ok (JList items)))
          end
      end
  end.

Definition strict_json (h : gmap nat hobj) (value : hval) : option (res json) :=
  _strict_json_value (S (size (dom h))) h ∅ value.

(** ** What a heap value denotes: its finite unfolding *)

Inductive denotes (h : gmap nat hobj) : hval → json → Prop :=
| den_none : denotes h HNone JNull
| den_bool b : denotes h (HBool b) (JBool b)
| den_int z : denotes h (HInt z) (JInt z)
| den_float f : sf_finite f = true → denotes h (HFloat f) (JFloat f)
| den_str s : denotes h (HStr s) (JStr s)
| den_list id l js :
    h !! id = Some (OList l) → Forall2 (denotes h) l js → denotes h (HRef id) (JList js)
| den_dict id kvs jkvs :
    h !! id = Some (ODict kvs) →
    Forall2 (fun kv jkv => fst kv = HStr (fst jkv) ∧ denotes h (snd kv) (snd jkv)) kvs jkvs →
    denotes h (HRef id) (JObj jkvs).

Fixpoint json_size (j : json) : nat :=
  match j with
  | JList l => S (sum_list (map json_size l))
  | JObj kvs => S (sum_list (map (fun kv => json_size (snd kv)) kvs))
  | _ => 1
  end.

Lemma json_size_elem j l : j ∈ l → json_size j < json_size (JList l).
Proof.
  cbn. induction l as [|x l IH]; [by intros ?%not_elem_of_nil|].
  intros [->|H]%elem_of_cons; cbn; [lia|]. specialize (IH H). lia.
Qed.

Lemma json_size_field kv (kvs : list (string * json)) :
  kv ∈ kvs → json_size (snd kv) < json_size (JObj kvs).
Proof.
  cbn. induction kvs as [|x l IH]; [by intros ?%not_elem_of_nil|].
  intros [->|H]%elem_of_cons; cbn; [lia|]. specialize (IH H). lia.
Qed.

Section Heap.
Context (h : gmap nat hobj).

Lemma denotes_det j : ∀ v j', denotes h v j → denotes h v j' → j' = j.
Proof.
  induction j as [| | | | |l IH|kvs IH] using json_ind'; intros v j' H1 H2;
    inversion H1; subst; inversion H2; subst; simplify_eq; try done; f_equal.
  - clear H1 H2.
    match goal with Ha : Forall2 _ ?l0 l, Hb : Forall2 _ ?l0 _ |- _ =>
      rename Ha into Hl, Hb into Hl' end.
    repeat match goal with E : h !! _ = _ |- _ => clear E end.
    revert js Hl'. induction Hl as [|x y l0 l Hx Hl IHl]; inversion 1; subst; [done|].
    inversion IH; subst. f_equal; eauto.
  - clear H1 H2.
    match goal with Ha : Forall2 _ ?l0 kvs, Hb : Forall2 _ ?l0 _ |- _ =>
      rename Ha into Hl, Hb into Hl' end.
    repeat match goal with E : h !! _ = _ |- _ => clear E end.
    revert jkvs Hl'. induction Hl as [|x [k y] l0 l [Hk Hx] Hl IHl]; inversion 1; subst; [done|].
    inversion IH; subst. destruct_and!. destruct y0 as [k' y']; cbn in *.
    f_equal; [|eauto]. simplify_eq. f_equal; eauto; congruence.
Qed.

(** A successful run returns the unfolding of its argument. *)
Lemma strict_sound fuel : ∀ active v j,
  _strict_json_value fuel h active v = Some (Ok j) → denotes h v j.
Proof.
  induction fuel as [|n IH]; intros active v j; cbn; [done|].
  destruct v as [| | |f| |id|]; try (intros [= <-]; constructor); try done.
  - destruct (sf_finite f) eqn:E; intros [= <-]. by constructor.
  - destruct (h !! id) as [[kvs|l]|] eqn:E; [| |done].
    + case_decide; [done|].
      assert (∀ f js, run_map f kvs = Some (Ok js) →
        (∀ kv jkv, f kv = Some (Ok jkv) → fst kv = HStr (fst jkv) ∧ denotes h (snd kv) (snd jkv)) →
        Forall2 (fun kv jkv => fst kv = HStr (fst jkv) ∧ denotes h (snd kv) (snd jkv)) kvs js) as Hmap.
      { clear E. induction kvs as [|kv kvs IHk]; intros f js Hr Hf; cbn in Hr; simplify_eq; [constructor|].
        destruct (f kv) as [[jkv|]|] eqn:Ef; cbn in Hr; try done.
        destruct (run_map f kvs) as [[js'|]|] eqn:Er; cbn in Hr; simplify_eq.
        constructor; eauto. }
      match goal with |- run_bind ?m _ = _ → _ => destruct m as [[js|]|] eqn:Er end; cbn; try done.
      intros [= <-]. eapply den_dict; [done|]. eapply Hmap; [done|].
      intros [k x] [k' j'] Hf; cbn in Hf. destruct k; try done.
      destruct (_strict_json_value n h ({[id]} ∪ active) x) as [[j|]|] eqn:Ex; cbn in Hf; simplify_eq.
      cbn. eauto.
    + case_decide; [done|].
      match goal with |- run_bind ?m _ = _ → _ => destruct m as [[js|]|] eqn:Er end; cbn; try done.
      intros [= <-]. eapply den_list; [done|]. clear E. revert js Er.
      induction l as [|x l IHl]; intros js Er; cbn in Er; simplify_eq; [constructor|].
      destruct (_strict_json_value n h ({[id]} ∪ active) x) as [[j|]|] eqn:Ex; cbn in Er; try done.
      match type of Er with run_bind ?m _ = _ => destruct m as [[js'|]|] eqn:Er' end;
        cbn in Er; simplify_eq. constructor; eauto.
Qed.

(** [active] is disjoint from the proper unfolding of a value of size [n]:
    every open container unfolds to something larger. *)
Definition above (active : gset nat) (n : nat) : Prop :=
  ∀ id j, id ∈ active → denotes h (HRef id) j → n < json_size j.

Lemma above_child active id j n :
  above active (json_size j) → denotes h (HRef id) j → n < json_size j →
  above ({[id]} ∪ active) n.
Proof.
  intros Ha Hd Hn id' j' [->%elem_of_singleton|Hin]%elem_of_union Hd'.
  - by rewrite (denotes_det _ _ _ Hd Hd').
  - specialize (Ha _ _ Hin Hd'). lia.
Qed.

(** Every finite unfolding is accepted, whatever the sharing. *)
Lemma strict_complete j : ∀ fuel active v,
  denotes h v j → above active (json_size j) →
  _strict_json_value fuel h active v = Some (Ok j)
  ∨ _strict_json_value fuel h active v = None.
Proof.
  induction j as [| | | | |l IH|kvs IH] using json_ind'; intros [|n] active v Hd Ha;
    try (by right); inversion Hd; subst; cbn; try (by left).
  - left. by match goal with E : sf_finite _ = true |- _ => rewrite E end.
  - match goal with E : h !! _ = _ |- _ => rewrite E end.
    case_decide as Hin; [specialize (Ha _ _ Hin Hd); lia|].
    assert (∀ x y, denotes h x y → y ∈ l → _strict_json_value n h ({[id]} ∪ active) x = Some (Ok y)
                ∨ _strict_json_value n h ({[id]} ∪ active) x = None) as Hchild.
    { intros x y Hxy Hy. rewrite Forall_forall in IH. apply (IH y); [by apply list_elem_of_In|done|].
      eapply above_child; [done..|]. by apply json_size_elem. }
    clear IH Ha Hd Hin. match goal with E : h !! _ = _ |- _ => clear E end.
    match goal with Hl : Forall2 _ ?l0 l |- _ =>
      rename Hl into HF;
      assert (run_map (_strict_json_value n h ({[id]} ∪ active)) l0 = Some (Ok l)
           ∨ run_map (_strict_json_value n h ({[id]} ∪ active)) l0 = None) as [-> | ->];
        [|by left|by right] end.
    induction HF as [|x y l0 l Hxy Hl IHl]; cbn; [by left|].
    destruct (Hchild x y) as [-> | ->]; [done|set_solver| |by right]. cbn.
    destruct IHl as [-> | ->]; [|by left|by right]. set_solver.
  - match goal with E : h !! _ = _ |- _ => rewrite E end.
    case_decide as Hin; [specialize (Ha _ _ Hin Hd); lia|].
    assert (∀ x kv, denotes h x (snd kv) → kv ∈ kvs →
              _strict_json_value n h ({[id]} ∪ active) x = Some (Ok (snd kv))
              ∨ _strict_json_value n h ({[id]} ∪ active) x = None) as Hchild.
    { intros x kv Hxy Hy. rewrite Forall_forall in IH. apply (IH kv); [by apply list_elem_of_In|done|].
      eapply above_child; [done..|]. by apply json_size_field. }
    clear IH Ha Hd Hin. match goal with E : h !! _ = _ |- _ => clear E end.
    match goal with |- run_bind (run_map ?f ?l0) _ = _ ∨ _ =>
      set (entry := f); assert (run_map entry l0 = Some (Ok kvs) ∨ run_map entry l0 = None)
        as [-> | ->]; [|by left|by right] end.
    match goal with Hl : Forall2 _ _ kvs |- _ => induction Hl as [|x [k y] l0 l [Hk Hxy] Hl IHl] end;
      cbn; [by left|].
    unfold entry at 1 3. rewrite Hk. cbn in Hxy |- *.
    destruct (Hchild (snd x) (k, y)) as [-> | ->]; [done|set_solver| |by right]. cbn.
    destruct IHl as [-> | ->]; [|by left|by right]. set_solver.
Qed.

(** The recursion depth is bounded by the number of containers not yet
    open. *)
Lemma strict_terminates fuel : ∀ active v,
  size (dom h ∖ active) < fuel → _strict_json_value fuel h active v ≠ None.
Proof.
  induction fuel as [|n IH]; intros active v Hf; [lia|]. cbn.
  destruct v as [| | | | |id|]; try done.
  destruct (h !! id) as [o|] eqn:E; [|done].
  assert (id ∉ active → size (dom h ∖ ({[id]} ∪ active)) < n) as Hdec.
  { intros Hid. assert (id ∈ dom h ∖ active) as Hin.
    { apply elem_of_difference. split; [|done]. apply elem_of_dom. by eexists. }
    assert (size (dom h ∖ ({[id]} ∪ active)) < size (dom h ∖ active)); [|lia].
    apply subset_size. split; [set_solver|]. intros Hsub. set_solver. }
  destruct o as [kvs|l]; case_decide as Hd; try done; specialize (Hdec Hd).
  - assert (∀ f, (∀ kv, f kv ≠ None) → run_map f kvs ≠ (None : option (res (list (string * json)))))
      as Hmap.
    { intros f Hf'. clear E. induction kvs as [|kv kvs IHk]; cbn; [done|].
      specialize (Hf' kv). destruct (f kv) as [[]|]; cbn; try done.
      by destruct (run_map f kvs) as [[]|]. }
    match goal with |- run_bind (run_map ?f _) _ ≠ _ =>
      specialize (Hmap f); destruct (run_map f kvs) as [[]|] end; cbn; try done.
    exfalso; apply Hmap; [|done]. intros [k x]. cbn. destruct k; try done.
    specialize (IH ({[id]} ∪ active) x Hdec).
    by destruct (_strict_json_value n h ({[id]} ∪ active) x) as [[]|].
  - assert (run_map (_strict_json_value n h ({[id]} ∪ active)) l ≠ None) as Hmap.
    { clear E. induction l as [|x l IHl]; cbn; [done|].
      specialize (IH ({[id]} ∪ active) x Hdec).
      destruct (_strict_json_value n h ({[id]} ∪ active) x) as [[]|]; cbn; try done.
      by destruct (run_map _ l) as [[]|]. }
    by destruct (run_map _ l) as [[]|].
Qed.
End Heap.

(** (C38) The cycle-tracking validator always returns, on any object graph,
    and it accepts exactly the values with a finite JSON unfolding, returning
    that unfolding: containers that are shared but acyclic are accepted, every
    value that reaches itself is rejected. *)
Theorem strict_json_decides_unfolding (h : gmap nat hobj) (v : hval) :
  (∃ r, strict_json h v = Some r)
  ∧ ∀ j, strict_json h v = Some (Ok j) ↔ denotes h v j.
Proof.
  assert (strict_json h v ≠ None) as Hterm.
  { apply strict_terminates. apply Nat.lt_succ_r, subseteq_size. set_solver. }
  split; [by destruct (strict_json h v) as [r|]; [exists r|]|].
  intros j. split; [apply strict_sound|]. intros Hd.
  destruct (strict_complete h j (S (size (dom h))) ∅ v Hd) as [?|?]; [|done..].
  intros id j' Hin. set_solver.
Qed.

Example self_containing_dict :
  strict_json {[1 := ODict [(HStr "a", HRef 2)]; 2 := OList [HInt 1; HRef 1]]} (HRef 1)
  = Some (Err cycle_error).
Proof. by vm_compute. Qed.

Example shared_list_accepted :
  strict_json {[1 := ODict [(HStr "a", HRef 2); (HStr "b", HRef 2)]; 2 := OList [HInt 1]]} (HRef 1)
  = Some (Ok (JObj [("a", JList [JInt 1]); ("b", JList [JInt 1])])).
Proof. by vm_compute. Qed.
