(* ===== verification/ProcessModel.v ===== *)
(** * Process data model

    [agent_libos/models/process.py]: resource budgets and usage with their
    validators, the durable reservation envelopes and their recovery pages,
    execution tokens, and the process row. *)

From S2P Require Import Prelude PyStr PyVal ProcessState.

(** ** Number validation *)

Definition _validate_resource_number (name : string) (value : pyval)
    (allow_none require_integer : bool) : res unit :=
  match value with
  | PNone =>
      if allow_none then Ok tt else Err (ValueError (name +:+ " must be numeric"))
  | PInt z =>
      f ← to_float (NInt z);
      _ ← raise_if (negb (sf_finite f)) (ValueError (name +:+ " must be finite"));
      raise_if (z <? 0)%Z (ValueError (name +:+ " cannot be negative"))
  | PFloat f =>
      _ ← raise_if (negb (sf_finite f)) (ValueError (name +:+ " must be finite"));
      _ ← raise_if (num_ltb (NFloat f) (NInt 0)) (ValueError (name +:+ " cannot be negative"));
      raise_if require_integer (ValueError (name +:+ " must be an integer"))
  | _ => Err (ValueError (name +:+ " must be numeric"))
  end.

Definition py_num (n : num) : pyval :=
  match n with NInt z => PInt z | NFloat f => PFloat f end.

Definition py_opt_num (n : option num) : pyval :=
  match n with Some n => py_num n | None => PNone end.

(** ** Resource usage *)

Inductive usage_field : Set :=
| runtime_seconds | tool_calls | child_processes | context_materialized_tokens
| llm_calls | llm_prompt_tokens | llm_completion_tokens | llm_total_tokens
| subprocess_wall_seconds | subprocess_cpu_seconds | subprocess_peak_memory_bytes
| external_read_bytes | external_write_bytes
| jsonrpc_request_bytes | jsonrpc_response_bytes
| mcp_request_bytes | mcp_response_bytes | deno_syscalls.

#[export] Instance usage_field_eq_dec : EqDecision usage_field.
Proof. solve_decision. Defined.

(** [fields(ResourceUsage)], in declaration order. *)
Definition usage_fields : list usage_field :=
  [runtime_seconds; tool_calls; child_processes; context_materialized_tokens;
   llm_calls; llm_prompt_tokens; llm_completion_tokens; llm_total_tokens;
   subprocess_wall_seconds; subprocess_cpu_seconds; subprocess_peak_memory_bytes;
   external_read_bytes; external_write_bytes;
   jsonrpc_request_bytes; jsonrpc_response_bytes;
   mcp_request_bytes; mcp_response_bytes; deno_syscalls].

Definition usage_field_name (f : usage_field) : string :=
  match f with
  | runtime_seconds => "runtime_seconds" | tool_calls => "tool_calls"
  | child_processes => "child_processes"
  | context_materialized_tokens => "context_materialized_tokens"
  | llm_calls => "llm_calls" | llm_prompt_tokens => "llm_prompt_tokens"
  | llm_completion_tokens => "llm_completion_tokens"
  | llm_total_tokens => "llm_total_tokens"
  | subprocess_wall_seconds => "subprocess_wall_seconds"
  | subprocess_cpu_seconds => "subprocess_cpu_seconds"
  | subprocess_peak_memory_bytes => "subprocess_peak_memory_bytes"
  | external_read_bytes => "external_read_bytes"
  | external_write_bytes => "external_write_bytes"
  | jsonrpc_request_bytes => "jsonrpc_request_bytes"
  | jsonrpc_response_bytes => "jsonrpc_response_bytes"
  | mcp_request_bytes => "mcp_request_bytes"
  | mcp_response_bytes => "mcp_response_bytes"
  | deno_syscalls => "deno_syscalls"
  end.

(** [_CONTINUOUS_USAGE_FIELDS]. *)
Definition continuous_usage (f : usage_field) : bool :=
  match f with
  | runtime_seconds | subprocess_wall_seconds | subprocess_cpu_seconds => true
  | _ => false
  end.

(** A usage vector: [getattr(usage, name)] is [uget usage name]. *)
Record ResourceUsage : Set := mk_usage { uget : usage_field → num }.

Definition usage_default (f : usage_field) : num :=
  if continuous_usage f then NFloat (S754_zero false) else NInt 0.

(** [ResourceUsage()]. *)
Definition usage_zero : ResourceUsage := mk_usage usage_default.

(** [ResourceUsage.validate]. *)
Definition usage_validate (u : ResourceUsage) : res unit :=
  foldR (fun _ f =>
    _validate_resource_number (usage_field_name f) (py_num (uget u f)) false
      (negb (continuous_usage f))) tt usage_fields.

(** ** Resource budgets *)

Inductive budget_field : Set :=
| max_tool_calls | max_child_processes | max_runtime_seconds
| max_context_materialization_total_tokens | max_llm_calls | max_llm_total_tokens
| max_subprocess_wall_seconds | max_subprocess_cpu_seconds
| max_subprocess_memory_bytes | max_external_read_bytes | max_external_write_bytes
| max_jsonrpc_bytes | max_mcp_bytes | max_deno_syscalls.

#[export] Instance budget_field_eq_dec : EqDecision budget_field.
Proof. solve_decision. Defined.

Definition budget_field_name (f : budget_field) : string :=
  match f with
  | max_tool_calls => "max_tool_calls" | max_child_processes => "max_child_processes"
  | max_runtime_seconds => "max_runtime_seconds"
  | max_context_materialization_total_tokens => "max_context_materialization_total_tokens"
  | max_llm_calls => "max_llm_calls" | max_llm_total_tokens => "max_llm_total_tokens"
  | max_subprocess_wall_seconds => "max_subprocess_wall_seconds"
  | max_subprocess_cpu_seconds => "max_subprocess_cpu_seconds"
  | max_subprocess_memory_bytes => "max_subprocess_memory_bytes"
  | max_external_read_bytes => "max_external_read_bytes"
  | max_external_write_bytes => "max_external_write_bytes"
  | max_jsonrpc_bytes => "max_jsonrpc_bytes" | max_mcp_bytes => "max_mcp_bytes"
  | max_deno_syscalls => "max_deno_syscalls"
  end.

(** [_CONTINUOUS_BUDGET_FIELDS]. *)
Definition continuous_budget (f : budget_field) : bool :=
  match f with
  | max_runtime_seconds | max_subprocess_wall_seconds | max_subprocess_cpu_seconds => true
  | _ => false
  end.

(** The optional ceilings, and the per-call context window that is always
    set. *)
Record ResourceBudget : Set := mk_budget {
  bget : budget_field → option num;
  max_context_materialization_tokens : num;
}.

Definition budget_validate (b : ResourceBudget) : res unit :=
  let check f := _validate_resource_number (budget_field_name f) (py_opt_num (bget b f)) true
                   (negb (continuous_budget f)) in
  _ ← foldR (fun _ f => check f) tt [max_tool_calls; max_child_processes; max_runtime_seconds];
  _ ← _validate_resource_number "max_context_materialization_tokens"
        (py_num (max_context_materialization_tokens b)) false true;
  foldR (fun _ f => check f) tt
    [max_context_materialization_total_tokens; max_llm_calls; max_llm_total_tokens;
     max_subprocess_wall_seconds; max_subprocess_cpu_seconds; max_subprocess_memory_bytes;
     max_external_read_bytes; max_external_write_bytes; max_jsonrpc_bytes; max_mcp_bytes;
     max_deno_syscalls].

(** ** Reservations *)

(** Capacity a parent has set aside for a child, by budget-field name. *)
Record ResourceReservation : Type := {
  res_parent_pid : string;
  res_child_pid : string;
  reserved : gmap string num;
  res_created_at : string;
  res_updated_at : string;
}.

(** [__post_init__]: every reserved quantity is a finite non-negative number. *)
Definition reservation_validate (r : ResourceReservation) : res unit :=
  foldR (fun _ kv => _validate_resource_number (fst kv) (py_num (snd kv)) false false) tt
    (map_to_list (reserved r)).

Inductive ResourceUsageReservationStatus : Set :=
| UR_ACTIVE | UR_SETTLED | UR_RELEASED | UR_CHARGED_MAXIMUM.

#[export] Instance ur_status_eq_dec : EqDecision ResourceUsageReservationStatus.
Proof. solve_decision. Defined.

Record ResourceUsageReservation : Type := {
  reservation_id : string;
  ur_pid : string;
  ur_usage : ResourceUsage;
  ur_status : ResourceUsageReservationStatus;
  reserved_by : string;
  ur_reason : string;
  settled_usage : option ResourceUsage;
  ur_created_at : string;
  ur_updated_at : string;
}.

Definition usage_reservation_validate (r : ResourceUsageReservation) : res unit :=
  foldR (fun _ nv => raise_if (String.eqb (strip (snd nv)) "")
                       (ValueError (fst nv +:+ " must be non-empty"))) tt
    [("reservation_id", reservation_id r); ("pid", ur_pid r);
     ("reserved_by", reserved_by r); ("reason", ur_reason r);
     ("created_at", ur_created_at r); ("updated_at", ur_updated_at r)].

(** ** Recovery cursors, pages and summaries *)

Record ResourceUsageReservationCursor : Set := {
  cur_created_at : string;
  cur_reservation_id : string;
}.

#[export] Instance cursor_eq_dec : EqDecision ResourceUsageReservationCursor.
Proof. solve_decision. Defined.

Definition mk_cursor (created_at id : string) : res ResourceUsageReservationCursor :=
  _ ← raise_if (String.eqb created_at "")
        (ValueError "resource usage reservation cursor created_at must not be empty");
  _ ← raise_if (String.eqb id "")
        (ValueError "resource usage reservation cursor reservation_id must not be empty");
  Ok {| cur_created_at := created_at; cur_reservation_id := id |}.

(** [dataclass(order=True)]: lexicographic in field order. *)
Definition cursor_ltb (a b : ResourceUsageReservationCursor) : bool :=
  str_ltb (cur_created_at a) (cur_created_at b)
  || (String.eqb (cur_created_at a) (cur_created_at b)
      && str_ltb (cur_reservation_id a) (cur_reservation_id b)).

Record ResourceUsageReservationPage : Type := {
  page_records : list ResourceUsageReservation;
  next_cursor : option ResourceUsageReservationCursor;
}.

Definition mk_page (records : list ResourceUsageReservation)
    (next : option ResourceUsageReservationCursor) : res ResourceUsageReservationPage :=
  _ ← raise_if (match next, records with Some _, [] => true | _, _ => false end)
        (ValueError "empty resource usage reservation page cannot have a cursor");
  Ok {| page_records := records; next_cursor := next |}.

Record RecoverySummary : Set := {
  total_count : Z;
  sample_ids : list string;
}.

(** [ResourceUsageReservationRecoverySummary.__post_init__]; the stale
    execution and capability summaries have the same checks. *)
Definition mk_summary (total : Z) (sample : list string) : res RecoverySummary :=
  _ ← raise_if (total <? 0)%Z
        (ValueError "resource usage recovery total_count must be non-negative");
  _ ← raise_if (total <? Z.of_nat (length sample))%Z
        (ValueError "resource usage recovery sample exceeds total_count");
  _ ← raise_if (existsb (fun s => String.eqb s "") sample)
        (ValueError "resource usage recovery sample ids must be non-empty");
  Ok {| total_count := total; sample_ids := sample |}.

Definition truncated (s : RecoverySummary) : bool :=
  (Z.of_nat (length (sample_ids s)) <? total_count s)%Z.

(** ** Process rows and execution tokens *)

Record ProcessExecutionToken : Set := {
  tok_pid : string;
  tok_generation : Z;
  tok_owner_id : string;
  tok_lease_id : string;
  tok_task_run_epoch : option Z;
}.

#[export] Instance token_eq_dec : EqDecision ProcessExecutionToken.
Proof. solve_decision. Defined.

Record AgentProcess : Type := {
  pid : string;
  parent_pid : option string;
  image_id : string;
  status : ProcessStatus;
  goal_oid : option string;
  memory_view : option pyval;
  capabilities : list string;
  loaded_skills : list (string * pyval);
  tool_table : list (string * string);
  event_cursor : option string;
  checkpoint_head : option string;
  resource_budget : ResourceBudget;
  resource_usage : ResourceUsage;
  created_at : string;
  updated_at : string;
  working_directory : string;
  status_message : option string;
  wait_state : option ProcessWaitState;
  outcome : option ProcessOutcome;
  state_generation : Z;
  llm_profile_id : string;
  model_tool_table : list (string * string);
  revision : Z;
  execution_generation : Z;
  execution_owner_id : option string;
  execution_lease_id : option string;
  task_run_id : option string;
  task_run_epoch : option Z;
  task_run_role : option string;
}.

(** ** Properties of the validators *)

Lemma validate_number_int name z allow_none :
  _validate_resource_number name (PInt z) allow_none true = Ok tt → (0 <= z)%Z.
Proof.
  cbn. intros H. res_simpl. destruct (Z.ltb_spec z 0); [done|lia].
Qed.

Definition nonneg_num (n : num) : Prop :=
  match n with
  | NInt z => (0 <= z)%Z
  | NFloat f => sf_finite f = true ∧ num_ltb (NFloat f) (NInt 0) = false
  end.

Lemma validate_number_nonneg name n allow_none ri :
  _validate_resource_number name (py_num n) allow_none ri = Ok tt → nonneg_num n.
Proof.
  destruct n as [z|f]; cbn -[num_ltb to_float]; intros H; res_simpl.
  - destruct (Z.ltb_spec z 0); [done|lia].
  - done.
Qed.

Lemma foldR_unit_Ok {A} (f : A → res unit) l :
  foldR (fun _ x => f x) tt l = Ok tt ↔ ∀ x, x ∈ l → f x = Ok tt.
Proof.
  induction l as [|x l IH]; cbn.
  - split; [|done]. intros _ x Hx. set_solver.
  - rewrite bind_Ok. split.
    + intros ([] & Hx & Hl) y [->|Hy]%elem_of_cons; [done|]. by apply IH.
    + intros H. exists tt. split; [apply H; set_solver|]. apply IH. set_solver.
Qed.

Lemma usage_fields_complete f : f ∈ usage_fields.
Proof. destruct f; unfold usage_fields; set_solver. Qed.

(** A usage vector passes validation only if every counter is a finite
    non-negative number and every discrete counter is an integer. *)
Theorem usage_validate_sound (u : ResourceUsage) :
  usage_validate u = Ok tt →
  ∀ f, nonneg_num (uget u f)
     ∧ (continuous_usage f = false → ∃ z, uget u f = NInt z ∧ (0 <= z)%Z).
Proof.
  unfold usage_validate. rewrite foldR_unit_Ok. intros H f.
  specialize (H f (usage_fields_complete f)).
  split; [by eapply validate_number_nonneg|]. intros Hc. rewrite Hc in H.
  destruct (uget u f) as [z|g] eqn:E.
  - exists z. split; [done|]. by eapply validate_number_int.
  - cbn -[num_ltb] in H. by res_simpl.
Qed.

Lemma usage_validate_sound_witness :
  usage_validate usage_zero = Ok tt ∧
  ∀ f, nonneg_num (uget usage_zero f)
     ∧ (continuous_usage f = false → ∃ z, uget usage_zero f = NInt z ∧ (0 <= z)%Z).
Proof. split; [by vm_compute|]. apply usage_validate_sound. by vm_compute. Defined.
