(* ===== verification/ProcessStore.v ===== *)
(** * The process table and its write fences

    The process part of [agent_libos/storage/sql.py] and the ambient scopes
    of [agent_libos/process_execution.py]: every write to a process row is a
    compare-and-swap on its revision, fenced by the execution token of the
    worker that performs it. *)

From S2P Require Import Prelude PyStr PyVal ProcessState ProcessModel.
From Stdlib Require Import Ascii.

(** ** Ambient scopes ([process_execution.py])

    The context variables of one thread of control.  The takeover intent is a
    mutable object shared with the store, so it lives in the store state. *)

Record ProcessControlMutation : Set := {
  cm_target_pid : string;
  cm_allowed_statuses : list ProcessStatus;
  cm_reason : string;
}.

Record ProcessExecutionTakeoverIntent : Set := {
  ti_target_pid : string;
  ti_source_revision : Z;
  ti_source_state_generation : Z;
  ti_source_execution_token : ProcessExecutionToken;
  ti_intended_status : ProcessStatus;
  ti_reason : string;
  ti_nonce : string;
  ti_reason_text : option string;
  ti_reason_action : option string;
  ti_wait_kind : option string;
  ti_outcome_code : option string;
  ti_stage : Z;
  ti_reason_capability_id : option string;
  ti_reason_oid : option string;
}.

Record TerminalProcessMutation : Set := {
  tm_target_pid : string;
  tm_expected_revision : Z;
  tm_expected_generation : Z;
  tm_allowed_statuses : list ProcessStatus;
  tm_execution_token : option ProcessExecutionToken;
  tm_reason : string;
}.

Record PostExecCompletionMutation : Set := {
  pm_target_pid : string;
  pm_publication_id : string;
  pm_operation_id : string;
  pm_expected_revision : Z;
  pm_expected_generation : Z;
  pm_execution_token : ProcessExecutionToken;
  pm_reason : string;
}.

Record Ambient : Set := {
  cur_execution : option ProcessExecutionToken;
  cur_terminal_mutation : option TerminalProcessMutation;
  cur_control_mutation : option ProcessControlMutation;
  cur_post_exec_mutation : option PostExecCompletionMutation;
}.

(** The Host, outside every scope. *)
Definition host : Ambient :=
  {| cur_execution := None; cur_terminal_mutation := None;
     cur_control_mutation := None; cur_post_exec_mutation := None |}.

Definition bind_process_execution (amb : Ambient) (token : ProcessExecutionToken) : Ambient :=
  {| cur_execution := Some token;
     cur_terminal_mutation := cur_terminal_mutation amb;
     cur_control_mutation := cur_control_mutation amb;
     cur_post_exec_mutation := cur_post_exec_mutation amb |}.

Definition terminal_statuses : list ProcessStatus := [EXITED; FAILED; KILLED].

Definition is_terminal (s : ProcessStatus) : bool := bool_decide (s ∈ terminal_statuses).

Definition trusted_terminal_process_mutation (amb : Ambient) (target_pid : string)
    (expected_revision expected_generation : Z) (allowed_statuses : list ProcessStatus)
    (execution_token : option ProcessExecutionToken) (reason : string) : res Ambient :=
  let selected_pid := strip target_pid in
  let selected_reason := strip reason in
  _ ← raise_if (String.eqb selected_pid "")
        (ValueError "terminal process mutation target pid must be non-empty");
  _ ← raise_if (bool_decide (allowed_statuses = []) || negb (forallb is_terminal allowed_statuses))
        (ValueError "terminal process mutation statuses must be terminal");
  _ ← raise_if ((expected_revision <? 0) || (expected_generation <? 0))%Z
        (ValueError "terminal process mutation concurrency values must be non-negative");
  _ ← raise_if (String.eqb selected_reason "")
        (ValueError "terminal process mutation reason must be non-empty");
  _ ← raise_if (negb (bool_decide (execution_token = cur_execution amb)))
        (ValueError "terminal process mutation token must match the ambient worker token");
  Ok {| cur_execution := cur_execution amb;
        cur_terminal_mutation := Some
          {| tm_target_pid := selected_pid; tm_expected_revision := expected_revision;
             tm_expected_generation := expected_generation;
             tm_allowed_statuses := allowed_statuses;
             tm_execution_token := execution_token; tm_reason := selected_reason |};
        cur_control_mutation := cur_control_mutation amb;
        cur_post_exec_mutation := cur_post_exec_mutation amb |}.

Definition trusted_process_control_mutation (amb : Ambient) (target_pid : string)
    (allowed_statuses : list ProcessStatus) (reason : string) : res Ambient :=
  let selected_pid := strip target_pid in
  let selected_reason := strip reason in
  _ ← raise_if (String.eqb selected_pid "") (ValueError "process control target pid must be non-empty");
  _ ← raise_if (bool_decide (allowed_statuses = []))
        (ValueError "process control allowed statuses must be non-empty");
  _ ← raise_if (String.eqb selected_reason "") (ValueError "process control reason must be non-empty");
  Ok {| cur_execution := cur_execution amb;
        cur_terminal_mutation := cur_terminal_mutation amb;
        cur_control_mutation := Some
          {| cm_target_pid := selected_pid; cm_allowed_statuses := allowed_statuses;
             cm_reason := selected_reason |};
        cur_post_exec_mutation := cur_post_exec_mutation amb |}.

Definition trusted_post_exec_completion_mutation (amb : Ambient)
    (target_pid publication_id operation_id : string)
    (expected_revision expected_generation : Z) (execution_token : ProcessExecutionToken)
    (reason : string) : res Ambient :=
  let selected_pid := strip target_pid in
  let selected_publication := strip publication_id in
  let selected_operation := strip operation_id in
  let selected_reason := strip reason in
  _ ← raise_if (existsb (fun s => String.eqb s "")
                  [selected_pid; selected_publication; selected_operation; selected_reason])
        (ValueError "post-exec completion fields must be non-empty");
  _ ← raise_if ((expected_revision <? 0) || (expected_generation <? 0))%Z
        (ValueError "post-exec completion concurrency values must be non-negative");
  _ ← raise_if (negb (bool_decide (Some execution_token = cur_execution amb))
                || negb (String.eqb (tok_pid execution_token) selected_pid))
        (ValueError "post-exec completion token must match the target worker");
  _ ← raise_if (negb (expected_generation =? tok_generation execution_token + 1))%Z
        (ValueError "post-exec completion generation must be token generation + 1");
  Ok {| cur_execution := cur_execution amb;
        cur_terminal_mutation := cur_terminal_mutation amb;
        cur_control_mutation := cur_control_mutation amb;
        cur_post_exec_mutation := Some
          {| pm_target_pid := selected_pid; pm_publication_id := selected_publication;
             pm_operation_id := selected_operation;
             pm_expected_revision := expected_revision;
             pm_expected_generation := expected_generation;
             pm_execution_token := execution_token; pm_reason := selected_reason |} |}.

(** ** The tables *)

Definition CLEANUP_PHASES : list string := ["terminal_notify"; "process_finalize"].

(** A [process_terminal_cleanups] row. *)
Record CleanupRow : Type := {
  cl_terminal_status : ProcessStatus;
  cl_state : string;
  cl_completed_phases : list string;
  cl_attempt_count : Z;
  cl_owner_id : option string;
  cl_lease_id : option string;
  cl_failed_phase : option string;
  cl_last_error : option pyval;
  cl_created_at : string;
  cl_updated_at : string;
}.

(** The columns of a [runtime_publications] row the admission fence reads,
    in [(created_at, publication_id)] order; [None] is a plan that does not
    decode to an object. *)
Record Publication : Type := {
  pub_id : string;
  pub_kind : string;
  pub_pid : string;
  pub_state : string;
  pub_plan : option (list (pyval * pyval));
}.

(** The columns of a [task_runs] row the execution claim reads. *)
Record TaskRunRow : Set := {
  tr_runtime_epoch : Z;
  tr_status : string;
  tr_deadline_at : option string;
}.

Record Store : Type := mkStore {
  processes : gmap string AgentProcess;
  tool_bindings : gmap string (list (string * string * string));
  cleanups : gmap string CleanupRow;
  runtime_counters : gmap string Z;
  runtime_publications : list Publication;
  task_runs : gmap string TaskRunRow;
  takeover : option ProcessExecutionTakeoverIntent;
}.

Definition set_processes (f : gmap string AgentProcess → gmap string AgentProcess) (s : Store) : Store :=
  mkStore (f (processes s)) (tool_bindings s) (cleanups s) (runtime_counters s)
    (runtime_publications s) (task_runs s) (takeover s).
Definition set_tool_bindings f (s : Store) : Store :=
  mkStore (processes s) (f (tool_bindings s)) (cleanups s) (runtime_counters s)
    (runtime_publications s) (task_runs s) (takeover s).
Definition set_cleanups (f : gmap string CleanupRow → gmap string CleanupRow) (s : Store) : Store :=
  mkStore (processes s) (tool_bindings s) (f (cleanups s)) (runtime_counters s)
    (runtime_publications s) (task_runs s) (takeover s).
Definition set_counters (f : gmap string Z → gmap string Z) (s : Store) : Store :=
  mkStore (processes s) (tool_bindings s) (cleanups s) (f (runtime_counters s))
    (runtime_publications s) (task_runs s) (takeover s).
Definition set_takeover (t : option ProcessExecutionTakeoverIntent) (s : Store) : Store :=
  mkStore (processes s) (tool_bindings s) (cleanups s) (runtime_counters s)
    (runtime_publications s) (task_runs s) t.

(** [RuntimeStore.transaction()]: an exception rolls the tables back to the
    savepoint; the in-memory takeover intent is not a table. *)
Definition sql_transaction {A} (m : M Store A) : M Store A := fun s =>
  match m s with
  | (s', Ok a) => (s', Ok a)
  | (s', Err e) => (set_takeover (takeover s') s, Err e)
  end.

(** [_persisted_model_decode]. *)
Definition _persisted_model_decode {A} (r : res A) : res A :=
  match r with
  | Err (ValueError _) | Err (TypeError _) => Err (ValidationError "invalid persisted model")
  | _ => r
  end.

Lemma sql_transaction_Ok {A} (m : M Store A) s s' a :
  sql_transaction m s = (s', Ok a) ↔ m s = (s', Ok a).
Proof. unfold sql_transaction. destruct (m s) as [? []]; naive_solver. Qed.

Lemma sql_transaction_Err {A} (m : M Store A) s s' e :
  sql_transaction m s = (s', Err e) → ∃ t, s' = set_takeover t s.
Proof. unfold sql_transaction. destruct (m s) as [? []]; naive_solver. Qed.

(** [trusted_process_execution_takeover]: the scope fails unless its body
    carried the intent to the final stage, and never nests. *)
Definition trusted_process_execution_takeover {A}
    (target_pid : string) (source_revision source_state_generation : Z)
    (source_execution_token : ProcessExecutionToken) (intended_status : ProcessStatus)
    (reason nonce : string) (reason_text reason_action wait_kind outcome_code : option string)
    (body : M Store A) : M Store A := fun s =>
  let selected_pid := strip target_pid in
  let selected_reason := strip reason in
  let selected_nonce := strip nonce in
  if String.eqb selected_pid "" || negb (String.eqb (tok_pid source_execution_token) selected_pid)
     || (source_revision <? 0)%Z || (source_state_generation <? 0)%Z
     || negb (bool_decide (intended_status ∈ [PAUSED; KILLED]))
     || String.eqb selected_reason "" || String.eqb selected_nonce ""
  then (s, Err (ValueError "invalid process execution takeover intent"))
  else if negb (Bool.eqb (bool_decide (reason_text = None)) (bool_decide (reason_action = None)))
  then (s, Err (ValueError "takeover reason text and action must be provided together"))
  else match takeover s with
  | Some _ => (s, Err (ValueError "nested process execution takeover intents are forbidden"))
  | None =>
      let intent :=
        {| ti_target_pid := selected_pid; ti_source_revision := source_revision;
           ti_source_state_generation := source_state_generation;
           ti_source_execution_token := source_execution_token;
           ti_intended_status := intended_status; ti_reason := selected_reason;
           ti_nonce := selected_nonce; ti_reason_text := reason_text;
           ti_reason_action := reason_action; ti_wait_kind := wait_kind;
           ti_outcome_code := outcome_code; ti_stage := 0;
           ti_reason_capability_id := None; ti_reason_oid := None |} in
      match body (set_takeover (Some intent) s) with
      | (s', Err e) => (set_takeover None s', Err e)
      | (s', Ok a) =>
          if match takeover s' with Some i => (ti_stage i =? 3)%Z | None => false end
          then (set_takeover None s', Ok a)
          else (set_takeover None s',
                Err (RuntimeError "process execution takeover did not commit its final state"))
      end
  end.

(** ** Reading rows *)

Definition conflict (msg : string) : exn := ProcessRevisionConflict msg.

(** [_row_to_process] revalidates the persisted product. *)
Definition _row_to_process (row : AgentProcess) : res AgentProcess :=
  _ ← validate_process_state_fields (status_value (status row)) (wait_state row) (outcome row);
  Ok row.

Definition get_process (p : string) : M Store (option AgentProcess) := fun s =>
  match processes s !! p with
  | None => (s, Ok None)
  | Some row => match _row_to_process row with
                | Ok r => (s, Ok (Some r))
                | Err e => (s, Err e)
                end
  end.

(** ** Concurrency counters *)

Definition revision_counter (p : string) : string := "process_revision:" +:+ p.
Definition execution_counter (p : string) : string := "process_execution_generation:" +:+ p.
Definition state_counter (p : string) : string := "process_state_generation:" +:+ p.

Definition _raise_runtime_counter_floor (counter_name : string) (floor : Z) : M Store unit :=
  let selected_floor := Z.max 0 floor in
  modify (set_counters (fun c =>
    let inserted := match c !! counter_name with Some v => v | None => selected_floor end in
    <[counter_name := if (inserted <? selected_floor)%Z then selected_floor else inserted]> c)).

Definition observe_process_concurrency (p : string) (rev exec_gen : Z) (state_gen : option Z)
    : M Store unit :=
  _ ← _raise_runtime_counter_floor (revision_counter p) rev;
  _ ← _raise_runtime_counter_floor (execution_counter p) exec_gen;
  match state_gen with
  | Some g => _raise_runtime_counter_floor (state_counter p) g
  | None => mret tt
  end.

(** ** Side tables maintained by every write *)

Definition _ensure_process_terminal_cleanup_intent (p : string) (st : ProcessStatus)
    (now : string) : M Store unit :=
  if is_terminal st then
    modify (set_cleanups (fun m =>
      match m !! p with
      | Some _ => m
      | None => <[p := {| cl_terminal_status := st; cl_state := "pending";
                          cl_completed_phases := []; cl_attempt_count := 0;
                          cl_owner_id := None; cl_lease_id := None;
                          cl_failed_phase := None; cl_last_error := None;
                          cl_created_at := now; cl_updated_at := now |}]> m
      end))
  else mret tt.

Definition valid_binding_text (s : string) : bool :=
  negb (String.eqb s "") && negb (contains_char "000" s).

Definition _replace_process_tool_bindings (p : string)
    (tools model_tools : list (string * string)) : M Store unit :=
  _ ← lift_res (raise_if (negb (valid_binding_text p))
        (ValidationError "process tool bindings require a valid process ID"));
  let rows kind := map (fun nt : string * string => (kind, fst nt, snd nt)) in
  _ ← lift_res (raise_if
        (negb (forallb (fun nt : string * string => valid_binding_text (fst nt) && valid_binding_text (snd nt))
                 (tools ++ model_tools)))
        (ValidationError "process tool bindings require non-empty string names and identities"));
  modify (set_tool_bindings (fun m => <[p := rows "callable" tools ++ rows "model" model_tools]> m)).

(** ** Write fences *)

(** Three fences compare the proposed row with Objects, capabilities and
    operations, tables that are outside this file.  They are the operations
    of this interface; every theorem below holds whatever they answer. *)
Class ExecEvidence : Type := {
  (** [_assert_post_exec_completion_allowed] *)
  post_exec_completion_check :
    Store → Ambient → PostExecCompletionMutation → AgentProcess → AgentProcess → Z → res unit;
  (** [_record_takeover_reason_capability]: the updated intent when valid *)
  record_takeover_reason_capability :
    Store → AgentProcess → AgentProcess → ProcessExecutionTakeoverIntent →
    option ProcessExecutionTakeoverIntent;
  (** [_record_takeover_reason_root] *)
  record_takeover_reason_root :
    Store → AgentProcess → AgentProcess → ProcessExecutionTakeoverIntent →
    option ProcessExecutionTakeoverIntent;
}.

Definition with_stage (stage : Z) (i : ProcessExecutionTakeoverIntent) : ProcessExecutionTakeoverIntent :=
  {| ti_target_pid := ti_target_pid i; ti_source_revision := ti_source_revision i;
     ti_source_state_generation := ti_source_state_generation i;
     ti_source_execution_token := ti_source_execution_token i;
     ti_intended_status := ti_intended_status i; ti_reason := ti_reason i; ti_nonce := ti_nonce i;
     ti_reason_text := ti_reason_text i; ti_reason_action := ti_reason_action i;
     ti_wait_kind := ti_wait_kind i; ti_outcome_code := ti_outcome_code i; ti_stage := stage;
     ti_reason_capability_id := ti_reason_capability_id i; ti_reason_oid := ti_reason_oid i |}.

(** ** Equality of rows

    Dataclass equality compares field by field with Python's [==]. *)

Definition opt_eqb {A} (f : A → A → bool) (a b : option A) : bool :=
  match a, b with Some x, Some y => f x y | None, None => true | _, _ => false end.

Definition wait_state_eqb (a b : ProcessWaitState) : bool :=
  match a, b with
  | ChildProcessWait x, ChildProcessWait y | ToolProcessWait x, ToolProcessWait y
  | HostResumeProcessWait x, HostResumeProcessWait y => String.eqb x y
  | MessageProcessWait f, MessageProcessWait g =>
      py_eq (py_of_json (JObj f)) (py_of_json (JObj g))
  | HumanProcessWait x, HumanProcessWait y => bool_decide (x = y)
  | PausedProcessWait x, PausedProcessWait y => bool_decide (x = y)
  | StaleExecutionProcessWait x, StaleExecutionProcessWait y => bool_decide (x = y)
  | _, _ => false
  end.

Definition usage_eqb (a b : ResourceUsage) : bool :=
  forallb (fun f => num_eqb (uget a f) (uget b f)) usage_fields.

Definition budget_fields : list budget_field :=
  [max_tool_calls; max_child_processes; max_runtime_seconds;
   max_context_materialization_total_tokens; max_llm_calls; max_llm_total_tokens;
   max_subprocess_wall_seconds; max_subprocess_cpu_seconds; max_subprocess_memory_bytes;
   max_external_read_bytes; max_external_write_bytes; max_jsonrpc_bytes; max_mcp_bytes;
   max_deno_syscalls].

Definition budget_eqb (a b : ResourceBudget) : bool :=
  forallb (fun f => opt_eqb num_eqb (bget a f) (bget b f)) budget_fields
  && num_eqb (max_context_materialization_tokens a) (max_context_materialization_tokens b).

Definition str_table (t : list (string * string)) : pyval :=
  PDict (map (fun kv => (PStr (fst kv), PStr (snd kv))) t).

Definition process_eqb (a b : AgentProcess) : bool :=
  String.eqb (pid a) (pid b) && bool_decide (parent_pid a = parent_pid b)
  && String.eqb (image_id a) (image_id b) && bool_decide (status a = status b)
  && bool_decide (goal_oid a = goal_oid b)
  && opt_eqb py_eq (memory_view a) (memory_view b)
  && bool_decide (capabilities a = capabilities b)
  && py_eq (PDict (map (fun kv => (PStr (fst kv), snd kv)) (loaded_skills a)))
           (PDict (map (fun kv => (PStr (fst kv), snd kv)) (loaded_skills b)))
  && py_eq (str_table (tool_table a)) (str_table (tool_table b))
  && bool_decide (event_cursor a = event_cursor b)
  && bool_decide (checkpoint_head a = checkpoint_head b)
  && budget_eqb (resource_budget a) (resource_budget b)
  && usage_eqb (resource_usage a) (resource_usage b)
  && String.eqb (created_at a) (created_at b) && String.eqb (updated_at a) (updated_at b)
  && String.eqb (working_directory a) (working_directory b)
  && bool_decide (status_message a = status_message b)
  && opt_eqb wait_state_eqb (wait_state a) (wait_state b)
  && bool_decide (outcome a = outcome b)
  && (state_generation a =? state_generation b)%Z
  && String.eqb (llm_profile_id a) (llm_profile_id b)
  && py_eq (str_table (model_tool_table a)) (str_table (model_tool_table b))
  && (revision a =? revision b)%Z && (execution_generation a =? execution_generation b)%Z
  && bool_decide (execution_owner_id a = execution_owner_id b)
  && bool_decide (execution_lease_id a = execution_lease_id b)
  && bool_decide (task_run_id a = task_run_id b)
  && bool_decide (task_run_epoch a = task_run_epoch b)
  && bool_decide (task_run_role a = task_run_role b).

(** [expected = deepcopy(current)] with the state fields of [process]. *)
Definition overwrite_state (current process : AgentProcess) : AgentProcess :=
  {| pid := pid current; parent_pid := parent_pid current; image_id := image_id current;
     status := status process; goal_oid := goal_oid current; memory_view := memory_view current;
     capabilities := capabilities current; loaded_skills := loaded_skills current;
     tool_table := tool_table current; event_cursor := event_cursor current;
     checkpoint_head := checkpoint_head current; resource_budget := resource_budget current;
     resource_usage := resource_usage current; created_at := created_at current;
     updated_at := updated_at process; working_directory := working_directory current;
     status_message := status_message process; wait_state := wait_state process;
     outcome := outcome process; state_generation := state_generation process;
     llm_profile_id := llm_profile_id current; model_tool_table := model_tool_table current;
     revision := revision current; execution_generation := execution_generation current;
     execution_owner_id := execution_owner_id current;
     execution_lease_id := execution_lease_id current; task_run_id := task_run_id current;
     task_run_epoch := task_run_epoch current; task_run_role := task_run_role current |}.

(** [_validate_takeover_state_transition]: the proposed row changes only the
    state fields, in the exact way the intent names. *)
Definition _validate_takeover_state_transition (current process : AgentProcess)
    (intent : ProcessExecutionTakeoverIntent) : option ProcessExecutionTakeoverIntent :=
  let reason_expected := bool_decide (is_Some (ti_reason_text intent)) in
  let prep_count := (if reason_expected then 2 else 0)%Z in
  if negb (revision current =? ti_source_revision intent + prep_count)%Z
     || negb (ti_stage intent =? prep_count)%Z
     || negb (bool_decide (status process = ti_intended_status intent))
     || negb (state_generation process =? ti_source_state_generation intent + 1)%Z
  then None
  else if negb (process_eqb (overwrite_state current process) process) then None
  else
    let reason_oid := if reason_expected then ti_reason_oid intent else None in
    let valid :=
      if bool_decide (status process = PAUSED) then
        match outcome process, wait_state process with
        | None, Some (PausedProcessWait r as w) =>
            bool_decide (Some (wait_kind w) = ti_wait_kind intent) && bool_decide (r = reason_oid)
        | None, Some (HostResumeProcessWait r as w) =>
            bool_decide (Some (wait_kind w) = ti_wait_kind intent)
            && bool_decide (Some r = reason_oid)
        | _, _ => false
        end
      else
        match wait_state process, outcome process with
        | None, Some (KilledProcessOutcome r c) =>
            bool_decide (r = reason_oid) && bool_decide (c = ti_outcome_code intent)
        | _, _ => false
        end in
    if valid then Some (with_stage 3 intent) else None.

Section Fences.
Context `{ExecEvidence}.

(** [_process_exec_takeover_write_allowed]; a valid stage is recorded in the
    shared intent. *)
Definition _process_exec_takeover_write_allowed (current process : AgentProcess)
    (current_token : ProcessExecutionToken) : M Store bool := fun s =>
  match takeover s with
  | None => (s, Ok false)
  | Some intent =>
      if negb (String.eqb (ti_target_pid intent) (pid process))
         || negb (bool_decide (ti_source_execution_token intent = current_token))
         || negb (ti_source_state_generation intent =? state_generation current)%Z
      then (s, Ok false)
      else
        let verdict :=
          if bool_decide (status process = RUNNING) then
            if (ti_stage intent =? 0)%Z
            then record_takeover_reason_capability s current process intent
            else if (ti_stage intent =? 1)%Z
            then record_takeover_reason_root s current process intent
            else None
          else _validate_takeover_state_transition current process intent in
        match verdict with
        | Some intent' => (set_takeover (Some intent') s, Ok true)
        | None => (s, Ok false)
        end
  end.

Definition active_exec_publication (p : string) (pub : Publication) : bool :=
  String.eqb (pub_kind pub) "process_exec" && String.eqb (pub_pid pub) p
  && bool_decide (pub_state pub ∈ ["planning"; "applying"; "rollback_pending"; "failed"; "manual"]).

Definition publication_token_is (plan : list (pyval * pyval)) (generation : Z)
    (owner_id lease_id : string) : bool :=
  py_eq (dict_get_none plan "admission_execution_generation") (PInt generation)
  && py_eq (dict_get_none plan "admission_execution_owner_id") (PStr owner_id)
  && py_eq (dict_get_none plan "admission_execution_lease_id") (PStr lease_id).

(** The loop over the process's active exec publications. *)
Fixpoint check_publications (pubs : list Publication) (generation : Z)
    (owner_id lease_id : string) (takeover_write : bool) : res unit :=
  match pubs with
  | [] => Ok tt
  | publication :: rest =>
      match pub_plan publication with
      | None => Err (conflict "active process exec publication plan is invalid")
      | Some plan =>
          if publication_token_is plan generation owner_id lease_id then
            if takeover_write then Ok tt
            else Err (conflict "process exec admission rejects a non-owner process write")
          else check_publications rest generation owner_id lease_id takeover_write
      end
  end.

Definition token_of (current : AgentProcess) (owner_id lease_id : string) : ProcessExecutionToken :=
  {| tok_pid := pid current; tok_generation := execution_generation current;
     tok_owner_id := owner_id; tok_lease_id := lease_id;
     tok_task_run_epoch := task_run_epoch current |}.

Definition _assert_process_exec_admission_update_owner (current process : AgentProcess)
    (execution_token : option ProcessExecutionToken) : M Store unit :=
  if negb (bool_decide (status current = RUNNING)) then mret tt
  else match execution_owner_id current, execution_lease_id current with
  | Some owner_id, Some lease_id =>
      let current_token := token_of current owner_id lease_id in
      s ← get_state;
      if bool_decide (takeover s = None) && bool_decide (execution_token = Some current_token)
      then mret tt
      else
        takeover_write ← _process_exec_takeover_write_allowed current process current_token;
        _ ← lift_res (raise_if (bool_decide (is_Some (takeover s)) && negb takeover_write)
              (conflict "process execution takeover write is outside its exact intent"));
        lift_res (check_publications
                    (List.filter (active_exec_publication (pid process)) (runtime_publications s))
                    (execution_generation current) owner_id lease_id takeover_write)
  | _, _ => mret tt
  end.

Definition _assert_terminal_mutation_allowed (amb : Ambient) (process current : AgentProcess)
    (expected_revision : Z) : res unit :=
  match cur_terminal_mutation amb with
  | None => Err (conflict "terminal process is immutable")
  | Some tm =>
      _ ← raise_if
            (negb (String.eqb (tm_target_pid tm) (pid process))
             || negb (tm_expected_revision tm =? expected_revision)%Z
             || negb (tm_expected_generation tm =? execution_generation current)%Z
             || negb (bool_decide (status current ∈ tm_allowed_statuses tm))
             || negb (bool_decide (tm_execution_token tm = cur_execution amb))
             || bool_decide (is_Some (execution_owner_id current))
             || bool_decide (is_Some (execution_lease_id current)))
            (conflict "terminal process mutation fence conflict");
      match cur_execution amb with
      | Some token =>
          raise_if (String.eqb (tok_pid token) (pid process)
                    && negb (execution_generation current =? tok_generation token + 1)%Z)
            (conflict "stale process execution token cannot mutate terminal process")
      | None => Ok tt
      end
  end.

Definition _assert_execution_target_allowed (s : Store) (amb : Ambient)
    (execution_token : option ProcessExecutionToken) (target_pid : string)
    (current_status : ProcessStatus) : res unit :=
  _ ← raise_if (match takeover s with
                | Some i => negb (String.eqb (ti_target_pid i) target_pid)
                | None => false end)
        (conflict "process execution takeover cannot mutate another process");
  match execution_token with
  | None => Ok tt
  | Some token =>
      if String.eqb (tok_pid token) target_pid then Ok tt
      else match cur_control_mutation amb with
      | Some cm =>
          if String.eqb (cm_target_pid cm) target_pid
             && bool_decide (current_status ∈ cm_allowed_statuses cm)
          then Ok tt
          else Err (conflict "process execution token cannot mutate another process")
      | None => Err (conflict "process execution token cannot mutate another process")
      end
  end.

(** The row still carries exactly the worker's lease. *)
Definition holds_lease (token : ProcessExecutionToken) (row : AgentProcess) : bool :=
  bool_decide (status row = RUNNING)
  && (execution_generation row =? tok_generation token)%Z
  && bool_decide (execution_owner_id row = Some (tok_owner_id token))
  && bool_decide (execution_lease_id row = Some (tok_lease_id token)).

Definition unleased (row : AgentProcess) : bool :=
  bool_decide (execution_owner_id row = None) && bool_decide (execution_lease_id row = None).

(** [_process_update_fence]: the generation and lease the new row gets, and
    the extra [WHERE] clause of the update. *)
Definition _process_update_fence (amb : Ambient) (current process : AgentProcess)
    (expected_revision : Z)
    : M Store (Z * option string * option string * (AgentProcess → bool)) :=
  let current_status := status current in
  _ ← lift_res (raise_if (negb (revision current =? expected_revision)%Z)
                  (conflict "process revision conflict"));
  _ ← lift_res (if is_terminal current_status
                then _assert_terminal_mutation_allowed amb process current expected_revision
                else Ok tt);
  _ ← lift_res (raise_if (is_terminal current_status
                          && negb (bool_decide (status process = current_status)))
                  (conflict "terminal process cannot transition"));
  let leaves := is_terminal (status process)
                || (bool_decide (current_status = RUNNING)
                    && negb (bool_decide (status process = RUNNING))) in
  let generation := if leaves then (execution_generation current + 1)%Z
                    else execution_generation current in
  let owner_id := if leaves then None else execution_owner_id current in
  let lease_id := if leaves then None else execution_lease_id current in
  let execution_token := cur_execution amb in
  s ← get_state;
  _ ← lift_res (_assert_execution_target_allowed s amb execution_token (pid process) current_status);
  _ ← _assert_process_exec_admission_update_owner current process execution_token;
  s' ← get_state;
  _ ← lift_res (match cur_post_exec_mutation amb with
                | Some pm => post_exec_completion_check s' amb pm process current expected_revision
                | None => Ok tt end);
  let post_exec_fence := bool_decide (is_Some (cur_post_exec_mutation amb)) in
  let worker_fence := match execution_token with
                      | Some token => String.eqb (tok_pid token) (pid process)
                                      && negb (is_terminal current_status) && negb post_exec_fence
                      | None => false end in
  _ ← lift_res (raise_if (worker_fence && match execution_token with
                                          | Some token => negb (holds_lease token current)
                                          | None => false end)
                  (conflict "stale process execution token cannot mutate"));
  let clause := fun row =>
    match cur_post_exec_mutation amb with
    | Some pm => bool_decide (status row = RUNNABLE)
                 && (execution_generation row =? pm_expected_generation pm)%Z && unleased row
    | None =>
        if worker_fence
        then match execution_token with Some token => holds_lease token row | None => true end
        else if is_terminal current_status
        then bool_decide (status row = current_status)
             && (execution_generation row =? execution_generation current)%Z && unleased row
        else true
    end in
  mret (generation, owner_id, lease_id, clause).
End Fences.
