(* ===== verification/ProcessWrites.v ===== *)
(** * Process writes

    The compare-and-swap writes of [agent_libos/storage/sql.py] on a process
    row: insertion, the compatibility update, the field patches and the typed
    state transition, all of them behind the fences of ProcessStore. *)

From S2P Require Import Prelude PyStr PyVal ProcessState ProcessModel ProcessStore.

(** ** The semantic state a write may carry *)

Definition is_stale_execution_wait (w : option ProcessWaitState) : bool :=
  match w with Some (StaleExecutionProcessWait _) => true | _ => false end.

(** [==] on optional wait states; outcomes hold only strings. *)
Definition wait_eqb (a b : option ProcessWaitState) : bool := opt_eqb wait_state_eqb a b.

Definition _validate_process_state_write (process : AgentProcess)
    (persisted : option AgentProcess) (allow_state_transition : bool) : res unit :=
  _ ← validate_process_state_fields (status_value (status process)) (wait_state process) (outcome process);
  _ ← raise_if (is_stale_execution_wait (wait_state process)
                && match persisted with
                   | None => true
                   | Some old => negb (wait_eqb (wait_state process) (wait_state old))
                   end)
        (ValidationError "stale-execution recovery receipts are reserved for Store recovery");
  _ ← raise_if (state_generation process <? 0)%Z
        (ValidationError "process state_generation must be a non-negative integer");
  match persisted with
  | None => Ok tt
  | Some old =>
      let semantic_changed :=
        negb (bool_decide (status process = status old))
        || negb (wait_eqb (wait_state process) (wait_state old))
        || negb (bool_decide (outcome process = outcome old))
        || negb (state_generation process =? state_generation old)%Z in
      _ ← raise_if (semantic_changed && negb allow_state_transition)
            (ValidationError "process semantic state must use ProcessTransitionService");
      raise_if (allow_state_transition && negb (state_generation process =? state_generation old + 1)%Z)
        (conflict "process state generation conflict")
  end.

(** The [SET] list of the update: the TaskRun binding and the pid keep the
    values of the stored row. *)
Definition committed_row (current process : AgentProcess) (generation : Z)
    (owner_id lease_id : option string) : AgentProcess :=
  {| pid := pid current; parent_pid := parent_pid process; image_id := image_id process;
     status := status process; goal_oid := goal_oid process; memory_view := memory_view process;
     capabilities := capabilities process; loaded_skills := loaded_skills process;
     tool_table := tool_table process; event_cursor := event_cursor process;
     checkpoint_head := checkpoint_head process; resource_budget := resource_budget process;
     resource_usage := resource_usage process; created_at := created_at process;
     updated_at := updated_at process; working_directory := working_directory process;
     status_message := status_message process; wait_state := wait_state process;
     outcome := outcome process; state_generation := state_generation process;
     llm_profile_id := llm_profile_id process; model_tool_table := model_tool_table process;
     revision := revision current + 1; execution_generation := generation;
     execution_owner_id := owner_id; execution_lease_id := lease_id;
     task_run_id := task_run_id current; task_run_epoch := task_run_epoch current;
     task_run_role := task_run_role current |}.

(** The caller's object after a committed write. *)
Definition with_concurrency (process : AgentProcess) (rev generation : Z)
    (owner_id lease_id : option string) : AgentProcess :=
  {| pid := pid process; parent_pid := parent_pid process; image_id := image_id process;
     status := status process; goal_oid := goal_oid process; memory_view := memory_view process;
     capabilities := capabilities process; loaded_skills := loaded_skills process;
     tool_table := tool_table process; event_cursor := event_cursor process;
     checkpoint_head := checkpoint_head process; resource_budget := resource_budget process;
     resource_usage := resource_usage process; created_at := created_at process;
     updated_at := updated_at process; working_directory := working_directory process;
     status_message := status_message process; wait_state := wait_state process;
     outcome := outcome process; state_generation := state_generation process;
     llm_profile_id := llm_profile_id process; model_tool_table := model_tool_table process;
     revision := rev; execution_generation := generation;
     execution_owner_id := owner_id; execution_lease_id := lease_id;
     task_run_id := task_run_id process; task_run_epoch := task_run_epoch process;
     task_run_role := task_run_role process |}.

(** ** Patches *)

Inductive PatchItem : Type :=
| SetParentPid (v : option string)
| SetImageId (v : string)
| SetGoalOid (v : option string)
| SetMemoryView (v : option pyval)
| SetCapabilities (v : list string)
| SetLoadedSkills (v : list (string * pyval))
| SetToolTable (v : list (string * string))
| SetModelToolTable (v : list (string * string))
| SetEventCursor (v : option string)
| SetCheckpointHead (v : option string)
| SetStatusMessage (v : option string)
| SetResourceBudget (v : ResourceBudget)
| SetResourceUsage (v : ResourceUsage)
| SetWorkingDirectory (v : string)
| SetLlmProfileId (v : string)
| SetUpdatedAt (v : string)
| SetStatus (v : ProcessStatus)
| SetWaitState (v : option ProcessWaitState)
| SetOutcome (v : option ProcessOutcome)
| SetStateGeneration (v : Z)
| SetOther (name : string).

(** [_PROCESS_SEMANTIC_FIELDS]. *)
Definition is_semantic_field (i : PatchItem) : bool :=
  match i with
  | SetStatus _ | SetWaitState _ | SetOutcome _ | SetStateGeneration _ => true
  | _ => false
  end.

(** The [allowed] set of [patch_process]. *)
Definition is_allowed_field (i : PatchItem) : bool :=
  match i with
  | SetOther _ => false
  | _ => negb (is_semantic_field i)
  end.

Definition is_updated_at (i : PatchItem) : bool :=
  match i with SetUpdatedAt _ => true | _ => false end.

(** The fields of a process a patch can write. *)
Definition setattr (p : AgentProcess) (i : PatchItem) : AgentProcess :=
  {| pid := pid p;
     parent_pid := match i with SetParentPid v => v | _ => parent_pid p end;
     image_id := match i with SetImageId v => v | _ => image_id p end;
     status := match i with SetStatus v => v | _ => status p end;
     goal_oid := match i with SetGoalOid v => v | _ => goal_oid p end;
     memory_view := match i with SetMemoryView v => v | _ => memory_view p end;
     capabilities := match i with SetCapabilities v => v | _ => capabilities p end;
     loaded_skills := match i with SetLoadedSkills v => v | _ => loaded_skills p end;
     tool_table := match i with SetToolTable v => v | _ => tool_table p end;
     event_cursor := match i with SetEventCursor v => v | _ => event_cursor p end;
     checkpoint_head := match i with SetCheckpointHead v => v | _ => checkpoint_head p end;
     resource_budget := match i with SetResourceBudget v => v | _ => resource_budget p end;
     resource_usage := match i with SetResourceUsage v => v | _ => resource_usage p end;
     created_at := created_at p;
     updated_at := match i with SetUpdatedAt v => v | _ => updated_at p end;
     working_directory := match i with SetWorkingDirectory v => v | _ => working_directory p end;
     status_message := match i with SetStatusMessage v => v | _ => status_message p end;
     wait_state := match i with SetWaitState v => v | _ => wait_state p end;
     outcome := match i with SetOutcome v => v | _ => outcome p end;
     state_generation := match i with SetStateGeneration v => v | _ => state_generation p end;
     llm_profile_id := match i with SetLlmProfileId v => v | _ => llm_profile_id p end;
     model_tool_table := match i with SetModelToolTable v => v | _ => model_tool_table p end;
     revision := revision p; execution_generation := execution_generation p;
     execution_owner_id := execution_owner_id p; execution_lease_id := execution_lease_id p;
     task_run_id := task_run_id p; task_run_epoch := task_run_epoch p;
     task_run_role := task_run_role p |}.

Section Writes.
Context `{ExecEvidence}.
(** [storage.serialization.dumps] on a message filter. *)
Variable json_dumps : list (string * json) → string.

(** [now] is the clock the terminal-cleanup intent reads. *)
Definition _update_process (amb : Ambient) (now : string) (process : AgentProcess)
    (allow_state_transition : bool) : M Store AgentProcess :=
  let expected_revision := revision process in
  fence ← sql_transaction (
    s ← get_state;
    match processes s !! pid process with
    | None => raise (conflict "process no longer exists")
    | Some current =>
        fence ← _process_update_fence amb current process expected_revision;
        let '(generation, owner_id, lease_id, clause) := fence in
        persisted ← lift_res (_row_to_process current);
        _ ← lift_res (_validate_process_state_write process (Some persisted) allow_state_transition);
        _ ← lift_res (raise_if (negb ((revision current =? expected_revision)%Z && clause current))
                        (conflict "process revision conflict"));
        _ ← modify (set_processes <[pid process := committed_row current process generation owner_id lease_id]>);
        _ ← _ensure_process_terminal_cleanup_intent (pid process) (status process) now;
        _ ← _replace_process_tool_bindings (pid process) (tool_table process) (model_tool_table process);
        _ ← observe_process_concurrency (pid process) (expected_revision + 1) generation
              (Some (state_generation process));
        mret (generation, owner_id, lease_id)
    end);
  let '(generation, owner_id, lease_id) := fence in
  mret (with_concurrency process (expected_revision + 1) generation owner_id lease_id).

Definition update_process (amb : Ambient) (now : string) (process : AgentProcess)
    : M Store AgentProcess :=
  _update_process amb now process false.

Definition _patch_process (amb : Ambient) (now : string) (p : string) (patch : list PatchItem)
    (expected_revision : Z) (expected_status : option ProcessStatus)
    (allow_state_transition : bool) : M Store AgentProcess :=
  found ← get_process p;
  match found with
  | None => raise (conflict "process no longer exists")
  | Some current =>
      _ ← lift_res (raise_if (negb (revision current =? expected_revision)%Z)
            (conflict "process revision conflict"));
      _ ← lift_res (raise_if (match expected_status with
                              | Some st => negb (bool_decide (status current = st))
                              | None => false end)
            (conflict "process status conflict"));
      let patched := foldl setattr current patch in
      let patched := if existsb is_updated_at patch then patched
                     else setattr patched (SetUpdatedAt now) in
      _update_process amb now patched allow_state_transition
  end.

Definition patch_process (amb : Ambient) (now : string) (p : string) (patch : list PatchItem)
    (expected_revision : Z) (expected_status : option ProcessStatus) : M Store AgentProcess :=
  let unknown := List.filter (fun i => negb (is_allowed_field i)) patch in
  _ ← lift_res (raise_if (existsb is_semantic_field unknown)
        (ValidationError "process semantic state must use ProcessTransitionService"));
  _ ← lift_res (raise_if (negb (bool_decide (length unknown = 0)))
        (ValidationError "unsupported process patch fields"));
  _patch_process amb now p patch expected_revision expected_status false.

Definition patch_process_control (amb : Ambient) (now : string) (p : string)
    (patch : list PatchItem) (expected_revision : Z) (allowed_statuses : list ProcessStatus)
    (reason : string) : M Store AgentProcess :=
  _ ← lift_res (raise_if (bool_decide (allowed_statuses = []))
        (ValidationError "process control allowed statuses must be non-empty"));
  found ← get_process p;
  match found with
  | None => raise (conflict "process no longer exists")
  | Some current =>
      _ ← lift_res (raise_if (negb (revision current =? expected_revision)%Z)
            (conflict "process revision conflict"));
      _ ← lift_res (raise_if (negb (bool_decide (status current ∈ allowed_statuses)))
            (conflict "process control status conflict"));
      amb' ← lift_res (trusted_process_control_mutation amb p allowed_statuses reason);
      patch_process amb' now p patch expected_revision (Some (status current))
  end.

Definition apply_process_state_transition (amb : Ambient) (now : string) (p : string)
    (st : ProcessStatus) (expected_revision : Z) (expected_status : option ProcessStatus)
    (expected_state_generation : option Z) (w : option ProcessWaitState)
    (o : option ProcessOutcome) (message : option string) (control : bool)
    (allowed_statuses : option (list ProcessStatus)) (reason : option string)
    : M Store AgentProcess :=
  _ ← lift_res (validate_process_state_fields (status_value st) w o);
  _ ← lift_res (raise_if (is_stale_execution_wait w)
        (ValidationError "stale-execution recovery receipts are reserved for Store recovery"));
  found ← get_process p;
  match found with
  | None => raise (conflict "process no longer exists")
  | Some current =>
      _ ← lift_res (raise_if (match expected_state_generation with
                              | Some g => negb (state_generation current =? g)%Z
                              | None => false end)
            (conflict "process state generation conflict"));
      let patch := [SetStatus st; SetWaitState w; SetOutcome o;
                    SetStateGeneration (state_generation current + 1);
                    SetStatusMessage (legacy_status_message json_dumps w o message)] in
      if negb control then
        _patch_process amb now p patch expected_revision expected_status true
      else
        let selected_allowed := match allowed_statuses with Some l => l | None => [] end in
        _ ← lift_res (raise_if (bool_decide (selected_allowed = []))
              (ValidationError "control process transition requires allowed statuses"));
        _ ← lift_res (raise_if (negb (bool_decide (status current ∈ selected_allowed)))
              (conflict "process control status conflict"));
        let selected_reason :=
          match reason with
          | Some r => if String.eqb r "" then "semantic process state transition" else r
          | None => "semantic process state transition"
          end in
        amb' ← lift_res (trusted_process_control_mutation amb p selected_allowed selected_reason);
        _patch_process amb' now p patch expected_revision (Some (status current)) true
  end.

(** [_process_params]: the checks an inserted row passes. *)
Definition _process_params (process : AgentProcess) : res AgentProcess :=
  _ ← _validate_process_state_write process None false;
  let bound := bool_decide (is_Some (task_run_id process))
               || bool_decide (is_Some (task_run_epoch process))
               || bool_decide (is_Some (task_run_role process)) in
  _ ← raise_if (bound
                && match task_run_id process, task_run_epoch process, task_run_role process with
                   | Some id, Some epoch, Some role =>
                       String.eqb id "" || (epoch <=? 0)%Z || String.eqb role ""
                   | _, _, _ => true
                   end)
        (ValidationError "process TaskRun binding requires run id, positive epoch, and role");
  Ok process.

(** The primary key of [processes] refuses a second row. *)
Definition insert_process (now : string) (process : AgentProcess) : M Store unit :=
  sql_transaction (
    row ← lift_res (_process_params process);
    s ← get_state;
    _ ← lift_res (raise_if (bool_decide (is_Some (processes s !! pid process)))
          (IntegrityError "UNIQUE constraint failed: processes.pid"));
    _ ← modify (set_processes <[pid process := row]>);
    _ ← _replace_process_tool_bindings (pid process) (tool_table process) (model_tool_table process);
    _ ← _ensure_process_terminal_cleanup_intent (pid process) (status process) now;
    observe_process_concurrency (pid process) (revision process) (execution_generation process)
      (Some (state_generation process))).
End Writes.
