(* ===== verification/ProcessExecution.v ===== *)
(** * Execution leases

    Claiming, completing, releasing and recovering the execution of a process
    ([agent_libos/storage/sql.py]).  Each operation is one conditional
    [UPDATE] of the process row. *)

From S2P Require Import Prelude PyStr PyVal ProcessState ProcessModel ProcessStore ProcessWrites.
From stdpp Require Import sorting.

(** The columns the execution statements set; each adds one to [revision]. *)
Definition exec_row (row : AgentProcess) (st : ProcessStatus) (message : option string)
    (w : option ProcessWaitState) (o : option ProcessOutcome) (state_gen : Z) (now : string)
    (generation : Z) (owner_id lease_id : option string) : AgentProcess :=
  {| pid := pid row; parent_pid := parent_pid row; image_id := image_id row;
     status := st; goal_oid := goal_oid row; memory_view := memory_view row;
     capabilities := capabilities row; loaded_skills := loaded_skills row;
     tool_table := tool_table row; event_cursor := event_cursor row;
     checkpoint_head := checkpoint_head row; resource_budget := resource_budget row;
     resource_usage := resource_usage row; created_at := created_at row;
     updated_at := now; working_directory := working_directory row;
     status_message := message; wait_state := w; outcome := o;
     state_generation := state_gen; llm_profile_id := llm_profile_id row;
     model_tool_table := model_tool_table row; revision := revision row + 1;
     execution_generation := generation; execution_owner_id := owner_id;
     execution_lease_id := lease_id; task_run_id := task_run_id row;
     task_run_epoch := task_run_epoch row; task_run_role := task_run_role row |}.

(** [UPDATE processes SET .. WHERE pid = ? AND ..], answering
    [rowcount == 1]. *)
Definition update_where (p : string) (clause : Store → AgentProcess → bool)
    (set : AgentProcess → AgentProcess) : M Store bool := fun s =>
  match processes s !! p with
  | Some row => if clause s row then (set_processes <[p := set row]> s, Ok true) else (s, Ok false)
  | None => (s, Ok false)
  end.

Definition active_run_statuses : list string :=
  ["queued"; "running"; "waiting_human"; "waiting_process"; "waiting_message"; "waiting_tool"].

(** The TaskRun join of the claim statements. *)
Definition task_run_admits (now : string) (s : Store) (row : AgentProcess) : bool :=
  match task_run_id row with
  | None => true
  | Some run_id =>
      match task_runs s !! run_id with
      | None => false
      | Some run =>
          match task_run_epoch row with
          | Some epoch => (tr_runtime_epoch run =? epoch)%Z
          | None => false
          end
          && bool_decide (tr_status run ∈ active_run_statuses)
          && match tr_deadline_at run with None => true | Some d => str_ltb now d end
      end
  end.

(** [AND task_run_epoch = ?], present only for a supplied epoch. *)
Definition epoch_clause (task_run_epoch' : option Z) (row : AgentProcess) : bool :=
  match task_run_epoch' with
  | None => true
  | Some e => bool_decide (task_run_epoch row = Some e)
  end.

Definition valid_epoch (e : option Z) : bool :=
  match e with Some e => (0 <? e)%Z | None => true end.

(** [lease_id] is the identifier [new_id("execution_lease")] returns. *)
Definition claim_execution (now lease_id : string) (p owner_id : string)
    (epoch : option Z) : M Store (option ProcessExecutionToken) :=
  _ ← lift_res (raise_if (String.eqb owner_id "")
        (ValidationError "execution owner id must be non-empty"));
  _ ← lift_res (raise_if (negb (valid_epoch epoch))
        (ValidationError "execution TaskRun epoch must be positive"));
  sql_transaction (
    s ← get_state;
    match processes s !! p with
    | Some selected =>
        if negb (bool_decide (status selected = RUNNABLE)) then mret None else
        let generation := (execution_generation selected + 1)%Z in
        updated ← update_where p
          (fun s row => bool_decide (status row = RUNNABLE)
             && (execution_generation row =? generation - 1)%Z
             && epoch_clause epoch row && task_run_admits now s row)
          (fun row => exec_row row RUNNING None None None (state_generation row + 1) now
             generation (Some owner_id) (Some lease_id));
        if negb updated then mret None else
        _ ← observe_process_concurrency p (revision selected + 1) generation
              (Some (state_generation selected + 1)%Z);
        mret (Some {| tok_pid := p; tok_generation := generation; tok_owner_id := owner_id;
                      tok_lease_id := lease_id; tok_task_run_epoch := task_run_epoch selected |})
    | None => mret None
    end).

Definition claim_runnable_process (now lease_id p : string) : M Store (option AgentProcess) :=
  token ← claim_execution now lease_id p "legacy.scheduler" None;
  match token with
  | None => mret None
  | Some _ => get_process p
  end.

Definition claimed_epoch (p : string) (s : Store) : option Z :=
  match processes s !! p with Some row => task_run_epoch row | None => None end.

(** [utc_now()] is read twice: [now] is written, [now'] fences the deadline. *)
Definition claim_host_process_exec (now now' lease_id : string) (p owner_id : string)
    (expected_revision expected_state_generation expected_execution_generation : Z)
    (epoch : option Z) : M Store (option ProcessExecutionToken) :=
  _ ← lift_res (raise_if (String.eqb owner_id "")
        (ValidationError "process exec owner id must be non-empty"));
  _ ← lift_res (raise_if (existsb (fun v => v <? 0)%Z
          [expected_revision; expected_state_generation; expected_execution_generation])
        (ValidationError "process exec concurrency values must be non-negative integers"));
  let generation := (expected_execution_generation + 1)%Z in
  _ ← lift_res (raise_if (negb (valid_epoch epoch))
        (ValidationError "process exec TaskRun epoch must be positive"));
  sql_transaction (
    updated ← update_where p
      (fun s row => bool_decide (status row = RUNNABLE)
         && (revision row =? expected_revision)%Z
         && (state_generation row =? expected_state_generation)%Z
         && (execution_generation row =? expected_execution_generation)%Z
         && bool_decide (execution_owner_id row = None) && bool_decide (execution_lease_id row = None)
         && bool_decide (¬ is_Some (wait_state row))
         && epoch_clause epoch row && task_run_admits now' s row)
      (fun row => exec_row row RUNNING None None None (state_generation row + 1) now
         generation (Some owner_id) (Some lease_id));
    if negb updated then mret None else
    _ ← observe_process_concurrency p (expected_revision + 1) generation
          (Some (expected_state_generation + 1)%Z);
    s ← get_state;
    mret (Some {| tok_pid := p; tok_generation := generation; tok_owner_id := owner_id;
                  tok_lease_id := lease_id; tok_task_run_epoch := claimed_epoch p s |})).

Definition claim_worker_process_exec (now now' lease_id : string) (p : string)
    (execution_token : ProcessExecutionToken) (owner_id : string)
    (expected_revision expected_state_generation : Z) (epoch : option Z)
    : M Store (option ProcessExecutionToken) :=
  _ ← lift_res (raise_if (String.eqb owner_id "")
        (ValidationError "process exec owner id must be non-empty"));
  _ ← lift_res (raise_if (negb (String.eqb (tok_pid execution_token) p))
        (ValidationError "process execution token cannot exec another process"));
  _ ← lift_res (raise_if (existsb (fun v => v <? 0)%Z
          [expected_revision; expected_state_generation; tok_generation execution_token])
        (ValidationError "process exec concurrency values must be non-negative integers"));
  let generation := (tok_generation execution_token + 1)%Z in
  _ ← lift_res (raise_if (negb (valid_epoch epoch))
        (ValidationError "process exec TaskRun epoch must be positive"));
  sql_transaction (
    updated ← update_where p
      (fun s row => bool_decide (status row = RUNNING)
         && (revision row =? expected_revision)%Z
         && (state_generation row =? expected_state_generation)%Z
         && (execution_generation row =? tok_generation execution_token)%Z
         && bool_decide (execution_owner_id row = Some (tok_owner_id execution_token))
         && bool_decide (execution_lease_id row = Some (tok_lease_id execution_token))
         && bool_decide (¬ is_Some (wait_state row))
         && epoch_clause epoch row && task_run_admits now' s row)
      (fun row => exec_row row (status row) None None None (state_generation row + 1) now
         generation (Some owner_id) (Some lease_id));
    if negb updated then mret None else
    _ ← observe_process_concurrency p (expected_revision + 1) generation
          (Some (expected_state_generation + 1)%Z);
    s ← get_state;
    mret (Some {| tok_pid := p; tok_generation := generation; tok_owner_id := owner_id;
                  tok_lease_id := lease_id; tok_task_run_epoch := claimed_epoch p s |})).

(** The exact lease a token names, the [WHERE] clause of completion and
    release. *)
Definition names_lease (token : ProcessExecutionToken) (row : AgentProcess) : bool :=
  (execution_generation row =? tok_generation token)%Z
  && bool_decide (execution_owner_id row = Some (tok_owner_id token))
  && bool_decide (execution_lease_id row = Some (tok_lease_id token))
  && bool_decide (task_run_epoch row = tok_task_run_epoch token).

Section Execution.
Variable json_dumps : list (string * json) → string.
(** [hashlib.sha256(value.encode("utf-8")).hexdigest()] *)
Variable sha256_hex : string → string.

Definition complete_execution (now now' : string) (token : ProcessExecutionToken)
    (st : ProcessStatus) (message : option string) (w : option ProcessWaitState)
    (o : option ProcessOutcome) : M Store bool :=
  _ ← lift_res (validate_process_state_fields (status_value st) w o);
  _ ← lift_res (raise_if (is_stale_execution_wait w)
        (ValidationError "stale-execution recovery receipts are reserved for Store recovery"));
  let selected_status_message := legacy_status_message json_dumps w o message in
  let generation_increment := (if is_terminal st then 1 else 0)%Z in
  sql_transaction (
    updated ← update_where (tok_pid token)
      (fun _ row => bool_decide (status row = RUNNING) && names_lease token row)
      (fun row => exec_row row st selected_status_message w o (state_generation row + 1) now
         (execution_generation row + generation_increment) None None);
    if negb updated then mret false else
    _ ← _ensure_process_terminal_cleanup_intent (tok_pid token) st now';
    s ← get_state;
    match processes s !! tok_pid token with
    | Some row =>
        _ ← observe_process_concurrency (tok_pid token) (revision row) (execution_generation row)
              (Some (state_generation row));
        mret true
    | None => raise (RuntimeError "list index out of range")
    end).

Definition release_execution (now : string) (token : ProcessExecutionToken) : M Store bool :=
  sql_transaction (
    updated ← update_where (tok_pid token) (fun _ row => names_lease token row)
      (fun row => exec_row row (status row) (status_message row) (wait_state row) (outcome row)
         (state_generation row) now (execution_generation row + 1) None None);
    if negb updated then mret false else
    s ← get_state;
    match processes s !! tok_pid token with
    | Some row =>
        _ ← observe_process_concurrency (tok_pid token) (revision row) (execution_generation row) None;
        mret true
    | None => raise (RuntimeError "list index out of range")
    end).

Definition _stale_execution_identity_sha256 (value : option string) : option string :=
  match value with
  | Some v => if String.eqb v "" then None else Some (sha256_hex v)
  | None => None
  end.

(** [execution_owner_id IS NULL OR execution_owner_id <> ?]. *)
Definition foreign_owner (owner_id : string) (row : AgentProcess) : bool :=
  match execution_owner_id row with
  | None => true
  | Some o => negb (String.eqb o owner_id)
  end.

Definition stale_row (owner_id : string) (row : AgentProcess) : bool :=
  bool_decide (status row = RUNNING) && foreign_owner owner_id row.

(** [row] is the selected snapshot; the statement re-checks it. *)
Definition _recover_one_stale_execution (p : string) (row : AgentProcess)
    (owner_id recovered_by_owner_sha256' recovered_at : string) : M Store (option string) :=
  wait ← lift_res (mk_StaleExecutionProcessWait (PStr p) (PStr recovered_by_owner_sha256')
            (py_opt (_stale_execution_identity_sha256 (execution_owner_id row)))
            (py_opt (_stale_execution_identity_sha256 (execution_lease_id row)))
            (PInt (execution_generation row)) (PInt (execution_generation row + 1))
            (PInt (state_generation row + 1)));
  updated ← update_where p
    (fun _ current => bool_decide (status current = RUNNING)
       && (state_generation current =? state_generation row)%Z
       && (execution_generation current =? execution_generation row)%Z
       && bool_decide (execution_owner_id current = execution_owner_id row)
       && bool_decide (execution_lease_id current = execution_lease_id row)
       && foreign_owner owner_id current)
    (fun current => exec_row current PAUSED (legacy_status_message json_dumps (Some wait) None None)
       (Some wait) None (state_generation current + 1) recovered_at
       (execution_generation current + 1) None None);
  mret (match updated with true => Some p | false => None end).

(** [ORDER BY pid]. *)
Definition sorted_pids (m : gmap string AgentProcess) : list string :=
  merge_sort str_le (map fst (map_to_list m)).

(** The selected page: stale rows after the cursor, in pid order. *)
Definition stale_page (s : Store) (owner_id : string) (after_pid : option string)
    (page_size : nat) : list (string * AgentProcess) :=
  take page_size (omap (fun p =>
    match processes s !! p with
    | Some row =>
        if stale_row owner_id row
           && match after_pid with Some a => str_ltb a p | None => true end
        then Some (p, row) else None
    | None => None
    end) (sorted_pids (processes s))).

(** The body of one page's transaction after the [SELECT]. *)
Fixpoint recover_rows (rows : list (string * AgentProcess)) (owner_id now : string)
    : M Store (list string) :=
  match rows with
  | [] => mret []
  | (p, row) :: rest =>
      recovered ← _recover_one_stale_execution p row owner_id (sha256_hex owner_id) now;
      tail ← recover_rows rest owner_id now;
      mret (match recovered with Some q => q :: tail | None => tail end)
  end.

Fixpoint observe_rows (pids : list string) : M Store unit :=
  match pids with
  | [] => mret tt
  | p :: rest =>
      s ← get_state;
      _ ← match processes s !! p with
          | Some row => observe_process_concurrency p (revision row) (execution_generation row)
                          (Some (state_generation row))
          | None => mret tt
          end;
      observe_rows rest
  end.

(** One page's transaction: [None] when the page is empty, otherwise the
    cursor and the recovered pids.  [on_recovered] writes audit tables that
    are outside this model; what it can do here is raise. *)
Definition recover_page (owner_id now : string) (on_recovered : string → res unit)
    (page_size : nat) (after_pid : option string)
    : M Store (option (string * list string)) :=
  sql_transaction (
    s ← get_state;
    let rows := stale_page s owner_id after_pid page_size in
    match last rows with
    | None => mret None
    | Some (last_pid, _) =>
        recovered_pids ← recover_rows rows owner_id now;
        match recovered_pids with
        | [] => mret (Some (last_pid, []))
        | _ =>
            _ ← observe_rows recovered_pids;
            _ ← lift_res (foldR (fun _ q => on_recovered q) tt recovered_pids);
            mret (Some (last_pid, recovered_pids))
        end
    end).

(** [while True]: [fuel] bounds the number of pages, and [now] is the
    clock at each of them. *)
Fixpoint recover_loop (fuel : nat) (owner_id : string) (now : nat → string) (on_recovered : string → res unit)
    (page_size : nat) (after_pid : option string) (total : Z) (sample : list string)
    : M Store (Z * list string) :=
  match fuel with
  | 0 => raise (RuntimeError "out of fuel")
  | S fuel =>
      page ← recover_page owner_id (now fuel) on_recovered page_size after_pid;
      match page with
      | None => mret (total, sample)
      | Some (last_pid, recovered_pids) =>
          let sample' :=
            if length sample <? page_size
            then sample ++ take (page_size - length sample) recovered_pids
            else sample in
          recover_loop fuel owner_id now on_recovered page_size (Some last_pid)
            (total + Z.of_nat (length recovered_pids)) sample'
      end
  end%nat.

(** [require_recovery_lease] is the caller's guard. *)
Definition recover_stale_executions (fuel : nat) (owner_id : string) (now : nat → string)
    (require_recovery_lease : res unit) (on_recovered : string → res unit) (page_size : nat)
    : M Store RecoverySummary :=
  _ ← lift_res require_recovery_lease;
  counts ← recover_loop fuel owner_id now on_recovered page_size None 0 [];
  lift_res (mk_summary (fst counts) (snd counts)).
End Execution.
