(* ===== verification/TerminalCleanup.v ===== *)
(** * Terminal cleanup

    The durable cleanup of a terminal process ([agent_libos/storage/sql.py]):
    a leased work item whose two phases are each recorded once, and which is
    finished only when both are recorded. *)

From S2P Require Import Prelude PyStr PyVal ProcessState ProcessModel ProcessStore ProcessExecution.

Definition in_phases (completed : list string) (phase : string) : bool :=
  bool_decide (phase ∈ completed).

(** [[phase for phase in _PROCESS_TERMINAL_CLEANUP_PHASES if phase in completed]] *)
Definition ordered_phases (completed : list string) : list string :=
  List.filter (in_phases completed) CLEANUP_PHASES.

(** [_process_terminal_cleanup_from_row]: a row is read only when its phases
    are canonical. *)
Definition _process_terminal_cleanup_from_row (row : CleanupRow) : res CleanupRow :=
  let completed := cl_completed_phases row in
  _ ← raise_if
        (negb (forallb (in_phases CLEANUP_PHASES) completed)
         || negb (bool_decide (NoDup completed))
         || negb (bool_decide (completed = ordered_phases completed)))
        (ValidationError "process terminal cleanup phases are invalid");
  _ ← raise_if
        (match cl_last_error row with Some e => negb (is_dict e) | None => false end)
        (ValidationError "process terminal cleanup error is invalid");
  Ok row.

Definition get_process_terminal_cleanup (p : string) (s : Store) : res (option CleanupRow) :=
  match cleanups s !! p with
  | None => Ok None
  | Some row => r ← _process_terminal_cleanup_from_row row; Ok (Some r)
  end.

(** [UPDATE process_terminal_cleanups SET .. WHERE pid = ? AND ..]. *)
Definition update_cleanup_where (p : string) (clause : CleanupRow → bool)
    (set : CleanupRow → CleanupRow) : M Store bool := fun s =>
  match cleanups s !! p with
  | Some row => if clause row then (set_cleanups <[p := set row]> s, Ok true) else (s, Ok false)
  | None => (s, Ok false)
  end.

(** [SELECT *] and decode the row just written. *)
Definition reread_cleanup (p : string) : M Store (option CleanupRow) := fun s =>
  match cleanups s !! p with
  | Some row => (s, r ← _process_terminal_cleanup_from_row row; Ok (Some r))
  | None => (s, Err (RuntimeError "list index out of range"))
  end.

Definition cleanup_row (row : CleanupRow) (state : string) (phases : list string) (attempts : Z)
    (owner_id lease_id failed_phase : option string) (error : option pyval) (now : string)
    : CleanupRow :=
  {| cl_terminal_status := cl_terminal_status row; cl_state := state;
     cl_completed_phases := phases; cl_attempt_count := attempts;
     cl_owner_id := owner_id; cl_lease_id := lease_id; cl_failed_phase := failed_phase;
     cl_last_error := error; cl_created_at := cl_created_at row; cl_updated_at := now |}.

Definition claim_process_terminal_cleanup (now p owner_id lease_id : string)
    (expected_lease_id : option string) : M Store (option CleanupRow) :=
  _ ← lift_res (raise_if (String.eqb owner_id "" || String.eqb lease_id "")
        (ValidationError "process terminal cleanup owner and lease must be non-empty"));
  sql_transaction (
    updated ← update_cleanup_where p
      (fun row => negb (String.eqb (cl_state row) "completed")
                  && bool_decide (cl_lease_id row = expected_lease_id))
      (fun row => cleanup_row row "running" (cl_completed_phases row) (cl_attempt_count row + 1)
                    (Some owner_id) (Some lease_id) None None now);
    if negb updated then mret None else reread_cleanup p).

Definition running_lease (lease_id : string) (row : CleanupRow) : bool :=
  String.eqb (cl_state row) "running" && bool_decide (cl_lease_id row = Some lease_id).

Definition complete_process_terminal_cleanup_phase (now p lease_id phase : string)
    : M Store (option CleanupRow) :=
  _ ← lift_res (raise_if (negb (in_phases CLEANUP_PHASES phase))
        (ValidationError "invalid process terminal cleanup phase"));
  sql_transaction (
    s ← get_state;
    found ← lift_res (get_process_terminal_cleanup p s);
    match found with
    | None => mret None
    | Some current =>
        if negb (running_lease lease_id current) then mret None
        else if in_phases (cl_completed_phases current) phase then reread_cleanup p
        else
          let completed := ordered_phases (cl_completed_phases current ++ [phase]) in
          updated ← update_cleanup_where p (running_lease lease_id)
            (fun row => cleanup_row row (cl_state row) completed (cl_attempt_count row)
                          (cl_owner_id row) (cl_lease_id row) (cl_failed_phase row)
                          (cl_last_error row) now);
          if negb updated then mret None else reread_cleanup p
    end).

(** [error] is a mapping: [dict(error)] is its items. *)
Definition fail_process_terminal_cleanup (now p lease_id phase : string)
    (error : list (pyval * pyval)) : M Store (option CleanupRow) :=
  _ ← lift_res (raise_if (negb (in_phases CLEANUP_PHASES phase))
        (ValidationError "invalid process terminal cleanup phase"));
  sql_transaction (
    updated ← update_cleanup_where p (running_lease lease_id)
      (fun row => cleanup_row row "failed" (cl_completed_phases row) (cl_attempt_count row)
                    None None (Some phase) (Some (PDict error)) now);
    if negb updated then mret None else reread_cleanup p).

Definition finish_process_terminal_cleanup (now p lease_id : string)
    : M Store (option CleanupRow) :=
  sql_transaction (
    s ← get_state;
    found ← lift_res (get_process_terminal_cleanup p s);
    match found with
    | None => mret None
    | Some current =>
        if negb (running_lease lease_id current)
           || negb (bool_decide (cl_completed_phases current = CLEANUP_PHASES))
        then mret None
        else
          updated ← update_cleanup_where p (running_lease lease_id)
            (fun row => cleanup_row row "completed" (cl_completed_phases row) (cl_attempt_count row)
                          None None None None now);
          if negb updated then mret None else reread_cleanup p
    end).

(** ** The work item as a state machine *)

Inductive cleanup_op : Type :=
| CClaim (now owner_id lease_id : string) (expected : option string)
| CComplete (now lease_id phase : string)
| CFail (now lease_id phase : string) (error : list (pyval * pyval))
| CFinish (now lease_id : string).

Definition run_cleanup (p : string) (o : cleanup_op) : M Store (option CleanupRow) :=
  match o with
  | CClaim now owner lease expected => claim_process_terminal_cleanup now p owner lease expected
  | CComplete now lease phase => complete_process_terminal_cleanup_phase now p lease phase
  | CFail now lease phase error => fail_process_terminal_cleanup now p lease phase error
  | CFinish now lease => finish_process_terminal_cleanup now p lease
  end.

(** The lease and phase discipline of a stored row. *)
Definition cleanup_wf (row : CleanupRow) : Prop :=
  cl_completed_phases row ∈ [[]; ["terminal_notify"]; ["process_finalize"]; CLEANUP_PHASES]
  ∧ (match cl_last_error row with Some e => is_dict e = true | None => True end)
  ∧ ((cl_state row = "pending" ∧ cl_lease_id row = None ∧ cl_owner_id row = None)
     ∨ (cl_state row = "running" ∧ is_Some (cl_lease_id row) ∧ is_Some (cl_owner_id row))
     ∨ (cl_state row = "failed" ∧ cl_lease_id row = None ∧ cl_owner_id row = None)
     ∨ (cl_state row = "completed" ∧ cl_lease_id row = None ∧ cl_owner_id row = None
        ∧ cl_completed_phases row = CLEANUP_PHASES)).

Lemma from_row_ok row : cleanup_wf row → _process_terminal_cleanup_from_row row = Ok row.
Proof.
  intros (Hp & He & _). unfold _process_terminal_cleanup_from_row.
  assert (Hphase : negb (forallb (in_phases CLEANUP_PHASES) (cl_completed_phases row))
         || negb (bool_decide (NoDup (cl_completed_phases row)))
         || negb (bool_decide (cl_completed_phases row = ordered_phases (cl_completed_phases row)))
         = false).
  { rewrite !elem_of_cons, elem_of_nil in Hp.
    destruct Hp as [->|[->|[->|[->|[]]]]]; by vm_compute. }
  rewrite Hphase. cbn. destruct (cl_last_error row) as [e|]; cbn; [by rewrite He|done].
Qed.

(** What one operation does to the item: nothing, or one transition. *)
Inductive cleanup_step : CleanupRow → CleanupRow → Prop :=
| cstep_claim row now owner lease :
    cl_state row ≠ "completed" →
    cleanup_step row (cleanup_row row "running" (cl_completed_phases row)
                        (cl_attempt_count row + 1) (Some owner) (Some lease) None None now)
| cstep_phase row now phase :
    cl_state row = "running" → phase ∈ CLEANUP_PHASES → phase ∉ cl_completed_phases row →
    cleanup_step row (cleanup_row row (cl_state row) (ordered_phases (cl_completed_phases row ++ [phase]))
                        (cl_attempt_count row) (cl_owner_id row) (cl_lease_id row)
                        (cl_failed_phase row) (cl_last_error row) now)
| cstep_fail row now phase error :
    cl_state row = "running" →
    cleanup_step row (cleanup_row row "failed" (cl_completed_phases row) (cl_attempt_count row)
                        None None (Some phase) (Some (PDict error)) now)
| cstep_finish row now :
    cl_state row = "running" → cl_completed_phases row = CLEANUP_PHASES →
    cleanup_step row (cleanup_row row "completed" (cl_completed_phases row) (cl_attempt_count row)
                        None None None None now).

(** The lease under which an operation acts, when it needs one. *)
Definition op_lease (o : cleanup_op) : option string :=
  match o with
  | CClaim _ _ _ expected => expected
  | CComplete _ lease _ | CFail _ lease _ _ | CFinish _ lease => Some lease
  end.

Definition run_cleanups (p : string) (ops : list cleanup_op) (s : Store) : Store :=
  foldl (fun s o => fst (run_cleanup p o s)) s ops.

(** ** Lemmas *)

Lemma set_cleanups_insert s p row : cleanups (set_cleanups <[p:=row]> s) !! p = Some row.
Proof. cbn. by rewrite lookup_insert_eq. Qed.

(** Adding a phase to a canonical set gives a canonical set. *)
Lemma ordered_phases_canonical completed phase :
  phase ∈ CLEANUP_PHASES →
  completed ∈ [[]; ["terminal_notify"]; ["process_finalize"]; CLEANUP_PHASES] →
  ordered_phases (completed ++ [phase])
    ∈ [[]; ["terminal_notify"]; ["process_finalize"]; CLEANUP_PHASES].
Proof.
  unfold CLEANUP_PHASES at 1. rewrite !elem_of_cons, !elem_of_nil.
  intros [-> |[-> |[]]] [-> |[-> |[-> |[-> |[]]]]]; vm_compute; auto 8.
Qed.

Lemma cleanup_step_wf row row' : cleanup_wf row → cleanup_step row row' → cleanup_wf row'.
Proof.
  intros (Hp & He & Hs) Hstep.
  destruct Hstep as [row now owner lease Hst|row now phase Hst Hin Hnew
                    |row now phase err Hst|row now Hst Hall]; unfold cleanup_wf; cbn [
    cleanup_row cl_state cl_completed_phases cl_last_error cl_lease_id cl_owner_id].
  - naive_solver.
  - split_and!; [by apply ordered_phases_canonical|done|].
    right; left. destruct Hs as [?|[?|[?|?]]]; [|naive_solver|..];
      destruct_and?; congruence.
  - naive_solver.
  - rewrite Hall. split_and!; [|done|naive_solver]. rewrite !elem_of_cons; auto.
Qed.

Lemma update_cleanup_where_Ok p clause set s s' b :
  update_cleanup_where p clause set s = (s', Ok b) →
  (b = false ∧ s' = s)
  ∨ (b = true ∧ ∃ row, cleanups s !! p = Some row ∧ clause row = true
       ∧ s' = set_cleanups <[p := set row]> s).
Proof.
  unfold update_cleanup_where. intros H. destruct (cleanups s !! p) as [row|] eqn:E.
  - destruct (clause row) eqn:Ec; simplify_eq; naive_solver.
  - simplify_eq. by left.
Qed.

Lemma running_lease_spec lease row :
  running_lease lease row = true ↔ cl_state row = "running" ∧ cl_lease_id row = Some lease.
Proof. unfold running_lease. by rewrite andb_true_iff, String.eqb_eq, bool_decide_eq_true. Qed.

Lemma reread_cleanup_after p row s s' r :
  reread_cleanup p (set_cleanups <[p:=row]> s) = (s', Ok r) →
  s' = set_cleanups <[p:=row]> s ∧ r = Some row.
Proof.
  unfold reread_cleanup. rewrite set_cleanups_insert. intros H. simplify_eq.
  apply bind_Ok in H0 as (r0 & H1 & H2). unfold _process_terminal_cleanup_from_row in H1.
  res_simpl. done.
Qed.

(** ** The operations refine the work item's transitions *)

(** One operation's effect: none, or one transition under its lease. *)
Definition cleanup_effect (p : string) (lease : option string) (s s' : Store)
    (r : res (option CleanupRow)) : Prop :=
  (cleanups s' = cleanups s ∧ (r = Ok None ∨ (∃ e, r = Err e) ∨ r = Ok (cleanups s !! p)))
  ∨ ∃ row row', cleanups s !! p = Some row ∧ cleanup_step row row'
      ∧ cl_lease_id row = lease
      ∧ s' = set_cleanups <[p := row']> s ∧ r = Ok (Some row').

Lemma effect_guarded {A} (g : res A) (m : M Store (option CleanupRow)) p lease s s' r :
  (∀ a r', g = Ok a → m s = (s', Ok r') → cleanup_effect p lease s s' (Ok r')) →
  (_ ← lift_res g; sql_transaction m) s = (s', r) → cleanup_effect p lease s s' r.
Proof.
  unfold mbind, M_bind, lift_res. intros Hm H. destruct g as [a|e].
  - destruct r as [r|e]; [by eapply Hm, sql_transaction_Ok|].
    left. apply sql_transaction_Err in H as [t ->]. eauto.
  - simplify_eq. left. eauto.
Qed.

(** The common end of the operations: a conditional update, then a re-read. *)
Lemma effect_update p clause set lease s s' r :
  (∀ row, cleanups s !! p = Some row → clause row = true → cleanup_step row (set row) ∧ cl_lease_id row = lease) →
  (updated ← update_cleanup_where p clause set;
   if negb updated then mret None else reread_cleanup p) s = (s', Ok r) →
  cleanup_effect p lease s s' (Ok r).
Proof.
  intros Hset H. apply M_bind_Ok in H as (b & s1 & Hu & H).
  apply update_cleanup_where_Ok in Hu as [[-> ->]|(-> & row & Hrow & Hcl & ->)]; cbn in H.
  - res_simpl. left. eauto.
  - apply reread_cleanup_after in H as [-> ->]. right.
    destruct (Hset _ Hrow Hcl). eauto 10.
Qed.

Lemma get_cleanup_Some p s row :
  get_process_terminal_cleanup p s = Ok (Some row) → cleanups s !! p = Some row.
Proof.
  unfold get_process_terminal_cleanup, _process_terminal_cleanup_from_row.
  intros H. destruct (cleanups s !! p); res_simpl; done.
Qed.

(** The operations that first read the item. *)
Lemma effect_read p lease (k : CleanupRow → M Store (option CleanupRow)) s s' r :
  (∀ row, cleanups s !! p = Some row → k row s = (s', Ok r) → cleanup_effect p lease s s' (Ok r)) →
  (s0 ← get_state;
   found ← lift_res (get_process_terminal_cleanup p s0);
   match found with None => mret None | Some row => k row end) s = (s', Ok r) →
  cleanup_effect p lease s s' (Ok r).
Proof.
  intros Hk H. unfold mbind, M_bind, get_state, lift_res in H.
  destruct (get_process_terminal_cleanup p s) as [[row|]|e] eqn:E; [|res_simpl; left; eauto..].
  apply get_cleanup_Some in E. by eapply Hk.
Qed.

Lemma reread_effect p lease s s' r row :
  cleanups s !! p = Some row → reread_cleanup p s = (s', Ok r) →
  cleanup_effect p lease s s' (Ok r).
Proof.
  unfold reread_cleanup. intros E H. rewrite E in H. simplify_eq.
  unfold _process_terminal_cleanup_from_row in *. res_simpl.
  left. rewrite E. auto.
Qed.

(** Every cleanup operation either leaves the cleanup table as it was or
    performs exactly one transition of the work item, under the lease it
    names, and returns the new row; an operation that raises changes
    nothing. *)
Lemma run_cleanup_refines p o s s' r :
  run_cleanup p o s = (s', r) → cleanup_effect p (op_lease o) s s' r.
Proof.
  destruct o as [now owner lease expected|now lease phase|now lease phase err|now lease]; cbn.
  - apply effect_guarded. intros a r' _. apply effect_update. intros row _.
    rewrite andb_true_iff, negb_true_iff, String.eqb_neq, bool_decide_eq_true.
    intros [Hst Hl]. split; [by constructor|done].
  - apply effect_guarded. intros a r' Hph. apply effect_read. intros row Hrow.
    res_simpl. apply bool_decide_eq_true in Hph.
    destruct (running_lease lease row) eqn:El; [|intros [= -> <-]; left; eauto].
    cbn [negb]. destruct (in_phases _ phase) eqn:Ein; [by apply reread_effect with row|].
    apply effect_update. intros row' Hrow' [Hst Hl]%running_lease_spec. simplify_eq.
    apply bool_decide_eq_false in Ein. split; [by constructor|done].
  - apply effect_guarded. intros a r' _. apply effect_update. intros row _.
    intros [Hst Hl]%running_lease_spec. split; [by constructor|done].
  - intros H. apply (effect_guarded (Ok ()) _ p) with (2 := H).
    intros a r' _. apply effect_read. intros row Hrow.
    destruct (running_lease lease row) eqn:El; [|intros [= -> <-]; left; eauto].
    case_bool_decide as Hall; [|intros [= -> <-]; left; eauto].
    apply effect_update. intros row' Hrow' [Hst Hl]%running_lease_spec. simplify_eq.
    split; [by constructor|done].
Qed.

Definition demo_cleanup (lease : option string) : CleanupRow :=
  {| cl_terminal_status := EXITED; cl_state := match lease with Some _ => "running" | None => "pending" end;
     cl_completed_phases := []; cl_attempt_count := 0; cl_owner_id := lease;
     cl_lease_id := lease; cl_failed_phase := None; cl_last_error := None;
     cl_created_at := "t0"; cl_updated_at := "t0" |}.

Definition demo_store (row : CleanupRow) : Store :=
  mkStore ∅ ∅ {["p1" := row]} ∅ [] ∅ None.

(** ** Lifecycle *)

(** The item after some operations, compared with the item before. *)
Record cleanup_progress (row row' : CleanupRow) : Prop := {
  prog_wf : cleanup_wf row → cleanup_wf row';
  prog_phases : cleanup_wf row → cl_completed_phases row ⊆ cl_completed_phases row';
  prog_attempts : (cl_attempt_count row <= cl_attempt_count row')%Z;
  prog_completed : cl_state row = "completed" → row' = row;
  prog_status : cl_terminal_status row' = cl_terminal_status row;
}.

Lemma ordered_phases_elem completed phase :
  phase ∈ CLEANUP_PHASES → phase ∈ completed → phase ∈ ordered_phases completed.
Proof.
  intros H1 H2. unfold ordered_phases. rewrite list_elem_of_In, filter_In, <-list_elem_of_In.
  split; [done|]. by apply bool_decide_eq_true.
Qed.

Lemma ordered_phases_incl completed phase :
  completed ∈ [[]; ["terminal_notify"]; ["process_finalize"]; CLEANUP_PHASES] →
  completed ⊆ ordered_phases (completed ++ [phase]).
Proof.
  intros H x Hx. apply ordered_phases_elem; [|set_solver].
  rewrite !elem_of_cons, elem_of_nil in H.
  unfold CLEANUP_PHASES in *. destruct H as [-> |[-> |[-> |[-> |[]]]]]; set_solver.
Qed.

Lemma cleanup_step_progress row row' : cleanup_step row row' → cleanup_progress row row'.
Proof.
  intros Hstep. pose proof (cleanup_step_wf row row') as Hwf.
  destruct Hstep as [row now owner lease Hst|row now phase Hst Hin Hnew
                    |row now phase err Hst|row now Hst Hall];
    (split; [intros Hw; apply Hwf; [done|by constructor]|..]; cbn; try lia; try congruence; try done).
  intros (Hp & _). by apply ordered_phases_incl.
Qed.

#[export] Instance cleanup_progress_refl : Reflexive cleanup_progress.
Proof. intros row. by split. Qed.

#[export] Instance cleanup_progress_trans : Transitive cleanup_progress.
Proof.
  intros a b c [] []. split; [naive_solver|..].
  - intros Hw. etrans; [by apply prog_phases0|by auto].
  - lia.
  - intros Hc. pose proof (prog_completed0 Hc) as ->. auto.
  - congruence.
Qed.

Lemma run_cleanup_progress p o s row :
  cleanups s !! p = Some row →
  ∃ row', cleanups (fst (run_cleanup p o s)) !! p = Some row' ∧ cleanup_progress row row'.
Proof.
  intros Hrow. destruct (run_cleanup p o s) as [s' r] eqn:E.
  apply run_cleanup_refines in E as [[Hs _]|(row0 & row' & Hrow0 & Hstep & _ & -> & _)]; cbn [fst].
  - exists row. by rewrite Hs.
  - simplify_eq. exists row'. split; [apply set_cleanups_insert|by apply cleanup_step_progress].
Qed.

(** (C35) Whatever claims, completions, failures and finishes arrive, in any
    order and under any leases, the work item stays well formed (one of its
    four states, its lease held exactly while running), recorded phases and
    attempts are never lost, a completed item never changes again, and an item
    is completed only with both phases recorded. *)
Theorem cleanup_lifecycle p ops s row :
  cleanups s !! p = Some row → cleanup_wf row →
  ∃ row', cleanups (run_cleanups p ops s) !! p = Some row'
    ∧ cleanup_wf row'
    ∧ cl_completed_phases row ⊆ cl_completed_phases row'
    ∧ (cl_attempt_count row <= cl_attempt_count row')%Z
    ∧ (cl_state row = "completed" → row' = row)
    ∧ (cl_state row' = "completed" → cl_completed_phases row' = CLEANUP_PHASES).
Proof.
  intros Hrow Hwf.
  assert (∃ row', cleanups (run_cleanups p ops s) !! p = Some row' ∧ cleanup_progress row row')
    as (row' & Hrow' & [Hw Hp Ha Hc _]).
  { clear Hwf. revert s row Hrow. induction ops as [|o ops IH]; intros s row Hrow; [by exists row|].
    destruct (run_cleanup_progress p o s row Hrow) as (row1 & H1 & Hprog).
    destruct (IH _ _ H1) as (row2 & H2 & Hprog'). exists row2. split; [done|by etrans]. }
  exists row'. split_and!; auto.
  intros Hst. destruct (Hw Hwf) as (_ & _ & Hs).
  destruct Hs as [[Hx _]|[[Hx _]|[[Hx _]|Hs]]]; [rewrite Hx in Hst; discriminate Hst..|].
  by destruct_and?.
Qed.

Lemma cleanup_lifecycle_witness :
  let ops := [CClaim "t1" "w" "l1" None; CComplete "t2" "l1" "process_finalize";
              CFail "t3" "l1" "terminal_notify" []; CClaim "t4" "w" "l2" None;
              CComplete "t5" "l2" "terminal_notify"; CFinish "t6" "l2"] in
  (∃ row', cleanups (run_cleanups "p1" ops (demo_store (demo_cleanup None))) !! "p1" = Some row'
    ∧ cleanup_wf row' ∧ [] ⊆ cl_completed_phases row' ∧ (0 <= cl_attempt_count row')%Z
    ∧ ("pending" = "completed" → row' = demo_cleanup None)
    ∧ (cl_state row' = "completed" → cl_completed_phases row' = CLEANUP_PHASES))
  ∧ option_map cl_state (cleanups (run_cleanups "p1" ops (demo_store (demo_cleanup None))) !! "p1")
    = Some "completed".
Proof.
  intros ops. split; [|by vm_compute].
  apply (cleanup_lifecycle "p1" ops (demo_store (demo_cleanup None)) (demo_cleanup None)).
  - by vm_compute.
  - unfold cleanup_wf; cbn; rewrite !elem_of_cons; auto 8.
Defined.

(** A holder whose lease is no longer the item's (it was failed,
    finished, or taken over by another claim) cannot change the item: its
    operations return nothing or the unchanged row, or raise. *)
Theorem cleanup_lease_fences p o s row lease :
  cleanups s !! p = Some row → op_lease o = Some lease → cl_lease_id row ≠ Some lease →
  cleanups (fst (run_cleanup p o s)) = cleanups s
  ∧ ∀ row', snd (run_cleanup p o s) = Ok (Some row') → row' = row.
Proof.
  intros Hrow Hop Hne. destruct (run_cleanup p o s) as [s' r] eqn:E; cbn [fst snd].
  apply run_cleanup_refines in E as [[Hs Hr]|(? & ? & ? & _ & ? & _)]; [|congruence].
  split; [done|]. intros row' ->. rewrite Hrow in Hr. naive_solver.
Qed.

Lemma cleanup_lease_fences_witness :
  let s := demo_store (demo_cleanup (Some "l2")) in
  let o := CFinish "t1" "l1" in
  cleanups (fst (run_cleanup "p1" o s)) = cleanups s
  ∧ ∀ row', snd (run_cleanup "p1" o s) = Ok (Some row') → row' = demo_cleanup (Some "l2").
Proof.
  intros s o. by apply (cleanup_lease_fences "p1" o s (demo_cleanup (Some "l2")) "l1").
Defined.

(** The operations of a worker that claims an item and works it off. *)
Definition work_off (now owner lease : string) (expected : option string) : list cleanup_op :=
  [CClaim now owner lease expected; CComplete now lease "terminal_notify";
   CComplete now lease "process_finalize"; CFinish now lease].

(** The first claim of an item not yet completed succeeds. *)
Lemma claim_succeeds p s row now owner lease :
  cleanups s !! p = Some row → cleanup_wf row → cl_state row ≠ "completed" →
  owner ≠ "" → lease ≠ "" →
  run_cleanup p (CClaim now owner lease (cl_lease_id row)) s
  = (let row' := cleanup_row row "running" (cl_completed_phases row) (cl_attempt_count row + 1)
                   (Some owner) (Some lease) None None now in
     (set_cleanups <[p := row']> s, Ok (Some row'))).
Proof.
  intros Hrow Hwf Hst Ho Hl. cbn -[reread_cleanup].
  unfold claim_process_terminal_cleanup, mbind, M_bind, lift_res.
  rewrite (proj2 (String.eqb_neq _ _) Ho), (proj2 (String.eqb_neq _ _) Hl). cbn -[reread_cleanup].
  unfold sql_transaction, update_cleanup_where. rewrite Hrow.
  rewrite (proj2 (String.eqb_neq _ _) Hst), bool_decide_eq_true_2 by done.
  cbn -[reread_cleanup]. unfold reread_cleanup. rewrite set_cleanups_insert, from_row_ok; [done|].
  eapply cleanup_step_wf; [done|by constructor].
Qed.

(** Recording a phase under the current lease succeeds. *)
Lemma complete_succeeds p s row now lease phase :
  cleanups s !! p = Some row → cleanup_wf row → cl_state row = "running" →
  cl_lease_id row = Some lease → phase ∈ CLEANUP_PHASES →
  ∃ s' row', run_cleanup p (CComplete now lease phase) s = (s', Ok (Some row'))
    ∧ cleanups s' !! p = Some row' ∧ cleanup_wf row' ∧ cl_state row' = "running" ∧ cl_lease_id row' = Some lease
    ∧ phase ∈ cl_completed_phases row' ∧ cl_completed_phases row ⊆ cl_completed_phases row'.
Proof.
  intros Hrow Hwf Hst Hl Hph. cbn -[reread_cleanup].
  unfold complete_process_terminal_cleanup_phase, mbind, M_bind, lift_res, get_state.
  unfold in_phases at 1. rewrite bool_decide_eq_true_2 by done. cbn -[reread_cleanup].
  unfold sql_transaction, get_process_terminal_cleanup. rewrite Hrow, from_row_ok by done.
  cbn -[reread_cleanup].
  rewrite (proj2 (running_lease_spec lease row)) by done. cbn -[reread_cleanup].
  unfold in_phases at 1. case_bool_decide as Hin.
  - unfold reread_cleanup. rewrite Hrow, from_row_ok by done. cbn. by exists s, row.
  - unfold update_cleanup_where. rewrite Hrow, (proj2 (running_lease_spec lease row)) by done.
    cbn -[reread_cleanup]. unfold reread_cleanup.
    assert (Hstep : cleanup_wf (cleanup_row row (cl_state row)
       (ordered_phases (cl_completed_phases row ++ [phase])) (cl_attempt_count row)
       (cl_owner_id row) (cl_lease_id row) (cl_failed_phase row) (cl_last_error row) now)).
    { eapply cleanup_step_wf; [done|by constructor]. }
    rewrite set_cleanups_insert, from_row_ok by done. cbn. eexists _, _. split; [reflexivity|].
    cbn. rewrite lookup_insert_eq. split; [done|]. split_and!; [done..| |].
    + apply ordered_phases_elem; [done|set_solver].
    + apply ordered_phases_incl. by destruct Hwf.
Qed.

(** Finishing under the current lease succeeds once both phases are recorded. *)
Lemma finish_succeeds p s row now lease :
  cleanups s !! p = Some row → cleanup_wf row → running_lease lease row = true →
  cl_completed_phases row = CLEANUP_PHASES →
  let row' := cleanup_row row "completed" CLEANUP_PHASES (cl_attempt_count row) None None None None now in
  run_cleanup p (CFinish now lease) s = (set_cleanups <[p := row']> s, Ok (Some row')).
Proof.
  intros Hrow Hwf Hl Hall. cbn -[reread_cleanup]. unfold finish_process_terminal_cleanup, sql_transaction, mbind, M_bind,
    lift_res, get_state, get_process_terminal_cleanup.
  rewrite Hrow, from_row_ok by done. cbn -[reread_cleanup]. rewrite Hl, bool_decide_eq_true_2 by done.
  cbn -[reread_cleanup]. unfold update_cleanup_where. rewrite Hrow, Hl. cbn -[reread_cleanup].
  unfold reread_cleanup. rewrite set_cleanups_insert, from_row_ok; [by rewrite Hall|].
  apply running_lease_spec in Hl as [Hst _]. eapply cleanup_step_wf; [done|by constructor].
Qed.

(** Both phases are all there is to record. *)
Lemma both_phases row : cleanup_wf row → "terminal_notify" ∈ cl_completed_phases row →
  "process_finalize" ∈ cl_completed_phases row → cl_completed_phases row = CLEANUP_PHASES.
Proof.
  intros [Hc _]. revert Hc. rewrite !elem_of_cons, !elem_of_nil. intros [-> |[-> |[-> |[-> |[]]]]]; set_solver.
Qed.

(** Cleanup never gets stuck: from any well-formed item that is not
    completed, whatever its state, a worker that presents the current lease,
    claims the item, and records both phases finishes it. *)
Theorem cleanup_always_finishes p s row now owner lease :
  cleanups s !! p = Some row → cleanup_wf row → cl_state row ≠ "completed" →
  owner ≠ "" → lease ≠ "" →
  option_map cl_state
    (cleanups (run_cleanups p (work_off now owner lease (cl_lease_id row)) s) !! p)
  = Some "completed".
Proof.
  intros Hrow Hwf Hst Ho Hl. unfold run_cleanups, work_off. cbn [foldl].
  rewrite (claim_succeeds p s row) by done. cbn [fst].
  set (row1 := cleanup_row _ _ _ _ _ _ _ _ _).
  assert (Hwf1 : cleanup_wf row1) by (eapply cleanup_step_wf; [done|by constructor]).
  destruct (complete_succeeds p (set_cleanups <[p:=row1]> s) row1 now lease "terminal_notify")
    as (s2 & row2 & E2 & H2 & Hwf2 & Hst2 & Hl2 & Hp2 & _);
    [apply set_cleanups_insert|done..|set_solver|].
  rewrite E2. cbn [fst]. destruct (complete_succeeds p s2 row2 now lease "process_finalize" H2)
    as (s3 & row3 & E3 & H3 & Hwf3 & Hst3 & Hl3 & Hp3 & Hsub); [done..|set_solver|].
  rewrite E3. cbn [fst]. rewrite (finish_succeeds p s3 row3); [cbn [fst]|done|done|by apply running_lease_spec|by apply both_phases; auto].
  by rewrite set_cleanups_insert.
Qed.

Lemma cleanup_always_finishes_witness :
  option_map cl_state
    (cleanups (run_cleanups "p1" (work_off "t1" "w" "l1" None) (demo_store (demo_cleanup None))) !! "p1")
  = Some "completed".
Proof.
  apply (cleanup_always_finishes "p1" (demo_store (demo_cleanup None)) (demo_cleanup None) "t1" "w" "l1").
  - by vm_compute.
  - unfold cleanup_wf; cbn; rewrite !elem_of_cons; auto 8.
  - by vm_compute.
  - done.
  - done.
Defined.
