(* ===== verification/ProcessInvariant.v ===== *)
(** * The process table's invariant

    Every write of ProcessWrites and ProcessExecution preserves the store
    invariant and only moves rows forward. *)

From S2P Require Import Prelude PyStr PyVal ProcessState ProcessModel ProcessStore ProcessWrites ProcessExecution.

(** ** Well-formed rows and the order in which rows evolve *)

Record row_wf (p : string) (row : AgentProcess) : Prop := {
  rw_pid : pid row = p;
  rw_shape : state_shape (status row) (wait_state row) (outcome row);
  rw_lease : unleased row = true
             ∨ (status row = RUNNING ∧ is_Some (execution_owner_id row)
                ∧ is_Some (execution_lease_id row));
  rw_state_gen : (0 <= state_generation row)%Z;
  rw_exec_gen : (0 <= execution_generation row)%Z;
}.

Record evolves (old new : AgentProcess) : Prop := {
  ev_pid : pid new = pid old;
  ev_revision : (revision old < revision new)%Z;
  ev_exec_gen : (execution_generation old <= execution_generation new)%Z;
  ev_state_gen : (state_generation old <= state_generation new)%Z;
  ev_terminal : is_terminal (status old) = true → status new = status old;
  ev_lease : execution_generation new = execution_generation old →
             unleased new = true
             ∨ (execution_owner_id new = execution_owner_id old
                ∧ execution_lease_id new = execution_lease_id old);
  ev_semantic : state_generation new = state_generation old →
                status new = status old ∧ outcome new = outcome old;
  ev_run : task_run_id new = task_run_id old ∧ task_run_epoch new = task_run_epoch old
           ∧ task_run_role new = task_run_role old;
}.

Definition row_le (old new : AgentProcess) : Prop := new = old ∨ evolves old new.

#[export] Instance evolves_trans : Transitive evolves.
Proof.
  intros a b c [] []. split; try lia; try congruence.
  - intros Ha. rewrite <-(ev_terminal0 Ha). apply ev_terminal1. by rewrite ev_terminal0.
  - intros E. assert (execution_generation b = execution_generation a) as Eb by lia.
    destruct (ev_lease1 ltac:(lia)) as [?|[E1 E2]]; [by left|].
    destruct (ev_lease0 Eb) as [Hu|[E3 E4]]; [left|right; split; congruence].
    revert Hu. unfold unleased. by rewrite E1, E2.
  - intros E. destruct (ev_semantic0 ltac:(lia)), (ev_semantic1 ltac:(lia)). split; congruence.
  - naive_solver congruence.
Qed.

#[export] Instance row_le_refl : Reflexive row_le.
Proof. by left. Qed.

#[export] Instance row_le_trans : Transitive row_le.
Proof. intros a b c [->|H1] [->|H2]; unfold row_le; auto. right. by etrans. Qed.

Lemma unleased_spec row :
  unleased row = true ↔ execution_owner_id row = None ∧ execution_lease_id row = None.
Proof. unfold unleased. by rewrite andb_true_iff, !bool_decide_eq_true. Qed.

(** ** The store invariant *)

Definition counter_covers (c : gmap string Z) (p : string) (row : AgentProcess) : Prop :=
  (∃ v, c !! revision_counter p = Some v ∧ (revision row <= v)%Z)
  ∧ (∃ v, c !! execution_counter p = Some v ∧ (execution_generation row <= v)%Z)
  ∧ (∃ v, c !! state_counter p = Some v ∧ (state_generation row <= v)%Z).

Definition counters_le (c c' : gmap string Z) : Prop :=
  ∀ n v, c !! n = Some v → ∃ v', c' !! n = Some v' ∧ (v <= v')%Z.

Definition binding_rows (row : AgentProcess) : list (string * string * string) :=
  map (fun nt : string * string => ("callable", fst nt, snd nt)) (tool_table row)
  ++ map (fun nt : string * string => ("model", fst nt, snd nt)) (model_tool_table row).

Definition side_ok (s : Store) (p : string) (row : AgentProcess) : Prop :=
  row_wf p row ∧ (is_terminal (status row) = true → is_Some (cleanups s !! p))
  ∧ tool_bindings s !! p = Some (binding_rows row).

Record store_inv (s : Store) : Prop := {
  inv_side : ∀ p row, processes s !! p = Some row → side_ok s p row;
  inv_counters : ∀ p row, processes s !! p = Some row → counter_covers (runtime_counters s) p row;
}.

(** How an operation that may write the rows in [X] moves the tables; the
    counters of the rows in [X] are caught up separately. *)
Record core_le (X : list string) (s s' : Store) : Prop := {
  core_rows : ∀ p row, processes s !! p = Some row →
    ∃ row', processes s' !! p = Some row' ∧ row_le row row' ∧ (p ∉ X → row' = row);
  core_dom : ∀ p, processes s !! p = None → p ∉ X → processes s' !! p = None;
  core_side : (∀ p row, processes s !! p = Some row → side_ok s p row) →
              ∀ p row, processes s' !! p = Some row → side_ok s' p row;
  core_counters : counters_le (runtime_counters s) (runtime_counters s');
}.

(** An operation's whole effect. *)
Record store_le (s s' : Store) : Prop := {
  le_inv : store_inv s → store_inv s';
  le_rows : ∀ p row, processes s !! p = Some row →
    ∃ row', processes s' !! p = Some row' ∧ row_le row row';
}.

#[export] Instance counters_le_refl : Reflexive counters_le.
Proof. intros c n v ?. by exists v. Qed.

#[export] Instance counters_le_trans : Transitive counters_le.
Proof.
  intros a b c H1 H2 n v Hn. destruct (H1 _ _ Hn) as (v1 & Hn1 & ?).
  destruct (H2 _ _ Hn1) as (v2 & ? & ?). exists v2. split; [done|lia].
Qed.

Lemma counter_covers_le c c' p row :
  counters_le c c' → counter_covers c p row → counter_covers c' p row.
Proof.
  intros Hle (H1 & H2 & H3). split_and!;
    [destruct H1 as (v & Hv & ?)|destruct H2 as (v & Hv & ?)|destruct H3 as (v & Hv & ?)];
    destruct (Hle _ _ Hv) as (v' & ? & ?); exists v'; (split; [done|lia]).
Qed.

#[export] Instance store_le_refl : Reflexive store_le.
Proof. intros s. split; [done|]. intros p row ?. by exists row. Qed.

#[export] Instance store_le_trans : Transitive store_le.
Proof.
  intros a b c [H1 H2] [H3 H4]. split; [auto|]. intros p row Hp.
  destruct (H2 _ _ Hp) as (r1 & Hr1 & L1). destruct (H4 _ _ Hr1) as (r2 & Hr2 & L2).
  exists r2. split; [done|by etrans].
Qed.

Lemma core_le_refl X s : core_le X s s.
Proof. split; try done. intros p row ?. by exists row. Qed.

Lemma core_le_trans X s1 s2 s3 : core_le X s1 s2 → core_le X s2 s3 → core_le X s1 s3.
Proof.
  intros [R1 D1 S1 C1] [R2 D2 S2 C2]. split; [|auto|auto|by etrans].
  intros p row Hp. destruct (R1 _ _ Hp) as (r1 & Hr1 & L1 & N1).
  destruct (R2 _ _ Hr1) as (r2 & Hr2 & L2 & N2). exists r2. split_and!; [done|by etrans|].
  intros Hn. by rewrite N2, N1.
Qed.

Lemma core_le_weaken X Y s s' : X ⊆ Y → core_le X s s' → core_le Y s s'.
Proof.
  intros Hsub [R D S C]. split; auto. intros p row Hp.
  destruct (R _ _ Hp) as (r' & ? & ? & N). exists r'. split_and!; auto.
Qed.

Lemma core_le_finish X s s' :
  core_le X s s' →
  (∀ p row, p ∈ X → store_inv s → processes s' !! p = Some row →
            counter_covers (runtime_counters s') p row) →
  store_le s s'.
Proof.
  intros [R D S C] Hcov. split.
  - intros [Hs Hc]. split; [auto|]. intros p row Hp.
    destruct (decide (p ∈ X)) as [Hin|Hnin]; [by apply Hcov|].
    destruct (processes s !! p) as [old|] eqn:E; [|by rewrite D in Hp].
    destruct (R _ _ E) as (row' & Hrow' & _ & N). simplify_eq.
    rewrite N by done. by eapply counter_covers_le, Hc.
  - intros p row Hp. destruct (R _ _ Hp) as (row' & ? & ? & _). eauto.
Qed.

(** ** Counters and side tables *)

Definition raised (n : string) (floor : Z) (c : gmap string Z) : gmap string Z :=
  let inserted := match c !! n with Some v => v | None => Z.max 0 floor end in
  <[n := if (inserted <? Z.max 0 floor)%Z then Z.max 0 floor else inserted]> c.

Lemma raised_le n f c : counters_le c (raised n f c).
Proof.
  intros m v Hm. unfold raised. destruct (decide (n = m)) as [->|Hne].
  - rewrite lookup_insert_eq, Hm. eexists. split; [done|].
    destruct (Z.ltb_spec v (Z.max 0 f)); lia.
  - rewrite lookup_insert_ne by done. by exists v.
Qed.

Lemma raised_at n f c : ∃ v, raised n f c !! n = Some v ∧ (f <= v)%Z.
Proof.
  unfold raised. rewrite lookup_insert_eq. eexists. split; [done|].
  destruct (c !! n) as [v|]; [destruct (Z.ltb_spec v (Z.max 0 f))|rewrite Z.ltb_irrefl]; lia.
Qed.

Definition observed (p : string) (rev gen : Z) (st : option Z) (c : gmap string Z) : gmap string Z :=
  let c2 := raised (execution_counter p) gen (raised (revision_counter p) rev c) in
  match st with Some g => raised (state_counter p) g c2 | None => c2 end.

Lemma observe_run p rev gen st s :
  observe_process_concurrency p rev gen st s = (set_counters (observed p rev gen st) s, Ok tt).
Proof. unfold observed. by destruct st. Qed.

Lemma observed_le p rev gen st c : counters_le c (observed p rev gen st c).
Proof.
  unfold observed. destruct st; repeat (etrans; [|apply raised_le]); reflexivity.
Qed.

Lemma at_le c c' n f :
  counters_le c c' → (∃ v, c !! n = Some v ∧ (f <= v)%Z) → ∃ v, c' !! n = Some v ∧ (f <= v)%Z.
Proof. intros Hle (v & Hv & ?). destruct (Hle _ _ Hv) as (v' & ? & ?). exists v'. split; [done|lia]. Qed.

Lemma observed_covers p row st c :
  (match st with
   | Some g => g = state_generation row
   | None => ∃ v, c !! state_counter p = Some v ∧ (state_generation row <= v)%Z
   end) →
  counter_covers (observed p (revision row) (execution_generation row) st c) p row.
Proof.
  intros Hst. unfold counter_covers, observed.
  destruct st as [g|]; [subst g|]; split_and!.
  - do 2 (eapply at_le; [apply raised_le|]). apply raised_at.
  - eapply at_le; [apply raised_le|]. apply raised_at.
  - apply raised_at.
  - eapply at_le; [apply raised_le|]. apply raised_at.
  - apply raised_at.
  - do 2 (eapply at_le; [apply raised_le|]). done.
Qed.

Definition with_intent (p : string) (st : ProcessStatus) (now : string)
    (m : gmap string CleanupRow) : gmap string CleanupRow :=
  match m !! p with
  | Some _ => m
  | None => <[p := {| cl_terminal_status := st; cl_state := "pending";
                      cl_completed_phases := []; cl_attempt_count := 0;
                      cl_owner_id := None; cl_lease_id := None;
                      cl_failed_phase := None; cl_last_error := None;
                      cl_created_at := now; cl_updated_at := now |}]> m
  end.

Lemma intent_run p st now s :
  _ensure_process_terminal_cleanup_intent p st now s
  = (if is_terminal st then set_cleanups (with_intent p st now) s else s, Ok tt).
Proof. unfold _ensure_process_terminal_cleanup_intent. by destruct (is_terminal st). Qed.

Lemma with_intent_at p st now m : is_Some (with_intent p st now m !! p).
Proof. unfold with_intent. destruct (m !! p) eqn:E; [by rewrite E|]. rewrite lookup_insert_eq. eauto. Qed.

Lemma with_intent_keeps p st now m q row :
  m !! q = Some row → with_intent p st now m !! q = Some row.
Proof.
  intros Hq. unfold with_intent. destruct (m !! p) eqn:E; [done|].
  rewrite lookup_insert_ne; [done|]. intros ->. congruence.
Qed.

Lemma bindings_run p tools model s s' r :
  _replace_process_tool_bindings p tools model s = (s', r) →
  (∃ e, r = Err e ∧ s' = s)
  ∨ (r = Ok tt ∧ s' = set_tool_bindings (fun m => <[p :=
        map (fun nt : string * string => ("callable", fst nt, snd nt)) tools
        ++ map (fun nt : string * string => ("model", fst nt, snd nt)) model]> m) s).
Proof.
  unfold _replace_process_tool_bindings, mbind, M_bind, lift_res, raise_if. intros H.
  destruct (negb (valid_binding_text p)); [simplify_eq; eauto|].
  destruct (negb (forallb _ _)); [simplify_eq; eauto|]. unfold modify in H. simplify_eq. auto.
Qed.

(** ** One row written *)

Lemma write_core s s' p old row' :
  processes s !! p = Some old →
  processes s' = <[p := row']> (processes s) →
  evolves old row' →
  (side_ok s p old → row_wf p row') →
  (∀ q, is_Some (cleanups s !! q) → is_Some (cleanups s' !! q)) →
  (is_terminal (status row') = true → is_Some (cleanups s' !! p) ∨ is_terminal (status old) = true) →
  (tool_bindings s' = <[p := binding_rows row']> (tool_bindings s)
   ∨ (tool_bindings s' = tool_bindings s ∧ binding_rows row' = binding_rows old)) →
  counters_le (runtime_counters s) (runtime_counters s') →
  core_le [p] s s'.
Proof.
  intros Hp Hproc Hev Hwf Hcl Hterm Hbind Hcnt. split; [| | |done].
  - intros q row Hq. rewrite Hproc. destruct (decide (p = q)) as [->|Hne].
    + simplify_eq. exists row'. rewrite lookup_insert_eq. split_and!; [done|by right|set_solver].
    + exists row. by rewrite lookup_insert_ne by done.
  - intros q Hq Hnin. rewrite Hproc, lookup_insert_ne; [done|set_solver].
  - intros Hs q row Hq. rewrite Hproc in Hq. destruct (decide (p = q)) as [->|Hne].
    + rewrite lookup_insert_eq in Hq. simplify_eq. pose proof (Hs _ _ Hp) as Hold.
      split_and!; [by apply Hwf| |].
      * intros Ht. destruct (Hterm Ht) as [?|Ht']; [done|]. apply Hcl. by apply Hold.
      * destruct Hold as (_ & _ & Hb). destruct Hbind as [->|[-> ->]]; [|done].
        by rewrite lookup_insert_eq.
    + rewrite lookup_insert_ne in Hq by done. destruct (Hs _ _ Hq) as (Hw & Ht & Hb).
      split_and!; [done|eauto|]. destruct Hbind as [->|[-> _]]; [|done].
      by rewrite lookup_insert_ne.
Qed.

(** ** What the fences guarantee *)

Record fenced (amb : Ambient) (current process : AgentProcess)
    (gen : Z) (owner lease : option string) : Prop := {
  fc_revision : revision current = revision process;
  fc_terminal : is_terminal (status current) = true → status process = status current;
  fc_lease :
    (gen = (execution_generation current + 1)%Z ∧ owner = None ∧ lease = None)
    ∨ (gen = execution_generation current ∧ owner = execution_owner_id current
       ∧ lease = execution_lease_id current ∧ is_terminal (status process) = false
       ∧ (status current = RUNNING → status process = RUNNING));
  fc_worker : ∀ token, cur_execution amb = Some token → tok_pid token = pid process →
    is_terminal (status current) = false → cur_post_exec_mutation amb = None →
    holds_lease token current = true;
  fc_target : ∀ token, cur_execution amb = Some token → tok_pid token ≠ pid process →
    ∃ cm, cur_control_mutation amb = Some cm ∧ cm_target_pid cm = pid process
          ∧ status current ∈ cm_allowed_statuses cm;
  fc_takeover_terminal : is_terminal (status current) = true → is_Some (cur_terminal_mutation amb);
}.

Section Steps.
Context `{ExecEvidence}.
Variable json_dumps : list (string * json) → string.
Variable sha256_hex : string → string.

Lemma takeover_write_state current process token s s' b :
  _process_exec_takeover_write_allowed current process token s = (s', b) →
  ∃ t, s' = set_takeover t s.
Proof.
  unfold _process_exec_takeover_write_allowed. intros E.
  destruct s as [? ? ? ? ? ? tk]; cbn in E. destruct tk as [intent|];
    [|simplify_eq; by exists None].
  destruct (_ || _); [simplify_eq; by eexists|].
  match type of E with context [match ?v with Some _ => _ | None => _ end] => destruct v end;
    simplify_eq; cbn; by eexists.
Qed.

Lemma set_takeover_id s : set_takeover (takeover s) s = s.
Proof. by destruct s. Qed.

Lemma admission_state current process token s s' r :
  _assert_process_exec_admission_update_owner current process token s = (s', r) →
  ∃ t, s' = set_takeover t s.
Proof.
  unfold _assert_process_exec_admission_update_owner, mbind, M_bind, get_state, lift_res.
  intros E. destruct (negb _); [unfold mret, M_ret in E; simplify_eq;
    exists (takeover s'); by rewrite set_takeover_id|].
  destruct (execution_owner_id current) as [ow|], (execution_lease_id current) as [le|];
    try (unfold mret, M_ret in E; simplify_eq; exists (takeover s'); by rewrite set_takeover_id).
  destruct (_ && _); [unfold mret, M_ret in E; simplify_eq;
    exists (takeover s'); by rewrite set_takeover_id|].
  destruct (_process_exec_takeover_write_allowed _ _ _ _) as [s1 [b|e]] eqn:Et;
    apply takeover_write_state in Et as [t ->]; [|simplify_eq; by exists t].
  destruct (raise_if _ _); simplify_eq; by exists t.
Qed.

Lemma terminal_check_Ok amb process current rev u :
  _assert_terminal_mutation_allowed amb process current rev = Ok u →
  is_Some (cur_terminal_mutation amb).
Proof. unfold _assert_terminal_mutation_allowed. destruct (cur_terminal_mutation amb); [eauto|done]. Qed.

Lemma target_check_Ok s amb token p st u :
  _assert_execution_target_allowed s amb (Some token) p st = Ok u →
  tok_pid token = p
  ∨ ∃ cm, cur_control_mutation amb = Some cm ∧ cm_target_pid cm = p ∧ st ∈ cm_allowed_statuses cm.
Proof.
  unfold _assert_execution_target_allowed. intros E. res_simpl.
  destruct (String.eqb_spec (tok_pid token) p); [by left|].
  destruct (cur_control_mutation amb) as [cm|]; [|done].
  destruct (String.eqb_spec (cm_target_pid cm) p); [|done]. cbn in E.
  case_bool_decide; [|done]. right. by exists cm.
Qed.

Lemma fence_Ok amb current process rev s s' gen owner lease clause :
  _process_update_fence amb current process rev s = (s', Ok (gen, owner, lease, clause)) →
  (∃ t, s' = set_takeover t s) ∧
  (rev = revision process → fenced amb current process gen owner lease).
Proof.
  unfold _process_update_fence. intros E. res_simpl.
  rename select (_assert_process_exec_admission_update_owner _ _ _ _ = _) into Hadm.
  rename select ((revision current =? _)%Z = true) into Hrev.
  rename select (is_terminal _ && _ = false) into Hsame.
  rename select (_assert_execution_target_allowed _ _ _ _ _ = _) into Htarget.
  rename select ((match cur_execution amb with _ => _ end) && _ = false) into Hworker.
  apply admission_state in Hadm. split; [done|]. intros ->. apply Z.eqb_eq in Hrev.
  assert (Hterm : is_terminal (status current) = true → status process = status current).
  { intros Hc. rewrite Hc in Hsame. cbn in Hsame. res_simpl. by apply bool_decide_eq_true in Hsame. }
  split; [done|done|..].
  - destruct (is_terminal (status process)) eqn:Etp; [by left|]. cbn.
    destruct (bool_decide (status current = RUNNING) && _) eqn:El; [by left|].
    right; split_and!; [done..|]. intros Hr. apply andb_false_iff in El as [El|El].
    + by apply bool_decide_eq_false in El.
    + apply negb_false_iff in El. by apply bool_decide_eq_true in El.
  - intros token Htok Hpid Hnt Hpm. rewrite Htok, Hnt, Hpm, Hpid, String.eqb_refl in Hworker.
    cbn in Hworker. by apply negb_false_iff in Hworker.
  - intros token Htok Hne. rewrite Htok in Htarget. by apply target_check_Ok in Htarget as [?|?].
  - intros Hc. repeat match goal with
      | X : (if is_terminal (status current) then _ else _) = Ok _ |- _ =>
          rewrite Hc in X; by eapply terminal_check_Ok
      end.
Qed.

(** ** The compare-and-swap update *)

Lemma validate_write_Ok process persisted b u :
  _validate_process_state_write process persisted b = Ok u →
  state_shape (status process) (wait_state process) (outcome process)
  ∧ (0 <= state_generation process)%Z
  ∧ ∀ old, persisted = Some old →
      if b then state_generation process = (state_generation old + 1)%Z
      else status process = status old ∧ wait_eqb (wait_state process) (wait_state old) = true
           ∧ outcome process = outcome old ∧ state_generation process = state_generation old.
Proof.
  unfold _validate_process_state_write. intros E. res_simpl.
  match goal with X : validate_process_state_fields _ _ _ = Ok ?a |- _ =>
    destruct a; apply validate_fields_shape in X end.
  split_and!; [done|lia|]. intros old ->. res_simpl.
  rename select (_ && negb b = false) into Hsem.
  destruct b; cbn in *; [res_simpl; lia|]. rewrite andb_true_r in Hsem. res_simpl.
  repeat match goal with X : bool_decide _ = true |- _ => apply bool_decide_eq_true in X end.
  split_and!; [done..|lia].
Qed.

Definition committed_store (s : Store) (process current : AgentProcess) (now : string)
    (gen : Z) (owner lease : option string) (t : option ProcessExecutionTakeoverIntent) : Store :=
  let row := committed_row current process gen owner lease in
  mkStore (<[pid process := row]> (processes s))
    (<[pid process := binding_rows row]> (tool_bindings s))
    (if is_terminal (status process) then with_intent (pid process) (status process) now (cleanups s)
     else cleanups s)
    (observed (pid process) (revision process + 1) gen (Some (state_generation process))
       (runtime_counters s))
    (runtime_publications s) (task_runs s) t.

Lemma update_Ok amb now process b s s' r :
  _update_process amb now process b s = (s', Ok r) →
  ∃ current gen owner lease t,
    processes s !! pid process = Some current
    ∧ fenced amb current process gen owner lease
    ∧ _validate_process_state_write process (Some current) b = Ok tt
    ∧ s' = committed_store s process current now gen owner lease t
    ∧ r = with_concurrency process (revision process + 1) gen owner lease.
Proof.
  unfold _update_process. intros E. apply M_bind_Ok in E as (f & s1 & E & E').
  rewrite sql_transaction_Ok in E. apply M_bind_Ok in E as (s0 & s2 & E0 & E).
  unfold get_state in E0. injection E0 as <- <-.
  destruct (processes s !! pid process) as [current|] eqn:Hcur; [|done].
  apply M_bind_Ok in E as ([[[gen owner] lease] clause] & s3 & Ef & E).
  apply fence_Ok in Ef as [[t ->] Hf]. res_simpl.
  unfold _row_to_process in *. res_simpl.
  rewrite intent_run in *. res_simpl.
  rename select (_replace_process_tool_bindings _ _ _ _ = _) into Hb.
  apply bindings_run in Hb as [(? & ? & ?)|[_ ->]]; [done|].
  rewrite observe_run in *. res_simpl.
  repeat match goal with u : () |- _ => destruct u end.
  eexists _, gen, owner, lease, t. split_and!; [done|auto|done| |done].
  destruct s; unfold committed_store; cbn. destruct (is_terminal (status process)); done.
Qed.

(** A rejected write changes no table. *)
Lemma update_Err amb now process b s s' e :
  _update_process amb now process b s = (s', Err e) → ∃ t, s' = set_takeover t s.
Proof.
  unfold _update_process. unfold mbind at 1, M_bind at 1. intros E.
  destruct (sql_transaction _ s) as [s1 [[[gen owner] lease]|e1]] eqn:Et; [done|].
  apply sql_transaction_Err in Et as [t ->]. simplify_eq. by exists t.
Qed.

Lemma committed_evolves amb process current gen owner lease b :
  fenced amb current process gen owner lease →
  _validate_process_state_write process (Some current) b = Ok tt →
  pid process = pid current → 
  evolves current (committed_row current process gen owner lease).
Proof.
  intros [Hrev Hterm Hlease _ _ _] Hv Hpid. apply validate_write_Ok in Hv as (Hs & Hn & Hv).
  specialize (Hv _ eq_refl).
  split; cbn; [done|lia| | |done| | |done].
  - destruct Hlease as [(-> & _)|(-> & _)]; lia.
  - destruct b; [lia|]. destruct Hv as (_ & _ & _ & ->). lia.
  - intros E. destruct Hlease as [(-> & _)|(_ & -> & -> & _)]; [lia|by right].
  - intros E. destruct b; [lia|]. destruct Hv as (-> & _ & -> & _). done.
Qed.

Lemma committed_wf amb process current gen owner lease b p :
  fenced amb current process gen owner lease →
  _validate_process_state_write process (Some current) b = Ok tt →
  row_wf p current → row_wf p (committed_row current process gen owner lease).
Proof.
  intros [_ Hterm Hlease _ _ _] Hv [Hp Hsh Hl Hsg Heg].
  apply validate_write_Ok in Hv as (Hs & Hn & _).
  split; cbn; [done|done| |done|].
  - rewrite unleased_spec. cbn. rewrite unleased_spec in Hl.
    destruct Hlease as [(_ & -> & ->)|(_ & -> & -> & _ & Hrun)]; [by left|].
    destruct Hl as [?|(Hr & ? & ?)]; [by left|right]. auto.
  - destruct Hlease as [(-> & _)|(-> & _)]; lia.
Qed.

(** An operation that keeps the invariant and moves rows forward, whether
    it returns or raises. *)
Definition preserves {A} (m : M Store A) : Prop :=
  ∀ s s' r, store_inv s → m s = (s', r) → store_le s s'.

Lemma takeover_le s t : store_le s (set_takeover t s).
Proof. split; [by intros []; split|]. intros p row ?. by exists row. Qed.

Lemma update_core amb now process b s s' r :
  store_inv s →
  _update_process amb now process b s = (s', Ok r) → core_le [pid process] s s'
    ∧ ∀ row, processes s' !! pid process = Some row →
             counter_covers (runtime_counters s') (pid process) row.
Proof.
  intros [Hside _] E. apply update_Ok in E as (current & gen & owner & lease & t & Hcur & Hf & Hv & -> & _).
  assert (Hpid : pid process = pid current).
  { symmetry. by apply Hside in Hcur as [[] _]. }
  split.
  - eapply write_core; [done|done|by eapply committed_evolves| | | |by left|apply observed_le].
    + intros [Hw _]. by eapply committed_wf.
    + intros q [row Hq]. cbn. destruct (is_terminal _); [|eauto].
      eexists. by apply with_intent_keeps.
    + cbn. intros Ht. left. rewrite Ht. apply with_intent_at.
  - intros row. cbn. rewrite lookup_insert_eq. intros [= <-].
    pose proof (fc_revision _ _ _ _ _ _ Hf) as Hrev.
    set (row := committed_row current process gen owner lease).
    assert (revision process + 1 = revision row)%Z as -> by (cbn; lia).
    by apply (observed_covers (pid process) row (Some (state_generation process))).
Qed.

Lemma update_preserves amb now process b : preserves (_update_process amb now process b).
Proof.
  intros s s' [r|e] Hinv E.
  - destruct (update_core _ _ _ _ _ _ _ Hinv E) as [Hc Hcov].
    eapply core_le_finish; [done|]. intros p row Hp _. apply list_elem_of_singleton in Hp as ->.
    apply Hcov.
  - apply update_Err in E as [t ->]. apply takeover_le.
Qed.

(** *** Errors leave the tables alone *)

Definition err_clean {A} (m : M Store A) : Prop :=
  ∀ s s' e, m s = (s', Err e) → ∃ t, s' = set_takeover t s.

Definition read_only {A} (m : M Store A) : Prop := ∀ s s' r, m s = (s', r) → s' = s.

Lemma err_clean_bind {A B} (m : M Store A) (k : A → M Store B) :
  read_only m → (∀ a, err_clean (k a)) → err_clean (m ≫= k).
Proof.
  intros Hm Hk s s' e E. unfold mbind, M_bind in E. destruct (m s) as [s1 [a|e1]] eqn:E1;
    apply Hm in E1 as ->; [by eapply Hk|]. simplify_eq. exists (takeover s'). by destruct s'.
Qed.

(** A final pure step cannot undo a committed transaction. *)
Lemma err_clean_then {A B} (m : M Store A) (k : A → B) :
  err_clean m → err_clean (m ≫= fun a => mret (k a)).
Proof.
  intros Hm s s' e E. unfold mbind, M_bind in E.
  destruct (m s) as [s1 [a|e1]] eqn:E1; [done|]. simplify_eq. by eapply Hm.
Qed.

Lemma err_clean_read {A} (m : M Store A) : read_only m → err_clean m.
Proof. intros Hm s s' e ->%Hm. exists (takeover s). by destruct s. Qed.

Lemma err_clean_tx {A} (m : M Store A) : err_clean (sql_transaction m).
Proof. intros s s' e. apply sql_transaction_Err. Qed.

Lemma err_clean_update amb now process b : err_clean (_update_process amb now process b).
Proof. intros s s' e. apply update_Err. Qed.

Lemma read_only_get_process p : read_only (get_process p).
Proof.
  intros s s' r E. unfold get_process in E.
  destruct (processes s !! p) as [row|]; [destruct (_row_to_process row)|]; by simplify_eq.
Qed.

Lemma read_only_pure {A} (f : Store → res A) : read_only (fun s => (s, f s)).
Proof. by intros s s' r [= <- <-]. Qed.

Ltac clean :=
  repeat lazymatch goal with
    | |- err_clean (match ?x with _ => _ end) => destruct x
    | |- err_clean (if ?x then _ else _) => destruct x
    | |- err_clean (_update_process _ _ _ _) => apply err_clean_update
    | |- err_clean (raise ?e) => apply err_clean_read, (read_only_pure (fun _ => Err e))
    | |- err_clean (mret ?a) => apply err_clean_read, (read_only_pure (fun _ => Ok a))
    | |- err_clean (lift_res ?x) => apply err_clean_read, (read_only_pure (fun _ => x))
    | |- err_clean (mbind _ (sql_transaction _)) => apply err_clean_then
    | |- err_clean (mbind _ _) => apply err_clean_bind; [|intros ?]
    | |- err_clean (sql_transaction _) => apply err_clean_tx
    | |- read_only (lift_res ?x) => apply (read_only_pure (fun _ => x))
    | |- read_only get_state => apply (read_only_pure (fun s => Ok s))
    | |- read_only (get_process _) => apply read_only_get_process
    end.

Lemma preserves_clean {A} (m : M Store A) :
  err_clean m → (∀ s s' r, store_inv s → m s = (s', Ok r) → store_le s s') → preserves m.
Proof.
  intros Hc Hm s s' [r|e] Hinv E; [by eapply Hm|].
  apply Hc in E as [t ->]. apply takeover_le.
Qed.

(** *** Combinators *)

Lemma preserves_pure {A} (f : Store → res A) : preserves (fun s => (s, f s)).
Proof. intros s s' r _ [= <- <-]. reflexivity. Qed.

Lemma preserves_bind {A B} (m : M Store A) (k : A → M Store B) :
  preserves m → (∀ a, preserves (k a)) → preserves (m ≫= k).
Proof.
  intros Hm Hk s s' r Hinv E. unfold mbind, M_bind in E.
  destruct (m s) as [s1 [a|e]] eqn:E1; [|simplify_eq; by eapply Hm].
  pose proof (Hm _ _ _ Hinv E1) as L. etrans; [done|].
  eapply Hk; [|done]. by apply (le_inv _ _ L).
Qed.

Lemma preserves_get_process p : preserves (get_process p).
Proof.
  intros s s' r _ E. unfold get_process in E.
  destruct (processes s !! p) as [row|]; [destruct (_row_to_process row)|]; simplify_eq; reflexivity.
Qed.

Lemma preserves_lift {A} (x : res A) : preserves (lift_res x).
Proof. apply (preserves_pure (fun _ => x)). Qed.
Lemma preserves_raise {A} e : preserves (raise (A := A) e).
Proof. apply (preserves_pure (fun _ => Err e)). Qed.
Lemma preserves_ret {A} (a : A) : preserves (mret (M := M Store) a).
Proof. apply (preserves_pure (fun _ => Ok a)). Qed.
Lemma preserves_get : preserves get_state.
Proof. apply (preserves_pure (fun s => Ok s)). Qed.

Lemma tx_preserves {A} (m : M Store A) :
  (∀ s s' r, store_inv s → m s = (s', Ok r) → store_le s s') → preserves (sql_transaction m).
Proof.
  intros Hm s s' [r|e] Hinv E.
  - rewrite sql_transaction_Ok in E. by eapply Hm.
  - apply sql_transaction_Err in E as [t ->]. apply takeover_le.
Qed.

Ltac preserve :=
  repeat lazymatch goal with
    | |- preserves (match ?x with _ => _ end) => destruct x
    | |- preserves (if ?x then _ else _) => destruct x
    | |- preserves (_update_process _ _ _ _) => apply update_preserves
    | |- preserves (lift_res _) => apply preserves_lift
    | |- preserves (raise _) => apply preserves_raise
    | |- preserves (mret _) => apply preserves_ret
    | |- preserves get_state => apply preserves_get
    | |- preserves (get_process _) => apply preserves_get_process
    | |- preserves (mbind _ _) => apply preserves_bind; [|intros ?]
    | |- preserves (sql_transaction _) => apply tx_preserves; intros ??? Hinv E
    end.

Lemma patch_preserves amb now p patch rev st b :
  preserves (_patch_process amb now p patch rev st b).
Proof. unfold _patch_process. preserve. Qed.

Lemma patch_process_preserves amb now p patch rev st :
  preserves (patch_process amb now p patch rev st).
Proof. unfold patch_process. preserve. apply patch_preserves. Qed.

Lemma patch_control_preserves amb now p patch rev allowed reason :
  preserves (patch_process_control amb now p patch rev allowed reason).
Proof. unfold patch_process_control. preserve. apply patch_process_preserves. Qed.

Lemma transition_preserves amb now p st rev est esg w o msg control allowed reason :
  preserves (apply_process_state_transition json_dumps amb now p st rev est esg w o msg control
               allowed reason).
Proof. unfold apply_process_state_transition. preserve; apply patch_preserves. Qed.

Lemma err_clean_transition amb now p st rev est esg w o msg control allowed reason :
  err_clean (apply_process_state_transition json_dumps amb now p st rev est esg w o msg control allowed reason).
Proof. unfold apply_process_state_transition, _patch_process. clean. Qed.

(** A row may be inserted with a lease only when it is RUNNING. *)
Lemma err_clean_patch amb now p patch rev st : err_clean (patch_process amb now p patch rev st).
Proof. unfold patch_process, _patch_process. clean. Qed.

Definition insertable (process : AgentProcess) : Prop :=
  (unleased process = true
   ∨ (status process = RUNNING ∧ is_Some (execution_owner_id process)
      ∧ is_Some (execution_lease_id process)))
  ∧ (0 <= execution_generation process)%Z.

Lemma insert_Ok now process s s' u :
  insert_process now process s = (s', Ok u) →
  processes s !! pid process = None
  ∧ _validate_process_state_write process None false = Ok tt
  ∧ s' = mkStore (<[pid process := process]> (processes s))
           (<[pid process := binding_rows process]> (tool_bindings s))
           (if is_terminal (status process)
            then with_intent (pid process) (status process) now (cleanups s) else cleanups s)
           (observed (pid process) (revision process) (execution_generation process)
              (Some (state_generation process)) (runtime_counters s))
           (runtime_publications s) (task_runs s) (takeover s).
Proof.
  unfold insert_process. rewrite sql_transaction_Ok. intros E.
  unfold _process_params in E. res_simpl.
  repeat match goal with u : () |- _ => destruct u end.
  rename select (_replace_process_tool_bindings _ _ _ _ = _) into Hb.
  apply bindings_run in Hb as [(? & ? & ?)|[_ ->]]; [done|].
  rewrite intent_run in *. res_simpl. rewrite observe_run in *. res_simpl.
  rename select (bool_decide (is_Some (processes _ !! _)) = false) into Hn.
  apply bool_decide_eq_false in Hn. rewrite <-eq_None_not_Some in Hn.
  split_and!; [done..|].
  destruct (is_terminal _); by match goal with s : Store |- _ => destruct s end.
Qed.

Lemma insert_preserves now process : insertable process → preserves (insert_process now process).
Proof.
  intros [Hl Hg] s s' [u|e] Hinv E.
  2:{ unfold insert_process in E. apply sql_transaction_Err in E as [t ->]. apply takeover_le. }
  apply insert_Ok in E as (Hn & Hv & ->).
  apply validate_write_Ok in Hv as (Hs & Hsg & _).
  eapply (core_le_finish [pid process]).
  - split; cbn [processes cleanups tool_bindings runtime_counters].
    + intros p row Hp. exists row. rewrite lookup_insert_ne by congruence. done.
    + intros p Hp Hnin. rewrite lookup_insert_ne; [done|set_solver].
    + intros Hside p row Hp. unfold side_ok; cbn [cleanups tool_bindings]. destruct (decide (p = pid process)) as [->|Hne].
      * rewrite lookup_insert_eq in Hp. simplify_eq. rewrite lookup_insert_eq.
        split_and!; [by split| |done]. intros Ht. rewrite Ht. apply with_intent_at.
      * rewrite lookup_insert_ne in Hp by done. rewrite lookup_insert_ne by done.
        destruct (Hside _ _ Hp) as (Hw & Ht & Hb). split_and!; [done| |done].
        intros Ht'. destruct (Ht Ht') as [c Hc].
        destruct (is_terminal (status process)); [|by rewrite Hc].
        erewrite with_intent_keeps; eauto.
    + apply observed_le.
  - intros p row Hp _. apply list_elem_of_singleton in Hp as ->. cbn.
    rewrite lookup_insert_eq. intros [= <-].
    by apply (observed_covers _ _ (Some (state_generation process))).
Qed.

(** *** Conditional updates of one row *)

Lemma update_where_run p clause set s s' r :
  update_where p clause set s = (s', r) →
  (r = Ok false ∧ s' = s)
  ∨ (r = Ok true ∧ ∃ row, processes s !! p = Some row ∧ clause s row = true
       ∧ s' = set_processes <[p := set row]> s).
Proof.
  unfold update_where. intros E. destruct (processes s !! p) as [row|] eqn:Hp;
    [destruct (clause s row) eqn:Hc|]; simplify_eq; eauto 10.
Qed.

(** An execution statement moves its row forward when it changes neither a
    terminal row nor the lease without a new generation. *)
Lemma exec_row_evolves row st msg w o sg now gen owner lease :
  (execution_generation row <= gen)%Z →
  (gen = execution_generation row → owner = None ∧ lease = None) →
  (is_terminal (status row) = true → st = status row) →
  (sg = (state_generation row + 1)%Z
   ∨ (sg = state_generation row ∧ st = status row ∧ o = outcome row)) →
  evolves row (exec_row row st msg w o sg now gen owner lease).
Proof.
  intros Hg Hl Ht Hs. split; cbn; try lia; try done.
  - intros E. left. apply unleased_spec. cbn. auto.
  - destruct Hs as [->|(-> & -> & ->)]; [lia|done].
Qed.

(** The write itself, together with its counters and cleanup intent. *)
Lemma exec_write_le s p row row' st now' intent obs t :
  processes s !! p = Some row →
  evolves row row' →
  (row_wf p row → row_wf p row') →
  binding_rows row' = binding_rows row →
  (is_terminal (status row') = true → intent = true ∨ is_terminal (status row) = true) →
  (obs = Some (state_generation row') ∨ (obs = None ∧ state_generation row' = state_generation row)) →
  store_le s (mkStore (<[p := row']> (processes s)) (tool_bindings s)
     (if intent : bool then with_intent p st now' (cleanups s) else cleanups s)
     (observed p (revision row') (execution_generation row') obs (runtime_counters s))
     (runtime_publications s) (task_runs s) t).
Proof.
  intros Hp Hev Hwf Hb Ht Hobs. eapply (core_le_finish [p]).
  - eapply write_core; [done|done|done| | | |by right|apply observed_le]; cbn.
    + intros [Hw _]. auto.
    + intros q [c Hq]. destruct intent; [|eauto]. eexists. by apply with_intent_keeps.
    + intros Hst. destruct (Ht Hst) as [->|?]; [left; apply with_intent_at|by right].
  - intros q r Hq Hinv. apply list_elem_of_singleton in Hq as ->. cbn.
    rewrite lookup_insert_eq. intros [= <-]. apply observed_covers.
    destruct Hobs as [->|[-> ->]]; [done|]. by apply (inv_counters _ Hinv) in Hp as (_ & _ & ?).
Qed.

Lemma running_shape_wf p row msg now gen owner lease st :
  row_wf p row → st = RUNNING → (execution_generation row <= gen)%Z →
  row_wf p (exec_row row st msg None None (state_generation row + 1) now gen
              (Some owner) (Some lease)).
Proof.
  intros [] -> Hg. split; cbn; [done|constructor; set_solver|right; eauto|lia|lia].
Qed.

Lemma set_counters_processes f g s :
  set_counters f (set_processes g s)
  = mkStore (g (processes s)) (tool_bindings s) (cleanups s) (f (runtime_counters s))
      (runtime_publications s) (task_runs s) (takeover s).
Proof. done. Qed.

(** The store after a claim, whichever statement made it. *)
Lemma claim_write_le s p row st msg now gen owner lease rev sg t :
  processes s !! p = Some row →
  (status row = RUNNABLE ∨ status row = RUNNING) → st = RUNNING →
  gen = (execution_generation row + 1)%Z → rev = (revision row + 1)%Z →
  sg = (state_generation row + 1)%Z →
  store_le s (mkStore
     (<[p := exec_row row st msg None None (state_generation row + 1) now gen
               (Some owner) (Some lease)]> (processes s))
     (tool_bindings s) (cleanups s) (observed p rev gen (Some sg) (runtime_counters s))
     (runtime_publications s) (task_runs s) t).
Proof.
  intros Hp Hst -> -> -> ->.
  set (row' := exec_row _ _ _ _ _ _ _ _ _ _).
  apply (exec_write_le s p row row' RUNNING now false (Some (state_generation row'))); [done| | |done| |by left].
  - apply exec_row_evolves; [lia|lia| |by left]. by destruct Hst as [->| ->].
  - intros Hw. apply running_shape_wf; [done|done|lia].
  - done.
Qed.

(** The selected row of a claim. *)
Ltac start_tx E :=
  apply M_bind_Ok in E as (? & ? & E0 & E); unfold get_state in E0; injection E0 as <- <-.
Ltac run_update E Hp Hc :=
  apply M_bind_Ok in E as (? & ? & Hu & E);
  apply update_where_run in Hu as [[[= ->] ->]|([= ->] & ?row & Hp & Hc & ->)]; cbn [negb] in E;
  [res_simpl|].

Lemma claim_run now lease p owner epoch s s' r :
  claim_execution now lease p owner epoch s = (s', Ok r) →
  (r = None ∧ s' = s)
  ∨ ∃ row, processes s !! p = Some row ∧ status row = RUNNABLE
    ∧ r = Some {| tok_pid := p; tok_generation := execution_generation row + 1;
                 tok_owner_id := owner; tok_lease_id := lease;
                 tok_task_run_epoch := task_run_epoch row |}
    ∧ epoch_clause epoch row = true ∧ task_run_admits now s row = true ∧ owner ≠ ""
    ∧ s' = mkStore
        (<[p := exec_row row RUNNING None None None (state_generation row + 1) now
                  (execution_generation row + 1) (Some owner) (Some lease)]> (processes s))
        (tool_bindings s) (cleanups s)
        (observed p (revision row + 1) (execution_generation row + 1)
           (Some (state_generation row + 1)%Z) (runtime_counters s))
        (runtime_publications s) (task_runs s) (takeover s).
Proof.
  unfold claim_execution. intros E. res_simpl. rewrite sql_transaction_Ok in E.
  rename select (String.eqb owner _ = false) into Ho. apply String.eqb_neq in Ho.
  start_tx E.
  match type of E with context [processes ?x !! p] => destruct (processes x !! p) as [row|] eqn:Hp end;
    [|res_simpl; auto].
  destruct (negb (bool_decide (status row = RUNNABLE))) eqn:Hst; [res_simpl; auto|].
  apply negb_false_iff, bool_decide_eq_true in Hst.
  run_update E Hp' Hc; [auto|]. rewrite Hp in Hp'. res_simpl. rewrite observe_run in *. res_simpl.
  right. eexists. by split_and!.
Qed.

Lemma claim_clean now lease p owner epoch : err_clean (claim_execution now lease p owner epoch).
Proof. unfold claim_execution. clean. Qed.

Lemma claim_preserves now lease p owner epoch : preserves (claim_execution now lease p owner epoch).
Proof.
  apply preserves_clean; [apply claim_clean|]. intros s s' r Hinv E.
  apply claim_run in E as [[_ ->]|(row & Hp & Hst & _ & _ & _ & _ & ->)]; [reflexivity|].
  by eapply claim_write_le; eauto.
Qed.

Lemma claim_runnable_preserves now lease p : preserves (claim_runnable_process now lease p).
Proof. unfold claim_runnable_process. preserve. apply claim_preserves. Qed.

Ltac split_clause :=
  repeat match goal with
    | X : _ && _ = true |- _ => apply andb_true_iff in X as [? ?]
    | X : bool_decide _ = true |- _ => apply bool_decide_eq_true in X
    | X : (_ =? _)%Z = true |- _ => apply Z.eqb_eq in X
    end.

Lemma host_claim_preserves now now' lease p owner rev sg gen epoch :
  preserves (claim_host_process_exec now now' lease p owner rev sg gen epoch).
Proof.
  apply preserves_clean; [unfold claim_host_process_exec; clean|]. intros s s' r Hinv E.
  unfold claim_host_process_exec in E. res_simpl. rewrite sql_transaction_Ok in E.
  run_update E Hp Hc; [reflexivity|].
  res_simpl. rewrite observe_run in *. res_simpl. split_clause.
  rewrite set_counters_processes. subst. eapply claim_write_le; eauto with lia.
Qed.

Lemma worker_claim_preserves now now' lease p token owner rev sg epoch :
  preserves (claim_worker_process_exec now now' lease p token owner rev sg epoch).
Proof.
  apply preserves_clean; [unfold claim_worker_process_exec; clean|]. intros s s' r Hinv E.
  unfold claim_worker_process_exec in E. res_simpl. rewrite sql_transaction_Ok in E.
  run_update E Hp Hc; [reflexivity|].
  res_simpl. rewrite observe_run in *. res_simpl. split_clause.
  rewrite set_counters_processes. subst. eapply claim_write_le; eauto with lia.
Qed.

(** The row a completion or release wrote, read back for its counters. *)
Lemma complete_run now now' token st msg w o s s' b :
  complete_execution json_dumps now now' token st msg w o s = (s', Ok b) →
  state_shape st w o ∧ is_stale_execution_wait w = false ∧
  ((b = false ∧ s' = s)
   ∨ (b = true ∧ ∃ row, processes s !! tok_pid token = Some row
        ∧ status row = RUNNING ∧ names_lease token row = true
        ∧ let gen := (execution_generation row + if is_terminal st then 1 else 0)%Z in
          s' = mkStore
            (<[tok_pid token := exec_row row st (legacy_status_message json_dumps w o msg) w o
                 (state_generation row + 1) now gen None None]> (processes s))
            (tool_bindings s)
            (if is_terminal st then with_intent (tok_pid token) st now' (cleanups s) else cleanups s)
            (observed (tok_pid token) (revision row + 1) gen (Some (state_generation row + 1)%Z)
               (runtime_counters s))
            (runtime_publications s) (task_runs s) (takeover s))).
Proof.
  unfold complete_execution. intros E. res_simpl. rewrite sql_transaction_Ok in E.
  match goal with X : validate_process_state_fields _ _ _ = Ok ?u |- _ =>
    destruct u; apply validate_fields_shape in X end. split; [done|]. split; [done|].
  run_update E Hp Hc; [by left|]. res_simpl. rewrite intent_run in *. res_simpl.
  right. destruct (is_terminal st); cbn in E; rewrite lookup_insert_eq in E; res_simpl;
    rewrite observe_run in *; res_simpl; split_clause; (split; [done|]);
    eexists; by split_and!.
Qed.

Lemma complete_preserves now now' token st msg w o :
  preserves (complete_execution json_dumps now now' token st msg w o).
Proof.
  apply preserves_clean; [unfold complete_execution; clean|]. intros s s' b Hinv E.
  apply complete_run in E as (Hsh & _ & [[_ ->]|(_ & row & Hp & Hr & _ & ->)]); [reflexivity|].
  set (row' := exec_row _ _ _ _ _ _ _ _ _ _).
  apply (exec_write_le s (tok_pid token) row row' st now' (is_terminal st)
           (Some (state_generation row'))); [done| | |done|by left|by left].
  - apply exec_row_evolves; [by destruct (is_terminal st); lia|done| |by left]. by rewrite Hr.
  - intros []. split; cbn; [done|done|by left|lia|destruct (is_terminal st); lia].
Qed.

Lemma release_run now token s s' b :
  release_execution now token s = (s', Ok b) →
  (b = false ∧ s' = s)
  ∨ (b = true ∧ ∃ row, processes s !! tok_pid token = Some row ∧ names_lease token row = true
       ∧ s' = mkStore
           (<[tok_pid token := exec_row row (status row) (status_message row) (wait_state row)
                (outcome row) (state_generation row) now (execution_generation row + 1) None None]>
              (processes s))
           (tool_bindings s) (cleanups s)
           (observed (tok_pid token) (revision row + 1) (execution_generation row + 1) None
              (runtime_counters s))
           (runtime_publications s) (task_runs s) (takeover s)).
Proof.
  unfold release_execution. rewrite sql_transaction_Ok. intros E.
  run_update E Hp Hc; [by left|]. right. start_tx E. cbn [processes set_processes] in E.
  rewrite lookup_insert_eq in E. res_simpl. rewrite observe_run in *. res_simpl.
  split; [done|]. eexists. by split_and!.
Qed.

Lemma release_preserves now token : preserves (release_execution now token).
Proof.
  apply preserves_clean; [unfold release_execution; clean|]. intros s s' b Hinv E.
  apply release_run in E as [[_ ->]|(_ & row & Hp & _ & ->)]; [reflexivity|].
  set (row' := exec_row _ _ _ _ _ _ _ _ _ _).
  apply (exec_write_le s (tok_pid token) row row' (status row) now false None);
    [done| | |done|by right|by right].
  - apply exec_row_evolves; [lia|done|done|by right].
  - intros []. split; cbn; [done|done|by left|lia|lia].
Qed.

(** *** Stale recovery *)

Lemma mk_stale_shape a b c d e f g w :
  mk_StaleExecutionProcessWait a b c d e f g = Ok w → state_shape PAUSED (Some w) None.
Proof. unfold mk_StaleExecutionProcessWait. intros E. res_simpl. constructor. Qed.

(** The recovered row: paused with its receipt, unleased, fenced by a new
    execution generation. *)
Definition recovered_row (row : AgentProcess) (w : ProcessWaitState) (now : string) : AgentProcess :=
  exec_row row PAUSED (legacy_status_message json_dumps (Some w) None None)
    (Some w) None (state_generation row + 1) now (execution_generation row + 1) None None.

Lemma recover_one_run p row owner by_ now s s' r :
  _recover_one_stale_execution json_dumps sha256_hex p row owner by_ now s = (s', Ok r) →
  (r = None ∧ s' = s)
  ∨ (r = Some p ∧ ∃ cur w, processes s !! p = Some cur ∧ stale_row owner cur = true
       ∧ state_shape PAUSED (Some w) None
       ∧ s' = set_processes <[p := recovered_row cur w now]> s).
Proof.
  unfold _recover_one_stale_execution. intros E. res_simpl.
  match goal with X : mk_StaleExecutionProcessWait _ _ _ _ _ _ _ = _ |- _ => apply mk_stale_shape in X end.
  rename select (update_where _ _ _ _ = _) into Hu.
  apply update_where_run in Hu as [[[= ->] ->]|([= ->] & row' & Hp & Hc & ->)]; [by left|].
  res_simpl. right. split; [done|]. eexists _, _. split_and!; [done| |done|done].
  unfold stale_row. by apply andb_true_iff.
Qed.

Lemma recovered_core s p row w now :
  processes s !! p = Some row → status row = RUNNING → state_shape PAUSED (Some w) None →
  core_le [p] s (set_processes <[p := recovered_row row w now]> s).
Proof.
  intros Hp Hr Hw. eapply write_core; [done|done| | |done|done|by right|reflexivity].
  - apply exec_row_evolves; [lia|done| |by left]. by rewrite Hr.
  - intros [[] _]. split; cbn; [done|done|by left|lia|lia].
Qed.

Lemma recover_rows_core rows owner now s s' pids :
  recover_rows json_dumps sha256_hex rows owner now s = (s', Ok pids) →
  core_le pids s s' ∧ runtime_counters s' = runtime_counters s.
Proof.
  revert s s' pids. induction rows as [|[p row] rows IH]; intros s s' pids E; cbn in E.
  - res_simpl. split; [apply core_le_refl|done].
  - apply M_bind_Ok in E as (r & s1 & E1 & E). apply M_bind_Ok in E as (tl & s2 & E2 & E).
    apply IH in E2 as [Hc Hcnt]. res_simpl.
    apply recover_one_run in E1 as [[-> ->]|(-> & cur & w & Hp & Hst & Hw & ->)]; [done|].
    split; [|done]. eapply core_le_trans.
    + eapply core_le_weaken; [|apply recovered_core; [done| |done]]; [set_solver|].
      unfold stale_row in Hst. by apply andb_true_iff in Hst as [?%bool_decide_eq_true _].
    + eapply core_le_weaken; [|done]. set_solver.
Qed.

Lemma observe_rows_run pids s s' u :
  observe_rows pids s = (s', u) →
  u = Ok tt ∧ ∃ c, s' = set_counters (fun _ => c) s ∧ counters_le (runtime_counters s) c
    ∧ ∀ p row, p ∈ pids → processes s !! p = Some row → counter_covers c p row.
Proof.
  revert s. induction pids as [|q pids IH]; intros s E; cbn in E.
  - injection E as <- <-. split; [done|]. exists (runtime_counters s).
    split_and!; [by destruct s|reflexivity|set_solver].
  - unfold mbind at 1, M_bind at 1, get_state in E. cbn in E.
    destruct (processes s !! q) as [rowq|] eqn:Hq.
    + unfold mbind at 1, M_bind at 1 in E. rewrite observe_run in E.
      apply IH in E as (-> & c & -> & Hle & Hcov). split; [done|]. exists c.
      split_and!; [done|etrans; [|exact Hle]; apply observed_le|].
      intros p row [->|Hin]%elem_of_cons Hp; [|by apply Hcov]. simplify_eq.
      eapply counter_covers_le; [exact Hle|].
      by eapply (observed_covers q _ (Some _)).
    + unfold mbind at 1, M_bind at 1, mret, M_ret in E.
      apply IH in E as (-> & c & -> & Hle & Hcov). split; [done|]. exists c.
      split_and!; [done|done|]. intros p row [->|Hin]%elem_of_cons Hp; [congruence|by apply Hcov].
Qed.

Lemma recover_page_preserves owner now cb n after :
  preserves (recover_page json_dumps sha256_hex owner now cb n after).
Proof.
  unfold recover_page. apply tx_preserves. intros s s' r Hinv E.
  start_tx E. destruct (list.last (stale_page s owner after n)) as [[lp lrow]|]; [|res_simpl; reflexivity].
  apply M_bind_Ok in E as (pids & s1 & E1 & E). apply recover_rows_core in E1 as [Hc Hcnt].
  destruct pids as [|p0 pids].
  - res_simpl. eapply core_le_finish; [done|set_solver].
  - apply M_bind_Ok in E as ([] & s2 & E2 & E).
    apply observe_rows_run in E2 as (_ & c & -> & Hle & Hcov). res_simpl.
    apply (core_le_finish (p0 :: pids)).
    + eapply core_le_trans; [exact Hc|]. split; try done. intros p row ?. by exists row.
    + intros p row Hin _ Hp. by apply Hcov.
Qed.

Lemma recover_loop_preserves fuel owner now cb n after total sample :
  preserves (recover_loop json_dumps sha256_hex fuel owner now cb n after total sample).
Proof.
  revert after total sample. induction fuel as [|fuel IH]; intros after total sample; cbn;
    [apply preserves_raise|].
  apply preserves_bind; [apply recover_page_preserves|].
  intros [[lp pids]|]; [apply IH|apply preserves_ret].
Qed.

Lemma recover_preserves fuel owner now lease cb n :
  preserves (recover_stale_executions json_dumps sha256_hex fuel owner now lease cb n).
Proof. unfold recover_stale_executions. preserve. apply recover_loop_preserves. Qed.

(** ** Histories of operations *)

(** Every write to the process table, by any caller under any ambient
    scopes.  [OpTakeover] enters or leaves a takeover scope, and
    [OpEnvironment] stands for the writes of other components to the tables
    the fences read. *)
Inductive process_op : Type :=
| OpInsert (now : string) (process : AgentProcess)
| OpUpdate (amb : Ambient) (now : string) (process : AgentProcess)
| OpPatch (amb : Ambient) (now p : string) (patch : list PatchItem) (rev : Z)
    (st : option ProcessStatus)
| OpPatchControl (amb : Ambient) (now p : string) (patch : list PatchItem) (rev : Z)
    (allowed : list ProcessStatus) (reason : string)
| OpTransition (amb : Ambient) (now p : string) (st : ProcessStatus) (rev : Z)
    (est : option ProcessStatus) (esg : option Z) (w : option ProcessWaitState)
    (o : option ProcessOutcome) (msg : option string) (control : bool)
    (allowed : option (list ProcessStatus)) (reason : option string)
| OpClaim (now lease p owner : string) (epoch : option Z)
| OpHostClaim (now now' lease p owner : string) (rev sg gen : Z) (epoch : option Z)
| OpWorkerClaim (now now' lease p : string) (token : ProcessExecutionToken) (owner : string)
    (rev sg : Z) (epoch : option Z)
| OpComplete (now now' : string) (token : ProcessExecutionToken) (st : ProcessStatus)
    (msg : option string) (w : option ProcessWaitState) (o : option ProcessOutcome)
| OpRelease (now : string) (token : ProcessExecutionToken)
| OpRecover (fuel : nat) (owner : string) (now : nat → string) (lease : res unit)
    (on_recovered : string → res unit) (page_size : nat)
| OpTakeover (t : option ProcessExecutionTakeoverIntent)
| OpEnvironment (pubs : list Publication) (runs : gmap string TaskRunRow).

Definition run_op (o : process_op) (s : Store) : Store :=
  match o with
  | OpInsert now process => fst (insert_process now process s)
  | OpUpdate amb now process => fst (update_process amb now process s)
  | OpPatch amb now p patch rev st => fst (patch_process amb now p patch rev st s)
  | OpPatchControl amb now p patch rev allowed reason =>
      fst (patch_process_control amb now p patch rev allowed reason s)
  | OpTransition amb now p st rev est esg w o msg control allowed reason =>
      fst (apply_process_state_transition json_dumps amb now p st rev est esg w o msg control
             allowed reason s)
  | OpClaim now lease p owner epoch => fst (claim_execution now lease p owner epoch s)
  | OpHostClaim now now' lease p owner rev sg gen epoch =>
      fst (claim_host_process_exec now now' lease p owner rev sg gen epoch s)
  | OpWorkerClaim now now' lease p token owner rev sg epoch =>
      fst (claim_worker_process_exec now now' lease p token owner rev sg epoch s)
  | OpComplete now now' token st msg w o =>
      fst (complete_execution json_dumps now now' token st msg w o s)
  | OpRelease now token => fst (release_execution now token s)
  | OpRecover fuel owner now lease cb n =>
      fst (recover_stale_executions json_dumps sha256_hex fuel owner now lease cb n s)
  | OpTakeover t => set_takeover t s
  | OpEnvironment pubs runs =>
      mkStore (processes s) (tool_bindings s) (cleanups s) (runtime_counters s) pubs runs (takeover s)
  end.

Definition op_ok (o : process_op) : Prop :=
  match o with OpInsert _ process => insertable process | _ => True end.

Definition run_ops (ops : list process_op) (s : Store) : Store := foldl (fun s o => run_op o s) s ops.

Lemma preserves_fst {A} (m : M Store A) s : preserves m → store_inv s → store_le s (fst (m s)).
Proof. intros Hm Hinv. destruct (m s) as [s' r] eqn:E. by eapply Hm. Qed.

Lemma run_op_le o s : op_ok o → store_inv s → store_le s (run_op o s).
Proof.
  intros Hok Hinv. destruct o; cbn [run_op];
    try (apply preserves_fst; [|done]).
  - by apply insert_preserves.
  - apply update_preserves.
  - apply patch_process_preserves.
  - apply patch_control_preserves.
  - apply transition_preserves.
  - apply claim_preserves.
  - apply host_claim_preserves.
  - apply worker_claim_preserves.
  - apply complete_preserves.
  - apply release_preserves.
  - apply recover_preserves.
  - apply takeover_le.
  - split; [by intros []; split|]. intros p row ?. by exists row.
Qed.

Lemma run_ops_le ops s : Forall op_ok ops → store_inv s → store_le s (run_ops ops s).
Proof.
  intros Hok. revert s. induction Hok as [|o ops Ho _ IH]; intros s Hinv; [reflexivity|].
  pose proof (run_op_le o s Ho Hinv) as L. etrans; [exact L|]. apply IH, L, Hinv.
Qed.

Lemma empty_inv pubs runs t : store_inv (mkStore ∅ ∅ ∅ ∅ pubs runs t).
Proof. split; cbn; intros p row Hp; by rewrite lookup_empty in Hp. Qed.

(** (C1) Whatever sequence of process operations runs, by any callers under
    any scopes and tokens and whether each of them returns or raises, the
    store invariant holds: every row has a legal status, wait and outcome
    product; only a RUNNING row carries an execution lease; every terminal
    row has its cleanup receipt; the tool-binding projection is exactly the
    row's tool tables; and the durable counters are at or above the row's
    revision and generations. *)
Theorem process_store_invariant ops pubs runs t :
  Forall op_ok ops → store_inv (run_ops ops (mkStore ∅ ∅ ∅ ∅ pubs runs t)).
Proof.
  intros Hok. pose proof (empty_inv pubs runs t) as H0.
  by apply (le_inv _ _ (run_ops_le ops _ Hok H0)).
Qed.

(** (C25) Rows only move forward: no operation of the model loses a row, and
    either it is unchanged or its revision has grown; a terminal status is
    never left; status and outcome change only with a new state generation;
    within one execution generation a lease can only be dropped, and another
    lease needs a new generation.  Deleting process rows is not an operation of
    the model. *)
Theorem process_rows_evolve ops s p row :
  Forall op_ok ops → store_inv s → processes s !! p = Some row →
  ∃ row', processes (run_ops ops s) !! p = Some row' ∧ row_le row row'.
Proof. intros Hok Hinv. by apply run_ops_le. Qed.

(** ** A lost lease is lost for good *)

(** The row has moved past the token's lease. *)
Definition dead_token (token : ProcessExecutionToken) (row : AgentProcess) : Prop :=
  (tok_generation token < execution_generation row)%Z
  ∨ (execution_generation row = tok_generation token ∧ unleased row = true).

Lemma names_lease_spec token row :
  names_lease token row = true ↔
    execution_generation row = tok_generation token
    ∧ execution_owner_id row = Some (tok_owner_id token)
    ∧ execution_lease_id row = Some (tok_lease_id token)
    ∧ task_run_epoch row = tok_task_run_epoch token.
Proof.
  unfold names_lease. rewrite !andb_true_iff, Z.eqb_eq, !bool_decide_eq_true. tauto.
Qed.

Lemma dead_not_named token row : dead_token token row → names_lease token row = false.
Proof.
  intros Hd. apply not_true_iff_false. rewrite names_lease_spec. intros (Hg & Ho & _).
  destruct Hd as [?|[_ [Hn _]%unleased_spec]]; [lia|congruence].
Qed.

Lemma dead_not_held token row : dead_token token row → holds_lease token row = false.
Proof.
  intros Hd. apply not_true_iff_false. unfold holds_lease.
  rewrite !andb_true_iff, Z.eqb_eq, !bool_decide_eq_true. intros [[[_ Hg] Ho] _].
  destruct Hd as [?|[_ [Hn _]%unleased_spec]]; [lia|congruence].
Qed.

Lemma dead_forever token row row' : dead_token token row → row_le row row' → dead_token token row'.
Proof.
  intros Hd [->|Hev]; [done|]. pose proof (ev_exec_gen _ _ Hev).
  destruct Hd as [Hlt|[Hg Hu]]; [left; lia|].
  destruct (decide (execution_generation row' = execution_generation row)) as [E|E];
    [|left; lia]. right. split; [lia|].
  destruct (ev_lease _ _ Hev E) as [?|[Ho Hl]]; [done|].
  revert Hu. unfold unleased. by rewrite Ho, Hl.
Qed.

Lemma lost_is_dead token row row' :
  names_lease token row = true → row_le row row' → names_lease token row' = false →
  dead_token token row'.
Proof.
  intros Hn [->|Hev] Hl; [congruence|]. apply names_lease_spec in Hn as (Hg & Ho & Hle & Ht).
  pose proof (ev_exec_gen _ _ Hev).
  destruct (decide (execution_generation row' = execution_generation row)) as [E|E];
    [|left; lia]. right. split; [lia|].
  destruct (ev_lease _ _ Hev E) as [?|[Ho' Hl']]; [done|]. exfalso.
  revert Hl. rewrite <-not_true_iff_false, names_lease_spec. intros Hl. apply Hl.
  destruct (ev_run _ _ Hev) as (_ & Ht' & _). split_and!; congruence.
Qed.

(** The scope of an ordinary worker: its token, and none of the trusted
    scopes. *)
Definition worker_scope (token : ProcessExecutionToken) (amb : Ambient) : Prop :=
  cur_execution amb = Some token ∧ cur_terminal_mutation amb = None
  ∧ cur_post_exec_mutation amb = None.

Lemma dead_worker_rejected token amb now process b s row :
  store_inv s → processes s !! tok_pid token = Some row → dead_token token row →
  worker_scope token amb → pid process = tok_pid token →
  ∃ e, snd (_update_process amb now process b s) = Err e
       ∧ processes (fst (_update_process amb now process b s)) = processes s.
Proof.
  intros Hinv Hp Hd (Ht & Htm & Hpm) Hpid.
  destruct (_update_process amb now process b s) as [s' [r|e]] eqn:E; cbn [fst snd].
  - exfalso. apply update_Ok in E as (cur & gen & owner & lease & t & Hc & Hf & _).
    rewrite Hpid, Hp in Hc. injection Hc as <-.
    destruct (is_terminal (status row)) eqn:Et.
    + apply (fc_takeover_terminal _ _ _ _ _ _ Hf) in Et. rewrite Htm in Et. by destruct Et.
    + apply dead_not_held in Hd. pose proof (fc_worker _ _ _ _ _ _ Hf _ Ht) as Hw.
      rewrite Hw in Hd by done. discriminate Hd.
  - apply update_Err in E as [t ->]. eauto.
Qed.

(** A token the row has moved past rotates no lease for an exec. *)
Lemma dead_worker_claims_nothing token now now' lease p owner rev sg epoch s row :
  processes s !! tok_pid token = Some row → dead_token token row →
  ∀ token', snd (claim_worker_process_exec now now' lease p token owner rev sg epoch s) ≠ Ok (Some token').
Proof.
  intros Hp Hd token' E. destruct (claim_worker_process_exec now now' lease p token owner rev sg epoch s) as [s' r] eqn:E1.
  cbn in E. subst r. unfold claim_worker_process_exec in E1. res_simpl. rewrite sql_transaction_Ok in E1.
  assert (tok_pid token = p) as <- by (by apply String.eqb_eq).
  run_update E1 Hq Hc. res_simpl. split_clause.
  destruct Hd as [?|[_ [Hn _]%unleased_spec]]; [lia|congruence].
Qed.

(** A write of the token's own process, under whatever trusted scopes: it
    raises and leaves the rows alone, or it runs under a post-exec scope, or
    under a terminal scope on a row that has ended, which keeps its status.
    The lease does not come back. *)
Definition fenced_write (token : ProcessExecutionToken) (amb : Ambient) (s : Store) (run : Store * res AgentProcess) : Prop :=
  match run with
  | (s', Err _) => processes s' = processes s
  | (s', Ok _) => ∃ row row', processes s !! tok_pid token = Some row ∧ processes s' !! tok_pid token = Some row'
      ∧ names_lease token row' = false
      ∧ (is_Some (cur_post_exec_mutation amb)
         ∨ is_Some (cur_terminal_mutation amb) ∧ is_terminal (status row) = true ∧ status row' = status row)
  end.

Lemma dead_writes_fenced token amb now process b s row :
  store_inv s → processes s !! tok_pid token = Some row → dead_token token row →
  cur_execution amb = Some token → pid process = tok_pid token →
  fenced_write token amb s (_update_process amb now process b s).
Proof.
  intros Hinv Hp Hd Ht Hpid. destruct (_update_process amb now process b s) as [s' [r|e]] eqn:E; cbn [fenced_write].
  2: { by apply update_Err in E as [t ->]. }
  destruct (update_preserves amb now process b s s' (Ok r) Hinv E) as [_ Hrows].
  destruct (Hrows _ _ Hp) as (row' & Hp' & Hle). exists row, row'. split_and!; [done|done|by eapply dead_not_named, dead_forever|].
  apply update_Ok in E as (cur & gen & owner & lease & t & Hc & Hf & _). rewrite Hpid, Hp in Hc. injection Hc as <-.
  destruct (is_terminal (status row)) eqn:Et.
  - right. split; [by eapply fc_takeover_terminal|]. split; [done|].
    destruct Hle as [->|Hev]; [done|]. by apply (ev_terminal _ _ Hev).
  - left. destruct (cur_post_exec_mutation amb) eqn:Epm; [done|]. apply dead_not_held in Hd.
    pose proof (fc_worker _ _ _ _ _ _ Hf _ Ht) as Hw. rewrite Hw in Hd by done. discriminate Hd.
Qed.

(** (C26) Once a worker's lease has been lost, whether by completion,
    release, stale recovery, a takeover or any other sequence of operations,
    its token is fenced for good, whatever happens in between.  Outside the
    trusted scopes it never writes the process row again; under them a write
    that returns runs under a post-exec scope, or under a terminal-mutation
    scope on a row that has ended and keeps its status (the way a killed worker
    still appends its usage), and never brings the lease back.  The token
    completes, releases and rotates for an exec nothing any more. *)
Theorem lost_lease_is_fenced token ops1 ops2 s row row1 :
  store_inv s → Forall op_ok ops1 → Forall op_ok ops2 →
  processes s !! tok_pid token = Some row → names_lease token row = true →
  processes (run_ops ops1 s) !! tok_pid token = Some row1 → names_lease token row1 = false →
  let s2 := run_ops ops2 (run_ops ops1 s) in
  (∀ amb now process b, worker_scope token amb → pid process = tok_pid token →
     ∃ e, snd (_update_process amb now process b s2) = Err e
          ∧ processes (fst (_update_process amb now process b s2)) = processes s2)
  ∧ (∀ amb now process b, cur_execution amb = Some token → pid process = tok_pid token →
       fenced_write token amb s2 (_update_process amb now process b s2))
  ∧ (∀ now now' st msg w o, snd (complete_execution json_dumps now now' token st msg w o s2) ≠ Ok true)
  ∧ (∀ now, snd (release_execution now token s2) ≠ Ok true)
  ∧ (∀ now now' lease p owner rev sg epoch token',
       snd (claim_worker_process_exec now now' lease p token owner rev sg epoch s2) ≠ Ok (Some token')).
Proof.
  intros Hinv H1 H2 Hp Hn Hp1 Hn1 s2.
  pose proof (run_ops_le ops1 s H1 Hinv) as [Hi1 Hr1].
  destruct (Hr1 _ _ Hp) as (r1 & Hr & L1). simplify_eq.
  pose proof (lost_is_dead _ _ _ Hn L1 Hn1) as Hd.
  pose proof (run_ops_le ops2 _ H2 (Hi1 Hinv)) as [Hi2 Hr2]. fold s2 in Hi2, Hr2.
  destruct (Hr2 _ _ Hp1) as (r2 & Hp2 & L2).
  pose proof (dead_forever _ _ _ Hd L2) as Hd2. split_and!.
  - intros amb now process b. by apply (dead_worker_rejected _ _ _ _ _ _ _ (Hi2 (Hi1 Hinv)) Hp2).
  - intros amb now process b. by apply (dead_writes_fenced _ _ _ _ _ _ _ (Hi2 (Hi1 Hinv)) Hp2).
  - intros now now' st msg w o E.
    destruct (complete_execution _ _ _ _ _ _ _ _ s2) as [s3 r] eqn:E3. cbn in E. subst.
    apply complete_run in E3 as (_ & _ & [[? _]|(_ & r3 & Hp3 & _ & Hn3 & _)]); [done|].
    simplify_eq. apply dead_not_named in Hd2. congruence.
  - intros now E. destruct (release_execution now token s2) as [s3 r] eqn:E3. cbn in E. subst.
    apply release_run in E3 as [[? _]|(_ & r3 & Hp3 & Hn3 & _)]; [done|].
    simplify_eq. apply dead_not_named in Hd2. congruence.
  - intros now now' lease p owner rev sg epoch. by apply (dead_worker_claims_nothing _ _ _ _ _ _ _ _ _ _ _ Hp2).
Qed.
End Steps.

(** ** Concrete instances *)

(** Evidence that never grants a completion or takeover step. *)
Definition no_evidence : ExecEvidence := {|
  post_exec_completion_check _ _ _ _ _ _ := Err (conflict "post-exec completion fence conflict");
  record_takeover_reason_capability _ _ _ _ := None;
  record_takeover_reason_root _ _ _ _ := None |}.

Definition demo_process (p : string) (st : ProcessStatus) : AgentProcess :=
  {| pid := p; parent_pid := None; image_id := "image"; status := st; goal_oid := None;
     memory_view := None; capabilities := []; loaded_skills := [];
     tool_table := [("echo", "tool_1")]; event_cursor := None; checkpoint_head := None;
     resource_budget := mk_budget (fun _ => None) (NInt 8000); resource_usage := usage_zero;
     created_at := "t0"; updated_at := "t0"; working_directory := "."; status_message := None;
     wait_state := None; outcome := None; state_generation := 0; llm_profile_id := "default";
     model_tool_table := []; revision := 0; execution_generation := 0;
     execution_owner_id := None; execution_lease_id := None; task_run_id := None;
     task_run_epoch := None; task_run_role := None |}.

Definition demo_hash (s : string) : string :=
  "0000000000000000000000000000000000000000000000000000000000000000".
Definition demo_dumps (f : list (string * json)) : string := "{}".

Definition empty_store : Store := mkStore ∅ ∅ ∅ ∅ [] ∅ None.

(** A process is inserted and claimed. *)
Definition claimed_ops : list process_op :=
  [OpInsert "t0" (demo_process "p1" RUNNABLE); OpInsert "t0" (demo_process "p2" RUNNABLE);
   OpClaim "t1" "lease_1" "p1" "worker_1" None].

Definition demo_token : ProcessExecutionToken :=
  {| tok_pid := "p1"; tok_generation := 1; tok_owner_id := "worker_1"; tok_lease_id := "lease_1";
     tok_task_run_epoch := None |}.

Definition claimed_store : Store :=
  run_ops (H := no_evidence) demo_dumps demo_hash claimed_ops empty_store.

Lemma claimed_ops_ok : Forall op_ok claimed_ops.
Proof.
  repeat constructor; cbn; try lia; by left.
Qed.

Lemma claimed_inv : store_inv claimed_store.
Proof. apply run_ops_le; [apply claimed_ops_ok|apply empty_inv..]. Qed.

Lemma process_store_invariant_witness :
  Forall op_ok claimed_ops ∧ store_inv claimed_store.
Proof.
  split; [apply claimed_ops_ok|].
  apply (process_store_invariant (H := no_evidence) demo_dumps demo_hash claimed_ops [] ∅ None claimed_ops_ok).
Defined.

Definition demo_release : list (process_op) := [OpRelease "t2" demo_token].

Lemma process_rows_evolve_witness :
  ∃ row row', processes claimed_store !! "p1" = Some row
    ∧ processes (run_ops (H := no_evidence) demo_dumps demo_hash demo_release claimed_store) !! "p1" = Some row'
    ∧ row_le row row' ∧ row' ≠ row.
Proof.
  destruct (processes claimed_store !! "p1") as [row|] eqn:E; [|vm_compute in E; discriminate E].
  destruct (process_rows_evolve (H := no_evidence) demo_dumps demo_hash demo_release claimed_store "p1" row)
    as (row' & H1 & H2); [by repeat constructor|apply claimed_inv|done|].
  exists row, row'. split_and!; [done..|]. intros ->.
  apply (f_equal (fun o => option_map revision o)) in E, H1. vm_compute in E, H1. congruence.
Defined.

Definition demo_recover : list process_op :=
  [OpRecover 4 "runtime_2" (fun _ => "t3") (Ok tt) (fun _ => Ok tt) 10].

Definition recovered_store : Store :=
  run_ops (H := no_evidence) demo_dumps demo_hash demo_recover claimed_store.

Lemma lost_lease_is_fenced_witness :
  let s2 := run_ops (H := no_evidence) demo_dumps demo_hash demo_release recovered_store in
  (∀ amb now process b, worker_scope demo_token amb → pid process = "p1" →
     ∃ e, snd (_update_process (H := no_evidence) amb now process b s2) = Err e
          ∧ processes (fst (_update_process (H := no_evidence) amb now process b s2)) = processes s2)
  ∧ (∀ amb now process b, cur_execution amb = Some demo_token → pid process = "p1" →
       fenced_write demo_token amb s2 (_update_process (H := no_evidence) amb now process b s2))
  ∧ (∀ now now' st msg w o,
       snd (complete_execution demo_dumps now now' demo_token st msg w o s2) ≠ Ok true)
  ∧ (∀ now, snd (release_execution now demo_token s2) ≠ Ok true)
  ∧ (∀ now now' lease p owner rev sg epoch token',
       snd (claim_worker_process_exec now now' lease p demo_token owner rev sg epoch s2) ≠ Ok (Some token')).
Proof.
  assert (Hb : option_map (names_lease demo_token) (processes claimed_store !! "p1") = Some true)
    by (vm_compute; reflexivity).
  assert (Ha : option_map (names_lease demo_token) (processes recovered_store !! "p1") = Some false)
    by (vm_compute; reflexivity).
  destruct (processes claimed_store !! "p1") as [row|] eqn:E; [|discriminate Hb].
  destruct (processes recovered_store !! "p1") as [row1|] eqn:E1; [|discriminate Ha].
  injection Hb as Hb. injection Ha as Ha.
  exact (lost_lease_is_fenced (H := no_evidence) demo_dumps demo_hash demo_token demo_recover demo_release
           claimed_store row row1 claimed_inv
           ltac:(repeat constructor) ltac:(repeat constructor) E Hb E1 Ha).
Defined.
