(* ===== verification/StaleRecovery.v ===== *)
(** * Stale-execution recovery terminates and is complete

    [recover_stale_executions] pages through the RUNNING rows that a previous
    runtime left behind.  Here: the pages cover every such row, the loop
    stops, and afterwards no RUNNING row belongs to another runtime. *)

From S2P Require Import Prelude PyStr PyVal ProcessState ProcessModel ProcessStore ProcessWrites ProcessExecution ProcessInvariant.
From stdpp Require Import sorting.

(** ** Pages *)

Section Pages.
Context (owner : string).

Definition is_stale (s : Store) (p : string) : Prop :=
  ∃ row, processes s !! p = Some row ∧ stale_row owner row = true.

Definition after_ok (after : option string) (p : string) : bool :=
  match after with Some a => str_ltb a p | None => true end.

Definition candidate (s : Store) (after : option string) (p : string) : bool :=
  match processes s !! p with
  | Some row => stale_row owner row && after_ok after p
  | None => false
  end.

Lemma candidate_spec s after p : candidate s after p = true ↔ is_stale s p ∧ after_ok after p = true.
Proof.
  unfold candidate, is_stale. destruct (processes s !! p) as [row|].
  - rewrite andb_true_iff. naive_solver.
  - naive_solver.
Qed.

Lemma page_pids s after n :
  map fst (stale_page s owner after n)
  = take n (List.filter (candidate s after) (sorted_pids (processes s))).
Proof.
  unfold stale_page. rewrite <-firstn_map. f_equal.
  induction (sorted_pids (processes s)) as [|p l IH]; cbn; [done|].
  unfold candidate at 1, after_ok. destruct (processes s !! p) as [row|]; [|done].
  destruct (stale_row owner row && _); cbn; by rewrite IH.
Qed.

Lemma page_rows s after n p row :
  (p, row) ∈ stale_page s owner after n → processes s !! p = Some row ∧ stale_row owner row = true.
Proof.
  unfold stale_page. intros Hin%elem_of_take. destruct Hin as (i & Hin & _).
  apply list_elem_of_lookup_2 in Hin. apply list_elem_of_omap in Hin as (q & _ & Hq).
  destruct (processes s !! q) as [r|] eqn:E; [|done].
  destruct (stale_row owner r) eqn:Es; cbn in Hq; [|done].
  destruct after as [a|]; [destruct (str_ltb a q)|]; by simplify_eq.
Qed.

Lemma sorted_pids_elem m p : p ∈ sorted_pids m ↔ is_Some (m !! p).
Proof.
  unfold sorted_pids. rewrite merge_sort_Permutation, list_elem_of_fmap. split.
  - intros ([q row] & -> & Hin). apply elem_of_map_to_list in Hin. eauto.
  - intros [row Hp]. exists (p, row). split; [done|]. by apply elem_of_map_to_list.
Qed.

Lemma sorted_pids_NoDup m : NoDup (sorted_pids m).
Proof. unfold sorted_pids. rewrite merge_sort_Permutation. apply NoDup_fst_map_to_list. Qed.

Lemma sorted_pids_sorted m : StronglySorted str_le (sorted_pids m).
Proof. apply StronglySorted_merge_sort; apply _. Qed.

Lemma filter_sorted {A} (R : A → A → Prop) f l :
  StronglySorted R l → StronglySorted R (List.filter f l).
Proof.
  induction 1 as [|x l Hl IH Hx]; cbn; [constructor|]. destruct (f x); [|done].
  constructor; [done|]. rewrite Forall_forall in *. intros y Hy. apply Hx.
  rewrite list_elem_of_In in *. by apply filter_In in Hy as [? _].
Qed.

Lemma NoDup_filter' {A} (f : A → bool) l : NoDup l → NoDup (List.filter f l).
Proof. rewrite !NoDup_ListNoDup. apply List.NoDup_filter. Qed.

(** Every stale pid after the cursor and up to the page's last one is on the
    page. *)
Lemma page_covers s after n p lp lrow :
  list.last (stale_page s owner after n) = Some (lp, lrow) →
  is_stale s p → after_ok after p = true → str_le p lp →
  p ∈ map fst (stale_page s owner after n).
Proof.
  intros Hlast Hst Ha Hle. rewrite page_pids.
  set (K := List.filter (candidate s after) (sorted_pids (processes s))).
  assert (HK : p ∈ K).
  { unfold K. rewrite list_elem_of_In, filter_In, <-list_elem_of_In. split.
    - apply sorted_pids_elem. destruct Hst as (row & -> & _). eauto.
    - by apply candidate_spec. }
  assert (Hlp : lp ∈ take n K).
  { unfold K. rewrite <-page_pids. apply list_elem_of_fmap. exists (lp, lrow). split; [done|].
    rewrite last_lookup in Hlast. by apply list_elem_of_lookup_2 in Hlast. }
  rewrite <-(take_drop n K) in HK. apply elem_of_app in HK as [?|Hd]; [done|].
  assert (Hs : StronglySorted str_le (take n K ++ drop n K)).
  { rewrite take_drop. apply filter_sorted, sorted_pids_sorted. }
  assert (lp = p) as ->; [|done].
  apply (anti_symm str_le); [|done]. by eapply StronglySorted_app_1_elem_of.
Qed.

(** An empty page means nothing is left after the cursor. *)
Lemma page_empty s after n p :
  list.last (stale_page s owner after n) = None → n ≠ 0 →
  is_stale s p → after_ok after p = true → False.
Proof.
  intros Hlast Hn Hst Ha. apply last_None in Hlast.
  assert (HK : p ∈ List.filter (candidate s after) (sorted_pids (processes s))).
  { rewrite list_elem_of_In, filter_In, <-list_elem_of_In. split.
    - apply sorted_pids_elem. destruct Hst as (row & -> & _). eauto.
    - by apply candidate_spec. }
  pose proof (page_pids s after n) as Hp. rewrite Hlast in Hp. cbn in Hp.
  destruct (List.filter _ _); [by apply not_elem_of_nil in HK|]. by destruct n.
Qed.

Lemma page_NoDup s after n : NoDup (map fst (stale_page s owner after n)).
Proof.
  rewrite page_pids. eapply sublist_NoDup; [|apply sublist_take].
  apply NoDup_filter', sorted_pids_NoDup.
Qed.

(** The stale pids as a finite set. *)
Definition stale_set (s : Store) : gset string :=
  dom (filter (fun kv : string * AgentProcess => stale_row owner (snd kv) = true) (processes s)).

Lemma stale_set_spec s p : p ∈ stale_set s ↔ is_stale s p.
Proof.
  unfold stale_set, is_stale. rewrite elem_of_dom. split.
  - intros [row Hrow]. apply map_lookup_filter_Some in Hrow. eauto.
  - intros (row & H1 & H2). exists row. by apply map_lookup_filter_Some.
Qed.
End Pages.

(** ** Running the pages *)

Section Recovery.
Context `{ExecEvidence}.
Variable json_dumps : list (string * json) → string.
Variable sha256_hex : string → string.
(** A hex digest is 64 lower-case hexadecimal digits. *)
Hypothesis sha256_digest : ∀ v, is_sha256_hex (sha256_hex v) = true.
Variable owner : string.

(** Every pid of the table is a usable identifier. *)
Definition pids_ok (s : Store) : Prop := ∀ p, is_Some (processes s !! p) → strip p ≠ "".

Lemma identity_digest v f :
  _optional_sha256 (py_opt (_stale_execution_identity_sha256 sha256_hex v)) f
  = Ok (_stale_execution_identity_sha256 sha256_hex v).
Proof.
  apply optional_sha256_wf. unfold _stale_execution_identity_sha256.
  destruct v as [v|]; [|done]. destruct (String.eqb v ""); [done|]. apply sha256_digest.
Qed.

(** The receipt of a well-formed row can always be built. *)
Lemma receipt_total p row :
  strip p ≠ "" → row_wf p row →
  ∃ w, mk_StaleExecutionProcessWait (PStr p) (PStr (sha256_hex owner))
         (py_opt (_stale_execution_identity_sha256 sha256_hex (execution_owner_id row)))
         (py_opt (_stale_execution_identity_sha256 sha256_hex (execution_lease_id row)))
         (PInt (execution_generation row)) (PInt (execution_generation row + 1))
         (PInt (state_generation row + 1)) = Ok w.
Proof.
  intros Hp [_ _ _ Hs Hg]. unfold mk_StaleExecutionProcessWait.
  assert (_non_empty_string (PStr p) "pid" = Ok (strip p)) as ->.
  { cbn. by rewrite (proj2 (String.eqb_neq _ _) Hp). }
  rewrite res_bind_ok, sha256_wf by apply sha256_digest. rewrite res_bind_ok, !identity_digest.
  rewrite ?res_bind_ok, nonneg_wf by lia.
  rewrite (positive_wf (execution_generation row + 1)), (positive_wf (state_generation row + 1)) by lia.
  rewrite ?res_bind_ok. eauto.
Qed.

Lemma recover_one_total p row now s :
  processes s !! p = Some row → row_wf p row → strip p ≠ "" → stale_row owner row = true →
  ∃ w, _recover_one_stale_execution json_dumps sha256_hex p row owner (sha256_hex owner) now s
       = (set_processes <[p := recovered_row json_dumps row w now]> s, Ok (Some p)).
Proof.
  intros Hp Hwf Hs Hst. destruct (receipt_total p row Hs Hwf) as [w Hw]. exists w.
  unfold _recover_one_stale_execution, mbind, M_bind, lift_res. rewrite Hw.
  unfold update_where. rewrite Hp, !Z.eqb_refl. unfold stale_row in Hst.
  apply andb_true_iff in Hst as [-> ->]. by rewrite !bool_decide_eq_true_2.
Qed.

(** A page of selected rows is recovered whole and nothing else changes. *)
Lemma recover_rows_total rows now s :
  NoDup (map fst rows) →
  (∀ p row, (p, row) ∈ rows → processes s !! p = Some row ∧ row_wf p row ∧ strip p ≠ ""
     ∧ stale_row owner row = true) →
  ∃ s', recover_rows json_dumps sha256_hex rows owner now s = (s', Ok (map fst rows))
    ∧ (∀ p, p ∈ map fst rows → ∃ row', processes s' !! p = Some row' ∧ status row' = PAUSED)
    ∧ (∀ p, p ∉ map fst rows → processes s' !! p = processes s !! p).
Proof.
  revert s. induction rows as [|[p row] rows IH]; intros s Hnd Hrows; cbn.
  - exists s. split_and!; [done|set_solver|done].
  - apply NoDup_cons in Hnd as [Hnin Hnd].
    destruct (Hrows p row) as (Hp & Hwf & Hs & Hst); [set_solver|].
    destruct (recover_one_total p row now s Hp Hwf Hs Hst) as [w Hw].
    set (s1 := set_processes <[p := recovered_row json_dumps row w now]> s) in *.
    destruct (IH s1 Hnd) as (s' & Hr & Hin & Hout).
    { intros q rq Hq. destruct (Hrows q rq) as (Hq' & ?); [set_solver|].
      split; [|done]. unfold s1; cbn. rewrite lookup_insert_ne; [done|].
      intros <-. apply Hnin, list_elem_of_fmap. by exists (p, rq). }
    exists s'. unfold mbind, M_bind. rewrite Hw, Hr. split_and!; [done| |].
    + intros q [->|Hq]%elem_of_cons; [|by apply Hin].
      destruct (decide (p ∈ map fst rows)) as [?|Hn]; [by apply Hin|].
      rewrite (Hout _ Hn). unfold s1; cbn. rewrite lookup_insert_eq. eauto.
    + intros q Hq. rewrite not_elem_of_cons in Hq. destruct Hq as [Hne Hq].
      rewrite (Hout _ Hq). unfold s1; cbn. by rewrite lookup_insert_ne.
Qed.

(** The tables after one page. *)
Definition page_done (pids : list string) (s s' : Store) : Prop :=
  (∀ p, p ∈ pids → ∃ row', processes s' !! p = Some row' ∧ status row' = PAUSED)
  ∧ (∀ p, p ∉ pids → processes s' !! p = processes s !! p).

Lemma recover_page_total on_recovered now n after s :
  store_inv s → pids_ok s → (∀ p, on_recovered p = Ok tt) →
  ∃ s', page_done (map fst (stale_page s owner after n)) s s' ∧ store_inv s'
    ∧ recover_page json_dumps sha256_hex owner now on_recovered n after s
      = (s', Ok (match list.last (stale_page s owner after n) with
                 | None => None
                 | Some (lp, _) => Some (lp, map fst (stale_page s owner after n))
                 end)).
Proof.
  intros Hinv Hpids Hcb. set (page := stale_page s owner after n).
  destruct (recover_rows_total page now s) as (s1 & Hr & Hin & Hout).
  { apply page_NoDup. }
  { intros p row Hp. apply page_rows in Hp as [Hp Hst].
    split_and!; [done|by apply (inv_side _ Hinv) in Hp as [? _]|apply Hpids; eauto|done]. }
  assert (Hcbs : ∀ l, foldR (fun _ q => on_recovered q) tt l = Ok tt).
  { induction l as [|q l IHl]; cbn; [done|]. by rewrite Hcb. }
  assert (Hex : ∃ s', page_done (map fst page) s s'
    ∧ recover_page json_dumps sha256_hex owner now on_recovered n after s
      = (s', Ok (match list.last page with
                 | None => None | Some (lp, _) => Some (lp, map fst page) end))).
  { unfold recover_page, sql_transaction, mbind, M_bind, get_state. fold page.
    destruct (list.last page) as [[lp lrow]|] eqn:Hl.
    - rewrite Hr. destruct (map fst page) as [|p0 l] eqn:Hm.
      { apply fmap_nil_inv in Hm. by rewrite Hm in Hl. }
      destruct (observe_rows (p0 :: l) s1) as [s2 u] eqn:Ho.
      apply observe_rows_run in Ho as (-> & c & -> & _). unfold lift_res. rewrite Hcbs.
      exists (set_counters (fun _ => c) s1). by split.
    - apply last_None in Hl. rewrite Hl. exists s. split; [|done]. split; [set_solver|done]. }
  destruct Hex as (s' & Hd & Hrun). exists s'. split_and!; [done| |done].
  apply (le_inv _ _ (recover_page_preserves json_dumps sha256_hex owner now on_recovered n after
    _ _ _ Hinv Hrun)), Hinv.
Qed.

(** No stale row is left at or before the cursor. *)
Definition scanned (after : option string) (s : Store) : Prop :=
  ∀ p, is_stale owner s p → after_ok after p = true.

Lemma page_done_stale pids s s' p :
  page_done pids s s' → is_stale owner s' p → is_stale owner s p ∧ p ∉ pids.
Proof.
  intros [Hin Hout] (row & Hp & Hst). destruct (decide (p ∈ pids)) as [Hp'|Hn].
  - destruct (Hin _ Hp') as (row' & Hr' & Hs'). simplify_eq. unfold stale_row in Hst.
    by rewrite Hs' in Hst.
  - split; [|done]. rewrite (Hout _ Hn) in Hp. by exists row.
Qed.

Lemma page_done_size after n s s' :
  page_done (map fst (stale_page s owner after n)) s s' →
  size (stale_set owner s)
  = (size (stale_set owner s') + length (map fst (stale_page s owner after n)))%nat.
Proof.
  set (pids := map fst _). intros Hd.
  assert (stale_set owner s = stale_set owner s' ∪ list_to_set pids) as ->.
  { apply set_eq. intros p. rewrite elem_of_union, elem_of_list_to_set, !stale_set_spec. split.
    - intros Hst. destruct (decide (p ∈ pids)) as [?|Hn]; [by right|left].
      destruct Hst as (row & Hp & Hst). exists row. by rewrite (proj2 Hd _ Hn).
    - intros [Hst|Hin]; [by apply (page_done_stale _ _ _ _ Hd) in Hst as [? _]|].
      apply list_elem_of_fmap in Hin as ([q row] & -> & Hin). apply page_rows in Hin.
      by exists row. }
  rewrite size_union, size_list_to_set; [done|apply page_NoDup|].
  intros p. rewrite elem_of_list_to_set, stale_set_spec. intros Hst.
  by apply (page_done_stale _ _ _ _ Hd) in Hst as [_ ?].
Qed.

Lemma page_done_pids_ok pids s s' : page_done pids s s' → pids_ok s → (∀ p, p ∈ pids → is_Some (processes s !! p)) → pids_ok s'.
Proof.
  intros [_ Hout] Hok Hin p Hp. destruct (decide (p ∈ pids)); [by apply Hok, Hin|].
  apply Hok. by rewrite <-Hout.
Qed.

Lemma scanned_next after n s s' lp lrow :
  list.last (stale_page s owner after n) = Some (lp, lrow) →
  page_done (map fst (stale_page s owner after n)) s s' →
  scanned after s → scanned (Some lp) s'.
Proof.
  intros Hl Hd Hsc p Hst. apply (page_done_stale _ _ _ _ Hd) in Hst as [Hst Hn]. cbn.
  destruct (str_ltb_total lp p) as [?|[->|Hlt]]; [done| |];
    exfalso; apply Hn; (eapply page_covers; [done|done|by apply Hsc|]);
    apply str_le_lt_or_eq; auto.
Qed.

Lemma page_pid_known after n s p :
  p ∈ map fst (stale_page s owner after n) → is_Some (processes s !! p) ∧ is_stale owner s p.
Proof.
  intros Hin. apply list_elem_of_fmap in Hin as ([q row] & -> & Hin).
  apply page_rows in Hin as [? ?]. split; [eauto|by exists row].
Qed.

Lemma recover_loop_total on_recovered n : n ≠ 0%nat → (∀ p, on_recovered p = Ok tt) →
  ∀ fuel now after total sample s,
  store_inv s → pids_ok s → scanned after s → (size (stale_set owner s) < fuel)%nat →
  (Z.of_nat (length sample) <= total)%Z → existsb (fun p => String.eqb p "") sample = false →
  ∃ s' sample', recover_loop json_dumps sha256_hex fuel owner now on_recovered n after total sample s
      = (s', Ok ((total + Z.of_nat (size (stale_set owner s)))%Z, sample'))
    ∧ (Z.of_nat (length sample') <= total + Z.of_nat (size (stale_set owner s)))%Z
    ∧ existsb (fun p => String.eqb p "") sample' = false
    ∧ (∀ p, ¬ is_stale owner s' p)
    ∧ (∀ p row, processes s !! p = Some row → stale_row owner row = false →
                processes s' !! p = Some row).
Proof.
  intros Hn Hcb. induction fuel as [|fuel IH];
    intros now after total sample s Hinv Hpids Hsc Hfuel Hlen Hsample; [lia|].
  destruct (recover_page_total on_recovered (now fuel) n after s Hinv Hpids Hcb) as (s1 & Hd & Hinv1 & Hrun).
  cbn [recover_loop]. unfold mbind, M_bind. rewrite Hrun.
  pose proof (page_done_size _ _ _ _ Hd) as Hsize.
  assert (Hkeep : ∀ p row, processes s !! p = Some row → stale_row owner row = false →
                  processes s1 !! p = Some row).
  { intros p row Hp Hst. rewrite (proj2 Hd); [done|]. intros Hin%page_pid_known.
    destruct Hin as [_ (r & Hr & Hr')]. simplify_eq. congruence. }
  destruct (list.last (stale_page s owner after n)) as [[lp lrow]|] eqn:Hl.
  - set (pids := map fst (stale_page s owner after n)) in *.
    assert (Hpos : (0 < length pids)%nat).
    { unfold pids. rewrite length_map. destruct (stale_page s owner after n); [done|cbn; lia]. }
    match goal with |- context [recover_loop _ _ _ _ _ _ _ _ _ ?x _] => set (sample1 := x) end.
    destruct (IH now (Some lp) (total + Z.of_nat (length pids))%Z sample1 s1)
      as (s' & sample' & Hr & Hl' & He & Hno & Hk).
    + done.
    + eapply page_done_pids_ok; [done|done|]. by intros p [? _]%page_pid_known.
    + by eapply scanned_next.
    + lia.
    + unfold sample1. destruct (_ <? n)%nat; [|lia].
      rewrite length_app, length_take. lia.
    + unfold sample1. destruct (_ <? n)%nat; [|done]. rewrite existsb_app, Hsample. cbn.
      apply not_true_iff_false. rewrite existsb_exists. intros (p & Hin & Heq).
      apply String.eqb_eq in Heq as ->. apply list_elem_of_In, elem_of_take in Hin as (i & Hi & _).
      apply list_elem_of_lookup_2, page_pid_known in Hi as [Hi _]. by apply (Hpids "").
    + exists s', sample'. rewrite Hr. replace (total + Z.of_nat (length pids) + Z.of_nat (size (stale_set owner s1)))%Z
        with (total + Z.of_nat (size (stale_set owner s)))%Z in * by lia.
      split_and!; auto.
  - apply last_None in Hl. rewrite Hl in Hsize, Hd. cbn in Hsize. exists s1, sample.
    assert (Hnone : ∀ p, ¬ is_stale owner s p).
    { intros p Hst. apply (page_empty owner s after n p); [by rewrite Hl|done|done|by apply Hsc]. }
    assert (Hz : size (stale_set owner s) = 0%nat).
    { apply size_empty_iff. intros p. rewrite stale_set_spec.
      split; [intros Hst; by apply Hnone in Hst|set_solver]. }
    rewrite Hz, Z.add_0_r. split_and!; [done|lia|done| |done].
    intros p Hst. apply (page_done_stale _ _ _ _ Hd) in Hst as [Hst _]. by eapply Hnone.
Qed.

(** (C27) Stale recovery is total and complete: with a fuel above the number of
    stale rows, a granted recovery lease and callbacks that do not raise, it
    returns; afterwards every RUNNING row belongs to the recovering runtime,
    every row that was not stale is untouched, and the reported total is
    exactly the number of stale rows. *)
Theorem recover_complete fuel now on_recovered n s :
  store_inv s → pids_ok s → n ≠ 0%nat → (∀ p, on_recovered p = Ok tt) →
  (size (stale_set owner s) < fuel)%nat →
  ∃ s' summary,
    recover_stale_executions json_dumps sha256_hex fuel owner now (Ok tt) on_recovered n s
      = (s', Ok summary)
    ∧ total_count summary = Z.of_nat (size (stale_set owner s))
    ∧ (∀ p row, processes s' !! p = Some row → status row = RUNNING →
                execution_owner_id row = Some owner)
    ∧ (∀ p row, processes s !! p = Some row → stale_row owner row = false →
                processes s' !! p = Some row).
Proof.
  intros Hinv Hpids Hn Hcb Hfuel.
  destruct (recover_loop_total on_recovered n Hn Hcb fuel now None 0 [] s)
    as (s' & sample & Hr & Hl & He & Hno & Hk); [done|done|by intros ??|done|done|done|].
  unfold recover_stale_executions, mbind, M_bind, lift_res. cbn [fst snd]. rewrite Hr. cbn [fst snd].
  unfold mk_summary. rewrite He.
  destruct (Z.ltb_spec (0 + Z.of_nat (size (stale_set owner s))) 0); [lia|].
  destruct (Z.ltb_spec (0 + Z.of_nat (size (stale_set owner s))) (Z.of_nat (length sample))); [lia|].
  cbn. exists s'. eexists. split_and!; [done|done| |done].
  intros p row Hp Hrun. destruct (execution_owner_id row) as [o|] eqn:Eo;
    [destruct (String.eqb_spec o owner) as [->|Hne]; [done|]|];
    exfalso; apply (Hno p); exists row; (split; [done|]);
    unfold stale_row, foreign_owner; rewrite Hrun, Eo, ?(proj2 (String.eqb_neq _ _) Hne); done.
Qed.
End Recovery.

(** ** Recovery of the concrete store *)

Lemma recover_complete_witness :
  ∃ s' summary,
    recover_stale_executions demo_dumps demo_hash 4 "runtime_2" (fun _ => "t3") (Ok tt)
      (fun _ => Ok tt) 10 claimed_store = (s', Ok summary)
    ∧ total_count summary = Z.of_nat (size (stale_set "runtime_2" claimed_store))
    ∧ (∀ p row, processes s' !! p = Some row → status row = RUNNING →
                execution_owner_id row = Some "runtime_2")
    ∧ (∀ p row, processes claimed_store !! p = Some row → stale_row "runtime_2" row = false →
                processes s' !! p = Some row).
Proof.
  apply (recover_complete demo_dumps demo_hash ltac:(reflexivity) "runtime_2").
  - apply claimed_inv.
  - intros p Hp. apply sorted_pids_elem in Hp.
    assert (E : sorted_pids (processes claimed_store) = ["p1"; "p2"]) by (vm_compute; reflexivity).
    rewrite E in Hp. apply elem_of_cons in Hp as [->|Hp]; [by vm_compute|].
    apply list_elem_of_singleton in Hp as ->. by vm_compute.
  - done.
  - done.
  - vm_compute. lia.
Defined.
