(* ===== verification/ProcessProperties.v ===== *)
(** * What the process writes guarantee

    Optimistic concurrency, isolation between processes, the functional
    behaviour of patches and typed transitions, and exclusive claims. *)

From S2P Require Import Prelude PyStr PyVal ProcessState ProcessModel ProcessStore ProcessWrites ProcessExecution ProcessInvariant.

Section Properties.
Context `{ExecEvidence}.
Variable json_dumps : list (string * json) → string.
Variable sha256_hex : string → string.

(** The tables after a rejected operation are the tables before it. *)
Definition rejected {A} (m : M Store A) (s : Store) : Prop :=
  ∃ e t, m s = (set_takeover t s, Err e).

Lemma update_rejected amb now process b s :
  (∀ s' r, _update_process amb now process b s ≠ (s', Ok r)) →
  rejected (_update_process amb now process b) s.
Proof.
  intros Hno. destruct (_update_process amb now process b s) as [s' [r|e]] eqn:E;
    [by edestruct Hno|].
  apply update_Err in E as Ht. destruct Ht as [t ->]. by exists e, t.
Qed.

(** ** Optimistic concurrency *)

Lemma revision_grows ops s p row :
  Forall op_ok ops → store_inv s → processes s !! p = Some row →
  ∃ row', processes (run_ops json_dumps sha256_hex ops s) !! p = Some row'
          ∧ (revision row <= revision row')%Z.
Proof.
  intros Hok Hinv Hp. destruct (le_rows _ _ (run_ops_le json_dumps sha256_hex ops s Hok Hinv) _ _ Hp)
    as (row' & ? & Hle). exists row'. split; [done|]. destruct Hle as [->|Hev]; [lia|].
  pose proof (ev_revision _ _ Hev). lia.
Qed.

(** (C28) No update is lost: when two writers start from the same revision of a
    process and one commits, the other is rejected and changes nothing,
    whatever happens in between and under whatever scopes it runs. *)
Theorem no_lost_update amb1 now1 process1 b1 s s1 r1 ops amb2 now2 process2 b2 :
  store_inv s → Forall op_ok ops →
  _update_process amb1 now1 process1 b1 s = (s1, Ok r1) →
  pid process2 = pid process1 → revision process2 = revision process1 →
  rejected (_update_process amb2 now2 process2 b2) (run_ops json_dumps sha256_hex ops s1).
Proof.
  intros Hinv Hok E Hpid Hrev. apply update_rejected. intros s' r E2.
  pose proof (update_preserves _ _ _ _ _ _ _ Hinv E) as [Hi _].
  apply update_Ok in E as (cur & gen & owner & lease & t & Hcur & Hf & _ & -> & _).
  pose proof (fc_revision _ _ _ _ _ _ Hf) as Hr1.
  destruct (revision_grows ops _ (pid process1) (committed_row cur process1 gen owner lease) Hok (Hi Hinv))
    as (row' & Hrow' & Hle); [by cbn; rewrite lookup_insert_eq|]. cbn in Hle.
  apply update_Ok in E2 as (cur2 & gen2 & ow2 & le2 & t2 & Hcur2 & Hf2 & _).
  rewrite Hpid, Hrow' in Hcur2. injection Hcur2 as <-.
  pose proof (fc_revision _ _ _ _ _ _ Hf2). lia.
Qed.

(** ** Isolation between processes *)

(** A worker bound to one process cannot write the row of another: outside
    an explicit control scope every such update is rejected and changes
    nothing, even when the revision is right. *)
Theorem worker_cannot_write_other_process amb now process b s token :
  cur_execution amb = Some token → tok_pid token ≠ pid process →
  (∀ cm, cur_control_mutation amb = Some cm → cm_target_pid cm ≠ pid process) →
  rejected (_update_process amb now process b) s.
Proof.
  intros Ht Hne Hcm. apply update_rejected. intros s' r E.
  apply update_Ok in E as (cur & gen & owner & lease & t & _ & Hf & _).
  destruct (fc_target _ _ _ _ _ _ Hf _ Ht Hne) as (cm & Hc & Htg & _).
  by apply (Hcm cm).
Qed.

(** A live worker's own write goes through only while the row still
    carries exactly its lease: same generation, owner and lease identifier,
    and status RUNNING. *)
Theorem worker_write_needs_lease amb now process b s s' r token current :
  _update_process amb now process b s = (s', Ok r) → worker_scope token amb →
  tok_pid token = pid process → processes s !! pid process = Some current →
  holds_lease token current = true.
Proof.
  intros E (Ht & Htm & Hpm) Hpid Hp.
  apply update_Ok in E as (cur & gen & owner & lease & t & Hcur & Hf & _).
  rewrite Hp in Hcur. injection Hcur as <-.
  apply (fc_worker _ _ _ _ _ _ Hf); [done|done| |done].
  destruct (is_terminal (status current)) eqn:Et; [|done].
  apply (fc_takeover_terminal _ _ _ _ _ _ Hf) in Et. rewrite Htm in Et. by destruct Et.
Qed.

(** ** Patches *)

Lemma setattr_pid p i : pid (setattr p i) = pid p.
Proof. done. Qed.
Lemma setattrs_keys patch p :
  pid (foldl setattr p patch) = pid p ∧ revision (foldl setattr p patch) = revision p.
Proof. revert p. induction patch as [|i patch IH]; intros p; [done|]. cbn. by destruct (IH (setattr p i)) as [-> ->]. Qed.

Lemma setattrs_semantic patch p :
  forallb is_allowed_field patch = true →
  let q := foldl setattr p patch in
  status q = status p ∧ wait_state q = wait_state p ∧ outcome q = outcome p
  ∧ state_generation q = state_generation p.
Proof.
  revert p. induction patch as [|i patch IH]; intros p; [done|]. cbn.
  rewrite andb_true_iff. intros [Hi Hp]. destruct (IH (setattr p i) Hp) as (-> & -> & -> & ->).
  by destruct i.
Qed.

(** The row a patch proposes. *)
Definition patched (now : string) (patch : list PatchItem) (current : AgentProcess) : AgentProcess :=
  if existsb is_updated_at patch then foldl setattr current patch
  else setattr (foldl setattr current patch) (SetUpdatedAt now).

Lemma patched_keys now patch current :
  pid (patched now patch current) = pid current
  ∧ revision (patched now patch current) = revision current.
Proof. unfold patched. destruct (existsb _ _); apply setattrs_keys. Qed.

Lemma get_process_Ok p s s' o :
  get_process p s = (s', Ok o) → s' = s ∧ o = processes s !! p.
Proof.
  unfold get_process, _row_to_process. intros E.
  destruct (processes s !! p) as [row|]; [|by injection E as <- <-].
  destruct (validate_process_state_fields _ _ _); cbn in E; [by injection E as <- <-|done].
Qed.

(** Stored rows decode to themselves. *)
Lemma stored_row_decodes s p row : store_inv s → processes s !! p = Some row → _row_to_process row = Ok row ∧ pid row = p.
Proof.
  intros Hinv Hp. destruct (inv_side _ Hinv _ _ Hp) as [[Hpid Hshape _ _ _] _]. split; [|done].
  unfold _row_to_process. apply validate_fields_shape in Hshape. by rewrite Hshape.
Qed.

Lemma get_process_run p s : store_inv s → get_process p s = (s, Ok (processes s !! p)).
Proof.
  intros Hinv. unfold get_process. destruct (processes s !! p) as [row|] eqn:Hp; [|done].
  by rewrite (proj1 (stored_row_decodes s p row Hinv Hp)).
Qed.

Lemma patch_Ok amb now p patch rev st b s s' r :
  store_inv s → _patch_process amb now p patch rev st b s = (s', Ok r) →
  ∃ current, processes s !! p = Some current ∧ revision current = rev
    ∧ (∀ st', st = Some st' → status current = st')
    ∧ _update_process amb now (patched now patch current) b s = (s', Ok r)
    ∧ pid current = p.
Proof.
  unfold _patch_process. intros Hinv E. apply M_bind_Ok in E as (o & s1 & Hg & E).
  apply get_process_Ok in Hg as [-> ->].
  destruct (processes s !! p) as [current|] eqn:Hp; [|done]. res_simpl.
  exists current. split_and!; [done|by apply Z.eqb_eq| |done|].
  - intros st' ->. res_simpl. by match goal with X : bool_decide _ = true |- _ => apply bool_decide_eq_true in X end.
  - by apply (inv_side _ Hinv) in Hp as [[] _].
Qed.

Lemma committed_lookup s process current now gen owner lease t q :
  processes (committed_store s process current now gen owner lease t) !! q
  = if decide (q = pid process) then Some (committed_row current process gen owner lease)
    else processes s !! q.
Proof.
  cbn. destruct (decide (q = pid process)) as [->|Hne]; [by rewrite lookup_insert_eq|].
  by rewrite lookup_insert_ne.
Qed.

(** [patch_process] never touches semantic state: a patch that names
    status, wait state, outcome or state generation, or an unknown field, is
    rejected, and a committed patch leaves them as they were, writes exactly
    the patched fields, adds one to the revision it was based on and leaves
    every other row alone. *)
Theorem patch_process_spec amb now p patch rev st s s' r :
  store_inv s → patch_process amb now p patch rev st s = (s', Ok r) →
  forallb is_allowed_field patch = true
  ∧ ∃ old new, processes s !! p = Some old ∧ processes s' !! p = Some new
    ∧ revision old = rev ∧ revision new = (rev + 1)%Z
    ∧ status new = status old ∧ wait_state new = wait_state old ∧ outcome new = outcome old
    ∧ state_generation new = state_generation old
    ∧ goal_oid new = goal_oid (patched now patch old)
    ∧ tool_table new = tool_table (patched now patch old)
    ∧ capabilities new = capabilities (patched now patch old)
    ∧ resource_usage new = resource_usage (patched now patch old)
    ∧ (∀ q, q ≠ p → processes s' !! q = processes s !! q).
Proof.
  intros Hinv E. unfold patch_process in E. res_simpl.
  assert (Hall : forallb is_allowed_field patch = true).
  { match goal with X : bool_decide _ = true |- _ => apply bool_decide_eq_true in X as Hl end.
    apply forallb_forall. intros i Hi. destruct (is_allowed_field i) eqn:Ei; [done|].
    assert (In i (List.filter (fun i => negb (is_allowed_field i)) patch)) as Hin
      by (apply filter_In; by rewrite Ei).
    destruct (List.filter _ patch); [done|by cbn in Hl]. }
  split; [done|].
  match goal with X : _patch_process _ _ _ _ _ _ _ _ = _ |- _ =>
    apply patch_Ok in X as (old & Hp & Hrev & _ & Hu & Hpid); [|done] end.
  apply update_Ok in Hu as (cur & gen & owner & lease & t & Hcur & Hf & _ & -> & _).
  destruct (patched_keys now patch old) as [Hk1 Hk2]. rewrite Hk1, Hpid, Hp in Hcur.
  injection Hcur as <-. exists old, (committed_row old (patched now patch old) gen owner lease).
  rewrite !committed_lookup, Hk1, Hpid, decide_True by done.
  pose proof (setattrs_semantic patch old Hall) as (Q1 & Q2 & Q3 & Q4).
  assert (status (patched now patch old) = status old
    ∧ wait_state (patched now patch old) = wait_state old
    ∧ outcome (patched now patch old) = outcome old
    ∧ state_generation (patched now patch old) = state_generation old) as (S1 & S2 & S3 & S4).
  { unfold patched. by destruct (existsb is_updated_at patch); split_and!. }
  split_and!; try done.
  - cbn. lia.
  - intros q Hq. by rewrite committed_lookup, decide_False by congruence.
Qed.

(** A patch that does not name the parent changes no life. *)
Lemma patch_keeps_life amb now p patch rev st s s' r :
  store_inv s → patch_process amb now p patch rev st s = (s', Ok r) →
  (∀ v, SetParentPid v ∉ patch) →
  ∃ old new, processes s !! p = Some old ∧ processes s' !! p = Some new ∧ parent_pid new = parent_pid old
    ∧ status new = status old ∧ wait_state new = wait_state old
    ∧ ∀ q, q ≠ p → processes s' !! q = processes s !! q.
Proof.
  intros Hinv E Hpar. destruct (patch_process_spec _ _ _ _ _ _ _ _ _ Hinv E)
    as (_ & old & new & Ho & Hn & _ & _ & Hs & Hw & _ & _ & _ & _ & _ & _ & Hrest).
  exists old, new. split_and!; try done. unfold patch_process in E. res_simpl.
  match goal with X : _patch_process _ _ _ _ _ _ _ _ = _ |- _ =>
    apply patch_Ok in X as (cur & Hp & _ & _ & Hu & Hpid); [|done] end.
  assert (cur = old) as -> by congruence. apply update_Ok in Hu as (cur & gen & owner & lease & t & Hcur & _ & _ & -> & _).
  destruct (patched_keys now patch old) as [Hk _].
  assert (parent_pid (patched now patch old) = parent_pid old) as Hpp.
  { assert (Hfold : ∀ l x, (∀ v, SetParentPid v ∉ l) → parent_pid (foldl setattr x l) = parent_pid x).
    { induction l as [|i l IH]; intros x Hl; [done|]. cbn [foldl]. rewrite IH by set_solver. destruct i; try done.
      exfalso. apply (Hl v). by left. }
    unfold patched. destruct (existsb is_updated_at patch); [by apply Hfold|]. by rewrite <-(Hfold patch old Hpar). }
  set (row := patched now patch old) in *. clearbody row.
  rewrite committed_lookup, Hk, Hpid, decide_True in Hn by done. injection Hn as <-. exact Hpp.
Qed.

(** ** Typed transitions *)

Definition transition_patch (st : ProcessStatus) (w : option ProcessWaitState)
    (o : option ProcessOutcome) (message : option string) (current : AgentProcess) : list PatchItem :=
  [SetStatus st; SetWaitState w; SetOutcome o; SetStateGeneration (state_generation current + 1);
   SetStatusMessage (legacy_status_message json_dumps w o message)].

(** What a committed transition did. *)
Definition transition_committed (p : string) (st : ProcessStatus) (rev : Z)
    (est : option ProcessStatus) (esg : option Z) (w : option ProcessWaitState)
    (o : option ProcessOutcome) (msg : option string) (control : bool)
    (allowed : option (list ProcessStatus)) (s s' : Store) : Prop :=
  ∃ old new, processes s !! p = Some old ∧ processes s' !! p = Some new
    ∧ revision old = rev ∧ revision new = (rev + 1)%Z
    ∧ status new = st ∧ wait_state new = w ∧ outcome new = o
    ∧ status_message new = legacy_status_message json_dumps w o msg
    ∧ state_shape st w o ∧ is_stale_execution_wait w = false
    ∧ state_generation new = (state_generation old + 1)%Z
    ∧ (∀ g, esg = Some g → state_generation old = g)
    ∧ (is_terminal (status old) = true → st = status old)
    ∧ (if control then ∃ l, allowed = Some l ∧ status old ∈ l
       else ∀ st', est = Some st' → status old = st')
    ∧ (∀ q, q ≠ p → processes s' !! q = processes s !! q).

Lemma transition_run amb now p st rev est esg w o msg control allowed reason s s' r :
  store_inv s →
  apply_process_state_transition json_dumps amb now p st rev est esg w o msg control allowed reason s
    = (s', Ok r) →
  transition_committed p st rev est esg w o msg control allowed s s'.
Proof.
  unfold transition_committed. intros Hinv E. unfold apply_process_state_transition in E.
  apply M_bind_Ok in E as ([] & ? & Hv & E). unfold lift_res in Hv. injection Hv as <- Hv.
  apply validate_fields_shape in Hv.
  apply M_bind_Ok in E as ([] & ? & Hns & E). injection Hns as <- Hns. apply raise_if_Ok in Hns.
  apply M_bind_Ok in E as (found & ? & Hg & E). apply get_process_Ok in Hg as [-> ->].
  destruct (processes s !! p) as [old|] eqn:Hp; [|done].
  apply M_bind_Ok in E as ([] & ? & Hsg & E). injection Hsg as <- Hsg. apply raise_if_Ok in Hsg.
  fold (transition_patch st w o msg old) in E.
  assert (Hpatch : ∃ amb' est', _patch_process amb' now p (transition_patch st w o msg old) rev est' true s
            = (s', Ok r)
          ∧ (if control then ∃ l, allowed = Some l ∧ status old ∈ l else est' = est)).
  { destruct control; cbn [negb] in E; [|eauto]. res_simpl.
    match goal with X : negb (bool_decide (status old ∈ _)) = false |- _ => apply negb_false_iff in X | _ => idtac end.
    match goal with X : bool_decide (status old ∈ _) = true |- _ => apply bool_decide_eq_true in X end.
    eexists _, _. split; [eassumption|]. destruct allowed as [l|]; [eauto|set_solver]. }
  destruct Hpatch as (amb' & est' & Hpatch & Hctl).
  apply patch_Ok in Hpatch as (cur & Hcur & Hrev & Hest & Hu & Hpid); [|done].
  rewrite Hp in Hcur. injection Hcur as <-.
  apply update_Ok in Hu as (cur & gen & owner & lease & t & Hcur & Hf & _ & -> & _).
  destruct (patched_keys now (transition_patch st w o msg old) old) as [Hk1 Hk2].
  rewrite Hk1, Hpid, Hp in Hcur. injection Hcur as <-.
  eexists old, _. rewrite committed_lookup, Hk1, Hpid, decide_True by done.
  split_and!; try done.
  - cbn. lia.
  - intros g ->. apply negb_false_iff in Hsg. by apply Z.eqb_eq.
  - apply (fc_terminal _ _ _ _ _ _ Hf).
  - destruct control; [done|]. by subst est'.
  - intros q Hq. by rewrite committed_lookup, decide_False by congruence.
Qed.

(** A transition writes one patch of the row. *)
Lemma transition_patched amb now p st rev est esg w o msg control allowed reason s s' r :
  store_inv s →
  apply_process_state_transition json_dumps amb now p st rev est esg w o msg control allowed reason s = (s', Ok r) →
  ∃ old amb' est', processes s !! p = Some old
    ∧ _patch_process amb' now p (transition_patch st w o msg old) rev est' true s = (s', Ok r).
Proof.
  intros Hinv E. unfold apply_process_state_transition in E.
  do 2 (apply M_bind_Ok in E as ([] & ? & Hx & E); injection Hx as <- _).
  apply M_bind_Ok in E as (found & ? & Hg & E). apply get_process_Ok in Hg as [-> ->].
  destruct (processes s !! p) as [old|] eqn:Hp; [|done].
  apply M_bind_Ok in E as ([] & ? & Hx & E). injection Hx as <- _. fold (transition_patch st w o msg old) in E.
  exists old. destruct control; cbn [negb] in E; [|eauto].
  do 2 (apply M_bind_Ok in E as ([] & ? & Hx & E); injection Hx as <- _).
  apply M_bind_Ok in E as (amb' & ? & Hx & E). injection Hx as <- _. eauto.
Qed.

Lemma transition_keeps_parent amb now p st rev est esg w o msg control allowed reason s s' r :
  store_inv s →
  apply_process_state_transition json_dumps amb now p st rev est esg w o msg control allowed reason s = (s', Ok r) →
  ∃ old new, processes s !! p = Some old ∧ processes s' !! p = Some new ∧ parent_pid new = parent_pid old
    ∧ pid r = p ∧ parent_pid r = parent_pid old ∧ status r = st.
Proof.
  intros Hinv E. apply transition_patched in E as (old & amb' & est' & Hp & E); [|done].
  apply patch_Ok in E as (cur & Hcur & _ & _ & Hu & Hpid); [|done]. rewrite Hp in Hcur. injection Hcur as <-.
  apply update_Ok in Hu as (cur & gen & owner & lease & t & Hcur & _ & _ & -> & ->).
  destruct (patched_keys now (transition_patch st w o msg old) old) as [Hk1 _].
  assert (parent_pid (patched now (transition_patch st w o msg old) old) = parent_pid old
    ∧ status (patched now (transition_patch st w o msg old) old) = st) as [Hk2 Hk3]
    by (unfold patched; by destruct (existsb _ _)).
  set (row := patched now (transition_patch st w o msg old) old) in *. clearbody row.
  eexists old, _. rewrite committed_lookup, Hk1, Hpid, decide_True by done.
  split; [exact Hp|]. split; [reflexivity|]. cbn. by rewrite Hk1, Hk2, Hk3.
Qed.

(** A committed typed transition installs exactly the requested status,
    wait state, outcome and projected message, as a legal product, adds one
    to the state generation and to the revision it was based on, honours the
    expected status and generation, never leaves a terminal status, never
    writes a recovery receipt, and leaves every other row alone. *)
Theorem apply_process_state_transition_spec amb now p st rev est esg w o msg control allowed reason s s' r :
  store_inv s →
  apply_process_state_transition json_dumps amb now p st rev est esg w o msg control allowed reason s
    = (s', Ok r) →
  ∃ old new, processes s !! p = Some old ∧ processes s' !! p = Some new
    ∧ revision old = rev ∧ revision new = (rev + 1)%Z
    ∧ status new = st ∧ wait_state new = w ∧ outcome new = o
    ∧ status_message new = legacy_status_message json_dumps w o msg
    ∧ state_shape st w o ∧ is_stale_execution_wait w = false
    ∧ state_generation new = (state_generation old + 1)%Z
    ∧ (∀ g, esg = Some g → state_generation old = g)
    ∧ (is_terminal (status old) = true → st = status old)
    ∧ (if control then ∃ l, allowed = Some l ∧ status old ∈ l
       else ∀ st', est = Some st' → status old = st')
    ∧ (∀ q, q ≠ p → processes s' !! q = processes s !! q).
Proof. apply transition_run. Qed.

(** ** Claims *)

Lemma claim_needs_runnable now lease p owner epoch s row :
  owner ≠ "" → valid_epoch epoch = true → processes s !! p = Some row → status row ≠ RUNNABLE →
  claim_execution now lease p owner epoch s = (s, Ok None).
Proof.
  intros Ho He Hp Hst. unfold claim_execution, mbind, M_bind, lift_res.
  rewrite (proj2 (String.eqb_neq _ _) Ho), He. cbn. unfold sql_transaction, get_state.
  rewrite Hp, bool_decide_eq_false_2 by done. done.
Qed.

(** A claim is exclusive: it takes an unleased RUNNABLE row admitted by its
    TaskRun, gives the caller the lease under a fresh execution generation,
    leaves every other row alone, and from then on every other claim of that
    process, by anyone, answers that nothing was claimed. *)
Theorem claim_is_exclusive now lease p owner epoch s s' token :
  store_inv s → claim_execution now lease p owner epoch s = (s', Ok (Some token)) →
  ∃ old new, processes s !! p = Some old ∧ processes s' !! p = Some new
    ∧ status old = RUNNABLE ∧ unleased old = true ∧ task_run_admits now s old = true
    ∧ holds_lease token new = true ∧ names_lease token new = true ∧ tok_pid token = p
    ∧ tok_generation token = (execution_generation old + 1)%Z
    ∧ revision new = (revision old + 1)%Z ∧ state_generation new = (state_generation old + 1)%Z
    ∧ (∀ q, q ≠ p → processes s' !! q = processes s !! q)
    ∧ (∀ now2 lease2 owner2 epoch2, owner2 ≠ "" → valid_epoch epoch2 = true →
         claim_execution now2 lease2 p owner2 epoch2 s' = (s', Ok None)).
Proof.
  intros Hinv E.
  apply claim_run in E as [[? _]|(old & Hp & Hst & [= ->] & _ & Hadm & _ & Hs')]; [done|].
  set (new := exec_row old RUNNING None None None (state_generation old + 1) now
                (execution_generation old + 1) (Some owner) (Some lease)) in *.
  assert (Hnew : processes s' !! p = Some new) by (subst s'; apply lookup_insert_eq).
  exists old, new. split_and!; try done.
  - destruct (rw_lease _ _ (proj1 (inv_side _ Hinv _ _ Hp))) as [?|[Hr _]]; [done|congruence].
  - unfold holds_lease. cbn. by rewrite Z.eqb_refl, !bool_decide_eq_true_2.
  - unfold names_lease. cbn. by rewrite Z.eqb_refl, !bool_decide_eq_true_2.
  - intros q Hq. subst s'. by apply lookup_insert_ne.
  - intros now2 lease2 owner2 epoch2 Ho He. by apply (claim_needs_runnable _ _ _ _ _ _ new).
Qed.

(** ** Takeover scopes *)

(** A scope that returns has run its body under an intent with its token. *)
Lemma takeover_scope_opens {A} p rev sg token st reason nonce rt ra wk oc (body : M Store A) s s' a :
  trusted_process_execution_takeover p rev sg token st reason nonce rt ra wk oc body s = (s', Ok a) →
  ∃ intent s1, body (set_takeover (Some intent) s) = (s1, Ok a) ∧ ti_source_execution_token intent = token.
Proof.
  unfold trusted_process_execution_takeover. intros E. destruct (_ || _) in E; [done|]. destruct (negb _) in E; [done|].
  destruct (takeover s); [done|].
  match type of E with context [body (set_takeover (Some ?i) s)] => set (intent := i) in * end.
  destruct (body (set_takeover (Some intent) s)) as [s1 [a1|e]] eqn:Eb; [|done].
  destruct (match takeover s1 with Some i => _ | None => _ end); [|done]. injection E as _ <-. by exists intent, s1.
Qed.

(** A takeover scope always closes: afterwards no intent is active, scopes
    never nest, and the scope succeeds only if its body carried the intent to
    its final stage; a scope that cannot open runs nothing. *)
Theorem takeover_scope_closes {A} p rev sg token st reason nonce rt ra wk oc (body : M Store A) s s' r :
  trusted_process_execution_takeover p rev sg token st reason nonce rt ra wk oc body s = (s', r) →
  (takeover s = None → takeover s' = None)
  ∧ (takeover s ≠ None → s' = s ∧ is_Ok r = false)
  ∧ (is_Ok r = true → ∃ intent s1 a, body (set_takeover (Some intent) s) = (s1, Ok a)
       ∧ ti_stage intent = 0%Z ∧ ti_source_revision intent = rev
       ∧ (∃ final, takeover s1 = Some final ∧ ti_stage final = 3%Z)
       ∧ s' = set_takeover None s1 ∧ r = Ok a).
Proof.
  unfold trusted_process_execution_takeover. intros E.
  destruct (_ || _) in E; [injection E as <- <-; split_and!; done|].
  destruct (negb _) in E; [injection E as <- <-; split_and!; done|].
  destruct (takeover s) as [i|] eqn:Et; [injection E as <- <-; split_and!; [done|done|done]|].
  match type of E with context [body (set_takeover (Some ?i) s)] => set (intent := i) in * end.
  destruct (body (set_takeover (Some intent) s)) as [s1 [a|e]] eqn:Eb;
    [|injection E as <- <-; by split_and!].
  destruct (takeover s1) as [final|] eqn:Ef; [|injection E as <- <-; by split_and!].
  destruct (ti_stage final =? 3)%Z eqn:E3; [|injection E as <- <-; by split_and!].
  injection E as <- <-. split_and!; [done|done|]. intros _. exists intent, s1, a.
  apply Z.eqb_eq in E3. split_and!; eauto.
Qed.
End Properties.

(** ** The properties at concrete states *)

Definition worker_amb : Ambient := bind_process_execution host demo_token.

(** A successful run, by evaluating whether it succeeds. *)
Lemma run_succeeds {A} (x : Store * res A) : is_Ok (snd x) = true → ∃ s' r, x = (s', Ok r).
Proof. destruct x as [s' [r|e]]; [eauto|done]. Qed.

Lemma no_lost_update_witness :
  let run := run_ops (H := no_evidence) demo_dumps demo_hash in
  ∃ s1 r1,
    _update_process (H := no_evidence) host "t5" (demo_process "p2" RUNNABLE) false claimed_store
      = (s1, Ok r1)
    ∧ rejected (_update_process (H := no_evidence) host "t6" (demo_process "p2" RUNNABLE) false)
        (run demo_release s1).
Proof.
  intros run.
  destruct (run_succeeds (_update_process (H := no_evidence) host "t5" (demo_process "p2" RUNNABLE)
    false claimed_store)) as (s1 & r1 & E); [by vm_compute|].
  exists s1, r1. split; [exact E|].
  exact (no_lost_update (H := no_evidence) demo_dumps demo_hash host "t5" (demo_process "p2" RUNNABLE)
    false claimed_store s1 r1 demo_release host "t6" (demo_process "p2" RUNNABLE) false
    claimed_inv ltac:(repeat constructor) E eq_refl eq_refl).
Defined.

Lemma worker_cannot_write_other_process_witness :
  rejected (_update_process (H := no_evidence) worker_amb "t5" (demo_process "p2" RUNNABLE) false)
    claimed_store.
Proof.
  apply (worker_cannot_write_other_process (H := no_evidence) worker_amb "t5"
    (demo_process "p2" RUNNABLE) false claimed_store demo_token); [done|by vm_compute|done].
Defined.

Definition claimed_row : AgentProcess :=
  exec_row (demo_process "p1" RUNNABLE) RUNNING None None None 1 "t1" 1
    (Some "worker_1") (Some "lease_1").

Lemma worker_write_needs_lease_witness :
  is_Ok (snd (_update_process (H := no_evidence) worker_amb "t5" claimed_row false claimed_store)) = true
  ∧ holds_lease demo_token claimed_row = true.
Proof.
  split; [by vm_compute|].
  destruct (run_succeeds (_update_process (H := no_evidence) worker_amb "t5" claimed_row
    false claimed_store)) as (s1 & r1 & E); [by vm_compute|].
  apply (worker_write_needs_lease (H := no_evidence) worker_amb "t5" claimed_row false
    claimed_store s1 r1 demo_token claimed_row E); [by split_and!|done|by vm_compute].
Defined.

Lemma patch_process_spec_witness :
  ∃ s' old new, processes claimed_store !! "p2" = Some old ∧ processes s' !! "p2" = Some new
    ∧ status new = status old ∧ goal_oid new = Some "goal" ∧ goal_oid old = None.
Proof.
  destruct (run_succeeds (patch_process (H := no_evidence) host "t5" "p2" [SetGoalOid (Some "goal")]
    0 None claimed_store)) as (s1 & r1 & E); [by vm_compute|].
  destruct (patch_process_spec (H := no_evidence) host "t5" "p2" [SetGoalOid (Some "goal")] 0 None
    claimed_store s1 r1 claimed_inv E)
    as (_ & old & new & Ho & Hn & _ & _ & Hs & _ & _ & _ & Hg & _).
  exists s1, old, new.
  assert (processes claimed_store !! "p2" = Some (demo_process "p2" RUNNABLE)) as Hp by (by vm_compute).
  rewrite Hp in Ho. injection Ho as <-. by split_and!.
Defined.

Lemma apply_process_state_transition_spec_witness :
  ∃ s' new, processes s' !! "p2" = Some new ∧ status new = PAUSED
    ∧ wait_state new = Some (PausedProcessWait None) ∧ state_generation new = 1%Z.
Proof.
  destruct (run_succeeds (apply_process_state_transition (H := no_evidence) demo_dumps host "t5" "p2"
    PAUSED 0 (Some RUNNABLE) (Some 0%Z) (Some (PausedProcessWait None)) None None false None None
    claimed_store)) as (s1 & r1 & E); [by vm_compute|].
  destruct (apply_process_state_transition_spec (H := no_evidence) demo_dumps host "t5" "p2"
    PAUSED 0 (Some RUNNABLE) (Some 0%Z) (Some (PausedProcessWait None)) None None false None None
    claimed_store s1 r1 claimed_inv E)
    as (old & new & Ho & Hn & _ & _ & Hst & Hw & _ & _ & _ & _ & Hg & Hesg & _).
  exists s1, new. split_and!; [done..|]. rewrite Hg, (Hesg 0%Z eq_refl). done.
Defined.

Lemma claim_is_exclusive_witness :
  ∃ s' token, claim_execution "t5" "lease_2" "p2" "worker_2" None claimed_store = (s', Ok (Some token))
    ∧ ∀ now2 lease2 owner2, owner2 ≠ "" →
        claim_execution now2 lease2 "p2" owner2 None s' = (s', Ok None).
Proof.
  destruct (claim_execution "t5" "lease_2" "p2" "worker_2" None claimed_store) as [s' r] eqn:E.
  assert (Hr : r = snd (claim_execution "t5" "lease_2" "p2" "worker_2" None claimed_store))
    by (by rewrite E).
  vm_compute in Hr. subst r. eexists s', _. split; [done|].
  destruct (claim_is_exclusive _ _ _ _ _ _ _ _ claimed_inv E)
    as (old & new & _ & _ & _ & _ & _ & _ & _ & _ & _ & _ & _ & _ & Hx).
  intros now2 lease2 owner2 Ho. by apply Hx.
Defined.

(** A body that walks its intent to the final stage. *)
Definition finishing_body : M Store unit := fun s =>
  (set_takeover (option_map (with_stage 3) (takeover s)) s, Ok tt).

Lemma takeover_scope_closes_witness :
  let scope := trusted_process_execution_takeover "p1" 1 1 demo_token PAUSED "pause" "nonce"
                 None None (Some "paused") None finishing_body in
  is_Ok (snd (scope claimed_store)) = true ∧ takeover (fst (scope claimed_store)) = None.
Proof.
  intros scope. split; [by vm_compute|].
  apply (takeover_scope_closes "p1" 1 1 demo_token PAUSED "pause" "nonce"
    None None (Some "paused") None finishing_body claimed_store _ (snd (scope claimed_store)));
    [by destruct (scope claimed_store) eqn:E|by vm_compute].
Defined.
