(* ===== verification/ProcessTransition.v ===== *)
(** * The process transition service

    [agent_libos/process_transition.py]: the semantic write boundary above the
    store.  The service is written against the repository port it is given;
    the store implements the port's contract. *)

From S2P Require Import Prelude PyStr PyVal ProcessState ProcessModel ProcessStore ProcessWrites ProcessExecution ProcessInvariant ProcessProperties.

(** ** Data *)

Inductive ProcessSignal : Set := PAUSE | RESUME | CANCEL | INTERRUPT | TERMINATE.

Record ProcessStateToken : Type := {
  st_pid : string;
  st_state_generation : Z;
  st_wait_state : option ProcessWaitState;
}.

(** The keyword arguments of a transition. *)
Record TransitionArgs : Type := {
  ta_status : ProcessStatus;
  ta_expected_revision : Z;
  ta_expected_status : option ProcessStatus;
  ta_expected_state_generation : option Z;
  ta_wait_state : option ProcessWaitState;
  ta_outcome : option ProcessOutcome;
  ta_status_message : option string;
  ta_control : bool;
  ta_allowed_statuses : option (list ProcessStatus);
  ta_reason : option string;
}.

(** [_CONDITION_WAIT_TYPES]. *)
Definition is_condition_wait (w : option ProcessWaitState) : bool :=
  match w with
  | Some (ChildProcessWait _) | Some (MessageProcessWait _) | Some (HumanProcessWait _)
  | Some (ToolProcessWait _) => true
  | _ => false
  end.

(** [_CONDITION_WAITING_STATUSES]. *)
Definition is_condition_waiting (s : ProcessStatus) : bool :=
  match s with WAITING_EVENT | WAITING_HUMAN | WAITING_TOOL => true | _ => false end.

(** [type(a) is type(b)] on condition waits. *)
Definition same_wait_type (a b : ProcessWaitState) : bool :=
  match a, b with
  | ChildProcessWait _, ChildProcessWait _ | MessageProcessWait _, MessageProcessWait _
  | HumanProcessWait _, HumanProcessWait _ | ToolProcessWait _, ToolProcessWait _ => true
  | _, _ => false
  end.

(** [set(a) <= set(b)]. *)
Definition ids_subset (a b : list string) : bool :=
  forallb (fun i => bool_decide (i ∈ b)) a.

Definition require_signal_preserves_condition_wait (process : AgentProcess)
    (signal : ProcessSignal) : res unit :=
  match signal with
  | PAUSE | RESUME =>
      if is_condition_waiting (status process)
      then Err (ProcessError "cannot signal waiting process") else Ok tt
  | _ => Ok tt
  end.

Definition require_wait_registration_preserves_owner (process : AgentProcess)
    (w : option ProcessWaitState) : res unit :=
  match w with
  | Some requested =>
      if negb (is_condition_wait w) then Ok tt
      else match wait_state process with
      | None =>
          raise_if (bool_decide (status process = SUSPENDED))
            (ProcessError "cannot register condition wait for suspended process")
      | Some current_wait =>
          if same_wait_type current_wait requested then
            match current_wait, requested with
            | HumanProcessWait current_ids, HumanProcessWait requested_ids =>
                if ids_subset current_ids requested_ids || ids_subset requested_ids current_ids
                then Ok tt
                else Err (ProcessError "cannot replace active human process wait with a mixed request set")
            | _, _ =>
                if wait_state_eqb current_wait requested then Ok tt
                else Err (ProcessError "cannot retarget an active condition wait")
            end
          else Err (ProcessError "cannot replace process wait owned by another condition")
      end
  | None => Ok tt
  end.

Definition wait_token (process : AgentProcess) : res ProcessStateToken :=
  _ ← raise_if (negb (is_condition_wait (wait_state process)))
        (conflict "process has no condition-owned wait state");
  Ok {| st_pid := pid process; st_state_generation := state_generation process;
        st_wait_state := wait_state process |}.

(** ** The repository port *)

Class TransitionRepository (S : Type) : Type := {
  repo_get : string → M S (option AgentProcess);
  repo_transition : string → TransitionArgs → M S AgentProcess;
}.

(** The row an accepted transition leaves behind. *)
Definition transition_effect (args : TransitionArgs) (old new : AgentProcess) : Prop :=
  revision old = ta_expected_revision args
  ∧ revision new = (ta_expected_revision args + 1)%Z
  ∧ status new = ta_status args ∧ wait_state new = ta_wait_state args
  ∧ outcome new = ta_outcome args
  ∧ state_generation new = (state_generation old + 1)%Z
  ∧ (∀ g, ta_expected_state_generation args = Some g → state_generation old = g)
  ∧ (is_terminal (status old) = true → ta_status args = status old).

(** What the service relies on: reads are pure and accepted transitions have
    exactly the requested effect on one row. *)
Class RepositoryLaws (S : Type) `{TransitionRepository S} (row : S → string → option AgentProcess)
    (ok : S → Prop) : Prop := {
  law_get : ∀ p s s' o, ok s → repo_get p s = (s', Ok o) → s' = s ∧ o = row s p;
  law_get_err : ∀ p s s' e, repo_get p s = (s', Err e) → s' = s;
  law_transition : ∀ p args s s' r, ok s → repo_transition p args s = (s', Ok r) →
    ∃ old new, row s p = Some old ∧ row s' p = Some new ∧ transition_effect args old new
               ∧ ∀ q, q ≠ p → row s' q = row s q;
}.

Section Service.
Context {S : Type} `{TransitionRepository S}.

Definition transition (p : string) (args : TransitionArgs) : M S AgentProcess :=
  _ ← lift_res (raise_if (ta_expected_revision args <? 0)%Z
        (ValidationError "process transition expected_revision must be a non-negative integer"));
  _ ← lift_res (raise_if (match ta_expected_state_generation args with
                          | Some g => (g <? 0)%Z | None => false end)
        (ValidationError "process transition expected_state_generation must be a non-negative integer"));
  _ ← lift_res (validate_process_state_fields (status_value (ta_status args))
                  (ta_wait_state args) (ta_outcome args));
  _ ← lift_res (raise_if (is_stale_execution_wait (ta_wait_state args))
        (ValidationError "stale-execution recovery receipts are reserved for Store recovery"));
  _ ← (if is_condition_wait (ta_wait_state args) then
         found ← repo_get p;
         match found with
         | None => mret tt
         | Some current =>
             _ ← lift_res (raise_if (negb (revision current =? ta_expected_revision args)%Z)
                   (conflict "stale process wait registration: revision"));
             _ ← lift_res (raise_if (match ta_expected_state_generation args with
                                     | Some g => negb (state_generation current =? g)%Z
                                     | None => false end)
                   (conflict "stale process wait registration: state generation"));
             lift_res (require_wait_registration_preserves_owner current (ta_wait_state args))
         end
       else mret tt);
  let selected_allowed := match ta_allowed_statuses args with Some l => l | None => [] end in
  _ ← lift_res (raise_if (ta_control args && bool_decide (selected_allowed = []))
        (ValidationError "control process transition requires allowed statuses"));
  let reason :=
    if ta_control args then
      Some (match ta_reason args with
            | Some r => if String.eqb r "" then "semantic process state transition" else r
            | None => "semantic process state transition"
            end)
    else ta_reason args in
  repo_transition p
    {| ta_status := ta_status args; ta_expected_revision := ta_expected_revision args;
       ta_expected_status := ta_expected_status args;
       ta_expected_state_generation := ta_expected_state_generation args;
       ta_wait_state := ta_wait_state args; ta_outcome := ta_outcome args;
       ta_status_message := ta_status_message args; ta_control := ta_control args;
       ta_allowed_statuses := if ta_control args then Some selected_allowed else None;
       ta_reason := reason |}.

Definition wake_args (token : ProcessStateToken) (current : AgentProcess) (control : bool)
    (reason : string) : TransitionArgs :=
  {| ta_status := RUNNABLE; ta_expected_revision := revision current;
     ta_expected_status := Some (status current);
     ta_expected_state_generation := Some (st_state_generation token);
     ta_wait_state := None; ta_outcome := None; ta_status_message := None;
     ta_control := control;
     ta_allowed_statuses := if control then Some [status current] else None;
     ta_reason := Some reason |}.

Definition wake (token : ProcessStateToken) (control : bool) (reason : string) : M S AgentProcess :=
  _ ← lift_res (raise_if (negb (is_condition_wait (st_wait_state token)))
        (conflict "process wait token is not condition-owned"));
  found ← repo_get (st_pid token);
  match found with
  | None => raise (conflict "process no longer exists")
  | Some current =>
      _ ← lift_res (raise_if (negb (state_generation current =? st_state_generation token)%Z)
            (conflict "stale process wait token: state generation"));
      _ ← lift_res (raise_if (negb (wait_eqb (wait_state current) (st_wait_state token)))
            (conflict "stale process wait token: wait state changed"));
      _ ← lift_res (raise_if (negb (is_condition_waiting (status current))
                              || negb (is_condition_wait (wait_state current)))
            (conflict "process is no longer waiting"));
      transition (st_pid token) (wake_args token current control reason)
  end.
End Service.

(** ** What the service guarantees over any lawful repository *)

Section Laws.
Context {S : Type} {row : S → string → option AgentProcess} {ok : S → Prop}.
Context `{RepositoryLaws S row ok}.

(** The condition owner a registration may replace. *)
Definition may_register (process : AgentProcess) (requested : ProcessWaitState) : Prop :=
  match wait_state process with
  | None => status process ≠ SUSPENDED
  | Some (HumanProcessWait current_ids) =>
      ∃ ids, requested = HumanProcessWait ids ∧ (current_ids ⊆ ids ∨ ids ⊆ current_ids)
  | Some current => is_condition_wait (Some current) = true ∧ wait_state_eqb current requested = true
  end.

Lemma ids_subset_spec a b : ids_subset a b = true ↔ a ⊆ b.
Proof.
  unfold ids_subset. rewrite forallb_forall. setoid_rewrite bool_decide_eq_true.
  setoid_rewrite <-list_elem_of_In. done.
Qed.

Lemma require_wait_registration_spec process requested :
  is_condition_wait (Some requested) = true →
  require_wait_registration_preserves_owner process (Some requested) = Ok tt ↔
  may_register process requested.
Proof.
  intros Hc. unfold require_wait_registration_preserves_owner, may_register. rewrite Hc. cbn [negb].
  destruct (wait_state process) as [cur|].
  2:{ rewrite raise_if_Ok, bool_decide_eq_false. done. }
  destruct cur, requested; cbn -[wait_state_eqb ids_subset] in *; try done;
    try (destruct (wait_state_eqb _ _) eqn:E; naive_solver);
    try (split; [done|]; naive_solver).
  destruct (ids_subset _ _ || ids_subset _ _) eqn:E.
  - rewrite orb_true_iff, !ids_subset_spec in E. split; [|done]. intros _. eauto.
  - rewrite orb_false_iff, <-!not_true_iff_false, !ids_subset_spec in E. naive_solver.
Qed.

Lemma transition_Ok p args s s' r :
  ok s → transition p args s = (s', Ok r) →
  (∀ requested, ta_wait_state args = Some requested → is_condition_wait (Some requested) = true →
     ∀ old, row s p = Some old → may_register old requested)
  ∧ ∃ args', repo_transition p args' s = (s', Ok r)
      ∧ ta_status args' = ta_status args ∧ ta_wait_state args' = ta_wait_state args
      ∧ ta_outcome args' = ta_outcome args
      ∧ ta_expected_revision args' = ta_expected_revision args
      ∧ ta_expected_state_generation args' = ta_expected_state_generation args.
Proof.
  intros Hok E. unfold transition in E.
  do 4 (apply M_bind_Ok in E as ([] & ? & Hg & E); injection Hg as <- _).
  apply M_bind_Ok in E as ([] & s1 & Hreg & E).
  apply M_bind_Ok in E as ([] & ? & Hg & E); injection Hg as <- _.
  assert (s1 = s ∧ ∀ requested, ta_wait_state args = Some requested →
     is_condition_wait (Some requested) = true →
     ∀ old, row s p = Some old → may_register old requested) as [-> Hmay].
  { destruct (is_condition_wait (ta_wait_state args)) eqn:Ec.
    - apply M_bind_Ok in Hreg as (found & s2 & Hget & Hreg).
      apply law_get in Hget as [-> ->]; [|done].
      destruct (row s p) as [cur|] eqn:Hrow; [|by injection Hreg as <-].
      do 2 (apply M_bind_Ok in Hreg as ([] & ? & Hg & Hreg); injection Hg as <- _).
      injection Hreg as <- Hreg. split; [done|]. intros requested Hw Hc old [= <-].
      rewrite Hw in Hreg. by apply require_wait_registration_spec in Hreg.
    - injection Hreg as <-. split; [done|]. intros requested Hw Hc. rewrite Hw in Ec. congruence. }
  split; [done|]. eexists. split; [exact E|]. by split_and!.
Qed.

Lemma wake_Ok token control reason s s' r :
  ok s → wake token control reason s = (s', Ok r) →
  ∃ old new, row s (st_pid token) = Some old ∧ row s' (st_pid token) = Some new
    ∧ state_generation old = st_state_generation token
    ∧ wait_eqb (wait_state old) (st_wait_state token) = true
    ∧ is_condition_waiting (status old) = true
    ∧ status new = RUNNABLE ∧ wait_state new = None ∧ outcome new = None
    ∧ state_generation new = (st_state_generation token + 1)%Z
    ∧ ∀ q, q ≠ st_pid token → row s' q = row s q.
Proof.
  intros Hok E. unfold wake in E. apply M_bind_Ok in E as ([] & ? & Hg & E); injection Hg as <- _.
  apply M_bind_Ok in E as (found & s1 & Hget & E). apply law_get in Hget as [-> ->]; [|done].
  destruct (row s (st_pid token)) as [old|] eqn:Hrow; [|done].
  apply M_bind_Ok in E as ([] & ? & Hsg & E); injection Hsg as <- Hsg.
  apply M_bind_Ok in E as ([] & ? & Hw & E); injection Hw as <- Hw.
  apply M_bind_Ok in E as ([] & ? & Hst & E); injection Hst as <- Hst.
  apply raise_if_Ok, negb_false_iff in Hsg. apply Z.eqb_eq in Hsg.
  apply raise_if_Ok, negb_false_iff in Hw.
  apply raise_if_Ok, orb_false_iff in Hst as [Hst _]. apply negb_false_iff in Hst.
  apply transition_Ok in E as (_ & args' & E & A1 & A2 & A3 & A4 & A5); [|done].
  apply law_transition in E as (old' & new & Ho & Hn & Heff & Hoth); [|done].
  rewrite Hrow in Ho. injection Ho as <-.
  destruct Heff as (_ & _ & E1 & E2 & E3 & E4 & _). exists old, new.
  rewrite A1 in E1. rewrite A2 in E2. rewrite A3 in E3. rewrite Hsg in E4. by split_and!.
Qed.

(** A token of another generation wakes nothing. *)
Lemma wake_stale token control reason s s' r cur :
  ok s → row s (st_pid token) = Some cur → state_generation cur ≠ st_state_generation token →
  wake token control reason s = (s', r) → s' = s ∧ is_Ok r = false.
Proof.
  intros Hok Hrow Hne E. unfold wake, mbind, M_bind, lift_res in E.
  destruct (raise_if _ _); [|by injection E as <- <-].
  destruct (repo_get (st_pid token) s) as [s1 [found|e]] eqn:Eg.
  - apply law_get in Eg as [-> ->]; [|done]. rewrite Hrow in E.
    rewrite (proj2 (Z.eqb_neq _ _) Hne) in E. cbn in E. by injection E as <- <-.
  - apply law_get_err in Eg as ->. by injection E as <- <-.
Qed.
End Laws.

(** ** The store implements the port *)

Section OnStore.
Context `{ExecEvidence}.
Variable json_dumps : list (string * json) → string.
Variable sha256_hex : string → string.

Definition store_repository (amb : Ambient) (now : string) : TransitionRepository Store := {|
  repo_get := get_process;
  repo_transition p args :=
    apply_process_state_transition json_dumps amb now p (ta_status args)
      (ta_expected_revision args) (ta_expected_status args) (ta_expected_state_generation args)
      (ta_wait_state args) (ta_outcome args) (ta_status_message args) (ta_control args)
      (ta_allowed_statuses args) (ta_reason args)
|}.

Definition store_row (s : Store) (p : string) : option AgentProcess := processes s !! p.

(** The store fulfils the contract the transition service is written against:
    reads do not write, and an accepted transition changes exactly one row, in
    exactly the requested way. *)
#[export] Instance store_repository_laws amb now :
  @RepositoryLaws Store (store_repository amb now) store_row store_inv.
Proof.
  split.
  - intros p s s' o _ E. by apply get_process_Ok in E.
  - intros p s s' e E. by apply read_only_get_process in E.
  - intros p args s s' r Hinv E.
    apply transition_run in E; [|done].
    destruct E as (old & new & Ho & Hn & R1 & R2 & S1 & W & O & _ & _ & _ & G & Eg & T & _ & Q).
    exists old, new. by split_and!.
Qed.

Lemma transition_preserves_store amb now p args :
  preserves (@transition Store (store_repository amb now) p args).
Proof.
  unfold transition. do 4 (apply preserves_bind; [apply preserves_lift|intros ?]).
  apply preserves_bind.
  - destruct (is_condition_wait _); [|apply preserves_ret].
    apply preserves_bind; [apply preserves_get_process|intros [?|]; [|apply preserves_ret]].
    do 2 (apply preserves_bind; [apply preserves_lift|intros ?]). apply preserves_lift.
  - intros ?. apply preserves_bind; [apply preserves_lift|intros ?]. apply transition_preserves.
Qed.

Lemma wake_preserves amb now token control reason :
  preserves (@wake Store (store_repository amb now) token control reason).
Proof.
  unfold wake. apply preserves_bind; [apply preserves_lift|intros ?].
  apply preserves_bind; [apply preserves_get_process|intros [?|]; [|apply preserves_raise]].
  do 3 (apply preserves_bind; [apply preserves_lift|intros ?]).
  apply transition_preserves_store.
Qed.

(** (C34) A wait token wakes exactly the wait it was issued for, once: a
    successful wake finds the process still waiting on that wait in that
    generation, makes it RUNNABLE with no wait and leaves every other row
    alone; and no later wake with the same token, after any operations and by
    any caller, succeeds or writes anything, even if an equal wait has been
    registered again. *)
Theorem wake_is_one_shot amb now token control reason s s' r ops amb2 now2 control2 reason2 :
  store_inv s → Forall op_ok ops →
  @wake Store (store_repository amb now) token control reason s = (s', Ok r) →
  (∃ old new, processes s !! st_pid token = Some old ∧ processes s' !! st_pid token = Some new
     ∧ state_generation old = st_state_generation token
     ∧ wait_eqb (wait_state old) (st_wait_state token) = true
     ∧ is_condition_waiting (status old) = true
     ∧ status new = RUNNABLE ∧ wait_state new = None ∧ outcome new = None
     ∧ ∀ q, q ≠ st_pid token → processes s' !! q = processes s !! q)
  ∧ let s2 := run_ops json_dumps sha256_hex ops s' in
    ∃ e, @wake Store (store_repository amb2 now2) token control2 reason2 s2 = (s2, Err e).
Proof.
  intros Hinv Hok E.
  assert (Hle : store_le s s').
  { assert (preserves (@wake Store (store_repository amb now) token control reason)) as Hp.
    { apply wake_preserves. }
    by eapply Hp. }
  pose proof (wake_Ok (S := Store) (row := store_row) (ok := store_inv) _ _ _ _ _ _ Hinv E)
    as
    (old & new & Ho & Hn & Hg & Hw & Hc & Hs & Hwn & Hon & Hgn & Hq).
  unfold store_row in *. split; [exists old, new; by split_and!|].
  set (s2 := run_ops json_dumps sha256_hex ops s').
  pose proof (le_inv _ _ Hle Hinv) as Hinv'.
  destruct (le_rows _ _ (run_ops_le json_dumps sha256_hex ops s' Hok Hinv') _ _ Hn) as (cur & Hcur & Hrow).
  pose proof (le_inv _ _ (run_ops_le json_dumps sha256_hex ops s' Hok Hinv') Hinv') as Hinv2.
  fold s2 in Hcur, Hinv2.
  destruct (@wake Store (store_repository amb2 now2) token control2 reason2 s2) as [s3 r3] eqn:E2.
  apply (wake_stale (S := Store) (row := store_row) (ok := store_inv) _ _ _ _ _ _ cur) in E2
    as [-> Hr]; [|done|done|].
  - destruct r3 as [?|e]; [done|by exists e].
  - destruct Hrow as [->|Hev]; [lia|]. pose proof (ev_state_gen _ _ Hev). lia.
Qed.

(** Registering a condition wait never steals a wait: a committed
    transition to a child, message, human or tool wait finds the process either
    not waiting at all and not suspended, or waiting in the same domain on an
    equal wait, or on a human request set comparable with the requested one. *)
Theorem wait_registration_keeps_owner amb now p args s s' r requested old :
  store_inv s → @transition Store (store_repository amb now) p args s = (s', Ok r) →
  ta_wait_state args = Some requested → is_condition_wait (Some requested) = true →
  processes s !! p = Some old →
  match wait_state old with
  | None => status old ≠ SUSPENDED
  | Some (HumanProcessWait current) =>
      ∃ ids, requested = HumanProcessWait ids ∧ (current ⊆ ids ∨ ids ⊆ current)
  | Some current => is_condition_wait (Some current) = true ∧ wait_state_eqb current requested = true
  end.
Proof.
  intros Hinv E Hw Hc Ho.
  pose proof (transition_Ok (S := Store) (row := store_row) (ok := store_inv) _ _ _ _ _ Hinv E)
    as [Hmay _]. by apply (Hmay _ Hw Hc).
Qed.

(** Generic pause and resume signals never reach a process that a
    condition owns; every other signal, and every process that is not waiting
    on a condition, passes. *)
Theorem signal_preserves_condition_wait process signal :
  is_Ok (require_signal_preserves_condition_wait process signal) = false ↔
  signal ∈ [PAUSE; RESUME] ∧ status process ∈ [WAITING_EVENT; WAITING_HUMAN; WAITING_TOOL].
Proof.
  unfold require_signal_preserves_condition_wait, is_condition_waiting.
  destruct signal, (status process); cbn; set_solver.
Qed.
End OnStore.

(** ** Concrete runs *)

Definition wait_child : option ProcessWaitState := Some (ChildProcessWait "p1").

(** [p2] waits for its child [p1]. *)
Definition waiting_ops : list process_op :=
  [OpTransition host "t4" "p2" WAITING_EVENT 0 None None wait_child None None false None None].

Definition waiting_store : Store :=
  run_ops (H := no_evidence) demo_dumps demo_hash waiting_ops claimed_store.

Lemma waiting_inv : store_inv waiting_store.
Proof.
  apply (le_inv _ _ (run_ops_le (H := no_evidence) demo_dumps demo_hash waiting_ops claimed_store
    ltac:(repeat constructor) claimed_inv)), claimed_inv.
Qed.

Definition child_token : ProcessStateToken :=
  {| st_pid := "p2"; st_state_generation := 1; st_wait_state := wait_child |}.

Definition demo_repository : TransitionRepository Store :=
  store_repository (H := no_evidence) demo_dumps host "t5".

(** After the wake the same wait is registered again. *)
Definition rewait_ops : list process_op :=
  [OpTransition host "t6" "p2" WAITING_EVENT 2 None None wait_child None None false None None].

Lemma wake_is_one_shot_witness :
  ∃ s' r, @wake Store demo_repository child_token true "child exited" waiting_store = (s', Ok r)
    ∧ let s2 := run_ops (H := no_evidence) demo_dumps demo_hash rewait_ops s' in
      ∃ e, @wake Store demo_repository child_token true "again" s2 = (s2, Err e).
Proof.
  destruct (run_succeeds (@wake Store demo_repository child_token true "child exited" waiting_store))
    as (s' & r & E); [by vm_compute|].
  exists s', r. split; [done|].
  exact (proj2 (wake_is_one_shot (H := no_evidence) demo_dumps demo_hash host "t5" child_token true
    "child exited" waiting_store s' r rewait_ops host "t5" true "again" waiting_inv
    ltac:(repeat constructor) E)).
Defined.

Definition register_args : TransitionArgs :=
  {| ta_status := WAITING_EVENT; ta_expected_revision := 0; ta_expected_status := None;
     ta_expected_state_generation := None; ta_wait_state := wait_child; ta_outcome := None;
     ta_status_message := None; ta_control := false; ta_allowed_statuses := None;
     ta_reason := None |}.

Lemma wait_registration_keeps_owner_witness :
  is_Ok (snd (@transition Store demo_repository "p2" register_args claimed_store)) = true
  ∧ status (demo_process "p2" RUNNABLE) ≠ SUSPENDED.
Proof.
  split; [by vm_compute|].
  destruct (run_succeeds (@transition Store demo_repository "p2" register_args claimed_store))
    as (s' & r & E); [by vm_compute|].
  exact (wait_registration_keeps_owner (H := no_evidence) demo_dumps host "t5" "p2" register_args
    claimed_store s' r (ChildProcessWait "p1") (demo_process "p2" RUNNABLE) claimed_inv E eq_refl
    eq_refl ltac:(vm_compute; reflexivity)).
Defined.
