(* ===== verification/ResourceAuthority.v ===== *)
(** * Resource patterns

    [agent_libos/capability/resources.py] and the pattern types of
    [agent_libos/models/capability.py]: canonical typed resources, the pattern
    parser, matching of a grant against a request, and the cover relation
    delegation is checked with. *)

From S2P Require Import Prelude PyStr.
From Stdlib Require Import Ascii.

(** ** Canonical spelling *)

(** [raw.replace("//", "/")]: left to right, without overlaps. *)
Fixpoint replace_dslash (s : string) : string :=
  match s with
  | String a ((String b r) as s') =>
      if Ascii.eqb a "/" && Ascii.eqb b "/" then String "/" (replace_dslash r)
      else String a (replace_dslash s')
  | _ => s
  end.

(** ["//" in raw]. *)
Fixpoint has_dslash (s : string) : bool :=
  match s with
  | String a ((String b _) as s') => Ascii.eqb a "/" && Ascii.eqb b "/" || has_dslash s'
  | _ => false
  end.

(** [while "//" in raw: raw = raw.replace("//", "/")].  Every round shortens
    the string, so its length is enough fuel. *)
Fixpoint squeeze (fuel : nat) (raw : string) : string :=
  match fuel with
  | 0 => raw
  | S fuel => if has_dslash raw then squeeze fuel (replace_dslash raw) else raw
  end.

Definition canonical (resource : string) : string :=
  let raw := strip resource in
  let raw := squeeze (String.length raw) raw in
  if endswith "/" raw && negb (endswith ":/" raw) then rstrip_char "/" raw else raw.

(** ** Patterns *)

(** [GLOBAL] is declared by the enum and produced by no parser. *)
Inductive ResourceScope : Set := EXACT | SUBTREE | PREFIX | GLOBAL.

#[export] Instance scope_eq_dec : EqDecision ResourceScope.
Proof. solve_decision. Defined.

Record ResourcePattern : Set := {
  rp_raw : string;
  rp_kind : string;
  rp_body : string;
  rp_scope : ResourceScope;
}.

Definition parse (resource : string) (requested : bool) : res ResourcePattern :=
  let raw := canonical resource in
  _ ← raise_if (String.eqb raw "*")
        (CapabilityDenied "capability resources must be typed; use '<kind>:*' instead of global '*'");
  _ ← raise_if (contains_char "*" raw && negb (endswith ":*" raw || endswith "/*" raw))
        (CapabilityDenied "resource wildcard must be terminal and canonical");
  match split_once ":" raw with
  | None => Err (CapabilityDenied "resource must be typed")
  | Some (kind, body) =>
      _ ← raise_if (String.eqb kind "" || String.eqb body "")
            (CapabilityDenied "resource must be typed");
      if endswith ":*" raw then
        _ ← raise_if (requested && negb (String.eqb raw resource))
              (CapabilityDenied "requested resource is not canonical");
        Ok {| rp_raw := raw; rp_kind := kind; rp_body := drop_last 2 body; rp_scope := PREFIX |}
      else if endswith "/*" raw then
        Ok {| rp_raw := raw; rp_kind := kind; rp_body := rstrip_char "/" (drop_last 2 body);
              rp_scope := SUBTREE |}
      else Ok {| rp_raw := raw; rp_kind := kind; rp_body := body; rp_scope := EXACT |}
  end.

Definition pattern_matches (pattern request : ResourcePattern) : bool :=
  if negb (String.eqb (rp_kind pattern) (rp_kind request)) then false
  else match rp_scope pattern with
  | EXACT => String.eqb (rp_raw pattern) (rp_raw request)
  | PREFIX =>
      if String.eqb (rp_body pattern) "" then startswith (rp_kind pattern +:+ ":") (rp_raw request)
      else startswith (rp_kind pattern +:+ ":" +:+ rp_body pattern +:+ ":") (rp_raw request)
           || String.eqb (rp_raw request) (rp_kind pattern +:+ ":" +:+ rp_body pattern)
  | SUBTREE =>
      String.eqb (rp_body request) (rp_body pattern)
      || startswith (rp_body pattern +:+ "/") (rp_body request)
  | GLOBAL => false
  end.

(** [except CapabilityDenied: return False]: [parse] raises nothing else. *)
Definition matches (granted requested : string) : bool :=
  match parse granted false, parse requested true with
  | Ok pattern, Ok request => pattern_matches pattern request
  | _, _ => false
  end.

Definition covers (granted requested_pattern : string) : bool :=
  match parse requested_pattern false with
  | Ok requested => matches granted (rp_raw requested)
  | Err _ => false
  end.

Example matches_subtree : matches "fs:/a/*" "fs:/a/b" = true ∧ matches "fs:/a/*" "fs:/ab" = false.
Proof. by vm_compute. Qed.

(** ** The canonical spelling *)

Lemma replace_dslash_length s : String.length (replace_dslash s) <= String.length s.
Proof.
  assert (H : ∀ n s, String.length s <= n → String.length (replace_dslash s) <= String.length s).
  { induction n as [|n IH]; intros t Ht; [destruct t; cbn in *; lia|].
    destruct t as [|a [|b r]]; [done|done|]. cbn in Ht. change (replace_dslash (String a (String b r))) with
      (if Ascii.eqb a "/" && Ascii.eqb b "/" then String "/" (replace_dslash r)
       else String a (replace_dslash (String b r))).
    destruct (_ && _).
    - specialize (IH r ltac:(lia)). cbn. lia.
    - specialize (IH (String b r) ltac:(cbn; lia)). cbn -[replace_dslash] in *. lia. }
  by apply (H (String.length s)).
Qed.

Lemma replace_dslash_cons a b r :
  replace_dslash (String a (String b r))
  = if Ascii.eqb a "/" && Ascii.eqb b "/" then String "/" (replace_dslash r)
    else String a (replace_dslash (String b r)).
Proof. done. Qed.

(** A round that finds a double slash removes at least one. *)
Lemma replace_dslash_shrinks s :
  has_dslash s = true → String.length (replace_dslash s) < String.length s.
Proof.
  induction s as [|a s IH]; [done|]. destruct s as [|b r]; [done|].
  intros H. change (has_dslash (String a (String b r)))
    with (Ascii.eqb a "/" && Ascii.eqb b "/" || has_dslash (String b r)) in H.
  rewrite replace_dslash_cons. destruct (_ && _) eqn:E.
  - pose proof (replace_dslash_length r). cbn. lia.
  - cbn [orb] in H. specialize (IH H). cbn -[replace_dslash] in *. lia.
Qed.

Lemma squeeze_no_dslash n s : String.length s <= n → has_dslash (squeeze n s) = false.
Proof.
  revert s. induction n as [|n IH]; intros s Hn; cbn.
  - destruct s; [done|cbn in Hn; lia].
  - destruct (has_dslash s) eqn:E; [|done]. apply IH.
    pose proof (replace_dslash_shrinks s E). lia.
Qed.

(** The specification of the loop: runs of slashes collapse to one. *)
Fixpoint collapse (s : string) : string :=
  match s with
  | String a ((String b _) as s') =>
      if Ascii.eqb a "/" && Ascii.eqb b "/" then collapse s' else String a (collapse s')
  | _ => s
  end.

Lemma collapse_no_dslash s : has_dslash s = false → collapse s = s.
Proof.
  induction s as [|a s IH]; [done|]. destruct s as [|b r]; [done|].
  cbn [has_dslash collapse]. intros [H1 H2]%orb_false_iff. rewrite H1. f_equal. by apply IH.
Qed.

Lemma collapse_slash s :
  collapse (String "/" s) =
  match s with
  | String b _ => if Ascii.eqb b "/" then collapse s else String "/" (collapse s)
  | EmptyString => "/"
  end.
Proof. by destruct s. Qed.

Lemma collapse_cons a b r :
  collapse (String a (String b r))
  = if Ascii.eqb a "/" && Ascii.eqb b "/" then collapse (String b r)
    else String a (collapse (String b r)).
Proof. done. Qed.

Lemma replace_head s :
  match replace_dslash s, s with
  | String a _, String b _ => a = b
  | EmptyString, EmptyString => True
  | _, _ => False
  end.
Proof.
  destruct s as [|a [|b r]]; [done|done|]. rewrite replace_dslash_cons.
  destruct (_ && _) eqn:E; [|done]. by apply andb_true_iff in E as [->%Ascii.eqb_eq _].
Qed.

Lemma collapse_replace s : collapse (replace_dslash s) = collapse s.
Proof.
  assert (H : ∀ n s, String.length s <= n → collapse (replace_dslash s) = collapse s).
  { induction n as [|n IH]; intros t Ht; [destruct t; [done|cbn in Ht; lia]|].
    destruct t as [|a [|b r]]; [done|done|]. rewrite replace_dslash_cons. cbn in Ht.
    destruct (Ascii.eqb a "/" && Ascii.eqb b "/") eqn:E.
    - rewrite collapse_cons, E.
      apply andb_true_iff in E as [->%Ascii.eqb_eq ->%Ascii.eqb_eq].
      pose proof (replace_head r) as Hh. rewrite !collapse_slash.
      specialize (IH r ltac:(lia)). destruct (replace_dslash r), r; try done. subst. by rewrite IH.
    - pose proof (replace_head (String b r)) as Hh.
      specialize (IH (String b r) ltac:(cbn; lia)).
      destruct (replace_dslash (String b r)) as [|c q] eqn:Eq; [done|]. subst c.
      rewrite !collapse_cons, E. by f_equal. }
  by apply (H (String.length s)).
Qed.

Lemma squeeze_collapse n s : String.length s <= n → squeeze n s = collapse s.
Proof.
  revert s. induction n as [|n IH]; intros s Hn; cbn.
  - destruct s; [done|cbn in Hn; lia].
  - destruct (has_dslash s) eqn:E; [|symmetry; by apply collapse_no_dslash].
    rewrite IH, collapse_replace; [done|]. pose proof (replace_dslash_shrinks s E). lia.
Qed.

Lemma has_dslash_app a b : has_dslash (a +:+ b) = false → has_dslash a = false ∧ has_dslash b = false.
Proof.
  induction a as [|c a IH]; [done|]. intros H.
  assert (Hab : has_dslash (a +:+ b) = false).
  { destruct a as [|d a]; cbn in *.
    - destruct b as [|d b]; [done|]. by apply orb_false_iff in H as [_ ?].
    - by apply orb_false_iff in H as [_ ?]. }
  destruct (IH Hab) as [Ha Hb]. split; [|done].
  destruct a as [|d a]; [done|]. cbn in *. apply orb_false_iff in H as [H _].
  by rewrite H, Ha.
Qed.

Lemma rstrip_by_prefix p s : ∃ t, s = rstrip_by p s +:+ t.
Proof.
  induction s as [|c s [t IH]]; [by exists ""|]. cbn [rstrip_by].
  destruct (rstrip_by p s) as [|d r] eqn:E.
  - destruct (p c); [by exists (String c s)|]. by exists s.
  - exists t. cbn in *. by rewrite IH at 1.
Qed.

Lemma canonical_no_dslash s : has_dslash (canonical s) = false.
Proof.
  unfold canonical. set (raw := squeeze _ _).
  assert (H : has_dslash raw = false) by (by apply squeeze_no_dslash).
  destruct (_ && _); [|done].
  destruct (rstrip_by_prefix (Ascii.eqb "/") raw) as [t Ht]. rewrite Ht in H.
  by apply has_dslash_app in H as [? _].
Qed.

(** The canonical spelling of a resource is the stripped text with every
    run of slashes collapsed to one (the loop always terminates and computes
    exactly that), without its trailing slash unless that slash directly
    follows the kind; it never contains a double slash. *)
Theorem canonical_spec resource :
  canonical resource
  = (let raw := collapse (strip resource) in
     if endswith "/" raw && negb (endswith ":/" raw) then rstrip_char "/" raw else raw)
  ∧ has_dslash (canonical resource) = false.
Proof.
  split; [|apply canonical_no_dslash]. unfold canonical. by rewrite squeeze_collapse.
Qed.

(** ** What the parser accepts *)

Lemma app_suffix a b x y :
  a +:+ b = x +:+ y → String.length y <= String.length b → ∃ z, b = z +:+ y ∧ x = a +:+ z.
Proof.
  revert x. induction a as [|c a IH]; intros x; cbn.
  - intros -> _. by exists x.
  - destruct x as [|d x]; cbn.
    + intros <- Hl. cbn in Hl. rewrite string_length_app in Hl. lia.
    + intros [= <- E] Hl. destruct (IH _ E Hl) as (z & -> & ->). by exists z.
Qed.

Lemma rstrip_slash_fix z : has_dslash (z +:+ "/*") = false → rstrip_char "/" z = z.
Proof.
  unfold rstrip_char. induction z as [|c z IH]; [done|]. intros H.
  change (String c z +:+ "/*") with (String c "" +:+ (z +:+ "/*")) in H.
  apply has_dslash_app in H as Hz. destruct Hz as [_ Hz]. cbn [rstrip_by]. rewrite (IH Hz).
  destruct z as [|d z]; [|done]. cbn in H. rewrite orb_false_r, andb_true_r in H.
  by rewrite Ascii.eqb_sym, H.
Qed.

(** The shape of an accepted pattern: its text is [kind:rest], and the scope
    says how the body is the rest. *)
Definition pattern_shape (P : ResourcePattern) (rest : string) : Prop :=
  rp_raw P = rp_kind P +:+ ":" +:+ rest
  ∧ contains_char ":" (rp_kind P) = false ∧ rp_kind P ≠ "" ∧ rest ≠ ""
  ∧ match rp_scope P with
    | EXACT => rp_body P = rest ∧ contains_char "*" (rp_raw P) = false
    | PREFIX => rest = "*" ∧ rp_body P = "" ∨ rest = rp_body P +:+ ":*"
    | SUBTREE => rest = rp_body P +:+ "/*"
    | GLOBAL => False
    end.

Lemma parse_shape r req P :
  parse r req = Ok P → rp_raw P = canonical r ∧ ∃ rest, pattern_shape P rest.
Proof.
  unfold parse. pose proof (canonical_no_dslash r) as Hd.
  intros H. res_simpl. rename select (_ && negb _ = false) into Hstar.
  destruct (split_once ":" (canonical r)) as [[kind rest]|] eqn:Es; [|done].
  apply split_once_spec in Es as [Eraw Hkind].
  change (String ":" rest) with (":" +:+ rest) in Eraw. res_simpl.
  repeat match goal with X : String.eqb _ _ = false |- _ => apply String.eqb_neq in X end.
  assert (Hlen : 1 <= String.length rest) by (destruct rest; [done|cbn; lia]).
  destruct (endswith ":*" (canonical r)) eqn:Ep; [|destruct (endswith "/*" (canonical r)) eqn:Eb]; res_simpl;
    (split; [done|exists rest]); (split; [done|]); (split_and!; [done..|]); cbn [rp_scope rp_body rp_raw].
  - apply endswith_spec in Ep as [x Ex].
    destruct (decide (String.length rest = 1)) as [E1|E1].
    + left. assert (rest = "*") as ->; [|by split].
      destruct (app_suffix (kind +:+ ":") rest (x +:+ ":") "*") as (z & -> & _);
        [by rewrite !string_app_assoc, <-Eraw, Ex|cbn; lia|].
      rewrite string_length_app in E1. destruct z; [done|cbn in E1; lia].
    + right. destruct (app_suffix (kind +:+ ":") rest x ":*") as (z & -> & _);
        [by rewrite string_app_assoc, <-Eraw|cbn; lia|].
      by rewrite (drop_last_app z ":*" : drop_last 2 (z +:+ ":*") = z).
  - apply endswith_spec in Eb as [x Ex].
    destruct (decide (String.length rest = 1)) as [E1|E1].
    + exfalso. destruct (app_suffix kind (":" +:+ rest) x "/*") as (z & Ez & _);
        [by rewrite <-Eraw|cbn; lia|].
      assert (z = "") as ->; [|by cbn in Ez; injection Ez].
      destruct z; [done|]. apply (f_equal String.length) in Ez. cbn in Ez.
      rewrite string_length_app in Ez. cbn in Ez. lia.
    + destruct (app_suffix (kind +:+ ":") rest x "/*") as (z & -> & _);
        [by rewrite string_app_assoc, <-Eraw|cbn; lia|].
      rewrite (drop_last_app z "/*" : drop_last 2 (z +:+ "/*") = z), rstrip_slash_fix; [done|].
      rewrite Eraw in Hd. apply has_dslash_app in Hd as [_ Hd].
      by apply (has_dslash_app ":" (z +:+ "/*")) in Hd as [_ ?].
  - split; [done|]. by rewrite andb_true_r in Hstar.
Qed.

(** ** Matching *)

Lemma startswith_app_cancel a b c : startswith (a +:+ b) (a +:+ c) = startswith b c.
Proof. induction a as [|x a IH]; cbn; [done|]. by rewrite Ascii.eqb_refl. Qed.

Lemma app_eqb_cancel a b c : String.eqb (a +:+ b) (a +:+ c) = String.eqb b c.
Proof. induction a as [|x a IH]; cbn; [done|]. by rewrite Ascii.eqb_refl. Qed.

(** Matching read on the parts after the common kind. *)
Definition rest_matches (P : ResourcePattern) (rest : string) (R : ResourcePattern) (rrest : string) : Prop :=
  match rp_scope P with
  | EXACT => rrest = rest
  | PREFIX => rp_body P = "" ∨ rrest = rp_body P ∨ ∃ t, rrest = rp_body P +:+ ":" +:+ t
  | SUBTREE => rp_body R = rp_body P ∨ ∃ t, rp_body R = rp_body P +:+ "/" +:+ t
  | GLOBAL => False
  end.

Lemma pattern_matches_spec P rest R rrest :
  pattern_shape P rest → pattern_shape R rrest →
  pattern_matches P R = true ↔ rp_kind P = rp_kind R ∧ rest_matches P rest R rrest.
Proof.
  intros (EP & _) (ER & _). unfold pattern_matches, rest_matches.
  destruct (String.eqb_spec (rp_kind P) (rp_kind R)) as [Hk|Hk]; cbn; [|naive_solver].
  rewrite EP, ER, <-Hk. destruct (rp_scope P).
  - rewrite !app_eqb_cancel, String.eqb_eq. naive_solver.
  - rewrite orb_true_iff, String.eqb_eq, startswith_spec.
    setoid_rewrite string_app_assoc. naive_solver.
  - destruct (String.eqb_spec (rp_body P) "") as [E|E].
    + rewrite <-string_app_assoc, startswith_app. naive_solver.
    + rewrite startswith_app_cancel, app_eqb_cancel.
      change (startswith (rp_body P +:+ ":") rrest || String.eqb rrest (rp_body P) = true ↔
        rp_kind P = rp_kind P ∧ (rp_body P = "" ∨ rrest = rp_body P
          ∨ ∃ t, rrest = rp_body P +:+ ":" +:+ t)).
      rewrite orb_true_iff, String.eqb_eq, startswith_spec. setoid_rewrite string_app_assoc.
      naive_solver.
  - naive_solver.
Qed.

(** (C40) A grant matches a concrete request exactly when both are well typed,
    of the same kind, and the request is: the same text for an exact grant;
    below a colon boundary of the body (or the body itself, or anything of the
    kind when the body is empty) for a [:*] grant; and the body itself or below
    a slash boundary of it for a [/*] grant.  No grant crosses into an
    adjacent name. *)
Theorem matches_spec granted requested :
  contains_char "*" (canonical requested) = false →
  matches granted requested = true ↔
  ∃ P R, parse granted false = Ok P ∧ parse requested true = Ok R ∧ rp_kind P = rp_kind R
    ∧ match rp_scope P with
      | EXACT => rp_raw R = rp_raw P
      | PREFIX => rp_body P = "" ∨ rp_body R = rp_body P ∨ ∃ t, rp_body R = rp_body P +:+ ":" +:+ t
      | SUBTREE => rp_body R = rp_body P ∨ ∃ t, rp_body R = rp_body P +:+ "/" +:+ t
      | GLOBAL => False
      end.
Proof.
  intros Hstar. unfold matches.
  destruct (parse granted false) as [P|] eqn:EP; [|naive_solver].
  destruct (parse requested true) as [R|] eqn:ER; [|naive_solver].
  apply parse_shape in EP as HP. destruct HP as (_ & rest & HP).
  apply parse_shape in ER as HR. destruct HR as (HRraw & rrest & HR).
  assert (Hexact : rp_body R = rrest).
  { destruct HR as (Eraw & _ & _ & _ & Hs). rewrite <-HRraw, Eraw in Hstar.
    rewrite !contains_char_app in Hstar. apply orb_false_iff in Hstar as [_ Hstar].
    apply orb_false_iff in Hstar as [_ Hstar].
    destruct (rp_scope R); [by destruct Hs|..|done].
    - rewrite Hs, contains_char_app in Hstar. by rewrite orb_true_r in Hstar.
    - destruct Hs as [[-> _]|Hs]; [done|].
      rewrite Hs, contains_char_app in Hstar. by rewrite orb_true_r in Hstar. }
  rewrite (pattern_matches_spec P rest R rrest) by done. unfold rest_matches. split.
  - intros [Hk H]. exists P, R. split_and!; [done..|].
    destruct (rp_scope P) eqn:Es; [|done|by rewrite Hexact|done].
    subst rrest. destruct HP as (-> & _), HR as (-> & _). by rewrite Hk, H.
  - intros (P' & R' & [= <-] & [= <-] & Hk & H). split; [done|].
    destruct (rp_scope P) eqn:Es; [|done|by rewrite <-Hexact|done].
    destruct HP as (E1 & _), HR as (E2 & _). rewrite E1, E2, Hk in H.
    by do 2 apply string_app_inj in H.
Qed.

Lemma matches_spec_witness :
  contains_char "*" (canonical "fs:/srv/a.txt") = false
  ∧ matches "fs:/srv/*" "fs:/srv/a.txt" = true ∧ matches "fs:/srv/*" "fs:/srvx/a.txt" = false.
Proof.
  split; [by vm_compute|]. split.
  - apply matches_spec; [by vm_compute|]. eexists _, _. split_and!; [by vm_compute..|]. right. by exists "a.txt".
  - apply not_true_iff_false. intros H. by vm_compute in H.
Defined.

(** ** Delegation *)

Lemma string_app_inj_r a b c : a +:+ c = b +:+ c → a = b.
Proof.
  revert b. induction a as [|x a IH]; intros [|y b] E; cbn in *; [done|..].
  - apply (f_equal String.length) in E. cbn in E. rewrite string_length_app in E. lia.
  - apply (f_equal String.length) in E. cbn in E. rewrite string_length_app in E. lia.
  - injection E as <- E. f_equal. by apply IH.
Qed.

(** [b ++ ":" ++ t] and [B ++ ":*"] agree only at or below [b]. *)
Lemma prefix_body b B t :
  b +:+ ":" +:+ t = B +:+ ":*" → B = b ∨ ∃ z, B = b +:+ ":" +:+ z.
Proof.
  intros E. destruct (decide (2 <= String.length t)) as [Hl|Hl].
  - destruct (app_suffix (b +:+ ":") t B ":*") as (z & -> & ->); [by rewrite string_app_assoc|done|].
    right. exists z. by rewrite string_app_assoc.
  - left. destruct (decide (t = "")) as [->|Hne].
    + exfalso. destruct (app_suffix b ":" (B +:+ ":") "*") as (z & Ez & _);
        [by rewrite string_app_assoc|done|]. destruct z as [|c [|]]; done.
    + destruct (app_suffix b (":" +:+ t) B ":*") as (z & Ez & ->); [done|destruct t; [done|cbn; lia]|].
      destruct z as [|c z]; [by rewrite string_app_nil_r|].
      apply (f_equal String.length) in Ez. cbn in Ez. rewrite string_length_app in Ez. cbn in Ez. lia.
Qed.

Lemma prefix_subtree b B t : b +:+ ":" +:+ t = B +:+ "/*" → ∃ z, B = b +:+ ":" +:+ z.
Proof.
  intros E. destruct (decide (2 <= String.length t)) as [Hl|Hl].
  - destruct (app_suffix (b +:+ ":") t B "/*") as (z & -> & ->); [by rewrite string_app_assoc|done|].
    exists z. by rewrite string_app_assoc.
  - exfalso. destruct (decide (t = "")) as [->|Hne].
    + destruct (app_suffix b ":" (B +:+ "/") "*") as (z & Ez & _);
        [by rewrite string_app_assoc|done|]. destruct z as [|c [|]]; done.
    + destruct (app_suffix b (":" +:+ t) B "/*") as (z & Ez & _); [done|destruct t; [done|cbn; lia]|].
      destruct z as [|c z]; [done|].
      apply (f_equal String.length) in Ez. cbn in Ez. rewrite string_length_app in Ez. cbn in Ez. lia.
Qed.

(** The three patterns on their rests: what [G] allows [Q] to be, and [Q]
    allows [R] to be, [G] allows [R] to be. *)
Lemma rest_trans G grest Q qrest R rrest :
  pattern_shape G grest → pattern_shape Q qrest → pattern_shape R rrest →
  rp_kind G = rp_kind Q → contains_char "*" (rp_body G) = false →
  rp_scope R = EXACT →
  (rp_scope G = SUBTREE → rp_scope Q = PREFIX → rp_body G ≠ rp_body Q) →
  rest_matches G grest Q qrest → rest_matches Q qrest R rrest → rest_matches G grest R rrest.
Proof.
  intros (EG & _ & _ & _ & HG) (EQ & _ & _ & Hqne & HQ) (ER & _ & _ & _ & HR) Hk Hstar HRs Hexc.
  rewrite HRs in HR. destruct HR as [HRb _].
  assert (Hnostar : ∀ x y, contains_char "*" x = true → rp_body G = y +:+ x → False).
  { intros x y Hx E. rewrite E, contains_char_app, Hx, orb_true_r in Hstar. done. }
  unfold rest_matches in *. rewrite HRb. destruct (rp_scope G) eqn:EsG.
  - intros ->. destruct HG as [_ HG]. destruct (rp_scope Q) eqn:EsQ; [done| | |done]; exfalso.
    + rewrite EG, HQ, !contains_char_app in HG. cbn in HG. by rewrite !orb_true_r in HG.
    + destruct HQ as [[-> _]|HQ]; rewrite EG, ?HQ, !contains_char_app in HG; cbn in HG;
        by rewrite !orb_true_r in HG.
  - destruct (rp_scope Q) eqn:EsQ; [destruct HQ as [-> _]; by intros H ->| | |done].
    + intros [->|[t ->]] [->|[u ->]]; [by left|right; by exists u|right; by exists t|].
      right. exists (t +:+ "/" +:+ u). by rewrite !string_app_assoc.
    + intros [Hb|[t Hb]] Hq; [by destruct (Hexc eq_refl eq_refl)|].
      destruct Hq as [Hq|[->|[u ->]]]; rewrite Hb in *.
      * apply (f_equal String.length) in Hq. rewrite !string_length_app in Hq. cbn in Hq. lia.
      * right. by exists t.
      * right. exists (t +:+ ":" +:+ u). by rewrite !string_app_assoc.
  - destruct (decide (rp_body G = "")) as [Hb|Hb]; [by left|]. intros [?|Hq]; [done|]. intros Hr.
    right. destruct (rp_scope Q) eqn:EsQ; [by rewrite Hr| | |done].
    + destruct Hq as [Hq|[t Hq]].
      { exfalso. rewrite HQ in Hq. by eapply (Hnostar "/*"). }
      rewrite HQ in Hq. symmetry in Hq. apply prefix_subtree in Hq as [z Hz].
      right. destruct Hr as [->|[u ->]].
      * by exists z.
      * exists (z +:+ "/" +:+ u). by rewrite Hz, !string_app_assoc.
    + destruct HQ as [[Hq1 Hq2]|HQ].
      { exfalso. rewrite Hq1 in Hq. destruct Hq as [Hq|[t Hq]].
        - by apply (Hnostar "*" "").
        - apply (f_equal String.length) in Hq. rewrite !string_length_app in Hq. cbn in Hq.
          destruct (rp_body G); [done|cbn in Hq; lia]. }
      destruct Hq as [Hq|[t Hq]].
      { exfalso. rewrite HQ in Hq. by eapply (Hnostar ":*"). }
      rewrite HQ in Hq. symmetry in Hq.
      apply prefix_body in Hq as [HB|[z HB]].
      * rewrite HB in Hr. destruct Hr as [?|[->|[u ->]]]; [done|by left|right; by exists u].
      * rewrite HB in Hr. right. destruct Hr as [Hr|[->|[u ->]]].
        -- apply (f_equal String.length) in Hr. rewrite !string_length_app in Hr. cbn in Hr. lia.
        -- by exists z.
        -- exists (z +:+ ":" +:+ u). by rewrite !string_app_assoc.
  - done.
Qed.

(** The shapes in which a grant matches the spelling of a wider pattern: a [/*]
    grant and a [:*] pattern on the same body, and a grant with an inner
    wildcard. *)
Definition amplifies (g q : string) : bool :=
  match parse g false, parse q false with
  | Ok G, Ok Q =>
      contains_char "*" (rp_body G)
      || bool_decide (rp_scope G = SUBTREE) && bool_decide (rp_scope Q = PREFIX)
         && bool_decide (rp_body G = rp_body Q)
  | _, _ => false
  end.

Lemma parse_unrequested q Q : parse q true = Ok Q → parse q false = Ok Q.
Proof.
  unfold parse. intros E. repeat (apply bind_Ok in E as ([] & -> & E); rewrite res_bind_ok).
  destruct (split_once ":" (canonical q)) as [[kind body]|]; [|done].
  apply bind_Ok in E as ([] & -> & E). rewrite res_bind_ok. destruct (endswith ":*" (canonical q)); [|done].
  by apply bind_Ok in E as ([] & _ & E).
Qed.

(** The same for a pattern as it is stored, matched by its own spelling. *)
Lemma matches_sound g q r :
  matches g q = true → amplifies g q = false → contains_char "*" (canonical r) = false →
  matches q r = true → matches g r = true.
Proof.
  unfold matches, amplifies. destruct (parse g false) as [G|] eqn:EG; [|done].
  destruct (parse q true) as [Q|] eqn:EQ; [|done]. rewrite (parse_unrequested _ _ EQ).
  intros H1 [Hstar Hexc]%orb_false_iff Hr. destruct (parse r true) as [R|] eqn:ER; [|done]. revert H1.
  destruct (parse_shape _ _ _ EG) as (_ & grest & HG), (parse_shape _ _ _ EQ) as (_ & qrest & HQ),
    (parse_shape _ _ _ ER) as (ERraw & rrest & HR).
  rewrite (pattern_matches_spec G grest Q qrest), (pattern_matches_spec Q qrest R rrest),
    (pattern_matches_spec G grest R rrest) by done.
  intros [K1 H1] [K2 H2]. split; [congruence|].
  eapply (rest_trans G grest Q qrest R rrest); try done.
  - destruct HR as (E & _ & _ & _ & HR). rewrite <-ERraw, E in Hr. rewrite !contains_char_app in Hr.
    apply orb_false_iff in Hr as [_ Hr]. apply orb_false_iff in Hr as [_ Hr]. destruct (rp_scope R); [done|..|done].
    + rewrite HR, contains_char_app in Hr. by rewrite orb_true_r in Hr.
    + destruct HR as [[-> _]|HR]; [done|]. rewrite HR, contains_char_app in Hr. by rewrite orb_true_r in Hr.
  - intros Hs Hp Hb. rewrite !bool_decide_eq_true_2 in Hexc by done. done.
Qed.

(** Delegation is sound: when a grant without an inner wildcard covers a
    canonically written pattern, every concrete resource that pattern matches
    is matched by the grant.  The one shape for which this fails, a [/*] grant
    and a [:*] pattern on the same body, is excluded. *)
Theorem covers_sound g q r G Q :
  parse g false = Ok G → parse q false = Ok Q → canonical q = q →
  contains_char "*" (rp_body G) = false → contains_char "*" (canonical r) = false →
  (rp_scope G = SUBTREE → rp_scope Q = PREFIX → rp_body G ≠ rp_body Q) →
  covers g q = true → matches q r = true → matches g r = true.
Proof.
  intros EG EQ Hcan Hstar Hr Hexc Hc. unfold covers in Hc. rewrite EQ in Hc.
  destruct (parse_shape _ _ _ EQ) as (Eraw & _). rewrite Eraw, Hcan in Hc.
  apply matches_sound; try done. unfold amplifies. rewrite EG, EQ, Hstar. cbn [orb].
  repeat case_bool_decide; try done. by destruct Hexc.
Qed.

Lemma covers_sound_witness :
  covers "fs:/srv/*" "fs:/srv/data/*" = true ∧ matches "fs:/srv/data/*" "fs:/srv/data/x" = true
  ∧ matches "fs:/srv/*" "fs:/srv/data/x" = true.
Proof.
  split; [by vm_compute|]. split; [by vm_compute|].
  eapply (covers_sound "fs:/srv/*" "fs:/srv/data/*" "fs:/srv/data/x"); by vm_compute.
Defined.

(** The excluded shape: the grant [fs:a/*] covers the pattern [fs:a:*], which
    matches [fs:a:b], which the grant does not match. *)
Lemma covers_amplifies :
  covers "fs:a/*" "fs:a:*" = true ∧ matches "fs:a:*" "fs:a:b" = true
  ∧ matches "fs:a/*" "fs:a:b" = false.
Proof. by vm_compute. Qed.

(** A wildcard that is not terminal is accepted when another one is, and the
    grant [fs:*:*] covers the strictly wider [fs:*]. *)
Lemma inner_wildcard_accepted :
  is_Ok (parse "fs:a*b:*" false) = true ∧ covers "fs:*:*" "fs:*" = true
  ∧ matches "fs:*" "fs:a" = true ∧ matches "fs:*:*" "fs:a" = false.
Proof. by vm_compute. Qed.
