(* ===== verification/DataLabels.v ===== *)
(** * Data labels and flow contexts

    The label part of [models/data_flow.py] (labels, source references, flow
    contexts and their aggregation) and the label propagation of
    [memory/data_labels.py].  The theorems say that aggregation is the least
    upper bound of a restrictiveness order, so that neither the order nor the
    grouping of sources can launder a label. *)

From S2P Require Import Prelude PyStr PyVal PyEnum.
From stdpp Require Import sorting.

(** ** Enums *)

Module DataSensitivity.
Inductive DataSensitivity : Set := PUBLIC | NORMAL | CONFIDENTIAL | RESTRICTED | SECRET.
End DataSensitivity.
Abbreviation DataSensitivity := DataSensitivity.DataSensitivity.

Module DataTrustLevel.
Inductive DataTrustLevel : Set := UNTRUSTED | UNKNOWN | USER_ASSERTED | VERIFIED | TRUSTED.
End DataTrustLevel.
Abbreviation DataTrustLevel := DataTrustLevel.DataTrustLevel.

Module DataIntegrity.
Inductive DataIntegrity : Set := UNTRUSTED | UNKNOWN | CHECKED | VERIFIED.
End DataIntegrity.
Abbreviation DataIntegrity := DataIntegrity.DataIntegrity.

#[export] Instance sensitivity_eq_dec : EqDecision DataSensitivity.
Proof. solve_decision. Defined.
#[export] Instance trust_eq_dec : EqDecision DataTrustLevel.
Proof. solve_decision. Defined.
#[export] Instance integrity_eq_dec : EqDecision DataIntegrity.
Proof. solve_decision. Defined.

#[export] Instance sensitivity_enum : StrEnum DataSensitivity := {
  enum_members := [DataSensitivity.PUBLIC; DataSensitivity.NORMAL; DataSensitivity.CONFIDENTIAL;
                   DataSensitivity.RESTRICTED; DataSensitivity.SECRET];
  enum_value e := match e with
    | DataSensitivity.PUBLIC => "public" | DataSensitivity.NORMAL => "normal"
    | DataSensitivity.CONFIDENTIAL => "confidential"
    | DataSensitivity.RESTRICTED => "restricted" | DataSensitivity.SECRET => "secret" end;
}.

#[export] Instance trust_enum : StrEnum DataTrustLevel := {
  enum_members := [DataTrustLevel.UNTRUSTED; DataTrustLevel.UNKNOWN;
                   DataTrustLevel.USER_ASSERTED; DataTrustLevel.VERIFIED; DataTrustLevel.TRUSTED];
  enum_value e := match e with
    | DataTrustLevel.UNTRUSTED => "untrusted" | DataTrustLevel.UNKNOWN => "unknown"
    | DataTrustLevel.USER_ASSERTED => "user_asserted"
    | DataTrustLevel.VERIFIED => "verified" | DataTrustLevel.TRUSTED => "trusted" end;
}.

#[export] Instance integrity_enum : StrEnum DataIntegrity := {
  enum_members := [DataIntegrity.UNTRUSTED; DataIntegrity.UNKNOWN; DataIntegrity.CHECKED;
                   DataIntegrity.VERIFIED];
  enum_value e := match e with
    | DataIntegrity.UNTRUSTED => "untrusted" | DataIntegrity.UNKNOWN => "unknown"
    | DataIntegrity.CHECKED => "checked" | DataIntegrity.VERIFIED => "verified" end;
}.

#[export] Instance sensitivity_laws : StrEnumLaws DataSensitivity.
Proof. solve_enum. Qed.
#[export] Instance trust_laws : StrEnumLaws DataTrustLevel.
Proof. solve_enum. Qed.
#[export] Instance integrity_laws : StrEnumLaws DataIntegrity.
Proof. solve_enum. Qed.

Definition _SENSITIVITY_ORDER := ["public"; "normal"; "confidential"; "restricted"; "secret"].
Definition _TRUST_ORDER := ["untrusted"; "unknown"; "user_asserted"; "verified"; "trusted"].
Definition _INTEGRITY_ORDER := ["untrusted"; "unknown"; "checked"; "verified"].

Definition sensitivity_rank (v : DataSensitivity) : nat := str_index _SENSITIVITY_ORDER (enum_value v).
Definition trust_rank (v : DataTrustLevel) : nat := str_index _TRUST_ORDER (enum_value v).
Definition integrity_rank (v : DataIntegrity) : nat := str_index _INTEGRITY_ORDER (enum_value v).

Lemma sensitivity_rank_inj a b : sensitivity_rank a = sensitivity_rank b → a = b.
Proof. by destruct a, b. Qed.
Lemma trust_rank_inj a b : trust_rank a = trust_rank b → a = b.
Proof. by destruct a, b. Qed.
Lemma integrity_rank_inj a b : integrity_rank a = integrity_rank b → a = b.
Proof. by destruct a, b. Qed.

(** ** Text validators *)

Definition _require_text (name : string) (v : pyval) : res string :=
  match v with
  | PStr s =>
      if String.eqb (strip s) "" || str_any is_control s
      then Err (ValueError (name +:+ " must be a non-empty string without control characters"))
      else Ok s
  | _ => Err (ValueError (name +:+ " must be a non-empty string without control characters"))
  end.

Definition _validate_optional_text (name : string) (v : pyval) (allow_mixed : bool)
    : res (option string) :=
  match v with
  | PNone => Ok None
  | _ =>
      s ← _require_text name v;
      _ ← raise_if (negb (String.eqb s (strip s)) || (256 <? String.length s))
            (ValueError (name +:+ " must be a canonical string of at most 256 characters"));
      _ ← raise_if (String.eqb s "mixed" && negb allow_mixed)
            (ValueError (name +:+ " must not use the reserved mixed identity"));
      Ok (Some s)
  end.

Definition _require_sha256 (name : string) (v : pyval) : res string :=
  match v with
  | PStr s =>
      if is_sha256_hex s then Ok s
      else Err (ValueError (name +:+ " must be a lowercase SHA-256 hex digest"))
  | _ => Err (ValueError (name +:+ " must be a lowercase SHA-256 hex digest"))
  end.

Definition _optional_sha256 (name : string) (v : pyval) : res (option string) :=
  match v with PNone => Ok None | _ => s ← _require_sha256 name v; Ok (Some s) end.

(** The optional texts a label may carry. *)
Definition opt_text_ok (allow_mixed : bool) (o : option string) : bool :=
  is_Ok (_validate_optional_text "" (py_opt o) allow_mixed).

Lemma optional_text_ok name o allow :
  opt_text_ok allow o = true → _validate_optional_text name (py_opt o) allow = Ok o.
Proof.
  unfold opt_text_ok. destruct o as [s|]; [|done]. unfold _validate_optional_text, py_opt.
  cbn [_require_text]. destruct (_ || _); [done|]. rewrite !res_bind_ok.
  destruct (negb _ || _); [done|]. cbn. by destruct (_ && _).
Qed.

Lemma optional_text_inv name v allow o :
  _validate_optional_text name v allow = Ok o → v = py_opt o ∧ opt_text_ok allow o = true.
Proof.
  unfold opt_text_ok, _validate_optional_text. destruct v; intros E; try done;
    [injection E as <-; done|]. cbn [_require_text py_opt] in *.
  apply bind_Ok in E as (t & E1 & E). destruct (_ || _) eqn:E0; [done|]. injection E1 as <-.
  apply bind_Ok in E as ([] & E2 & E). apply bind_Ok in E as ([] & E3 & E). injection E as <-.
  split; [done|]. apply raise_if_Ok in E2, E3. cbn [py_opt _require_text].
  rewrite E0, res_bind_ok, E2. cbn [raise_if]. by rewrite res_bind_ok, E3.
Qed.

Lemma opt_text_not_empty allow o : opt_text_ok allow o = true → o ≠ Some "".
Proof. by intros H ->. Qed.

(** ** Labels *)

Record DataLabels : Set := {
  sensitivity : DataSensitivity;
  trust_level : DataTrustLevel;
  integrity : DataIntegrity;
  origin : option string;
  tenant : option string;
  principal : option string;
  declassification_authority : option string;
}.

#[export] Instance labels_eq_dec : EqDecision DataLabels.
Proof. solve_decision. Defined.

(** [DataLabels(...)]: the constructor with its [__post_init__]. *)
Definition mk_DataLabels (sens trust integ org ten prin decl : pyval) : res DataLabels :=
  sens ← enum_call "sensitivity" sens;
  trust ← enum_call "trust_level" trust;
  integ ← enum_call "integrity" integ;
  org ← _validate_optional_text "origin" org false;
  ten ← _validate_optional_text "tenant" ten true;
  prin ← _validate_optional_text "principal" prin true;
  decl ← _validate_optional_text "declassification_authority" decl false;
  Ok {| sensitivity := sens; trust_level := trust; integrity := integ; origin := org;
        tenant := ten; principal := prin; declassification_authority := decl |}.

Definition default_labels : DataLabels :=
  {| sensitivity := DataSensitivity.NORMAL; trust_level := DataTrustLevel.UNKNOWN;
     integrity := DataIntegrity.UNKNOWN; origin := Some "local"; tenant := None;
     principal := None; declassification_authority := None |}.

Definition is_mixed_identity (l : DataLabels) : bool :=
  bool_decide (tenant l = Some "mixed") || bool_decide (principal l = Some "mixed").

Definition LABEL_FIELDS : list string :=
  ["sensitivity"; "trust_level"; "integrity"; "origin"; "tenant"; "principal";
   "declassification_authority"].

Definition labels_to_dict (l : DataLabels) : pyval :=
  PDict [(PStr "sensitivity", PStr (enum_value (sensitivity l)));
         (PStr "trust_level", PStr (enum_value (trust_level l)));
         (PStr "integrity", PStr (enum_value (integrity l)));
         (PStr "origin", py_opt (origin l)); (PStr "tenant", py_opt (tenant l));
         (PStr "principal", py_opt (principal l));
         (PStr "declassification_authority", py_opt (declassification_authority l))].

Definition labels_from_dict (value : pyval) : res DataLabels :=
  match value with
  | PDict d =>
      _ ← raise_if (has_unknown_key d LABEL_FIELDS)
            (ValueError "data labels contain unknown fields");
      mk_DataLabels (dict_get_default d "sensitivity" (PStr (enum_value DataSensitivity.NORMAL)))
        (dict_get_default d "trust_level" (PStr (enum_value DataTrustLevel.UNKNOWN)))
        (dict_get_default d "integrity" (PStr (enum_value DataIntegrity.UNKNOWN)))
        (dict_get_default d "origin" (PStr "local")) (dict_get_none d "tenant")
        (dict_get_none d "principal") (dict_get_none d "declassification_authority")
  | _ => Err (ValueError "data labels must be an object")
  end.

(** A constructed label. *)
Definition labels_ok (l : DataLabels) : bool :=
  opt_text_ok false (origin l) && opt_text_ok true (tenant l) && opt_text_ok true (principal l)
  && opt_text_ok false (declassification_authority l).

Lemma mk_DataLabels_ok l :
  labels_ok l = true →
  mk_DataLabels (PStr (enum_value (sensitivity l))) (PStr (enum_value (trust_level l)))
    (PStr (enum_value (integrity l))) (py_opt (origin l)) (py_opt (tenant l))
    (py_opt (principal l)) (py_opt (declassification_authority l)) = Ok l.
Proof.
  unfold labels_ok. rewrite !andb_true_iff. intros [[[Ho Ht] Hp] Hd].
  unfold mk_DataLabels. rewrite !enum_call_value, !res_bind_ok.
  rewrite (optional_text_ok _ _ _ Ho), (optional_text_ok _ _ _ Ht), (optional_text_ok _ _ _ Hp),
    (optional_text_ok _ _ _ Hd). by destruct l.
Qed.

Lemma mk_DataLabels_valid a b c d e f g l :
  mk_DataLabels a b c d e f g = Ok l → labels_ok l = true.
Proof.
  unfold mk_DataLabels. intros E. res_simpl. unfold labels_ok. cbn.
  repeat match goal with H : _validate_optional_text _ _ _ = Ok _ |- _ =>
    apply optional_text_inv in H as [_ ->] end. done.
Qed.

(** ** Merging *)

(** [{value for value in values if value not in {None, ""}}], sorted. *)
Definition distinct_identities (values : list (option string)) : list string :=
  merge_sort str_le (remove_dups (List.filter (fun s => negb (String.eqb s "")) (omap id values))).

Definition _merge_identity (values : list (option string)) (mixed : option string) : option string :=
  match distinct_identities values with
  | [] => None
  | [x] => Some x
  | _ => mixed
  end.

Definition _merge_declassification_authority (values : list (option string)) : option string :=
  match values with
  | [] | None :: _ => None
  | (Some v) as first :: _ => if forallb (fun x => bool_decide (x = first)) values then first else None
  end.

Definition aggregate (labels : list DataLabels) : res DataLabels :=
  match labels with
  | [] => Ok default_labels
  | x :: rest =>
      mk_DataLabels
        (PStr (enum_value (sensitivity (max_by (fun i => sensitivity_rank (sensitivity i)) x rest))))
        (PStr (enum_value (trust_level (min_by (fun i => trust_rank (trust_level i)) x rest))))
        (PStr (enum_value (integrity (min_by (fun i => integrity_rank (integrity i)) x rest))))
        (py_opt (_merge_identity (map origin labels) (Some "derived")))
        (py_opt (_merge_identity (map tenant labels) (Some "mixed")))
        (py_opt (_merge_identity (map principal labels) (Some "mixed")))
        (py_opt (_merge_declassification_authority (map declassification_authority labels)))
  end.

(** ** Source references and contexts *)

Record DataSourceRef : Set := { ref_oid : string; ref_version : Z; ref_content_sha256 : string }.

#[export] Instance ref_eq_dec : EqDecision DataSourceRef.
Proof. solve_decision. Defined.

Definition mk_DataSourceRef (oid version content_sha256 : pyval) : res DataSourceRef :=
  oid ← _require_text "source oid" oid;
  version ← match version with
            | PInt z => if (z <? 1)%Z then Err (ValueError "source version must be a positive integer")
                        else Ok z
            | _ => Err (ValueError "source version must be a positive integer")
            end;
  sha ← _require_sha256 "source content_sha256" content_sha256;
  Ok {| ref_oid := oid; ref_version := version; ref_content_sha256 := sha |}.

Definition ref_to_dict (r : DataSourceRef) : pyval :=
  PDict [(PStr "oid", PStr (ref_oid r)); (PStr "version", PInt (ref_version r));
         (PStr "content_sha256", PStr (ref_content_sha256 r))].

Definition ref_from_dict (value : pyval) : res DataSourceRef :=
  match value with
  | PDict d =>
      _ ← raise_if (has_non_str_key d || negb (keys_are d ["oid"; "version"; "content_sha256"]))
            (ValueError "data source ref must contain only oid, version, and content_sha256");
      mk_DataSourceRef (dict_get_none d "oid") (dict_get_none d "version")
        (dict_get_none d "content_sha256")
  | _ => Err (ValueError "data source ref must be an object")
  end.

(** The order of the keys [(oid, version, content_sha256)]. *)
Definition ref_leb (a b : DataSourceRef) : bool :=
  str_ltb (ref_oid a) (ref_oid b)
  || String.eqb (ref_oid a) (ref_oid b)
     && ((ref_version a <? ref_version b)%Z
         || (ref_version a =? ref_version b)%Z && str_leb (ref_content_sha256 a) (ref_content_sha256 b)).

Definition ref_le (a b : DataSourceRef) : Prop := ref_leb a b = true.

#[export] Instance ref_le_dec : RelDecision ref_le.
Proof. intros a b. unfold ref_le. apply _. Defined.

(** References are keyed by their three fields, so equal keys are equal
    references: the dict keeps one of each, and its keys are then sorted. *)
Definition _normalize_source_refs (values : list DataSourceRef) : list DataSourceRef :=
  merge_sort ref_le (remove_dups values).

Record DataFlowContext : Set := {
  ctx_labels : DataLabels;
  ctx_source_refs : list DataSourceRef;
  ctx_materialization_id : option string;
}.

(** [DataFlowContext(...)] on already constructed labels and references. *)
Definition mk_DataFlowContext (labels : DataLabels) (source_refs : list DataSourceRef)
    (materialization_id : pyval) : res DataFlowContext :=
  m ← _validate_optional_text "materialization_id" materialization_id false;
  Ok {| ctx_labels := labels; ctx_source_refs := _normalize_source_refs source_refs;
        ctx_materialization_id := m |}.

Definition context_aggregate (contexts : list DataFlowContext) : res DataFlowContext :=
  labels ← aggregate (map ctx_labels contexts);
  mk_DataFlowContext labels (_normalize_source_refs (concat (map ctx_source_refs contexts))) PNone.

Definition context_to_dict (c : DataFlowContext) : pyval :=
  PDict [(PStr "labels", labels_to_dict (ctx_labels c));
         (PStr "source_refs", PList (map ref_to_dict (ctx_source_refs c)));
         (PStr "materialization_id", py_opt (ctx_materialization_id c))].

Definition context_from_dict (value : pyval) : res DataFlowContext :=
  match value with
  | PDict d =>
      _ ← raise_if (has_unknown_key d ["labels"; "source_refs"; "materialization_id"])
            (ValueError "data-flow context contains unknown fields");
      labels ← labels_from_dict
        (let v := dict_get_none d "labels" in if py_falsy v then PDict [] else v);
      items ← py_items (let v := dict_get_none d "source_refs" in if py_falsy v then PTuple [] else v);
      refs ← mapR ref_from_dict items;
      mk_DataFlowContext labels refs (dict_get_none d "materialization_id")
  | _ => Err (ValueError "data-flow context must be an object")
  end.

(** ** Propagation to derived Objects

    [memory/data_labels.py], on the label fields of the metadata.  The three
    ordered labels are strings there and are checked against the order first;
    here they are the enum. *)

Definition text_absent (o : option string) : bool :=
  bool_decide (o = None) || bool_decide (o = Some "").

Definition _merge_origin (explicit : option string) (inherited : list (option string)) : option string :=
  if negb (bool_decide (explicit ∈ [None; Some ""; Some "local"; Some "unknown"])) then explicit
  else match distinct_identities inherited with
       | [] => explicit
       | [x] => Some x
       | _ => Some "derived"
       end.

Definition _merge_security_identity (explicit : option string) (inherited : list (option string))
    : option string :=
  match distinct_identities (explicit :: inherited) with
  | [] => None
  | [x] => if String.eqb x "mixed" then Some "mixed" else Some x
  | _ => Some "mixed"
  end.

Definition _merge_inherited_authority (explicit : option string) (inherited : list (option string))
    : option string :=
  match distinct_identities (inherited ++ if text_absent explicit then [] else [explicit]) with
  | [x] => Some x
  | _ => None
  end.

Definition propagate_object_labels (metadata : DataLabels) (parents : list DataLabels) : DataLabels :=
  match parents with
  | [] => metadata
  | _ =>
      {| sensitivity := sensitivity (max_by (fun i => sensitivity_rank (sensitivity i)) metadata parents);
         trust_level := trust_level (min_by (fun i => trust_rank (trust_level i)) metadata parents);
         integrity := integrity (min_by (fun i => integrity_rank (integrity i)) metadata parents);
         origin := _merge_origin (origin metadata) (map origin parents);
         tenant := _merge_security_identity (tenant metadata) (map tenant parents);
         principal := _merge_security_identity (principal metadata) (map principal parents);
         declassification_authority :=
           _merge_inherited_authority (declassification_authority metadata)
             (map declassification_authority parents) |}
  end.

Definition is_label_downgrade (current proposed : DataLabels) : bool :=
  (sensitivity_rank (sensitivity proposed) <? sensitivity_rank (sensitivity current))
  || (trust_rank (trust_level current) <? trust_rank (trust_level proposed))
  || (integrity_rank (integrity current) <? integrity_rank (integrity proposed))
  || negb (bool_decide (tenant proposed = tenant current))
  || negb (bool_decide (principal proposed = principal current))
  || negb (bool_decide (declassification_authority proposed = declassification_authority current)).

Definition _identity_is_conservative (current proposed : option string) : bool :=
  bool_decide (proposed = current) || bool_decide (proposed = Some "mixed")
  || bool_decide (current = None ∧ proposed ≠ None).

Definition is_conservative_label_propagation (current proposed : DataLabels) : bool :=
  (sensitivity_rank (sensitivity current) <=? sensitivity_rank (sensitivity proposed))
  && (trust_rank (trust_level proposed) <=? trust_rank (trust_level current))
  && (integrity_rank (integrity proposed) <=? integrity_rank (integrity current))
  && _identity_is_conservative (tenant current) (tenant proposed)
  && _identity_is_conservative (principal current) (principal proposed)
  && bool_decide (declassification_authority proposed
                  ∈ [declassification_authority current; None]).

(** ** The restrictiveness order

    [a ⊑ b]: [b] is at least as restrictive as [a] in every component.  An
    identity is unknown, known or mixed; an authority is known or absent. *)

Definition flat_le (top : string) (a b : option string) : Prop :=
  a = None ∨ a = b ∨ b = Some top.

Definition authority_le (a b : option string) : Prop := b = None ∨ a = b.

Definition labels_le (a b : DataLabels) : Prop :=
  sensitivity_rank (sensitivity a) <= sensitivity_rank (sensitivity b)
  ∧ trust_rank (trust_level b) <= trust_rank (trust_level a)
  ∧ integrity_rank (integrity b) <= integrity_rank (integrity a)
  ∧ flat_le "derived" (origin a) (origin b)
  ∧ flat_le "mixed" (tenant a) (tenant b)
  ∧ flat_le "mixed" (principal a) (principal b)
  ∧ authority_le (declassification_authority a) (declassification_authority b).

#[export] Instance flat_le_preorder top : PreOrder (flat_le top).
Proof. unfold flat_le. split; [intros a|intros a b c]; naive_solver. Qed.

#[export] Instance flat_le_antisymm top : AntiSymm (=) (flat_le top).
Proof. unfold flat_le. intros a b. naive_solver. Qed.

#[export] Instance authority_le_preorder : PreOrder authority_le.
Proof. unfold authority_le. split; [intros a|intros a b c]; naive_solver. Qed.

#[export] Instance authority_le_antisymm : AntiSymm (=) authority_le.
Proof. unfold authority_le. intros a b. naive_solver. Qed.

#[export] Instance labels_le_preorder : PreOrder labels_le.
Proof.
  split.
  - intros a. unfold labels_le. split_and!; try lia; reflexivity.
  - intros a b c (?&?&?&?&?&?&?) (?&?&?&?&?&?&?). unfold labels_le.
    split_and!; try lia; by etrans.
Qed.

#[export] Instance labels_le_antisymm : AntiSymm (=) labels_le.
Proof.
  intros a b (?&?&?&?&?&?&?) (?&?&?&?&?&?&?). destruct a, b.
  cbn [sensitivity trust_level integrity origin tenant principal declassification_authority] in *.
  f_equal.
  - apply sensitivity_rank_inj; lia.
  - apply trust_rank_inj; lia.
  - apply integrity_rank_inj; lia.
  - by apply (anti_symm (flat_le "derived")).
  - by apply (anti_symm (flat_le "mixed")).
  - by apply (anti_symm (flat_le "mixed")).
  - by apply (anti_symm authority_le).
Qed.

Lemma elem_of_distinct values s :
  s ∈ distinct_identities values ↔ Some s ∈ values ∧ s ≠ "".
Proof.
  unfold distinct_identities. rewrite merge_sort_Permutation, elem_of_remove_dups.
  rewrite list_elem_of_In, filter_In, <-list_elem_of_In, list_elem_of_omap.
  rewrite negb_true_iff, String.eqb_neq. cbn. naive_solver.
Qed.

Lemma distinct_nodup values : NoDup (distinct_identities values).
Proof. unfold distinct_identities. rewrite merge_sort_Permutation. apply NoDup_remove_dups. Qed.

(** Two different identities give the top. *)
Lemma merge_identity_many values top x y :
  x ∈ distinct_identities values → y ∈ distinct_identities values → x ≠ y →
  _merge_identity values top = top.
Proof.
  unfold _merge_identity. destruct (distinct_identities values) as [|a [|b l]]; [set_solver..|].
  intros _ _ _. done.
Qed.

Lemma merge_identity_upper values top v :
  v ∈ values → v ≠ Some "" → flat_le top v (_merge_identity values (Some top)).
Proof.
  intros Hv Hne. destruct v as [s|]; [|by left]. unfold flat_le, _merge_identity.
  assert (Hs : s ∈ distinct_identities values) by (apply elem_of_distinct; naive_solver).
  destruct (distinct_identities values) as [|a [|b l]]; [set_solver| |by do 2 right].
  apply list_elem_of_singleton in Hs as ->. by right; left.
Qed.

Lemma merge_identity_least values top b :
  (∀ v, v ∈ values → flat_le top v b) → flat_le top (_merge_identity values (Some top)) b.
Proof.
  intros H. pose proof (distinct_nodup values) as Hnd.
  assert (H' : ∀ s, s ∈ distinct_identities values → b = Some s ∨ b = Some top).
  { intros s [Hs _]%elem_of_distinct. specialize (H _ Hs). unfold flat_le in H. naive_solver. }
  unfold _merge_identity. destruct (distinct_identities values) as [|x [|y l]]; [by left|..].
  - destruct (H' x) as [->| ->]; [by left|by right; left|by do 2 right].
  - assert (x ≠ y) by (apply NoDup_cons in Hnd as [Hx _]; set_solver).
    destruct (H' x ltac:(left)) as [E1|E1]; [|by rewrite E1; right; right].
    destruct (H' y ltac:(right; left)) as [E2|E2]; [congruence|by rewrite E2; right; right].
Qed.

Lemma merge_authority_upper values v :
  v ∈ values → authority_le v (_merge_declassification_authority values).
Proof.
  intros Hv. unfold authority_le. destruct values as [|[s|] l]; [by left| |by left].
  cbn -[forallb]. destruct (forallb _ _) eqn:E; [|by left]. right.
  rewrite forallb_forall in E. apply list_elem_of_In, E, bool_decide_eq_true_1 in Hv. done.
Qed.

Lemma merge_authority_least values b :
  values ≠ [] → (∀ v, v ∈ values → authority_le v b) →
  authority_le (_merge_declassification_authority values) b.
Proof.
  intros Hne H. unfold authority_le in *. destruct values as [|[s|] l]; [done|..].
  - cbn -[forallb]. destruct (H (Some s)) as [->|E]; [left|by left|]. right. rewrite <-E.
    assert (Ha : forallb (fun x => bool_decide (x = Some s)) (Some s :: l) = true).
    { apply forallb_forall. intros v Hv%list_elem_of_In. apply bool_decide_eq_true.
      destruct (H _ Hv); congruence. }
    by rewrite Ha.
  - cbn. right. destruct (H None) as [->|E]; [left|done..].
Qed.

(** ** Aggregation is the join *)

Lemma merge_identity_text_ok allow values top :
  Forall (fun v => opt_text_ok allow v = true) values → opt_text_ok allow (Some top) = true →
  opt_text_ok allow (_merge_identity values (Some top)) = true.
Proof.
  intros H Htop. unfold _merge_identity.
  destruct (distinct_identities values) as [|x [|y l]] eqn:E; [done| |done].
  rewrite Forall_forall in H. apply H.
  apply (elem_of_distinct values x). rewrite E. left.
Qed.

Lemma merge_authority_text_ok values :
  Forall (fun v => opt_text_ok false v = true) values →
  opt_text_ok false (_merge_declassification_authority values) = true.
Proof.
  intros H. destruct values as [|[s|] l]; [done| |done]. cbn -[forallb].
  destruct (forallb _ _); [|done]. by inversion H.
Qed.

Lemma labels_ok_spec l :
  labels_ok l = true ↔
  opt_text_ok false (origin l) = true ∧ opt_text_ok true (tenant l) = true
  ∧ opt_text_ok true (principal l) = true ∧ opt_text_ok false (declassification_authority l) = true.
Proof. unfold labels_ok. rewrite !andb_true_iff. tauto. Qed.

Definition constructed (l : list DataLabels) : Prop := Forall (fun x => labels_ok x = true) l.

(** Aggregating constructed labels never raises. *)
Lemma aggregate_Ok x rest :
  constructed (x :: rest) →
  aggregate (x :: rest) = Ok
    {| sensitivity := sensitivity (max_by (fun i => sensitivity_rank (sensitivity i)) x rest);
       trust_level := trust_level (min_by (fun i => trust_rank (trust_level i)) x rest);
       integrity := integrity (min_by (fun i => integrity_rank (integrity i)) x rest);
       origin := _merge_identity (map origin (x :: rest)) (Some "derived");
       tenant := _merge_identity (map tenant (x :: rest)) (Some "mixed");
       principal := _merge_identity (map principal (x :: rest)) (Some "mixed");
       declassification_authority :=
         _merge_declassification_authority (map declassification_authority (x :: rest)) |}.
Proof.
  intros H. unfold aggregate.
  set (a := Build_DataLabels _ _ _ _ _ _ _). change (Ok a) with (Ok a).
  rewrite <-(mk_DataLabels_ok a); [done|]. apply labels_ok_spec. unfold constructed in H.
  assert (Hall : ∀ f allow, (∀ y, labels_ok y = true → opt_text_ok allow (f y) = true) →
            Forall (fun v => opt_text_ok allow v = true) (map f (x :: rest))).
  { intros f allow Hf. rewrite Forall_map. by eapply Forall_impl. }
  subst a. cbn [origin tenant principal declassification_authority].
  split_and!; [apply merge_identity_text_ok; [|by vm_compute]..|apply merge_authority_text_ok];
    apply Hall; intros y Hy%labels_ok_spec; tauto.
Qed.

Lemma aggregate_lub l :
  l ≠ [] → constructed l →
  ∃ a, aggregate l = Ok a ∧ labels_ok a = true ∧ (∀ x, x ∈ l → labels_le x a)
     ∧ (∀ b, (∀ x, x ∈ l → labels_le x b) → labels_le a b).
Proof.
  destruct l as [|x rest]; [done|]. intros _ H. pose proof (aggregate_Ok _ _ H) as E.
  eexists. split; [exact E|]. split; [by eapply mk_DataLabels_valid|].
  destruct (max_by_spec (fun i => sensitivity_rank (sensitivity i)) x rest) as [S1 S2].
  destruct (min_by_spec (fun i => trust_rank (trust_level i)) x rest) as [T1 T2].
  destruct (min_by_spec (fun i => integrity_rank (integrity i)) x rest) as [I1 I2].
  unfold constructed in H. rewrite Forall_forall in H. split.
  - intros y Hy. specialize (H y Hy). apply labels_ok_spec in H as (Ho & Ht & Hp & Hd).
    repeat split; cbn [sensitivity trust_level integrity origin tenant principal
                       declassification_authority]; try (by auto).
    1-3: apply merge_identity_upper; [by apply list_elem_of_fmap_2|by eapply opt_text_not_empty].
    apply merge_authority_upper. by apply list_elem_of_fmap_2.
  - intros b Hb. repeat split; cbn [sensitivity trust_level integrity origin tenant principal
                                    declassification_authority]; try (by apply Hb).
    1-3: apply merge_identity_least; intros v (y & -> & Hy)%list_elem_of_fmap; by apply Hb.
    apply merge_authority_least; [done|]. intros v (y & -> & Hy)%list_elem_of_fmap. by apply Hb.
Qed.

(** Labels with the same upper bounds aggregate to the same label. *)
Lemma aggregate_determined l l' :
  l ≠ [] → l' ≠ [] → constructed l → constructed l' →
  (∀ b, (∀ x, x ∈ l → labels_le x b) ↔ (∀ x, x ∈ l' → labels_le x b)) →
  aggregate l = aggregate l'.
Proof.
  intros N N' H H' Hb. destruct (aggregate_lub l N H) as (a & -> & _ & U & L).
  destruct (aggregate_lub l' N' H') as (a' & -> & _ & U' & L'). f_equal.
  apply (anti_symm labels_le); [apply L, Hb, U'|apply L', Hb, U].
Qed.

(** *** Source references *)

#[export] Instance ref_le_total : Total ref_le.
Proof.
  intros a b. unfold ref_le, ref_leb. destruct a as [o v c], b as [o' v' c']. cbn.
  destruct (str_ltb_total o o') as [->|[<-|H]]; [by left| |right; by rewrite H].
  rewrite String.eqb_refl, str_ltb_irrefl. cbn.
  destruct (Z.lt_total v v') as [H|[<-|H]]; [left|..|right]; [by apply Z.ltb_lt in H as ->| |].
  - rewrite Z.ltb_irrefl, Z.eqb_refl. cbn. apply str_le_total.
  - by apply Z.ltb_lt in H as ->.
Qed.

Lemma ref_le_spec a b :
  ref_le a b ↔
  str_ltb (ref_oid a) (ref_oid b) = true
  ∨ ref_oid a = ref_oid b
    ∧ ((ref_version a < ref_version b)%Z
       ∨ ref_version a = ref_version b ∧ str_le (ref_content_sha256 a) (ref_content_sha256 b)).
Proof.
  unfold ref_le, ref_leb, str_le.
  rewrite orb_true_iff, andb_true_iff, orb_true_iff, andb_true_iff, String.eqb_eq, Z.ltb_lt, Z.eqb_eq.
  done.
Qed.

#[export] Instance ref_le_trans : Transitive ref_le.
Proof.
  intros a b c. rewrite !ref_le_spec.
  intros [H1|[E1 [H1|[V1 H1]]]] [H2|[E2 [H2|[V2 H2]]]];
    try (left; congruence || by eapply str_ltb_trans); right; (split; [congruence|]);
    first [left; lia|right; split; [lia|by etrans]].
Qed.

#[export] Instance ref_le_antisymm : AntiSymm (=) ref_le.
Proof.
  intros a b. rewrite !ref_le_spec.
  assert (Hirr : ∀ x, str_ltb x x = true → False) by (intros x; by rewrite str_ltb_irrefl).
  intros [H1|[E1 H1]] [H2|[E2 H2]].
  - destruct (Hirr _ (str_ltb_trans _ _ _ H1 H2)).
  - rewrite E2 in H1. destruct (Hirr _ H1).
  - rewrite E1 in H2. destruct (Hirr _ H2).
  - destruct H1 as [H1|[V1 H1]], H2 as [H2|[V2 H2]]; try lia.
    destruct a, b; cbn in *; f_equal; [done..|]. by apply (anti_symm str_le).
Qed.

Lemma elem_of_normalize r l : r ∈ _normalize_source_refs l ↔ r ∈ l.
Proof. unfold _normalize_source_refs. by rewrite merge_sort_Permutation, elem_of_remove_dups. Qed.

(** The normal form depends only on which references occur. *)
Lemma normalize_ext l l' :
  (∀ r, r ∈ l ↔ r ∈ l') → _normalize_source_refs l = _normalize_source_refs l'.
Proof.
  intros H. unfold _normalize_source_refs.
  apply (StronglySorted_unique ref_le); [by apply StronglySorted_merge_sort; apply _..|].
  rewrite !merge_sort_Permutation. apply NoDup_Permutation; [apply NoDup_remove_dups..|].
  intros r. by rewrite !elem_of_remove_dups.
Qed.

Definition ctx_constructed (c : DataFlowContext) : Prop := labels_ok (ctx_labels c) = true.

Lemma context_aggregate_eq l :
  l ≠ [] → Forall ctx_constructed l →
  ∃ a, aggregate (map ctx_labels l) = Ok a ∧ labels_ok a = true
     ∧ context_aggregate l = Ok {| ctx_labels := a;
         ctx_source_refs := _normalize_source_refs (concat (map ctx_source_refs l));
         ctx_materialization_id := None |}.
Proof.
  intros N H. destruct (aggregate_lub (map ctx_labels l)) as (a & E & Ha & _).
  - by destruct l.
  - unfold constructed. by rewrite Forall_map.
  - exists a. split; [done|]. split; [done|]. unfold context_aggregate.
    rewrite E, res_bind_ok. unfold mk_DataFlowContext. cbn.
    do 2 f_equal. apply normalize_ext. intros r. by rewrite elem_of_normalize.
Qed.

Lemma context_aggregate_determined l l' :
  l ≠ [] → l' ≠ [] → Forall ctx_constructed l → Forall ctx_constructed l' →
  (∀ b, (∀ c, c ∈ l → labels_le (ctx_labels c) b) ↔ (∀ c, c ∈ l' → labels_le (ctx_labels c) b)) →
  (∀ r, r ∈ concat (map ctx_source_refs l) ↔ r ∈ concat (map ctx_source_refs l')) →
  context_aggregate l = context_aggregate l'.
Proof.
  intros N N' H H' Hb Hr.
  destruct (context_aggregate_eq l N H) as (a & Ea & _ & ->).
  destruct (context_aggregate_eq l' N' H') as (a' & Ea' & _ & ->).
  assert (E : aggregate (map ctx_labels l) = aggregate (map ctx_labels l')).
  { apply aggregate_determined; [by destruct l|by destruct l'|..]; unfold constructed;
      rewrite ?Forall_map; try done.
    intros b. destruct (Hb b) as [Hb1 Hb2].
    split; intros Hx x (c & -> & Hc)%list_elem_of_fmap; [apply Hb1|apply Hb2]; try done;
      intros c' Hc'; by apply Hx, list_elem_of_fmap_2. }
  rewrite Ea, Ea' in E. injection E as ->. do 2 f_equal. by apply normalize_ext.
Qed.

(** Aggregating any non-empty sequence of labels never raises and gives
    the least label that is at least as restrictive as each of them: highest
    sensitivity, lowest trust and integrity, an identity only where all known
    ones agree ([mixed] otherwise) and an authority only where all agree. *)
Theorem aggregate_is_join l :
  l ≠ [] → Forall (fun x => labels_ok x = true) l →
  ∃ a, aggregate l = Ok a ∧ labels_ok a = true ∧ (∀ x, x ∈ l → labels_le x a)
     ∧ (∀ b, (∀ x, x ∈ l → labels_le x b) → labels_le a b).
Proof. apply aggregate_lub. Qed.

Definition tenant_label (t : string) (s : DataSensitivity) : DataLabels :=
  {| sensitivity := s; trust_level := DataTrustLevel.VERIFIED; integrity := DataIntegrity.CHECKED;
     origin := Some "local"; tenant := Some t; principal := None;
     declassification_authority := None |}.

Lemma aggregate_is_join_witness :
  option_map tenant (match aggregate [tenant_label "a" DataSensitivity.SECRET;
      tenant_label "b" DataSensitivity.PUBLIC] with Ok a => Some a | Err _ => None end)
  = Some (Some "mixed")
  ∧ ∃ a, aggregate [tenant_label "a" DataSensitivity.SECRET; tenant_label "b" DataSensitivity.PUBLIC] = Ok a
    ∧ labels_ok a = true ∧ (∀ x, x ∈ [tenant_label "a" DataSensitivity.SECRET; tenant_label "b" DataSensitivity.PUBLIC] → labels_le x a)
    ∧ (∀ b, (∀ x, x ∈ [tenant_label "a" DataSensitivity.SECRET; tenant_label "b" DataSensitivity.PUBLIC] → labels_le x b) → labels_le a b).
Proof.
  split; [by vm_compute|]. apply (aggregate_is_join [_; _]); [done|].
  repeat constructor; by vm_compute.
Defined.

(** Neither the order in which sources are observed nor the way they are
    grouped into intermediate contexts changes the aggregated context: labels
    and the normalized source references come out the same. *)
Theorem aggregate_order_and_grouping l1 l2 l :
  l1 ≠ [] → l2 ≠ [] → Forall ctx_constructed l1 → Forall ctx_constructed l2 →
  l ≡ₚ l1 ++ l2 →
  ∃ c1 c2, context_aggregate l1 = Ok c1 ∧ context_aggregate l2 = Ok c2
    ∧ context_aggregate [c1; c2] = context_aggregate l.
Proof.
  intros N1 N2 H1 H2 Hp.
  destruct (context_aggregate_eq l1 N1 H1) as (a1 & E1 & K1 & ->).
  destruct (context_aggregate_eq l2 N2 H2) as (a2 & E2 & K2 & ->).
  eexists _, _. split; [done|]. split; [done|].
  destruct (aggregate_lub (map ctx_labels l1)) as (b1 & F1 & _ & U1 & L1);
    [by destruct l1|unfold constructed; by rewrite Forall_map|].
  destruct (aggregate_lub (map ctx_labels l2)) as (b2 & F2 & _ & U2 & L2);
    [by destruct l2|unfold constructed; by rewrite Forall_map|].
  rewrite E1 in F1. rewrite E2 in F2. injection F1 as <-. injection F2 as <-.
  assert (Hl : Forall ctx_constructed l) by (rewrite Hp; by apply Forall_app).
  apply context_aggregate_determined; [done| |by repeat constructor|done|..].
  - intros ->. apply Permutation_nil in Hp. by destruct l1.
  - intros b. split.
    + intros Hc c Hin. rewrite Hp, elem_of_app in Hin.
      destruct Hin as [Hin|Hin]; [transitivity a1|transitivity a2].
      * by apply U1, list_elem_of_fmap_2.
      * exact (Hc _ ltac:(left)).
      * by apply U2, list_elem_of_fmap_2.
      * exact (Hc _ ltac:(right; left)).
    + intros Hc c Hin. apply elem_of_cons in Hin as [->|Hin].
      * apply L1. intros x (c' & -> & Hc')%list_elem_of_fmap. apply Hc. rewrite Hp. set_solver.
      * apply list_elem_of_singleton in Hin as ->.
        apply L2. intros x (c' & -> & Hc')%list_elem_of_fmap. apply Hc. rewrite Hp. set_solver.
  - intros r. cbn [map concat ctx_source_refs]. rewrite app_nil_r, elem_of_app, !elem_of_normalize.
    rewrite !elem_of_concat_map. setoid_rewrite Hp. setoid_rewrite elem_of_app. naive_solver.
Qed.

Definition demo_context (t : string) (s : DataSensitivity) (o : string) : DataFlowContext :=
  {| ctx_labels := tenant_label t s;
     ctx_source_refs := [{| ref_oid := o; ref_version := 1; ref_content_sha256 := "" |}];
     ctx_materialization_id := None |}.

Lemma aggregate_order_and_grouping_witness :
  ∃ c1 c2, context_aggregate [demo_context "a" DataSensitivity.SECRET "o2"] = Ok c1
    ∧ context_aggregate [demo_context "a" DataSensitivity.PUBLIC "o1"] = Ok c2
    ∧ context_aggregate [c1; c2]
      = context_aggregate [demo_context "a" DataSensitivity.PUBLIC "o1";
                           demo_context "a" DataSensitivity.SECRET "o2"].
Proof.
  apply (aggregate_order_and_grouping [demo_context "a" DataSensitivity.SECRET "o2"]
           [demo_context "a" DataSensitivity.PUBLIC "o1"]); [done|done|..].
  - repeat constructor; by vm_compute.
  - repeat constructor; by vm_compute.
  - cbn [app]. apply perm_swap.
Defined.

(** ** Decoding *)

Lemma labels_roundtrip l : labels_ok l = true → labels_from_dict (labels_to_dict l) = Ok l.
Proof. intros H. rewrite <-(mk_DataLabels_ok l H). by destruct l. Qed.

Definition ref_ok (r : DataSourceRef) : Prop :=
  is_Ok (_require_text "source oid" (PStr (ref_oid r))) = true ∧ (1 <= ref_version r)%Z
  ∧ is_sha256_hex (ref_content_sha256 r) = true.

Lemma ref_roundtrip r : ref_ok r → ref_from_dict (ref_to_dict r) = Ok r.
Proof.
  intros (Ho & Hv & Hs). unfold ref_from_dict, ref_to_dict.
  change (mk_DataSourceRef (PStr (ref_oid r)) (PInt (ref_version r)) (PStr (ref_content_sha256 r)) = Ok r).
  unfold mk_DataSourceRef.
  assert (_require_text "source oid" (PStr (ref_oid r)) = Ok (ref_oid r)) as ->.
  { cbn [_require_text] in *. by destruct (_ || _). }
  rewrite res_bind_ok. assert ((ref_version r <? 1)%Z = false) as -> by (apply Z.ltb_ge; lia).
  rewrite res_bind_ok. cbn [_require_sha256]. rewrite Hs. by destruct r.
Qed.

(** A context as the constructor leaves it. *)
Definition context_ok (c : DataFlowContext) : Prop :=
  labels_ok (ctx_labels c) = true ∧ Forall ref_ok (ctx_source_refs c)
  ∧ _normalize_source_refs (ctx_source_refs c) = ctx_source_refs c
  ∧ opt_text_ok false (ctx_materialization_id c) = true.

(** A flow context survives encoding: decoding the mapping of any
    constructed context gives the context back, and whatever decodes is again a
    constructed context with normalized references (so a record with an unknown
    field, an unknown enum value or a malformed identity never decodes). *)
Theorem context_roundtrip :
  (∀ c, context_ok c → context_from_dict (context_to_dict c) = Ok c)
  ∧ (∀ v c, context_from_dict v = Ok c →
       labels_ok (ctx_labels c) = true ∧ opt_text_ok false (ctx_materialization_id c) = true
       ∧ _normalize_source_refs (ctx_source_refs c) = ctx_source_refs c
       ∧ ∃ d, v = PDict d ∧ has_unknown_key d ["labels"; "source_refs"; "materialization_id"] = false).
Proof.
  split.
  - intros c (Hl & Hr & Hn & Hm). unfold context_from_dict, context_to_dict.
    match goal with |- context [raise_if ?b _] => change b with false end. cbn [raise_if].
    rewrite res_bind_ok. cbn [dict_get_none dict_get String.eqb Ascii.eqb Bool.eqb].
    change (dict_get_none _ "labels") with (labels_to_dict (ctx_labels c)). cbn zeta.
    change (py_falsy (labels_to_dict (ctx_labels c))) with false. cbn iota.
    rewrite labels_roundtrip, res_bind_ok by done.
    change (dict_get_none _ "source_refs") with (PList (map ref_to_dict (ctx_source_refs c))).
    change (dict_get_none _ "materialization_id") with (py_opt (ctx_materialization_id c)).
    assert (py_items (if py_falsy (PList (map ref_to_dict (ctx_source_refs c))) then PTuple []
              else PList (map ref_to_dict (ctx_source_refs c)))
            = Ok (map ref_to_dict (ctx_source_refs c))) as ->.
    { by destruct (ctx_source_refs c). }
    rewrite res_bind_ok.
    assert (mapR ref_from_dict (map ref_to_dict (ctx_source_refs c)) = Ok (ctx_source_refs c)) as ->.
    { apply mapR_Ok. rewrite Forall2_fmap_l. apply Forall_Forall2_diag.
      eapply Forall_impl; [exact Hr|]. apply ref_roundtrip. }
    rewrite res_bind_ok. unfold mk_DataFlowContext. rewrite (optional_text_ok _ _ _ Hm).
    cbn. rewrite Hn. by destruct c.
  - intros v c E. unfold context_from_dict in E. destruct v; try done.
    unfold mk_DataFlowContext in E. res_simpl. cbn.
    match goal with H : labels_from_dict _ = Ok _ |- _ => rename H into El end.
    match goal with H : _validate_optional_text _ _ _ = Ok _ |- _ =>
      apply optional_text_inv in H as [_ Htext] end.
    split_and!; [|done|apply normalize_ext; intros r; apply elem_of_normalize|by eexists].
    unfold labels_from_dict in El. res_match. by eapply mk_DataLabels_valid.
Qed.

Lemma context_roundtrip_witness :
  let c := demo_context "a" DataSensitivity.SECRET "o1" in
  let c := {| ctx_labels := ctx_labels c; ctx_source_refs := []; ctx_materialization_id := Some "m" |} in
  context_from_dict (context_to_dict c) = Ok c.
Proof.
  intros c0 c. apply (proj1 context_roundtrip). split_and!; [by vm_compute|constructor|done|by vm_compute].
Defined.

(** ** Propagation *)

Lemma merge_security_upper explicit inherited v :
  v ∈ explicit :: inherited → v ≠ Some "" →
  flat_le "mixed" v (_merge_security_identity explicit inherited).
Proof.
  intros Hv Hne. pose proof (merge_identity_upper _ "mixed" v Hv Hne) as H.
  unfold _merge_identity in H. unfold _merge_security_identity.
  destruct (distinct_identities _) as [|x [|y l]]; [done| |done].
  destruct (String.eqb_spec x "mixed") as [->|_]; done.
Qed.

Lemma flat_le_conservative a b : flat_le "mixed" a b → _identity_is_conservative a b = true.
Proof.
  unfold flat_le, _identity_is_conservative. rewrite !orb_true_iff, !bool_decide_eq_true.
  destruct a, b; naive_solver.
Qed.

(** The labels of a derived Object never fall below those of its explicit
    metadata or of any parent: sensitivity rises, trust and integrity fall, and
    differing tenants or principals become mixed.  The propagation therefore
    passes the conservative check up to the declassification authority, the
    only component that can make it fail. *)
Theorem propagation_is_conservative metadata parents :
  Forall (fun x => labels_ok x = true) (metadata :: parents) →
  let derived := propagate_object_labels metadata parents in
  (∀ x, x ∈ metadata :: parents →
     sensitivity_rank (sensitivity x) <= sensitivity_rank (sensitivity derived)
     ∧ trust_rank (trust_level derived) <= trust_rank (trust_level x)
     ∧ integrity_rank (integrity derived) <= integrity_rank (integrity x)
     ∧ flat_le "mixed" (tenant x) (tenant derived)
     ∧ flat_le "mixed" (principal x) (principal derived))
  ∧ is_conservative_label_propagation metadata derived
    = bool_decide (declassification_authority derived ∈ [declassification_authority metadata; None]).
Proof.
  intros H derived.
  assert (Hup : ∀ x, x ∈ metadata :: parents →
     sensitivity_rank (sensitivity x) <= sensitivity_rank (sensitivity derived)
     ∧ trust_rank (trust_level derived) <= trust_rank (trust_level x)
     ∧ integrity_rank (integrity derived) <= integrity_rank (integrity x)
     ∧ flat_le "mixed" (tenant x) (tenant derived)
     ∧ flat_le "mixed" (principal x) (principal derived)).
  { intros x Hx. rewrite Forall_forall in H. pose proof (H x Hx) as Ok1.
    apply labels_ok_spec in Ok1 as (_ & Ht & Hp & _).
    subst derived. unfold propagate_object_labels. destruct parents as [|p ps].
    - apply list_elem_of_singleton in Hx as ->. split_and!; done || reflexivity.
    - cbn [sensitivity trust_level integrity tenant principal]. split_and!.
      + by apply (max_by_spec (fun i => sensitivity_rank (sensitivity i))).
      + by apply (min_by_spec (fun i => trust_rank (trust_level i))).
      + by apply (min_by_spec (fun i => integrity_rank (integrity i))).
      + apply merge_security_upper; [exact (list_elem_of_fmap_2 tenant _ _ Hx)|by eapply opt_text_not_empty].
      + apply merge_security_upper; [exact (list_elem_of_fmap_2 principal _ _ Hx)|by eapply opt_text_not_empty]. }
  split; [exact Hup|]. destruct (Hup metadata ltac:(left)) as (S & T & I & Ht & Hp).
  unfold is_conservative_label_propagation.
  apply Nat.leb_le in S as ->, T as ->, I as ->.
  by rewrite (flat_le_conservative _ _ Ht), (flat_le_conservative _ _ Hp).
Qed.

Lemma propagation_is_conservative_witness :
  let m := tenant_label "a" DataSensitivity.PUBLIC in
  let p := tenant_label "b" DataSensitivity.SECRET in
  flat_le "mixed" (tenant p) (tenant (propagate_object_labels m [p]))
  ∧ is_conservative_label_propagation m (propagate_object_labels m [p]) = true.
Proof.
  intros m p. destruct (propagation_is_conservative m [p]) as [H E].
  - repeat constructor; by vm_compute.
  - split; [apply (H p); right; left|rewrite E; by vm_compute].
Defined.

Definition with_authority (a : option string) : DataLabels :=
  {| sensitivity := DataSensitivity.SECRET; trust_level := DataTrustLevel.UNKNOWN;
     integrity := DataIntegrity.UNKNOWN; origin := None; tenant := None; principal := None;
     declassification_authority := a |}.

(** A derived Object adopts the authority of one parent even when another
    parent and the metadata have none; the conservative check and the flow
    aggregation both refuse that authority. *)
Lemma propagation_adopts_authority :
  let derived := propagate_object_labels (with_authority None)
                   [with_authority (Some "alice"); with_authority None] in
  declassification_authority derived = Some "alice"
  ∧ is_conservative_label_propagation (with_authority None) derived = false
  ∧ option_map declassification_authority
      (match aggregate [with_authority None; with_authority (Some "alice"); with_authority None] with
       | Ok a => Some a | Err _ => None end) = Some None.
Proof. by vm_compute. Qed.
