(* ===== verification/SinkTrust.v ===== *)
(** * Sinks, the trust registry and egress clearance

    The sink part of [models/data_flow.py], the registry tables of
    [storage/sql.py] ([sink_trust_records], [sink_trust_registry]) and the
    decision part of [runtime/data_flow_manager.py]: registration,
    resolution, clearance and the classification of an egress.

    Rows of the registry are kept decoded: a row is written from a constructed
    [SinkTrustSpec] and decodes to it.  What the manager asks of the capability
    manager before a change ([authorize]) and the event and audit rows it
    writes inside the transaction ([evidence]) are parameters that may raise. *)

From S2P Require Import Prelude PyStr PyVal PyEnum DataLabels.
From stdpp Require Import sorting.
From Stdlib Require Import Ascii.

(** ** Data *)

Module SinkTrustLevel.
Inductive SinkTrustLevel : Set := UNTRUSTED | CONDITIONAL | TRUSTED.
End SinkTrustLevel.
Abbreviation SinkTrustLevel := SinkTrustLevel.SinkTrustLevel.

Module DataFlowOutcome.
Inductive DataFlowOutcome : Set := ALLOW | DENY | RELEASE_REQUIRED.
End DataFlowOutcome.
Abbreviation DataFlowOutcome := DataFlowOutcome.DataFlowOutcome.

#[export] Instance sink_trust_eq_dec : EqDecision SinkTrustLevel.
Proof. solve_decision. Defined.
#[export] Instance outcome_eq_dec : EqDecision DataFlowOutcome.
Proof. solve_decision. Defined.

Record DataSink : Set := {
  sink_identity : string;
  sink_identity_sha256 : option string;
  trust_identity : option string;
  trust_identity_sha256 : option string;
}.

(** [namespace, target = value.split(":", 1)], both non-empty; [value]
    contains a colon. *)
Definition namespaced (value : string) : bool :=
  match split_once ":" value with
  | Some (namespace, target) => negb (String.eqb namespace "") && negb (String.eqb target "")
  | None => false
  end.

Definition mk_DataSink (identity : string)
    (identity_sha256 trust trust_sha256 : option string) : res DataSink :=
  _ ← _require_text "sink identity" (PStr identity);
  _ ← raise_if (contains_char "*" identity)
        (ValueError "concrete sink identity must not contain wildcards");
  _ ← raise_if (negb (String.eqb identity (strip identity)) || negb (contains_char ":" identity))
        (ValueError "sink identity must be a canonical namespaced value");
  _ ← raise_if (negb (namespaced identity))
        (ValueError "sink identity must include a non-empty namespace and target");
  _ ← _optional_sha256 "sink identity_sha256" (py_opt identity_sha256);
  _ ← match trust with
      | Some t =>
          _ ← _require_text "sink trust_identity" (PStr t);
          raise_if (contains_char "*" t || negb (contains_char ":" t))
            (ValueError "sink trust_identity must be a concrete canonical namespaced value")
      | None => Ok tt
      end;
  _ ← _optional_sha256 "sink trust_identity_sha256" (py_opt trust_sha256);
  Ok {| sink_identity := identity; sink_identity_sha256 := identity_sha256;
        trust_identity := trust; trust_identity_sha256 := trust_sha256 |}.

(** [a or b] on optional strings. *)
Definition or_string (a b : option string) : option string :=
  match a with Some s => if String.eqb s "" then b else a | None => b end.

Definition registry_identity (s : DataSink) : string :=
  default (sink_identity s) (or_string (trust_identity s) (Some (sink_identity s))).

Definition registry_identity_sha256 (s : DataSink) : option string :=
  or_string (trust_identity_sha256 s) (sink_identity_sha256 s).

(** ** Trust rules *)

Definition _validate_sink_pattern (pattern : string) : res unit :=
  _ ← _require_text "sink pattern" (PStr pattern);
  _ ← raise_if (negb (String.eqb pattern (strip pattern)) || negb (contains_char ":" pattern)
                || contains_char "000" pattern)
        (ValueError "sink pattern must be a canonical namespaced value");
  _ ← raise_if ((1 <? count_char "*" pattern) || contains_char "*" pattern && negb (endswith "*" pattern))
        (ValueError "sink pattern only supports one trailing wildcard");
  raise_if (negb (namespaced pattern))
    (ValueError "sink pattern must include a non-empty namespace and target").

Definition sink_pattern_matches (pattern sink : string) : res bool :=
  _ ← _validate_sink_pattern pattern;
  _ ← mk_DataSink sink None None None;
  Ok (if endswith "*" pattern then startswith (drop_last 1 pattern) sink
      else String.eqb sink pattern).

(** Each name is checked, a repetition is dropped, the rest is sorted. *)
Definition _normalize_clearance_identities (name : string) (values : list string) : res (list string) :=
  selected ← foldR (fun selected value =>
    _ ← _require_text name (PStr value);
    _ ← raise_if (bool_decide (value ∈ ["*"; "mixed"]))
          (ValueError (name +:+ " must explicitly enumerate identities"));
    Ok (if bool_decide (value ∈ selected) then selected else selected ++ [value])) [] values;
  Ok (merge_sort str_le selected).

Definition _PROVIDER_BACKED_PREFIXES : list string :=
  ["llm:"; "jsonrpc:"; "mcp:"; "mcp_stdio:"; "shell:"; "pty:"].

Record SinkTrustRule : Set := {
  rule_pattern : string;
  rule_trust_level : SinkTrustLevel;
  rule_max_sensitivity : DataSensitivity;
  rule_tenants : list string;
  rule_principals : list string;
  rule_identity_sha256 : option string;
}.

#[export] Instance rule_eq_dec : EqDecision SinkTrustRule.
Proof. solve_decision. Defined.

(** [SinkTrustRule(...)]: [__post_init__] on fields of their declared types. *)
Definition mk_SinkTrustRule (r : SinkTrustRule) : res SinkTrustRule :=
  _ ← _validate_sink_pattern (rule_pattern r);
  tenants ← _normalize_clearance_identities "tenants" (rule_tenants r);
  principals ← _normalize_clearance_identities "principals" (rule_principals r);
  _ ← _optional_sha256 "identity_sha256" (py_opt (rule_identity_sha256 r));
  let above_normal :=
    sensitivity_rank DataSensitivity.NORMAL <? sensitivity_rank (rule_max_sensitivity r) in
  _ ← raise_if (bool_decide (rule_trust_level r = SinkTrustLevel.UNTRUSTED) && above_normal)
        (ValueError "untrusted sink max_sensitivity must not exceed normal");
  _ ← raise_if (existsb (fun p => startswith p (rule_pattern r)) _PROVIDER_BACKED_PREFIXES
                && above_normal && bool_decide (rule_identity_sha256 r = None))
        (ValueError "provider-backed sink clearance above normal requires identity_sha256");
  Ok {| rule_pattern := rule_pattern r; rule_trust_level := rule_trust_level r;
        rule_max_sensitivity := rule_max_sensitivity r; rule_tenants := tenants;
        rule_principals := principals; rule_identity_sha256 := rule_identity_sha256 r |}.

Record SinkTrustSpec : Set := {
  trust_id : string;
  spec_rule : SinkTrustRule;
  spec_generation : Z;
  created_by : string;
  spec_created_at : string;
  spec_hash : string;
  spec_active : bool;
  deactivated_at : option string;
}.

#[export] Instance spec_eq_dec : EqDecision SinkTrustSpec.
Proof. solve_decision. Defined.

(** ** The registry *)

Record SinkRegistry : Set := {
  registry_generation : Z;
  sink_trust_records : list SinkTrustSpec;
}.

Definition empty_registry : SinkRegistry :=
  {| registry_generation := 0; sink_trust_records := [] |}.

Definition deactivate (at_ : string) (s : SinkTrustSpec) : SinkTrustSpec :=
  {| trust_id := trust_id s; spec_rule := spec_rule s; spec_generation := spec_generation s;
     created_by := created_by s; spec_created_at := spec_created_at s; spec_hash := spec_hash s;
     spec_active := false; deactivated_at := Some at_ |}.

(** [WHERE pattern = ? AND active = 1]. *)
Definition active_for (pattern : string) (s : SinkTrustSpec) : bool :=
  spec_active s && String.eqb (rule_pattern (spec_rule s)) pattern.

Definition inspect_sink_trust (pattern : string) (r : SinkRegistry) : option SinkTrustSpec :=
  List.find (active_for pattern) (sink_trust_records r).

(** [ORDER BY generation DESC, pattern, trust_id]. *)
Definition listing_leb (a b : SinkTrustSpec) : bool :=
  (spec_generation b <? spec_generation a)%Z
  || (spec_generation a =? spec_generation b)%Z
     && (str_ltb (rule_pattern (spec_rule a)) (rule_pattern (spec_rule b))
         || String.eqb (rule_pattern (spec_rule a)) (rule_pattern (spec_rule b))
            && str_leb (trust_id a) (trust_id b)).

Definition listing_le (a b : SinkTrustSpec) : Prop := listing_leb a b = true.

#[export] Instance listing_le_dec : RelDecision listing_le.
Proof. intros a b. unfold listing_le. apply _. Defined.

(** [list_sink_trust(active_only=True)], without a limit. *)
Definition list_sink_trust (r : SinkRegistry) : list SinkTrustSpec :=
  merge_sort listing_le (List.filter spec_active (sink_trust_records r)).

(** The primary key and the two unique indexes of the table. *)
Definition violates_unique (r : list SinkTrustSpec) (s : SinkTrustSpec) : bool :=
  existsb (fun x => String.eqb (trust_id x) (trust_id s)
    || String.eqb (rule_pattern (spec_rule x)) (rule_pattern (spec_rule s))
       && ((spec_generation x =? spec_generation s)%Z || spec_active x && spec_active s)) r.

(** The store's [register_sink_trust]. *)
Definition store_register_sink_trust (spec : SinkTrustSpec) (replace : bool) : M SinkRegistry unit :=
  _ ← lift_res (raise_if (negb (spec_active spec))
        (ValidationError "new sink trust record must be active"));
  transaction (
    r ← get_state;
    _ ← lift_res (raise_if (negb (spec_generation spec =? registry_generation r + 1)%Z)
          (ValidationError "sink trust generation conflict"));
    let pattern := rule_pattern (spec_rule spec) in
    let existing := inspect_sink_trust pattern r in
    _ ← lift_res (raise_if (bool_decide (is_Some existing) && negb replace)
          (ValidationError "active sink trust rule already exists"));
    let records :=
      match existing with
      | Some _ => map (fun s => if active_for pattern s then deactivate (spec_created_at spec) s else s)
                    (sink_trust_records r)
      | None => sink_trust_records r
      end in
    _ ← lift_res (raise_if (violates_unique records spec)
          (IntegrityError "UNIQUE constraint failed: sink_trust_records"));
    put_state {| registry_generation := spec_generation spec;
                 sink_trust_records := records ++ [spec] |}).

(** The store's [unregister_sink_trust]. *)
Definition store_unregister_sink_trust (pattern : string) (generation : Z) (at_ : string)
    : M SinkRegistry bool :=
  _ ← lift_res (match mk_SinkTrustRule {| rule_pattern := pattern;
                      rule_trust_level := SinkTrustLevel.UNTRUSTED;
                      rule_max_sensitivity := DataSensitivity.NORMAL; rule_tenants := [];
                      rule_principals := []; rule_identity_sha256 := None |} with
                | Err (ValueError _) => Err (ValidationError "invalid sink trust pattern")
                | r => r
                end);
  _ ← lift_res (raise_if (String.eqb (strip at_) "")
        (ValidationError "sink trust deactivated_at must be a non-empty string"));
  transaction (
    r ← get_state;
    _ ← lift_res (raise_if (negb (generation =? registry_generation r + 1)%Z)
          (ValidationError "sink trust generation conflict"));
    match inspect_sink_trust pattern r with
    | None => mret false
    | Some _ =>
        _ ← lift_res (raise_if
              (negb (length (List.filter (active_for pattern) (sink_trust_records r)) =? 1))
              (ValidationError "sink trust rule changed concurrently"));
        _ ← put_state {| registry_generation := generation;
              sink_trust_records := map (fun s => if active_for pattern s then deactivate at_ s else s)
                                      (sink_trust_records r) |};
        mret true
    end).

(** ** The manager *)

(** [pattern[:-1] if pattern.endswith("*") else pattern]. *)
Definition pattern_base (pattern : string) : string :=
  if endswith "*" pattern then drop_last 1 pattern else pattern.

Section Manager.
(** [_canonical_sha256] of the mapping of a rule with its schema version:
    [json.dumps] and [hashlib.sha256]. *)
Variable rule_hash : SinkTrustRule → string.

(** [SinkTrustSpec(...)] of a new record: [__post_init__]. *)
Definition mk_SinkTrustSpec (id : string) (rule : SinkTrustRule) (generation : Z)
    (actor now : string) : res SinkTrustSpec :=
  _ ← _require_text "trust_id" (PStr id);
  _ ← _require_text "created_by" (PStr actor);
  _ ← _require_text "created_at" (PStr now);
  _ ← raise_if (generation <? 1)%Z (ValueError "sink trust generation must be a positive integer");
  rule ← mk_SinkTrustRule rule;
  Ok {| trust_id := id; spec_rule := rule; spec_generation := generation; created_by := actor;
        spec_created_at := now; spec_hash := rule_hash rule; spec_active := true;
        deactivated_at := None |}.

(** [limit] is [config.data_flow.registry_list_limit]; [new_id] and [now]
    are the fresh identifier and the clock. *)
Definition register_sink_trust (limit : nat) (authorize evidence : res unit) (new_id now : string)
    (rule : SinkTrustRule) (actor : string) (replace : bool) : M SinkRegistry SinkTrustSpec :=
  rule ← lift_res (match mk_SinkTrustRule rule with
                   | Err (ValueError m) => Err (ValidationError m)
                   | r => r end);
  _ ← lift_res authorize;
  transaction (
    r ← get_state;
    let active_rules := list_sink_trust r in
    let replacing_existing :=
      existsb (fun i => String.eqb (rule_pattern (spec_rule i)) (rule_pattern rule)) active_rules in
    _ ← lift_res (raise_if (negb replacing_existing && (limit <=? length active_rules))
          (ValidationError "active Sink trust registry reached configured limit"));
    _ ← lift_res (raise_if (existsb (fun existing =>
            negb (replace && String.eqb (rule_pattern (spec_rule existing)) (rule_pattern rule))
            && String.eqb (pattern_base (rule_pattern (spec_rule existing)))
                 (pattern_base (rule_pattern rule))) active_rules)
          (ValidationError "equal-priority overlapping Sink trust patterns are forbidden"));
    record ← lift_res (mk_SinkTrustSpec new_id rule (registry_generation r + 1) actor now);
    _ ← store_register_sink_trust record replace;
    _ ← lift_res evidence;
    mret record).

Definition unregister_sink_trust (authorize evidence : res unit) (now pattern : string)
    : M SinkRegistry SinkTrustSpec :=
  let selected := strip pattern in
  _ ← lift_res authorize;
  transaction (
    r ← get_state;
    match inspect_sink_trust selected r with
    | None => raise (ValidationError "active Sink trust record not found")
    | Some active =>
        removed ← store_unregister_sink_trust selected (registry_generation r + 1) now;
        _ ← lift_res (raise_if (negb removed)
              (ValidationError "active Sink trust record changed concurrently"));
        _ ← lift_res evidence;
        mret active
    end).

(** ** Resolution *)

(** [len(pattern.rstrip("*"))]. *)
Definition priority (s : SinkTrustSpec) : nat :=
  String.length (rstrip_char "*" (rule_pattern (spec_rule s))).

(** [key=(priority, generation), reverse=True]: a stable descending sort. *)
Definition priority_geb (a b : SinkTrustSpec) : bool :=
  (priority b <? priority a)
  || (priority a =? priority b) && (spec_generation b <=? spec_generation a)%Z.

Definition priority_ge (a b : SinkTrustSpec) : Prop := priority_geb a b = true.

#[export] Instance priority_ge_dec : RelDecision priority_ge.
Proof. intros a b. unfold priority_ge. apply _. Defined.

(** A list comprehension filtered by a condition that may raise. *)
Fixpoint filterR {A} (f : A → res bool) (l : list A) : res (list A) :=
  match l with
  | [] => Ok []
  | x :: rest => b ← f x; tail ← filterR f rest; Ok (if (b : bool) then x :: tail else tail)
  end.

Definition resolve_sink_trust (r : SinkRegistry) (sink : DataSink) : res (option SinkTrustSpec) :=
  matches ← filterR (fun i => sink_pattern_matches (rule_pattern (spec_rule i)) (registry_identity sink))
              (list_sink_trust r);
  match merge_sort priority_ge matches with
  | [] => Ok None
  | first :: rest =>
      let tied := List.filter (fun i => priority i =? priority first) (first :: rest) in
      _ ← raise_if (1 <? length tied)
            (ValidationError "conflicting equal-priority Sink trust records");
      Ok (Some first)
  end.

(** ** Clearance *)

Definition effective_trust_level (trust : option SinkTrustSpec) : SinkTrustLevel :=
  match trust with Some t => rule_trust_level (spec_rule t) | None => SinkTrustLevel.UNTRUSTED end.

(** [default_max] is [config.data_flow.default_max_sensitivity]. *)
Definition effective_max (default_max : DataSensitivity) (trust : option SinkTrustSpec) : DataSensitivity :=
  let selected := match trust with
                  | Some t => rule_max_sensitivity (spec_rule t) | None => default_max end in
  if bool_decide (effective_trust_level trust = SinkTrustLevel.UNTRUSTED)
  then min_by sensitivity_rank selected [DataSensitivity.NORMAL] else selected.

(** The error text, or [None] when the labels are cleared. *)
Definition _clearance_error (default_max : DataSensitivity) (sink : DataSink) (labels : DataLabels)
    (trust : option SinkTrustSpec) (minimum_integrity : DataIntegrity) : option string :=
  if integrity_rank (integrity labels) <? integrity_rank minimum_integrity
  then Some "data integrity is below operation minimum"
  else if is_mixed_identity labels
  then Some "mixed tenant/principal data must be reclassified by the Host"
  else if sensitivity_rank (effective_max default_max trust) <? sensitivity_rank (sensitivity labels)
  then Some "data sensitivity exceeds Sink maximum"
  else if match (trust ≫= fun t => rule_identity_sha256 (spec_rule t)) : option string with
          | Some expected => negb (bool_decide (registry_identity_sha256 sink = Some expected))
          | None => false end
  then Some "Sink configuration identity hash does not match Host trust record"
  else if match tenant labels, trust with
          | None, _ => false
          | Some _, None => true
          | Some t, Some r => negb (bool_decide (t ∈ rule_tenants (spec_rule r))) end
  then Some "tenant is outside Sink clearance"
  else if match principal labels, trust with
          | None, _ => false
          | Some _, None => true
          | Some p, Some r => negb (bool_decide (p ∈ rule_principals (spec_rule r))) end
  then Some "principal is outside Sink clearance"
  else None.

(** ** Source references against current state *)

Record FileBinding : Set := {
  fb_tombstoned : bool; fb_generation : Z; fb_content_sha256 : option string }.

(** What [get_persisted_object_state] returns. *)
Record PersistedState : Set := {
  ps_released : bool; ps_recovered_after_reopen : bool; ps_version : Z; ps_payload_present : bool }.

(** The store and Object lookups the check makes: a live Object is its
    version and the hash of its payload. *)
Record SourceView : Type := {
  view_binding : string → option FileBinding;
  view_object : string → option (Z * string);
  view_state : string → option PersistedState;
}.

Definition FILE_BINDING_SOURCE_REF_PREFIX : string := "file_binding:".

Definition source_ref_error (view : SourceView) (allow_recovered : bool) (ref : DataSourceRef)
    : option string :=
  if startswith FILE_BINDING_SOURCE_REF_PREFIX (ref_oid ref) then
    let binding_id := drop_str (String.length FILE_BINDING_SOURCE_REF_PREFIX) (ref_oid ref) in
    if String.eqb binding_id "" then Some "data-flow source file binding reference is malformed" else
    match view_binding view binding_id with
    | None => Some "data-flow source file binding is unavailable"
    | Some b =>
        if fb_tombstoned b || negb (fb_generation b =? ref_version ref)%Z
           || negb (bool_decide (fb_content_sha256 b = Some (ref_content_sha256 ref)))
        then Some "data-flow source file binding changed before dispatch" else None
    end
  else
    match view_object view (ref_oid ref) with
    | None =>
        match view_state view (ref_oid ref) with
        | None => Some "data-flow source Object disappeared"
        | Some state =>
            if negb (ps_released state) || negb allow_recovered || negb (ps_recovered_after_reopen state)
            then Some "data-flow source Object is no longer live"
            else if negb (ps_version state =? ref_version ref)%Z
            then Some "data-flow source Object changed before dispatch"
            else if ps_payload_present state
            then Some "data-flow source Object payload is unavailable"
            else None
        end
    | Some (version, actual_hash) =>
        if negb (version =? ref_version ref)%Z || negb (String.eqb actual_hash (ref_content_sha256 ref))
        then Some "data-flow source Object changed before dispatch" else None
    end.

(** The first failing reference. *)
Fixpoint _validate_source_refs (view : SourceView) (allow_recovered : bool) (refs : list DataSourceRef)
    : option string :=
  match refs with
  | [] => None
  | ref :: rest =>
      match source_ref_error view allow_recovered ref with
      | Some e => Some e
      | None => _validate_source_refs view allow_recovered rest
      end
  end.

(** ** Classification of an egress *)

Definition needs_release (trust : option SinkTrustSpec) (labels : DataLabels) : bool :=
  bool_decide (effective_trust_level trust = SinkTrustLevel.CONDITIONAL)
  && (sensitivity_rank DataSensitivity.NORMAL <? sensitivity_rank (sensitivity labels)).

Definition classify_egress_snapshot (default_max : DataSensitivity) (r : SinkRegistry)
    (view : SourceView) (sink : DataSink) (context : DataFlowContext) (allow_recovered : bool)
    (minimum_integrity : DataIntegrity) : DataFlowOutcome :=
  match _validate_source_refs view allow_recovered (ctx_source_refs context) with
  | Some _ => DataFlowOutcome.DENY
  | None =>
      match resolve_sink_trust r sink with
      | Err _ => DataFlowOutcome.DENY
      | Ok trust =>
          match _clearance_error default_max sink (ctx_labels context) trust minimum_integrity with
          | Some _ => DataFlowOutcome.DENY
          | None => if needs_release trust (ctx_labels context) then DataFlowOutcome.RELEASE_REQUIRED
                    else DataFlowOutcome.ALLOW
          end
      end
  end.
End Manager.

(** ** Clearance in terms of its conditions *)

(** An identity the Sink may receive. *)
Definition identity_cleared (trust : option SinkTrustSpec) (allowed : SinkTrustRule → list string)
    (o : option string) : Prop :=
  match o, trust with
  | None, _ => True
  | Some _, None => False
  | Some s, Some t => s ∈ allowed (spec_rule t)
  end.

Definition hash_cleared (trust : option SinkTrustSpec) (sink : DataSink) : Prop :=
  match (trust ≫= fun t => rule_identity_sha256 (spec_rule t)) : option string with
  | Some expected => registry_identity_sha256 sink = Some expected
  | None => True
  end.

Definition cleared (default_max : DataSensitivity) (sink : DataSink) (labels : DataLabels)
    (trust : option SinkTrustSpec) (minimum : DataIntegrity) : Prop :=
  integrity_rank minimum <= integrity_rank (integrity labels)
  ∧ tenant labels ≠ Some "mixed" ∧ principal labels ≠ Some "mixed"
  ∧ sensitivity_rank (sensitivity labels) <= sensitivity_rank (effective_max default_max trust)
  ∧ hash_cleared trust sink
  ∧ identity_cleared trust rule_tenants (tenant labels)
  ∧ identity_cleared trust rule_principals (principal labels).

Lemma if_some_None {A} (b : bool) (x : A) (o : option A) :
  (if b then Some x else o) = None ↔ b = false ∧ o = None.
Proof. destruct b; naive_solver. Qed.

Lemma clearance_None default_max sink labels trust minimum :
  _clearance_error default_max sink labels trust minimum = None
  ↔ cleared default_max sink labels trust minimum.
Proof.
  unfold _clearance_error, cleared. rewrite !if_some_None, !Nat.ltb_ge.
  unfold is_mixed_identity. rewrite orb_false_iff, !bool_decide_eq_false.
  assert (H1 : match (trust ≫= fun t => rule_identity_sha256 (spec_rule t)) : option string with
          | Some expected => negb (bool_decide (registry_identity_sha256 sink = Some expected))
          | None => false end = false ↔ hash_cleared trust sink).
  { unfold hash_cleared. destruct (_ ≫= _); [|done]. by rewrite negb_false_iff, bool_decide_eq_true. }
  assert (H2 : ∀ allowed o, match o, trust with
          | None, _ => false
          | Some _, None => true
          | Some t, Some r => negb (bool_decide (t ∈ allowed (spec_rule r))) end = false
          ↔ identity_cleared trust allowed o).
  { intros allowed o. unfold identity_cleared. destruct o, trust; try done.
    by rewrite negb_false_iff, bool_decide_eq_true. }
  rewrite H1, (H2 rule_tenants), (H2 rule_principals). tauto.
Qed.

(** Clearance is monotone: what is cleared for restrictive labels is cleared
    for less restrictive ones. *)
Lemma cleared_mono default_max sink trust minimum a b :
  labels_le a b → cleared default_max sink b trust minimum → cleared default_max sink a trust minimum.
Proof.
  intros (S & _ & I & _ & T & P & _) (C1 & C2 & C3 & C4 & C5 & C6 & C7).
  assert (Hid : ∀ o o' allowed, flat_le "mixed" o o' → o' ≠ Some "mixed" →
            identity_cleared trust allowed o' → o ≠ Some "mixed" ∧ identity_cleared trust allowed o).
  { intros o o' allowed [->|[->|E]] Hn H; [by split|by split|done]. }
  destruct (Hid _ _ rule_tenants T C2 C6), (Hid _ _ rule_principals P C3 C7).
  unfold cleared. split_and!; done || lia.
Qed.

Lemma validate_refs_None view allow refs :
  _validate_source_refs view allow refs = None ↔ ∀ r, r ∈ refs → source_ref_error view allow r = None.
Proof.
  induction refs as [|x l IH]; cbn; [set_solver|].
  destruct (source_ref_error view allow x) eqn:E.
  - split; [done|]. intros H. specialize (H x ltac:(left)). congruence.
  - rewrite IH. setoid_rewrite elem_of_cons. naive_solver.
Qed.

(** ** The verdict as an order: a release request is weaker than a denial *)

Definition outcome_le (a b : DataFlowOutcome) : Prop :=
  match a, b with
  | DataFlowOutcome.ALLOW, _ | _, DataFlowOutcome.DENY => True
  | DataFlowOutcome.RELEASE_REQUIRED, DataFlowOutcome.RELEASE_REQUIRED => True
  | _, _ => False
  end.

Lemma outcome_le_deny a : outcome_le a DataFlowOutcome.DENY.
Proof. by destruct a. Qed.

Lemma classify_mono default_max r view sink a b allow minimum :
  labels_le (ctx_labels a) (ctx_labels b) →
  (∀ x, x ∈ ctx_source_refs a → x ∈ ctx_source_refs b) →
  outcome_le (classify_egress_snapshot default_max r view sink a allow minimum)
    (classify_egress_snapshot default_max r view sink b allow minimum).
Proof.
  intros Hl Hr. unfold classify_egress_snapshot.
  destruct (_validate_source_refs view allow (ctx_source_refs b)) eqn:Eb; [apply outcome_le_deny|].
  assert (_validate_source_refs view allow (ctx_source_refs a) = None) as ->.
  { apply validate_refs_None. rewrite validate_refs_None in Eb. auto. }
  destruct (resolve_sink_trust r sink) as [trust|]; [|done].
  destruct (_clearance_error default_max sink (ctx_labels b) trust minimum) eqn:Cb;
    [apply outcome_le_deny|].
  apply clearance_None in Cb. apply (cleared_mono _ _ _ _ _ _ Hl), clearance_None in Cb. rewrite Cb.
  unfold needs_release. destruct (bool_decide _); [|done]. cbn [andb].
  destruct Hl as [S _].
  destruct (Nat.ltb_spec (sensitivity_rank DataSensitivity.NORMAL) (sensitivity_rank (sensitivity (ctx_labels a)))),
    (Nat.ltb_spec (sensitivity_rank DataSensitivity.NORMAL) (sensitivity_rank (sensitivity (ctx_labels b))));
    done || lia.
Qed.

(** (C39) Combining data never makes it easier to send: whatever sources a
    context aggregates, its egress verdict at any Sink is at least as strict as
    the verdict of each source alone.  In particular an aggregate is allowed
    out only if every one of its sources is. *)
Theorem egress_no_laundering default_max r view sink sources combined source allow minimum :
  Forall ctx_constructed sources → context_aggregate sources = Ok combined → source ∈ sources →
  outcome_le (classify_egress_snapshot default_max r view sink source allow minimum)
    (classify_egress_snapshot default_max r view sink combined allow minimum).
Proof.
  intros Hc E Hin. assert (N : sources ≠ []) by (by intros ->; apply elem_of_nil in Hin).
  destruct (context_aggregate_eq sources N Hc) as (a & Ea & _ & E'). rewrite E in E'.
  injection E' as ->. apply classify_mono; cbn [ctx_labels ctx_source_refs].
  - destruct (aggregate_lub (map ctx_labels sources)) as (a' & Ea' & _ & U & _);
      [by destruct sources|unfold constructed; by rewrite Forall_map|].
    rewrite Ea in Ea'. injection Ea' as <-. by apply U, list_elem_of_fmap_2.
  - intros x Hx. rewrite elem_of_normalize, elem_of_concat_map. eauto.
Qed.

(** What leaves without a release: normal data at most, except at a trusted
    Sink. *)
Definition sensitivity_bound (default_max : DataSensitivity) (trust : option SinkTrustSpec) : nat :=
  match trust with
  | None => min (sensitivity_rank default_max) (sensitivity_rank DataSensitivity.NORMAL)
  | Some t =>
      match rule_trust_level (spec_rule t) with
      | SinkTrustLevel.TRUSTED => sensitivity_rank (rule_max_sensitivity (spec_rule t))
      | _ => min (sensitivity_rank (rule_max_sensitivity (spec_rule t)))
               (sensitivity_rank DataSensitivity.NORMAL)
      end
  end.

Lemma sensitivity_bound_spec default_max trust l :
  sensitivity_rank (sensitivity l) <= sensitivity_rank (effective_max default_max trust)
    ∧ needs_release trust l = false
  ↔ sensitivity_rank (sensitivity l) <= sensitivity_bound default_max trust.
Proof.
  assert (Hmin : ∀ m, sensitivity_rank (min_by sensitivity_rank m [DataSensitivity.NORMAL])
            = min (sensitivity_rank m) (sensitivity_rank DataSensitivity.NORMAL)) by (by intros []).
  unfold needs_release, effective_max, sensitivity_bound, effective_trust_level.
  destruct trust as [t|]; [destruct (rule_trust_level (spec_rule t))|];
    repeat case_bool_decide; try done; cbn [andb]; rewrite ?Hmin, ?Nat.ltb_ge; (tauto || lia).
Qed.

(** Exactly when an egress is allowed without a release: every source
    reference is current, the Sink resolves, the data meets the integrity floor
    and carries no mixed identity, its sensitivity is within the record's
    maximum (never above normal for an untrusted or unmatched Sink, nor for a
    conditional one), the identity hash matches, and tenant and principal are
    among those the record names; an unmatched Sink receives no identity. *)
Theorem egress_allow_iff default_max r view sink context allow minimum :
  classify_egress_snapshot default_max r view sink context allow minimum = DataFlowOutcome.ALLOW
  ↔ (∀ ref, ref ∈ ctx_source_refs context → source_ref_error view allow ref = None)
    ∧ ∃ trust, resolve_sink_trust r sink = Ok trust
      ∧ let l := ctx_labels context in
        integrity_rank minimum <= integrity_rank (integrity l)
        ∧ tenant l ≠ Some "mixed" ∧ principal l ≠ Some "mixed" ∧ hash_cleared trust sink
        ∧ identity_cleared trust rule_tenants (tenant l)
        ∧ identity_cleared trust rule_principals (principal l)
        ∧ sensitivity_rank (sensitivity l) <= sensitivity_bound default_max trust.
Proof.
  unfold classify_egress_snapshot. rewrite <-validate_refs_None.
  destruct (_validate_source_refs _ _ _); [naive_solver|].
  destruct (resolve_sink_trust r sink) as [trust|]; [|naive_solver].
  set (l := ctx_labels context). cbn zeta.
  transitivity (_clearance_error default_max sink l trust minimum = None ∧ needs_release trust l = false).
  { destruct (_clearance_error _ _ _ _ _); [naive_solver|]. destruct (needs_release _ _); naive_solver. }
  rewrite clearance_None. pose proof (sensitivity_bound_spec default_max trust l) as HS.
  unfold cleared. split.
  - intros [(?&?&?&?&?&?&?) ?]. split; [done|]. exists trust. split_and!; try done. by apply HS.
  - intros (_ & trust' & [= <-] & ?&?&?&?&?&?&Hs). apply HS in Hs as [? ?]. by split_and!.
Qed.

(** ** Patterns and their priority *)

Lemma count_char_app c a b : count_char c (a +:+ b) = count_char c a + count_char c b.
Proof. induction a as [|d a IH]; cbn; [done|]. rewrite IH. lia. Qed.

Lemma count_char_0 c s : count_char c s = 0 ↔ contains_char c s = false.
Proof.
  induction s as [|d s IH]; [done|]. rewrite contains_char_cons. cbn.
  destruct (Ascii.eqb c d); cbn; [naive_solver lia|]. by rewrite <-IH.
Qed.

Lemma rstrip_by_app_last p s c : p c = true → rstrip_by p (s +:+ String c "") = rstrip_by p s.
Proof. intros Hc. induction s as [|d s IH]; cbn; [by rewrite Hc|]. by rewrite IH. Qed.

Lemma rstrip_char_absent c s : contains_char c s = false → rstrip_char c s = s.
Proof.
  intros H. apply rstrip_by_none. unfold contains_char, str_any in H. by apply negb_false_iff in H.
Qed.

(** A valid pattern is its base, or its base followed by one star. *)
Lemma pattern_shape p :
  _validate_sink_pattern p = Ok tt →
  contains_char "*" (pattern_base p) = false
  ∧ p = (if endswith "*" p then pattern_base p +:+ "*" else pattern_base p)
  ∧ rstrip_char "*" p = pattern_base p.
Proof.
  intros E. unfold _validate_sink_pattern in E. res_simpl.
  match goal with H : (1 <? _) = false |- _ => apply Nat.ltb_ge in H; rename H into Hc end.
  match goal with H : contains_char "*" p && _ = false |- _ => rename H into Hs end.
  unfold pattern_base. destruct (endswith "*" p) eqn:He.
  - apply endswith_spec in He as (q & ->). rewrite count_char_app in Hc. cbn in Hc.
    change (drop_last 1 (q +:+ "*")) with (drop_last (String.length "*") (q +:+ "*")).
    rewrite drop_last_app. assert (Hq : contains_char "*" q = false) by (apply count_char_0; lia).
    split; [done|]. split; [done|]. unfold rstrip_char. rewrite rstrip_by_app_last by done.
    by apply rstrip_char_absent.
  - rewrite andb_true_r in Hs. split; [done|]. split; [done|]. by apply rstrip_char_absent.
Qed.

Lemma startswith_same_length a b s :
  startswith a s = true → startswith b s = true → String.length a = String.length b → a = b.
Proof.
  intros (r & ->)%startswith_spec (r' & E)%startswith_spec Hl. revert b E Hl.
  induction a as [|c a IH]; intros [|d b] E Hl; cbn in *; try done.
  injection E as -> E. f_equal. apply (IH b E). lia.
Qed.

Lemma matches_base p sink :
  sink_pattern_matches p sink = Ok true → startswith (pattern_base p) sink = true.
Proof.
  unfold sink_pattern_matches, pattern_base. intros E. res_simpl.
  match goal with H : (if _ then _ else _) = true |- _ => revert H end.
  destruct (endswith "*" p); [done|]. intros ->%String.eqb_eq. apply startswith_refl.
Qed.

Lemma matches_valid p sink b : sink_pattern_matches p sink = Ok b → _validate_sink_pattern p = Ok tt.
Proof. unfold sink_pattern_matches. intros E. res_simpl. by destruct a. Qed.

(** ** The registry invariant *)

Definition base_of (s : SinkTrustSpec) : string := pattern_base (rule_pattern (spec_rule s)).

(** Active records have valid patterns with pairwise different bases. *)
Definition registry_inv (r : SinkRegistry) : Prop :=
  Forall (fun s => _validate_sink_pattern (rule_pattern (spec_rule s)) = Ok tt) (sink_trust_records r)
  ∧ NoDup (map base_of (List.filter spec_active (sink_trust_records r))).

Lemma active_map_deactivate pattern at_ l :
  List.filter spec_active (map (fun s => if active_for pattern s then deactivate at_ s else s) l)
  = List.filter (fun s => spec_active s && negb (active_for pattern s)) l.
Proof.
  induction l as [|x l IH]; cbn; [done|]. destruct (active_for pattern x) eqn:E; cbn.
  - by rewrite andb_false_r.
  - rewrite andb_true_r. by destruct (spec_active x); rewrite IH.
Qed.

Lemma deactivate_pattern pattern at_ s :
  rule_pattern (spec_rule (if active_for pattern s then deactivate at_ s else s))
  = rule_pattern (spec_rule s).
Proof. by destruct (active_for _ _). Qed.

Lemma map_deactivate_inv pattern at_ r g :
  registry_inv r →
  registry_inv {| registry_generation := g; sink_trust_records :=
    map (fun s => if active_for pattern s then deactivate at_ s else s) (sink_trust_records r) |}.
Proof.
  intros [Hv Hn]. split; cbn [sink_trust_records].
  - rewrite Forall_map. eapply Forall_impl; [exact Hv|]. intros s. cbn. by rewrite deactivate_pattern.
  - rewrite active_map_deactivate. eapply NoDup_map_sublist; [apply filter_and_sublist|done].
Qed.

Lemma find_active_None pattern l s :
  List.find (active_for pattern) l = None → s ∈ l → spec_active s = true →
  rule_pattern (spec_rule s) ≠ pattern.
Proof.
  intros H Hs Ha E. eapply List.find_none in H; [|by apply list_elem_of_In].
  unfold active_for in H. by rewrite Ha, E, String.eqb_refl in H.
Qed.

Lemma mk_rule_pattern r r' :
  mk_SinkTrustRule r = Ok r' → rule_pattern r' = rule_pattern r
  ∧ _validate_sink_pattern (rule_pattern r) = Ok tt.
Proof.
  unfold mk_SinkTrustRule. intros E. res_simpl. split; [done|].
  by match goal with H : _validate_sink_pattern _ = Ok ?u |- _ => destruct u end.
Qed.

Lemma elem_of_listing r s : s ∈ list_sink_trust r ↔ s ∈ sink_trust_records r ∧ spec_active s = true.
Proof.
  unfold list_sink_trust. rewrite merge_sort_Permutation.
  by rewrite list_elem_of_In, filter_In, <-list_elem_of_In.
Qed.

(** Adding the record a successful overlap check admits. *)
Lemma add_record_inv r spec replace records :
  registry_inv r →
  _validate_sink_pattern (rule_pattern (spec_rule spec)) = Ok tt →
  (∀ s, s ∈ list_sink_trust r →
     negb (replace && String.eqb (rule_pattern (spec_rule s)) (rule_pattern (spec_rule spec)))
     && String.eqb (base_of s) (base_of spec) = false) →
  records = match inspect_sink_trust (rule_pattern (spec_rule spec)) r with
            | Some _ => map (fun s => if active_for (rule_pattern (spec_rule spec)) s
                                      then deactivate (spec_created_at spec) s else s)
                          (sink_trust_records r)
            | None => sink_trust_records r end →
  registry_inv {| registry_generation := spec_generation spec; sink_trust_records := records ++ [spec] |}.
Proof.
  intros Hinv Hv Hno Hrec.
  assert (Hrecords : registry_inv {| registry_generation := spec_generation spec;
                                     sink_trust_records := records |}).
  { rewrite Hrec. destruct (inspect_sink_trust _ _); [by apply map_deactivate_inv|done]. }
  destruct Hrecords as [Hv' Hn']. cbn [sink_trust_records] in *.
  assert (Hdiff : ∀ s, s ∈ List.filter spec_active records → base_of s ≠ base_of spec).
  { intros s Hs Eb. assert (Hin : s ∈ list_sink_trust r ∧ rule_pattern (spec_rule s) ≠ rule_pattern (spec_rule spec)).
    { rewrite elem_of_listing. rewrite Hrec in Hs.
      destruct (inspect_sink_trust _ r) eqn:Ei.
      - rewrite active_map_deactivate, list_elem_of_In, filter_In, <-list_elem_of_In in Hs.
        destruct Hs as [Hs [Ha Hna]%andb_true_iff]. split; [done|]. intros E.
        unfold active_for in Hna. by rewrite Ha, E, String.eqb_refl in Hna.
      - rewrite list_elem_of_In, filter_In, <-list_elem_of_In in Hs. destruct Hs as [Hs Ha].
        split; [done|]. by eapply find_active_None. }
    destruct Hin as [Hin Hp]. specialize (Hno s Hin). apply String.eqb_neq in Hp.
    rewrite Hp, andb_false_r in Hno. cbn in Hno. by rewrite Eb, String.eqb_refl in Hno. }
  split; cbn [sink_trust_records].
  - apply Forall_app. split; [done|]. by repeat constructor.
  - rewrite List.filter_app, map_app. apply NoDup_app. split; [done|]. cbn.
    destruct (spec_active spec); cbn; [|split; [set_solver|constructor]].
    split; [|apply NoDup_singleton]. intros b (s & -> & Hs)%list_elem_of_fmap.
    rewrite list_elem_of_singleton. by apply Hdiff.
Qed.

(** ** Histories of the registry *)

Inductive registry_op : Type :=
| RRegister (limit : nat) (authorize evidence : res unit) (new_id now : string)
    (rule : SinkTrustRule) (actor : string) (replace : bool)
| RUnregister (authorize evidence : res unit) (now pattern : string).

Section Histories.
Variable rule_hash : SinkTrustRule → string.

Definition run_registry_op (o : registry_op) (r : SinkRegistry) : SinkRegistry :=
  match o with
  | RRegister limit authorize evidence new_id now rule actor replace =>
      fst (register_sink_trust rule_hash limit authorize evidence new_id now rule actor replace r)
  | RUnregister authorize evidence now pattern =>
      fst (unregister_sink_trust authorize evidence now pattern r)
  end.

Definition run_registry (ops : list registry_op) : SinkRegistry :=
  foldl (fun r o => run_registry_op o r) empty_registry ops.

Lemma store_register_effect spec replace r r' :
  store_register_sink_trust spec replace r = (r', Ok tt) →
  r' = {| registry_generation := spec_generation spec;
          sink_trust_records :=
            match inspect_sink_trust (rule_pattern (spec_rule spec)) r with
            | Some _ => map (fun s => if active_for (rule_pattern (spec_rule spec)) s
                                      then deactivate (spec_created_at spec) s else s)
                          (sink_trust_records r)
            | None => sink_trust_records r end ++ [spec] |}.
Proof.
  unfold store_register_sink_trust. intros E. res_simpl. unfold put_state in E. by res_simpl.
Qed.

Lemma register_inv limit authorize evidence new_id now rule actor replace r r' rec :
  registry_inv r →
  register_sink_trust rule_hash limit authorize evidence new_id now rule actor replace r = (r', Ok rec) →
  registry_inv r'.
Proof.
  intros Hinv E. unfold register_sink_trust in E. res_simpl.
  match goal with H : store_register_sink_trust _ _ _ = (_, Ok ?u) |- _ =>
    destruct u; apply store_register_effect in H as -> end.
  match goal with H : mk_SinkTrustSpec _ _ _ _ _ _ = Ok _ |- _ => unfold mk_SinkTrustSpec in H end.
  res_simpl.
  match goal with H : mk_SinkTrustRule _ = Ok ?a |- registry_inv (Build_SinkRegistry _ _) =>
    apply mk_rule_pattern in H as [Hp Hv] end.
  eapply (add_record_inv _ _ replace); [exact Hinv|cbn [spec_rule]; by rewrite Hp| |done].
  intros s Hs. match goal with H : existsb _ _ = false |- _ => rename H into Hex end.
  cbn [spec_rule]. unfold base_of. cbn [spec_rule]. rewrite Hp.
  apply not_true_iff_false. intros Eb. apply not_true_iff_false in Hex. apply Hex.
  apply existsb_exists. exists s. split; [by apply list_elem_of_In|exact Eb].
Qed.

Lemma unregister_inv authorize evidence now pattern r r' rec :
  registry_inv r →
  unregister_sink_trust authorize evidence now pattern r = (r', Ok rec) → registry_inv r'.
Proof.
  intros Hinv E. unfold unregister_sink_trust in E. res_simpl.
  match type of E with context [match ?x with _ => _ end] => destruct x eqn:Ei end; res_simpl.
  match goal with H : store_unregister_sink_trust _ _ _ _ = (_, Ok ?b) |- _ =>
    unfold store_unregister_sink_trust in H; rename H into Hu end.
  res_simpl. rewrite Ei in Hu. unfold put_state in Hu. res_simpl. by apply map_deactivate_inv.
Qed.

Lemma run_registry_op_inv o r : registry_inv r → registry_inv (run_registry_op o r).
Proof.
  intros Hinv. destruct o; cbn [run_registry_op].
  - destruct (register_sink_trust _ _ _ _ _ _ _ _ _ _) as [r' [rec|e]] eqn:E; cbn [fst].
    + by eapply register_inv.
    + assert (r' = r) as ->; [|done]. unfold register_sink_trust in E.
      unfold mbind, M_bind, lift_res in E.
      destruct (match mk_SinkTrustRule _ with Ok _ => _ | Err _ => _ end); [|by injection E as <-].
      destruct authorize; [|by injection E as <-]. by apply transaction_Err in E.
  - destruct (unregister_sink_trust _ _ _ _ _) as [r' [rec|e]] eqn:E; cbn [fst].
    + by eapply unregister_inv.
    + assert (r' = r) as ->; [|done]. unfold unregister_sink_trust in E.
      unfold mbind, M_bind, lift_res in E.
      destruct authorize; [|by injection E as <-]. by apply transaction_Err in E.
Qed.

Lemma run_registry_inv ops : registry_inv (run_registry ops).
Proof.
  unfold run_registry. assert (H : registry_inv empty_registry) by (split; constructor).
  revert H. generalize empty_registry. induction ops as [|o ops IH]; intros r H; [done|].
  cbn. by apply IH, run_registry_op_inv.
Qed.
End Histories.

(** ** Resolution under the invariant *)

Lemma filterR_total {A} (f : A → res bool) (l : list A) :
  (∀ x, x ∈ l → ∃ b, f x = Ok b) →
  filterR f l = Ok (List.filter (fun x => match f x with Ok b => b | Err _ => false end) l).
Proof.
  induction l as [|x l IH]; intros H; [done|]. cbn.
  destruct (H x ltac:(left)) as [b E]. rewrite E, res_bind_ok, IH, res_bind_ok; [done|].
  intros y Hy. apply H. by right.
Qed.

Lemma sink_matches_total p sink :
  _validate_sink_pattern p = Ok tt → is_Ok (mk_DataSink sink None None None) = true →
  ∃ b, sink_pattern_matches p sink = Ok b.
Proof.
  intros Hp Hs. unfold sink_pattern_matches. rewrite Hp, res_bind_ok.
  destruct (mk_DataSink sink None None None); [|done]. rewrite res_bind_ok. eauto.
Qed.

(** Two active records that match one Sink differ in priority. *)
Lemma matching_priority_inj r sink a b :
  registry_inv r →
  a ∈ list_sink_trust r → b ∈ list_sink_trust r →
  sink_pattern_matches (rule_pattern (spec_rule a)) sink = Ok true →
  sink_pattern_matches (rule_pattern (spec_rule b)) sink = Ok true →
  priority a = priority b → a = b.
Proof.
  intros [_ Hn] [Ha Ha']%elem_of_listing [Hb Hb']%elem_of_listing Ma Mb Hp.
  unfold priority in Hp.
  destruct (pattern_shape _ (matches_valid _ _ _ Ma)) as (_ & _ & Ea).
  destruct (pattern_shape _ (matches_valid _ _ _ Mb)) as (_ & _ & Eb).
  rewrite Ea, Eb in Hp.
  pose proof (startswith_same_length _ _ _ (matches_base _ _ Ma) (matches_base _ _ Mb) Hp) as E.
  assert (Hf : ∀ x, x ∈ sink_trust_records r → spec_active x = true →
            x ∈ List.filter spec_active (sink_trust_records r)).
  { intros x Hx Hx'. rewrite list_elem_of_In, filter_In, <-list_elem_of_In. done. }
  apply (Hf _ Ha) in Ha'. apply (Hf _ Hb) in Hb'.
  apply list_elem_of_lookup in Ha' as [i Hi]. apply list_elem_of_lookup in Hb' as [j Hj].
  assert (i = j) as ->; [|congruence].
  assert (Eba : base_of a = base_of b) by exact E.
  apply (NoDup_lookup (map base_of (List.filter spec_active (sink_trust_records r))) i j (base_of a));
    [done|apply list_lookup_fmap_Some; eauto|apply list_lookup_fmap_Some; eauto].
Qed.

Lemma priority_sorted l : StronglySorted priority_ge (merge_sort priority_ge l).
Proof.
  apply StronglySorted_merge_sort.
  - intros a b c. unfold priority_ge, priority_geb.
    rewrite !orb_true_iff, !andb_true_iff, !Nat.ltb_lt, !Nat.eqb_eq, !Z.leb_le. lia.
  - intros a b. unfold priority_ge, priority_geb.
    rewrite !orb_true_iff, !andb_true_iff, !Nat.ltb_lt, !Nat.eqb_eq, !Z.leb_le. lia.
Qed.

(** A head whose priority nobody else reaches is alone in its tie. *)
Lemma tied_alone t rest :
  (∀ x, x ∈ rest → priority x < priority t) →
  List.filter (fun i => priority i =? priority t) (t :: rest) = [t].
Proof.
  intros H. cbn. rewrite Nat.eqb_refl. f_equal.
  induction rest as [|x l IH]; [done|]. cbn.
  assert ((priority x =? priority t) = false) as ->
    by (apply Nat.eqb_neq; specialize (H x ltac:(left)); lia).
  apply IH. intros y Hy. apply H. by right.
Qed.

Definition matching (r : SinkRegistry) (sink : DataSink) (t : SinkTrustSpec) : Prop :=
  t ∈ sink_trust_records r ∧ spec_active t = true
  ∧ sink_pattern_matches (rule_pattern (spec_rule t)) (registry_identity sink) = Ok true.

(** Resolution sorts exactly the active matching records. *)
Lemma resolve_sorts r sink :
  registry_inv r → is_Ok (mk_DataSink (registry_identity sink) None None None) = true →
  ∃ ms, NoDup ms ∧ StronglySorted priority_ge ms ∧ (∀ t, t ∈ ms ↔ matching r sink t)
    ∧ resolve_sink_trust r sink
      = match ms with
        | [] => Ok None
        | first :: rest =>
            (_ ← raise_if (1 <? length (List.filter (fun i => priority i =? priority first) (first :: rest)))
                   (ValidationError "conflicting equal-priority Sink trust records");
             Ok (Some first))
        end.
Proof.
  intros [Hv Hn] Hsink.
  set (f := fun i => sink_pattern_matches (rule_pattern (spec_rule i)) (registry_identity sink)).
  set (l := List.filter (fun x => match f x with Ok b => b | Err _ => false end) (list_sink_trust r)).
  exists (merge_sort priority_ge l). split_and!.
  - rewrite merge_sort_Permutation. subst l. apply NoDup_list_filter.
    unfold list_sink_trust. rewrite merge_sort_Permutation. by eapply NoDup_fmap_1.
  - apply priority_sorted.
  - intros t. rewrite merge_sort_Permutation. subst l.
    rewrite list_elem_of_In, filter_In, <-list_elem_of_In, elem_of_listing. unfold matching. cbn beta.
    change (sink_pattern_matches (rule_pattern (spec_rule t)) (registry_identity sink)) with (f t).
    destruct (f t) as [[]|]; split; intros; destruct_and?; split_and?; done.
  - unfold resolve_sink_trust. rewrite filterR_total; [done|].
    intros x [Hx _]%elem_of_listing. apply sink_matches_total; [|done].
    rewrite Forall_forall in Hv. by apply Hv.
Qed.

(** After any history of registrations and removals, resolution of a
    well-formed Sink never finds a conflict: it returns the active record with
    the longest matching pattern, and nothing only when no active record
    matches. *)
Theorem resolve_finds_longest rule_hash ops sink :
  is_Ok (mk_DataSink (registry_identity sink) None None None) = true →
  let r := run_registry rule_hash ops in
  match resolve_sink_trust r sink with
  | Ok (Some t) => matching r sink t ∧ ∀ t', matching r sink t' → t' ≠ t → priority t' < priority t
  | Ok None => ∀ t, ¬ matching r sink t
  | Err _ => False
  end.
Proof.
  intros Hsink r. pose proof (run_registry_inv rule_hash ops : registry_inv r) as Hinv.
  destruct (resolve_sorts r sink Hinv Hsink) as (ms & Hnd & Hsorted & Hms & ->).
  destruct ms as [|t rest]; [intros t Ht; apply Hms in Ht; by apply elem_of_nil in Ht|].
  assert (Hin : matching r sink t) by (apply Hms; left).
  assert (Hlt : ∀ t', matching r sink t' → t' ≠ t → priority t' < priority t).
  { intros t' Ht' Hne. pose proof Ht' as Hr. apply Hms, elem_of_cons in Hr as [?|Hr]; [done|].
    inversion Hsorted as [|? ? _ Hall]; subst. rewrite Forall_forall in Hall.
    specialize (Hall t' Hr). unfold priority_ge, priority_geb in Hall.
    rewrite orb_true_iff, andb_true_iff, Nat.ltb_lt, Nat.eqb_eq in Hall.
    destruct Hall as [|[Heq _]]; [done|]. exfalso. apply Hne.
    destruct Hin as (? & ? & ?), Ht' as (? & ? & ?).
    by eapply (matching_priority_inj r (registry_identity sink)); rewrite ?elem_of_listing. }
  rewrite tied_alone; [by split|].
  intros x Hx. apply Hlt; [apply Hms; by right|]. intros ->. by apply NoDup_cons in Hnd as [? _].
Qed.

(** ** Concrete instances *)

Definition demo_rule (pattern : string) (level : SinkTrustLevel) (m : DataSensitivity) : SinkTrustRule :=
  {| rule_pattern := pattern; rule_trust_level := level; rule_max_sensitivity := m;
     rule_tenants := ["a"]; rule_principals := []; rule_identity_sha256 := None |}.

Definition demo_registry_ops : list registry_op :=
  [RRegister 10 (Ok tt) (Ok tt) "t1" "now" (demo_rule "http:*" SinkTrustLevel.CONDITIONAL DataSensitivity.SECRET) "host" false;
   RRegister 10 (Ok tt) (Ok tt) "t2" "now" (demo_rule "http:api/*" SinkTrustLevel.TRUSTED DataSensitivity.SECRET) "host" false;
   RRegister 10 (Ok tt) (Ok tt) "t3" "now" (demo_rule "http:api/" SinkTrustLevel.TRUSTED DataSensitivity.SECRET) "host" false].

Definition demo_sink (identity : string) : DataSink :=
  {| sink_identity := identity; sink_identity_sha256 := None; trust_identity := None;
     trust_identity_sha256 := None |}.

Definition demo_registry : SinkRegistry := run_registry (fun _ => "") demo_registry_ops.

Lemma resolve_finds_longest_witness :
  option_map trust_id (match resolve_sink_trust demo_registry (demo_sink "http:api/x") with
                       | Ok o => o | Err _ => None end) = Some "t2"
  ∧ match resolve_sink_trust demo_registry (demo_sink "http:api/x") with
    | Ok (Some t) => matching demo_registry (demo_sink "http:api/x") t
        ∧ ∀ t', matching demo_registry (demo_sink "http:api/x") t' → t' ≠ t → priority t' < priority t
    | Ok None => ∀ t, ¬ matching demo_registry (demo_sink "http:api/x") t
    | Err _ => False
    end.
Proof.
  split; [by vm_compute|].
  exact (resolve_finds_longest (fun _ => "") demo_registry_ops (demo_sink "http:api/x") eq_refl).
Defined.

Definition demo_view : SourceView :=
  {| view_binding := fun _ => None; view_object := fun _ => Some (1%Z, ""); view_state := fun _ => None |}.

Definition verdict (c : DataFlowContext) : DataFlowOutcome :=
  classify_egress_snapshot DataSensitivity.NORMAL demo_registry demo_view (demo_sink "http:api/x") c
    false DataIntegrity.UNKNOWN.

(** Two contexts that leave alone and are refused together. *)
Example mixed_aggregate_refused :
  let a := demo_context "a" DataSensitivity.SECRET "o1" in
  let b := demo_context "b" DataSensitivity.PUBLIC "o2" in
  verdict a = DataFlowOutcome.ALLOW
  ∧ match context_aggregate [a; b] with
    | Ok c => verdict c = DataFlowOutcome.DENY | Err _ => False end.
Proof. by vm_compute. Qed.

Lemma egress_no_laundering_witness :
  ∃ combined, context_aggregate [demo_context "a" DataSensitivity.SECRET "o1";
                                 demo_context "a" DataSensitivity.PUBLIC "o2"] = Ok combined
    ∧ outcome_le (verdict (demo_context "a" DataSensitivity.SECRET "o1")) (verdict combined).
Proof.
  destruct (context_aggregate [demo_context "a" DataSensitivity.SECRET "o1";
              demo_context "a" DataSensitivity.PUBLIC "o2"]) as [c|e] eqn:E.
  - exists c. split; [done|].
    apply (egress_no_laundering _ _ _ _ [demo_context "a" DataSensitivity.SECRET "o1";
             demo_context "a" DataSensitivity.PUBLIC "o2"]); [|exact E|left].
    repeat constructor; by vm_compute.
  - apply (f_equal is_Ok) in E. by vm_compute in E.
Defined.

(** A trust identity with an empty namespace is accepted by the constructor
    and makes resolution raise as soon as the registry has an active record;
    the classification then denies. *)
Lemma malformed_trust_identity_accepted :
  let sink := mk_DataSink "http:x" None (Some ":x") None in
  match sink with
  | Ok s => is_Ok (resolve_sink_trust demo_registry s) = false
            ∧ classify_egress_snapshot DataSensitivity.NORMAL demo_registry demo_view s
                {| ctx_labels := default_labels; ctx_source_refs := []; ctx_materialization_id := None |}
                false DataIntegrity.UNKNOWN = DataFlowOutcome.DENY
  | Err _ => False
  end.
Proof. by vm_compute. Qed.
