(* ===== verification/CapabilityModel.v ===== *)
(** * Capability data model

    [models/capability.py]: the enums, rules, capabilities and decisions.  A
    dict is its list of items, in order; the keys of [constraints] are
    distinct strings. *)

From S2P Require Import Prelude PyStr PyVal PyEnum.

Module CapabilityEffect.
Inductive CapabilityEffect : Set := ALLOW | DENY | ASK.
End CapabilityEffect.
Abbreviation CapabilityEffect := CapabilityEffect.CapabilityEffect.

Module CapabilityStatus.
Inductive CapabilityStatus : Set := ACTIVE | REVOKED | DISABLED | EXEC_REVOKED.
End CapabilityStatus.
Abbreviation CapabilityStatus := CapabilityStatus.CapabilityStatus.

Module AuthorityRisk.
Inductive AuthorityRisk : Set := HARMLESS | LOW | MEDIUM | HIGH | DESTRUCTIVE.
End AuthorityRisk.
Abbreviation AuthorityRisk := AuthorityRisk.AuthorityRisk.

#[export] Instance effect_eq_dec : EqDecision CapabilityEffect.
Proof. solve_decision. Defined.
#[export] Instance cap_status_eq_dec : EqDecision CapabilityStatus.
Proof. solve_decision. Defined.
#[export] Instance risk_eq_dec : EqDecision AuthorityRisk.
Proof. solve_decision. Defined.

#[export] Instance effect_enum : StrEnum CapabilityEffect := {
  enum_members := [CapabilityEffect.ALLOW; CapabilityEffect.DENY; CapabilityEffect.ASK];
  enum_value e := match e with
    | CapabilityEffect.ALLOW => "allow" | CapabilityEffect.DENY => "deny"
    | CapabilityEffect.ASK => "ask" end;
}.

#[export] Instance cap_status_enum : StrEnum CapabilityStatus := {
  enum_members := [CapabilityStatus.ACTIVE; CapabilityStatus.REVOKED; CapabilityStatus.DISABLED;
                   CapabilityStatus.EXEC_REVOKED];
  enum_value e := match e with
    | CapabilityStatus.ACTIVE => "active" | CapabilityStatus.REVOKED => "revoked"
    | CapabilityStatus.DISABLED => "disabled" | CapabilityStatus.EXEC_REVOKED => "exec_revoked" end;
}.

#[export] Instance risk_enum : StrEnum AuthorityRisk := {
  enum_members := [AuthorityRisk.HARMLESS; AuthorityRisk.LOW; AuthorityRisk.MEDIUM;
                   AuthorityRisk.HIGH; AuthorityRisk.DESTRUCTIVE];
  enum_value e := match e with
    | AuthorityRisk.HARMLESS => "harmless" | AuthorityRisk.LOW => "low"
    | AuthorityRisk.MEDIUM => "medium" | AuthorityRisk.HIGH => "high"
    | AuthorityRisk.DESTRUCTIVE => "destructive" end;
}.

#[export] Instance effect_laws : StrEnumLaws CapabilityEffect.
Proof. solve_enum. Qed.
#[export] Instance cap_status_laws : StrEnumLaws CapabilityStatus.
Proof. solve_enum. Qed.
#[export] Instance risk_laws : StrEnumLaws AuthorityRisk.
Proof. solve_enum. Qed.

(** [conditions] is deep-frozen by the constructor, which keeps its items and
    the type tests made on them. *)
Record AuthorityRule : Type := {
  rule_id : string;
  rule_operation : string;
  rule_effect : CapabilityEffect;
  rule_risk : AuthorityRisk;
  rule_conditions : list (pyval * pyval);
  rule_description : string;
}.

Record Capability : Type := {
  cap_id : string;
  cap_subject : string;
  cap_resource : string;
  cap_rights : list string;
  cap_constraints : list (string * pyval);
  cap_issued_by : string;
  cap_issued_at : string;
  cap_expires_at : option string;
  cap_delegable : bool;
  cap_revocable : bool;
  cap_effect : CapabilityEffect;
  cap_issuer_cap_id : option string;
  cap_parent_cap_id : option string;
  cap_delegation_depth : Z;
  cap_max_delegation_depth : option Z;
  cap_uses_remaining : option Z;
  cap_status : CapabilityStatus;
  cap_metadata : list (string * pyval);
}.

(** The result of evaluating one constraint: the [ok], [reason] and [effect]
    items of the mapping, and the others. *)
Record ConstraintResult : Type := {
  cr_ok : bool;
  cr_reason : option string;
  cr_effect : option string;
  cr_detail : list (string * pyval);
}.

Record CapabilityDecision : Type := {
  dec_subject : string;
  dec_resource : string;
  dec_right : string;
  dec_allowed : bool;
  dec_effect : option CapabilityEffect;
  dec_reason : string;
  dec_matched_capability_ids : list string;
  dec_selected_capability_id : option string;
  dec_consume_capability_id : option string;
  dec_issuer_chain : list string;
  dec_constraint_results : list (string * ConstraintResult);
  dec_context : list (pyval * pyval);
}.

(** [CapabilityDecision.policy]. *)
Definition decision_policy (d : CapabilityDecision) : string :=
  match dec_effect d with
  | Some CapabilityEffect.ALLOW =>
      match dec_consume_capability_id d with
      | Some i => if String.eqb i "" then "always_allow" else "allow_once"
      | None => "always_allow"
      end
  | Some CapabilityEffect.DENY => "always_deny"
  | Some CapabilityEffect.ASK => "ask_each_time"
  | None => "missing"
  end.
