(* ===== verification/AuthorityRules.v ===== *)
(** * Authority rules

    The rule codec of [capability/rules.py] and the evaluation of rules
    against an operation context in [capability/evaluator.py].

    Parameters: [str()] of floats and containers, [float()] of a string, the
    [regex] engine (whether a pattern compiles, and per token the outcome of a
    bounded [fullmatch]: a verdict, or nothing on a timeout, an engine error or
    an exhausted deadline). *)

From S2P Require Import Prelude PyStr PyVal PyEnum CapabilityModel.
From stdpp Require Import pretty sorting.
From Stdlib Require Import Ascii.

(** ** Strings of values *)

Section PyString.
(** [str] of a float or a container. *)
Variable str_other : pyval → string.

Definition py_str (v : pyval) : string :=
  match v with
  | PStr s => s
  | PNone => "None"
  | PBool true => "True"
  | PBool false => "False"
  | PInt z => pretty z
  | _ => str_other v
  end.

(** [a or b]. *)
Definition py_or (a b : pyval) : pyval := if py_falsy a then b else a.

(** ** Codec *)

Definition AUTHORITY_RULES_KEY : string := "authority_rules".

Definition _AUTHORITY_RULE_FIELDS : list string :=
  ["rule_id"; "operation"; "effect"; "risk"; "conditions"; "description"].

Definition rule_string (value : pyval) (field : string) : res string :=
  match value with
  | PStr s => if String.eqb (strip s) ""
              then Err (ValidationError ("authority rule " +:+ field +:+ " must be a non-empty string"))
              else Ok (strip s)
  | _ => Err (ValidationError ("authority rule " +:+ field +:+ " must be a non-empty string"))
  end.

(** [except ValueError: raise ValidationError]. *)
Definition value_error_to_validation {A} (r : res A) : res A :=
  match r with Err (ValueError m) => Err (ValidationError ("invalid authority rule: " +:+ m)) | _ => r end.

Definition coerce (value : pyval) : res AuthorityRule :=
  match value with
  | PDict d =>
      _ ← raise_if (has_unknown_key d _AUTHORITY_RULE_FIELDS)
            (ValidationError "authority rule has unknown fields");
      value_error_to_validation (
        conditions ← match dict_get_none d "conditions" with
                     | PNone => Ok []
                     | PDict c => Ok c
                     | _ => Err (ValidationError "authority rule conditions must be a mapping")
                     end;
        id ← rule_string (dict_get_none d "rule_id") "rule_id";
        operation ← rule_string (dict_get_none d "operation") "operation";
        effect ← enum_call "effect" (PStr (py_str (dict_get_default d "effect"
                   (PStr (enum_value CapabilityEffect.ASK)))));
        risk ← enum_call "risk" (PStr (py_str (dict_get_default d "risk"
                   (PStr (enum_value AuthorityRisk.MEDIUM)))));
        Ok {| rule_id := id; rule_operation := operation; rule_effect := effect; rule_risk := risk;
              rule_conditions := conditions;
              rule_description := py_str (py_or (dict_get_none d "description") (PStr "")) |})
  | _ => Err (ValidationError "authority rule must be a mapping")
  end.

Definition coerce_many (value : pyval) : res (list AuthorityRule) :=
  match value with
  | PNone => Ok []
  | PList l => mapR coerce l
  | _ => Err (ValidationError "authority rules must be a list")
  end.

Definition to_json (r : AuthorityRule) : pyval :=
  PDict [(PStr "rule_id", PStr (rule_id r)); (PStr "operation", PStr (rule_operation r));
         (PStr "effect", PStr (enum_value (rule_effect r)));
         (PStr "risk", PStr (enum_value (rule_risk r)));
         (PStr "conditions", PDict (rule_conditions r));
         (PStr "description", PStr (rule_description r))].

(** A rule the codec produced. *)
Definition rule_ok (r : AuthorityRule) : bool := wf_str (rule_id r) && wf_str (rule_operation r).

Lemma rule_string_wf s field : wf_str s = true → rule_string (PStr s) field = Ok s.
Proof.
  intros [Hs Hne]%wf_str_spec. unfold rule_string. rewrite Hs.
  by destruct (String.eqb_spec s "").
Qed.

Lemma coerce_to_json r : rule_ok r = true → coerce (to_json r) = Ok r.
Proof.
  intros [Hi Ho]%andb_true_iff. unfold coerce, to_json. cbv iota beta.
  match goal with |- context [raise_if ?b _] => change b with false end.
  cbn [raise_if]. rewrite res_bind_ok.
  cbn [dict_get_none dict_get_default dict_get String.eqb Ascii.eqb Bool.eqb].
  rewrite res_bind_ok, !rule_string_wf, !res_bind_ok by done. cbn [py_str].
  rewrite !enum_call_value, !res_bind_ok. cbn [value_error_to_validation].
  destruct r as [i o e k c ds]. cbn. do 2 f_equal. by destruct ds.
Qed.

Lemma rule_string_Ok v field s : rule_string v field = Ok s → wf_str s = true.
Proof.
  unfold rule_string. destruct v as [| | | |t| | | |]; try done.
  destruct (String.eqb_spec (strip t) ""); [done|]. intros [= <-]. by apply strip_wf.
Qed.

Lemma value_error_Ok {A} (y : res A) z : value_error_to_validation y = Ok z ↔ y = Ok z.
Proof. by destruct y as [|[]]. Qed.

Lemma coerce_ok v r : coerce v = Ok r → rule_ok r = true.
Proof.
  unfold coerce. intros E. destruct v; try done. res_simpl. apply (proj1 (value_error_Ok _ _)) in E. res_simpl.
  unfold rule_ok. cbn. apply andb_true_iff. split; by eapply rule_string_Ok.
Qed.

(** Rules survive storage: the codec decodes the mapping it writes for any
    rules it produced to the same rules, and whatever it decodes from a
    constraint are such rules. *)
Theorem authority_rule_roundtrip :
  (∀ rules, Forall (fun r => rule_ok r = true) rules →
     coerce_many (PList (map to_json rules)) = Ok rules)
  ∧ (∀ v rules, coerce_many v = Ok rules → Forall (fun r => rule_ok r = true) rules).
Proof.
  split.
  - intros rules H. cbn [coerce_many]. apply mapR_Ok. rewrite Forall2_fmap_l.
    apply Forall_Forall2_diag. eapply Forall_impl; [exact H|]. apply coerce_to_json.
  - intros v rules E. destruct v; try done; cbn in E; [by injection E as <-|].
    apply mapR_Ok in E. induction E; constructor; eauto using coerce_ok.
Qed.
End PyString.

Lemma authority_rule_roundtrip_witness :
  let rules := [{| rule_id := "r1"; rule_operation := "shell.run";
                   rule_effect := CapabilityEffect.DENY; rule_risk := AuthorityRisk.HIGH;
                   rule_conditions := [(PStr "argv", PList [PStr "rm"])]; rule_description := "" |}] in
  coerce_many (fun _ => "") (PList (map to_json rules)) = Ok rules.
Proof. intros rules. apply (proj1 (authority_rule_roundtrip (fun _ => ""))). by repeat constructor. Defined.

(** ** Conditions *)

Definition _STRING_RULE_CONDITIONS : list string :=
  ["operation"; "authority_operation"; "argv_sha256"; "cwd"; "path"; "resource"; "right";
   "endpoint_id"; "method_id"; "rpc_method"; "params_sha256"; "server_id"; "transport"; "tool_id";
   "mcp_name"; "arguments_sha256"; "registry_spec_sha256"; "content_sha256"; "network";
   "filesystem_intent"; "image_id"; "git_remote"; "git_remote_ref"; "git_url_fingerprint";
   "git_expected_state_token"; "git_old_oid"].

Definition _INTEGER_RULE_CONDITIONS : list string := ["registry_generation"].

Definition _BOOLEAN_RULE_CONDITIONS : list string :=
  ["continuous_session"; "recursive"; "missing_ok"; "overwrite"; "parents"; "exist_ok"].

(** The tests over this tuple commute, so it is not sorted here. *)
Definition _DIRECT_RULE_CONDITIONS : list string :=
  List.filter (fun k => negb (bool_decide (k ∈ ["operation"; "authority_operation"]))) _STRING_RULE_CONDITIONS
  ++ _BOOLEAN_RULE_CONDITIONS ++ _INTEGER_RULE_CONDITIONS.

Definition _ALLOWED_RULE_CONDITIONS : list string :=
  _STRING_RULE_CONDITIONS ++ _BOOLEAN_RULE_CONDITIONS ++ _INTEGER_RULE_CONDITIONS
  ++ ["argv"; "match"; "regex_token"; "timeout_s"; "timeout_max_s"].

(** A value that may be tested for membership in a set.  The constructor of a
    rule has turned sets into frozensets. *)
Fixpoint hashable (v : pyval) : bool :=
  match v with
  | PList _ | PDict _ => false
  | PTuple l => forallb hashable l
  | _ => true
  end.

Definition all_str (v : pyval) : bool :=
  match v with PList l => forallb is_str l | _ => false end.

(** [len(value.encode("utf-8"))]: two bytes above U+007F. *)
Fixpoint utf8_length (s : string) : nat :=
  match s with
  | EmptyString => 0
  | String c s' => (if (N_of_ascii c <? 128)%N then 1 else 2) + utf8_length s'
  end.

(** The configured bounds. *)
Record RegexConfig : Type := { regex_pattern_max_bytes : nat; regex_token_max_bytes : nat }.

(** The [regex] package: compilation, and the bounded match of the [i]th token
    of a call; [None] is a timeout, an engine error or an exhausted deadline. *)
Record RegexEngine : Type := {
  regex_compiles : string → bool;
  regex_fullmatch : nat → string → string → option bool;
}.

Section Rules.
Variable str_other : pyval → string.
(** [float(s)] of a string; [None] is [ValueError]. *)
Variable float_of_str : string → option spec_float.
Variable config : RegexConfig.
Variable engine : RegexEngine.

Abbreviation py_str := (py_str str_other).

Definition _finite_nonnegative_timeout (v : pyval) : res (option spec_float) :=
  match v with
  | PInt _ | PFloat _ | PStr _ =>
      selected ← match v with
                 | PInt z => f ← to_float (NInt z); Ok (Some f)
                 | PFloat f => Ok (Some f)
                 | PStr s => Ok (float_of_str s)
                 | _ => Ok None
                 end;
      Ok (match selected with
          | Some f => if sf_finite f && num_leb (NInt 0) (NFloat f) then Some f else None
          | None => None
          end)
  | _ => Ok None
  end.

Definition _valid_regex (v : pyval) : bool :=
  match v with
  | PStr s => (utf8_length s <=? regex_pattern_max_bytes config) && regex_compiles engine s
  | _ => false
  end.

Definition _unknown_authority_rule_conditions (r : AuthorityRule) : list string :=
  merge_sort str_le (omap (fun kv => match fst kv with
      | PStr k => if bool_decide (k ∈ _ALLOWED_RULE_CONDITIONS) then None else Some k
      | v => Some (py_str v)
      end) (rule_conditions r)).

Definition _malformed_typed_authority_conditions (c : list (pyval * pyval)) : list string :=
  let bad p := fun key => match dict_get c key with Some v => negb (p v) | None => false end in
  List.filter (bad is_str) _STRING_RULE_CONDITIONS
  ++ List.filter (bad is_bool) _BOOLEAN_RULE_CONDITIONS
  ++ List.filter (bad (fun v => match v with PInt z => negb (z <? 0)%Z | _ => false end))
       _INTEGER_RULE_CONDITIONS.

Definition _malformed_authority_rule_conditions (r : AuthorityRule) : res (list string) :=
  let c := rule_conditions r in
  let malformed := _malformed_typed_authority_conditions c in
  let argv := match dict_get c "argv" with Some v => negb (all_str v) | None => false end in
  matching ← match dict_get c "match" with
             | None => Ok false
             | Some v =>
                 if negb (dict_has c "argv") then Ok true else
                 if negb (hashable v) then Err (TypeError "unhashable type")
                 else Ok (negb (existsb (py_eq v) [PStr "exact"; PStr "prefix"]))
             end;
  let regex := match dict_get c "regex_token" with Some v => negb (_valid_regex v) | None => false end in
  let timeout key :=
    match dict_get c key with
    | Some v => t ← _finite_nonnegative_timeout v; Ok (bool_decide (t = None))
    | None => Ok false
    end in
  t1 ← timeout "timeout_s";
  t2 ← timeout "timeout_max_s";
  let add (b : bool) (name : string) := if b then [name] else [] in
  Ok (merge_sort str_le (remove_dups (malformed ++ add argv "argv" ++ add matching "match"
        ++ add regex "regex_token" ++ add t1 "timeout_s" ++ add t2 "timeout_max_s"))).

Definition _argv_condition_matches (c context : list (pyval * pyval)) : bool :=
  match dict_get_none c "argv", dict_get_none context "argv" with
  | PList expected, PList actual =>
      if negb (forallb is_str expected) || negb (forallb is_str actual) then false else
      let kind := py_str (dict_get_default c "match" (PStr "exact")) in
      if String.eqb kind "exact" then py_eq (PList actual) (PList expected)
      else String.eqb kind "prefix" && (length expected <=? length actual)
           && py_eq (PList (take (length expected) actual)) (PList expected)
  | _, _ => false
  end.

Definition _timeout_conditions_match (c context : list (pyval * pyval)) : res bool :=
  let compare key test :=
    match dict_get c key with
    | None => Ok true
    | Some bound =>
        actual ← _finite_nonnegative_timeout (dict_get_none context "timeout_s");
        expected ← _finite_nonnegative_timeout bound;
        Ok (match actual, expected with
            | Some a, Some e => test a e
            | _, _ => false end)
    end in
  exact ← compare "timeout_s" (fun a e => num_eqb (NFloat a) (NFloat e));
  if negb exact then Ok false else
  compare "timeout_max_s" (fun a e => negb (num_gtb (NFloat a) (NFloat e))).

(** The loop over the tokens, from the [i]th on. *)
Fixpoint match_tokens (pattern : string) (i : nat) (tokens : list string) : option bool :=
  match tokens with
  | [] => Some false
  | token :: rest =>
      match regex_fullmatch engine i pattern token with
      | None => None
      | Some true => Some true
      | Some false => match_tokens pattern (S i) rest
      end
  end.

(** The tokens, when all are strings within the bound. *)
Fixpoint select_tokens (argv : list pyval) : option (list string) :=
  match argv with
  | [] => Some []
  | PStr s :: rest =>
      if regex_token_max_bytes config <? utf8_length s then None
      else match select_tokens rest with Some l => Some (s :: l) | None => None end
  | _ => None
  end.

Definition _regex_matches_any_token (pattern : string) (argv : list pyval) : option bool :=
  match select_tokens argv with
  | Some tokens => match_tokens pattern 0 tokens
  | None => Some false
  end.

(** [str(context.get(key)) != str(conditions[key])]. *)
Definition text_differs (c context : list (pyval * pyval)) (key : string) : bool :=
  match dict_get c key with
  | Some v => negb (String.eqb (py_str (dict_get_none context key)) (py_str v))
  | None => false
  end.

(** The regex condition: unmet, met, or without a verdict. *)
Definition regex_condition (c context : list (pyval * pyval)) : option bool :=
  match dict_get_none c "regex_token" with
  | PStr pattern =>
      if negb (_valid_regex (PStr pattern)) then Some false else
      match dict_get_none context "argv" with
      | PList argv => _regex_matches_any_token pattern argv
      | _ => Some false
      end
  | _ => Some true
  end.

Definition is_restrictive (e : CapabilityEffect) : bool :=
  match e with CapabilityEffect.DENY | CapabilityEffect.ASK => true | CapabilityEffect.ALLOW => false end.

Definition _authority_rule_matches (r : AuthorityRule) (context : list (pyval * pyval)) : res bool :=
  let c := rule_conditions r in
  if text_differs c context "operation" then Ok false else
  if text_differs c context "authority_operation" then Ok false else
  if dict_has c "argv" && negb (_argv_condition_matches c context) then Ok false else
  match regex_condition c context with
  | Some false => Ok false
  | verdict =>
      if existsb (fun key => match dict_get c key with
                             | Some v => negb (py_eq (dict_get_none context key) v)
                             | None => false end) _DIRECT_RULE_CONDITIONS
      then Ok false else
      timeouts ← _timeout_conditions_match c context;
      Ok (if negb timeouts then false else
          match verdict with None => is_restrictive (rule_effect r) | _ => true end)
  end.

(** ** Evaluation of the rules of one constraint *)

Definition rule_condition_error (r : AuthorityRule) (operation : string)
    : res (option ConstraintResult) :=
  let unknown := _unknown_authority_rule_conditions r in
  malformed ← _malformed_authority_rule_conditions r;
  match unknown, malformed with
  | [], [] => Ok None
  | _, _ =>
      let detail_key := match unknown with [] => "malformed_conditions" | _ => "unknown_conditions" end in
      let detail := match unknown with [] => malformed | _ => unknown end in
      Ok (Some {| cr_ok := false; cr_reason := Some "malformed authority rule condition";
                  cr_effect := Some (enum_value CapabilityEffect.DENY);
                  cr_detail := [("operation", PStr operation); ("rule_id", PStr (rule_id r));
                                (detail_key, PList (map PStr detail))] |})
  end.

(** The loop over the rules: the matching ones, or the first condition error. *)
Fixpoint scan_rules (rules : list AuthorityRule) (operation : string) (context : list (pyval * pyval))
    : res (ConstraintResult + list AuthorityRule) :=
  match rules with
  | [] => Ok (inr [])
  | r :: rest =>
      if negb (String.eqb (rule_operation r) operation) then scan_rules rest operation context else
      problem ← rule_condition_error r operation;
      match problem with
      | Some e => Ok (inl e)
      | None =>
          b ← _authority_rule_matches r context;
          tail ← scan_rules rest operation context;
          Ok (match tail with
              | inl e => inl e
              | inr matched => inr (if (b : bool) then r :: matched else matched)
              end)
      end
  end.

(** The first rule with an effect. *)
Definition first_with (e : CapabilityEffect) (rules : list AuthorityRule) : option AuthorityRule :=
  List.find (fun r => bool_decide (rule_effect r = e)) rules.

(** The selected rule: the first DENY rule, else the first ASK rule, else the
    first. *)
Definition selected_rule (first : AuthorityRule) (matched : list AuthorityRule) : AuthorityRule :=
  default first (match first_with CapabilityEffect.DENY matched with
                 | Some r => Some r
                 | None => first_with CapabilityEffect.ASK matched end).

Definition rule_result (selected : AuthorityRule) (operation : string) : ConstraintResult :=
  let denied := bool_decide (rule_effect selected = CapabilityEffect.DENY) in
  {| cr_ok := negb denied;
     cr_reason := if denied then Some "authority rule denied operation" else None;
     cr_effect := Some (enum_value (rule_effect selected));
     cr_detail := [("rule_id", PStr (rule_id selected));
                   ("risk", PStr (enum_value (rule_risk selected)));
                   ("operation", PStr operation)] |}.

Definition NO_RULE_MATCHED : string := "no authority rule matched operation context".

Definition _evaluate_authority_rules (rules : list AuthorityRule) (context : list (pyval * pyval))
    : res ConstraintResult :=
  let operation := py_str (py_or (py_or (dict_get_none context "authority_operation")
                                        (dict_get_none context "operation")) (PStr "")) in
  if String.eqb operation "" then
    Ok {| cr_ok := false; cr_reason := Some "authority rule requires operation context";
          cr_effect := None; cr_detail := [] |}
  else
  scanned ← scan_rules rules operation context;
  match scanned with
  | inl e => Ok e
  | inr [] =>
      Ok {| cr_ok := false; cr_reason := Some NO_RULE_MATCHED; cr_effect := None;
            cr_detail := [("operation", PStr operation);
                          ("rule_ids", PList (map (fun r => PStr (rule_id r)) rules))] |}
  | inr ((first :: _) as matched) => Ok (rule_result (selected_rule first matched) operation)
  end.

Definition _evaluate_rule_constraint (value : pyval) (context : list (pyval * pyval))
    : res ConstraintResult :=
  match coerce_many str_other value with
  | Ok rules => _evaluate_authority_rules rules context
  | Err (ValidationError m) =>
      Ok {| cr_ok := false; cr_reason := Some m; cr_effect := None; cr_detail := [] |}
  | Err e => Err e
  end.
End Rules.
