(* ===== verification/DataRelease.v ===== *)
(** * Data release bindings

    [DataReleaseBinding] of [models/data_flow.py]: the exact facts a one-shot
    release is bound to, as they travel in a capability constraint. *)

From S2P Require Import Prelude PyStr PyVal PyEnum DataLabels SinkTrust.

Inductive StateVersion : Set := VersionNone | VersionStr (s : string) | VersionInt (z : Z).

Record DataReleaseBinding : Set := {
  rb_sink : string;
  rb_sink_identity_sha256 : option string;
  rb_trust_id : string;
  rb_trust_hash : string;
  rb_registry_generation : Z;
  rb_manifest_hash : string;
  rb_labels_hash : string;
  rb_source_refs_hash : string;
  rb_payload_hash : string;
  rb_operation : string;
  rb_target_state_version : StateVersion;
}.

#[export] Instance version_eq_dec : EqDecision StateVersion.
Proof. solve_decision. Defined.
#[export] Instance binding_eq_dec : EqDecision DataReleaseBinding.
Proof. solve_decision. Defined.

Definition py_of_version (v : StateVersion) : pyval :=
  match v with VersionNone => PNone | VersionStr s => PStr s | VersionInt z => PInt z end.

Definition BINDING_FIELDS : list string :=
  ["schema_version"; "sink"; "sink_identity_sha256"; "trust_id"; "trust_hash";
   "registry_generation"; "manifest_hash"; "labels_hash"; "source_refs_hash"; "payload_hash";
   "operation"; "target_state_version"].

(** [DataSink(sink, sink_identity_sha256)] on untyped values. *)
Definition check_sink (sink identity_sha256 : pyval) : res (string * option string) :=
  s ← _require_text "sink identity" sink;
  _ ← mk_DataSink s None None None;
  h ← _optional_sha256 "sink identity_sha256" identity_sha256;
  Ok (s, h).

Definition binding_from_dict (value : pyval) : res DataReleaseBinding :=
  match value with
  | PDict d =>
      _ ← raise_if (has_unknown_key d BINDING_FIELDS)
            (ValueError "data release binding contains unknown fields");
      _ ← raise_if (match dict_get_default d "schema_version" (PInt 1) with
                    | PInt 1 => false | _ => true end)
            (ValueError "unsupported data release binding schema_version");
      sink ← check_sink (dict_get_none d "sink") (dict_get_none d "sink_identity_sha256");
      trust ← _require_text "trust_id" (dict_get_none d "trust_id");
      operation ← _require_text "operation" (dict_get_none d "operation");
      trust_hash ← _require_sha256 "trust_hash" (dict_get_none d "trust_hash");
      manifest_hash ← _require_sha256 "manifest_hash" (dict_get_none d "manifest_hash");
      labels_hash ← _require_sha256 "labels_hash" (dict_get_none d "labels_hash");
      source_refs_hash ← _require_sha256 "source_refs_hash" (dict_get_none d "source_refs_hash");
      payload_hash ← _require_sha256 "payload_hash" (dict_get_none d "payload_hash");
      generation ← match dict_get_none d "registry_generation" with
                   | PInt z => if (z <? 0)%Z
                       then Err (ValueError "registry_generation must be a non-negative integer")
                       else Ok z
                   | _ => Err (ValueError "registry_generation must be a non-negative integer")
                   end;
      version ← match dict_get_none d "target_state_version" with
                | PNone => Ok VersionNone
                | PStr s => Ok (VersionStr s)
                | PInt z => Ok (VersionInt z)
                | _ => Err (ValueError "target_state_version must be a string, integer, or null")
                end;
      Ok {| rb_sink := fst sink; rb_sink_identity_sha256 := snd sink; rb_trust_id := trust;
            rb_trust_hash := trust_hash; rb_registry_generation := generation;
            rb_manifest_hash := manifest_hash; rb_labels_hash := labels_hash;
            rb_source_refs_hash := source_refs_hash; rb_payload_hash := payload_hash;
            rb_operation := operation; rb_target_state_version := version |}
  | _ => Err (ValueError "data release binding must be an object")
  end.

Definition binding_to_dict (b : DataReleaseBinding) : pyval :=
  PDict [(PStr "schema_version", PInt 1); (PStr "sink", PStr (rb_sink b));
         (PStr "sink_identity_sha256", py_opt (rb_sink_identity_sha256 b));
         (PStr "trust_id", PStr (rb_trust_id b)); (PStr "trust_hash", PStr (rb_trust_hash b));
         (PStr "registry_generation", PInt (rb_registry_generation b));
         (PStr "manifest_hash", PStr (rb_manifest_hash b));
         (PStr "labels_hash", PStr (rb_labels_hash b));
         (PStr "source_refs_hash", PStr (rb_source_refs_hash b));
         (PStr "payload_hash", PStr (rb_payload_hash b));
         (PStr "operation", PStr (rb_operation b));
         (PStr "target_state_version", py_of_version (rb_target_state_version b))].
