(* ===== verification/CapabilityEvaluator.v ===== *)
(** * The capability evaluator

    [capability/evaluator.py] with the approval bindings of
    [capability/effect_binding.py]: constraint evaluation, the verdict of one
    matching capability, the precedence between verdicts, expiry and the order
    of matches.

    [SemanticApprovalBindingV2.from_dict(value).to_dict()] belongs to the
    semantic policy models, outside this development; with the digest of an
    effect payload ([dumps], [sha256]) it is a parameter. *)

From S2P Require Import Prelude PyStr PyVal PyEnum CapabilityModel AuthorityRules DataRelease.
From stdpp Require Import sorting.
From Stdlib Require Import Ascii.

(** ** Approval bindings *)

Definition APPROVAL_BINDING_KEY : string := "approval_binding".
Definition DATA_RELEASE_BINDING_KEY : string := "data_release_binding".

Definition KNOWN_CONSTRAINT_KEYS : list string :=
  ["shell_policy_level"; "inherited_from"; AUTHORITY_RULES_KEY; APPROVAL_BINDING_KEY;
   DATA_RELEASE_BINDING_KEY; "git_remote"; "git_allowed_refs"; "git_url_fingerprint";
   "git_expected_state_token"; "git_old_oid"].

Definition _LEGACY_BINDING_FIELDS : list string :=
  ["effect_id"; "canonical_args_hash"; "target_state_version"].

Definition _TRANSIENT_KEYS : list string :=
  ["sandbox_profile"; "capability_ids"; "selected_capability_id"; "matched_capability_ids";
   "request_id"; "human_request_id"; "policy"; "policy_level"; "policy_reason"; "grant_scope";
   "working_directory"; "workspace_root"; "high_risk"; "matched_rule"; "rpc_method"; "mcp_name";
   "transport"; "risk"; "rule_id"; "rule_effect"; "reason"].

(** [sorted(context.items())]: the keys are distinct strings. *)
Definition item_le (a b : string * pyval) : Prop := str_le (fst a) (fst b).

#[export] Instance item_le_dec : RelDecision item_le.
Proof. intros a b. unfold item_le. apply _. Defined.

Definition canonical_effect_payload (context : list (pyval * pyval)) : list (string * pyval) :=
  List.filter (fun kv => negb (bool_decide (fst kv ∈ _TRANSIENT_KEYS))
                         && negb (endswith "_preview" (fst kv) || endswith "_observation" (fst kv)))
    (merge_sort item_le
       (omap (fun kv => match fst kv with PStr k => Some (k, snd kv) | _ => None end) context)).

Definition is_semantic_approval_binding (d : list (pyval * pyval)) : bool :=
  match dict_get_none d "schema_version" with PInt z => (z =? 2)%Z | _ => false end.

Section Evaluator.
Variable str_other : pyval → string.
Variable float_of_str : string → option spec_float.
Variable config : RegexConfig.
Variable engine : RegexEngine.
(** [SemanticApprovalBindingV2.from_dict(value).to_dict()]. *)
Variable semantic_binding : list (pyval * pyval) → res (list (pyval * pyval)).
(** [sha256(dumps(payload))]; raises on a payload JSON cannot hold. *)
Variable payload_digest : list (string * pyval) → res string.

Definition canonical_effect_hash (context : list (pyval * pyval)) : res string :=
  payload_digest (canonical_effect_payload context).

Definition normalize_approval_binding (value : pyval) : res (list (pyval * pyval)) :=
  match value with
  | PDict d =>
      if is_semantic_approval_binding d then
        match semantic_binding d with
        | Err (ValueError m) | Err (TypeError m) => Err (ValidationError m)
        | r => r
        end
      else
      _ ← raise_if (existsb (fun k => negb (dict_has d k)) _LEGACY_BINDING_FIELDS)
            (ValidationError "approval binding is missing fields");
      _ ← raise_if (has_unknown_key d _LEGACY_BINDING_FIELDS)
            (ValidationError "approval binding contains unknown fields");
      effect ← match dict_get_none d "effect_id" with
               | PStr s => Ok s
               | _ => Err (ValidationError "approval binding effect_id must be a string") end;
      hash ← match dict_get_none d "canonical_args_hash" with
             | PStr s => Ok s
             | _ => Err (ValidationError "approval binding canonical_args_hash must be a string") end;
      version ← match dict_get_none d "target_state_version" with
                | (PNone | PStr _ | PInt _) as v => Ok v
                | _ => Err (ValidationError "approval binding target_state_version must be a string, integer, or null")
                end;
      let effect_id := strip effect in
      let args_hash := lower (strip hash) in
      _ ← raise_if (negb (startswith "eff_" effect_id))
            (ValidationError "approval binding requires a planned external effect id");
      _ ← raise_if (negb (is_sha256_hex args_hash))
            (ValidationError "approval binding requires a canonical SHA-256 argument hash");
      Ok [(PStr "effect_id", PStr effect_id); (PStr "canonical_args_hash", PStr args_hash);
          (PStr "target_state_version", version)]
  | _ => Err (ValidationError "approval binding must be an object")
  end.

(** ** Constraints *)

Definition simple_result (ok : bool) (reason : string) : ConstraintResult :=
  {| cr_ok := ok; cr_reason := Some reason; cr_effect := None; cr_detail := [] |}.

Definition _evaluate_approval_binding (value : pyval) (context : list (pyval * pyval))
    : res ConstraintResult :=
  match normalize_approval_binding value with
  | Err (ValidationError m) => Ok (simple_result false m)
  | Err e => Err e
  | Ok binding =>
      actual_hash ← canonical_effect_hash context;
      let expected_version := dict_get_none binding "target_state_version" in
      let actual_version := dict_get_none context "target_state_version" in
      let matched := py_eq (dict_get_none binding "canonical_args_hash") (PStr actual_hash)
                     && (is_none expected_version || py_eq expected_version actual_version) in
      Ok {| cr_ok := matched;
            cr_reason := Some (if matched then "approval binding matched"
                               else "approved effect arguments or target state changed");
            cr_effect := None;
            cr_detail := [("effect_id", dict_get_none binding "effect_id");
                          ("canonical_args_hash", PStr actual_hash);
                          ("target_state_version", actual_version)] |}
  end.

Definition _evaluate_data_release_binding (value : pyval) (context : list (pyval * pyval))
    : res ConstraintResult :=
  match (expected ← binding_from_dict value;
         actual ← binding_from_dict (dict_get_none context DATA_RELEASE_BINDING_KEY);
         Ok (expected, actual)) with
  | Err (ValueError m) | Err (TypeError m) => Ok (simple_result false m)
  | Err e => Err e
  | Ok (expected, actual) =>
      let matched := py_eq (binding_to_dict expected) (binding_to_dict actual) in
      Ok {| cr_ok := matched;
            cr_reason := Some (if matched then "data release binding matched"
              else "data release Sink, source, payload, policy, or operation changed");
            cr_effect := None;
            cr_detail := [("sink", PStr (rb_sink actual));
                          ("registry_generation", PInt (rb_registry_generation actual));
                          ("payload_hash", PStr (rb_payload_hash actual))] |}
  end.

Definition _evaluate_git_equal (expected actual : pyval) (label : string) : ConstraintResult :=
  let matched := is_str expected && py_eq expected actual in
  simple_result matched (if matched then "Git " +:+ label +:+ " matched"
                         else "Git " +:+ label +:+ " did not match").

Definition _evaluate_git_refs (value : pyval) (context : list (pyval * pyval)) : ConstraintResult :=
  let allowed := match value with PList l | PTuple l | PSet l => l | _ => [] end in
  let matched := match dict_get_none context "git_remote_ref" with
                 | PStr actual => existsb (fun i => String.eqb (py_str str_other i) actual) allowed
                 | _ => false end in
  simple_result matched (if matched then "Git ref matched"
                         else "Git ref is outside the capability allowlist").

Definition evaluate_constraint (key : string) (value : pyval) (context : list (pyval * pyval))
    : res ConstraintResult :=
  if negb (bool_decide (key ∈ KNOWN_CONSTRAINT_KEYS)) then Ok (simple_result false "unknown constraint key")
  else if String.eqb key AUTHORITY_RULES_KEY then
    _evaluate_rule_constraint str_other float_of_str config engine value context
  else if String.eqb key APPROVAL_BINDING_KEY then _evaluate_approval_binding value context
  else if String.eqb key DATA_RELEASE_BINDING_KEY then _evaluate_data_release_binding value context
  else if String.eqb key "git_remote" then
    Ok (_evaluate_git_equal value (dict_get_none context "git_remote") "remote")
  else if String.eqb key "git_url_fingerprint" then
    Ok (_evaluate_git_equal value (dict_get_none context "git_url_fingerprint") "remote URL fingerprint")
  else if String.eqb key "git_expected_state_token" then
    Ok (_evaluate_git_equal value (dict_get_none context "git_expected_state_token") "state token")
  else if String.eqb key "git_old_oid" then
    Ok (_evaluate_git_equal value (dict_get_none context "git_old_oid") "old object id")
  else if String.eqb key "git_allowed_refs" then Ok (_evaluate_git_refs value context)
  else Ok {| cr_ok := true; cr_reason := None; cr_effect := None; cr_detail := [("value", value)] |}.

Definition evaluate_constraints (cap : Capability) (context : list (pyval * pyval))
    : res (list (string * ConstraintResult)) :=
  mapR (fun kv => r ← evaluate_constraint (fst kv) (snd kv) context; Ok (fst kv, r))
    (cap_constraints cap).

Definition constraint_effect (results : list (string * ConstraintResult)) : option CapabilityEffect :=
  List.find (fun e => existsb (fun kr => bool_decide (cr_effect (snd kr) = Some (enum_value e))) results)
    [CapabilityEffect.DENY; CapabilityEffect.ASK; CapabilityEffect.ALLOW].

(** The only failed constraint is the rule constraint, and it failed because no
    rule matched. *)
Definition constraint_failure_is_scoped_miss (results : list (string * ConstraintResult)) : bool :=
  match List.filter (fun kr => negb (cr_ok (snd kr))) results with
  | [(key, r)] => String.eqb key AUTHORITY_RULES_KEY && bool_decide (cr_reason r = Some NO_RULE_MATCHED)
  | _ => false
  end.

(** ** Verdicts *)

(** The arguments every decision of one call repeats. *)
Record Request : Type := {
  rq_subject : string;
  rq_resource : string;
  rq_right : string;
  rq_matched_ids : list string;
  rq_context : list (pyval * pyval);
  rq_issuer_chains : string → list string;
}.

Definition _decision (rq : Request) (cap : Capability) (allowed : bool)
    (effect : option CapabilityEffect) (reason : string)
    (results : list (string * ConstraintResult)) : CapabilityDecision :=
  {| dec_subject := rq_subject rq; dec_resource := rq_resource rq; dec_right := rq_right rq;
     dec_allowed := allowed; dec_effect := effect; dec_reason := reason;
     dec_matched_capability_ids := rq_matched_ids rq;
     dec_selected_capability_id := Some (cap_id cap);
     dec_consume_capability_id :=
       if allowed && bool_decide (is_Some (cap_uses_remaining cap)) then Some (cap_id cap) else None;
     dec_issuer_chain := rq_issuer_chains rq (cap_id cap);
     dec_constraint_results := results; dec_context := rq_context rq |}.

Definition _decide_match (rq : Request) (cap : Capability)
    (results : list (string * ConstraintResult)) : option CapabilityDecision :=
  let target := rq_right rq +:+ " on " +:+ rq_resource rq in
  let ceffect := constraint_effect results in
  let constraints_ok := forallb (fun kr => cr_ok (snd kr)) results in
  let restrictive_failure :=
    negb constraints_ok && is_restrictive (cap_effect cap)
    && negb (constraint_failure_is_scoped_miss results) in
  if bool_decide (ceffect = Some CapabilityEffect.DENY) || restrictive_failure then
    Some (_decision rq cap false (Some CapabilityEffect.DENY)
            ("capability constraints denied " +:+ target) results)
  else if negb constraints_ok then None
  else match cap_effect cap with
  | CapabilityEffect.DENY =>
      Some (_decision rq cap false (Some CapabilityEffect.DENY)
              (rq_subject rq +:+ " denied " +:+ target) results)
  | effect =>
      if bool_decide (effect = CapabilityEffect.ASK) || bool_decide (ceffect = Some CapabilityEffect.ASK)
      then Some (_decision rq cap false (Some CapabilityEffect.ASK)
                   (rq_subject rq +:+ " requires human approval for " +:+ target) results)
      else Some (_decision rq cap true (Some effect) "capability allowed operation" results)
  end.

Definition result_of (results : list (string * ConstraintResult)) (key : string) : option ConstraintResult :=
  match List.find (fun kr => String.eqb (fst kr) key) results with
  | Some (_, r) => Some r | None => None end.

Definition _is_matched_one_shot_approval (cap : Capability) (d : CapabilityDecision) : bool :=
  bool_decide (dec_effect d = Some CapabilityEffect.ALLOW)
  && bool_decide (cap_uses_remaining cap = Some 1%Z)
  && bool_decide (dec_consume_capability_id d = Some (cap_id cap))
  && match result_of (dec_constraint_results d) APPROVAL_BINDING_KEY with
     | Some r => cr_ok r | None => false end.

(** ** The decision *)

Definition Verdict : Type := Capability * list (string * ConstraintResult) * option CapabilityDecision.

Definition verdicts (rq : Request) (matches : list Capability) : res (list Verdict) :=
  mapR (fun cap => results ← evaluate_constraints cap (rq_context rq);
                   Ok (cap, results, _decide_match rq cap results)) matches.

Definition decisions_of (vs : list Verdict) : list (Capability * CapabilityDecision) :=
  omap (fun v => match snd v with Some d => Some (fst (fst v), d) | None => None end) vs.

Definition failed_of (vs : list Verdict) : list (Capability * list (string * ConstraintResult)) :=
  omap (fun v => match snd v with Some _ => None | None => Some (fst v) end) vs.

Definition first_effect (e : CapabilityEffect) (ds : list (Capability * CapabilityDecision))
    : option CapabilityDecision :=
  option_map snd (List.find (fun cd => bool_decide (dec_effect (snd cd) = Some e)) ds).

Definition decide_from (rq : Request) (vs : list Verdict) : CapabilityDecision :=
  let ds := decisions_of vs in
  match first_effect CapabilityEffect.DENY ds with
  | Some d => d
  | None =>
  match List.find (fun cd => _is_matched_one_shot_approval (fst cd) (snd cd)) ds with
  | Some (_, d) => d
  | None =>
  match first_effect CapabilityEffect.ASK ds with
  | Some d => d
  | None =>
  match first_effect CapabilityEffect.ALLOW ds with
  | Some d => d
  | None =>
  match failed_of vs with
  | (cap, results) :: _ =>
      _decision rq cap false None
        ("capability constraints rejected " +:+ rq_right rq +:+ " on " +:+ rq_resource rq) results
  | [] =>
      {| dec_subject := rq_subject rq; dec_resource := rq_resource rq; dec_right := rq_right rq;
         dec_allowed := false; dec_effect := None;
         dec_reason := rq_subject rq +:+ " lacks " +:+ rq_right rq +:+ " on " +:+ rq_resource rq;
         dec_matched_capability_ids := rq_matched_ids rq; dec_selected_capability_id := None;
         dec_consume_capability_id := None; dec_issuer_chain := [];
         dec_constraint_results := []; dec_context := rq_context rq |}
  end end end end end.

Definition decide (subject resource requested_right : string) (matches : list Capability)
    (context : list (pyval * pyval)) (issuer_chains : string → list string) : res CapabilityDecision :=
  let rq := {| rq_subject := subject; rq_resource := resource; rq_right := requested_right;
               rq_matched_ids := map cap_id matches; rq_context := context;
               rq_issuer_chains := issuer_chains |} in
  vs ← verdicts rq matches;
  Ok (decide_from rq vs).

(** ** Expiry *)

(** [parse_time] is [datetime.fromisoformat] on the text with [Z] read as
    [+00:00], in UTC; [None] is [ValueError]. *)
Definition expires_at_datetime (parse_time : string → option Z) (value : string) : res Z :=
  let raw := strip value in
  _ ← raise_if (String.eqb raw "")
        (ValidationError "capability expires_at must be a non-empty ISO timestamp");
  of_option (ValidationError "capability expires_at must be an ISO timestamp") (parse_time raw).

Definition is_expired (parse_time : string → option Z) (capability : Capability) (now : Z) : bool :=
  match cap_expires_at capability with
  | None => false
  | Some value =>
      match expires_at_datetime parse_time value with
      | Err _ => true
      | Ok expires_at => (expires_at <=? now)%Z
      end
  end.

(** ** The order of matches *)

(** Four stable sorts, the last one decisive. *)
Definition by_id (a b : Capability) : Prop := str_le (cap_id a) (cap_id b).
Definition by_issue (a b : Capability) : Prop := str_le (cap_issued_at b) (cap_issued_at a).
Definition by_length (a b : Capability) : Prop :=
  (String.length (cap_resource b) <= String.length (cap_resource a))%nat.
Definition effect_key (c : Capability) : nat :=
  if bool_decide (cap_effect c = CapabilityEffect.DENY) then 0 else 1.
Definition by_effect (a b : Capability) : Prop := (effect_key a <= effect_key b)%nat.

#[export] Instance by_id_dec : RelDecision by_id.
Proof. intros a b. unfold by_id. apply _. Defined.
#[export] Instance by_issue_dec : RelDecision by_issue.
Proof. intros a b. unfold by_issue. apply _. Defined.
#[export] Instance by_length_dec : RelDecision by_length.
Proof. intros a b. unfold by_length. apply _. Defined.
#[export] Instance by_effect_dec : RelDecision by_effect.
Proof. intros a b. unfold by_effect. apply _. Defined.

Definition sort_matching_capabilities (capabilities : list Capability) : list Capability :=
  stable_sort by_effect (stable_sort by_length (stable_sort by_issue (stable_sort by_id capabilities))).
End Evaluator.
