(* ===== verification/EvaluatorProperties.v ===== *)
(** * What the evaluator guarantees

    The outcome of [decide] as a function of one summary per capability, and
    what follows: when access is allowed, that the order of the capabilities
    does not matter, and that a regex timeout only makes the decision
    stricter. *)

From S2P Require Import Prelude PyStr PyVal PyEnum CapabilityModel AuthorityRules DataRelease CapabilityEvaluator.
From stdpp Require Import sorting.

(** ** One capability *)

Definition all_ok (results : list (string * ConstraintResult)) : bool :=
  forallb (fun kr => cr_ok (snd kr)) results.

(** The effect of the verdict, which depends on nothing else. *)
Definition verdict_effect (cap : Capability) (results : list (string * ConstraintResult))
    : option CapabilityEffect :=
  if bool_decide (constraint_effect results = Some CapabilityEffect.DENY)
     || negb (all_ok results) && is_restrictive (cap_effect cap)
        && negb (constraint_failure_is_scoped_miss results)
  then Some CapabilityEffect.DENY
  else if negb (all_ok results) then None
  else match cap_effect cap with
  | CapabilityEffect.DENY => Some CapabilityEffect.DENY
  | effect => if bool_decide (effect = CapabilityEffect.ASK)
                 || bool_decide (constraint_effect results = Some CapabilityEffect.ASK)
              then Some CapabilityEffect.ASK else Some effect
  end.

(** A one-shot approval whose binding matched. *)
Definition approved_once (cap : Capability) (results : list (string * ConstraintResult)) : bool :=
  bool_decide (verdict_effect cap results = Some CapabilityEffect.ALLOW)
  && bool_decide (cap_uses_remaining cap = Some 1%Z)
  && match result_of results APPROVAL_BINDING_KEY with Some r => cr_ok r | None => false end.

Lemma decide_match_spec rq cap results :
  match _decide_match rq cap results with
  | None => verdict_effect cap results = None
  | Some d =>
      dec_effect d = verdict_effect cap results ∧ is_Some (verdict_effect cap results)
      ∧ dec_allowed d = bool_decide (verdict_effect cap results = Some CapabilityEffect.ALLOW)
      ∧ dec_selected_capability_id d = Some (cap_id cap)
      ∧ dec_consume_capability_id d
        = (if dec_allowed d && bool_decide (is_Some (cap_uses_remaining cap)) then Some (cap_id cap) else None)
      ∧ dec_constraint_results d = results
  end.
Proof.
  unfold _decide_match, verdict_effect. fold (all_ok results).
  destruct (bool_decide (constraint_effect results = Some CapabilityEffect.DENY) || _);
    [by split_and!; eauto|].
  destruct (negb (all_ok results)); [done|].
  destruct (cap_effect cap); [|by split_and!; eauto|by split_and!; eauto].
  destruct (_ || _); by split_and!; eauto.
Qed.

Lemma approved_once_spec rq cap results d :
  _decide_match rq cap results = Some d →
  _is_matched_one_shot_approval cap d = approved_once cap results.
Proof.
  intros E. pose proof (decide_match_spec rq cap results) as H. rewrite E in H.
  destruct H as (He & _ & Ha & _ & Hc & Hr).
  unfold _is_matched_one_shot_approval, approved_once. rewrite He, Hr, Hc, Ha.
  destruct (bool_decide (verdict_effect cap results = _)) eqn:Ev; [|done].
  destruct (bool_decide_reflect (cap_uses_remaining cap = Some 1%Z)) as [->|]; [|done].
  cbn. by rewrite bool_decide_true.
Qed.

(** An allowing verdict needs an ALLOW capability with every constraint met. *)
Lemma verdict_allow cap results :
  verdict_effect cap results = Some CapabilityEffect.ALLOW ↔
  cap_effect cap = CapabilityEffect.ALLOW ∧ all_ok results = true
  ∧ constraint_effect results ≠ Some CapabilityEffect.DENY
  ∧ constraint_effect results ≠ Some CapabilityEffect.ASK.
Proof.
  unfold verdict_effect. destruct (all_ok results); cbn [negb andb orb];
    repeat case_bool_decide; destruct (cap_effect cap); cbn; try destruct (negb _); naive_solver.
Qed.

(** A DENY capability is passed over only when its rules did not match. *)
Lemma verdict_deny_skipped cap results :
  cap_effect cap = CapabilityEffect.DENY → verdict_effect cap results ≠ Some CapabilityEffect.DENY →
  verdict_effect cap results = None ∧ constraint_failure_is_scoped_miss results = true.
Proof.
  intros E. unfold verdict_effect. rewrite E. case_bool_decide; [done|]. cbn.
  destruct (all_ok results); cbn; [done|]. by destruct (constraint_failure_is_scoped_miss results).
Qed.

Lemma verdict_ask_skipped cap results :
  cap_effect cap = CapabilityEffect.ASK →
  verdict_effect cap results = Some CapabilityEffect.DENY ∨ verdict_effect cap results = Some CapabilityEffect.ASK
  ∨ verdict_effect cap results = None ∧ constraint_failure_is_scoped_miss results = true.
Proof.
  intros E. unfold verdict_effect. rewrite E. case_bool_decide; [by left|]. cbn.
  destruct (all_ok results); cbn; [by right; left|].
  destruct (constraint_failure_is_scoped_miss results); cbn; [by do 2 right|by left].
Qed.

(** ** The outcome of a call *)

(** Precedence over the summaries: DENY, a matched one-shot approval, ASK,
    ALLOW, nothing. *)
Definition outcome (summaries : list (option CapabilityEffect * bool)) : option CapabilityEffect :=
  let has e := existsb (fun s => bool_decide (fst s = Some e)) summaries in
  if has CapabilityEffect.DENY then Some CapabilityEffect.DENY
  else if existsb snd summaries then Some CapabilityEffect.ALLOW
  else if has CapabilityEffect.ASK then Some CapabilityEffect.ASK
  else if has CapabilityEffect.ALLOW then Some CapabilityEffect.ALLOW
  else None.

Definition summary (cap : Capability) (results : list (string * ConstraintResult))
    : option CapabilityEffect * bool := (verdict_effect cap results, approved_once cap results).

Definition from_decide (rq : Request) (v : Verdict) : Prop :=
  snd v = _decide_match rq (fst (fst v)) (snd (fst v)).

Definition summaries (vs : list Verdict) : list (option CapabilityEffect * bool) :=
  map (fun v => summary (fst (fst v)) (snd (fst v))) vs.

Lemma elem_of_decisions rq vs cap d :
  Forall (from_decide rq) vs →
  (cap, d) ∈ decisions_of vs → ∃ results, (cap, results, Some d) ∈ vs ∧ _decide_match rq cap results = Some d.
Proof.
  intros H Hin. unfold decisions_of in Hin. apply list_elem_of_omap in Hin as ([[c r] o] & Hv & E).
  rewrite Forall_forall in H. pose proof (H _ Hv) as Hf. unfold from_decide in Hf. cbn in *.
  destruct o; [|done]. injection E as -> ->. eauto.
Qed.

Lemma decision_in vs rq cap results d :
  Forall (from_decide rq) vs → (cap, results, d) ∈ vs → is_Some (verdict_effect cap results) →
  ∃ d', (cap, d') ∈ decisions_of vs ∧ _decide_match rq cap results = Some d'.
Proof.
  intros H Hin Hs. rewrite Forall_forall in H. pose proof (H _ Hin) as Hf. unfold from_decide in Hf. cbn in Hf.
  pose proof (decide_match_spec rq cap results) as Hd. subst d.
  destruct (_decide_match rq cap results) as [d|] eqn:E; [|by rewrite Hd in Hs; destruct Hs].
  exists d. split; [|done]. unfold decisions_of. apply list_elem_of_omap.
  exists (cap, results, Some d). done.
Qed.

(** The first decision with an effect exists exactly when a summary has it. *)
Lemma first_effect_spec rq vs e :
  Forall (from_decide rq) vs →
  match first_effect e (decisions_of vs) with
  | Some d => ∃ cap results, (cap, results, Some d) ∈ vs ∧ _decide_match rq cap results = Some d
                ∧ verdict_effect cap results = Some e
  | None => existsb (fun s => bool_decide (fst s = Some e)) (summaries vs) = false
  end ∧ (existsb (fun s => bool_decide (fst s = Some e)) (summaries vs)
         = bool_decide (is_Some (first_effect e (decisions_of vs)))).
Proof.
  intros H. unfold first_effect.
  destruct (List.find _ (decisions_of vs)) as [[cap d]|] eqn:F; cbn [option_map snd].
  - apply List.find_some in F as [Hin He]. apply list_elem_of_In in Hin. cbn in He.
    apply bool_decide_eq_true in He.
    destruct (elem_of_decisions rq vs cap d H Hin) as (results & Hv & Em).
    pose proof (decide_match_spec rq cap results) as Hd. rewrite Em in Hd. destruct Hd as (Hd & _).
    split; [exists cap, results; split_and!; [done..|congruence]|].
    rewrite bool_decide_true by eauto. apply existsb_exists. exists (summary cap results).
    split; [|apply bool_decide_eq_true; cbn; congruence].
    apply in_map_iff. exists (cap, results, Some d). by rewrite <-list_elem_of_In.
  - assert (Hno : existsb (fun s => bool_decide (fst s = Some e)) (summaries vs) = false).
    { apply not_true_iff_false. intros Hex. apply existsb_exists in Hex as (s & Hs & He).
      apply in_map_iff in Hs as ([[cap results] o] & <- & Hv). cbn in He. apply bool_decide_eq_true in He.
      apply list_elem_of_In in Hv.
      destruct (decision_in vs rq cap results o H Hv) as (d & Hd & Em); [by rewrite He|].
      pose proof (decide_match_spec rq cap results) as Hm. rewrite Em in Hm. destruct Hm as (Hm & _).
      apply list_elem_of_In in Hd. eapply List.find_none in F; [|exact Hd]. cbn in F.
      rewrite Hm, He in F. by rewrite bool_decide_true in F. }
    split; [done|]. rewrite Hno. symmetry. by apply bool_decide_false; intros [? ?].
Qed.

Lemma one_shot_find_spec rq vs :
  Forall (from_decide rq) vs →
  match List.find (fun cd => _is_matched_one_shot_approval (fst cd) (snd cd)) (decisions_of vs) with
  | Some (cap, d) => ∃ results, (cap, results, Some d) ∈ vs ∧ _decide_match rq cap results = Some d
                       ∧ approved_once cap results = true
  | None => True
  end ∧ existsb snd (summaries vs)
        = bool_decide (is_Some (List.find (fun cd => _is_matched_one_shot_approval (fst cd) (snd cd)) (decisions_of vs))).
Proof.
  intros H. destruct (List.find _ (decisions_of vs)) as [[cap d]|] eqn:F.
  - apply List.find_some in F as [Hin He]. apply list_elem_of_In in Hin. cbn in He.
    destruct (elem_of_decisions rq vs cap d H Hin) as (results & Hv & Em).
    rewrite (approved_once_spec _ _ _ _ Em) in He. split; [eauto|].
    rewrite bool_decide_true by eauto. apply existsb_exists. exists (summary cap results).
    split; [|done]. apply in_map_iff. exists (cap, results, Some d). by rewrite <-list_elem_of_In.
  - split; [done|]. rewrite bool_decide_false by (by intros [? ?]).
    apply not_true_iff_false. intros Hex. apply existsb_exists in Hex as (s & Hs & He).
    apply in_map_iff in Hs as ([[cap results] o] & <- & Hv). cbn in He. apply list_elem_of_In in Hv.
    pose proof He as Hap. unfold approved_once in Hap. apply andb_true_iff in Hap as [Hap _].
    apply andb_true_iff in Hap as [Hap _]. apply bool_decide_eq_true in Hap.
    destruct (decision_in vs rq cap results o H Hv) as (d & Hd & Em); [by rewrite Hap|].
    apply list_elem_of_In in Hd. eapply List.find_none in F; [|exact Hd]. cbn in F.
    by rewrite (approved_once_spec _ _ _ _ Em), He in F.
Qed.

(** The decision carries the outcome of the summaries, and an allowing one
    names a capability that allows. *)
Lemma decide_from_spec rq vs :
  Forall (from_decide rq) vs →
  let d := decide_from rq vs in
  dec_effect d = outcome (summaries vs)
  ∧ dec_allowed d = bool_decide (outcome (summaries vs) = Some CapabilityEffect.ALLOW)
  ∧ (dec_allowed d = true → ∃ cap results, (cap, results, Some d) ∈ vs
       ∧ _decide_match rq cap results = Some d ∧ verdict_effect cap results = Some CapabilityEffect.ALLOW
       ∧ (existsb snd (summaries vs) = true → approved_once cap results = true)).
Proof.
  intros H. unfold decide_from, outcome.
  assert (Hres : ∀ d cap results e, _decide_match rq cap results = Some d →
            verdict_effect cap results = Some e →
            dec_effect d = Some e ∧ dec_allowed d = bool_decide (Some e = Some CapabilityEffect.ALLOW)).
  { intros d cap results e Em Ev. pose proof (decide_match_spec rq cap results) as Hd. rewrite Em in Hd.
    destruct Hd as (-> & _ & -> & _). by rewrite Ev. }
  destruct (first_effect_spec rq vs CapabilityEffect.DENY H) as [HD ->].
  destruct (first_effect CapabilityEffect.DENY (decisions_of vs)) as [d|].
  { destruct HD as (cap & results & Hv & Em & Ev). destruct (Hres _ _ _ _ Em Ev) as [E1 E2].
    rewrite bool_decide_true by eauto. split_and!; [done..|]. rewrite E2. by rewrite bool_decide_false. }
  rewrite bool_decide_false by (by intros [? ?]).
  destruct (one_shot_find_spec rq vs H) as [HO ->].
  destruct (List.find _ (decisions_of vs)) as [[c d]|].
  { destruct HO as (results & Hv & Em & Ea). rewrite bool_decide_true by eauto.
    pose proof Ea as Ev. unfold approved_once in Ev. apply andb_true_iff in Ev as [Ev _].
    apply andb_true_iff in Ev as [Ev _]. apply bool_decide_eq_true in Ev.
    destruct (Hres _ _ _ _ Em Ev) as [E1 E2]. split_and!; [done..|]. intros _. exists c, results. done. }
  rewrite bool_decide_false by (by intros [? ?]).
  destruct (first_effect_spec rq vs CapabilityEffect.ASK H) as [HA ->].
  destruct (first_effect CapabilityEffect.ASK (decisions_of vs)) as [d|].
  { destruct HA as (cap & results & Hv & Em & Ev). destruct (Hres _ _ _ _ Em Ev) as [E1 E2].
    rewrite bool_decide_true by eauto. split_and!; [done..|]. rewrite E2. by rewrite bool_decide_false. }
  rewrite bool_decide_false by (by intros [? ?]).
  destruct (first_effect_spec rq vs CapabilityEffect.ALLOW H) as [HL ->].
  destruct (first_effect CapabilityEffect.ALLOW (decisions_of vs)) as [d|].
  { destruct HL as (cap & results & Hv & Em & Ev). destruct (Hres _ _ _ _ Em Ev) as [E1 E2].
    rewrite bool_decide_true by eauto. split_and!; [done..|]. intros _. exists cap, results. split_and!; done. }
  rewrite bool_decide_false by (by intros [? ?]).
  by destruct (failed_of vs) as [|[cap results] l].
Qed.

Lemma summary_in vs c rs o e :
  (c, rs, o) ∈ vs → verdict_effect c rs = Some e →
  existsb (fun s => bool_decide (fst s = Some e)) (summaries vs) = true.
Proof.
  intros Hx He. apply existsb_exists. exists (summary c rs). split; [|by apply bool_decide_eq_true].
  apply in_map_iff. exists (c, rs, o). by rewrite <-list_elem_of_In.
Qed.

(** What an allowing outcome excludes. *)
Lemma outcome_allow l :
  outcome l = Some CapabilityEffect.ALLOW →
  existsb (fun s => bool_decide (fst s = Some CapabilityEffect.DENY)) l = false
  ∧ (existsb (fun s => bool_decide (fst s = Some CapabilityEffect.ASK)) l = true → existsb snd l = true).
Proof.
  unfold outcome. destruct (existsb (fun s => bool_decide (fst s = Some CapabilityEffect.DENY)) l); [done|].
  destruct (existsb snd l); [done|].
  by destruct (existsb (fun s => bool_decide (fst s = Some CapabilityEffect.ASK)) l).
Qed.

(** ** Which decision is taken *)

(** In an ordered list, what [find] answers comes first among what it accepts. *)
Lemma find_foremost {A} (R : relation A) (f : A → bool) l x y :
  StronglySorted R l → List.find f l = Some x → y ∈ l → f y = true → y = x ∨ R x y.
Proof.
  induction 1 as [|z l Hs IH Hz]; cbn; [done|]. intros E Hin Hf. rewrite Forall_forall in Hz.
  destruct (f z) eqn:Ez.
  - injection E as ->. apply elem_of_cons in Hin as [->|Hin]; [by left|right; by apply Hz].
  - apply elem_of_cons in Hin as [->|Hin]; [congruence|]. by apply IH.
Qed.

Lemma decisions_sorted (R : relation Capability) vs :
  StronglySorted R (map (fun v : Verdict => fst (fst v)) vs) →
  StronglySorted (fun a b => R (fst a) (fst b)) (decisions_of vs).
Proof.
  induction vs as [|[[cap rs] o] vs IH]; cbn; intros Hs; [constructor|].
  apply StronglySorted_inv in Hs as [Hs Hc]. specialize (IH Hs). destruct o as [d|]; cbn; [|done].
  constructor; [done|]. apply Forall_forall. intros [cap' d'] Hin. unfold decisions_of in Hin.
  apply list_elem_of_omap in Hin as ([[c r] o] & Hv & Eo). cbn in Eo. cbn.
  rewrite Forall_forall in Hc. apply Hc. apply list_elem_of_fmap. exists (c, r, o). split; [|done].
  destruct o; [|done]. by injection Eo as -> _.
Qed.

(** An allowing decision is that of the foremost approved match, and, where
    none is approved, no match asks and it is that of the foremost allowing
    one. *)
Lemma decide_from_foremost (R : relation Capability) rq vs :
  Forall (from_decide rq) vs → StronglySorted R (map (fun v => fst (fst v)) vs) →
  dec_allowed (decide_from rq vs) = true →
  ∃ cap results, (cap, results, Some (decide_from rq vs)) ∈ vs ∧ _decide_match rq cap results = Some (decide_from rq vs)
    ∧ verdict_effect cap results = Some CapabilityEffect.ALLOW
    ∧ ∀ c rs o, (c, rs, o) ∈ vs →
        if approved_once cap results then approved_once c rs = true → c = cap ∨ R cap c
        else approved_once c rs = false ∧ verdict_effect c rs ≠ Some CapabilityEffect.ASK
             ∧ (verdict_effect c rs = Some CapabilityEffect.ALLOW → c = cap ∨ R cap c).
Proof.
  intros H Hs Ha. pose proof (decisions_sorted R vs Hs) as Hds. revert Ha. unfold decide_from.
  destruct (first_effect CapabilityEffect.DENY (decisions_of vs)) as [d|] eqn:ED.
  { destruct (first_effect_spec rq vs CapabilityEffect.DENY H) as [HD _]. rewrite ED in HD.
    destruct HD as (c & rs & _ & Em & Ev). pose proof (decide_match_spec rq c rs) as Hm. rewrite Em, Ev in Hm.
    destruct Hm as (_ & _ & Hal & _). by rewrite Hal. }
  destruct (List.find (fun cd => _is_matched_one_shot_approval (fst cd) (snd cd)) (decisions_of vs)) as [[cap d]|] eqn:EO.
  { intros _. destruct (one_shot_find_spec rq vs H) as [HO _]. rewrite EO in HO. destruct HO as (results & Hv & Em & Ho).
    pose proof Ho as Hal. unfold approved_once in Hal. rewrite !andb_true_iff, bool_decide_eq_true in Hal.
    exists cap, results. split_and!; [done|done|apply Hal|]. intros c rs o Hc. rewrite Ho. intros Hoc.
    destruct (decision_in vs rq c rs o H Hc) as (d' & Hd' & Em').
    { unfold approved_once in Hoc. rewrite !andb_true_iff, bool_decide_eq_true in Hoc. destruct Hoc as [[-> _] _]. by eexists. }
    pose proof (find_foremost _ _ _ _ (c, d') Hds EO Hd') as Hfore. cbn in Hfore.
    rewrite (approved_once_spec _ _ _ _ Em') in Hfore. destruct (Hfore Hoc) as [Heq|HR]; [left|by right]. congruence. }
  assert (Hno : ∀ c rs o, (c, rs, o) ∈ vs → approved_once c rs = false).
  { intros c rs o Hc. destruct (one_shot_find_spec rq vs H) as [_ HO]. rewrite EO in HO.
    apply not_true_iff_false. intros Ho. rewrite bool_decide_eq_false_2 in HO by by intros [].
    rewrite <-not_true_iff_false, existsb_exists in HO. apply HO. exists (summary c rs). split; [|done].
    apply in_map_iff. exists (c, rs, o). by rewrite <-list_elem_of_In. }
  destruct (first_effect CapabilityEffect.ASK (decisions_of vs)) as [d|] eqn:EA.
  { destruct (first_effect_spec rq vs CapabilityEffect.ASK H) as [HA _]. rewrite EA in HA.
    destruct HA as (c & rs & _ & Em & Ev). pose proof (decide_match_spec rq c rs) as Hm. rewrite Em, Ev in Hm.
    destruct Hm as (_ & _ & Hal & _). by rewrite Hal. }
  destruct (first_effect CapabilityEffect.ALLOW (decisions_of vs)) as [d|] eqn:EL; [|by destruct (failed_of vs) as [|[]]].
  intros _. unfold first_effect in EL. destruct (List.find (fun cd => bool_decide (dec_effect (snd cd) = Some CapabilityEffect.ALLOW)) (decisions_of vs))
    as [[cap d']|] eqn:EF; [|done].
  injection EL as ->. pose proof EF as [Hin He]%List.find_some. cbn in He. apply bool_decide_eq_true in He.
  apply list_elem_of_In in Hin. destruct (elem_of_decisions rq vs cap d H Hin) as (results & Hv & Em).
  pose proof (decide_match_spec rq cap results) as Hm. rewrite Em in Hm. destruct Hm as (Hm & _). rewrite He in Hm.
  exists cap, results. split_and!; [done|done|done|]. intros c rs o Hc. rewrite (Hno _ _ _ Hv).
  split; [by eapply Hno|]. split.
  - intros Hask. destruct (first_effect_spec rq vs CapabilityEffect.ASK H) as [HA _]. rewrite EA in HA.
    rewrite <-not_true_iff_false, existsb_exists in HA. apply HA. exists (summary c rs).
    split; [|by apply bool_decide_eq_true]. apply in_map_iff. exists (c, rs, o). by rewrite <-list_elem_of_In.
  - intros Hal. destruct (decision_in vs rq c rs o H Hc) as (d' & Hd' & Em'); [rewrite Hal; by eexists|].
    pose proof (decide_match_spec rq c rs) as Hm'. rewrite Em' in Hm'. destruct Hm' as (Hm' & _).
    pose proof (find_foremost _ _ _ _ (c, d') Hds EF Hd') as Hfore. cbn in Hfore. rewrite Hm', bool_decide_eq_true in Hfore.
    destruct (Hfore Hal) as [Heq|HR]; [left|by right]. congruence.
Qed.

(** ** Access is allowed only when it should be *)

Section Decide.
Variable str_other : pyval → string.
Variable float_of_str : string → option spec_float.
Variable config : RegexConfig.
Variable engine : RegexEngine.
Variable semantic_binding : list (pyval * pyval) → res (list (pyval * pyval)).
Variable payload_digest : list (string * pyval) → res string.

Abbreviation constraints_of := (evaluate_constraints str_other float_of_str config engine semantic_binding payload_digest).
Abbreviation run_decide := (CapabilityEvaluator.decide str_other float_of_str config engine semantic_binding payload_digest).

Lemma verdicts_Ok rq matches vs :
  verdicts str_other float_of_str config engine semantic_binding payload_digest rq matches = Ok vs →
  Forall (from_decide rq) vs ∧ map (fun v => fst (fst v)) vs = matches
  ∧ Forall (fun v => constraints_of (fst (fst v)) (rq_context rq) = Ok (snd (fst v))) vs.
Proof.
  unfold verdicts. intros E. apply mapR_Ok in E. induction E as [|cap v l vs Hv _ (IH1 & IH2 & IH3)]; [done|].
  res_simpl. cbn. split_and!; [by constructor|done|by constructor].
Qed.

(** Every key of a capability whose constraints all hold is a known key. *)
Lemma all_ok_known cap context results :
  constraints_of cap context = Ok results → all_ok results = true →
  Forall (fun kv => fst kv ∈ KNOWN_CONSTRAINT_KEYS) (cap_constraints cap).
Proof.
  unfold evaluate_constraints. intros E. apply mapR_Ok in E.
  induction E as [|kv [k r] l rs Hr _ IH]; [done|]. cbn [all_ok forallb snd].
  intros [Hok Hrest]%andb_true_iff. constructor; [|by apply IH]. res_simpl.
  match goal with H : evaluate_constraint _ _ _ _ _ _ _ _ _ = Ok _ |- _ => unfold evaluate_constraint in H end.
  case_bool_decide; [done|]. cbn in *. simplify_eq/=.
Qed.

(** Access is allowed only by a matching ALLOW capability all of whose
    constraint keys are known and whose constraints all hold, and the use of a
    finite capability is charged to that capability.  It is never allowed past
    a matching DENY capability whose rules matched or which has another failed
    constraint; and past a matching ASK capability only by a one-shot human
    approval bound to exactly this effect. *)
Theorem decide_allowed_sound subject resource right matches context chains d :
  run_decide subject resource right matches context chains = Ok d → dec_allowed d = true →
  dec_effect d = Some CapabilityEffect.ALLOW
  ∧ (∃ cap results, cap ∈ matches ∧ cap_effect cap = CapabilityEffect.ALLOW
       ∧ constraints_of cap context = Ok results ∧ all_ok results = true
       ∧ Forall (fun kv => fst kv ∈ KNOWN_CONSTRAINT_KEYS) (cap_constraints cap)
       ∧ dec_selected_capability_id d = Some (cap_id cap)
       ∧ dec_consume_capability_id d
         = (if bool_decide (is_Some (cap_uses_remaining cap)) then Some (cap_id cap) else None)
       ∧ ((∃ c, c ∈ matches ∧ cap_effect c = CapabilityEffect.ASK
             ∧ ∀ rs, constraints_of c context = Ok rs → constraint_failure_is_scoped_miss rs = false) →
          cap_uses_remaining cap = Some 1%Z
          ∧ ∃ r, result_of results APPROVAL_BINDING_KEY = Some r ∧ cr_ok r = true))
  ∧ (∀ c, c ∈ matches → cap_effect c = CapabilityEffect.DENY →
       ∃ rs, constraints_of c context = Ok rs ∧ constraint_failure_is_scoped_miss rs = true).
Proof.
  unfold CapabilityEvaluator.decide. intros E Ha. res_simpl.
  match goal with H : verdicts _ _ _ _ _ _ ?r _ = Ok ?v |- _ => rename v into vs; set (rq := r) in *; rename H into E end.
  destruct (verdicts_Ok rq matches vs E) as (Hf & Hm & Hr).
  destruct (decide_from_spec rq vs Hf) as (He & Hal & Hsel).
  rewrite Ha in Hal. symmetry in Hal. apply bool_decide_eq_true in Hal. rewrite Hal in He.
  destruct (Hsel Ha) as (cap & results & Hv & Em & Ev & Hshot).
  rewrite Forall_forall in Hr. pose proof (Hr _ Hv) as Hcr. cbn in Hcr.
  apply verdict_allow in Ev as Ev'. destruct Ev' as (Hce & Hok & _ & _).
  pose proof (decide_match_spec rq cap results) as Hd. rewrite Em in Hd.
  destruct Hd as (_ & _ & _ & Hs & Hc & _). rewrite Ha in Hc.
  assert (Hin : ∀ c, c ∈ matches → ∃ rs o, (c, rs, o) ∈ vs ∧ constraints_of c context = Ok rs).
  { intros c Hcin. rewrite <-Hm in Hcin. apply list_elem_of_fmap in Hcin as ([[c' rs] o] & -> & Hx).
    exists rs, o. split; [done|]. by apply (Hr _ Hx). }
  apply outcome_allow in Hal as [Hnd Hask].
  assert (Hnodeny : ∀ c rs o, (c, rs, o) ∈ vs → verdict_effect c rs ≠ Some CapabilityEffect.DENY).
  { intros c rs o Hx Hd. by rewrite (summary_in _ _ _ _ _ Hx Hd) in Hnd. }
  split; [done|]. split.
  - exists cap, results. split_and!; try done.
    + rewrite <-Hm. apply list_elem_of_fmap. by exists (cap, results, Some (decide_from rq vs)).
    + by eapply all_ok_known.
    + intros (c & Hcin & Hca & Hmiss). destruct (Hin c Hcin) as (rs & o & Hx & Hcs).
      specialize (Hmiss rs Hcs). destruct (verdict_ask_skipped c rs Hca) as [Hv'|[Hv'|[_ Hv']]];
        [by destruct (Hnodeny _ _ _ Hx)| |congruence].
      specialize (Hshot (Hask (summary_in _ _ _ _ _ Hx Hv'))).
      unfold approved_once in Hshot. apply andb_true_iff in Hshot as [Hshot Hres].
      apply andb_true_iff in Hshot as [_ Hu]. apply bool_decide_eq_true in Hu. split; [done|].
      destruct (result_of results APPROVAL_BINDING_KEY) as [r|]; [eauto|done].
  - intros c Hcin Hcd. destruct (Hin c Hcin) as (rs & o & Hx & Hcs). exists rs. split; [done|].
    by apply (verdict_deny_skipped c rs Hcd (Hnodeny _ _ _ Hx)).
Qed.

(** How the request's constraints judge a match. *)
Definition judged (f : Capability → list (string * ConstraintResult) → bool) (context : list (pyval * pyval))
    (cap : Capability) : bool :=
  match constraints_of cap context with Ok rs => f cap rs | Err _ => false end.
Definition allows : list (pyval * pyval) → Capability → bool :=
  judged (fun cap rs => bool_decide (verdict_effect cap rs = Some CapabilityEffect.ALLOW)).
Definition asks : list (pyval * pyval) → Capability → bool :=
  judged (fun cap rs => bool_decide (verdict_effect cap rs = Some CapabilityEffect.ASK)).
Definition approves : list (pyval * pyval) → Capability → bool := judged approved_once.

(** [cap] is taken before [other]: an approved match before any other, and then
    the foremost; without an approved one, nothing asks and it is the foremost
    that allows. *)
Definition preferred (R : relation Capability) (context : list (pyval * pyval)) (cap other : Capability) : Prop :=
  if approves context cap then approves context other = true → other = cap ∨ R cap other
  else approves context other = false ∧ asks context other = false
       ∧ (allows context other = true → other = cap ∨ R cap other).

Lemma decide_foremost (R : relation Capability) subject resource right matches context chains d :
  StronglySorted R matches →
  run_decide subject resource right matches context chains = Ok d → dec_allowed d = true →
  ∃ cap results, cap ∈ matches ∧ constraints_of cap context = Ok results
    ∧ verdict_effect cap results = Some CapabilityEffect.ALLOW
    ∧ dec_selected_capability_id d = Some (cap_id cap)
    ∧ dec_consume_capability_id d
      = (if bool_decide (is_Some (cap_uses_remaining cap)) then Some (cap_id cap) else None)
    ∧ ∀ other, other ∈ matches → preferred R context cap other.
Proof.
  unfold CapabilityEvaluator.decide. intros Hs E Ha. res_simpl.
  match goal with H : verdicts _ _ _ _ _ _ ?r _ = Ok ?v |- _ => rename v into vs; set (rq := r) in *; rename H into E end.
  destruct (verdicts_Ok rq matches vs E) as (Hf & Hm & Hr). rewrite Forall_forall in Hr. rewrite <-Hm in Hs.
  destruct (decide_from_foremost R rq vs Hf Hs Ha) as (cap & results & Hv & Em & Ev & Hall).
  pose proof (decide_match_spec rq cap results) as Hd. rewrite Em in Hd.
  destruct Hd as (_ & _ & _ & Hsel & Hcon & _). rewrite Ha in Hcon. pose proof (Hr _ Hv) as Hcr. cbn in Hcr.
  exists cap, results. split_and!; try done.
  - rewrite <-Hm. apply list_elem_of_fmap. by exists (cap, results, Some (decide_from rq vs)).
  - intros other Ho. rewrite <-Hm in Ho. apply list_elem_of_fmap in Ho as ([[c rs] o] & -> & Hx). cbn [fst].
    pose proof (Hr _ Hx) as Hor. cbn in Hor. specialize (Hall _ _ _ Hx).
    unfold preferred, approves, asks, allows, judged. rewrite Hcr, Hor.
    destruct (approved_once cap results); [done|]. destruct Hall as (H1 & H2 & H3). split_and!; [done| |].
    + by apply bool_decide_eq_false.
    + intros He%bool_decide_eq_true. by apply H3.
Qed.

(** ** The order of the capabilities *)

Lemma existsb_perm {A} (f : A → bool) l l' : l ≡ₚ l' → existsb f l = existsb f l'.
Proof.
  intros H. apply eq_true_iff_eq. rewrite !existsb_exists. setoid_rewrite <-list_elem_of_In.
  by setoid_rewrite H.
Qed.

Lemma outcome_perm l l' : l ≡ₚ l' → outcome l = outcome l'.
Proof. intros H. unfold outcome. by rewrite !(existsb_perm _ _ _ H). Qed.

Lemma mapR_perm {A B} (f : A → res B) l l' k :
  l ≡ₚ l' → mapR f l = Ok k → ∃ k', mapR f l' = Ok k' ∧ k ≡ₚ k'.
Proof.
  intros H E. apply mapR_Ok in E. revert k E.
  induction H as [|x l l' _ IH|x y l|l1 l2 l3 _ IH1 _ IH2]; intros k E.
  - apply Forall2_nil_inv_l in E as ->. by exists [].
  - apply Forall2_cons_inv_l in E as (y & k1 & Hx & E & ->). destruct (IH k1 E) as (k' & Hk & Hp).
    exists (y :: k'). split; [|by constructor]. cbn. by rewrite Hx, res_bind_ok, Hk.
  - apply Forall2_cons_inv_l in E as (a & k1 & Ha & E & ->).
    apply Forall2_cons_inv_l in E as (b & k2 & Hb & E & ->).
    exists (b :: a :: k2). split; [|constructor]. cbn. apply mapR_Ok in E.
    by rewrite Hb, res_bind_ok, Ha, !res_bind_ok, E.
  - destruct (IH1 k E) as (k1 & Hk1 & Hp1). apply mapR_Ok in Hk1.
    destruct (IH2 k1 Hk1) as (k2 & Hk2 & Hp2). exists k2. split; [done|by etrans].
Qed.

(** The summaries of a call, without the request. *)
Definition summaries_of (matches : list Capability) (context : list (pyval * pyval))
    : res (list (option CapabilityEffect * bool)) :=
  mapR (fun cap => results ← constraints_of cap context; Ok (summary cap results)) matches.

Lemma verdicts_summaries rq matches :
  match verdicts str_other float_of_str config engine semantic_binding payload_digest rq matches,
        summaries_of matches (rq_context rq) with
  | Ok vs, Ok ss => ss = summaries vs
  | Err e, Err e' => e = e'
  | _, _ => False
  end.
Proof.
  unfold verdicts, summaries_of. induction matches as [|cap l IH]; [done|]. cbn.
  destruct (constraints_of cap (rq_context rq)) as [results|e]; [|done]. rewrite !res_bind_ok.
  destruct (mapR _ l) as [vs|e], (mapR _ l) as [ss|e']; try done.
  rewrite !res_bind_ok. cbn. by rewrite IH.
Qed.

(** The outcome of a call is the outcome of its summaries. *)
Lemma decide_outcome subject resource right matches context chains d :
  run_decide subject resource right matches context chains = Ok d →
  ∃ ss, summaries_of matches context = Ok ss ∧ dec_effect d = outcome ss
    ∧ dec_allowed d = bool_decide (outcome ss = Some CapabilityEffect.ALLOW).
Proof.
  unfold CapabilityEvaluator.decide. intros E. res_simpl.
  match goal with H : verdicts _ _ _ _ _ _ ?r _ = Ok ?v |- _ => rename v into vs; set (rq := r) in *; rename H into E end.
  pose proof (verdicts_summaries rq matches) as Hs. rewrite E in Hs. cbn [rq_context rq] in Hs.
  destruct (summaries_of matches context) as [ss|e]; [|done]. subst ss.
  destruct (verdicts_Ok _ _ _ E) as (Hf & _). destruct (decide_from_spec _ _ Hf) as (He & Ha & _). eauto.
Qed.

Lemma decide_total subject resource right matches context chains ss :
  summaries_of matches context = Ok ss →
  ∃ d, run_decide subject resource right matches context chains = Ok d ∧ dec_effect d = outcome ss
    ∧ dec_allowed d = bool_decide (outcome ss = Some CapabilityEffect.ALLOW).
Proof.
  intros E. unfold CapabilityEvaluator.decide. cbn zeta. set (rq := Build_Request _ _ _ _ _ _).
  pose proof (verdicts_summaries rq matches) as Hs. cbn [rq_context rq] in Hs. rewrite E in Hs.
  destruct (verdicts _ _ _ _ _ _ rq matches) as [vs|e] eqn:Ev; [|done]. subst ss.
  rewrite res_bind_ok. eexists. split; [done|].
  destruct (verdicts_Ok _ _ _ Ev) as (Hf & _). destruct (decide_from_spec _ _ Hf) as (He & Ha & _). done.
Qed.

(** The order in which the matching capabilities are presented changes
    neither whether access is allowed nor the effect of the decision. *)
Theorem decide_order_irrelevant subject resource right matches matches' context chains d :
  matches ≡ₚ matches' →
  run_decide subject resource right matches context chains = Ok d →
  ∃ d', run_decide subject resource right matches' context chains = Ok d'
    ∧ dec_effect d' = dec_effect d ∧ dec_allowed d' = dec_allowed d.
Proof.
  intros Hp E. destruct (decide_outcome _ _ _ _ _ _ _ E) as (ss & Hs & He & Ha).
  destruct (mapR_perm _ _ _ _ Hp Hs) as (ss' & Hs' & Hpp).
  destruct (decide_total subject resource right matches' context chains ss' Hs') as (d' & Hd & He' & Ha').
  exists d'. rewrite He, Ha, He', Ha', (outcome_perm _ _ Hpp). done.
Qed.
End Decide.

(** ** Concrete calls *)

Module Samples.
Definition cap (id : string) (effect : CapabilityEffect) (constraints : list (string * pyval)) : Capability :=
  {| cap_id := id; cap_subject := "p1"; cap_resource := "shell:*"; cap_rights := ["execute"];
     cap_constraints := constraints; cap_issued_by := "host"; cap_issued_at := "2026-01-01T00:00:00Z";
     cap_expires_at := None; cap_delegable := false; cap_revocable := true; cap_effect := effect;
     cap_issuer_cap_id := None; cap_parent_cap_id := None; cap_delegation_depth := 0;
     cap_max_delegation_depth := None; cap_uses_remaining := Some 3%Z;
     cap_status := CapabilityStatus.ACTIVE; cap_metadata := [] |}.

Definition rule (effect pattern : string) : pyval :=
  PDict [(PStr "rule_id", PStr "r1"); (PStr "operation", PStr "shell.run");
         (PStr "effect", PStr effect); (PStr "conditions", PDict [(PStr "regex_token", PStr pattern)])].

Definition rules (effect pattern : string) : string * pyval :=
  (AUTHORITY_RULES_KEY, PList [rule effect pattern]).

Definition context : list (pyval * pyval) :=
  [(PStr "operation", PStr "shell.run"); (PStr "argv", PList [PStr "ls"; PStr "-l"])].

Definition config : RegexConfig := {| regex_pattern_max_bytes := 100; regex_token_max_bytes := 100 |}.

(** A pattern is the text it matches; "slow" times out, and given time matches
    everything. *)
Definition literal (timeout : bool) : RegexEngine :=
  {| regex_compiles _ := true;
     regex_fullmatch _ p t := if String.eqb p "slow" then (if timeout then None else Some true)
                              else Some (String.eqb p t) |}.

Definition decide (engine : RegexEngine) (caps : list Capability) : res CapabilityDecision :=
  CapabilityEvaluator.decide (fun _ => "") (fun _ => None) config engine Ok (fun _ => Ok "")
    "p1" "shell:ls" "execute" caps context (fun _ => []).
End Samples.

Lemma decide_allowed_sound_witness :
  ∃ d, Samples.decide (Samples.literal true)
         [Samples.cap "c1" CapabilityEffect.ALLOW [Samples.rules "allow" "ls"];
          Samples.cap "c2" CapabilityEffect.DENY [Samples.rules "deny" "rm"]] = Ok d
    ∧ dec_effect d = Some CapabilityEffect.ALLOW.
Proof.
  eexists. split; [vm_compute; reflexivity|].
  refine (proj1 (decide_allowed_sound (fun _ => "") (fun _ => None) Samples.config (Samples.literal true)
    Ok (fun _ => Ok "") "p1" "shell:ls" "execute"
    [Samples.cap "c1" CapabilityEffect.ALLOW [Samples.rules "allow" "ls"];
     Samples.cap "c2" CapabilityEffect.DENY [Samples.rules "deny" "rm"]]
    Samples.context (fun _ => []) _ _ _)); [vm_compute; reflexivity|reflexivity].
Defined.

Lemma decide_order_irrelevant_witness :
  let caps := [Samples.cap "c1" CapabilityEffect.ALLOW [];
               Samples.cap "c2" CapabilityEffect.ASK [Samples.rules "allow" "ls"]] in
  ∃ d, Samples.decide (Samples.literal true) caps = Ok d
    ∧ dec_effect d = Some CapabilityEffect.ASK
    ∧ ∃ d', Samples.decide (Samples.literal true) (reverse caps) = Ok d'
        ∧ dec_effect d' = dec_effect d ∧ dec_allowed d' = dec_allowed d.
Proof.
  intros caps. eexists. split; [vm_compute; reflexivity|]. split; [reflexivity|].
  refine (decide_order_irrelevant (fun _ => "") (fun _ => None) Samples.config (Samples.literal true)
    Ok (fun _ => Ok "") "p1" "shell:ls" "execute" caps (reverse caps) Samples.context (fun _ => []) _ _ _).
  - symmetry. apply reverse_Permutation.
  - vm_compute. reflexivity.
Defined.
