(* ===== verification/RegexTimeouts.v ===== *)
(** * Regex timeouts are conservative

    [engine'] answers wherever [engine] answers, and agrees with it: it is the
    same engine with more time.  An evaluation that allows access although
    some matches timed out would also have allowed it with more time, provided
    no DENY or ASK capability is scoped by an ALLOW rule with a regex.  Outside
    that proviso a timeout can drop a DENY capability (last lemma). *)

From S2P Require Import Prelude PyStr PyVal PyEnum CapabilityModel AuthorityRules DataRelease CapabilityEvaluator EvaluatorProperties.
From stdpp Require Import sorting.

Definition engine_refines (engine engine' : RegexEngine) : Prop :=
  (∀ p, regex_compiles engine' p = regex_compiles engine p)
  ∧ ∀ i p t b, regex_fullmatch engine i p t = Some b → regex_fullmatch engine' i p t = Some b.

Definition has_regex (r : AuthorityRule) : Prop := dict_get (rule_conditions r) "regex_token" ≠ None.

(** An ALLOW rule with a regex, the one kind a timeout can lose. *)
Definition allow_regex (r : AuthorityRule) : Prop :=
  rule_effect r = CapabilityEffect.ALLOW ∧ has_regex r.

Section Refinement.
Variable str_other : pyval → string.
Variable float_of_str : string → option spec_float.
Variable config : RegexConfig.
Variables engine engine' : RegexEngine.
Hypothesis Href : engine_refines engine engine'.

Lemma valid_regex_same v : _valid_regex config engine' v = _valid_regex config engine v.
Proof. unfold _valid_regex. destruct v; try done. by rewrite (proj1 Href). Qed.

Lemma match_tokens_refines p i ts b :
  match_tokens engine p i ts = Some b → match_tokens engine' p i ts = Some b.
Proof.
  revert i. induction ts as [|t ts IH]; intros i; cbn; [done|].
  destruct (regex_fullmatch engine i p t) as [[]|] eqn:E; [..|done];
    rewrite (proj2 Href _ _ _ _ E); [done|]. apply IH.
Qed.

Lemma regex_condition_refines c ctx b :
  regex_condition config engine c ctx = Some b → regex_condition config engine' c ctx = Some b.
Proof.
  unfold regex_condition. destruct (dict_get_none c "regex_token"); try done.
  rewrite valid_regex_same. destruct (negb _); [done|].
  destruct (dict_get_none ctx "argv"); try done. unfold _regex_matches_any_token.
  destruct (select_tokens config l); [|done]. apply match_tokens_refines.
Qed.

(** A rule matches under the two engines alike, except that a timeout makes a
    restrictive rule match and an ALLOW rule miss. *)
Definition match_le (r : AuthorityRule) (b b' : bool) : Prop :=
  b = b' ∨ has_regex r ∧ b = is_restrictive (rule_effect r).

Lemma rule_matches_refines r ctx b :
  _authority_rule_matches str_other float_of_str config engine r ctx = Ok b →
  ∃ b', _authority_rule_matches str_other float_of_str config engine' r ctx = Ok b' ∧ match_le r b b'.
Proof.
  unfold _authority_rule_matches. intros E.
  destruct (text_differs _ _ _ "operation"); [eexists; split; [exact E|by left]|].
  destruct (text_differs _ _ _ "authority_operation"); [eexists; split; [exact E|by left]|].
  destruct (_ && _); [eexists; split; [exact E|by left]|].
  pose proof (regex_condition_refines (rule_conditions r) ctx) as Hr.
  destruct (regex_condition config engine (rule_conditions r) ctx) as [v|] eqn:Ev.
  - rewrite (Hr v eq_refl). eexists. split; [exact E|by left].
  - assert (Hreg : has_regex r).
    { unfold has_regex. intros Hn. unfold regex_condition, dict_get_none in Ev. by rewrite Hn in Ev. }
    destruct (existsb _ _).
    { injection E as <-. exists false. destruct (regex_condition config engine' _ _) as [[]|]; (split; [done|by left]). }
    destruct (_timeout_conditions_match _ _ _) as [t|]; [|done]. cbn in E. injection E as <-.
    destruct (regex_condition config engine' (rule_conditions r) ctx) as [[]|]; cbn.
    + eexists. split; [done|]. destruct t; cbn; [right; done|by left].
    + eexists. split; [done|]. destruct t; cbn; [right; done|by left].
    + eexists. split; [done|]. by left.
Qed.

Lemma condition_error_same r op :
  rule_condition_error str_other float_of_str config engine' r op
  = rule_condition_error str_other float_of_str config engine r op.
Proof.
  unfold rule_condition_error, _malformed_authority_rule_conditions.
  destruct (dict_get (rule_conditions r) "regex_token"); [by rewrite valid_regex_same|done].
Qed.

Definition scan_le (rules : list AuthorityRule) (x x' : ConstraintResult + list AuthorityRule) : Prop :=
  match x, x' with
  | inl c, inl c' => c = c'
  | inr ms, inr ms' =>
      (∀ r, r ∈ ms' → is_restrictive (rule_effect r) = true → r ∈ ms)
      ∧ (∀ r, r ∈ ms → rule_effect r = CapabilityEffect.ALLOW → r ∈ ms')
      ∧ (∀ r, r ∈ ms' → r ∈ ms ∨ r ∈ rules ∧ allow_regex r)
  | _, _ => False
  end.

Lemma scan_refines rules op ctx x :
  scan_rules str_other float_of_str config engine rules op ctx = Ok x →
  ∃ x', scan_rules str_other float_of_str config engine' rules op ctx = Ok x' ∧ scan_le rules x x'.
Proof.
  revert x. induction rules as [|r rest IH]; intros x E; cbn in E |- *.
  { injection E as <-. eexists. split; [done|]. cbn. set_solver. }
  assert (Hw : ∀ y y', scan_le rest y y' → scan_le (r :: rest) y y').
  { intros [|] [|]; cbn; try done. intros (H1 & H2 & H3). split_and!; [done..|].
    intros r' Hr'. destruct (H3 r' Hr') as [?|[??]]; [by left|right; split; [by right|done]]. }
  destruct (negb _); [destruct (IH x E) as (x' & Ex & Hx); eauto|].
  rewrite condition_error_same. destruct (rule_condition_error _ _ _ _ _ _) as [[c|]|]; [| |done];
    rewrite ?res_bind_ok in E |- *.
  { injection E as <-. by eexists. }
  destruct (_authority_rule_matches _ _ _ engine r ctx) as [b|] eqn:Eb; [|done].
  destruct (rule_matches_refines _ _ _ Eb) as (b' & -> & Hb). rewrite res_bind_ok in E |- *.
  destruct (scan_rules _ _ _ engine rest op ctx) as [y|]; [|done].
  destruct (IH y eq_refl) as (y' & -> & Hy). rewrite res_bind_ok in E |- *. injection E as <-.
  eexists. split; [done|]. destruct y as [c|ms], y' as [c'|ms']; cbn in Hy; try done.
  destruct Hy as (H1 & H2 & H3). unfold match_le in Hb. cbn.
  destruct b, b'; cbn.
  - split_and!; intros r'; rewrite ?elem_of_cons; naive_solver.
  - destruct Hb as [|[_ Hb]]; [done|]. split_and!; intros r'; rewrite ?elem_of_cons.
    + naive_solver.
    + intros [->|Hr'] He; [by rewrite He in Hb|auto].
    + intros Hr'. destruct (H3 r' Hr') as [?|[??]]; [by left; right|right; split; [by right|done]].
  - destruct Hb as [|[Hreg Hb]]; [done|]. symmetry in Hb. split_and!; intros r'; rewrite ?elem_of_cons.
    + intros [->|Hr'] He; [congruence|auto].
    + naive_solver.
    + intros [->|Hr'].
      * right. split; [by left|]. split; [|done]. by destruct (rule_effect r).
      * destruct (H3 r' Hr') as [?|[??]]; [by left|right; split; [by right|done]].
  - split_and!; intros r'; rewrite ?elem_of_cons; naive_solver.
Qed.

(** ** The result of the rule constraint *)

Definition is_miss (c : ConstraintResult) : Prop :=
  cr_ok c = false ∧ cr_effect c = None ∧ cr_reason c = Some NO_RULE_MATCHED.

(** [lost]: some ALLOW rule with a regex exists. *)
Inductive result_le (lost : Prop) (c c' : ConstraintResult) : Prop :=
| le_same : c = c' → result_le lost c c'
| le_deny : cr_effect c = Some "deny" → result_le lost c c'
| le_ask : cr_effect c = Some "ask" → cr_ok c = true →
    (cr_ok c' = true ∧ (cr_effect c' = Some "ask" ∨ cr_effect c' = Some "allow") ∨ is_miss c') →
    result_le lost c c'
| le_allow : cr_effect c = Some "allow" → cr_ok c = true → cr_effect c' = Some "allow" →
    cr_ok c' = true → result_le lost c c'
| le_miss : is_miss c → is_miss c' ∨ (lost ∧ cr_ok c' = true ∧ cr_effect c' = Some "allow") →
    result_le lost c c'.

Definition has_rule (e : CapabilityEffect) (ms : list AuthorityRule) : Prop :=
  ∃ r, r ∈ ms ∧ rule_effect r = e.

Lemma first_with_Some e ms r : first_with e ms = Some r → r ∈ ms ∧ rule_effect r = e.
Proof.
  unfold first_with. intros F. apply List.find_some in F as [Hin He].
  apply bool_decide_eq_true in He. by rewrite list_elem_of_In.
Qed.

Lemma first_with_None e ms : first_with e ms = None → ¬ has_rule e ms.
Proof.
  unfold first_with. intros F (r & Hr & He). eapply List.find_none in F; [|by apply list_elem_of_In].
  by rewrite bool_decide_true in F.
Qed.

Lemma selected_effect first rest :
  let ms := first :: rest in
  match rule_effect (selected_rule first ms) with
  | CapabilityEffect.DENY => has_rule CapabilityEffect.DENY ms
  | CapabilityEffect.ASK => has_rule CapabilityEffect.ASK ms ∧ ¬ has_rule CapabilityEffect.DENY ms
  | CapabilityEffect.ALLOW => has_rule CapabilityEffect.ALLOW ms
      ∧ ¬ has_rule CapabilityEffect.DENY ms ∧ ¬ has_rule CapabilityEffect.ASK ms
  end.
Proof.
  intros ms. unfold selected_rule. destruct (first_with CapabilityEffect.DENY ms) as [r|] eqn:ED; cbn [default from_option id].
  - apply first_with_Some in ED as [Hr He]. rewrite He. by exists r.
  - apply first_with_None in ED. destruct (first_with CapabilityEffect.ASK ms) as [r|] eqn:EA; cbn [default from_option id].
    + apply first_with_Some in EA as [Hr He]. rewrite He. split; [by exists r|done].
    + apply first_with_None in EA. destruct (rule_effect first) eqn:Ef.
      * split_and!; [by exists first; split; [left|]|done..].
      * destruct ED. exists first. by split; [left|].
      * destruct EA. exists first. by split; [left|].
Qed.

Lemma rule_result_ok r op : cr_ok (rule_result r op) = negb (bool_decide (rule_effect r = CapabilityEffect.DENY)).
Proof. done. Qed.

Lemma rule_result_effect r op : cr_effect (rule_result r op) = Some (enum_value (rule_effect r)).
Proof. done. Qed.

Lemma evaluate_rules_refines rules ctx c :
  _evaluate_authority_rules str_other float_of_str config engine rules ctx = Ok c →
  ∃ c', _evaluate_authority_rules str_other float_of_str config engine' rules ctx = Ok c'
    ∧ result_le (∃ r, r ∈ rules ∧ allow_regex r) c c'.
Proof.
  unfold _evaluate_authority_rules. destruct (String.eqb _ ""); [intros E; eexists; split; [exact E|by apply le_same]|].
  destruct (scan_rules _ _ _ engine rules _ ctx) as [x|] eqn:Ex; [|done].
  destruct (scan_refines _ _ _ _ Ex) as (x' & -> & Hx). rewrite !res_bind_ok.
  destruct x as [e|ms], x' as [e'|ms']; cbn in Hx; try done.
  { subst e'. intros E. eexists. split; [exact E|by apply le_same]. }
  destruct Hx as (H1 & H2 & H3).
  assert (Hdeny : has_rule CapabilityEffect.DENY ms' → has_rule CapabilityEffect.DENY ms).
  { intros (r & Hr & He). exists r. split; [|done]. apply H1; [done|by rewrite He]. }
  assert (Hask : has_rule CapabilityEffect.ASK ms' → has_rule CapabilityEffect.ASK ms).
  { intros (r & Hr & He). exists r. split; [|done]. apply H1; [done|by rewrite He]. }
  assert (Hallow : has_rule CapabilityEffect.ALLOW ms → has_rule CapabilityEffect.ALLOW ms').
  { intros (r & Hr & He). exists r. split; [by apply H2|done]. }
  destruct ms as [|m ms], ms' as [|m' ms']; intros [= <-]; (eexists; split; [done|]).
  - by apply le_same.
  - apply le_miss; [done|]. right. rewrite rule_result_ok, rule_result_effect.
    pose proof (selected_effect m' ms') as Hs. cbn zeta in Hs.
    assert (Hno : ∀ e, ¬ has_rule e []) by (intros e (r & Hr & _); by apply elem_of_nil in Hr).
    destruct (rule_effect (selected_rule m' (m' :: ms'))).
    + split; [|done]. destruct (H3 m' ltac:(left)) as [Hr|[??]]; [by apply elem_of_nil in Hr|eauto].
    + destruct (Hno _ (Hdeny Hs)).
    + destruct (Hno _ (Hask (proj1 Hs))).
  - pose proof (selected_effect m ms) as Hs. cbn zeta in Hs.
    destruct (rule_effect (selected_rule m (m :: ms))) eqn:Es.
    + destruct Hs as [Hs _]. apply Hallow in Hs as (r & Hr & _). by apply elem_of_nil in Hr.
    + apply le_deny. by rewrite rule_result_effect, Es.
    + apply le_ask; rewrite ?rule_result_ok, ?rule_result_effect, ?Es; [done..|by right].
  - pose proof (selected_effect m ms) as Hs. pose proof (selected_effect m' ms') as Hs'.
    cbn zeta in Hs, Hs'. destruct (rule_effect (selected_rule m (m :: ms))) eqn:Es.
    + destruct Hs as (_ & Hnd & Hna). apply le_allow; rewrite ?rule_result_ok, ?rule_result_effect, ?Es;
        try done; destruct (rule_effect (selected_rule m' (m' :: ms'))); try done;
        destruct (Hnd (Hdeny Hs')) || destruct (Hna (Hask (proj1 Hs'))).
    + apply le_deny. by rewrite rule_result_effect, Es.
    + destruct Hs as (_ & Hnd). apply le_ask; rewrite ?rule_result_ok, ?rule_result_effect, ?Es; [done..|].
      left. destruct (rule_effect (selected_rule m' (m' :: ms'))).
      * split; [done|by right].
      * destruct (Hnd (Hdeny Hs')).
      * split; [done|by left].
Qed.

Lemma rule_constraint_refines value ctx c :
  _evaluate_rule_constraint str_other float_of_str config engine value ctx = Ok c →
  ∃ c', _evaluate_rule_constraint str_other float_of_str config engine' value ctx = Ok c'
    ∧ result_le (∃ rules r, coerce_many str_other value = Ok rules ∧ r ∈ rules ∧ allow_regex r) c c'.
Proof.
  unfold _evaluate_rule_constraint. intros E. destruct (coerce_many str_other value) as [rules|e] eqn:Ec.
  - destruct (evaluate_rules_refines _ _ _ E) as (c' & Ec' & Hle). exists c'. split; [done|].
    inversion Hle; [by apply le_same|by apply le_deny|by apply le_ask|by apply le_allow|].
    apply le_miss; [done|]. naive_solver.
  - exists c. split; [exact E|by apply le_same].
Qed.

(** ** All constraints of a capability *)

Variable semantic_binding : list (pyval * pyval) → res (list (pyval * pyval)).
Variable payload_digest : list (string * pyval) → res string.

Abbreviation eval_with e := (evaluate_constraint str_other float_of_str config e semantic_binding payload_digest).
Abbreviation constraints_with e := (evaluate_constraints str_other float_of_str config e semantic_binding payload_digest).

(** Only the rule constraint consults the engine or reports an effect. *)
Lemma eval_other key value ctx :
  key ≠ AUTHORITY_RULES_KEY →
  eval_with engine' key value ctx = eval_with engine key value ctx
  ∧ ∀ r, eval_with engine key value ctx = Ok r → cr_effect r = None.
Proof.
  intros Hk. apply String.eqb_neq in Hk. unfold evaluate_constraint. rewrite Hk. split; [done|].
  intros r. case_bool_decide; cbn [negb]; [|by intros [= <-]].
  repeat match goal with |- (if String.eqb key ?k then _ else _) = Ok _ → _ => destruct (String.eqb key k) end;
    try (by intros [= <-]).
  - unfold _evaluate_approval_binding. intros E.
    destruct (normalize_approval_binding semantic_binding value) as [b|[]]; res_simpl; done.
  - unfold _evaluate_data_release_binding. intros E.
    destruct (_ ≫= _) as [[]|[]]; by simplify_eq/=.
Qed.

Definition plain (kr : string * ConstraintResult) : Prop :=
  fst kr ≠ AUTHORITY_RULES_KEY ∧ cr_effect (snd kr) = None.

(** A capability with a rule an engine can lose. *)
Definition loses_rules (cap : Capability) : Prop :=
  ∃ value rules r, (AUTHORITY_RULES_KEY, value) ∈ cap_constraints cap
    ∧ coerce_many str_other value = Ok rules ∧ r ∈ rules ∧ allow_regex r.

Inductive results_le (lost : Prop) : list (string * ConstraintResult) → list (string * ConstraintResult) → Prop :=
| same_results rs : results_le lost rs rs
| rules_differ l1 c c' l2 : Forall plain l1 → Forall plain l2 → result_le lost c c' →
    results_le lost (l1 ++ (AUTHORITY_RULES_KEY, c) :: l2) (l1 ++ (AUTHORITY_RULES_KEY, c') :: l2).

Lemma eval_plain kvs ctx rs :
  AUTHORITY_RULES_KEY ∉ map fst kvs →
  mapR (fun kv => r ← eval_with engine (fst kv) (snd kv) ctx; Ok (fst kv, r)) kvs = Ok rs →
  mapR (fun kv => r ← eval_with engine' (fst kv) (snd kv) ctx; Ok (fst kv, r)) kvs = Ok rs
  ∧ Forall plain rs.
Proof.
  intros Hn E. apply mapR_Ok in E. rewrite mapR_Ok.
  induction E as [|[k v] [k' r] kvs rs Hr _ IH]; [done|]. cbn [map fst] in Hn.
  apply not_elem_of_cons in Hn as [Hk Hn]. destruct (IH Hn) as [IH1 IH2].
  cbn [fst snd] in Hr. destruct (eval_other k v ctx ltac:(congruence)) as [Es Hp].
  apply bind_Ok in Hr as (r0 & Hr & [= <- <-]). split; constructor; try done.
  - cbn [fst snd]. by rewrite Es, Hr.
  - split; [cbn; congruence|]. by apply (Hp _ Hr).
Qed.

Lemma constraints_refine cap ctx rs :
  NoDup (map fst (cap_constraints cap)) → constraints_with engine cap ctx = Ok rs →
  ∃ rs', constraints_with engine' cap ctx = Ok rs' ∧ results_le (loses_rules cap) rs rs'.
Proof.
  unfold evaluate_constraints, loses_rules. generalize (cap_constraints cap). intros kvs Hnd E.
  destruct (decide (AUTHORITY_RULES_KEY ∈ map fst kvs)) as [Hin|Hn].
  2: { destruct (eval_plain kvs ctx rs Hn E) as [E' _]. exists rs. split; [done|constructor]. }
  apply list_elem_of_fmap in Hin as ([k v] & Hk & Hin). cbn in Hk. subst k.
  apply list_elem_of_split in Hin as (k1 & k2 & ->). rewrite map_app in Hnd. cbn [map fst] in Hnd.
  apply NoDup_app in Hnd as (_ & Hd & Hnd2). apply NoDup_cons in Hnd2 as [Hn2 _].
  assert (Hn1 : AUTHORITY_RULES_KEY ∉ map fst k1) by (intros H; eapply Hd; [exact H|left]).
  apply mapR_Ok in E. apply Forall2_app_inv_l in E as (l1 & l2' & E1 & E2 & ->).
  apply Forall2_cons_inv_l in E2 as ([k c] & l2 & Ec & E2 & ->). cbn [fst snd] in Ec.
  apply bind_Ok in Ec as (c0 & Ec & [= <- <-]).
  apply mapR_Ok in E1, E2.
  destruct (eval_plain k1 ctx l1 Hn1 E1) as [E1' P1]. destruct (eval_plain k2 ctx l2 Hn2 E2) as [E2' P2].
  destruct (rule_constraint_refines v ctx c0 Ec) as (c' & Ec' & Hle).
  exists (l1 ++ (AUTHORITY_RULES_KEY, c') :: l2). split.
  - apply mapR_Ok. apply mapR_Ok in E1', E2'. apply Forall2_app; [done|]. constructor; [|done].
    cbn [fst snd]. change (eval_with engine' AUTHORITY_RULES_KEY v ctx)
      with (_evaluate_rule_constraint str_other float_of_str config engine' v ctx).
    by rewrite Ec'.
  - apply rules_differ; [done..|].
    inversion Hle; [by apply le_same|by apply le_deny|by apply le_ask|by apply le_allow|].
    apply le_miss; [done|].
    match goal with H : _ ∨ _ |- _ => destruct H as [?|[(rules & r & ? & ? & ?) ?]]; [by left|right] end.
    split; [|done]. exists v, rules, r. split_and!; try done. set_solver.
Qed.
End Refinement.

(** ** The verdict of one capability *)

(** With one rule result [c] among plain results that all hold or not. *)
Definition core_verdict (effect : CapabilityEffect) (others_ok : bool) (c : ConstraintResult)
    : option CapabilityEffect :=
  let ok := others_ok && cr_ok c in
  if bool_decide (cr_effect c = Some "deny")
     || negb ok && is_restrictive effect
        && negb (others_ok && negb (cr_ok c) && bool_decide (cr_reason c = Some NO_RULE_MATCHED))
  then Some CapabilityEffect.DENY
  else if negb ok then None
  else match effect with
  | CapabilityEffect.DENY => Some CapabilityEffect.DENY
  | e => if bool_decide (e = CapabilityEffect.ASK) || bool_decide (cr_effect c = Some "ask")
         then Some CapabilityEffect.ASK else Some e
  end.

Lemma find_effect (f : CapabilityEffect → bool) :
  List.find f [CapabilityEffect.DENY; CapabilityEffect.ASK; CapabilityEffect.ALLOW]
  = if f CapabilityEffect.DENY then Some CapabilityEffect.DENY
    else if f CapabilityEffect.ASK then Some CapabilityEffect.ASK
    else if f CapabilityEffect.ALLOW then Some CapabilityEffect.ALLOW else None.
Proof. done. Qed.

Lemma plain_effect l s :
  Forall plain l → existsb (fun kr => bool_decide (cr_effect (snd kr) = Some s)) l = false.
Proof.
  induction 1 as [|[k r] l [_ He] _ IH]; [done|]. cbn in *. by rewrite He, IH.
Qed.

Lemma rules_effect l1 c l2 :
  Forall plain l1 → Forall plain l2 →
  constraint_effect (l1 ++ (AUTHORITY_RULES_KEY, c) :: l2)
  = if bool_decide (cr_effect c = Some "deny") then Some CapabilityEffect.DENY
    else if bool_decide (cr_effect c = Some "ask") then Some CapabilityEffect.ASK
    else if bool_decide (cr_effect c = Some "allow") then Some CapabilityEffect.ALLOW else None.
Proof.
  intros P1 P2. unfold constraint_effect. rewrite find_effect, !existsb_app. cbn [existsb snd].
  by rewrite !plain_effect, !orb_false_r by done.
Qed.

Lemma plain_failures l :
  Forall plain l →
  List.filter (fun kr : string * ConstraintResult => negb (cr_ok (snd kr))) l = []
    ∧ all_ok l = true
  ∨ (∃ x rest, List.filter (fun kr : string * ConstraintResult => negb (cr_ok (snd kr))) l = x :: rest
      ∧ fst x ≠ AUTHORITY_RULES_KEY) ∧ all_ok l = false.
Proof.
  induction 1 as [|[k r] l [Hk _] _ IH]; [by left|]. cbn in *.
  destruct (cr_ok r); cbn; [exact IH|]. right. eauto.
Qed.

Lemma rules_miss l1 c l2 :
  Forall plain l1 → Forall plain l2 →
  constraint_failure_is_scoped_miss (l1 ++ (AUTHORITY_RULES_KEY, c) :: l2)
  = all_ok (l1 ++ l2) && negb (cr_ok c) && bool_decide (cr_reason c = Some NO_RULE_MATCHED).
Proof.
  intros P1 P2. unfold constraint_failure_is_scoped_miss, all_ok.
  rewrite List.filter_app, forallb_app. cbn [List.filter snd]. fold (all_ok l1). fold (all_ok l2).
  destruct (plain_failures l1 P1) as [[-> ->]|[(x & r1 & -> & Hx) ->]],
    (plain_failures l2 P2) as [[-> ->]|[(y & r2 & -> & Hy) ->]]; destruct (cr_ok c); cbn [negb andb app]; try done.
  - destruct y as [k r]. destruct r2; [|done]. cbn in Hy. by apply String.eqb_neq in Hy as ->.
  - destruct x as [k r]. rewrite app_nil_r. destruct r1; [|done]. cbn in Hx. by apply String.eqb_neq in Hx as ->.
  - destruct x as [k r]. by destruct r1.
  - destruct x as [k r]. by destruct r1.
  - destruct x as [k r]. by destruct r1.
Qed.

Lemma rules_verdict cap l1 c l2 :
  Forall plain l1 → Forall plain l2 →
  verdict_effect cap (l1 ++ (AUTHORITY_RULES_KEY, c) :: l2)
  = core_verdict (cap_effect cap) (all_ok (l1 ++ l2)) c.
Proof.
  intros P1 P2. unfold verdict_effect, core_verdict.
  rewrite rules_effect, rules_miss by done.
  assert (all_ok (l1 ++ (AUTHORITY_RULES_KEY, c) :: l2) = all_ok (l1 ++ l2) && cr_ok c) as ->.
  { unfold all_ok. rewrite !forallb_app. cbn [forallb snd]. rewrite (andb_comm (cr_ok c)).
    by rewrite andb_assoc. }
  repeat case_bool_decide; try done; try congruence;
    by destruct (cap_effect cap), (all_ok (l1 ++ l2)), (cr_ok c).
Qed.

(** More time never turns an allowing or absent verdict into a stricter one. *)
Lemma core_step lost effect A c c' :
  result_le lost c c' → (is_restrictive effect = true → ¬ lost) →
  core_verdict effect A c ≠ Some CapabilityEffect.DENY →
  core_verdict effect A c' ≠ Some CapabilityEffect.DENY
  ∧ (core_verdict effect A c = Some CapabilityEffect.ALLOW →
     core_verdict effect A c' = Some CapabilityEffect.ALLOW)
  ∧ (core_verdict effect A c' = Some CapabilityEffect.ASK →
     core_verdict effect A c = Some CapabilityEffect.ASK).
Proof.
  intros Hle Hlost. unfold core_verdict.
  destruct Hle as [<-|Hd|He Ho Hc|He Ho He' Ho'|[Ho [He Hr]] Hc].
  - done.
  - by rewrite (bool_decide_true _ Hd).
  - rewrite He, Ho. destruct Hc as [[Ho' [He'|He']]|(Ho' & He' & Hr')]; rewrite Ho', He', ?Hr';
      by destruct effect, A.
  - rewrite He, Ho, He', Ho'. by destruct effect, A.
  - rewrite He, Ho, Hr. destruct Hc as [(Ho' & He' & Hr')|(Hl & Ho' & He')]; rewrite Ho', He', ?Hr';
      destruct effect, A; try done; by destruct (Hlost eq_refl).
Qed.

Lemma rules_result_of l1 c c' l2 :
  result_of (l1 ++ (AUTHORITY_RULES_KEY, c) :: l2) APPROVAL_BINDING_KEY
  = result_of (l1 ++ (AUTHORITY_RULES_KEY, c') :: l2) APPROVAL_BINDING_KEY.
Proof.
  unfold result_of. induction l1 as [|[k r] l1 IH]; cbn [app List.find fst]; [done|].
  by destruct (String.eqb k APPROVAL_BINDING_KEY).
Qed.

(** ** Summaries and outcome *)

Definition summary_le (s s' : option CapabilityEffect * bool) : Prop :=
  fst s ≠ Some CapabilityEffect.DENY →
  fst s' ≠ Some CapabilityEffect.DENY
  ∧ (fst s = Some CapabilityEffect.ALLOW → fst s' = Some CapabilityEffect.ALLOW)
  ∧ (fst s' = Some CapabilityEffect.ASK → fst s = Some CapabilityEffect.ASK)
  ∧ (snd s = true → snd s' = true).

Lemma summary_step lost cap rs rs' :
  results_le lost rs rs' → (is_restrictive (cap_effect cap) = true → ¬ lost) →
  summary_le (summary cap rs) (summary cap rs').
Proof.
  intros Hle Hlost. destruct Hle as [rs|l1 c c' l2 P1 P2 Hle]; [by intros ?; split_and!|].
  unfold summary_le, summary, approved_once. cbn [fst snd]. rewrite !rules_verdict by done. intros Hd.
  destruct (core_step _ _ (all_ok (l1 ++ l2)) _ _ Hle Hlost Hd) as (H1 & H2 & H3). split_and!; [done..|].
  rewrite (rules_result_of l1 c c' l2). intros H. apply andb_true_iff in H as [H ->].
  apply andb_true_iff in H as [H ->]. apply bool_decide_eq_true in H. rewrite (H2 H).
  by rewrite bool_decide_true.
Qed.

Lemma has_effect_Forall2 ss ss' (f f' : option CapabilityEffect * bool → bool) :
  Forall2 (fun s s' => f s = true → f' s' = true) ss ss' → existsb f ss = true → existsb f' ss' = true.
Proof.
  induction 1 as [|s s' ss ss' H _ IH]; [done|]. cbn. rewrite !orb_true_iff. naive_solver.
Qed.

Lemma outcome_step ss ss' :
  Forall2 summary_le ss ss' → outcome ss = Some CapabilityEffect.ALLOW →
  outcome ss' = Some CapabilityEffect.ALLOW.
Proof.
  intros HF Ho. destruct (outcome_allow _ Ho) as [Hd Hask].
  assert (HF' : Forall2 (fun s s' => fst s ≠ Some CapabilityEffect.DENY ∧ summary_le s s') ss ss').
  { clear Ho Hask. induction HF as [|s s' ss ss' H _ IH]; constructor.
    - split; [|done]. cbn in Hd. apply orb_false_iff in Hd as [Hd _]. by apply bool_decide_eq_false in Hd.
    - apply IH. cbn in Hd. by apply orb_false_iff in Hd as [_ Hd]. }
  assert (Hnd : existsb (fun s => bool_decide (fst s = Some CapabilityEffect.DENY)) ss' = false).
  { clear -HF'. induction HF' as [|s s' ss ss' [Hs H] _ IH]; [done|]. cbn. rewrite IH.
    rewrite bool_decide_false; [done|]. by destruct (H Hs). }
  assert (Hshot : existsb snd ss = true → existsb snd ss' = true).
  { apply has_effect_Forall2. eapply Forall2_impl; [exact HF'|]. intros s s' [Hs H]. by apply H. }
  assert (Hasks : existsb (fun s => bool_decide (fst s = Some CapabilityEffect.ASK)) ss' = true →
            existsb (fun s => bool_decide (fst s = Some CapabilityEffect.ASK)) ss = true).
  { apply has_effect_Forall2. apply Forall2_flip. eapply Forall2_impl; [exact HF'|].
    intros s s' [Hs H] E. apply bool_decide_eq_true in E. apply bool_decide_eq_true. by apply H. }
  assert (Hallow : existsb (fun s => bool_decide (fst s = Some CapabilityEffect.ALLOW)) ss = true →
            existsb (fun s => bool_decide (fst s = Some CapabilityEffect.ALLOW)) ss' = true).
  { apply has_effect_Forall2. eapply Forall2_impl; [exact HF'|].
    intros s s' [Hs H] E. apply bool_decide_eq_true in E. apply bool_decide_eq_true. by apply H. }
  unfold outcome in Ho |- *. rewrite Hnd. rewrite Hd in Ho.
  destruct (existsb snd ss'); [done|]. destruct (existsb snd ss); [by specialize (Hshot eq_refl)|].
  destruct (existsb _ ss') eqn:E1 in |- *.
  - destruct (existsb (fun s => bool_decide (fst s = Some CapabilityEffect.ASK)) ss); [done|].
    by specialize (Hasks E1).
  - destruct (existsb (fun s => bool_decide (fst s = Some CapabilityEffect.ASK)) ss); [done|].
    destruct (existsb (fun s => bool_decide (fst s = Some CapabilityEffect.ALLOW)) ss); [|done].
    by rewrite Hallow.
Qed.

(** ** The property *)

Section Conservative.
Variable str_other : pyval → string.
Variable float_of_str : string → option spec_float.
Variable config : RegexConfig.
Variables engine engine' : RegexEngine.
Variable semantic_binding : list (pyval * pyval) → res (list (pyval * pyval)).
Variable payload_digest : list (string * pyval) → res string.

Abbreviation decide_with e :=
  (CapabilityEvaluator.decide str_other float_of_str config e semantic_binding payload_digest).
Abbreviation summaries_with e :=
  (summaries_of str_other float_of_str config e semantic_binding payload_digest).

Definition constraint_keys_distinct (cap : Capability) : Prop := NoDup (map fst (cap_constraints cap)).

Lemma summaries_step matches context ss :
  engine_refines engine engine' →
  (∀ cap, cap ∈ matches → constraint_keys_distinct cap) →
  (∀ cap, cap ∈ matches → is_restrictive (cap_effect cap) = true → ¬ loses_rules str_other cap) →
  summaries_with engine matches context = Ok ss →
  ∃ ss', summaries_with engine' matches context = Ok ss' ∧ Forall2 summary_le ss ss'.
Proof.
  intros Href Hnd Hlost E. apply mapR_Ok in E. induction E as [|cap s matches ss Hs _ IH]; [by exists []|].
  destruct IH as (ss' & Hss & HF); [intros c Hc; apply Hnd; by right|intros c Hc; apply Hlost; by right|].
  apply bind_Ok in Hs as (rs & Hr & [= <-]).
  destruct (constraints_refine _ _ _ _ _ Href _ _ cap context rs (Hnd cap ltac:(left)) Hr) as (rs' & Hr' & Hle).
  exists (summary cap rs' :: ss'). split.
  - unfold summaries_of. cbn [mapR]. rewrite Hr', !res_bind_ok. unfold summaries_of in Hss. by rewrite Hss.
  - constructor; [|done]. by eapply summary_step; [exact Hle|apply Hlost; left].
Qed.

(** A regex timeout never widens access: an evaluation that allows an
    operation although matches timed out would also have allowed it on an
    engine that answers more of them, when no DENY or ASK capability is scoped
    by an ALLOW rule with a regex. *)
Theorem regex_timeout_is_conservative subject resource right matches context chains d :
  engine_refines engine engine' →
  (∀ cap, cap ∈ matches → constraint_keys_distinct cap) →
  (∀ cap, cap ∈ matches → is_restrictive (cap_effect cap) = true → ¬ loses_rules str_other cap) →
  decide_with engine subject resource right matches context chains = Ok d → dec_allowed d = true →
  ∃ d', decide_with engine' subject resource right matches context chains = Ok d' ∧ dec_allowed d' = true.
Proof.
  intros Href Hnd Hlost E Ha. destruct (decide_outcome _ _ _ _ _ _ _ _ _ _ _ _ _ E) as (ss & Hs & _ & Hal).
  rewrite Ha in Hal. symmetry in Hal. apply bool_decide_eq_true in Hal.
  destruct (summaries_step _ _ _ Href Hnd Hlost Hs) as (ss' & Hs' & HF).
  destruct (decide_total _ _ _ _ _ _ subject resource right matches context chains ss' Hs')
    as (d' & Hd & _ & Ha'). exists d'. split; [done|].
  rewrite Ha'. apply bool_decide_eq_true. by apply (outcome_step _ _ HF).
Qed.
End Conservative.

Lemma regex_timeout_is_conservative_witness :
  ∃ d', Samples.decide (Samples.literal false)
          [Samples.cap "c1" CapabilityEffect.ALLOW [Samples.rules "allow" "slow"];
           Samples.cap "c2" CapabilityEffect.DENY [Samples.rules "deny" "rm"];
           Samples.cap "c3" CapabilityEffect.ALLOW []] = Ok d'
    ∧ dec_allowed d' = true.
Proof.
  eapply (regex_timeout_is_conservative (fun _ => "") (fun _ => None) Samples.config
    (Samples.literal true) (Samples.literal false) Ok (fun _ => Ok "") "p1" "shell:ls" "execute"
    [Samples.cap "c1" CapabilityEffect.ALLOW [Samples.rules "allow" "slow"];
     Samples.cap "c2" CapabilityEffect.DENY [Samples.rules "deny" "rm"];
     Samples.cap "c3" CapabilityEffect.ALLOW []] Samples.context (fun _ => [])).
  - split; [done|]. intros i p t b. cbn. by destruct (String.eqb p "slow").
  - intros c. rewrite !elem_of_cons, elem_of_nil. intros [->|[->|[->|[]]]]; apply (bool_decide_unpack _); reflexivity.
  - intros c. rewrite !elem_of_cons, elem_of_nil. intros [->|[->|[->|[]]]] Hr; [discriminate Hr| |discriminate Hr].
    intros (v & rs & r & Hv & Hc & Hin & Ha & _). apply list_elem_of_singleton in Hv. injection Hv as ->.
    vm_compute in Hc. injection Hc as <-. apply list_elem_of_singleton in Hin. subst r. discriminate Ha.
  - vm_compute. reflexivity.
  - reflexivity.
Defined.

(** Outside the proviso: the DENY capability applies where its ALLOW rule
    matches, and a timeout of that match drops it. *)
Lemma timeout_drops_deny :
  let caps := [Samples.cap "c1" CapabilityEffect.DENY [Samples.rules "allow" "slow"];
               Samples.cap "c2" CapabilityEffect.ALLOW []] in
  (∃ d, Samples.decide (Samples.literal true) caps = Ok d ∧ dec_allowed d = true)
  ∧ ∃ d, Samples.decide (Samples.literal false) caps = Ok d ∧ dec_effect d = Some CapabilityEffect.DENY.
Proof. split; (eexists; split; [vm_compute; reflexivity|reflexivity]). Qed.

(** A list under [match] ends the call with a [TypeError] in place of a
    decision. *)
Lemma match_list_raises :
  Samples.decide (Samples.literal false)
    [Samples.cap "c1" CapabilityEffect.DENY [(AUTHORITY_RULES_KEY, PList [PDict [
       (PStr "rule_id", PStr "r1"); (PStr "operation", PStr "shell.run");
       (PStr "conditions", PDict [(PStr "argv", PList []); (PStr "match", PList [])])]])]]
  = Err (TypeError "unhashable type").
Proof. vm_compute. reflexivity. Qed.
