(* ===== verification/ResourceTables.v ===== *)
(** * Resource reservation tables

    The tables of [storage/sql.py] behind [runtime/resource_manager.py]: the
    capacity a parent has set aside for each child
    ([process_resource_reservations]), the usage envelopes reserved before a
    provider is called ([resource_usage_reservations]) and the keyset pages
    they are recovered in.

    The rows are kept decoded; a read decodes and validates again, as the code
    does.  Audit and event rows are kept as a log of their keys: their payload
    never influences the program, and the sinks are taken not to fail. *)

From S2P Require Import Prelude PyStr PyVal ProcessState ProcessModel ProcessStore.
From stdpp Require Import sorting.

(** ** State *)

Inductive Evidence : Set :=
| Event (type source target : string)
| Audit (actor action target : string).

Record RStore : Type := mkRStore {
  base : Store;
  reservations : gmap (string * string) ResourceReservation;
  usage_reservations : gmap string ResourceUsageReservation;
  (** [transaction_state] of the [external_effects] rows. *)
  effect_states : gmap string string;
  evidence : list Evidence;
}.

Definition set_base (b : Store) (s : RStore) : RStore :=
  mkRStore b (reservations s) (usage_reservations s) (effect_states s) (evidence s).
Definition set_reservations (f : gmap (string * string) ResourceReservation →
    gmap (string * string) ResourceReservation) (s : RStore) : RStore :=
  mkRStore (base s) (f (reservations s)) (usage_reservations s) (effect_states s) (evidence s).
Definition set_usage_reservations (f : gmap string ResourceUsageReservation →
    gmap string ResourceUsageReservation) (s : RStore) : RStore :=
  mkRStore (base s) (reservations s) (f (usage_reservations s)) (effect_states s) (evidence s).

(** [AuditManager.record] and [EventBus.emit]. *)
Definition record (e : Evidence) : M RStore unit :=
  modify (fun s => mkRStore (base s) (reservations s) (usage_reservations s) (effect_states s)
                     (evidence s ++ [e])).

(** An operation of the process store. *)
Definition on_base {A} (m : M Store A) : M RStore A := fun s =>
  let '(b, r) := m (base s) in (set_base b s, r).

(** A read. *)
Definition reading {A} (f : RStore → res A) : M RStore A := fun s => (s, f s).

(** [UnitOfWork.transaction()]: as [sql_transaction], the in-memory takeover
    intent is not a table. *)
Definition unit_of_work {A} (m : M RStore A) : M RStore A := fun s =>
  match m s with
  | (s', Ok a) => (s', Ok a)
  | (s', Err e) => (set_base (set_takeover (takeover (base s')) (base s)) s, Err e)
  end.

Lemma unit_of_work_Ok {A} (m : M RStore A) s s' a :
  unit_of_work m s = (s', Ok a) ↔ m s = (s', Ok a).
Proof. unfold unit_of_work. destruct (m s) as [? []]; naive_solver. Qed.

Lemma unit_of_work_Err {A} (m : M RStore A) s s' e :
  unit_of_work m s = (s', Err e) →
  ∃ t s1, m s = (s1, Err e) ∧ s' = set_base (set_takeover t (base s)) s.
Proof. unfold unit_of_work. destruct (m s) as [? []]; naive_solver. Qed.

(** ** Processes *)

Definition read_process (p : string) (s : RStore) : res (option AgentProcess) :=
  match processes (base s) !! p with
  | None => Ok None
  | Some row => r ← _row_to_process row; Ok (Some r)
  end.

(** [ORDER BY created_at, pid]. *)
Definition child_le (a b : AgentProcess) : Prop :=
  created_at a ≠ created_at b ∧ str_le (created_at a) (created_at b)
  ∨ created_at a = created_at b ∧ str_le (pid a) (pid b).

#[export] Instance child_le_dec : RelDecision child_le.
Proof. intros a b. unfold child_le. apply _. Defined.

Definition list_child_processes (parent : string) (s : RStore) : res (list AgentProcess) :=
  mapR _row_to_process
    (merge_sort child_le
       (List.filter (fun row => bool_decide (parent_pid row = Some parent))
          (map snd (map_to_list (processes (base s)))))).

(** ** Numbers of a budget field *)

(** [float.is_integer], with the integer. *)
Definition integral (f : spec_float) : option Z :=
  match view_of_num (NFloat f) with
  | VFin m e =>
      if (0 <=? e)%Z then Some (Z.shiftl m e)
      else if (m mod 2 ^ (- e) =? 0)%Z then Some (m / 2 ^ (- e))%Z else None
  | _ => None
  end.

(** The same rule decodes a persisted number and normalizes one in memory. *)
Definition domain_number (continuous : bool) (v : num) : res num :=
  if continuous then x ← to_float v; Ok (NFloat x)
  else match v with
       | NInt z => Ok (NInt z)
       | NFloat x =>
           z ← of_option (ValidationError "discrete resource value must be an integer") (integral x);
           Ok (NInt z)
       end.

(** [_CONTINUOUS_RESOURCE_BUDGET_FIELDS], as keys of a decoded mapping. *)
Definition continuous_key (k : string) : bool :=
  bool_decide (k ∈ ["max_runtime_seconds"; "max_subprocess_wall_seconds"; "max_subprocess_cpu_seconds"]).

Definition _decode_resource_reservation_number (budget_field : string) (value : num) : res num :=
  domain_number (continuous_key budget_field) value.

Definition _row_to_resource_reservation (r : ResourceReservation) : res ResourceReservation :=
  items ← mapR (fun kv => v ← _decode_resource_reservation_number (fst kv) (snd kv); Ok (fst kv, v))
            (map_to_list (reserved r));
  let decoded := {| res_parent_pid := res_parent_pid r; res_child_pid := res_child_pid r;
                    reserved := list_to_map items; res_created_at := res_created_at r;
                    res_updated_at := res_updated_at r |} in
  _ ← reservation_validate decoded;
  Ok decoded.

(** ** Capacity reservations *)

(** [ON CONFLICT ... DO UPDATE] keeps the creation time. *)
Definition upsert_resource_reservation (r : ResourceReservation) : M RStore unit :=
  modify (set_reservations (fun m =>
    let key := (res_parent_pid r, res_child_pid r) in
    <[key := match m !! key with
             | Some old => {| res_parent_pid := res_parent_pid r; res_child_pid := res_child_pid r;
                              reserved := reserved r; res_created_at := res_created_at old;
                              res_updated_at := res_updated_at r |}
             | None => r end]> m)).

Definition get_resource_reservation (parent child : string) (s : RStore)
    : res (option ResourceReservation) :=
  match reservations s !! (parent, child) with
  | None => Ok None
  | Some r => d ← _row_to_resource_reservation r; Ok (Some d)
  end.

Definition reservation_le (a b : ResourceReservation) : Prop :=
  res_parent_pid a ≠ res_parent_pid b ∧ str_le (res_parent_pid a) (res_parent_pid b)
  ∨ res_parent_pid a = res_parent_pid b ∧ str_le (res_child_pid a) (res_child_pid b).

#[export] Instance reservation_le_dec : RelDecision reservation_le.
Proof. intros a b. unfold reservation_le. apply _. Defined.

(** The rows a [WHERE] clause selects, in [ORDER BY] order. *)
Definition list_resource_reservations (clause : ResourceReservation → bool) (s : RStore)
    : res (list ResourceReservation) :=
  mapR _row_to_resource_reservation
    (merge_sort reservation_le (List.filter clause (map snd (map_to_list (reservations s))))).

Definition of_parent (p : string) (r : ResourceReservation) : bool := String.eqb (res_parent_pid r) p.
Definition of_child (p : string) (r : ResourceReservation) : bool := String.eqb (res_child_pid r) p.

Definition delete_resource_reservation (parent child : string) : M RStore unit :=
  modify (set_reservations (delete (parent, child))).

Definition delete_resource_reservations_for_process (p : string) : M RStore unit :=
  modify (set_reservations (filter (fun kr => fst (fst kr) ≠ p ∧ snd (fst kr) ≠ p))).

(** ** Usage reservations *)

Definition insert_resource_usage_reservation (id p : string) (usage : ResourceUsage)
    (by_ reason created : string) : M RStore unit := fun s =>
  match usage_reservations s !! id with
  | Some _ => (s, Err (IntegrityError "UNIQUE constraint failed: resource_usage_reservations.reservation_id"))
  | None =>
      (set_usage_reservations
         <[id := {| reservation_id := id; ur_pid := p; ur_usage := usage; ur_status := UR_ACTIVE;
                    reserved_by := by_; ur_reason := reason; settled_usage := None;
                    ur_created_at := created; ur_updated_at := created |}]> s, Ok tt)
  end.

(** The constructors of the decoded models validate. *)
Definition decode_usage_reservation (r : ResourceUsageReservation) : res ResourceUsageReservation :=
  _ ← usage_validate (ur_usage r);
  _ ← match settled_usage r with Some u => usage_validate u | None => Ok tt end;
  _ ← usage_reservation_validate r;
  Ok r.

Definition _row_to_resource_usage_reservation (r : ResourceUsageReservation)
    : res ResourceUsageReservation := _persisted_model_decode (decode_usage_reservation r).

Definition get_resource_usage_reservation (id : string) (s : RStore)
    : res (option ResourceUsageReservation) :=
  match usage_reservations s !! id with
  | None => Ok None
  | Some r => d ← decode_usage_reservation r; Ok (Some d)
  end.

Definition is_active (r : ResourceUsageReservation) : bool := bool_decide (ur_status r = UR_ACTIVE).

(** The conditional update: only an active row is settled, and the number of
    updated rows is the answer. *)
Definition settle_resource_usage_reservation (id : string) (st : ResourceUsageReservationStatus)
    (settled : ResourceUsage) (now : string) : M RStore bool := fun s =>
  match usage_reservations s !! id with
  | Some r =>
      if is_active r then
        (set_usage_reservations
           <[id := {| reservation_id := reservation_id r; ur_pid := ur_pid r; ur_usage := ur_usage r;
                      ur_status := st; reserved_by := reserved_by r; ur_reason := ur_reason r;
                      settled_usage := Some settled; ur_created_at := ur_created_at r;
                      ur_updated_at := now |}]> s, Ok true)
      else (s, Ok false)
  | None => (s, Ok false)
  end.

(** *** Recovery pages *)

Definition cursor_of (r : ResourceUsageReservation) : ResourceUsageReservationCursor :=
  {| cur_created_at := ur_created_at r; cur_reservation_id := reservation_id r |}.

Definition cursor_le (a b : ResourceUsageReservation) : Prop :=
  cursor_ltb (cursor_of b) (cursor_of a) = false.

#[export] Instance cursor_le_dec : RelDecision cursor_le.
Proof. intros a b. unfold cursor_le. apply _. Defined.

Definition active_after (after : option ResourceUsageReservationCursor)
    (r : ResourceUsageReservation) : bool :=
  is_active r && match after with Some c => cursor_ltb c (cursor_of r) | None => true end.

Definition _resource_usage_reservation_recovery_limit (hard_limit limit : nat) : res nat :=
  _ ← raise_if (limit =? 0) (ValidationError "recovery limit must be a positive integer");
  _ ← raise_if (hard_limit <? limit) (ValidationError "recovery limit exceeds configured hard cap");
  Ok limit.

Definition query_resource_usage_reservation_recovery (hard_limit : nat)
    (after : option ResourceUsageReservationCursor) (limit : nat) (s : RStore)
    : res ResourceUsageReservationPage :=
  selected_limit ← _resource_usage_reservation_recovery_limit hard_limit limit;
  let rows := take (S selected_limit)
    (merge_sort cursor_le
       (List.filter (active_after after) (map snd (map_to_list (usage_reservations s))))) in
  records ← mapR _row_to_resource_usage_reservation (take selected_limit rows);
  next ← match (if selected_limit <? length rows then last records else None) with
         | Some r => c ← mk_cursor (ur_created_at r) (reservation_id r); Ok (Some c)
         | None => Ok None
         end;
  mk_page records next.
