(* ===== verification/ResourceManager.v ===== *)
(** * Resource accounting

    [runtime/resource_manager.py]: hierarchical budgets.  A charge is added to
    a process and to all its ancestors, and each of them must stay within its
    budget, counting what it has spent, what it has set aside for its children
    and the active usage envelopes under it that no such share covers. *)

From S2P Require Import Prelude PyStr PyVal ProcessState ProcessModel ProcessStore ProcessWrites ProcessTransition ResourceTables.
From stdpp Require Import sorting.

(** ** Tables of fields *)

(** [_BUDGET_USAGE_MAP]; its order is that of [budget_fields]. *)
Definition _BUDGET_USAGE_MAP (f : budget_field) : list usage_field :=
  match f with
  | max_tool_calls => [tool_calls]
  | max_child_processes => [child_processes]
  | max_runtime_seconds => [runtime_seconds]
  | max_context_materialization_total_tokens => [context_materialized_tokens]
  | max_llm_calls => [llm_calls]
  | max_llm_total_tokens => [llm_total_tokens]
  | max_subprocess_wall_seconds => [subprocess_wall_seconds]
  | max_subprocess_cpu_seconds => [subprocess_cpu_seconds]
  | max_subprocess_memory_bytes => [subprocess_peak_memory_bytes]
  | max_external_read_bytes => [external_read_bytes]
  | max_external_write_bytes => [external_write_bytes]
  | max_jsonrpc_bytes => [jsonrpc_request_bytes; jsonrpc_response_bytes]
  | max_mcp_bytes => [mcp_request_bytes; mcp_response_bytes]
  | max_deno_syscalls => [deno_syscalls]
  end.

(** Not in [_NON_RESERVABLE_BUDGET_FIELDS]. *)
Definition reservable (f : budget_field) : bool :=
  match f with max_subprocess_memory_bytes | max_child_processes => false | _ => true end.

(** [_PEAK_USAGE_FIELDS]. *)
Definition peak_usage (f : usage_field) : bool :=
  match f with subprocess_peak_memory_bytes => true | _ => false end.

(** [_LLM_USAGE_FIELDS]. *)
Definition llm_usage (f : usage_field) : bool :=
  match f with llm_calls | llm_prompt_tokens | llm_completion_tokens | llm_total_tokens => true | _ => false end.

Definition _LLM_USAGE_RESERVATION_SOURCE : string := "llm.request".

(** ** Values *)

Definition _budget_zero (f : budget_field) : num :=
  if continuous_budget f then NFloat (S754_zero false) else NInt 0.

Definition _budget_number (f : budget_field) (v : num) : res num := domain_number (continuous_budget f) v.

(** [sum] starts from the integer 0. *)
Definition _usage_value (usage : ResourceUsage) (f : budget_field) (fields : list usage_field) : res num :=
  match f with
  | max_subprocess_memory_bytes => Ok (uget usage subprocess_peak_memory_bytes)
  | _ => foldR (fun total g => num_add total (uget usage g)) (NInt 0) fields
  end.

Definition usage_value (usage : ResourceUsage) (f : budget_field) : res num :=
  _usage_value usage f (_BUDGET_USAGE_MAP f).

Definition is_zero (n : num) : bool := num_eqb n (NInt 0).

Definition _is_zero (usage : ResourceUsage) : bool := forallb (fun f => is_zero (uget usage f)) usage_fields.

(** The set of relevant fields, as its members. *)
Definition _nonzero_fields (usage : ResourceUsage) : list usage_field :=
  List.filter (fun f => negb (is_zero (uget usage f))) usage_fields.

(** [set(usage_fields) & relevant_fields]. *)
Definition relevant (fields : list usage_field) (f : budget_field) : bool :=
  existsb (fun g => bool_decide (g ∈ fields)) (_BUDGET_USAGE_MAP f).

Definition _validate_usage (usage : ResourceUsage) : res unit :=
  match usage_validate usage with
  | Err (ValueError _) => Err (ValidationError "resource usage values are invalid")
  | r => r
  end.

(** The two forms of the argument. *)
Inductive UsageRequest : Type :=
| UsageObject (u : ResourceUsage)
| UsageMapping (d : list (pyval * pyval)).

(** [ResourceUsage] with the entries of a mapping as keywords. *)
Definition usage_of_mapping (d : list (pyval * pyval)) : res ResourceUsage :=
  let field (f : usage_field) : pyval :=
    dict_get_default d (usage_field_name f) (py_num (usage_default f)) in
  _ ← foldR (fun _ f => _validate_resource_number (usage_field_name f) (field f) false
                          (negb (continuous_usage f))) tt usage_fields;
  Ok (mk_usage (fun f => match field f with PInt z => NInt z | PFloat x => NFloat x | _ => NInt 0 end)).

Definition _coerce_usage (request : UsageRequest) : res ResourceUsage :=
  match request with
  | UsageObject u => _ ← _validate_usage u; Ok u
  | UsageMapping d =>
      _ ← raise_if (has_unknown_key d (map usage_field_name usage_fields))
            (ValidationError "resource usage contains unknown fields");
      coerced ← match usage_of_mapping d with
                | Err (ValueError _) => Err (ValidationError "resource usage values are invalid")
                | r => r
                end;
      _ ← _validate_usage coerced;
      Ok coerced
  end.

(** The sum or peak of one field. *)
Definition merge_field (current delta : ResourceUsage) (f : usage_field) : res num :=
  if peak_usage f then Ok (num_max (uget current f) (uget delta f))
  else num_add (uget current f) (uget delta f).

Definition _merge_usage (current delta : ResourceUsage) : res ResourceUsage :=
  _ ← mapR (merge_field current delta) usage_fields;
  let merged := mk_usage (fun f => match merge_field current delta f with Ok n => n | Err _ => NInt 0 end) in
  _ ← usage_validate merged;
  Ok merged.

Definition _assert_usage_within_reservation (actual maximum : ResourceUsage) : res unit :=
  raise_if (existsb (fun f => num_gtb (uget actual f) (uget maximum f)) usage_fields)
    (ResourceLimitExceeded "resource settlement exceeded reserved maximum").

Definition _maximum_charge_usage (r : ResourceUsageReservation) : ResourceUsage :=
  let llm_only := forallb (fun f => llm_usage f || is_zero (uget (ur_usage r) f)) usage_fields in
  if String.eqb (ur_reason r) _LLM_USAGE_RESERVATION_SOURCE && llm_only then
    mk_usage (fun f => match f with
                       | llm_calls | llm_total_tokens => uget (ur_usage r) f
                       | _ => usage_default f end)
  else ur_usage r.

(** ** The process tree *)

Definition _get (p : string) (s : RStore) : res AgentProcess :=
  found ← read_process p s;
  of_option (NotFound "process not found") found.

(** A process and its ancestors.  The code loops until a process without
    parent; [fuel] bounds the length, and a chain longer than the table has
    rows goes around a cycle. *)
Fixpoint process_chain (fuel : nat) (p : string) (s : RStore) : res (list AgentProcess) :=
  match fuel with
  | O => Err (RuntimeError "process parent cycle")
  | S n =>
      current ← _get p s;
      match parent_pid current with
      | None => Ok [current]
      | Some q => rest ← process_chain n q s; Ok (current :: rest)
      end
  end.

Definition _process_chain (p : string) (s : RStore) : res (list AgentProcess) :=
  process_chain (S (size (processes (base s)))) p s.

(** The processes below one, from a stack. *)
Fixpoint descendants (fuel : nat) (stack : list AgentProcess) (s : RStore) : res (list AgentProcess) :=
  match stack, fuel with
  | [], _ => Ok []
  | _, O => Err (RuntimeError "process parent cycle")
  | process :: stack', S n =>
      children ← list_child_processes (pid process) s;
      rest ← descendants n (rev children ++ stack') s;
      Ok (process :: rest)
  end.

Definition _descendant_tree (p : string) (s : RStore) : res (list AgentProcess) :=
  root ← _get p s;
  descendants (S (size (processes (base s)))) [root] s.

Section Manager.
(** The recovery page size and the store's hard cap. *)
Variables page_size hard_limit : nat.

(** ** Active usage reservations, page by page *)

(** The checks on one page; the result is the last cursor seen. *)
Fixpoint check_records (previous : option ResourceUsageReservationCursor)
    (records : list ResourceUsageReservation) : res (option ResourceUsageReservationCursor) :=
  match records with
  | [] => Ok previous
  | r :: rest =>
      cursor ← mk_cursor (ur_created_at r) (reservation_id r);
      _ ← raise_if (negb (is_active r)
                    || match previous with Some c => negb (cursor_ltb c cursor) | None => false end)
            (ValidationError "recovery repository returned an invalid page");
      check_records (Some cursor) rest
  end.

Definition check_page (after : option ResourceUsageReservationCursor)
    (page : ResourceUsageReservationPage) : res unit :=
  _ ← raise_if (page_size <? length (page_records page))
        (ValidationError "recovery repository exceeded the page limit");
  previous ← check_records after (page_records page);
  raise_if (bool_decide (is_Some (next_cursor page)) && negb (bool_decide (next_cursor page = previous)))
    (ValidationError "recovery repository returned an invalid next cursor").

Definition next_page (after : option ResourceUsageReservationCursor) (s : RStore)
    : res ResourceUsageReservationPage :=
  page ← query_resource_usage_reservation_recovery hard_limit after page_size s;
  _ ← check_page after page;
  Ok page.

Fixpoint iter_active (fuel : nat) (after : option ResourceUsageReservationCursor) (s : RStore)
    : res (list ResourceUsageReservation) :=
  match fuel with
  | O => Err (RuntimeError "page budget exhausted")
  | S n =>
      page ← next_page after s;
      match next_cursor page with
      | None => Ok (page_records page)
      | Some c => rest ← iter_active n (Some c) s; Ok (page_records page ++ rest)
      end
  end.

(** Every page but the last advances past at least one row. *)
Definition _iter_active_usage_reservations (s : RStore) : res (list ResourceUsageReservation) :=
  iter_active (S (size (usage_reservations s))) None s.

(** ** What a process has committed *)

(** [reservation.reserved.get(budget_field, zero)], normalized. *)
Definition reserved_number (r : ResourceReservation) (f : budget_field) : res num :=
  _budget_number f (default (_budget_zero f) (reserved r !! budget_field_name f)).

(** Capacity set aside for children; a charge through [consuming_child_pid]
    uses up that child's share first. *)
Definition _reserved_budget_value_locked (parent : string) (f : budget_field)
    (consuming_child_pid : option string) (consuming_usage : option ResourceUsage) (s : RStore) : res num :=
  rows ← list_resource_reservations (of_parent parent) s;
  foldR (fun total r =>
    value ← reserved_number r f;
    if num_leb value (NInt 0) then Ok total else
    value ← match consuming_usage with
            | Some usage =>
                if bool_decide (consuming_child_pid = Some (res_child_pid r)) then
                  used ← usage_value usage f;
                  left ← num_sub value used;
                  Ok (num_max (_budget_zero f) left)
                else Ok value
            | None => Ok value
            end;
    num_add total value) (_budget_zero f) rows.

(** Where an active reservation sits below [owner]: elsewhere, at the owner
    itself, or under one of its children. *)
Inductive Place : Set := Elsewhere | AtOwner | Under (child : string).

Fixpoint place_in (owner : string) (below : option string) (chain : list AgentProcess) : Place :=
  match chain with
  | [] => Elsewhere
  | process :: rest =>
      if String.eqb (pid process) owner then
        match below with None => AtOwner | Some child => Under child end
      else place_in owner (Some (pid process)) rest
  end.

Definition place_of (owner : string) (r : ResourceUsageReservation) (s : RStore) : res Place :=
  match _process_chain (ur_pid r) s with
  | Ok chain => Ok (place_in owner None chain)
  | Err (NotFound _) => Ok (if String.eqb (ur_pid r) owner then AtOwner else Elsewhere)
  | Err e => Err e
  end.

(** [usage_by_child[child] = usage_by_child.get(child, zero) + value]. *)
Fixpoint add_to_child (child : string) (value zero : num) (d : list (string * num))
    : res (list (string * num)) :=
  match d with
  | [] => v ← num_add zero value; Ok [(child, v)]
  | (c, old) :: rest =>
      if String.eqb c child then v ← num_add old value; Ok ((c, v) :: rest)
      else rest' ← add_to_child child value zero rest; Ok ((c, old) :: rest')
  end.

Definition child_share (rows : list ResourceReservation) (f : budget_field) (child : string) : res num :=
  match List.find (of_child child) (rev rows) with
  | Some r => reserved_number r f
  | None => Ok (_budget_zero f)
  end.

Definition _reserved_usage_value_locked (owner : string) (f : budget_field) (s : RStore) : res num :=
  active ← _iter_active_usage_reservations s;
  totals ← foldR (fun acc r =>
    place ← place_of owner r s;
    match place with
    | Elsewhere => Ok acc
    | _ =>
      value ← usage_value (ur_usage r) f;
      if num_leb value (NInt 0) then Ok acc else
      match place with
      | Under child => d ← add_to_child child value (_budget_zero f) (snd acc); Ok (fst acc, d)
      | _ => t ← num_add (fst acc) value; Ok (t, snd acc)
      end
    end) (_budget_zero f, []) active;
  match snd totals with
  | [] => Ok (fst totals)
  | by_child =>
      rows ← list_resource_reservations (of_parent owner) s;
      _ ← mapR (fun r => reserved_number r f) rows;
      foldR (fun total cv =>
        share ← child_share rows f (fst cv);
        beyond ← num_sub (snd cv) share;
        num_add total (num_max (_budget_zero f) beyond)) (fst totals) by_child
  end.

(** ** Limits *)

Record Exceeded : Set := {
  ex_budget : budget_field;
  ex_value : num;
  ex_limit : num;
}.

Definition committed_value (process : AgentProcess) (usage : ResourceUsage) (f : budget_field)
    (consuming_child_pid : option string) (consuming_usage : option ResourceUsage)
    (include_active_reservations : bool) (s : RStore) : res num :=
  value ← usage_value usage f;
  if negb (reservable f) then Ok value else
  shares ← _reserved_budget_value_locked (pid process) f consuming_child_pid consuming_usage s;
  value ← num_add value shares;
  if include_active_reservations then
    active ← _reserved_usage_value_locked (pid process) f s;
    num_add value active
  else Ok value.

(** The loop over the budget fields, from a given one on. *)
Fixpoint first_exceeded (process : AgentProcess) (usage : ResourceUsage)
    (relevant_fields : list usage_field) (consuming_child_pid : option string)
    (consuming_usage : option ResourceUsage) (include_active_reservations : bool)
    (s : RStore) (fields : list budget_field) : res (option Exceeded) :=
  match fields with
  | [] => Ok None
  | f :: rest =>
      let next := first_exceeded process usage relevant_fields consuming_child_pid consuming_usage
                    include_active_reservations s rest in
      if negb (relevant relevant_fields f) then next else
      match bget (resource_budget process) f with
      | None => next
      | Some limit =>
          value ← committed_value process usage f consuming_child_pid consuming_usage
                    include_active_reservations s;
          if num_gtb value limit
          then Ok (Some {| ex_budget := f; ex_value := value; ex_limit := limit |})
          else next
      end
  end.

Definition _first_exceeded_effective (process : AgentProcess) (usage : ResourceUsage)
    (relevant_fields : list usage_field) (consuming_child_pid : option string)
    (consuming_usage : option ResourceUsage) (include_active_reservations : bool) (s : RStore)
    : res (option Exceeded) :=
  first_exceeded process usage relevant_fields consuming_child_pid consuming_usage
    include_active_reservations s budget_fields.

Definition _limit_message (e : Exceeded) : string :=
  match ex_budget e with
  | max_child_processes => "process exhausted child process budget"
  | f => "process exceeded " +:+ budget_field_name f
  end.

(** ** Preflight *)

(** The loop over the chain; [below] is the process before. *)
Fixpoint preflight_chain (actor : string) (usage : ResourceUsage) (below : option string)
    (chain : list AgentProcess) : M RStore unit :=
  match chain with
  | [] => mret tt
  | process :: rest =>
      candidate ← lift_res (_merge_usage (resource_usage process) usage);
      exceeded ← reading (_first_exceeded_effective process candidate (_nonzero_fields usage) below
                            (Some usage) true);
      match exceeded with
      | None => preflight_chain actor usage (Some (pid process)) rest
      | Some e =>
          _ ← record (Audit actor "resource.preflight_denied" ("process:" +:+ pid process));
          raise (ResourceLimitExceeded (_limit_message e))
      end
  end.

Definition _preflight_locked (p : string) (usage : ResourceUsage) : M RStore unit :=
  chain ← reading (_process_chain p);
  preflight_chain p usage None chain.

Definition preflight (p : string) (request : UsageRequest) : M RStore unit :=
  usage ← lift_res (_coerce_usage request);
  if _is_zero usage then mret tt else _preflight_locked p usage.

(** ** Consumption of a child's share *)

(** One field: the remaining share, when the usage takes some of it. *)
Definition consume_field (usage : ResourceUsage) (relevant_fields : list usage_field)
    (acc : bool * gmap string num) (f : budget_field) : res (bool * gmap string num) :=
  if negb (reservable f) || negb (relevant relevant_fields f) then Ok acc else
  current ← _budget_number f (default (_budget_zero f) (snd acc !! budget_field_name f));
  if num_leb current (NInt 0) then Ok acc else
  value ← usage_value usage f;
  let consumed := num_min current value in
  if num_leb consumed (NInt 0) then Ok acc else
  next ← num_sub current consumed;
  Ok (true, if num_leb next (NInt 0) then delete (budget_field_name f) (snd acc)
            else <[budget_field_name f := next]> (snd acc)).

Definition _consume_reservation_locked (now parent child : string) (usage : ResourceUsage)
    (relevant_fields : list usage_field) : M RStore unit :=
  found ← reading (get_resource_reservation parent child);
  match found with
  | None => mret tt
  | Some reservation =>
      result ← lift_res (foldR (consume_field usage relevant_fields) (false, reserved reservation)
                           budget_fields);
      let '(changed, remaining) := result in
      if negb changed then mret tt
      else if bool_decide (remaining = ∅) then delete_resource_reservation parent child
      else
        let updated := {| res_parent_pid := parent; res_child_pid := child; reserved := remaining;
                          res_created_at := res_created_at reservation; res_updated_at := now |} in
        _ ← lift_res (reservation_validate updated);
        upsert_resource_reservation updated
  end.

(** ** Charges *)

Context `{ExecEvidence}.
Variable json_dumps : list (string * json) → string.
(** The ambient scopes of the caller, and the instant of the operation. *)
Variable amb : Ambient.
Variable now : string.
(** The nonce of a takeover scope. *)
Variable new_nonce : string → string.

(** [terminal_scope]: a terminal row accepts usage under an exact fence. *)
Definition accounting_scope (row : AgentProcess) : res Ambient :=
  if is_terminal (status row) then
    trusted_terminal_process_mutation amb (pid row) (revision row) (execution_generation row)
      [status row] (cur_execution amb) "resource accounting appends usage to a terminal process"
  else Ok amb.

(** One process of the chain: its usage, the share it had set aside for the
    process below, and whether it now exceeds its budget. *)
Definition charge_process (delta : ResourceUsage) (relevant_fields : list usage_field)
    (include_active_reservations : bool) (below : option string) (p : string)
    : M RStore (AgentProcess * option Exceeded) :=
  latest ← reading (_get p);
  usage ← lift_res (_merge_usage (resource_usage latest) delta);
  let patch := [SetResourceUsage usage; SetUpdatedAt now] in
  scope ← lift_res (accounting_scope latest);
  updated ← on_base (match below with
    | None => patch_process scope now (pid latest) patch (revision latest) None
    | Some _ => patch_process_control scope now (pid latest) patch (revision latest) [status latest]
                  "hierarchical resource charge updates an ancestor"
    end);
  _ ← match below with
      | None => mret tt
      | Some child => _consume_reservation_locked now (pid updated) child delta relevant_fields
      end;
  exceeded ← reading (_first_exceeded_effective updated (resource_usage updated) relevant_fields
                        None None include_active_reservations);
  mret (updated, exceeded).

(** The loop over the chain; the first process found over its budget is kept. *)
Fixpoint charge_chain (delta : ResourceUsage) (relevant_fields : list usage_field)
    (include_active_reservations : bool) (below : option string)
    (found : option (AgentProcess * Exceeded)) (chain : list AgentProcess)
    : M RStore (option (AgentProcess * Exceeded)) :=
  match chain with
  | [] => mret found
  | process :: rest =>
      charged ← charge_process delta relevant_fields include_active_reservations below (pid process);
      let found := match found, snd charged with
                   | None, Some e => Some (fst charged, e)
                   | _, _ => found end in
      charge_chain delta relevant_fields include_active_reservations (Some (pid process)) found rest
  end.

(** The accounting mutation of a charge. *)
Definition charge_durably (p : string) (delta : ResourceUsage) (source : string)
    (allow_overage include_active_reservations : bool) : M RStore (option (AgentProcess * Exceeded)) :=
  unit_of_work (
    chain ← reading (_process_chain p);
    _ ← (if allow_overage then mret tt else _preflight_locked p delta);
    exceeded ← charge_chain delta (_nonzero_fields delta) include_active_reservations None None chain;
    _ ← record (Event "RESOURCE_CHARGED" source p);
    _ ← record (Audit p "resource.charge" ("process:" +:+ p));
    mret exceeded).

(** ** Termination of a tree that exceeded its limit *)

Record _ResourceLimitFinalization : Type := {
  fin_pid : string;
  fin_killed_pids : list string;
  fin_reason : string;
}.

Definition kill_args (process : AgentProcess) (reason : string) : TransitionArgs :=
  {| ta_status := KILLED; ta_expected_revision := revision process; ta_expected_status := None;
     ta_expected_state_generation := Some (state_generation process); ta_wait_state := None;
     ta_outcome := Some (KilledProcessOutcome None (Some "resource_limit_exceeded"));
     ta_status_message := Some reason; ta_control := true;
     ta_allowed_statuses := Some [status process];
     ta_reason := Some "resource limit terminates an affected process tree" |}.

(** [_resource_limit_takeover_scope] around a transition. *)
Definition _resource_limit_takeover_scope {A} (process : AgentProcess) (body : M Store A) : M Store A :=
  if negb (bool_decide (status process = RUNNING)) then body else
  match execution_owner_id process, execution_lease_id process with
  | None, None => body
  | Some owner, Some lease =>
      trusted_process_execution_takeover (pid process) (revision process) (state_generation process)
        {| tok_pid := pid process; tok_generation := execution_generation process;
           tok_owner_id := owner; tok_lease_id := lease; tok_task_run_epoch := None |}
        KILLED "resource limit takes over an execution lease" (new_nonce (pid process))
        None None None (Some "resource_limit_exceeded") body
  | _, _ => raise (ValidationError "running process has an incomplete execution lease")
  end.

Fixpoint kill_tree (reason : string) (tree : list AgentProcess) : M RStore (list string) :=
  match tree with
  | [] => mret []
  | process :: rest =>
      if is_terminal (status process) then kill_tree reason rest else
      _ ← on_base (_resource_limit_takeover_scope process
            (@transition Store (store_repository json_dumps amb now) (pid process)
               (kill_args process reason)));
      _ ← delete_resource_reservations_for_process (pid process);
      killed ← kill_tree reason rest;
      mret (pid process :: killed)
  end.

Definition _persist_resource_limit_kill (p reason : string) : M RStore _ResourceLimitFinalization :=
  unit_of_work (
    tree ← reading (_descendant_tree p);
    killed ← kill_tree reason tree;
    _ ← record (Event "RESOURCE_LIMIT_EXCEEDED" "resource_manager" p);
    _ ← record (Audit "resource_manager" "resource.limit_exceeded" ("process:" +:+ p));
    mret {| fin_pid := p; fin_killed_pids := killed; fin_reason := reason |}).

(** *** Hooks that run after the kill is durable *)

Variable process_kill_finalizer : option (list string → string → M RStore unit).
Variable object_task_terminal_notifier : option (string → M RStore unit).

(** [except BaseException]: whether the body raised. *)
Definition attempt (m : M RStore unit) : M RStore bool := fun s =>
  match m s with (s', Ok _) => (s', Ok false) | (s', Err _) => (s', Ok true) end.

Definition _wake_parent_waiting_on_child (child_pid : string) : M RStore unit :=
  unit_of_work (
    found ← reading (read_process child_pid);
    match found with
    | None => mret tt
    | Some child =>
        match parent_pid child with
        | None => mret tt
        | Some q =>
            parent ← reading (read_process q);
            match parent with
            | None => mret tt
            | Some parent =>
                if negb (bool_decide (status parent = WAITING_EVENT)) then mret tt else
                match wait_state parent with
                | Some (ChildProcessWait c) =>
                    if negb (String.eqb c (pid child)) then mret tt else
                    token ← lift_res (wait_token parent);
                    _ ← on_base (@wake Store (store_repository json_dumps amb now) token true
                                   "resource termination wakes a waiting parent");
                    record (Audit "resource_manager" "process.wait_wake" ("process:" +:+ pid parent))
                | _ => mret tt
                end
            end
        end
    end).

Definition _notify_object_task_process_terminal (p : string) : M RStore unit :=
  match object_task_terminal_notifier with Some notify => notify p | None => mret tt end.

(** Whether any hook of the killed processes raised. *)
Fixpoint finalize_killed (killed : list string) : M RStore bool :=
  match killed with
  | [] => mret false
  | p :: rest =>
      e1 ← attempt (_wake_parent_waiting_on_child p);
      e2 ← attempt (_notify_object_task_process_terminal p);
      e3 ← finalize_killed rest;
      mret (e1 || e2 || e3)
  end.

Definition _finalize_resource_limit (f : _ResourceLimitFinalization) : M RStore unit :=
  errors ← finalize_killed (fin_killed_pids f);
  failed ← match fin_killed_pids f, process_kill_finalizer with
           | _ :: _, Some finalize => attempt (finalize (fin_killed_pids f) (fin_reason f))
           | _, _ => mret false
           end;
  if (errors || failed : bool)
  then record (Audit "resource_manager" "resource.limit_finalize_failed" ("process:" +:+ fin_pid f))
  else mret tt.

Fixpoint _run_resource_limit_finalizations (fs : list _ResourceLimitFinalization) : M RStore unit :=
  match fs with
  | [] => mret tt
  | f :: rest => _ ← _finalize_resource_limit f; _run_resource_limit_finalizations rest
  end.

Definition kill_if_exceeded (p reason : string) : M RStore unit :=
  finalization ← _persist_resource_limit_kill p reason;
  _finalize_resource_limit finalization.

(** ** The two callers of the accounting mutation *)

(** [_charge] with the kill it persists: nothing, or the message it raises and
    the finalization it leaves. *)
Definition charge_and_kill (p : string) (request : UsageRequest) (source : string)
    (allow_overage kill_on_exceed include_active_reservations : bool)
    : M RStore (option (string * option _ResourceLimitFinalization)) :=
  delta ← lift_res (_coerce_usage request);
  if _is_zero delta then mret None else
  exceeded ← charge_durably p delta source allow_overage include_active_reservations;
  match exceeded with
  | None => mret None
  | Some (owner, e) =>
      let message := _limit_message e in
      if (kill_on_exceed : bool) then
        finalization ← _persist_resource_limit_kill (pid owner) message;
        mret (Some (message, Some finalization))
      else mret (Some (message, None))
  end.

Definition charge (p : string) (request : UsageRequest) (source : string)
    (allow_overage kill_on_exceed : bool) : M RStore unit :=
  outcome ← charge_and_kill p request source allow_overage kill_on_exceed true;
  match outcome with
  | None => mret tt
  | Some (message, finalization) =>
      _ ← match finalization with Some f => _finalize_resource_limit f | None => mret tt end;
      raise (ResourceLimitExceeded message)
  end.

(** ** Usage envelopes *)

Definition reserve_usage (p : string) (request : UsageRequest) (source : string)
    (reservation_id reserved_by : string) : M RStore string :=
  selected ← lift_res (_coerce_usage request);
  if _is_zero selected then raise (ValidationError "resource usage reservation must be non-zero") else
  unit_of_work (
    _ ← _preflight_locked p selected;
    _ ← insert_resource_usage_reservation reservation_id p selected
          (if String.eqb reserved_by "" then source else reserved_by) source now;
    mret reservation_id).

Inductive Settlement : Type :=
| Actual (request : UsageRequest)
| ChargeMaximum
| Release.

Definition settlement_status (m : Settlement) : ResourceUsageReservationStatus :=
  match m with Actual _ => UR_SETTLED | ChargeMaximum => UR_CHARGED_MAXIMUM | Release => UR_RELEASED end.

(** The usage a settlement charges. *)
Definition settlement_usage (m : Settlement) (r : ResourceUsageReservation) : res ResourceUsage :=
  match m with
  | Release => Ok usage_zero
  | ChargeMaximum => Ok (_maximum_charge_usage r)
  | Actual request =>
      selected ← _coerce_usage request;
      _ ← _assert_usage_within_reservation selected (ur_usage r);
      Ok selected
  end.

(** The body of the transaction: the settled usage, and in a recovery the
    finalizations to run after the commit.  Outside a recovery an exceeded
    limit raises and rolls the settlement back. *)
Definition settle_body (id : string) (m : Settlement) (source : string) (recovery : bool)
    : M RStore (ResourceUsage * list _ResourceLimitFinalization) :=
  found ← reading (get_resource_usage_reservation id);
  match found with
  | None => raise (ValidationError "resource usage reservation not found")
  | Some reservation =>
      if negb (is_active reservation)
      then mret (default usage_zero (settled_usage reservation), []) else
      selected ← lift_res (settlement_usage m reservation);
      settled ← settle_resource_usage_reservation id (settlement_status m) selected now;
      if negb settled then raise (ValidationError "resource usage reservation changed concurrently") else
      if _is_zero selected then mret (selected, []) else
      outcome ← charge_and_kill (ur_pid reservation) (UsageObject selected) source recovery true
                  (negb recovery);
      match outcome with
      | None => mret (selected, [])
      | Some (message, finalization) =>
          if (recovery : bool)
          then mret (selected, match finalization with Some f => [f] | None => [] end)
          else raise (ResourceLimitExceeded message)
      end
  end.

Definition _settle_usage_reservation (id : string) (m : Settlement) (source : string)
    (recovery : bool) : M RStore ResourceUsage :=
  result ← unit_of_work (settle_body id m source recovery);
  _ ← _run_resource_limit_finalizations (snd result);
  mret (fst result).

Definition settle_usage_reservation (id : string) (m : Settlement) (source : string)
    : M RStore ResourceUsage := _settle_usage_reservation id m source false.

(** *** Recovery *)

(** Certified not dispatched: no effect row, or one still prepared. *)
Definition not_dispatched (s : RStore) (r : ResourceUsageReservation) : bool :=
  match effect_states s !! reserved_by r with
  | None => true
  | Some state => String.eqb state "prepared"
  end.

Fixpoint recover_records (total : Z) (sample : list string) (records : list ResourceUsageReservation)
    : M RStore (Z * list string) :=
  match records with
  | [] => mret (total, sample)
  | r :: rest =>
      release ← reading (fun s => Ok (not_dispatched s r));
      _ ← _settle_usage_reservation (reservation_id r)
            (if (release : bool) then Release else ChargeMaximum) "resource.recovery" true;
      recover_records (total + 1)
        (if length sample <? page_size then sample ++ [reservation_id r] else sample) rest
  end.

Fixpoint recover_pages (fuel : nat) (after : option ResourceUsageReservationCursor) (total : Z)
    (sample : list string) : M RStore (Z * list string) :=
  match fuel with
  | O => raise (RuntimeError "page budget exhausted")
  | S n =>
      page ← reading (next_page after);
      result ← recover_records total sample (page_records page);
      match next_cursor page with
      | None => mret result
      | Some c => recover_pages n (Some c) (fst result) (snd result)
      end
  end.

(** [require_recovery_lease] is the runtime's lease check. *)
Definition recover_usage_reservations (fuel : nat) (require_recovery_lease : res unit)
    : M RStore RecoverySummary :=
  _ ← lift_res require_recovery_lease;
  result ← recover_pages fuel None 0 [];
  lift_res (mk_summary (fst result) (snd result)).

(** ** Budgets of children *)

Definition num_min_opt (a : option num) (b : num) : num :=
  match a with None => b | Some x => num_min x b end.

Definition has_limit (p : string) (f : budget_field) (s : RStore) : res bool :=
  chain ← _process_chain p s;
  Ok (existsb (fun process => bool_decide (is_Some (bget (resource_budget process) f))) chain).

(** What one process has left of a field; [None] without a limit. *)
Definition process_remaining (process : AgentProcess) (f : budget_field) (fields : list usage_field)
    (reserved_usage : option ResourceUsage) (s : RStore) : res (option num) :=
  match bget (resource_budget process) f with
  | None => Ok None
  | Some limit =>
      usage ← match reserved_usage with
              | Some u => _merge_usage (resource_usage process) u
              | None => Ok (resource_usage process)
              end;
      value ← _usage_value usage f fields;
      value ← (if reservable f then
                 shares ← _reserved_budget_value_locked (pid process) f None None s;
                 value ← num_add value shares;
                 active ← _reserved_usage_value_locked (pid process) f s;
                 num_add value active
               else Ok value);
      bound ← _budget_number f limit;
      left ← num_sub bound value;
      Ok (Some (num_max (_budget_zero f) left))
  end.

(** The smallest remainder along a chain. *)
Definition least_remaining (f : budget_field) (fields : list usage_field)
    (reserved_usage : option ResourceUsage) (s : RStore) (chain : list AgentProcess) : res (option num) :=
  foldR (fun remaining process =>
    left ← process_remaining process f fields reserved_usage s;
    Ok (match left with None => remaining | Some v => Some (num_min_opt remaining v) end)) None chain.

Definition _remaining_budget_field_locked (p : string) (f : budget_field) (fields : list usage_field)
    (reserved_usage : option ResourceUsage) (s : RStore) : res (option num) :=
  chain ← _process_chain p s;
  least_remaining f fields reserved_usage s chain.

Definition remaining_cumulative (p : string) (f : budget_field) (g : usage_field) (s : RStore)
    : res (option num) := _remaining_budget_field_locked p f [g] None s.

(** [int(limit)]. *)
Definition py_int (n : num) : res num :=
  match n with
  | NInt z => Ok (NInt z)
  | NFloat f =>
      match view_of_num (NFloat f) with
      | VFin m e => Ok (NInt (if (0 <=? e)%Z then Z.shiftl m e else Z.quot m (2 ^ (- e))))
      | VInf _ => Err (OverflowError "cannot convert float infinity to integer")
      | VNan => Err (ValueError "cannot convert float NaN to integer")
      end
  end.

Definition peak_limit (p : string) (f : budget_field) (s : RStore) : res (option num) :=
  chain ← _process_chain p s;
  foldR (fun selected process =>
    match bget (resource_budget process) f with
    | None => Ok selected
    | Some limit => v ← py_int limit; Ok (Some (num_min_opt selected v))
    end) None chain.

Definition context_materialization_window_limit (p : string) (s : RStore) : res num :=
  chain ← _process_chain p s;
  selected ← foldR (fun selected process =>
    v ← py_int (max_context_materialization_tokens (resource_budget process));
    Ok (Some (num_min_opt selected v))) None chain;
  Ok (default (NInt 0) selected).

(** One field of the requested child budget. *)
Definition validate_child_field (parent : string) (child_budget : ResourceBudget)
    (reserve : ResourceUsage) (s : RStore) (f : budget_field) : res unit :=
  match bget child_budget f with
  | None => Ok tt
  | Some requested =>
      if negb (reservable f) then
        limit ← peak_limit parent f s;
        raise_if (match limit with Some l => num_gtb requested l | None => false end)
          (ResourceLimitExceeded "child budget exceeds parent limit")
      else
        remaining ← _remaining_budget_field_locked parent f (_BUDGET_USAGE_MAP f) (Some reserve) s;
        raise_if (match remaining with Some r => num_gtb requested r | None => false end)
          (ResourceLimitExceeded "child budget exceeds parent remaining")
  end.

Definition validate_child_budget (parent : string) (child_budget : ResourceBudget)
    (reserve : ResourceUsage) : M RStore unit :=
  _ ← lift_res (_coerce_usage (UsageObject reserve));
  _ ← (if _is_zero reserve then mret tt else _preflight_locked parent reserve);
  window ← reading (context_materialization_window_limit parent);
  _ ← lift_res (raise_if (num_gtb (max_context_materialization_tokens child_budget) window)
        (ResourceLimitExceeded "child budget max_context_materialization_tokens exceeds parent limit"));
  reading (fun s => foldR (fun _ f => validate_child_field parent child_budget reserve s f) tt budget_fields).

(** The share a budget takes from the parent. *)
Definition _reservation_from_budget (budget : ResourceBudget) : res (gmap string num) :=
  foldR (fun reserved f =>
    if negb (reservable f) then Ok reserved else
    match bget budget f with
    | None => Ok reserved
    | Some v => n ← _budget_number f v; Ok (<[budget_field_name f := n]> reserved)
    end) ∅ budget_fields.

Definition one_child : ResourceUsage :=
  mk_usage (fun f => match f with child_processes => NInt 1 | _ => usage_default f end).

Definition reserve_child_budget (parent child : string) (child_budget : ResourceBudget) : M RStore unit :=
  _ ← validate_child_budget parent child_budget one_child;
  reserved ← lift_res (_reservation_from_budget child_budget);
  if bool_decide (reserved = ∅) then mret tt else
  let row := {| res_parent_pid := parent; res_child_pid := child; reserved := reserved;
                res_created_at := now; res_updated_at := now |} in
  _ ← lift_res (reservation_validate row);
  _ ← upsert_resource_reservation row;
  record (Audit parent "resource.reserve_child_budget" ("process:" +:+ child)).

Definition release_process_reservations (p : string) : M RStore unit :=
  as_child ← reading (list_resource_reservations (of_child p));
  as_parent ← reading (list_resource_reservations (of_parent p));
  _ ← delete_resource_reservations_for_process p;
  match as_child ++ as_parent with
  | [] => mret tt
  | _ => record (Audit "resource_manager" "resource.release_process_reservations" ("process:" +:+ p))
  end.

(** *** Remaining budgets of several processes *)

(** The shares of all chains, read in one query and summed by parent. *)
Definition sum_shares (rows : list ResourceReservation) : res (gmap (string * string) num) :=
  foldR (fun totals r =>
    foldR (fun totals kv =>
      n ← domain_number (continuous_key (fst kv)) (snd kv);
      let key := (res_parent_pid r, fst kv) in
      let zero := if continuous_key (fst kv) then NFloat (S754_zero false) else NInt 0 in
      v ← num_add (default zero (totals !! key)) n;
      Ok (<[key := v]> totals)) totals (map_to_list (reserved r))) ∅ rows.

(** The chain among the fetched rows, with the cycle check. *)
Fixpoint fetched_chain (fuel : nat) (seen : list string) (p : string) (s : RStore)
    : res (list AgentProcess) :=
  match fuel with
  | O => Err (ValidationError "process parent cycle detected")
  | S n =>
      current ← _get p s;
      if bool_decide (pid current ∈ seen) then Err (ValidationError "process parent cycle detected") else
      match parent_pid current with
      | None => Ok [current]
      | Some q => rest ← fetched_chain n (pid current :: seen) q s; Ok (current :: rest)
      end
  end.

Definition fetched_remaining (shares : gmap (string * string) num) (process : AgentProcess)
    (f : budget_field) (s : RStore) : res (option num) :=
  match bget (resource_budget process) f with
  | None => Ok None
  | Some limit =>
      used ← usage_value (resource_usage process) f;
      used ← (if reservable f then
                used ← num_add used (default (_budget_zero f) (shares !! (pid process, budget_field_name f)));
                active ← _reserved_usage_value_locked (pid process) f s;
                num_add used active
              else Ok used);
      bound ← _budget_number f limit;
      left ← num_sub bound used;
      Ok (Some (num_max (_budget_zero f) left))
  end.

Definition remaining_field (shares : gmap (string * string) num) (chain : list AgentProcess)
    (f : budget_field) (s : RStore) : res (option num) :=
  match f with
  | max_subprocess_memory_bytes =>
      foldR (fun selected process =>
        match bget (resource_budget process) f with
        | None => Ok selected
        | Some limit => v ← py_int limit; Ok (Some (num_min_opt selected v))
        end) None chain
  | _ =>
      foldR (fun remaining process =>
        left ← fetched_remaining shares process f s;
        Ok (match left with None => remaining | Some v => Some (num_min_opt remaining v) end)) None chain
  end.

(** [remaining_budgets]: the result is in the order of the sorted pids. *)
Definition remaining_budgets (pids : list string) (s : RStore) : res (list (string * ResourceBudget)) :=
  let selected := merge_sort str_le
    (remove_dups (List.filter (fun p => negb (String.eqb p "")) pids)) in
  chains ← mapR (fun p => fetched_chain (S (size (processes (base s)))) [] p s) selected;
  let fetched := map pid (concat chains) in
  rows ← list_resource_reservations (fun r => bool_decide (res_parent_pid r ∈ fetched)) s;
  shares ← sum_shares rows;
  mapR (fun pc : string * list AgentProcess =>
    let chain := snd pc in
    window ← foldR (fun selected process =>
      v ← py_int (max_context_materialization_tokens (resource_budget process));
      Ok (Some (num_min_opt selected v))) None chain;
    values ← mapR (fun f => v ← remaining_field shares chain f s; Ok (f, v)) budget_fields;
    let budget := mk_budget
      (fun f => match List.find (fun fv => bool_decide (fst fv = f)) values with
                | Some fv => snd fv | None => None end)
      (default (NInt 0) window) in
    _ ← budget_validate budget;
    Ok (fst pc, budget)) (zip selected chains).
End Manager.
