(* ===== verification/ReservationPages.v ===== *)
(** * Pages of usage reservations

    The keyset pages of [query_resource_usage_reservation_recovery] enumerate
    exactly the active reservations, in cursor order, whatever the page
    size. *)

From S2P Require Import Prelude PyStr PyVal ProcessState ProcessModel ProcessStore ResourceTables ResourceManager.
From stdpp Require Import sorting.

(** ** The cursor order *)

Definition cursor_key (c : ResourceUsageReservationCursor) : string * string :=
  (cur_created_at c, cur_reservation_id c).

Lemma cursor_ltb_irrefl a : cursor_ltb a a = false.
Proof. apply (dated_irrefl (cursor_key a)). Qed.

Lemma cursor_ltb_trans a b c : cursor_ltb a b = true → cursor_ltb b c = true → cursor_ltb a c = true.
Proof. apply (dated_trans (cursor_key a) (cursor_key b) (cursor_key c)). Qed.

Lemma cursor_ltb_total a b : cursor_ltb a b = true ∨ a = b ∨ cursor_ltb b a = true.
Proof.
  destruct (dated_total (cursor_key a) (cursor_key b)) as [?|[E|?]]; [by left| |by right; right].
  right; left. destruct a, b. by injection E as [= -> ->].
Qed.

#[export] Instance cursor_le_total : Total cursor_le.
Proof. apply (dated_le_total (fun r => cursor_key (cursor_of r))). Qed.

#[export] Instance cursor_le_trans : Transitive cursor_le.
Proof. apply (dated_le_trans (fun r => cursor_key (cursor_of r))). Qed.

Lemma cursor_lt_of a b : cursor_le a b → cursor_of a ≠ cursor_of b → cursor_ltb (cursor_of a) (cursor_of b) = true.
Proof. unfold cursor_le. intros H Hne. destruct (cursor_ltb_total (cursor_of a) (cursor_of b)) as [?|[?|?]]; congruence. Qed.

(** ** Active reservations *)

Definition usage_row_ok (id : string) (r : ResourceUsageReservation) : Prop :=
  reservation_id r = id ∧ decode_usage_reservation r = Ok r.

Definition active_rows (s : RStore) : list ResourceUsageReservation :=
  merge_sort cursor_le (List.filter is_active (map snd (map_to_list (usage_reservations s)))).

Lemma decode_ok r :
  decode_usage_reservation r = Ok r → usage_validate (ur_usage r) = Ok tt ∧ ur_created_at r ≠ ""
    ∧ reservation_id r ≠ "" ∧ usage_reservation_validate r = Ok tt.
Proof.
  unfold decode_usage_reservation. intros E. res_simpl.
  repeat match goal with u : () |- _ => destruct u end.
  match goal with H : usage_reservation_validate _ = Ok _ |- _ => pose proof H as Hv end.
  unfold usage_reservation_validate in Hv. rewrite foldR_unit_Ok in Hv.
  split_and!; try done.
  - intros Hc. specialize (Hv ("created_at", ur_created_at r)). rewrite Hc in Hv.
    by assert (raise_if true (ValueError "created_at must be non-empty") = Ok tt) by (apply Hv; set_solver).
  - intros Hc. specialize (Hv ("reservation_id", reservation_id r)). rewrite Hc in Hv.
    by assert (raise_if true (ValueError "reservation_id must be non-empty") = Ok tt) by (apply Hv; set_solver).
Qed.

Lemma list_filter_all {A} (f : A → bool) l : (∀ x, x ∈ l → f x = true) → List.filter f l = l.
Proof. induction l as [|x l IH]; intros H; cbn; [done|]. rewrite (H x) by left. f_equal. apply IH. set_solver. Qed.

Lemma list_filter_none {A} (f : A → bool) l : (∀ x, x ∈ l → f x = false) → List.filter f l = [].
Proof. induction l as [|x l IH]; intros H; cbn; [done|]. rewrite (H x) by left. apply IH. set_solver. Qed.

Section Pages.
Variables page_size hard_limit : nat.
Hypothesis Hpage : 0 < page_size ≤ hard_limit.

Section At.
Variable s : RStore.
Hypothesis Hrows : ∀ id r, usage_reservations s !! id = Some r → usage_row_ok id r.

Lemma elem_of_active r :
  r ∈ active_rows s ↔ usage_reservations s !! reservation_id r = Some r ∧ is_active r = true.
Proof.
  unfold active_rows. rewrite merge_sort_Permutation, list_elem_of_In, filter_In, <-list_elem_of_In,
    list_elem_of_fmap. split.
  - intros [([id r'] & -> & Hin) Ha]. apply elem_of_map_to_list in Hin. cbn in *.
    by destruct (Hrows _ _ Hin) as [-> _].
  - intros [Hl Ha]. split; [|done]. exists (reservation_id r, r). split; [done|]. by apply elem_of_map_to_list.
Qed.

Lemma values_NoDup : NoDup (map snd (map_to_list (usage_reservations s))).
Proof.
  apply (NoDup_fmap_2_strong snd); [|apply NoDup_map_to_list].
  intros [k r] [k' r'] H1 H2 E. apply elem_of_map_to_list in H1, H2. cbn in E. subst r'.
  destruct (Hrows _ _ H1) as [<- _], (Hrows _ _ H2) as [<- _]. done.
Qed.

Lemma active_NoDup : NoDup (active_rows s).
Proof. unfold active_rows. rewrite merge_sort_Permutation. apply NoDup_list_filter, values_NoDup. Qed.

Lemma active_cursor_inj r r' : r ∈ active_rows s → r' ∈ active_rows s → cursor_of r = cursor_of r' → r = r'.
Proof. intros [H1 _]%elem_of_active [H2 _]%elem_of_active [= _ E]. congruence. Qed.

(** The list is strictly increasing. *)
Lemma active_sorted : StronglySorted (fun a b => cursor_ltb (cursor_of a) (cursor_of b) = true) (active_rows s).
Proof.
  assert (Hs : StronglySorted cursor_le (active_rows s)) by (apply StronglySorted_merge_sort; apply _).
  pose proof active_NoDup as Hnd. pose proof active_cursor_inj as Hinj. revert Hinj.
  induction Hs as [|x l Hl IH Hx]; intros Hinj; [constructor|]. apply NoDup_cons in Hnd as [Hxl Hnd].
  constructor; [apply IH; [done|]; intros; apply Hinj; set_solver|].
  rewrite Forall_forall in *. intros y Hy. apply cursor_lt_of; [by apply Hx|].
  intros E. rewrite (Hinj x y) in Hxl by set_solver. done.
Qed.

Definition beyond (after : option ResourceUsageReservationCursor) (r : ResourceUsageReservation) : bool :=
  match after with Some c => cursor_ltb c (cursor_of r) | None => true end.

Lemma sorted_after after :
  merge_sort cursor_le (List.filter (active_after after) (map snd (map_to_list (usage_reservations s))))
  = List.filter (beyond after) (active_rows s).
Proof.
  assert (Hf : ∀ l, List.filter (active_after after) l = List.filter (beyond after) (List.filter is_active l)).
  { induction l as [|x l IH]; [done|]. cbn. unfold active_after at 1. fold (beyond after x).
    destruct (is_active x); cbn; [destruct (beyond after x)|]; by rewrite IH. }
  apply (StronglySorted_unique_strong cursor_le).
  - intros x y Hx Hy Hxy Hyx. rewrite merge_sort_Permutation in Hx.
    apply list_elem_of_In, filter_In in Hy as [Hy _]. apply list_elem_of_In in Hy.
    apply active_cursor_inj; [|done|].
    + apply elem_of_active. rewrite list_elem_of_In, filter_In, <-list_elem_of_In, list_elem_of_fmap in Hx.
      destruct Hx as [([id r] & -> & Hin) Ha]. apply elem_of_map_to_list in Hin. cbn in *.
      destruct (Hrows _ _ Hin) as [-> _]. split; [done|]. unfold active_after in Ha. by apply andb_true_iff in Ha as [-> _].
    + unfold cursor_le in *. destruct (cursor_ltb_total (cursor_of x) (cursor_of y)) as [?|[?|?]]; congruence.
  - apply StronglySorted_merge_sort; apply _.
  - assert (Hs : StronglySorted cursor_le (active_rows s)) by (apply StronglySorted_merge_sort; apply _).
    revert Hs. generalize (active_rows s). induction 1 as [|x l Hl IH Hx]; cbn; [constructor|].
    destruct (beyond after x); [|done]. constructor; [done|]. rewrite Forall_forall in *.
    intros y Hy. apply Hx. by apply list_elem_of_In, filter_In in Hy as [?%list_elem_of_In _].
  - rewrite merge_sort_Permutation, Hf. unfold active_rows.
    assert (Hp : ∀ l k : list ResourceUsageReservation, l ≡ₚ k → List.filter (beyond after) l ≡ₚ List.filter (beyond after) k).
    { induction 1; cbn; repeat case_match; try done; [by constructor|by constructor|by etrans]. }
    apply Hp. by rewrite merge_sort_Permutation.
Qed.

(** One page of what lies beyond the cursor. *)
Lemma next_page_run after :
  let todo := List.filter (beyond after) (active_rows s) in
  next_page page_size hard_limit after s
  = Ok {| page_records := take page_size todo;
          next_cursor := if page_size <? length todo
                         then option_map cursor_of (list.last (take page_size todo)) else None |}.
Proof.
  intros todo.
  assert (Hin : ∀ r, r ∈ todo → r ∈ active_rows s ∧ beyond after r = true).
  { intros r Hr. unfold todo in Hr. rewrite list_elem_of_In, filter_In, <-list_elem_of_In in Hr. done. }
  assert (Hdec : ∀ r, r ∈ todo → decode_usage_reservation r = Ok r).
  { intros r [Hr _]%Hin. apply elem_of_active in Hr as [Hr _]. by destruct (Hrows _ _ Hr). }
  assert (Hsub : ∀ r, r ∈ take page_size todo → r ∈ todo) by (intros r (i & Hi & _)%elem_of_take; by eapply list_elem_of_lookup_2).
  assert (Hquery : query_resource_usage_reservation_recovery hard_limit after page_size s
    = Ok {| page_records := take page_size todo;
            next_cursor := if page_size <? length todo
                           then option_map cursor_of (list.last (take page_size todo)) else None |}).
  { unfold query_resource_usage_reservation_recovery, _resource_usage_reservation_recovery_limit.
    replace (page_size =? 0) with false by (symmetry; apply Nat.eqb_neq; lia).
    replace (hard_limit <? page_size) with false by (symmetry; apply Nat.ltb_ge; lia).
    cbn [raise_if]. rewrite !res_bind_ok, sorted_after. fold todo.
    rewrite take_take, Nat.min_l by lia. rewrite (mapR_id _ (take page_size todo)).
    2: { apply Forall_forall. intros r Hr. unfold _row_to_resource_usage_reservation.
         by rewrite (Hdec r (Hsub r Hr)). }
    rewrite res_bind_ok, length_take.
    replace (page_size <? S page_size `min` length todo) with (page_size <? length todo)
      by (destruct (Nat.ltb_spec page_size (length todo)); symmetry; [apply Nat.ltb_lt|apply Nat.ltb_ge]; lia).
    destruct (Nat.ltb_spec page_size (length todo)) as [Hlt|Hge]; [|done].
    destruct (list.last (take page_size todo)) as [r|] eqn:El.
    - apply last_Some_elem_of in El as Hr. apply Hsub, Hdec, decode_ok in Hr as (_ & Hc & Hi & _).
      unfold mk_cursor. rewrite (proj2 (String.eqb_neq _ _) Hc), (proj2 (String.eqb_neq _ _) Hi).
      cbn [raise_if]. rewrite !res_bind_ok. unfold mk_page. by destruct (take page_size todo).
    - apply last_None in El. destruct todo; cbn in El, Hlt; [lia|]. by destruct page_size; [lia|]. }
  unfold next_page. rewrite Hquery, res_bind_ok. unfold check_page. cbn [page_records next_cursor].
  rewrite length_take.
  replace (page_size <? page_size `min` length todo) with false by (symmetry; apply Nat.ltb_ge; lia).
  cbn [raise_if]. rewrite res_bind_ok.
  assert (Hcheck : ∀ l prev, (∀ r, r ∈ l → r ∈ todo) →
     StronglySorted (fun a b => cursor_ltb (cursor_of a) (cursor_of b) = true) l →
     (∀ r c, r ∈ l → prev = Some c → cursor_ltb c (cursor_of r) = true) →
     check_records prev l = Ok (match list.last l with Some r => Some (cursor_of r) | None => prev end)).
  { induction l as [|r l IH]; intros prev Hl Hs Hp; [done|]. cbn [check_records].
    pose proof (Hl r ltac:(left)) as Hr. destruct (decode_ok r (Hdec r Hr)) as (_ & Hc & Hi & _).
    unfold mk_cursor at 1. rewrite (proj2 (String.eqb_neq _ _) Hc), (proj2 (String.eqb_neq _ _) Hi).
    cbn [raise_if]. rewrite !res_bind_ok. fold (cursor_of r).
    apply Hin in Hr as [Hr _]. apply elem_of_active in Hr as [_ ->]. cbn [negb orb].
    replace (match prev with Some c => negb (cursor_ltb c (cursor_of r)) | None => false end) with false
      by (destruct prev as [c|]; [|done]; by rewrite (Hp r c) by (try left; done)).
    cbn [raise_if]. rewrite res_bind_ok. inversion Hs as [|? ? Hs' Hx]; subst.
    rewrite IH; [rewrite last_cons; by destruct (list.last l)|intros; apply Hl; by right|done|].
    intros r' c Hr' [= <-]. rewrite Forall_forall in Hx. by apply Hx. }
  rewrite Hcheck; [|done| |].
  - destruct (Nat.ltb_spec page_size (length todo)) as [Hlt|Hge]; [|done].
    destruct (list.last (take page_size todo)) as [r|] eqn:El; [by rewrite res_bind_ok; cbn; rewrite bool_decide_true|].
    done.
  - pose proof active_sorted as Hs.
    assert (Hft : StronglySorted (fun a b => cursor_ltb (cursor_of a) (cursor_of b) = true) todo).
    { unfold todo. revert Hs. generalize (active_rows s). induction 1 as [|x l Hl IH Hx]; cbn; [constructor|].
      destruct (beyond after x); [|done]. constructor; [done|]. rewrite Forall_forall in *.
      intros y Hy. apply Hx. by apply list_elem_of_In, filter_In in Hy as [?%list_elem_of_In _]. }
    rewrite <-(take_drop page_size todo) in Hft. by eapply StronglySorted_app_1_l.
  - intros r c Hr ->. by apply Hsub, Hin in Hr as [_ ?].
Qed.

Lemma filter_sorted_cursor f l :
  StronglySorted (fun a b => cursor_ltb (cursor_of a) (cursor_of b) = true) l →
  StronglySorted (fun a b => cursor_ltb (cursor_of a) (cursor_of b) = true) (List.filter f l).
Proof.
  induction 1 as [|x l Hl IH Hx]; cbn; [constructor|]. destruct (f x); [|done].
  constructor; [done|]. rewrite Forall_forall in *.
  intros y Hy. apply Hx. by apply list_elem_of_In, filter_In in Hy as [?%list_elem_of_In _].
Qed.

(** The next page starts where this one ends. *)
Lemma beyond_page after x :
  let todo := List.filter (beyond after) (active_rows s) in
  list.last (take page_size todo) = Some x →
  List.filter (beyond (Some (cursor_of x))) (active_rows s) = drop page_size todo.
Proof.
  intros todo Hx. assert (Hs : StronglySorted (fun a b => cursor_ltb (cursor_of a) (cursor_of b) = true) todo)
    by (apply filter_sorted_cursor, active_sorted).
  assert (Hxt : beyond after x = true).
  { apply last_Some_elem_of, elem_of_take in Hx as (i & Hi & _). apply list_elem_of_lookup_2 in Hi.
    unfold todo in Hi. rewrite list_elem_of_In, filter_In in Hi. by destruct Hi. }
  assert (Ht : List.filter (beyond (Some (cursor_of x))) (active_rows s)
               = List.filter (beyond (Some (cursor_of x))) todo).
  { unfold todo. clear -Hxt. induction (active_rows s) as [|y l IH]; [done|]. cbn [List.filter].
    destruct (beyond (Some (cursor_of x)) y) eqn:Ey.
    - destruct (beyond after y) eqn:Ea; [cbn [List.filter]; rewrite Ey; by f_equal|].
      destruct after as [c|]; [|done]. cbn in *. by rewrite (cursor_ltb_trans _ _ _ Hxt Ey) in Ea.
    - destruct (beyond after y); [cbn [List.filter]; by rewrite Ey|done]. }
  rewrite Ht, <-(take_drop page_size todo) at 1. rewrite List.filter_app.
  rewrite <-(take_drop page_size todo) in Hs. apply StronglySorted_app in Hs as (Hcross & Hs1 & _).
  rewrite list_filter_none, list_filter_all; [done| |].
  - intros y Hy. cbn. apply Hcross; [by apply last_Some_elem_of|done].
  - intros y Hy. cbn. apply not_true_iff_false. intros E.
    apply last_Some in Hx as (l' & Hl'). rewrite Hl' in Hs1, Hy.
    apply elem_of_app in Hy as [Hy|Hy%list_elem_of_singleton].
    + apply StronglySorted_app in Hs1 as (Hc & _ & _). pose proof (Hc y x Hy ltac:(set_solver)) as E'.
      pose proof (cursor_ltb_trans _ _ _ E E') as Ec. by rewrite cursor_ltb_irrefl in Ec.
    + subst y. by rewrite cursor_ltb_irrefl in E.
Qed.

Lemma iter_active_run fuel after :
  length (List.filter (beyond after) (active_rows s)) < fuel →
  iter_active page_size hard_limit fuel after s = Ok (List.filter (beyond after) (active_rows s)).
Proof.
  revert after. induction fuel as [|n IH]; intros after Hlen; [lia|]. cbn [iter_active].
  rewrite next_page_run, res_bind_ok. cbn [next_cursor page_records].
  set (todo := List.filter (beyond after) (active_rows s)) in *.
  destruct (Nat.ltb_spec page_size (length todo)) as [Hlt|Hge]; [|by rewrite take_ge by lia].
  destruct (list.last (take page_size todo)) as [x|] eqn:El.
  - cbn [option_map]. rewrite IH; rewrite (beyond_page after x El); fold todo.
    + by rewrite res_bind_ok, take_drop.
    + rewrite length_drop. lia.
  - apply last_None in El. destruct todo; cbn in El, Hlt; [lia|]. by destruct page_size; [lia|].
Qed.

Lemma active_length : length (active_rows s) ≤ size (usage_reservations s).
Proof.
  unfold active_rows. rewrite merge_sort_Permutation.
  etrans; [apply List.filter_length_le|]. rewrite length_map, length_map_to_list. done.
Qed.

(** The pages give the active rows. *)
Lemma iter_active_rows :
  _iter_active_usage_reservations page_size hard_limit s = Ok (active_rows s).
Proof.
  unfold _iter_active_usage_reservations. pose proof active_length as Hl.
  assert (Ha : List.filter (beyond None) (active_rows s) = active_rows s) by (by apply list_filter_all).
  rewrite iter_active_run; rewrite Ha; [done|lia].
Qed.
End At.
End Pages.
