(* ===== verification/ResourceViews.v ===== *)
(** * Resource accounting in integers

    On the discrete budget fields the numbers of the resource manager are
    integers.  This file reads them off the tables: usage, shares, active
    envelopes and where they sit, and proves that the manager's functions
    compute exactly these values. *)

From S2P Require Import Prelude FiniteSums PyStr PyVal ProcessState ProcessModel ProcessStore ProcessWrites ProcessInvariant ProcessProperties ResourceTables ResourceManager ReservationPages.
From stdpp Require Import sorting.

(** ** The tables of fields *)

Lemma budget_fields_complete f : f ∈ budget_fields.
Proof. apply list_elem_of_In. destruct f; cbn; tauto. Qed.

Lemma budget_fields_NoDup : NoDup budget_fields.
Proof. apply (bool_decide_unpack _). vm_compute. exact I. Qed.

(** ** Usage *)

Definition counted (f : budget_field) : Prop := continuous_budget f = false.

Definition zval (n : num) : Z := match n with NInt z => z | NFloat _ => 0 end.

Definition uval (u : ResourceUsage) (f : budget_field) : Z :=
  zsum (fun g => zval (uget u g)) (_BUDGET_USAGE_MAP f).

Definition usage_ok (u : ResourceUsage) : Prop := usage_validate u = Ok tt.

(** Nothing on the continuous fields. *)
Definition discrete (u : ResourceUsage) : Prop :=
  ∀ g, continuous_usage g = true → is_zero (uget u g) = true.

Lemma counted_fields f g : counted f → g ∈ _BUDGET_USAGE_MAP f → continuous_usage g = false.
Proof. unfold counted. destruct f; cbn; intros ? Hg; try done; set_solver. Qed.

Lemma usage_ok_int u g :
  usage_ok u → continuous_usage g = false → ∃ z, uget u g = NInt z ∧ (0 <= z)%Z.
Proof. intros Hu. by apply (usage_validate_sound u Hu g). Qed.

Lemma uval_nonneg u f : usage_ok u → counted f → (0 <= uval u f)%Z.
Proof.
  intros Hu Hf. apply zsum_nonneg. intros g Hg.
  destruct (usage_ok_int u g Hu (counted_fields f g Hf Hg)) as (z & -> & ?). done.
Qed.

Lemma foldR_add_int {A} (h : A → num) (l : list A) acc :
  (∀ x, x ∈ l → h x = NInt (zval (h x))) →
  foldR (fun total x => num_add total (h x)) (NInt acc) l = Ok (NInt (acc + zsum (fun x => zval (h x)) l)).
Proof.
  revert acc. induction l as [|x l IH]; intros acc H; cbn [foldR zsum]; [by rewrite Z.add_0_r|].
  rewrite (H x) by left. cbn [num_add]. rewrite res_bind_ok, IH; [|intros y Hy; apply H; by right].
  cbn [zval]. do 2 f_equal. lia.
Qed.

Lemma usage_value_int u f : usage_ok u → counted f → usage_value u f = Ok (NInt (uval u f)).
Proof.
  intros Hu Hf.
  assert (Hi : ∀ g, g ∈ _BUDGET_USAGE_MAP f → uget u g = NInt (zval (uget u g))).
  { intros g Hg. by destruct (usage_ok_int u g Hu (counted_fields f g Hf Hg)) as (z & -> & _). }
  unfold usage_value, _usage_value, uval.
  destruct f; try (rewrite foldR_add_int by done; done).
  rewrite (Hi subprocess_peak_memory_bytes) by left. cbn. by rewrite Z.add_0_r.
Qed.

Lemma is_zero_int z : is_zero (NInt z) = bool_decide (z = 0%Z).
Proof.
  unfold is_zero, num_eqb, num_compare. cbn. rewrite !Z.shiftl_0_r.
  destruct (Z.compare_spec z 0); subst; case_bool_decide; done || lia.
Qed.

Lemma num_leb_int a b : num_leb (NInt a) (NInt b) = (a <=? b)%Z.
Proof.
  unfold num_leb, num_compare. cbn. rewrite !Z.shiftl_0_r. unfold Z.leb.
  by destruct (Z.compare a b).
Qed.

Lemma num_max_int a b : num_max (NInt a) (NInt b) = NInt (Z.max a b).
Proof. unfold num_max. rewrite num_gtb_int. destruct (Z.ltb_spec a b); f_equal; lia. Qed.

Lemma num_min_int a b : num_min (NInt a) (NInt b) = NInt (Z.min a b).
Proof.
  unfold num_min. fold (num_gtb (NInt a) (NInt b)). rewrite num_gtb_int.
  destruct (Z.ltb_spec b a); f_equal; lia.
Qed.

Lemma budget_zero_int f : counted f → _budget_zero f = NInt 0.
Proof. unfold counted, _budget_zero. by intros ->. Qed.

(** A field whose usage fields are all zero has value zero. *)
Lemma irrelevant_uval u f :
  usage_ok u → counted f → relevant (_nonzero_fields u) f = false → uval u f = 0%Z.
Proof.
  intros Hu Hf Hr. apply zsum_zero. intros g Hg.
  destruct (usage_ok_int u g Hu (counted_fields f g Hf Hg)) as (z & Ez & _). rewrite Ez. cbn.
  apply not_true_iff_false in Hr. destruct (decide (z = 0%Z)) as [|Hz]; [done|]. destruct Hr.
  unfold relevant. apply existsb_exists. exists g. split; [by apply list_elem_of_In|].
  apply bool_decide_eq_true, list_elem_of_In. unfold _nonzero_fields. apply filter_In.
  split; [apply list_elem_of_In, usage_fields_complete|]. rewrite Ez, is_zero_int.
  by rewrite bool_decide_false.
Qed.

(** A discrete usage makes only discrete fields relevant. *)
Lemma relevant_counted u f : discrete u → relevant (_nonzero_fields u) f = true → counted f.
Proof.
  intros Hd Hr. unfold relevant in Hr. apply existsb_exists in Hr as (g & Hg & Hin).
  apply bool_decide_eq_true in Hin. unfold _nonzero_fields in Hin.
  apply list_elem_of_In, filter_In in Hin as [_ Hin]. apply negb_true_iff in Hin.
  unfold counted. destruct (continuous_budget f) eqn:E; [|done].
  rewrite Hd in Hin; [done|]. destruct f; try done; cbn in Hg; by destruct Hg as [<-|[]].
Qed.

(** ** Sums and peaks of usage *)

Lemma mapR_each {A B} (h : A → res B) l : (∀ x, x ∈ l → is_Ok (h x) = true) → is_Ok (mapR h l) = true.
Proof.
  induction l as [|x l IH]; intros H; cbn; [done|]. pose proof (H x ltac:(left)) as Hx.
  destruct (h x); [|done]. rewrite res_bind_ok.
  destruct (mapR h l) eqn:E; [done|]. apply IH. intros y Hy. apply H. by right.
Qed.

Lemma merge_usage_Ok a b u :
  _merge_usage a b = Ok u → usage_ok u ∧ ∀ g, merge_field a b g = Ok (uget u g).
Proof.
  unfold _merge_usage. intros E. res_simpl.
  match goal with H : mapR _ _ = Ok ?l |- _ => apply mapR_Ok in H as HF end.
  split; [unfold usage_ok; by destruct a1|]. intros g. cbn.
  destruct (merge_field a b g) as [n|e] eqn:Eg; [done|].
  exfalso. pose proof (usage_fields_complete g) as Hg. apply list_elem_of_lookup in Hg as (i & Hi).
  eapply Forall2_lookup_l in HF as (y & _ & Hy); [|exact Hi]. congruence.
Qed.

(** The value of merged usage: sums, except the memory peak. *)
Lemma merge_uval a b u f :
  usage_ok a → usage_ok b → _merge_usage a b = Ok u → counted f →
  uval u f = (match f with max_subprocess_memory_bytes => Z.max (uval a f) (uval b f)
              | _ => uval a f + uval b f end)%Z.
Proof.
  intros Ha Hb [_ Hm]%merge_usage_Ok Hf.
  assert (Hg : ∀ g, continuous_usage g = false →
     zval (uget u g) = (if peak_usage g then Z.max (zval (uget a g)) (zval (uget b g))
                        else zval (uget a g) + zval (uget b g))%Z).
  { intros g Hc. specialize (Hm g). unfold merge_field in Hm.
    destruct (usage_ok_int a g Ha Hc) as (x & Ex & _), (usage_ok_int b g Hb Hc) as (y & Ey & _).
    rewrite Ex, Ey in Hm. destruct (peak_usage g); [rewrite num_max_int in Hm|];
      injection Hm as <-; by rewrite Ex, Ey. }
  unfold uval. destruct f; try done; cbn [_BUDGET_USAGE_MAP zsum];
    rewrite !Hg by done; cbn [peak_usage]; lia.
Qed.

(** ** Shares *)

Definition share_row_ok (k : string * string) (r : ResourceReservation) : Prop :=
  k = (res_parent_pid r, res_child_pid r) ∧ _row_to_resource_reservation r = Ok r.

Definition share (r : ResourceReservation) (f : budget_field) : Z :=
  zval (default (NInt 0) (reserved r !! budget_field_name f)).

Lemma continuous_key_name f : continuous_key (budget_field_name f) = continuous_budget f.
Proof. destruct f; vm_compute; reflexivity. Qed.

(** A row that decodes to itself holds normalized non-negative numbers. *)
Lemma decoded_number r k n :
  _row_to_resource_reservation r = Ok r → reserved r !! k = Some n →
  domain_number (continuous_key k) n = Ok n ∧ nonneg_num n.
Proof.
  unfold _row_to_resource_reservation. intros E Hk. res_simpl.
  match goal with H : mapR _ _ = Ok ?l |- _ => rename H into Hm, l into items end.
  match goal with H : reservation_validate _ = Ok ?x |- _ => rename H into Hv; destruct x end.
  apply mapR_Ok in Hm. destruct r as [rp rc m c1 c2]. cbn in *. injection E as E.
  assert (Hkeys : map fst items = map fst (map_to_list m)).
  { clear -Hm. induction Hm as [|[k n] [k' n'] l l' Hx _ IH]; [done|]. cbn. res_simpl. by rewrite IH. }
  assert (Hnd : NoDup (map fst items)) by (rewrite Hkeys; apply NoDup_fst_map_to_list).
  apply elem_of_map_to_list in Hk as Hin. apply list_elem_of_lookup in Hin as (i & Hi).
  eapply Forall2_lookup_l in Hm as ([k' n'] & Hi' & Hn); [|exact Hi]. cbn in Hn.
  apply bind_Ok in Hn as (v & Hn & [= <- <-]).
  apply list_elem_of_lookup_2 in Hi'. apply elem_of_list_to_map_1 in Hi' as Hl; [|done].
  rewrite E, Hk in Hl. injection Hl as <-. split; [done|].
  unfold reservation_validate in Hv. cbn in Hv. rewrite foldR_unit_Ok in Hv.
  apply elem_of_map_to_list in Hk. rewrite E in Hv. specialize (Hv _ Hk). cbn in Hv.
  by eapply validate_number_nonneg.
Qed.

Lemma share_int r f :
  _row_to_resource_reservation r = Ok r → counted f →
  reserved_number r f = Ok (NInt (share r f)) ∧ (0 <= share r f)%Z.
Proof.
  intros Hr Hf. unfold reserved_number, share, _budget_number. rewrite budget_zero_int by done.
  destruct (reserved r !! budget_field_name f) as [n|] eqn:E; cbn [default from_option id];
    [|by rewrite Hf].
  destruct (decoded_number r _ n Hr E) as [Hd Hn]. rewrite continuous_key_name in Hd.
  unfold counted in Hf. rewrite Hf in *. destruct n as [z|x]; [done|].
  cbn in Hd. res_simpl.
Qed.

Section Tables.
Variable s : RStore.

Definition share_of (a c : string) (f : budget_field) : Z :=
  match reservations s !! (a, c) with Some r => share r f | None => 0 end.

Definition share_rows (a : string) : list ResourceReservation :=
  merge_sort reservation_le (List.filter (of_parent a) (map snd (map_to_list (reservations s)))).

Hypothesis Hshares : ∀ k r, reservations s !! k = Some r → share_row_ok k r.

Lemma elem_of_share_rows a r :
  r ∈ share_rows a ↔ reservations s !! (a, res_child_pid r) = Some r.
Proof.
  unfold share_rows. rewrite merge_sort_Permutation, list_elem_of_In, filter_In, <-list_elem_of_In.
  unfold of_parent. rewrite String.eqb_eq, list_elem_of_fmap. split.
  - intros [([k r'] & -> & Hin) Hp]. apply elem_of_map_to_list in Hin. cbn in *.
    destruct (Hshares _ _ Hin) as [-> _]. by rewrite Hp in Hin.
  - intros Hl. destruct (Hshares _ _ Hl) as [[= Hp] _]. split; [|done].
    exists ((a, res_child_pid r), r). split; [done|]. by apply elem_of_map_to_list.
Qed.

Lemma list_reservations_all clause :
  list_resource_reservations clause s
  = Ok (merge_sort reservation_le (List.filter clause (map snd (map_to_list (reservations s))))).
Proof.
  unfold list_resource_reservations. apply mapR_id. apply Forall_forall. intros r.
  rewrite merge_sort_Permutation, list_elem_of_In, filter_In, <-list_elem_of_In, list_elem_of_fmap.
  intros [([k r'] & -> & Hin) _]. apply elem_of_map_to_list in Hin. by destruct (Hshares _ _ Hin).
Qed.

Lemma list_reservations_parent a :
  list_resource_reservations (of_parent a) s = Ok (share_rows a).
Proof. apply list_reservations_all. Qed.

Lemma share_rows_children a : NoDup (map res_child_pid (share_rows a)).
Proof.
  unfold share_rows. rewrite merge_sort_Permutation.
  assert (Hnd : NoDup (map snd (map_to_list (reservations s)))).
  { apply (NoDup_fmap_2_strong snd); [|apply NoDup_map_to_list].
    intros [k r] [k' r'] H1 H2 E. apply elem_of_map_to_list in H1, H2. cbn in E. subst r'.
    destruct (Hshares _ _ H1) as [-> _], (Hshares _ _ H2) as [-> _]. done. }
  apply (NoDup_fmap_2_strong res_child_pid).
  - intros r r'. rewrite !list_elem_of_In, !filter_In, <-!list_elem_of_In, !list_elem_of_fmap.
    unfold of_parent. rewrite !String.eqb_eq.
    intros [([k x] & -> & H1) P1] [([k' x'] & -> & H2) P2] E. apply elem_of_map_to_list in H1, H2. cbn in *.
    destruct (Hshares _ _ H1) as [-> _], (Hshares _ _ H2) as [-> _]. congruence.
  - by apply NoDup_list_filter.
Qed.

Lemma share_of_nonneg a c f : counted f → (0 <= share_of a c f)%Z.
Proof.
  intros Hf. unfold share_of. destruct (reservations s !! (a, c)) as [r|] eqn:E; [|done].
  destruct (Hshares _ _ E) as [_ Hr]. by apply share_int.
Qed.

Lemma share_rows_of a r f : r ∈ share_rows a → share r f = share_of a (res_child_pid r) f.
Proof. intros Hr. apply elem_of_share_rows in Hr. unfold share_of. by rewrite Hr. Qed.

Lemma share_rows_ok a r : r ∈ share_rows a → _row_to_resource_reservation r = Ok r.
Proof. intros Hr. apply elem_of_share_rows in Hr. by destruct (Hshares _ _ Hr). Qed.

(** The children a cover must list. *)
Definition covers_shares (a : string) (ks : list string) : Prop :=
  NoDup ks ∧ ∀ r, r ∈ share_rows a → res_child_pid r ∈ ks.

Lemma zsum_share_rows a ks (h : string → Z) :
  covers_shares a ks → (∀ c, reservations s !! (a, c) = None → h c = 0%Z) →
  zsum (fun r => h (res_child_pid r)) (share_rows a) = zsum h ks.
Proof.
  intros [Hnd Hks] Hz. rewrite <-(zsum_map res_child_pid h). apply zsum_cover.
  - apply share_rows_children.
  - done.
  - intros c Hc. apply list_elem_of_fmap in Hc as (r & -> & Hr). by apply Hks.
  - intros c _ Hc. apply Hz. destruct (reservations s !! (a, c)) as [r|] eqn:E; [|done].
    destruct Hc. apply list_elem_of_fmap. destruct (Hshares _ _ E) as [[= Ha Hc'] _]. exists r.
    split; [done|]. apply elem_of_share_rows. by rewrite <-Hc'.
Qed.

(** The share of one child after usage [d] went through it. *)
Definition left_share (a : string) (through : option (string * Z)) (f : budget_field) (c : string) : Z :=
  match through with
  | Some (c', d) => if decide (c = c') then Z.max 0 (share_of a c f - d) else share_of a c f
  | None => share_of a c f
  end.

Definition through_of (below : option string) (usage : ResourceUsage) (f : budget_field)
    : option (string * Z) :=
  match below with Some c => Some (c, uval usage f) | None => None end.

Lemma reserved_budget_value_int a f below consuming ks :
  counted f → covers_shares a ks → (∀ u, consuming = Some u → usage_ok u) →
  _reserved_budget_value_locked a f below consuming s
  = Ok (NInt (zsum (left_share a (match consuming with Some u => through_of below u f | None => None end) f) ks)).
Proof.
  intros Hf Hks Hu. unfold _reserved_budget_value_locked. rewrite list_reservations_parent, res_bind_ok.
  set (th := match consuming with Some u => through_of below u f | None => None end).
  rewrite <-(zsum_share_rows a ks (left_share a th f)).
  2: done.
  2: { intros c Hc. unfold left_share, share_of. rewrite Hc.
       destruct th as [[c' d]|] eqn:Eth; [|done]. destruct (decide (c = c')); [|done].
       unfold th in Eth. destruct consuming as [u|]; [|done]. destruct below as [b|]; [|done].
       injection Eth as <- <-. pose proof (uval_nonneg u f (Hu u eq_refl) Hf). lia. }
  rewrite budget_zero_int by done. rewrite <-(Z.add_0_l (zsum _ _)). generalize 0%Z at 3 4.
  assert (Hrows : ∀ r, r ∈ share_rows a → r ∈ share_rows a) by done. revert Hrows.
  generalize (share_rows a) at 1 3 4. intros rows. induction rows as [|r rows IH]; intros Hrows acc.
  { cbn. by rewrite Z.add_0_r. }
  cbn [foldR zsum].
  pose proof (Hrows r ltac:(left)) as Hr. destruct (share_int r f (share_rows_ok a r Hr) Hf) as [-> Hnn].
  rewrite res_bind_ok, num_leb_int, (share_rows_of a r f Hr) in *.
  assert (Hstep : (if (share_of a (res_child_pid r) f <=? 0)%Z then Ok (NInt acc) else
      value ← match consuming with
              | Some usage => if bool_decide (below = Some (res_child_pid r)) then
                  used ← usage_value usage f; left ← num_sub (NInt (share_of a (res_child_pid r) f)) used;
                  Ok (num_max (NInt 0) left)
                else Ok (NInt (share_of a (res_child_pid r) f))
              | None => Ok (NInt (share_of a (res_child_pid r) f)) end;
      num_add (NInt acc) value) = Ok (NInt (acc + left_share a th f (res_child_pid r)))).
  { destruct (Z.leb_spec (share_of a (res_child_pid r) f) 0) as [Hle|Hgt].
    - assert (share_of a (res_child_pid r) f = 0%Z) as E0 by lia.
      unfold left_share. rewrite E0. destruct th as [[c' d]|] eqn:Eth; [|do 2 f_equal; lia].
      destruct (decide _); [|do 2 f_equal; lia].
      unfold th in Eth. destruct consuming as [u|]; [|done]. destruct below as [b|]; [|done].
      injection Eth as <- <-. pose proof (uval_nonneg u f (Hu u eq_refl) Hf). do 2 f_equal. lia.
    - unfold th, left_share. destruct consuming as [u|]; [|done]. destruct below as [b|]; [|done].
      cbn [through_of]. case_bool_decide as Eb.
      + injection Eb as ->. rewrite decide_True by done. rewrite usage_value_int by eauto.
        rewrite res_bind_ok. cbn [num_sub]. by rewrite res_bind_ok, num_max_int.
      + rewrite decide_False by congruence. done. }
  rewrite Hstep, res_bind_ok, IH; [|intros r' Hr'; apply Hrows; by right]. do 2 f_equal. lia.
Qed.
End Tables.

(** ** The process tree *)

Inductive chain_at (procs : gmap string AgentProcess) : string → list AgentProcess → Prop :=
| chain_root p row : procs !! p = Some row → parent_pid row = None → chain_at procs p [row]
| chain_up p row q rest : procs !! p = Some row → parent_pid row = Some q → chain_at procs q rest →
    chain_at procs p (row :: rest).

(** Parents exist and the links have no cycle. *)
Definition forest (procs : gmap string AgentProcess) : Prop :=
  ∃ rank : string → nat, ∀ p row q, procs !! p = Some row → parent_pid row = Some q →
    is_Some (procs !! q) ∧ rank q < rank p.

Section Tree.
Variable s : RStore.
Abbreviation procs := (processes (base s)).
Hypothesis Hstore : store_inv (base s).
Hypothesis Hforest : forest procs.

Lemma row_decodes p row : procs !! p = Some row → _row_to_process row = Ok row ∧ pid row = p.
Proof. by apply stored_row_decodes. Qed.

Lemma get_run p : _get p s = match procs !! p with
                             | Some row => Ok row | None => Err (NotFound "process not found") end.
Proof.
  unfold _get, read_process. destruct (procs !! p) as [row|] eqn:E; [|done].
  destruct (row_decodes p row E) as [-> _]. done.
Qed.

Lemma chain_exists p row : procs !! p = Some row → ∃ l, chain_at procs p l.
Proof.
  destruct Hforest as [rank Hrank]. remember (rank p) as n eqn:En. revert p row En.
  induction n as [n IH] using lt_wf_ind. intros p row -> Hp.
  destruct (parent_pid row) as [q|] eqn:Eq.
  - destruct (Hrank p row q Hp Eq) as [[prow Hq] Hlt].
    destruct (IH (rank q) Hlt q prow eq_refl Hq) as [l Hl]. exists (row :: l). by eapply chain_up.
  - exists [row]. by apply chain_root.
Qed.

Lemma chain_lookup p l : chain_at procs p l → ∃ row rest, l = row :: rest ∧ procs !! p = Some row.
Proof. inversion 1; subst; eauto. Qed.

Lemma chain_rows p l row : chain_at procs p l → row ∈ l → procs !! pid row = Some row.
Proof.
  induction 1 as [p r Hp _|p r q rest Hp _ _ IH]; intros Hin.
  - apply list_elem_of_singleton in Hin as ->. by destruct (row_decodes p r Hp) as [_ ->].
  - apply elem_of_cons in Hin as [->|Hin]; [|by apply IH]. by destruct (row_decodes p r Hp) as [_ ->].
Qed.

Lemma chain_rank p l :
  chain_at procs p l → ∀ rank : string → nat,
  (∀ p row q, procs !! p = Some row → parent_pid row = Some q → is_Some (procs !! q) ∧ rank q < rank p) →
  ∀ row, row ∈ l → rank (pid row) ≤ rank p.
Proof.
  induction 1 as [p r Hp _|p r q rest Hp Hq _ IH]; intros rank Hrank row Hin.
  - apply list_elem_of_singleton in Hin as ->. by destruct (row_decodes p r Hp) as [_ ->].
  - apply elem_of_cons in Hin as [->|Hin]; [by destruct (row_decodes p r Hp) as [_ ->]|].
    destruct (Hrank p r q Hp Hq) as [_ Hlt]. specialize (IH rank Hrank row Hin). lia.
Qed.

Lemma chain_NoDup p l : chain_at procs p l → NoDup (map pid l).
Proof.
  destruct Hforest as [rank Hrank].
  induction 1 as [p r Hp _|p r q rest Hp Hq Hc IH]; cbn; [apply NoDup_singleton|].
  apply NoDup_cons. split; [|done]. intros Hin. apply list_elem_of_fmap in Hin as (row & E & Hrow).
  pose proof (chain_rank q rest Hc rank Hrank row Hrow) as Hle.
  destruct (Hrank p r q Hp Hq) as [_ Hlt]. destruct (row_decodes p r Hp) as [_ Ep]. rewrite <-E, Ep in Hle. lia.
Qed.

Lemma chain_length p l : chain_at procs p l → length l ≤ size procs.
Proof.
  intros Hc. rewrite <-(length_map pid), <-(length_map_to_list procs), <-(length_map fst (map_to_list procs)).
  apply submseteq_length, NoDup_submseteq; [by eapply chain_NoDup|].
  intros x Hx. apply list_elem_of_fmap in Hx as (row & -> & Hrow).
  apply list_elem_of_fmap. exists (pid row, row). split; [done|]. apply elem_of_map_to_list.
  by eapply chain_rows.
Qed.

Lemma chain_run p l n : chain_at procs p l → length l ≤ n → process_chain n p s = Ok l.
Proof.
  intros Hc. revert n. induction Hc as [p r Hp Hr|p r q rest Hp Hr _ IH]; intros n Hn; cbn in Hn.
  - destruct n; [lia|]. cbn [process_chain]. rewrite get_run, Hp, res_bind_ok, Hr. done.
  - destruct n; [lia|]. cbn [process_chain]. rewrite get_run, Hp, res_bind_ok, Hr, IH by lia. done.
Qed.

(** On a forest the climb ends at a root. *)
Lemma process_chain_run p l : chain_at procs p l → _process_chain p s = Ok l.
Proof. intros Hc. apply chain_run; [done|]. pose proof (chain_length p l Hc). lia. Qed.

Lemma process_chain_missing p : procs !! p = None → _process_chain p s = Err (NotFound "process not found").
Proof. intros Hp. unfold _process_chain. cbn [process_chain]. by rewrite get_run, Hp. Qed.

Lemma chain_det p l l' : chain_at procs p l → chain_at procs p l' → l = l'.
Proof. intros H H'. apply process_chain_run in H, H'. congruence. Qed.

Definition place_at (owner p : string) : Place :=
  match _process_chain p s with
  | Ok chain => place_in owner None chain
  | Err _ => if String.eqb p owner then AtOwner else Elsewhere
  end.

Lemma place_of_run owner r : place_of owner r s = Ok (place_at owner (ur_pid r)).
Proof.
  unfold place_of, place_at. destruct (procs !! ur_pid r) as [row|] eqn:E.
  - destruct (chain_exists _ _ E) as [l Hl]. by rewrite (process_chain_run _ _ Hl).
  - by rewrite process_chain_missing.
Qed.

Lemma place_in_cons owner below row rest :
  place_in owner below (row :: rest)
  = if String.eqb (pid row) owner then match below with None => AtOwner | Some c => Under c end
    else place_in owner (Some (pid row)) rest.
Proof. done. Qed.

(** Where a process sits relative to an ancestor's child: below the child or
    at it. *)
Lemma place_step a c crow p :
  procs !! c = Some crow → parent_pid crow = Some a →
  place_at a p = Under c ↔ place_at c p = AtOwner ∨ ∃ d, place_at c p = Under d.
Proof.
  intros Hc Hpar. unfold place_at. destruct (procs !! p) as [row|] eqn:Ep.
  2: { rewrite process_chain_missing by done.
       destruct (String.eqb_spec p a), (String.eqb_spec p c); subst; try naive_solver; congruence. }
  destruct (chain_exists _ _ Ep) as [l Hl]. rewrite (process_chain_run _ _ Hl).
  assert (Hgen : ∀ q k, chain_at procs q k → ∀ b,
    (∀ c', b = Some c' → c' ≠ c) → (b = None ∨ ∃ c' crow', b = Some c' ∧ procs !! c' = Some crow' ∧ parent_pid crow' = Some q) →
    place_in a b k = Under c ↔ ∃ d, place_in c b k = d ∧ d ≠ Elsewhere).
  { clear row Ep l Hl p. destruct Hforest as [rank Hrank].
    induction 1 as [q r Hq Hr|q r q' rest Hq Hr Hrest IH]; intros b Hb Hbc; rewrite !place_in_cons;
      destruct (row_decodes q r Hq) as [_ Epid]; rewrite Epid.
    - cbn. assert (Hqc : q ≠ c) by (intros ->; rewrite Hc in Hq; congruence).
      apply String.eqb_neq in Hqc as ->. destruct (String.eqb q a).
      + destruct b as [c'|]; [specialize (Hb c' eq_refl)|]; naive_solver.
      + naive_solver.
    - destruct (String.eqb_spec q c) as [->|Hqc].
      + rewrite Hc in Hq. injection Hq as <-. rewrite Hpar in Hr. injection Hr as <-.
        destruct (String.eqb_spec c a) as [->|Hca]; [destruct (Hrank a crow a Hc Hpar); lia|].
        inversion Hrest as [? arow Ha|? arow ? ? Ha]; subst; rewrite place_in_cons;
          (destruct (row_decodes a arow Ha) as [_ ->]); rewrite String.eqb_refl;
          split; try done; intros _; eexists; (split; [done|]); by destruct b.
      + destruct (String.eqb_spec q a) as [->|Hqa].
        * split.
          -- destruct b as [c'|]; [|done]. intros [= ->]. by destruct (Hb c eq_refl).
          -- intros (d & Hd & Hne). exfalso. subst d. apply Hne.
             assert (Hup : ∀ q k, chain_at procs q k → rank q < rank c → ∀ b, place_in c b k = Elsewhere).
             { clear -Hstore Hrank. induction 1 as [q r Hq Hr|q r q' rest Hq Hr Hrest IH]; intros Hlt b;
                 rewrite place_in_cons; destruct (row_decodes q r Hq) as [_ ->];
                 (destruct (String.eqb_spec q c) as [->|_]; [lia|]); [done|].
               apply IH. destruct (Hrank q r q' Hq Hr). lia. }
             apply (Hup q' rest Hrest). destruct (Hrank a r q' Hq Hr), (Hrank c crow a Hc Hpar). lia.
        * apply IH; [by intros c' [= <-]|]. right. by exists q, r. }
  rewrite (Hgen p l Hl None) by (try done; by left). unfold place_at.
  destruct (place_in c None l); naive_solver.
Qed.

(** Along a chain. *)
Lemma place_bottom p row : procs !! p = Some row → place_at p p = AtOwner.
Proof.
  intros Hp. unfold place_at. destruct (chain_exists p row Hp) as [l Hl]. rewrite (process_chain_run _ _ Hl).
  destruct (chain_lookup p l Hl) as (row' & rest & -> & Hp'). rewrite place_in_cons.
  destruct (row_decodes p row' Hp') as [_ ->]. by rewrite String.eqb_refl.
Qed.

Lemma place_under_child owner p c :
  place_at owner p = Under c → ∃ crow, procs !! c = Some crow ∧ parent_pid crow = Some owner.
Proof.
  unfold place_at. destruct (procs !! p) as [row|] eqn:Ep.
  2: { rewrite process_chain_missing by done. by destruct (String.eqb p owner). }
  destruct (chain_exists p row Ep) as [l Hl]. rewrite (process_chain_run _ _ Hl).
  assert (Hgen : ∀ q k, chain_at procs q k → ∀ b,
    (∀ c', b = Some c' → ∃ crow, procs !! c' = Some crow ∧ parent_pid crow = Some q) →
    place_in owner b k = Under c → ∃ crow, procs !! c = Some crow ∧ parent_pid crow = Some owner).
  { clear -Hstore. induction 1 as [q r Hq Hr|q r q' rest Hq Hr Hrest IH]; intros b Hb; rewrite place_in_cons;
      destruct (row_decodes q r Hq) as [_ ->]; destruct (String.eqb_spec q owner) as [->|_]; try done.
    - destruct b as [c'|]; [|done]. intros [= ->]. by apply Hb.
    - destruct b as [c'|]; [|done]. intros [= ->]. by apply Hb.
    - apply IH. intros c' [= <-]. by exists r. }
  by apply (Hgen p l Hl None).
Qed.
End Tree.

(** ** Active envelopes *)

(** An association list of numbers, as sums by key. *)
Definition dval (d : list (string * num)) (c : string) : Z :=
  zsum (fun cv => if decide (fst cv = c) then zval (snd cv) else 0%Z) d.

Definition dict_ok (d : list (string * num)) : Prop :=
  NoDup (map fst d) ∧ ∀ cv, cv ∈ d → snd cv = NInt (zval (snd cv)).

Lemma dval_absent d c : c ∉ map fst d → dval d c = 0%Z.
Proof.
  intros H. apply zsum_zero. intros [k v] Hin. cbn. rewrite decide_False; [done|].
  intros ->. apply H, list_elem_of_fmap. by exists (c, v).
Qed.

Lemma dval_at d c v : NoDup (map fst d) → (c, v) ∈ d → dval d c = zval v.
Proof.
  unfold dval. induction d as [|[k w] d IH]; cbn [zsum map fst snd]; [by intros _ ?%elem_of_nil|].
  rewrite NoDup_cons, elem_of_cons. intros [Hk Hnd] [[= <- <-]|Hin].
  - rewrite decide_True by done. fold (dval d c). rewrite dval_absent by done. lia.
  - rewrite decide_False; [rewrite IH by done; lia|]. intros ->. apply Hk, list_elem_of_fmap.
    by exists (c, v).
Qed.

Lemma if_eq_sym (x y : string) (v : Z) :
  (if decide (x = y) then v else 0%Z) = (if decide (y = x) then v else 0%Z).
Proof. destruct (decide (x = y)) as [->|H]; [by rewrite decide_True|by rewrite decide_False by done]. Qed.

Lemma add_to_child_int c v d :
  dict_ok d →
  ∃ d', add_to_child c (NInt v) (NInt 0) d = Ok d' ∧ dict_ok d'
    ∧ (∀ x, x ∈ map fst d' ↔ x = c ∨ x ∈ map fst d)
    ∧ ∀ x, dval d' x = (dval d x + if decide (x = c) then v else 0)%Z.
Proof.
  induction d as [|[k w] d IH]; intros [Hnd Hint]; cbn [add_to_child].
  - eexists. split_and!; [done| |cbn; set_solver|].
    + split; [apply NoDup_singleton|]. by intros cv ->%list_elem_of_singleton.
    + intros x. unfold dval. cbn [zsum fst snd zval]. rewrite (if_eq_sym x c).
      destruct (decide (c = x)); lia.
  - cbn [map fst] in Hnd. apply NoDup_cons in Hnd as [Hk Hnd].
    pose proof (Hint (k, w) ltac:(left)) as Hw. cbn in Hw. rewrite Hw.
    destruct (String.eqb_spec k c) as [->|Hne].
    + cbn [num_add]. rewrite res_bind_ok. eexists. split_and!; [done| |cbn; set_solver|].
      * split; [by apply NoDup_cons|]. intros cv [->|Hin]%elem_of_cons; [done|]. apply Hint. by right.
      * intros x. unfold dval. cbn [zsum fst snd zval]. rewrite Hw, (if_eq_sym x c). cbn [zval].
        destruct (decide (c = x)); lia.
    + destruct IH as (d' & -> & [Hnd' Hint'] & Hkeys & Hval).
      { split; [done|]. intros cv Hin. apply Hint. by right. }
      rewrite res_bind_ok. eexists. split_and!; [done| | |].
      * split; [|intros cv [->|Hin]%elem_of_cons; [done|by apply Hint']].
        cbn [map fst]. apply NoDup_cons. split; [|done]. rewrite Hkeys. naive_solver.
      * intros x. cbn [map fst]. rewrite !elem_of_cons, Hkeys. naive_solver.
      * intros x. unfold dval in *. cbn [zsum fst snd zval]. rewrite Hval. lia.
Qed.

Section Active.
Variables page_size hard_limit : nat.
Hypothesis Hpage : 0 < page_size ≤ hard_limit.
Variable s : RStore.
Hypothesis Hstore : store_inv (base s).
Hypothesis Hforest : forest (processes (base s)).
Hypothesis Hshares : ∀ k r, reservations s !! k = Some r → share_row_ok k r.
Hypothesis Husage : ∀ id r, usage_reservations s !! id = Some r → usage_row_ok id r.

Definition is_under (owner c : string) (r : ResourceUsageReservation) : bool :=
  match place_at s owner (ur_pid r) with Under d => String.eqb d c | _ => false end.

Definition is_own (owner : string) (r : ResourceUsageReservation) : bool :=
  match place_at s owner (ur_pid r) with AtOwner => true | _ => false end.

(** Envelopes of the owner itself, and below one of its children. *)
Definition own_of (owner : string) (f : budget_field) : Z :=
  zsum (fun r => if is_own owner r then uval (ur_usage r) f else 0%Z) (active_rows s).

Definition under_of (owner c : string) (f : budget_field) : Z :=
  zsum (fun r => if is_under owner c r then uval (ur_usage r) f else 0%Z) (active_rows s).

Definition covers_active (owner : string) (ks : list string) : Prop :=
  ∀ r c, r ∈ active_rows s → place_at s owner (ur_pid r) = Under c → c ∈ ks.

Lemma active_usage_ok r : r ∈ active_rows s → usage_ok (ur_usage r).
Proof.
  intros Hr. apply (elem_of_active s Husage) in Hr as [Hl _]. destruct (Husage _ _ Hl) as [_ Hd].
  by apply decode_ok in Hd as (? & _).
Qed.

Lemma under_nonneg owner c f : counted f → (0 <= under_of owner c f)%Z.
Proof.
  intros Hf. apply zsum_nonneg. intros r Hr. destruct (is_under owner c r); [|done].
  by apply uval_nonneg; [apply active_usage_ok|].
Qed.

Lemma own_nonneg owner f : counted f → (0 <= own_of owner f)%Z.
Proof.
  intros Hf. apply zsum_nonneg. intros r Hr. destruct (is_own owner r); [|done].
  by apply uval_nonneg; [apply active_usage_ok|].
Qed.

Abbreviation fold_step owner f := (fun acc r =>
    place ← place_of owner r s;
    match place with
    | Elsewhere => Ok acc
    | _ =>
      value ← usage_value (ur_usage r) f;
      if num_leb value (NInt 0) then Ok acc else
      match place with
      | Under child => d ← add_to_child child value (NInt 0) (snd acc); Ok (fst acc, d)
      | _ => t ← num_add (fst acc) value; Ok (t, snd acc)
      end
    end).

Lemma fold_active owner f l (ks : list string) t d :
  counted f → (∀ r, r ∈ l → usage_ok (ur_usage r)) → dict_ok d → (∀ c, c ∈ map fst d → c ∈ ks) →
  (∀ r c, r ∈ l → place_at s owner (ur_pid r) = Under c → c ∈ ks) →
  ∃ d', foldR (fold_step owner f) (NInt t, d) l
        = Ok (NInt (t + zsum (fun r => if is_own owner r then uval (ur_usage r) f else 0%Z) l), d')
    ∧ dict_ok d' ∧ (∀ c, c ∈ map fst d' → c ∈ ks)
    ∧ ∀ c, dval d' c = (dval d c + zsum (fun r => if is_under owner c r then uval (ur_usage r) f else 0) l)%Z.
Proof.
  intros Hf. revert t d. induction l as [|r l IH]; intros t d Hl Hd Hks Hcov.
  { exists d. cbn. rewrite Z.add_0_r. split_and!; try done. intros c. lia. }
  pose proof (Hl r ltac:(left)) as Hr. pose proof (uval_nonneg _ f Hr Hf) as Hnn.
  assert (Hstep : ∃ d1, fold_step owner f (NInt t, d) r
      = Ok (NInt (t + if is_own owner r then uval (ur_usage r) f else 0%Z), d1)
    ∧ dict_ok d1 ∧ (∀ c, c ∈ map fst d1 → c ∈ ks)
    ∧ ∀ c, dval d1 c = (dval d c + if is_under owner c r then uval (ur_usage r) f else 0)%Z).
  { cbv beta. rewrite place_of_run, res_bind_ok by done. unfold is_own, is_under.
    pose proof (Hcov r) as Hcr. destruct (place_at s owner (ur_pid r)) as [| |c0] eqn:Epl; cbv iota beta.
    - exists d. rewrite Z.add_0_r. split_and!; try done. intros c. lia.
    - rewrite usage_value_int, res_bind_ok, num_leb_int by done. cbn [fst snd].
      exists d. destruct (Z.leb_spec (uval (ur_usage r) f) 0); cbn [num_add]; rewrite ?res_bind_ok;
        (split_and!; [do 3 f_equal; lia|done|done|intros; lia]).
    - rewrite usage_value_int, res_bind_ok, num_leb_int by done. cbn [fst snd].
      destruct (Z.leb_spec (uval (ur_usage r) f) 0).
      + exists d. split_and!; [do 3 f_equal; lia|done|done|]. intros c. destruct (String.eqb c0 c); lia.
      + destruct (add_to_child_int c0 (uval (ur_usage r) f) d Hd) as (d1 & -> & Hd1 & Hk1 & Hv1).
        rewrite res_bind_ok, Z.add_0_r. exists d1. split_and!; [done|done| |].
        * intros c [->|Hc]%Hk1; [by apply Hcr; [left|]|by apply Hks].
        * intros c. rewrite Hv1. destruct (String.eqb_spec c0 c), (decide (c = c0)); subst; done. }
  destruct Hstep as (d1 & Hs1 & Hd1 & Hk1 & Hv1). cbn [foldR]. rewrite Hs1, res_bind_ok.
  destruct (IH (t + if is_own owner r then uval (ur_usage r) f else 0)%Z d1) as (d' & Hf' & Hd' & Hk' & Hv');
    [intros; apply Hl; by right|done|done|intros; eapply Hcov; [by right|done]|].
  exists d'. rewrite Hf'. split_and!; [|done|done|].
  - cbn [zsum]. do 3 f_equal. lia.
  - intros c. rewrite Hv', Hv1. cbn [zsum]. lia.
Qed.

Lemma child_share_int owner f c :
  counted f → child_share (share_rows s owner) f c = Ok (NInt (share_of s owner c f)).
Proof.
  intros Hf. unfold child_share.
  destruct (List.find (of_child c) (rev (share_rows s owner))) as [r|] eqn:E.
  - apply List.find_some in E as [Hin Hc]. rewrite <-in_rev, <-list_elem_of_In in Hin.
    unfold of_child in Hc. apply String.eqb_eq in Hc.
    destruct (share_int r f (share_rows_ok s Hshares owner r Hin) Hf) as [-> _].
    by rewrite (share_rows_of s Hshares owner r f Hin), Hc.
  - rewrite budget_zero_int by done. unfold share_of.
    destruct (reservations s !! (owner, c)) as [r|] eqn:El; [|done]. exfalso.
    destruct (Hshares _ _ El) as [[= Ho Hc] _].
    eapply List.find_none in E; [|rewrite <-in_rev, <-list_elem_of_In; apply (elem_of_share_rows s Hshares owner r);
      rewrite <-Hc; exact El].
    unfold of_child in E. by rewrite Hc, String.eqb_refl in E.
Qed.

(** What the manager counts as active at an owner. *)
Lemma reserved_usage_value_int owner f ks :
  counted f → covers_shares s owner ks → covers_active owner ks →
  _reserved_usage_value_locked page_size hard_limit owner f s
  = Ok (NInt (own_of owner f
        + zsum (fun c => Z.max 0 (under_of owner c f - share_of s owner c f)) ks)).
Proof.
  intros Hf [Hnd Hsub] Hcov. unfold _reserved_usage_value_locked.
  rewrite iter_active_rows, res_bind_ok by done. rewrite budget_zero_int by done.
  destruct (fold_active owner f (active_rows s) ks 0 []) as (d & -> & [Hdn Hdi] & Hdk & Hdv);
    [done|intros; by apply active_usage_ok|split; [apply NoDup_nil_2|by intros ? ?%elem_of_nil]|
     by intros ? ?%elem_of_nil|done|].
  rewrite res_bind_ok, Z.add_0_l. fold (own_of owner f). cbn [fst snd].
  assert (Hu : ∀ c, dval d c = under_of owner c f) by (intros c; rewrite Hdv; by cbn).
  assert (Hsum : zsum (fun cv => Z.max 0 (zval (snd cv) - share_of s owner (fst cv) f)) d
     = zsum (fun c => Z.max 0 (under_of owner c f - share_of s owner c f)) ks).
  { rewrite <-(zsum_cover _ (map fst d) ks); [|done|done|done|].
    - rewrite zsum_map. apply zsum_ext. intros [c v] Hin. cbn. by rewrite <-Hu, (dval_at d c v).
    - intros c _ Hc. rewrite <-Hu, dval_absent by done.
      pose proof (share_of_nonneg s Hshares owner c f Hf). lia. }
  rewrite <-Hsum. destruct d as [|cv d]; [cbn; by rewrite Z.add_0_r|].
  cbv iota beta. rewrite list_reservations_parent by done. rewrite res_bind_ok.
  assert (Hall : is_Ok (mapR (fun r => reserved_number r f) (share_rows s owner)) = true).
  { apply mapR_each. intros r Hr. by destruct (share_int r f (share_rows_ok s Hshares owner r Hr) Hf) as [-> _]. }
  destruct (mapR (fun r => reserved_number r f) (share_rows s owner)) as [nums|]; [|done]. rewrite res_bind_ok.
  clear Hsum Hdk Hdv Hu Hall nums Hdn. revert Hdi. generalize (cv :: d), (own_of owner f). clear cv d.
  induction l as [|[c v] l IH]; intros acc Hdi; [cbn; by rewrite Z.add_0_r|].
  cbn [foldR fst snd zsum]. rewrite child_share_int, res_bind_ok by done.
  pose proof (Hdi (c, v) ltac:(left)) as Hv. cbn in Hv. rewrite Hv. cbn [num_sub].
  rewrite res_bind_ok, num_max_int. cbn [num_add]. rewrite res_bind_ok, IH; [|intros; apply Hdi; by right].
  cbn [zval]. do 2 f_equal. lia.
Qed.
End Active.
