(* ===== verification/ResourceLedger.v ===== *)
(** * The ledger of a process tree

    What each process has committed on a discrete budget field: its usage, its
    own active envelopes, and for each child the larger of the share set aside
    for it and the envelopes active below it.  The ledger is in order when no
    process has committed more than its limit. *)

From S2P Require Import Prelude FiniteSums PyStr PyVal ProcessState ProcessModel ProcessStore ProcessWrites ProcessInvariant ResourceTables ResourceManager ReservationPages ResourceViews.
From stdpp Require Import sorting.

(** ** Well-formed tables *)

Definition budget_ok (b : ResourceBudget) : Prop :=
  ∀ f n, counted f → bget b f = Some n → ∃ z, n = NInt z.

Record tables_ok (s : RStore) : Prop := {
  tb_store : store_inv (base s);
  tb_forest : forest (processes (base s));
  tb_rows : ∀ p row, processes (base s) !! p = Some row →
    usage_ok (resource_usage row) ∧ budget_ok (resource_budget row);
  tb_shares : ∀ k r, reservations s !! k = Some r → share_row_ok k r;
  tb_usage : ∀ id r, usage_reservations s !! id = Some r → usage_row_ok id r;
}.

(** Every child any owner can have. *)
Definition universe (s : RStore) : list string :=
  elements (dom (processes (base s)) ∪ list_to_set (map (fun kr => snd (fst kr)) (map_to_list (reservations s)))
            : gset string).

Definition covers (ks : list string) (s : RStore) : Prop := NoDup ks ∧ universe s ⊆ ks.

Lemma elem_of_universe s c :
  c ∈ universe s ↔ is_Some (processes (base s) !! c) ∨ ∃ a, is_Some (reservations s !! (a, c)).
Proof.
  unfold universe. rewrite elem_of_elements, elem_of_union, elem_of_dom, elem_of_list_to_set, list_elem_of_fmap.
  split; (intros [H|H]; [by left|right]).
  - destruct H as ([[a c'] r] & -> & Hin). apply elem_of_map_to_list in Hin. exists a. by exists r.
  - destruct H as (a & r & Hr). exists ((a, c), r). split; [done|]. by apply elem_of_map_to_list.
Qed.

Lemma universe_covers s : covers (universe s) s.
Proof. split; [unfold universe; apply NoDup_elements|done]. Qed.

Lemma covers_union s s' : ∃ ks, covers ks s ∧ covers ks s'.
Proof.
  exists (elements (list_to_set (universe s) ∪ list_to_set (universe s') : gset string)).
  split; (split; [unfold universe; apply NoDup_elements|]); intros c Hc; rewrite elem_of_elements, elem_of_union, !elem_of_list_to_set; auto.
Qed.

Section Claims.
Variable s : RStore.
Hypothesis Hok : tables_ok s.

Lemma cover_shares a ks : covers ks s → covers_shares s a ks.
Proof.
  intros [Hnd Hsub]. split; [done|]. intros r Hr.
  apply (elem_of_share_rows s (tb_shares _ Hok)) in Hr. apply Hsub, elem_of_universe. right. eauto.
Qed.

Lemma cover_active a ks : covers ks s → covers_active s a ks.
Proof.
  intros [_ Hsub] r c _ Hp. apply (place_under_child s (tb_store _ Hok) (tb_forest _ Hok)) in Hp as (crow & Hc & _).
  apply Hsub, elem_of_universe. left. eauto.
Qed.

(** The committed value a check computes, for usage that reaches the owner
    through [through]. *)
Definition claim_on (ks : list string) (a : string) (through : option (string * Z)) (f : budget_field) : Z :=
  (if reservable f then
    own_of s a f + zsum (fun c => left_share s a through f c
                          + Z.max 0 (under_of s a c f - share_of s a c f)) ks
  else 0)%Z.

(** What a process has committed. *)
Definition claims (ks : list string) (a : string) (f : budget_field) : Z :=
  (if reservable f then
    own_of s a f + zsum (fun c => Z.max (share_of s a c f) (under_of s a c f)) ks
  else 0)%Z.

Lemma claim_on_none ks a f : claim_on ks a None f = claims ks a f.
Proof.
  unfold claim_on, claims. destruct (reservable f); [|done]. f_equal. apply zsum_ext. intros c _.
  unfold left_share. lia.
Qed.

Lemma claims_cover ks ks' a f : counted f → covers ks s → covers ks' s → claims ks a f = claims ks' a f.
Proof.
  intros Hf Hks Hks'. unfold claims. destruct (reservable f); [|done]. f_equal.
  assert (Hz : ∀ c, c ∉ universe s → Z.max (share_of s a c f) (under_of s a c f) = 0%Z).
  { intros c Hc. rewrite elem_of_universe in Hc. unfold share_of.
    destruct (reservations s !! (a, c)) as [r|] eqn:E; [destruct Hc; right; eauto|].
    assert (under_of s a c f = 0%Z) as ->; [|done]. apply zsum_zero. intros r _. unfold is_under.
    destruct (place_at s a (ur_pid r)) as [| |d] eqn:Ep; try done.
    destruct (String.eqb_spec d c) as [->|]; [|done]. destruct Hc. left.
    apply (place_under_child s (tb_store _ Hok) (tb_forest _ Hok)) in Ep as (crow & ? & _). eauto. }
  transitivity (zsum (fun c => Z.max (share_of s a c f) (under_of s a c f)) (universe s)).
  - symmetry. apply zsum_cover; [unfold universe; apply NoDup_elements|apply Hks|apply Hks|]. intros c _ Hc. by apply Hz.
  - apply zsum_cover; [unfold universe; apply NoDup_elements|apply Hks'|apply Hks'|]. intros c _ Hc. by apply Hz.
Qed.
End Claims.

Section Config.
Variables page_size hard_limit : nat.
Hypothesis Hpage : 0 < page_size ≤ hard_limit.

Section Values.
Variable s : RStore.
Hypothesis Hok : tables_ok s.

Lemma committed_value_int process usage f below consuming ks :
  counted f → covers ks s → usage_ok usage → (∀ u, consuming = Some u → usage_ok u) →
  committed_value page_size hard_limit process usage f below consuming true s
  = Ok (NInt (uval usage f + claim_on s ks (pid process)
                (match consuming with Some u => through_of below u f | None => None end) f)).
Proof.
  intros Hf Hks Hu Hc. unfold committed_value, claim_on.
  rewrite usage_value_int by done. rewrite res_bind_ok. destruct (reservable f); cbn [negb].
  2: { by rewrite Z.add_0_r. }
  rewrite (reserved_budget_value_int s (tb_shares _ Hok) (pid process) f below consuming ks)
    by (try done; by apply cover_shares).
  rewrite res_bind_ok. cbn [num_add]. rewrite res_bind_ok.
  rewrite (reserved_usage_value_int page_size hard_limit Hpage s (tb_store _ Hok) (tb_forest _ Hok)
             (tb_shares _ Hok) (tb_usage _ Hok) (pid process) f ks)
    by first [done | by apply cover_shares | by apply cover_active].
  rewrite res_bind_ok. cbn [num_add]. rewrite zsum_plus. do 2 f_equal. lia.
Qed.

(** Without the envelopes the committed value is no larger. *)
Lemma committed_value_without process usage f v :
  counted f → usage_ok usage →
  committed_value page_size hard_limit process usage f None None true s = Ok (NInt v) →
  ∃ v', committed_value page_size hard_limit process usage f None None false s = Ok (NInt v') ∧ (v' <= v)%Z.
Proof.
  intros Hf Hu. unfold committed_value. rewrite usage_value_int, !res_bind_ok by done.
  destruct (reservable f); cbn [negb]; [|intros [= <-]; by eexists].
  pose proof (universe_covers s) as Hks.
  rewrite (reserved_budget_value_int s (tb_shares _ Hok) (pid process) f None None (universe s)) by (try done; by apply cover_shares).
  rewrite !res_bind_ok. cbn [num_add]. rewrite !res_bind_ok.
  rewrite (reserved_usage_value_int page_size hard_limit Hpage s (tb_store _ Hok) (tb_forest _ Hok)
             (tb_shares _ Hok) (tb_usage _ Hok) (pid process) f (universe s))
    by first [done | by apply cover_shares | by apply cover_active].
  rewrite res_bind_ok. cbn [num_add]. intros [= <-]. eexists. split; [done|].
  assert (0 <= own_of s (pid process) f)%Z.
  { apply zsum_nonneg. intros r Hr. destruct (is_own _ _ _); [|done]. apply uval_nonneg; [|done]. by apply (active_usage_ok s (tb_usage _ Hok)). }
  assert (0 <= zsum (fun c => Z.max 0 (under_of s (pid process) c f - share_of s (pid process) c f)) (universe s))%Z
    by (apply zsum_nonneg; intros; lia). lia.
Qed.

(** The loop over the fields stops at nothing exactly when every relevant
    bounded field is within its limit. *)
Lemma first_exceeded_int process usage fields below consuming ks :
  (∀ f, relevant fields f = true → counted f) → budget_ok (resource_budget process) →
  covers ks s → usage_ok usage → (∀ u, consuming = Some u → usage_ok u) →
  ∃ e, _first_exceeded_effective page_size hard_limit process usage fields below consuming true s = Ok e
    ∧ (e = None ↔ ∀ f L, relevant fields f = true → bget (resource_budget process) f = Some (NInt L) →
         (uval usage f + claim_on s ks (pid process)
            (match consuming with Some u => through_of below u f | None => None end) f <= L)%Z).
Proof.
  intros Hrel Hb Hks Hu Hc. unfold _first_exceeded_effective.
  assert (Hgen : ∀ l, ∃ e, first_exceeded page_size hard_limit process usage fields below consuming true s l = Ok e
    ∧ (e = None ↔ ∀ f L, f ∈ l → relevant fields f = true → bget (resource_budget process) f = Some (NInt L) →
         (uval usage f + claim_on s ks (pid process)
            (match consuming with Some u => through_of below u f | None => None end) f <= L)%Z)).
  { induction l as [|f l (e & He & IH)].
    - exists None. split; [done|]. split; [|done]. intros _ f L Hf. by apply elem_of_nil in Hf.
    - cbn [first_exceeded]. destruct (relevant fields f) eqn:Er; cbn [negb].
      2: { exists e. split; [done|]. rewrite IH. split; intros H g L Hg; [|intros Hgr HgL; apply H; [by right|done|done]].
           apply elem_of_cons in Hg as [->|Hg]; [by rewrite Er|by apply H]. }
      destruct (bget (resource_budget process) f) as [n|] eqn:El.
      2: { exists e. split; [done|]. rewrite IH. split; intros H g L Hg; [|intros Hgr HgL; apply H; [by right|done|done]].
           apply elem_of_cons in Hg as [->|Hg]; [by rewrite El|by apply H]. }
      destruct (Hb f n (Hrel f Er) El) as [L ->].
      rewrite (committed_value_int process usage f below consuming ks) by (try done; by apply Hrel).
      rewrite res_bind_ok, num_gtb_int.
      set (v := (uval usage f + _)%Z). destruct (Z.ltb_spec L v) as [Hlt|Hge].
      + eexists. split; [done|]. split; [done|]. intros H. specialize (H f L ltac:(left) Er El). unfold v in Hlt. lia.
      + exists e. split; [done|]. rewrite IH. split.
        * intros H g L' Hg. apply elem_of_cons in Hg as [->|Hg]; [|by apply H].
          intros _ HL'. rewrite El in HL'. injection HL' as <-. unfold v in Hge. lia.
        * intros H g L' Hg. apply H. by right. }
  destruct (Hgen budget_fields) as (e & He & Hiff). exists e. split; [done|]. rewrite Hiff.
  split; intros H f L; [apply H, budget_fields_complete|intros _; apply H].
Qed.

(** A check that counts the envelopes and passes also passes without them. *)
Lemma first_exceeded_without process usage fields :
  (∀ f, relevant fields f = true → counted f) → budget_ok (resource_budget process) → usage_ok usage →
  _first_exceeded_effective page_size hard_limit process usage fields None None true s = Ok None →
  _first_exceeded_effective page_size hard_limit process usage fields None None false s = Ok None.
Proof.
  intros Hrel Hb Hu. unfold _first_exceeded_effective. induction budget_fields as [|f l IH]; cbn [first_exceeded]; [done|].
  destruct (relevant fields f) eqn:Er; cbn [negb]; [|done].
  destruct (bget (resource_budget process) f) as [n|] eqn:El; [|done]. destruct (Hb f n (Hrel f Er) El) as [L ->].
  pose proof (committed_value_int process usage f None None (universe s) (Hrel f Er) (universe_covers s) Hu ltac:(done)) as Ev.
  destruct (committed_value_without process usage f _ (Hrel f Er) Hu Ev) as (v' & Ev' & Hle).
  rewrite Ev, Ev', !res_bind_ok, !num_gtb_int. set (v := (_ + _)%Z) in *.
  destruct (Z.ltb_spec L v); [done|]. intros E. destruct (Z.ltb_spec L v'); [lia|by apply IH].
Qed.

End Values.
End Config.

(** ** Tables with the same process tree *)

Definition same_tree (s s' : RStore) : Prop :=
  ∀ p, option_map parent_pid (processes (base s) !! p) = option_map parent_pid (processes (base s') !! p).

Lemma same_tree_sym s s' : same_tree s s' → same_tree s' s.
Proof. intros H p. by rewrite H. Qed.

Lemma same_tree_row s s' p row :
  same_tree s s' → processes (base s) !! p = Some row →
  ∃ row', processes (base s') !! p = Some row' ∧ parent_pid row' = parent_pid row.
Proof.
  intros H Hp. specialize (H p). rewrite Hp in H.
  destruct (processes (base s') !! p) as [row'|]; [|done]. injection H as H. by exists row'.
Qed.

Lemma same_tree_none s s' p :
  same_tree s s' → processes (base s) !! p = None → processes (base s') !! p = None.
Proof. intros H Hp. specialize (H p). rewrite Hp in H. by destruct (processes (base s') !! p). Qed.

Lemma forest_same s s' : same_tree s s' → forest (processes (base s)) → forest (processes (base s')).
Proof.
  intros H [rank Hr]. exists rank. intros p row q Hp Hq.
  destruct (same_tree_row s' s p row (same_tree_sym _ _ H) Hp) as (row0 & Hp0 & E).
  destruct (Hr p row0 q Hp0) as [[qrow Hq0] ?]; [congruence|]. split; [|done].
  destruct (same_tree_row s s' q qrow H Hq0) as (? & ? & _). eauto.
Qed.

Lemma chain_same s s' p l :
  store_inv (base s) → store_inv (base s') → same_tree s s' →
  chain_at (processes (base s)) p l → ∃ l', chain_at (processes (base s')) p l' ∧ map pid l' = map pid l.
Proof.
  intros Hi Hi' Hsame. induction 1 as [p r Hp Hr|p r q rest Hp Hr _ (l' & Hl' & IH)];
    destruct (same_tree_row s s' p r Hsame Hp) as (r' & Hp' & E);
    destruct (row_decodes s Hi p r Hp) as [_ Ep], (row_decodes s' Hi' p r' Hp') as [_ Ep'].
  - exists [r']. split; [by apply chain_root; [|congruence]|]. cbn. congruence.
  - exists (r' :: l'). split; [by eapply chain_up; [|rewrite E|]|]. cbn. congruence.
Qed.

Lemma place_in_pids owner below l l' : map pid l = map pid l' → place_in owner below l = place_in owner below l'.
Proof.
  revert below l'. induction l as [|x l IH]; intros below [|y l'] E; try done. cbn in *.
  injection E as -> E. destruct (String.eqb (pid y) owner); [done|by apply IH].
Qed.

(** Places depend only on the parent links. *)
Lemma place_at_same s s' owner p :
  tables_ok s → tables_ok s' → same_tree s s' → place_at s owner p = place_at s' owner p.
Proof.
  intros Hok Hok' Hsame. unfold place_at. destruct (processes (base s) !! p) as [row|] eqn:Hp.
  - destruct (chain_exists s (tb_forest _ Hok) p row Hp) as [l Hl].
    destruct (chain_same s s' p l (tb_store _ Hok) (tb_store _ Hok') Hsame Hl) as (l' & Hl' & E).
    rewrite (process_chain_run s (tb_store _ Hok) (tb_forest _ Hok) p l Hl).
    rewrite (process_chain_run s' (tb_store _ Hok') (tb_forest _ Hok') p l' Hl').
    by apply place_in_pids.
  - rewrite (process_chain_missing s (tb_store _ Hok)) by done.
    by rewrite (process_chain_missing s' (tb_store _ Hok')) by (by eapply same_tree_none).
Qed.

Lemma under_same s s' owner c f :
  tables_ok s → tables_ok s' → same_tree s s' → usage_reservations s' = usage_reservations s →
  under_of s' owner c f = under_of s owner c f.
Proof.
  intros Hok Hok' Hsame Hu. unfold under_of, active_rows. rewrite Hu. apply zsum_ext. intros r _.
  unfold is_under. by rewrite (place_at_same s s').
Qed.

Lemma own_same s s' owner f :
  tables_ok s → tables_ok s' → same_tree s s' → usage_reservations s' = usage_reservations s →
  own_of s' owner f = own_of s owner f.
Proof.
  intros Hok Hok' Hsame Hu. unfold own_of, active_rows. rewrite Hu. apply zsum_ext. intros r _.
  unfold is_own. by rewrite (place_at_same s s').
Qed.

(** What is active at or below a child, from the child's own view. *)
Lemma under_decomp s a c crow f ks :
  tables_ok s → counted f → covers ks s →
  processes (base s) !! c = Some crow → parent_pid crow = Some a →
  under_of s a c f = (own_of s c f + zsum (fun d => under_of s c d f) ks)%Z.
Proof.
  intros Hok Hf Hks Hc Hpar.
  pose proof (place_step s (tb_store _ Hok) (tb_forest _ Hok) a c crow) as Hstep.
  pose (key r := match place_at s c (ur_pid r) with Under d => Some d | _ => None end).
  assert (Hg : zsum (fun d => under_of s c d f) ks
    = zsum (fun r => match key r with Some _ => uval (ur_usage r) f | None => 0%Z end) (active_rows s)).
  { rewrite <-(zsum_group key (fun r => uval (ur_usage r) f) (active_rows s) ks).
    - apply zsum_ext. intros d _. apply zsum_ext. intros r _. unfold is_under, key.
      destruct (place_at s c (ur_pid r)) as [| |e]; [done|done|].
      destruct (String.eqb_spec e d) as [->|]; [by rewrite decide_True|by rewrite decide_False by congruence].
    - apply Hks.
    - intros r d Hr E. unfold key in E. destruct (place_at s c (ur_pid r)) as [| |e] eqn:Ep; [done|done|].
      injection E as <-. by apply (cover_active s Hok c ks Hks r). }
  rewrite Hg. unfold under_of, own_of. rewrite <-zsum_plus. apply zsum_ext. intros r _.
  specialize (Hstep (ur_pid r) Hc Hpar). unfold is_under, is_own, key.
  destruct (place_at s a (ur_pid r)) as [| |e] eqn:Ea; destruct (place_at s c (ur_pid r)) as [| |e'] eqn:Ec;
    try (destruct (String.eqb_spec e c)); subst; try lia; naive_solver.
Qed.
