(* ===== verification/ResourceErrors.v ===== *)
(** * Which errors mean a limit

    A computation is quiet when it never raises [ResourceLimitExceeded].  The
    reads, the arithmetic and the writes of the process table are quiet: the
    only source of that error is a preflight, or a check that follows a
    charge. *)

From S2P Require Import Prelude PyStr PyVal ProcessState ProcessModel ProcessStore ProcessWrites ResourceTables ResourceManager.

(** ** Pure computations *)

Definition is_limit_error (e : exn) : bool := match e with ResourceLimitExceeded _ => true | _ => false end.

(** A computation that raises other errors only. *)
Definition quiet {A} (r : res A) : Prop := ∀ e, r = Err e → is_limit_error e = false.

Lemma quiet_bind {A B} (r : res A) (k : A → res B) : quiet r → (∀ a, quiet (k a)) → quiet (r ≫= k).
Proof. intros Hr Hk e E. destruct r as [a|e']; [by eapply Hk|]. apply Hr. by injection E as ->. Qed.

Lemma quiet_Ok {A} (a : A) : quiet (Ok a).
Proof. by intros e [=]. Qed.

Lemma quiet_Err {A} e : is_limit_error e = false → quiet (Err e : res A).
Proof. by intros He e' [= <-]. Qed.

Lemma quiet_raise_if b e : is_limit_error e = false → quiet (raise_if b e).
Proof. intros He e' E. destruct b; [|done]. by injection E as <-. Qed.

Lemma quiet_mapR {A B} (f : A → res B) l : (∀ x, quiet (f x)) → quiet (mapR f l).
Proof.
  intros Hf. induction l as [|x l IH]; cbn; [apply quiet_Ok|].
  apply quiet_bind; [done|]. intros y. apply quiet_bind; [done|]. intros ys. apply quiet_Ok.
Qed.

Lemma quiet_foldR {A B} (f : B → A → res B) acc l : (∀ b x, quiet (f b x)) → quiet (foldR f acc l).
Proof. intros Hf. revert acc. induction l as [|x l IH]; intros acc; cbn; [apply quiet_Ok|]. by apply quiet_bind. Qed.

Create HintDb quiet discriminated.
#[export] Hint Resolve quiet_Ok quiet_Err quiet_raise_if : quiet.

Ltac quiet_step :=
  lazymatch goal with
  | |- quiet (mbind _ _) => apply quiet_bind; [|intros ?]
  | |- quiet (mapR _ _) => apply quiet_mapR; intros ?
  | |- quiet (foldR _ _ _) => apply quiet_foldR; intros ? ?
  | |- quiet (raise_if _ _) => by apply quiet_raise_if
  | |- quiet (Ok _) => apply quiet_Ok
  | |- quiet (Err _) => by apply quiet_Err
  | |- quiet (match ?x with _ => _ end) => destruct x
  | |- quiet (let '_ := ?x in _) => destruct x
  end.
Ltac be_quiet := repeat quiet_step; eauto with quiet.

(** *** Numbers and validators *)

Lemma quiet_to_float n : quiet (to_float n).
Proof. unfold to_float. be_quiet. Qed.
#[export] Hint Resolve quiet_to_float : quiet.

Lemma quiet_num_add a b : quiet (num_add a b).
Proof. unfold num_add. be_quiet. Qed.
#[export] Hint Resolve quiet_num_add : quiet.

Lemma quiet_validate_number name v b1 b2 : quiet (_validate_resource_number name v b1 b2).
Proof. unfold _validate_resource_number. be_quiet. Qed.
#[export] Hint Resolve quiet_validate_number : quiet.

Lemma quiet_usage_validate u : quiet (usage_validate u).
Proof. unfold usage_validate. be_quiet. Qed.
#[export] Hint Resolve quiet_usage_validate : quiet.

Lemma quiet_merge a b : quiet (_merge_usage a b).
Proof. unfold _merge_usage, merge_field. be_quiet. Qed.
#[export] Hint Resolve quiet_merge : quiet.

(** ** Operations *)

Definition quietM {S A} (m : M S A) : Prop := ∀ s s' e, m s = (s', Err e) → is_limit_error e = false.

Lemma quietM_bind {S A B} (m : M S A) (k : A → M S B) : quietM m → (∀ a, quietM (k a)) → quietM (m ≫= k).
Proof.
  intros Hm Hk s s' e E. unfold mbind, M_bind in E. destruct (m s) as [s1 [a|e1]] eqn:E1; [by eapply Hk|].
  injection E as <- <-. by eapply Hm.
Qed.

Lemma quietM_lift {S A} (x : res A) : quiet x → quietM (S := S) (lift_res x).
Proof. intros Hx s s' e [= _ E]. by apply Hx. Qed.

Lemma quietM_read {S A} (f : S → res A) : (∀ s, quiet (f s)) → quietM (fun s => (s, f s)).
Proof. intros Hf s s' e [= _ E]. by eapply Hf. Qed.

Lemma quietM_ret {S A} (a : A) : quietM (S := S) (mret a).
Proof. by intros s s' e [=]. Qed.

Lemma quietM_modify {S} (f : S → S) : quietM (modify f).
Proof. by intros s s' e [=]. Qed.

Lemma quietM_get {S} : quietM (get_state (S := S)).
Proof. by intros s s' e [=]. Qed.

Lemma quietM_raise {S A} e : is_limit_error e = false → quietM (raise e : M S A).
Proof. by intros He s s' e' [= _ <-]. Qed.

Lemma quietM_tx {A} (m : M Store A) : quietM m → quietM (sql_transaction m).
Proof. intros Hm s s' e E. unfold sql_transaction in E. destruct (m s) as [s1 [a|e1]] eqn:E1; [done|]. injection E as _ <-. by eapply Hm. Qed.

Lemma quietM_base {A} (m : M Store A) : quietM m → quietM (on_base m).
Proof. intros Hm s s' e E. unfold on_base in E. destruct (m (base s)) as [b r] eqn:Em. injection E as _ ->. by eapply Hm. Qed.

Ltac quietM_step :=
  lazymatch goal with
  | |- quietM (mbind _ _) => apply quietM_bind; [|intros ?]
  | |- quietM (lift_res _) => apply quietM_lift
  | |- quietM (reading _) => apply quietM_read; intros ?
  | |- quietM (mret _) => apply quietM_ret
  | |- quietM (modify _) => apply quietM_modify
  | |- quietM get_state => apply quietM_get
  | |- quietM (raise _) => by apply quietM_raise
  | |- quietM (sql_transaction _) => apply quietM_tx
  | |- quietM (on_base _) => apply quietM_base
  | |- quietM (match ?x with _ => _ end) => destruct x
  | |- quiet _ => quiet_step
  end.
Ltac be_quietM := repeat quietM_step; eauto with quiet.

(** *** The process table *)

Lemma quiet_state_fields st w o : quiet (validate_process_state_fields st w o).
Proof. unfold validate_process_state_fields. be_quiet. Qed.
#[export] Hint Resolve quiet_state_fields : quiet.

Lemma quiet_row r : quiet (_row_to_process r).
Proof. unfold _row_to_process. be_quiet. Qed.
#[export] Hint Resolve quiet_row : quiet.

Lemma quiet_check_publications pubs g o l t : quiet (check_publications pubs g o l t).
Proof. induction pubs as [|p pubs IH]; cbn; be_quiet. Qed.
#[export] Hint Resolve quiet_check_publications : quiet.

Section Writes.
Context `{ExecEvidence}.
Hypothesis post_exec_quiet : ∀ s amb pm process current rev,
  quiet (post_exec_completion_check s amb pm process current rev).

Lemma quiet_get_process p : quietM (get_process p).
Proof.
  intros s s' e E. unfold get_process in E. destruct (processes s !! p) as [row|]; [|done].
  destruct (_row_to_process row) eqn:Er; [done|]. injection E as _ <-. by eapply quiet_row.
Qed.

Lemma quiet_fence amb current process rev : quietM (_process_update_fence amb current process rev).
Proof.
  unfold _process_update_fence, _assert_terminal_mutation_allowed, _assert_execution_target_allowed,
    _assert_process_exec_admission_update_owner. be_quietM.
  intros ? ? ? E. unfold _process_exec_takeover_write_allowed in E. by repeat case_match.
Qed.

Lemma quiet_update amb now process b : quietM (_update_process amb now process b).
Proof.
  unfold _update_process, _ensure_process_terminal_cleanup_intent, _replace_process_tool_bindings,
    observe_process_concurrency, _raise_runtime_counter_floor, _validate_process_state_write.
  be_quietM; apply quiet_fence.
Qed.

Lemma quiet_patch amb now p patch rev st : quietM (patch_process amb now p patch rev st).
Proof. unfold patch_process, _patch_process. be_quietM; first [apply quiet_get_process|apply quiet_update]. Qed.

Lemma quiet_patch_control amb now p patch rev allowed reason :
  quietM (patch_process_control amb now p patch rev allowed reason).
Proof.
  unfold patch_process_control, trusted_process_control_mutation.
  be_quietM; first [apply quiet_get_process|apply quiet_patch].
Qed.
End Writes.

(** *** The resource manager's reads *)

Lemma quiet_num_sub a b : quiet (num_sub a b).
Proof. unfold num_sub. be_quiet. Qed.

Lemma quiet_of_option {A} e (o : option A) : is_limit_error e = false → quiet (of_option e o).
Proof. intros He. destruct o; cbn; [apply quiet_Ok|by apply quiet_Err]. Qed.
#[export] Hint Resolve quiet_num_sub quiet_of_option : quiet.

Lemma quiet_domain_number b n : quiet (domain_number b n).
Proof. unfold domain_number. be_quiet. Qed.
#[export] Hint Resolve quiet_domain_number : quiet.

Lemma quiet_reservation_validate r : quiet (reservation_validate r).
Proof. unfold reservation_validate. be_quiet. Qed.
#[export] Hint Resolve quiet_reservation_validate : quiet.

Lemma quiet_row_to_reservation r : quiet (_row_to_resource_reservation r).
Proof. unfold _row_to_resource_reservation, _decode_resource_reservation_number. be_quiet. Qed.
#[export] Hint Resolve quiet_row_to_reservation : quiet.

Lemma quiet_list_reservations clause s : quiet (list_resource_reservations clause s).
Proof. unfold list_resource_reservations. be_quiet. Qed.
#[export] Hint Resolve quiet_list_reservations : quiet.

Lemma quiet_decode_usage r : quiet (decode_usage_reservation r).
Proof. unfold decode_usage_reservation, usage_reservation_validate. be_quiet. Qed.
#[export] Hint Resolve quiet_decode_usage : quiet.

Lemma quiet_usage_row r : quiet (_row_to_resource_usage_reservation r).
Proof.
  unfold _row_to_resource_usage_reservation, _persisted_model_decode. intros e.
  pose proof (quiet_decode_usage r) as Hq. destruct (decode_usage_reservation r) as [x|e']; [done|].
  specialize (Hq e' eq_refl). by destruct e'; intros [= <-].
Qed.
#[export] Hint Resolve quiet_usage_row : quiet.

Lemma quiet_get p s : quiet (_get p s).
Proof. unfold _get, read_process. be_quiet. Qed.
#[export] Hint Resolve quiet_get : quiet.

Lemma quiet_process_chain n p s : quiet (process_chain n p s).
Proof. revert p. induction n as [|n IH]; intros p; cbn [process_chain]; be_quiet. Qed.

Lemma quiet_chain p s : quiet (_process_chain p s).
Proof. apply quiet_process_chain. Qed.
#[export] Hint Resolve quiet_chain : quiet.

Lemma quiet_budget_value p f c u s : quiet (_reserved_budget_value_locked p f c u s).
Proof. unfold _reserved_budget_value_locked, reserved_number, _budget_number, usage_value, _usage_value. be_quiet. Qed.
#[export] Hint Resolve quiet_budget_value : quiet.

Lemma quiet_usage_value u f : quiet (usage_value u f).
Proof. unfold usage_value, _usage_value. be_quiet. Qed.
#[export] Hint Resolve quiet_usage_value : quiet.

Lemma quiet_mk_page records next : quiet (mk_page records next).
Proof. unfold mk_page. be_quiet. Qed.
#[export] Hint Resolve quiet_mk_page : quiet.

Section Reads.
Variables page_size hard_limit : nat.

Lemma quiet_check_records previous records : quiet (check_records previous records).
Proof. revert previous. induction records as [|r rest IH]; intros previous; cbn [check_records]; unfold mk_cursor; be_quiet. Qed.
Hint Resolve quiet_check_records : quiet.

Lemma quiet_next_page after s : quiet (next_page page_size hard_limit after s).
Proof.
  unfold next_page, query_resource_usage_reservation_recovery, _resource_usage_reservation_recovery_limit, check_page, mk_cursor.
  be_quiet.
Qed.
Hint Resolve quiet_next_page : quiet.

Lemma quiet_iter_active n after s : quiet (iter_active page_size hard_limit n after s).
Proof. revert after. induction n as [|n IH]; intros after; cbn [iter_active]; be_quiet. Qed.

Lemma quiet_add_to_child c v z d : quiet (add_to_child c v z d).
Proof. induction d as [|[k w] d IH]; cbn [add_to_child]; be_quiet. Qed.
Hint Resolve quiet_add_to_child : quiet.

Lemma quiet_place owner r s : quiet (place_of owner r s).
Proof.
  unfold place_of. pose proof (quiet_chain (ur_pid r) s) as Hq. destruct (_process_chain (ur_pid r) s) as [l|e]; [apply quiet_Ok|].
  specialize (Hq e eq_refl). destruct e; intros e' [= <-]; done.
Qed.
Hint Resolve quiet_place : quiet.

Lemma quiet_usage_active owner f s : quiet (_reserved_usage_value_locked page_size hard_limit owner f s).
Proof.
  unfold _reserved_usage_value_locked, _iter_active_usage_reservations, child_share, reserved_number, _budget_number.
  pose proof (quiet_iter_active (S (size (usage_reservations s))) None s). be_quiet.
Qed.
Hint Resolve quiet_usage_active : quiet.

Lemma quiet_first_exceeded process usage fields c u incl s :
  quiet (_first_exceeded_effective page_size hard_limit process usage fields c u incl s).
Proof.
  unfold _first_exceeded_effective. induction budget_fields as [|f l IH]; cbn [first_exceeded];
    unfold committed_value; be_quiet.
Qed.
Hint Resolve quiet_first_exceeded : quiet.

Context `{ExecEvidence}.
Hypothesis post_exec_quiet : ∀ s amb pm process current rev,
  quiet (post_exec_completion_check s amb pm process current rev).

Lemma quiet_accounting_scope amb row : quiet (accounting_scope amb row).
Proof. unfold accounting_scope, trusted_terminal_process_mutation. be_quiet. Qed.
Hint Resolve quiet_accounting_scope : quiet.

Lemma quiet_consume now a c u fields : quietM (_consume_reservation_locked now a c u fields).
Proof.
  unfold _consume_reservation_locked, get_resource_reservation, consume_field, _budget_number,
    delete_resource_reservation, upsert_resource_reservation. be_quietM.
Qed.

Lemma quiet_charge_process amb now d fields incl below p :
  quietM (charge_process page_size hard_limit amb now d fields incl below p).
Proof.
  unfold charge_process. be_quietM;
    first [by apply quiet_patch_control|by apply quiet_patch|apply quiet_consume].
Qed.

Lemma quiet_charge_chain amb now d fields incl below found l :
  quietM (charge_chain page_size hard_limit amb now d fields incl below found l).
Proof.
  revert below found. induction l as [|row l IH]; intros below found; cbn [charge_chain].
  - apply quietM_ret.
  - apply quietM_bind; [apply quiet_charge_process|]. intros x. apply IH.
Qed.
End Reads.
