(* ===== verification/ResourceCharges.v ===== *)
(** * Effects of a charge

    What the steps of a charge do to the tables: the usage written on a row,
    the share consumed at its parent, and the chain they are applied along;
    then why a charge that fits is never exceeded. *)

From S2P Require Import Prelude FiniteSums PyStr PyVal ProcessState ProcessModel ProcessStore ProcessWrites ProcessInvariant ProcessProperties ResourceTables ResourceManager ReservationPages ResourceViews ResourceLedger.
From stdpp Require Import sorting.

(** ** Runs of the pure steps *)

Lemma lift_run {S A} (x r : res A) (s s' : S) : lift_res x s = (s', r) → s' = s ∧ x = r.
Proof. unfold lift_res. intros E. split; congruence. Qed.

Lemma reading_run {A} (f : RStore → res A) s s' r : reading f s = (s', r) → s' = s ∧ f s = r.
Proof. unfold reading. intros E. split; congruence. Qed.

Lemma lift_bind {S A B} (x : res A) (k : A → M S B) s :
  (lift_res x ≫= k) s = match x with Ok a => k a s | Err e => (s, Err e) end.
Proof. by destruct x. Qed.

Lemma reading_bind {A B} (f : RStore → res A) (k : A → M RStore B) s :
  (reading f ≫= k) s = match f s with Ok a => k a s | Err e => (s, Err e) end.
Proof. unfold mbind, M_bind, reading. by destruct (f s). Qed.

Lemma on_base_run {A} (m : M Store A) s s' r :
  on_base m s = (s', r) → m (base s) = (base s', r) ∧ s' = set_base (base s') s.
Proof. unfold on_base. destruct (m (base s)) as [b x]. intros [= <- <-]. done. Qed.

(** ** Reservation rows *)

Definition map_ok (m : gmap string num) : Prop :=
  ∀ k n, m !! k = Some n → domain_number (continuous_key k) n = Ok n ∧ nonneg_num n.

Definition mshare (m : gmap string num) (f : budget_field) : Z :=
  zval (default (NInt 0) (m !! budget_field_name f)).

Lemma decoded_map_ok r : map_ok (reserved r) → reservation_validate r = Ok tt → _row_to_resource_reservation r = Ok r.
Proof.
  intros Hm Hv. unfold _row_to_resource_reservation. rewrite mapR_id.
  2: { apply Forall_forall. intros [k n] Hin. apply elem_of_map_to_list in Hin.
       destruct (Hm k n Hin) as [Hd _]. unfold _decode_resource_reservation_number. cbn [fst snd].
       by rewrite Hd. }
  rewrite res_bind_ok, list_to_map_to_list. cbv zeta.
  destruct r as [p c m t1 t2]. cbn [reserved res_parent_pid res_child_pid res_created_at res_updated_at] in *.
  by rewrite Hv.
Qed.

Lemma map_ok_decoded r : _row_to_resource_reservation r = Ok r → map_ok (reserved r).
Proof. intros Hr k n Hk. by apply (decoded_number r k n). Qed.

Lemma budget_field_name_inj f g : budget_field_name f = budget_field_name g → f = g.
Proof. destruct f, g; intros E; try reflexivity; discriminate E. Qed.

Lemma map_ok_insert m f z : map_ok m → counted f → (0 <= z)%Z → map_ok (<[budget_field_name f := NInt z]> m).
Proof.
  intros Hm Hf Hz k n. destruct (decide (budget_field_name f = k)) as [<-|Hne].
  - rewrite lookup_insert_eq. intros [= <-]. by rewrite continuous_key_name, Hf.
  - rewrite lookup_insert_ne by done. apply Hm.
Qed.

Lemma map_ok_delete m k : map_ok m → map_ok (delete k m).
Proof. intros Hm k' n Hk. apply lookup_delete_Some in Hk as [_ Hk]. by apply Hm. Qed.

Lemma mshare_insert m f g z :
  mshare (<[budget_field_name f := NInt z]> m) g = if decide (g = f) then z else mshare m g.
Proof.
  unfold mshare. destruct (decide (g = f)) as [->|Hne]; [by rewrite lookup_insert_eq|].
  rewrite lookup_insert_ne; [done|]. intros E. by apply Hne, budget_field_name_inj.
Qed.

Lemma mshare_delete m f g :
  mshare (delete (budget_field_name f) m) g = if decide (g = f) then 0%Z else mshare m g.
Proof.
  unfold mshare. destruct (decide (g = f)) as [->|Hne]; [by rewrite lookup_delete_eq|].
  rewrite lookup_delete_ne; [done|]. intros E. by apply Hne, budget_field_name_inj.
Qed.

Lemma mshare_int m f : map_ok m → counted f →
  _budget_number f (default (_budget_zero f) (m !! budget_field_name f)) = Ok (NInt (mshare m f)) ∧ (0 <= mshare m f)%Z.
Proof.
  intros Hm Hf. unfold mshare, _budget_number. rewrite budget_zero_int by done.
  destruct (m !! budget_field_name f) as [n|] eqn:E; cbn [default from_option id]; [|by rewrite Hf].
  destruct (Hm _ n E) as [Hd Hn]. rewrite continuous_key_name in Hd.
  unfold counted in Hf. rewrite Hf in *. destruct n as [z|x]; [done|]. cbn in Hd. res_simpl.
Qed.

(** ** Consumption *)

Section Consumption.
Variables (u : ResourceUsage) (fields : list usage_field).
Hypothesis Hu : usage_ok u.
Hypothesis Hrel : ∀ f, relevant fields f = true → counted f.

Definition takes (f : budget_field) : bool := reservable f && relevant fields f.

Lemma consume_field_int b m f :
  map_ok m →
  ∃ b' m', consume_field u fields (b, m) f = Ok (b', m') ∧ map_ok m' ∧ (b' = false → b = false ∧ m' = m)
    ∧ ∀ g, counted g → mshare m' g = if decide (g = f) then (if takes f then Z.max 0 (mshare m f - uval u f) else mshare m f)%Z
                                    else mshare m g.
Proof.
  intros Hm. unfold consume_field, takes. cbn [fst snd].
  assert (Hsame : ∀ c : bool, (c = true → mshare m f = Z.max 0 (mshare m f - uval u f))%Z → ∀ g, counted g →
    mshare m g = if decide (g = f) then (if c then Z.max 0 (mshare m f - uval u f) else mshare m f)%Z else mshare m g).
  { intros c Hc g _. destruct (decide (g = f)) as [->|]; [|done]. destruct c; [by apply Hc|done]. }
  destruct (reservable f && relevant fields f) eqn:Et; rewrite <-negb_andb, Et; cbn [negb].
  2: { exists b, m. split_and!; [done|done|done|]. by apply (Hsame false). }
  apply andb_true_iff in Et as [_ Hr]. pose proof (Hrel f Hr) as Hf.
  destruct (mshare_int m f Hm Hf) as [-> Hnn]. pose proof (uval_nonneg u f Hu Hf) as Hd.
  rewrite res_bind_ok, num_leb_int. destruct (Z.leb_spec (mshare m f) 0) as [Hz|Hz].
  { exists b, m. split_and!; [done|done|done|]. apply (Hsame true). lia. }
  rewrite usage_value_int, res_bind_ok by done. cbv zeta. rewrite num_min_int, num_leb_int.
  destruct (Z.leb_spec (Z.min (mshare m f) (uval u f)) 0) as [Hz'|Hz'].
  { exists b, m. split_and!; [done|done|done|]. apply (Hsame true). lia. }
  cbn [num_sub]. rewrite res_bind_ok, num_leb_int.
  destruct (Z.leb_spec (mshare m f - Z.min (mshare m f) (uval u f)) 0) as [Hn|Hn];
    eexists true, _; (split; [reflexivity|]).
  - split_and!; [by apply map_ok_delete|done|]. intros g _. rewrite mshare_delete. destruct (decide (g = f)); lia.
  - split_and!; [apply map_ok_insert; [done|done|lia]|done|]. intros g _. rewrite mshare_insert. destruct (decide (g = f)); lia.
Qed.

Lemma consume_fold b m l :
  map_ok m → NoDup l →
  ∃ b' m', foldR (consume_field u fields) (b, m) l = Ok (b', m') ∧ map_ok m' ∧ (b' = false → m' = m)
    ∧ ∀ g, counted g → mshare m' g = if decide (g ∈ l) then (if takes g then Z.max 0 (mshare m g - uval u g) else mshare m g)%Z
                                    else mshare m g.
Proof.
  intros Hm Hnd. revert b m Hm. induction Hnd as [|f l Hf Hnd IH]; intros b m Hm; cbn [foldR].
  { exists b, m. split_and!; [done|done|done|]. intros g _. by rewrite decide_False by apply not_elem_of_nil. }
  destruct (consume_field_int b m f Hm) as (b1 & m1 & -> & Hm1 & Hb1 & Hv1). rewrite res_bind_ok.
  destruct (IH b1 m1 Hm1) as (b2 & m2 & E2 & Hm2 & Hb2 & Hv2). exists b2, m2. split_and!; [done|done| |].
  - intros Hb. rewrite (Hb2 Hb). destruct b1; [|by apply Hb1].
    exfalso. clear -E2 Hb. subst b2. revert m1 E2. induction l as [|g l IH]; intros m1 E; [done|].
    cbn [foldR] in E. apply bind_Ok in E as ([b' m'] & E1 & E). assert (b' = true) as ->; [|by eapply IH].
    unfold consume_field in E1. cbn [fst snd] in E1.
    destruct (negb (reservable g) || negb (relevant fields g)); [by injection E1|].
    apply bind_Ok in E1 as (cur & _ & E1). destruct (num_leb cur (NInt 0)); [by injection E1|].
    apply bind_Ok in E1 as (v & _ & E1). cbv zeta in E1.
    destruct (num_leb (num_min cur v) (NInt 0)); [by injection E1|]. apply bind_Ok in E1 as (nx & _ & E1). by injection E1.
  - intros g Hg. rewrite Hv2 by done. rewrite !Hv1 by done.
    destruct (decide (g = f)) as [->|Hne].
    + rewrite decide_False by done. by rewrite decide_True by left.
    + destruct (decide (g ∈ l)); [by rewrite decide_True by (by right)|].
      rewrite decide_False; [done|]. by intros [->|?]%elem_of_cons.
Qed.
End Consumption.

(** Usage [u] went through the share of [c] at [a]. *)
Record share_consumed (a c : string) (u : ResourceUsage) (s s' : RStore) : Prop := {
  sc_base : base s' = base s;
  sc_usage : usage_reservations s' = usage_reservations s;
  sc_rows : ∀ k r, reservations s' !! k = Some r → share_row_ok k r;
  sc_keys : ∀ k, is_Some (reservations s' !! k) → is_Some (reservations s !! k);
  sc_share : ∀ a' c' f, counted f → share_of s' a' c' f
    = (if reservable f && bool_decide ((a', c') = (a, c)) then Z.max 0 (share_of s a' c' f - uval u f)
       else share_of s a' c' f)%Z;
}.

Lemma consumed_share u m f :
  usage_ok u → map_ok m → counted f →
  (if takes (_nonzero_fields u) f then Z.max 0 (mshare m f - uval u f) else mshare m f)%Z
  = (if reservable f then Z.max 0 (mshare m f - uval u f) else mshare m f)%Z.
Proof.
  intros Hu Hm Hf. unfold takes. destruct (reservable f); [|done]. cbn [andb].
  destruct (relevant (_nonzero_fields u) f) eqn:Er; [done|]. rewrite (irrelevant_uval u f Hu Hf Er).
  destruct (mshare_int m f Hm Hf). lia.
Qed.

Lemma consume_run now a c u s s' x :
  usage_ok u → discrete u → (∀ k r, reservations s !! k = Some r → share_row_ok k r) →
  _consume_reservation_locked now a c u (_nonzero_fields u) s = (s', Ok x) → share_consumed a c u s s'.
Proof.
  intros Hu Hd Hrows. unfold _consume_reservation_locked, get_resource_reservation.
  rewrite M_bind_Ok. intros (found & s1 & Hr & E). unfold reading in Hr. injection Hr as <- Hr.
  destruct (reservations s !! (a, c)) as [r|] eqn:El.
  2: { injection Hr as <-. injection E as <- _. split; try done. intros a' c' f Hf.
       case_bool_decide as Ek; [|by rewrite andb_false_r]. injection Ek as -> ->.
       unfold share_of. rewrite El. pose proof (uval_nonneg u f Hu Hf). destruct (reservable f); cbn [andb]; lia. }
  destruct (Hrows _ _ El) as [Hk Hdec]. rewrite Hdec, res_bind_ok in Hr. injection Hr as <-.
  apply M_bind_Ok in E as ([ch m'] & s1 & Hf & E). apply lift_run in Hf as [-> Hf].
  pose proof budget_fields_complete as Hall.
  destruct (consume_fold u (_nonzero_fields u) Hu (fun f => relevant_counted u f Hd) false (reserved r) budget_fields
              (map_ok_decoded r Hdec) budget_fields_NoDup) as (ch' & m1 & Hf' & Hm' & Hch & Hv).
  rewrite Hf in Hf'. injection Hf' as -> ->.
  assert (Hshare : ∀ f, counted f → mshare m1 f
     = (if reservable f then Z.max 0 (share_of s a c f - uval u f) else share_of s a c f)%Z).
  { intros f Hc. rewrite Hv, decide_True, consumed_share by (done || by apply map_ok_decoded).
    unfold share_of. by rewrite El. }
  assert (Hother : ∀ k (f : gmap _ _ → gmap _ _) a' c' g, k = (a, c) → (∀ m, ∀ k', k' ≠ k → f m !! k' = m !! k') →
     (a', c') ≠ (a, c) → share_of (set_reservations f s) a' c' g = share_of s a' c' g).
  { intros k f a' c' g -> Hf0 Hne. unfold share_of. cbn. by rewrite Hf0. }
  assert (Hsh : ∀ f, (∀ g, counted g → share_of (set_reservations f s) a c g = mshare m1 g) →
     (∀ m k', k' ≠ (a, c) → f m !! k' = m !! k') → ∀ a' c' g, counted g → share_of (set_reservations f s) a' c' g
     = (if reservable g && bool_decide ((a', c') = (a, c)) then Z.max 0 (share_of s a' c' g - uval u g)
        else share_of s a' c' g)%Z).
  { clear E. intros f Hat Hne a' c' g Hg. case_bool_decide as Ek.
    - injection Ek as -> ->. rewrite Hat, Hshare by done. by rewrite andb_true_r.
    - rewrite andb_false_r. by apply (Hother (a, c)). }
  destruct ch'; cbn [negb] in E.
  2: { injection E as <- _. split; try done. intros a' c' f Hc. case_bool_decide as Ek; [|by rewrite andb_false_r].
       injection Ek as -> ->. rewrite andb_true_r, <-Hshare, Hch by done. unfold share_of. by rewrite El. }
  case_bool_decide as Em.
  - injection E as <- _. split; [done|done| | |].
    + intros k r' Hk'. cbn in Hk'. apply lookup_delete_Some in Hk' as [_ Hk']. by apply Hrows.
    + intros k [r' Hk']. cbn in Hk'. apply lookup_delete_Some in Hk' as [_ Hk']. eauto.
    + apply Hsh.
      * intros g Hg. unfold share_of. cbn. rewrite lookup_delete_eq. by rewrite Em.
      * intros m k' Hne. by rewrite lookup_delete_ne.
  - apply M_bind_Ok in E as ([] & s1 & Hval & E). apply lift_run in Hval as [-> Hval].
    unfold upsert_resource_reservation, modify in E. injection E as <- _.
    split; [done|done| | |].
    + intros k r' Hk'. cbn in Hk'. destruct (decide ((a, c) = k)) as [<-|Hne].
      * rewrite lookup_insert_eq, El in Hk'. injection Hk' as <-. split; [done|]. by apply decoded_map_ok.
      * rewrite lookup_insert_ne in Hk' by done. by apply Hrows.
    + intros k [r' Hk']. cbn in Hk'. destruct (decide ((a, c) = k)) as [<-|Hne]; [by rewrite El|].
      rewrite lookup_insert_ne in Hk' by done. eauto.
    + apply Hsh.
      * intros g Hg. unfold share_of. cbn. by rewrite lookup_insert_eq, El.
      * intros m k' Hne. cbn. by rewrite lookup_insert_ne.
Qed.

(** ** Writing usage *)

(** The row of [p] holds usage [u]; nothing else of the tree changed. *)
Record usage_written (p : string) (u : ResourceUsage) (b b' : Store) (old : AgentProcess) : Prop := {
  uw_inv : store_inv b';
  uw_old : processes b !! p = Some old;
  uw_new : ∃ new, processes b' !! p = Some new ∧ resource_usage new = u
    ∧ resource_budget new = resource_budget old ∧ parent_pid new = parent_pid old;
  uw_rest : ∀ q, q ≠ p → processes b' !! q = processes b !! q;
}.

Section Charge.
Context `{ExecEvidence}.

Lemma patch_usage_run amb now p u rev st b b' r :
  store_inv b → patch_process amb now p [SetResourceUsage u; SetUpdatedAt now] rev st b = (b', Ok r) →
  ∃ old, usage_written p u b b' old
    ∧ pid r = p ∧ resource_usage r = u ∧ resource_budget r = resource_budget old.
Proof.
  intros Hinv E. pose proof (le_inv _ _ (patch_process_preserves _ _ _ _ _ _ _ _ _ Hinv E) Hinv) as Hinv'.
  unfold patch_process in E. cbn [List.filter is_allowed_field is_semantic_field negb existsb length] in E.
  apply M_bind_Ok in E as ([] & s1 & Hx & E). apply lift_run in Hx as [-> _].
  apply M_bind_Ok in E as ([] & s1 & Hx & E). apply lift_run in Hx as [-> _].
  apply patch_Ok in E as (old & Hp & _ & _ & Hu & Hpid); [|done].
  apply update_Ok in Hu as (cur & gen & owner & lease & t & Hcur & _ & _ & -> & ->).
  cbn in Hcur. rewrite Hpid, Hp in Hcur. injection Hcur as <-.
  exists old. split; [|done]. split; [done|done| |].
  - eexists. rewrite committed_lookup. cbn [patched existsb is_updated_at orb foldl setattr pid].
    rewrite Hpid, decide_True by done. split; [done|]. done.
  - intros q Hq. rewrite committed_lookup. cbn [patched existsb is_updated_at orb foldl setattr pid].
    by rewrite Hpid, decide_False.
Qed.

Lemma patch_control_usage_run amb now p u rev allowed reason b b' r :
  store_inv b →
  patch_process_control amb now p [SetResourceUsage u; SetUpdatedAt now] rev allowed reason b = (b', Ok r) →
  ∃ old, usage_written p u b b' old
    ∧ pid r = p ∧ resource_usage r = u ∧ resource_budget r = resource_budget old.
Proof.
  intros Hinv E. unfold patch_process_control in E.
  apply M_bind_Ok in E as ([] & s1 & Hx & E). apply lift_run in Hx as [-> _].
  apply M_bind_Ok in E as (o & s1 & Hx & E). apply get_process_Ok in Hx as [-> ->].
  destruct (processes b !! p) as [current|]; [|done].
  apply M_bind_Ok in E as ([] & s1 & Hx & E). apply lift_run in Hx as [-> _].
  apply M_bind_Ok in E as ([] & s1 & Hx & E). apply lift_run in Hx as [-> _].
  apply M_bind_Ok in E as (amb' & s1 & Hx & E). apply lift_run in Hx as [-> _].
  by eapply patch_usage_run.
Qed.

(** ** One process of the chain *)

Record charged (d : ResourceUsage) (below : option string) (p : string) (s s' : RStore) : Prop := {
  cg_ok : tables_ok s';
  cg_row : ∃ old new, processes (base s) !! p = Some old ∧ processes (base s') !! p = Some new
    ∧ _merge_usage (resource_usage old) d = Ok (resource_usage new)
    ∧ resource_budget new = resource_budget old ∧ parent_pid new = parent_pid old;
  cg_rest : ∀ q, q ≠ p → processes (base s') !! q = processes (base s) !! q;
  cg_usage : usage_reservations s' = usage_reservations s;
  cg_keys : ∀ k, is_Some (reservations s' !! k) → is_Some (reservations s !! k);
  cg_share : ∀ a c f, counted f → share_of s' a c f
    = (if reservable f && bool_decide (a = p ∧ below = Some c) then Z.max 0 (share_of s a c f - uval d f)
       else share_of s a c f)%Z;
}.

Lemma charged_tree d below p s s' : charged d below p s s' → same_tree s s'.
Proof.
  intros [_ (old & new & Ho & Hn & _ & _ & Hpar) Hrest _ _ _] q. destruct (decide (q = p)) as [->|Hne].
  - rewrite Ho, Hn. cbn. by rewrite Hpar.
  - by rewrite Hrest.
Qed.

Lemma same_tree_some s s' q : same_tree s s' → is_Some (processes (base s') !! q) → is_Some (processes (base s) !! q).
Proof. intros Ht [row Hr]. destruct (same_tree_row s' s q row (same_tree_sym _ _ Ht) Hr) as (? & ? & _). eauto. Qed.

Lemma covers_mono s s' ks :
  (∀ q, is_Some (processes (base s') !! q) → is_Some (processes (base s) !! q)) →
  (∀ k, is_Some (reservations s' !! k) → is_Some (reservations s !! k)) → covers ks s → covers ks s'.
Proof.
  intros Hp Hk [Hnd Hsub]. split; [done|]. intros c Hc. apply Hsub.
  rewrite elem_of_universe in Hc |- *. destruct Hc as [Hc|(a & Hc)]; eauto.
Qed.

Lemma charged_covers d below p s s' ks : charged d below p s s' → covers ks s → covers ks s'.
Proof.
  intros Hc. apply covers_mono; [|apply (cg_keys _ _ _ _ _ Hc)].
  intros q. by apply same_tree_some, (charged_tree d below p).
Qed.

Lemma written_tables p u s b' old :
  tables_ok s → usage_ok u → usage_written p u (base s) b' old → tables_ok (set_base b' s).
Proof.
  intros Hok Hu [Hinv Ho (new & Hn & Hnu & Hnb & Hnp) Hrest]. split; try apply Hok; [done| |].
  - apply (forest_same s); [|apply Hok]. intros q. cbn [base set_base]. destruct (decide (q = p)) as [->|Hne].
    + rewrite Ho, Hn. cbn. by rewrite Hnp.
    + by rewrite Hrest.
  - intros q row. cbn [base set_base]. destruct (decide (q = p)) as [->|Hne].
    + rewrite Hn. intros [= <-]. rewrite Hnu, Hnb. split; [done|]. by apply (tb_rows _ Hok p old).
    + rewrite Hrest by done. apply Hok.
Qed.

Lemma get_run_Ok p s row : tables_ok s → _get p s = Ok row → processes (base s) !! p = Some row ∧ pid row = p.
Proof.
  intros Hok. rewrite get_run by apply Hok. destruct (processes (base s) !! p) as [r|] eqn:E; [|done].
  intros [= ->]. split; [done|]. by apply (row_decodes s (tb_store _ Hok)).
Qed.

Lemma charge_process_run ps hl amb now d incl below p s s' updated e :
  tables_ok s → usage_ok d → discrete d →
  charge_process ps hl amb now d (_nonzero_fields d) incl below p s = (s', Ok (updated, e)) →
  charged d below p s s' ∧ ∃ new, processes (base s') !! p = Some new
    ∧ pid updated = p ∧ resource_usage updated = resource_usage new ∧ resource_budget updated = resource_budget new
    ∧ _first_exceeded_effective ps hl updated (resource_usage updated) (_nonzero_fields d) None None incl s' = Ok e.
Proof.
  intros Hok Hu Hd E. unfold charge_process in E.
  apply M_bind_Ok in E as (latest & s1 & Hx & E). apply reading_run in Hx as [-> Hx].
  apply get_run_Ok in Hx as [Hl Hpid]; [|done].
  apply M_bind_Ok in E as (u & s1 & Hm & E). apply lift_run in Hm as [-> Hm].
  apply M_bind_Ok in E as (scope & s1 & Hs & E). apply lift_run in Hs as [-> _].
  apply M_bind_Ok in E as (r & s1 & Hw & E). apply on_base_run in Hw as [Hw Es1].
  pose proof (merge_usage_Ok _ _ _ Hm) as [Hmu _].
  assert (Hwrite : ∃ old, usage_written p u (base s) (base s1) old
    ∧ pid r = p ∧ resource_usage r = u ∧ resource_budget r = resource_budget old).
  { rewrite Hpid in Hw. destruct below.
    - eapply patch_control_usage_run; [apply Hok|exact Hw].
    - eapply patch_usage_run; [apply Hok|exact Hw]. }
  destruct Hwrite as (old & Hwr & Hr1 & Hr2 & Hr3). pose proof Hwr as [_ Ho (new & Hn & Hnu & Hnb & Hnp) Hrest].
  rewrite Hl in Ho. injection Ho as <-.
  assert (Hok1 : tables_ok s1) by (rewrite Es1; by eapply written_tables).
  apply M_bind_Ok in E as ([] & s2 & Hc & E). apply M_bind_Ok in E as (ex & s3 & He & E).
  apply reading_run in He as [-> He]. injection E as <- <- <-.
  assert (Hcs : base s2 = base s1 ∧ usage_reservations s2 = usage_reservations s
    ∧ (∀ k r, reservations s2 !! k = Some r → share_row_ok k r)
    ∧ (∀ k, is_Some (reservations s2 !! k) → is_Some (reservations s !! k))
    ∧ ∀ a c f, counted f → share_of s2 a c f
       = (if reservable f && bool_decide (a = p ∧ below = Some c) then Z.max 0 (share_of s a c f - uval d f)
          else share_of s a c f)%Z).
  { destruct below as [c0|].
    - apply consume_run in Hc as [B U R K S]; [|done|done|apply Hok1]. rewrite Es1 in U, K. split_and!; try done.
      intros a c f Hf. rewrite S by done. rewrite Es1. unfold share_of. cbn [reservations set_base].
      rewrite Hr1. destruct (reservable f); [|done]. cbn [andb].
      assert (Hiff : bool_decide ((a, c) = (p, c0)) = bool_decide (a = p ∧ Some c0 = Some c))
        by (apply bool_decide_ext; naive_solver). by rewrite Hiff.
    - injection Hc as <-. rewrite Es1. split_and!; try done; [apply Hok|].
      intros a c f _. rewrite bool_decide_false by naive_solver. by rewrite andb_false_r. }
  destruct Hcs as (B & U & R & K & S).
  split.
  - split; [|exists latest, new; by rewrite B, Hnu|by rewrite B|done|done|done].
    destruct Hok1 as [T1 T2 T3 T4 T5]. split; rewrite ?B; try done. rewrite U. apply Hok.
  - exists new. rewrite B. split_and!; [done|done|congruence|congruence|done].
Qed.
End Charge.

(** ** Why a charge that fits is never exceeded

    A preflight weighs the incoming usage against the share of the process
    below; the check after the charge weighs it against what is active there.
    They agree because a share is never smaller than what its holder can still
    spend: whatever is active under a child is absorbed by its share. *)

(** ** Chains, read from the bottom *)

Section Along.
Variable P : option string → AgentProcess → Prop.

(** [P] holds of every row, given the process below it. *)
Fixpoint along (below : option string) (l : list AgentProcess) : Prop :=
  match l with
  | [] => True
  | row :: rest => P below row ∧ along (Some (pid row)) rest
  end.
End Along.

Lemma along_mono (P Q : option string → AgentProcess → Prop) below l :
  (∀ b row, row ∈ l → P b row → Q b row) → along P below l → along Q below l.
Proof.
  revert below. induction l as [|row l IH]; intros below H; cbn; [done|]. intros [H1 H2]. split.
  - apply H; [left|done].
  - apply IH; [|done]. intros b r Hr. apply H. by right.
Qed.

Lemma along_and (P Q : option string → AgentProcess → Prop) below l :
  along P below l → along Q below l → along (fun b row => P b row ∧ Q b row) below l.
Proof. revert below. induction l as [|row l IH]; intros below; cbn; [done|]. intros [? ?] [? ?]. auto. Qed.

(** The process a chain enters [a] from. *)
Fixpoint link (below : option string) (l : list AgentProcess) (a : string) : option string :=
  match l with
  | [] => None
  | row :: rest => if String.eqb (pid row) a then below else link (Some (pid row)) rest a
  end.

Lemma link_in below l a c : link below l a = Some c → below = Some c ∨ c ∈ map pid l.
Proof.
  revert below. induction l as [|row l IH]; intros below; cbn; [done|].
  destruct (String.eqb (pid row) a); [by left|]. intros [[= <-]|H]%IH; right; [left|by right].
Qed.

Lemma link_notin below l a : a ∉ map pid l → link below l a = None.
Proof.
  revert below. induction l as [|row l IH]; intros below Ha; cbn; [done|].
  cbn in Ha. apply not_elem_of_cons in Ha as [Hne Ha]. apply not_eq_sym, String.eqb_neq in Hne. rewrite Hne. by apply IH.
Qed.

Lemma along_link (P : option string → AgentProcess → Prop) below l row :
  NoDup (map pid l) → along P below l → row ∈ l → P (link below l (pid row)) row.
Proof.
  revert below. induction l as [|r l IH]; intros below Hnd H Hin; [by apply elem_of_nil in Hin|].
  cbn in *. apply NoDup_cons in Hnd as [Hr Hnd]. destruct H as [H1 H2].
  apply elem_of_cons in Hin as [->|Hin]; [by rewrite String.eqb_refl|].
  destruct (String.eqb_spec (pid r) (pid row)) as [E|_]; [|by apply IH].
  destruct Hr. rewrite E. apply list_elem_of_fmap. by exists row.
Qed.

Lemma link_parent procs p l c crow a :
  (∀ q row, procs !! q = Some row → pid row = q) → NoDup (map pid l) →
  chain_at procs p l → crow ∈ l → procs !! c = Some crow → parent_pid crow = Some a →
  link None l a = Some c ∧ ∃ arow, arow ∈ l ∧ pid arow = a.
Proof.
  intros Hpid Hnd Hc. revert Hnd. generalize (@None string).
  induction Hc as [p r Hp Hr|p r q rest Hp Hr Hrest IH]; intros below Hnd Hin Hcr Hpar.
  - apply list_elem_of_singleton in Hin as ->. congruence.
  - cbn in Hnd. apply NoDup_cons in Hnd as [Hnr Hnd].
    assert (Hca : a ∈ map pid rest).
    { apply elem_of_cons in Hin as [->|Hin].
      - rewrite Hr in Hpar. injection Hpar as ->.
        inversion Hrest as [? ar Ha|? ar ? ? Ha]; subst; cbn; rewrite (Hpid _ _ Ha); left.
      - destruct (IH None Hnd Hin Hcr Hpar) as (_ & arow & Ha & <-). apply list_elem_of_fmap. by exists arow. }
    cbn. destruct (String.eqb_spec (pid r) a) as [E|_]; [by rewrite <-E in Hca|].
    split; [|apply list_elem_of_fmap in Hca as (arow & -> & ?); exists arow; split; [by right|done]].
    apply elem_of_cons in Hin as [->|Hin].
    + rewrite Hr in Hpar. injection Hpar as ->.
      inversion Hrest as [? ar Ha|? ar ? ? Ha]; subst; cbn; rewrite (Hpid _ _ Ha), String.eqb_refl;
        by rewrite (Hpid _ _ Hcr).
    + by destruct (IH (Some (pid r)) Hnd Hin Hcr Hpar) as [-> _].
Qed.

(** ** Shares that cover their holders *)

(** A positive share belongs to a child whose limit it covers, together with
    what the child has spent. *)
Definition synced (s : RStore) : Prop := ∀ a c f crow,
  counted f → reservable f = true → (0 < share_of s a c f)%Z → processes (base s) !! c = Some crow →
  parent_pid crow = Some a
  ∧ ∃ L, bget (resource_budget crow) f = Some (NInt L) ∧ (L <= share_of s a c f + uval (resource_usage crow) f)%Z.

(** No process has committed more than its limit. *)
Definition within (s : RStore) : Prop := ∀ p row f L,
  counted f → processes (base s) !! p = Some row → bget (resource_budget row) f = Some (NInt L) →
  (uval (resource_usage row) f + claims s (universe s) p f <= L)%Z.

Lemma not_peak f : reservable f = true → f ≠ max_subprocess_memory_bytes.
Proof. by destruct f. Qed.

Definition merged_val (a d : Z) (f : budget_field) : Z :=
  match f with max_subprocess_memory_bytes => Z.max a d | _ => a + d end.

Lemma merged_val_sum a d f : f ≠ max_subprocess_memory_bytes → merged_val a d f = (a + d)%Z.
Proof. by destruct f. Qed.

Section Absorption.
Variables (s : RStore) (ks : list string) (d : ResourceUsage).
Hypothesis Hok : tables_ok s.
Hypothesis Hks : covers ks s.
Hypothesis Hu : usage_ok d.
Hypothesis Hd : discrete d.

(** The check of the preflight at one process. *)
Definition fits (below : option string) (row : AgentProcess) : Prop := ∀ f L,
  relevant (_nonzero_fields d) f = true → bget (resource_budget row) f = Some (NInt L) →
  (merged_val (uval (resource_usage row) f) (uval d f) f
   + claim_on s ks (pid row) (through_of below d f) f <= L)%Z.

(** What is active under the process below fits what the preflight counted
    for it. *)
Definition absorbed (below : option string) (row : AgentProcess) : Prop := ∀ c f,
  below = Some c → counted f → reservable f = true →
  (under_of s (pid row) c f
   <= Z.max 0 (share_of s (pid row) c f - uval d f)
      + Z.max 0 (under_of s (pid row) c f - share_of s (pid row) c f))%Z.

Lemma share_nonneg a c f : counted f → (0 <= share_of s a c f)%Z.
Proof. apply (share_of_nonneg s (tb_shares _ Hok)). Qed.

Lemma under_nonneg' a c f : counted f → (0 <= under_of s a c f)%Z.
Proof. apply (under_nonneg s (tb_usage _ Hok)). Qed.

(** Each child's claim dominates what is active under it. *)
Lemma under_le_claim below row f c :
  absorbed below row → counted f → reservable f = true →
  (under_of s (pid row) c f
   <= left_share s (pid row) (through_of below d f) f c
      + Z.max 0 (under_of s (pid row) c f - share_of s (pid row) c f))%Z.
Proof.
  intros Habs Hf Hr. unfold left_share, through_of. destruct below as [b|]; [|lia].
  destruct (decide (c = b)) as [->|_]; [by apply Habs|lia].
Qed.

Lemma absorbed_step below row arow :
  synced s → processes (base s) !! pid row = Some row → parent_pid row = Some (pid arow) →
  fits below row → absorbed below row → absorbed (Some (pid row)) arow.
Proof.
  intros Hsync Hrow Hpar Hfit Habs c f [= <-] Hf Hr.
  pose proof (share_nonneg (pid arow) (pid row) f Hf) as Hs.
  pose proof (under_nonneg' (pid arow) (pid row) f Hf) as Hun.
  pose proof (uval_nonneg d f Hu Hf) as Hdn.
  destruct (relevant (_nonzero_fields d) f) eqn:Er.
  2: { rewrite (irrelevant_uval d f Hu Hf Er). lia. }
  destruct (Z.eq_dec (share_of s (pid arow) (pid row) f) 0%Z) as [->|Hne]; [lia|].
  destruct (Hsync (pid arow) (pid row) f row Hf Hr ltac:(lia) Hrow) as (_ & L & HL & Hle).
  specialize (Hfit f L Er HL). rewrite merged_val_sum in Hfit by by apply not_peak.
  rewrite (under_decomp s (pid arow) (pid row) row f ks Hok Hf Hks Hrow Hpar) in *.
  unfold claim_on in Hfit. rewrite Hr in Hfit.
  pose proof (zsum_le _ _ ks (fun c _ => under_le_claim below row f c Habs Hf Hr)). lia.
Qed.

Lemma along_absorbed p l below :
  synced s → chain_at (processes (base s)) p l → along fits below l →
  (∀ row, processes (base s) !! p = Some row → absorbed below row) → along absorbed below l.
Proof.
  intros Hsync Hc. revert below.
  induction Hc as [p r Hp Hr|p r q rest Hp Hr Hrest IH]; intros below [Hf Hfs] Habs; cbn.
  - split; [by apply Habs|done].
  - split; [by apply Habs|]. apply IH; [done|]. intros qrow Hq.
    destruct (row_decodes s (tb_store _ Hok) q qrow Hq) as [_ Eq].
    destruct (row_decodes s (tb_store _ Hok) p r Hp) as [_ Ep].
    eapply absorbed_step; [done|by rewrite Ep|by rewrite Eq|done|by apply Habs].
Qed.

Lemma chain_absorbed p l :
  synced s → chain_at (processes (base s)) p l → along fits None l → along absorbed None l.
Proof. intros Hsync Hc Hf. eapply along_absorbed; [done|done|done|]. intros row _ c f [=]. Qed.

(** The check after the charge passes where the preflight did. *)
Lemma fits_committed s1 below row new :
  tables_ok s1 → same_tree s s1 → usage_reservations s1 = usage_reservations s →
  usage_ok (resource_usage row) → _merge_usage (resource_usage row) d = Ok (resource_usage new) →
  resource_budget new = resource_budget row →
  (∀ c f, counted f → share_of s1 (pid row) c f
     = (if reservable f && bool_decide (below = Some c) then Z.max 0 (share_of s (pid row) c f - uval d f)
        else share_of s (pid row) c f)%Z) →
  fits below row → absorbed below row →
  ∀ f L, relevant (_nonzero_fields d) f = true → bget (resource_budget new) f = Some (NInt L) →
    (uval (resource_usage new) f + claims s1 ks (pid row) f <= L)%Z.
Proof.
  intros Hok1 Ht Hur Hru Hm Hb Hsh Hfit Habs f L Hr HL. rewrite Hb in HL. specialize (Hfit f L Hr HL).
  pose proof (relevant_counted d f Hd Hr) as Hf.
  rewrite (merge_uval _ _ _ f Hru Hu Hm Hf). fold (merged_val (uval (resource_usage row) f) (uval d f) f).
  enough (claims s1 ks (pid row) f <= claim_on s ks (pid row) (through_of below d f) f)%Z by lia.
  unfold claims, claim_on. destruct (reservable f) eqn:Er; [|lia].
  rewrite (own_same s s1) by done. apply Zplus_le_compat_l, zsum_le. intros c _.
  rewrite (under_same s s1) by done. rewrite Hsh, Er by done. cbn [andb].
  pose proof (share_nonneg (pid row) c f Hf). pose proof (under_le_claim below row f c Habs Hf Er) as Hle.
  pose proof (uval_nonneg d f Hu Hf).
  unfold left_share, through_of in *. destruct below as [b|]; [|rewrite bool_decide_false by done; lia].
  destruct (decide (c = b)) as [->|Hne]; [rewrite bool_decide_true by done|rewrite bool_decide_false by congruence]; lia.
Qed.
End Absorption.
