(* ===== verification/ResourceInvariant.v ===== *)
(** * No process overcommits

    Charges, usage envelopes, settlements and shares for children keep the
    ledger in order: no process commits more than its limit, a charge that
    passes its preflight never exceeds one, and a settlement within its
    envelope is never refused. *)

From S2P Require Import Prelude FiniteSums PyStr PyVal ProcessState ProcessModel ProcessStore ProcessWrites ProcessInvariant ProcessProperties ResourceTables ResourceManager ReservationPages ResourceViews ResourceLedger ResourceErrors ResourceCharges.
From stdpp Require Import sorting.

(** ** The preflight *)

Section Preflight.
Variables page_size hard_limit : nat.
Hypothesis Hpage : 0 < page_size ≤ hard_limit.
Variables (s : RStore) (ks : list string) (d : ResourceUsage).
Hypothesis Hok : tables_ok s.
Hypothesis Hks : covers ks s.
Hypothesis Hu : usage_ok d.
Hypothesis Hd : discrete d.

(** What the preflight checks at one process. *)
Lemma preflight_check below row candidate :
  processes (base s) !! pid row = Some row → _merge_usage (resource_usage row) d = Ok candidate →
  ∃ e, _first_exceeded_effective page_size hard_limit row candidate (_nonzero_fields d) below (Some d) true s = Ok e
    ∧ (e = None ↔ fits s ks d below row).
Proof.
  intros Hrow Hm. destruct (tb_rows _ Hok _ _ Hrow) as [Hru Hrb].
  pose proof (merge_usage_Ok _ _ _ Hm) as [Hcu _].
  destruct (first_exceeded_int page_size hard_limit Hpage s Hok row candidate (_nonzero_fields d) below (Some d) ks
              (fun f => relevant_counted d f Hd) Hrb Hks Hcu) as (e & He & Hiff); [by intros u [= <-]|].
  exists e. split; [done|]. rewrite Hiff. unfold fits. split; intros Hf f L Hr HL.
  - specialize (Hf f L Hr HL). by rewrite (merge_uval _ _ _ f Hru Hu Hm (relevant_counted d f Hd Hr)) in Hf.
  - specialize (Hf f L Hr HL). by rewrite (merge_uval _ _ _ f Hru Hu Hm (relevant_counted d f Hd Hr)).
Qed.

Lemma preflight_fits actor below l s' x :
  (∀ row, row ∈ l → processes (base s) !! pid row = Some row) →
  preflight_chain page_size hard_limit actor d below l s = (s', Ok x) → s' = s ∧ along (fits s ks d) below l.
Proof.
  revert below. induction l as [|row l IH]; intros below Hl E; cbn [preflight_chain along] in *.
  - by injection E as -> _.
  - apply M_bind_Ok in E as (candidate & s1 & Hm & E). apply lift_run in Hm as [-> Hm].
    apply M_bind_Ok in E as (ex & s1 & He & E). apply reading_run in He as [-> He].
    destruct (preflight_check below row candidate (Hl row ltac:(left)) Hm) as (e & He' & Hiff).
    rewrite He in He'. injection He' as <-. destruct ex as [e|]; [by apply M_bind_Ok in E as (? & ? & _ & ?)|].
    apply IH in E as [-> Hfs]; [|intros r Hr; apply Hl; by right]. split; [done|]. split; [by apply Hiff|done].
Qed.

(** Usage that fits is not refused. *)
Lemma preflight_passes actor below l s' r :
  (∀ row, row ∈ l → processes (base s) !! pid row = Some row) → along (fits s ks d) below l →
  preflight_chain page_size hard_limit actor d below l s = (s', r) → s' = s ∧ quiet r.
Proof.
  revert below. induction l as [|row l IH]; intros below Hl Hfit E; cbn [preflight_chain along] in *.
  - injection E as <- <-. split; [done|apply quiet_Ok].
  - destruct Hfit as [Hfit Hfits]. rewrite lift_bind in E.
    destruct (_merge_usage (resource_usage row) d) as [candidate|e] eqn:Em.
    2: { injection E as <- <-. split; [done|]. intros e' [= <-]. by eapply quiet_merge. }
    destruct (preflight_check below row candidate (Hl row ltac:(left)) Em) as (e & He' & Hiff).
    rewrite reading_bind, He', (proj2 Hiff Hfit) in E. eapply IH; [|done|done]. intros r' Hr'. apply Hl. by right.
Qed.
End Preflight.

(** ** The charge of a chain *)

Record chain_charged (d : ResourceUsage) (below : option string) (l : list AgentProcess) (s s' : RStore) : Prop := {
  cc_ok : tables_ok s';
  cc_tree : same_tree s s';
  cc_rows : ∀ q old new, processes (base s) !! q = Some old → processes (base s') !! q = Some new →
    resource_budget new = resource_budget old ∧ parent_pid new = parent_pid old
    ∧ (if decide (q ∈ map pid l) then _merge_usage (resource_usage old) d = Ok (resource_usage new)
       else new = old);
  cc_usage : usage_reservations s' = usage_reservations s;
  cc_keys : ∀ k, is_Some (reservations s' !! k) → is_Some (reservations s !! k);
  cc_share : ∀ a c f, counted f → share_of s' a c f
    = (if reservable f && bool_decide (link below l a = Some c) then Z.max 0 (share_of s a c f - uval d f)
       else share_of s a c f)%Z;
}.

Lemma chain_charged_nil d below s : tables_ok s → chain_charged d below [] s s.
Proof.
  intros Hok. split; try done.
  - intros q old new Ho Hn. rewrite Ho in Hn. injection Hn as <-.
    rewrite decide_False; [done|]. apply not_elem_of_nil.
  - intros a c f _. cbn [link]. by rewrite bool_decide_false, andb_false_r.
Qed.

Lemma chain_charged_cons d below row l s s1 s' :
  pid row ∉ map pid l → charged d below (pid row) s s1 → chain_charged d (Some (pid row)) l s1 s' →
  chain_charged d below (row :: l) s s'.
Proof.
  intros Hnin Hc [K1 K2 K3 K4 K5 K6]. pose proof (charged_tree _ _ _ _ _ Hc) as Ht.
  destruct Hc as [C1 (o & n & Ho & Hn & Hm & Hb & Hp) C3 C4 C5 C6]. split; [done| | | | |].
  - intros q. by rewrite (Ht q).
  - intros q old new Hqo Hqn. cbn [map].
    destruct (same_tree_row s s1 q old Ht Hqo) as (mid & Hqm & _).
    destruct (K3 q mid new Hqm Hqn) as (-> & -> & Hd).
    destruct (decide (q = pid row)) as [->|Hne].
    + rewrite decide_True by left. rewrite decide_False in Hd by done. subst mid.
      rewrite Hn in Hqm. rewrite Ho in Hqo. injection Hqm as <-. injection Hqo as <-. done.
    + rewrite C3 in Hqm by done. rewrite Hqo in Hqm. injection Hqm as <-.
      destruct (decide (q ∈ map pid l)) as [Hq|Hq].
      * rewrite decide_True by (by right). done.
      * rewrite decide_False; [done|]. by intros [->|?]%elem_of_cons.
  - by rewrite K4.
  - intros k Hk. auto.
  - intros a c f Hf. rewrite K6, C6 by done. cbn [link].
    destruct (String.eqb_spec (pid row) a) as [<-|Hne].
    + rewrite link_notin by done. rewrite (bool_decide_false (None = Some c)), andb_false_r by done.
      by rewrite (bool_decide_ext (pid row = pid row ∧ below = Some c) (below = Some c)) by naive_solver.
    + rewrite (bool_decide_false (a = pid row ∧ _)), (andb_false_r (reservable f)) by naive_solver. done.
Qed.

Section Charges.
Variables page_size hard_limit : nat.
Hypothesis Hpage : 0 < page_size ≤ hard_limit.
Context `{ExecEvidence}.
Variables (amb : Ambient) (now : string) (d : ResourceUsage).
Hypothesis Hu : usage_ok d.
Hypothesis Hd : discrete d.
Abbreviation chain_of := (charge_chain page_size hard_limit amb now d (_nonzero_fields d)).

(** The chain is charged, whatever the checks say. *)
Lemma charge_chain_run incl below found l s s' r :
  tables_ok s → NoDup (map pid l) →
  chain_of incl below found l s = (s', Ok r) → chain_charged d below l s s'.
Proof.
  revert below found s. induction l as [|row l IH]; intros below found s Hok Hnd E; cbn [charge_chain] in E.
  - injection E as <- _. by apply chain_charged_nil.
  - cbn in Hnd. apply NoDup_cons in Hnd as [Hnin Hnd].
    apply M_bind_Ok in E as ([updated e] & s1 & Hc & E).
    apply charge_process_run in Hc as [Hc _]; [|done|done|done].
    eapply chain_charged_cons; [done|exact Hc|]. eapply IH; [apply Hc|done|exact E].
Qed.

(** [s] agrees with [s0] on what is still to be charged. *)
Record agree (s0 s : RStore) (ks : list string) (l : list AgentProcess) : Prop := {
  ag_ok : tables_ok s;
  ag_tree : same_tree s0 s;
  ag_usage : usage_reservations s = usage_reservations s0;
  ag_rows : ∀ row, row ∈ l → processes (base s) !! pid row = Some row;
  ag_shares : ∀ row c f, row ∈ l → counted f → share_of s (pid row) c f = share_of s0 (pid row) c f;
  ag_covers : covers ks s;
}.

Lemma agree_step s0 s s1 ks row l below :
  agree s0 s ks (row :: l) → pid row ∉ map pid l → charged d below (pid row) s s1 → agree s0 s1 ks l.
Proof.
  intros [A1 A2 A3 A4 A5 A6] Hnin Hc.
  assert (Hne : ∀ r, r ∈ l → pid r ≠ pid row).
  { intros r Hr E. apply Hnin. rewrite <-E. apply list_elem_of_fmap. by exists r. }
  pose proof (charged_tree _ _ _ _ _ Hc) as Ht. pose proof (charged_covers _ _ _ _ _ ks Hc A6).
  destruct Hc as [C1 _ C3 C4 _ C6]. split; [done| | | | |done].
  - intros q. by rewrite (A2 q).
  - by rewrite C4.
  - intros r Hr. rewrite C3 by auto. apply A4. by right.
  - intros r c f Hr Hf. rewrite C6 by done. rewrite bool_decide_false, andb_false_r by (intros [? _]; by apply (Hne r)).
    apply A5; [by right|done].
Qed.

(** When the usage fits, no check after the charge fails, with or without the
    envelopes. *)
Lemma charge_chain_within incl s0 ks below l s s' r :
  tables_ok s0 → covers ks s0 → agree s0 s ks l → NoDup (map pid l) →
  (∀ row, row ∈ l → processes (base s0) !! pid row = Some row) →
  along (fun b row => fits s0 ks d b row ∧ absorbed s0 d b row) below l →
  chain_of incl below None l s = (s', Ok r) → r = None.
Proof.
  intros Hok0 Hks. revert below s. induction l as [|row l IH]; intros below s Hag Hnd Hrows Hal E;
    cbn [charge_chain along map] in *.
  { by injection E as _ <-. }
  apply NoDup_cons in Hnd as [Hnin Hnd]. destruct Hal as [[Hfit Habs] Hal].
  apply M_bind_Ok in E as ([updated e] & s1 & Hc & E).
  apply charge_process_run in Hc as [Hc (new & Hn & Hp1 & Hp2 & Hp3 & He)]; [|apply Hag|done|done].
  pose proof (agree_step _ _ _ _ _ _ _ Hag Hnin Hc) as Hag1.
  enough (e = None) as ->.
  { cbn [snd] in E. eapply IH; [exact Hag1|done| |done|exact E]. intros r' Hr'. apply Hrows. by right. }
  pose proof (charged_covers _ _ _ _ _ ks Hc (ag_covers _ _ _ _ Hag)) as Hks1.
  destruct (tb_rows _ (cg_ok _ _ _ _ _ Hc) _ _ Hn) as [Hnu Hnb].
  destruct (first_exceeded_int page_size hard_limit Hpage s1 (cg_ok _ _ _ _ _ Hc) updated (resource_usage updated)
              (_nonzero_fields d) None None ks (fun f => relevant_counted d f Hd)) as (e' & He' & Hiff);
    [by rewrite Hp3|done|by rewrite Hp2|done|].
  enough (e' = None) as ->.
  { destruct incl; [congruence|].
    apply (first_exceeded_without page_size hard_limit Hpage s1 (cg_ok _ _ _ _ _ Hc)) in He';
      [congruence|intros f; by apply (relevant_counted d)|by rewrite Hp3|by rewrite Hp2]. }
  apply Hiff. intros f L Hr HL.
  rewrite Hp1, claim_on_none, Hp2. rewrite Hp3 in HL.
  destruct (cg_row _ _ _ _ _ Hc) as (old & new' & Ho & Hn' & Hm & Hb & _).
  rewrite Hn in Hn'. injection Hn' as <-. rewrite (ag_rows _ _ _ _ Hag row ltac:(left)) in Ho. injection Ho as <-.
  destruct (tb_rows _ (ag_ok _ _ _ _ Hag) _ _ (ag_rows _ _ _ _ Hag row ltac:(left))) as [Hru _].
  eapply (fits_committed s0 ks d Hok0 Hu Hd s1 below row new); try done.
  - apply Hc.
  - intros q. rewrite (ag_tree _ _ _ _ Hag q). apply (charged_tree _ _ _ _ _ Hc q).
  - by rewrite (cg_usage _ _ _ _ _ Hc), (ag_usage _ _ _ _ Hag).
  - intros c g Hg. rewrite (cg_share _ _ _ _ _ Hc), (ag_shares _ _ _ _ Hag row c g ltac:(left) Hg) by done.
    by rewrite (bool_decide_ext (pid row = pid row ∧ below = Some c) (below = Some c)) by naive_solver.
Qed.
End Charges.

(** ** The ledger invariant *)

Record ledger_inv (s : RStore) : Prop := {
  li_tables : tables_ok s;
  li_synced : synced s;
  li_within : within s;
}.

Lemma claims_same s s' ks a f :
  tables_ok s → tables_ok s' → same_tree s s' → usage_reservations s' = usage_reservations s →
  (∀ c, share_of s' a c f = share_of s a c f) → claims s' ks a f = claims s ks a f.
Proof.
  intros Hok Hok' Ht Hu Hsh. unfold claims. destruct (reservable f); [|done].
  rewrite (own_same s s') by done. f_equal. apply zsum_ext. intros c _. by rewrite Hsh, (under_same s s').
Qed.

(** Only the process rows and the two reservation tables matter. *)
Lemma ledger_ext s s' :
  processes (base s') = processes (base s) → reservations s' = reservations s →
  usage_reservations s' = usage_reservations s → store_inv (base s') → ledger_inv s → ledger_inv s'.
Proof.
  intros Hp Hr Hu Hinv [[T1 T2 T3 T4 T5] Hs Hw].
  assert (Hok' : tables_ok s') by (split; rewrite ?Hp, ?Hr, ?Hu; done).
  assert (Hsh : ∀ a c f, share_of s' a c f = share_of s a c f) by (intros; unfold share_of; by rewrite Hr).
  split; [done| |].
  - intros a c f crow. rewrite Hsh, Hp. apply Hs.
  - intros p row f L Hf. rewrite Hp. intros Hrow HL. unfold universe. rewrite Hp, Hr. fold (universe s).
    rewrite (claims_same s s') by (done || intros q; by rewrite Hp). by apply Hw.
Qed.

Lemma ledger_takeover t s : ledger_inv s → ledger_inv (set_base (set_takeover t (base s)) s).
Proof.
  intros Hl. apply (ledger_ext s); [done|done|done| |done]. cbn.
  apply (le_inv _ _ (takeover_le (base s) t)), Hl.
Qed.

Lemma ledger_record e s s' r : ledger_inv s → record e s = (s', r) → ledger_inv s'.
Proof. intros Hl [= <- <-]. apply (ledger_ext s); [done|done|done|apply Hl|done]. Qed.

Section Charged.
Variables (d : ResourceUsage) (l : list AgentProcess) (p : string) (s s' : RStore).
Hypothesis Hok : tables_ok s.
Hypothesis Hu : usage_ok d.
Hypothesis Hd : discrete d.
Hypothesis Hchain : chain_at (processes (base s)) p l.
Hypothesis Hcc : chain_charged d None l s s'.

Lemma chain_pids_NoDup : NoDup (map pid l).
Proof. by apply (chain_NoDup s (tb_store _ Hok) (tb_forest _ Hok) p). Qed.

Lemma member_row q row : processes (base s) !! q = Some row → q ∈ map pid l → row ∈ l.
Proof.
  intros Hq Hin. apply list_elem_of_fmap in Hin as (row' & -> & Hin).
  pose proof (chain_rows s (tb_store _ Hok) p l row' Hchain Hin) as Hr. congruence.
Qed.

Lemma link_child a c f : counted f → reservable f = true → synced s → (0 < share_of s a c f)%Z →
  is_Some (processes (base s) !! c) → c ∈ map pid l → link None l a = Some c.
Proof.
  intros Hf Hr Hsync Hpos [crow Hc] Hin. destruct (Hsync a c f crow Hf Hr Hpos Hc) as [Hpar _].
  eapply (link_parent (processes (base s))); [|apply chain_pids_NoDup|exact Hchain|by eapply member_row|done|done].
  intros q row Hq. by apply (row_decodes s (tb_store _ Hok)).
Qed.

Lemma chain_charged_synced : synced s → synced s'.
Proof.
  intros Hsync a c f new Hf Hr Hpos Hc.
  destruct (same_tree_row s' s c new (same_tree_sym _ _ (cc_tree _ _ _ _ _ Hcc)) Hc) as (old & Ho & _).
  destruct (cc_rows _ _ _ _ _ Hcc c old new Ho Hc) as (Hb & Hp & Hm).
  rewrite (cc_share _ _ _ _ _ Hcc), Hr in * by done. cbn [andb] in *. rewrite Hb, Hp.
  pose proof (share_nonneg s Hok a c f Hf) as Hnn. pose proof (uval_nonneg d f Hu Hf) as Hdn.
  assert (Hold : (0 < share_of s a c f)%Z) by (case_bool_decide; lia).
  destruct (Hsync a c f old Hf Hr Hold Ho) as (Hpar & L & HL & Hle). split; [done|]. exists L. split; [done|].
  destruct (decide (c ∈ map pid l)) as [Hin|Hnin].
  - rewrite bool_decide_true by (by apply (link_child a c f)).
    destruct (tb_rows _ Hok _ _ Ho) as [Hru _]. rewrite (merge_uval _ _ _ f Hru Hu Hm Hf).
    fold (merged_val (uval (resource_usage old) f) (uval d f) f). rewrite merged_val_sum by (by apply not_peak). lia.
  - subst new. rewrite bool_decide_false; [done|].
    intros [[=]|Hin]%link_in. done.
Qed.

Lemma chain_charged_covers ks : covers ks s → covers ks s'.
Proof.
  apply covers_mono; [|apply (cc_keys _ _ _ _ _ Hcc)]. intros q. apply same_tree_some, (cc_tree _ _ _ _ _ Hcc).
Qed.

Lemma chain_charged_within ks :
  covers ks s → along (fun b row => fits s ks d b row ∧ absorbed s d b row) None l → within s → within s'.
Proof.
  intros Hks Hal Hw q new f L Hf Hq HL. pose proof (cc_ok _ _ _ _ _ Hcc) as Hok'.
  destruct (same_tree_row s' s q new (same_tree_sym _ _ (cc_tree _ _ _ _ _ Hcc)) Hq) as (old & Ho & _).
  destruct (cc_rows _ _ _ _ _ Hcc q old new Ho Hq) as (Hb & _ & Hm).
  rewrite (claims_cover s' Hok' (universe s') ks) by (done || apply universe_covers || by apply chain_charged_covers).
  specialize (Hw q old f L Hf Ho). rewrite Hb in HL. specialize (Hw HL).
  rewrite (claims_cover s Hok (universe s) ks) in Hw by (done || apply universe_covers).
  destruct (tb_rows _ Hok _ _ Ho) as [Hru _].
  assert (Hother : (∀ c, link None l q = Some c → uval d f = 0%Z) → claims s' ks q f = claims s ks q f).
  { intros Hz. apply claims_same; try apply Hcc; try done. intros c. rewrite (cc_share _ _ _ _ _ Hcc) by done.
    destruct (reservable f); [|done]. cbn [andb]. case_bool_decide as El; [|done]. rewrite (Hz c El).
    pose proof (share_nonneg s Hok q c f Hf). lia. }
  destruct (decide (q ∈ map pid l)) as [Hin|Hnin].
  - destruct (relevant (_nonzero_fields d) f) eqn:Er.
    + pose proof (member_row q old Ho Hin) as Hrow.
      destruct (row_decodes s (tb_store _ Hok) q old Ho) as [_ Hpid].
      pose proof (along_link _ None l old chain_pids_NoDup Hal Hrow) as [Hfit Habs]. rewrite Hpid in *.
      rewrite <-Hpid. eapply (fits_committed s ks d Hok Hu Hd s'); [done|apply Hcc|apply Hcc|done|exact Hm|exact Hb| |
        exact Hfit|exact Habs|exact Er|by rewrite Hb].
      intros c g Hg. rewrite Hpid. by apply (cc_share _ _ _ _ _ Hcc).
    + rewrite Hother by (intros; by apply irrelevant_uval). rewrite (merge_uval _ _ _ f Hru Hu Hm Hf).
      rewrite (irrelevant_uval d f Hu Hf Er). pose proof (uval_nonneg _ f Hru Hf). destruct f; lia.
  - subst new. rewrite Hother; [done|]. intros c. by rewrite link_notin.
Qed.
End Charged.

(** ** The accounting mutation *)

Section Operations.
Variables page_size hard_limit : nat.
Hypothesis Hpage : 0 < page_size ≤ hard_limit.
Context `{ExecEvidence}.
Variable json_dumps : list (string * json) → string.
Variable new_nonce : string → string.

Lemma chain_run_Ok s p l : tables_ok s → _process_chain p s = Ok l → chain_at (processes (base s)) p l.
Proof.
  intros Hok E. destruct (processes (base s) !! p) as [row|] eqn:Hp.
  - destruct (chain_exists s (tb_forest _ Hok) p row Hp) as [l' Hl].
    rewrite (process_chain_run s (tb_store _ Hok) (tb_forest _ Hok) p l' Hl) in E. by injection E as <-.
  - by rewrite (process_chain_missing s (tb_store _ Hok) p Hp) in E.
Qed.

Lemma chain_rows_at s p l row : tables_ok s → chain_at (processes (base s)) p l → row ∈ l → processes (base s) !! pid row = Some row.
Proof. intros Hok. by apply (chain_rows s (tb_store _ Hok)). Qed.

(** A preflight that passes. *)
Lemma preflight_locked_fits s ks d p s' x :
  tables_ok s → covers ks s → usage_ok d → discrete d →
  _preflight_locked page_size hard_limit p d s = (s', Ok x) →
  s' = s ∧ ∃ l, chain_at (processes (base s)) p l ∧ along (fits s ks d) None l.
Proof.
  intros Hok Hks Hu Hd E. unfold _preflight_locked in E. rewrite reading_bind in E.
  destruct (_process_chain p s) as [l|] eqn:El; [|done]. pose proof (chain_run_Ok s p l Hok El) as Hl.
  apply (preflight_fits page_size hard_limit Hpage s ks d) in E as [-> Hf]; try done; [by eauto|].
  intros row. by apply (chain_rows_at s p).
Qed.

(** The charge runs its preflight, or its usage fits along the chain. *)
Definition fits_or_asks (overage : bool) (p : string) (d : ResourceUsage) (s : RStore) : Prop :=
  overage = true → ∀ l, chain_at (processes (base s)) p l → along (fits s (universe s) d) None l.

(** Then nothing is exceeded, and the ledger stays in order. *)
Lemma charge_fitting amb now p d source overage incl s s' r :
  ledger_inv s → usage_ok d → discrete d → fits_or_asks overage p d s →
  charge_durably page_size hard_limit amb now p d source overage incl s = (s', Ok r) →
  r = None ∧ ledger_inv s' ∧ usage_reservations s' = usage_reservations s
  ∧ ∃ l, chain_at (processes (base s)) p l
    ∧ ∀ q old, processes (base s) !! q = Some old → ∃ new, processes (base s') !! q = Some new
      ∧ (if decide (q ∈ map pid l) then _merge_usage (resource_usage old) d = Ok (resource_usage new) else new = old).
Proof.
  intros [Hok Hsync Hw] Hu Hd Hover E. unfold charge_durably in E. rewrite unit_of_work_Ok in E.
  apply M_bind_Ok in E as (l & s1 & Hx & E). apply reading_run in Hx as [-> Hl].
  apply chain_run_Ok in Hl; [|done].
  apply M_bind_Ok in E as ([] & s1 & Hx & E).
  assert (s1 = s ∧ along (fits s (universe s) d) None l) as [-> Hfit].
  { destruct overage; [injection Hx as <-; split; [done|by apply Hover]|].
    destruct (preflight_locked_fits s (universe s) d p s1 tt Hok (universe_covers s) Hu Hd Hx) as [-> (l' & Hl' & Hfit)].
    split; [done|]. by rewrite (chain_det s (tb_store _ Hok) (tb_forest _ Hok) p l l'). }
  apply M_bind_Ok in E as (ex & s2 & Hc & E).
  apply M_bind_Ok in E as ([] & s3 & Hx1 & E). apply M_bind_Ok in E as ([] & s4 & Hx2 & E).
  injection E as -> <-.
  pose proof (chain_pids_NoDup l p s Hok Hl) as Hnd.
  pose proof (chain_absorbed s (universe s) d Hok (universe_covers s) Hu p l Hsync Hl Hfit) as Habs.
  pose proof (along_and _ _ _ _ Hfit Habs) as Hal.
  pose proof (charge_chain_run page_size hard_limit amb now d Hu Hd incl None None l s s2 ex Hok Hnd Hc) as Hcc.
  assert (Hrows : ∀ row, row ∈ l → processes (base s) !! pid row = Some row)
    by (intros row; by apply (chain_rows_at s p)).
  split; [|split; [|split]].
  - eapply (charge_chain_within page_size hard_limit Hpage amb now d Hu Hd incl s (universe s) None l s);
      [done|apply universe_covers| |done|done|exact Hal|exact Hc].
    split; try done. apply universe_covers.
  - eapply ledger_record, Hx2. eapply ledger_record, Hx1. split; [apply Hcc| |].
    + by eapply (chain_charged_synced d l p s).
    + by eapply (chain_charged_within d l p s s2 Hok Hu Hd Hl Hcc (universe s) (universe_covers s) Hal).
  - injection Hx1 as <-. injection Hx2 as <-. apply Hcc.
  - exists l. split; [done|]. injection Hx1 as <-. injection Hx2 as <-. intros q old Hq.
    destruct (same_tree_row s s2 q old (cc_tree _ _ _ _ _ Hcc) Hq) as (new & Hn & _). exists new.
    split; [done|]. by apply (cc_rows _ _ _ _ _ Hcc).
Qed.

Lemma charge_durably_Ok amb now p d source s s' r :
  ledger_inv s → usage_ok d → discrete d →
  charge_durably page_size hard_limit amb now p d source false true s = (s', Ok r) →
  r = None ∧ ledger_inv s' ∧ ∃ l, chain_at (processes (base s)) p l
    ∧ ∀ q old, processes (base s) !! q = Some old → ∃ new, processes (base s') !! q = Some new
      ∧ (if decide (q ∈ map pid l) then _merge_usage (resource_usage old) d = Ok (resource_usage new) else new = old).
Proof. intros Hl Hu Hd E. by destruct (charge_fitting _ _ _ _ _ false _ _ _ _ Hl Hu Hd ltac:(done) E) as (? & ? & _ & ?). Qed.

Lemma coerced_ok req d : _coerce_usage req = Ok d → usage_ok d.
Proof.
  assert (Hv : ∀ u x, _validate_usage u = Ok x → usage_ok u).
  { intros u [] Hx. unfold _validate_usage, usage_ok in *. destruct (usage_validate u) as [[]|e]; [done|by destruct e]. }
  destruct req as [u|m]; cbn [_coerce_usage]; intros E; repeat (apply bind_Ok in E as (? & ? & E)); injection E as <-; eauto.
Qed.

(** What a charge leaves behind. *)
Definition charged_tree_usage (p : string) (d : ResourceUsage) (s s' : RStore) : Prop :=
  ∃ l, chain_at (processes (base s)) p l
    ∧ ∀ q old, processes (base s) !! q = Some old → ∃ new, processes (base s') !! q = Some new
      ∧ (if decide (q ∈ map pid l) then _merge_usage (resource_usage old) d = Ok (resource_usage new) else new = old).

(** Such a charge either commits or changes no table: it never gets to the
    kill. *)
Lemma charge_run amb now finalizer notifier p req d source overage kill s s' r :
  ledger_inv s → _coerce_usage req = Ok d → discrete d → _is_zero d = false → fits_or_asks overage p d s →
  charge page_size hard_limit json_dumps amb now new_nonce finalizer notifier p req source overage kill s = (s', r) →
  (r = Ok tt ∧ charge_durably page_size hard_limit amb now p d source overage true s = (s', Ok None))
  ∨ ∃ e t, r = Err e ∧ s' = set_base (set_takeover t (base s)) s.
Proof.
  intros Hl Hreq Hd Hz Hover E. pose proof (coerced_ok req d Hreq) as Hu.
  unfold charge, charge_and_kill in E.
  destruct (charge_durably page_size hard_limit amb now p d source overage true s) as [s1 [ex|e]] eqn:Ec.
  - destruct (charge_fitting amb now p d source overage true s s1 ex Hl Hu Hd Hover Ec) as (-> & _ & _). left.
    assert (E' : (s1, Ok tt) = (s', r)).
    { rewrite <-E. unfold mbind, M_bind. rewrite Hreq. cbn [lift_res]. rewrite Hz, Ec. done. }
    by injection E' as <- <-.
  - apply unit_of_work_Err in Ec as Herr. destruct Herr as (t & s2 & _ & ->). right.
    assert (E' : (set_base (set_takeover t (base s)) s, Err e) = (s', r)).
    { rewrite <-E. unfold mbind, M_bind. rewrite Hreq. cbn [lift_res]. rewrite Hz, Ec. done. }
    injection E' as <- <-. eauto.
Qed.

(** (C24) A charge with its preflight is all or nothing, and never kills: when
    it returns, the usage was added to the process and to each of its
    ancestors and to nothing else, and every process of the table still holds
    what it committed within its limits; when it raises, no table changed.
    The check after the mutation, and with it the termination of the tree,
    is never reached. *)
Theorem charge_is_atomic amb now finalizer notifier p req d source kill s s' r :
  ledger_inv s → _coerce_usage req = Ok d → discrete d → _is_zero d = false →
  charge page_size hard_limit json_dumps amb now new_nonce finalizer notifier p req source false kill s = (s', r) →
  ledger_inv s' ∧ match r with
                  | Ok _ => charged_tree_usage p d s s'
                  | Err _ => ∃ t, s' = set_base (set_takeover t (base s)) s
                  end.
Proof.
  intros Hl Hreq Hd Hz E.
  destruct (charge_run _ _ _ _ _ _ _ _ false _ _ _ _ Hl Hreq Hd Hz ltac:(done) E) as [[-> Ec]|(e & t & -> & ->)].
  - by destruct (charge_durably_Ok amb now p d source s s' None Hl (coerced_ok req d Hreq) Hd Ec) as (_ & ? & ?).
  - split; [by apply ledger_takeover|eauto].
Qed.
End Operations.
