(* ===== verification/ResourceEnvelopes.v ===== *)
(** * Usage envelopes in the ledger

    An envelope moves what its process and every ancestor of it has committed,
    by its usage: up when it is reserved, down when it is settled. *)

From S2P Require Import Prelude FiniteSums PyStr PyVal ProcessState ProcessModel ProcessStore ProcessWrites ProcessInvariant ProcessProperties ResourceTables ResourceManager ReservationPages ResourceViews ResourceLedger ResourceErrors ResourceCharges ResourceInvariant.
From stdpp Require Import sorting.

(** ** Places along a chain *)

Definition place_of_link (o : option string) : Place :=
  match o with None => AtOwner | Some c => Under c end.

Lemma place_in_link owner below l :
  place_in owner below l = if decide (owner ∈ map pid l) then place_of_link (link below l owner) else Elsewhere.
Proof.
  revert below. induction l as [|row l IH]; intros below; cbn [place_in map link].
  - rewrite decide_False; [done|apply not_elem_of_nil].
  - destruct (String.eqb_spec (pid row) owner) as [<-|Hne].
    + rewrite decide_True by left. by destruct below.
    + rewrite IH. destruct (decide (owner ∈ map pid l)) as [Hin|Hnin].
      * by rewrite decide_True by (by right).
      * rewrite decide_False; [done|]. by intros [->|?]%elem_of_cons.
Qed.

Lemma place_at_chain s p l owner :
  tables_ok s → chain_at (processes (base s)) p l →
  place_at s owner p = if decide (owner ∈ map pid l) then place_of_link (link None l owner) else Elsewhere.
Proof.
  intros Hok Hl. unfold place_at.
  rewrite (process_chain_run s (tb_store _ Hok) (tb_forest _ Hok) p l Hl). apply place_in_link.
Qed.

(** A process that is gone has no ancestors. *)
Lemma place_at_missing s p owner row :
  tables_ok s → processes (base s) !! p = None → processes (base s) !! owner = Some row → place_at s owner p = Elsewhere.
Proof.
  intros Hok Hp Ho. unfold place_at. rewrite (process_chain_missing s (tb_store _ Hok)) by done.
  destruct (String.eqb_spec p owner) as [->|]; [congruence|done].
Qed.

(** ** One envelope more *)

Section Envelope.
Variables (s1 s2 : RStore) (r : ResourceUsageReservation).
(** [s1] has the active envelope [r], and [s2] is [s1] without it. *)
Hypothesis Hok1 : tables_ok s1.
Hypothesis Hok2 : tables_ok s2.
Hypothesis Hprocs : processes (base s2) = processes (base s1).
Hypothesis Hres : reservations s2 = reservations s1.
Hypothesis Hactive : active_rows s1 ≡ₚ r :: active_rows s2.

Lemma envelope_tree : same_tree s1 s2.
Proof. intros q. by rewrite Hprocs. Qed.

Lemma envelope_place owner p : place_at s2 owner p = place_at s1 owner p.
Proof. symmetry. apply place_at_same; [done|done|apply envelope_tree]. Qed.

Lemma envelope_share a c f : share_of s2 a c f = share_of s1 a c f.
Proof. unfold share_of. by rewrite Hres. Qed.

Lemma envelope_covers ks : covers ks s1 ↔ covers ks s2.
Proof. unfold covers, universe. by rewrite Hprocs, Hres. Qed.

Lemma envelope_own a f :
  own_of s1 a f = (own_of s2 a f
    + match place_at s1 a (ur_pid r) with AtOwner => uval (ur_usage r) f | _ => 0 end)%Z.
Proof.
  unfold own_of. rewrite Hactive. cbn [zsum]. unfold is_own at 1.
  rewrite (zsum_ext _ (fun r0 => if is_own s2 a r0 then uval (ur_usage r0) f else 0%Z) (active_rows s2)).
  2: { intros r' _. unfold is_own. by rewrite envelope_place. }
  destruct (place_at s1 a (ur_pid r)); lia.
Qed.

Lemma envelope_under a c f :
  under_of s1 a c f = (under_of s2 a c f
    + match place_at s1 a (ur_pid r) with
      | Under c' => if decide (c = c') then uval (ur_usage r) f else 0 | _ => 0 end)%Z.
Proof.
  unfold under_of. rewrite Hactive. cbn [zsum]. unfold is_under at 1.
  rewrite (zsum_ext _ (fun r0 => if is_under s2 a c r0 then uval (ur_usage r0) f else 0%Z) (active_rows s2)).
  2: { intros r' _. unfold is_under. by rewrite envelope_place. }
  destruct (place_at s1 a (ur_pid r)) as [| |c']; try lia.
  destruct (String.eqb_spec c' c) as [->|Hne]; [rewrite decide_True by done; lia|].
  rewrite decide_False by congruence. lia.
Qed.

(** Without the envelope every claim is at most what it was. *)
Lemma envelope_claims_le ks a f :
  counted f → usage_ok (ur_usage r) → (claims s2 ks a f <= claims s1 ks a f)%Z.
Proof.
  intros Hf Hu. unfold claims. destruct (reservable f); [|done].
  pose proof (uval_nonneg _ f Hu Hf) as Hnn.
  assert (own_of s2 a f <= own_of s1 a f)%Z by (rewrite envelope_own; destruct (place_at s1 a (ur_pid r)); lia).
  apply Z.add_le_mono; [done|]. apply zsum_le. intros c _. rewrite envelope_share, (envelope_under a c f).
  destruct (place_at s1 a (ur_pid r)) as [| |c']; try lia. destruct (decide (c = c')); lia.
Qed.

(** And elsewhere it is what it was. *)
Lemma envelope_elsewhere ks a f : place_at s1 a (ur_pid r) = Elsewhere → claims s2 ks a f = claims s1 ks a f.
Proof.
  intros Hp. unfold claims. destruct (reservable f); [|done]. rewrite envelope_own, Hp, Z.add_0_r.
  f_equal. apply zsum_ext. intros c _. by rewrite envelope_share, (envelope_under a c f), Hp, Z.add_0_r.
Qed.

Lemma envelope_synced : synced s1 ↔ synced s2.
Proof. unfold synced. rewrite Hprocs. by setoid_rewrite envelope_share. Qed.

Lemma envelope_within_less : usage_ok (ur_usage r) → within s1 → within s2.
Proof.
  intros Hu Hw q row f L Hf. rewrite Hprocs. intros Hq HL. specialize (Hw q row f L Hf Hq HL).
  unfold universe. rewrite Hprocs, Hres. fold (universe s1).
  pose proof (envelope_claims_le (universe s1) q f Hf Hu). lia.
Qed.

(** *** Reserving *)

(** A new envelope that fits keeps the limits. *)
Lemma envelope_within_more ks l :
  usage_ok (ur_usage r) → discrete (ur_usage r) → covers ks s2 → chain_at (processes (base s2)) (ur_pid r) l →
  along (fun b row => fits s2 ks (ur_usage r) b row ∧ absorbed s2 (ur_usage r) b row) None l →
  within s2 → within s1.
Proof.
  intros Hu Hd Hks Hl Hal Hw q row f L Hf Hq HL. rewrite <-Hprocs in Hq.
  specialize (Hw q row f L Hf Hq HL). pose proof (uval_nonneg _ f Hu Hf) as Hnn.
  rewrite (claims_cover s1 Hok1 (universe s1) ks) by (done || apply universe_covers || by apply envelope_covers).
  rewrite (claims_cover s2 Hok2 (universe s2) ks) in Hw by (done || apply universe_covers).
  pose proof (place_at_chain s2 (ur_pid r) l q Hok2 Hl) as Hplace. rewrite envelope_place in Hplace.
  destruct (decide (q ∈ map pid l)) as [Hin|Hnin]; [|by rewrite <-envelope_elsewhere].
  pose proof (along_link _ None l row (chain_pids_NoDup l (ur_pid r) s2 Hok2 Hl) Hal
                (member_row l (ur_pid r) s2 Hok2 Hl q row Hq Hin)) as [Hfit Habs].
  destruct (row_decodes s2 (tb_store _ Hok2) q row Hq) as [_ Hpid]. rewrite Hpid in Hfit, Habs.
  destruct (reservable f) eqn:Er; [|unfold claims in *; by rewrite Er in *].
  unfold claims. rewrite Er, envelope_own, Hplace. unfold claims in Hw. rewrite Er in Hw.
  destruct (relevant (_nonzero_fields (ur_usage r)) f) eqn:Erel.
  2: { pose proof (irrelevant_uval _ f Hu Hf Erel) as Hz.
       rewrite (zsum_ext _ (fun c => Z.max (share_of s2 q c f) (under_of s2 q c f)) ks).
       2: { intros c _. rewrite <-envelope_share, (envelope_under q c f), Hz. 
            destruct (place_at s1 q (ur_pid r)) as [| |c']; [..|destruct (decide (c = c'))]; by rewrite Z.add_0_r. }
       rewrite Hz. destruct (link None l q); cbn [place_of_link]; lia. }
  specialize (Hfit f L Erel HL). rewrite merged_val_sum, Hpid in Hfit by by apply not_peak.
  unfold claim_on in Hfit. rewrite Er in Hfit. set (th := through_of (link None l q) (ur_usage r) f) in *.
  enough (zsum (fun c => Z.max (share_of s1 q c f) (under_of s1 q c f)) ks
     <= zsum (fun c => left_share s2 q th f c + Z.max 0 (under_of s2 q c f - share_of s2 q c f)) ks
        + match link None l q with None => 0 | Some _ => uval (ur_usage r) f end)%Z as Hsum
    by (destruct (link None l q); cbn [place_of_link]; lia).
  destruct (link None l q) as [b|] eqn:El; cbn [place_of_link] in Hplace.
  - pose proof (zsum_one ks b (uval (ur_usage r) f) (proj1 Hks) Hnn) as Hone.
    set (counted_for := fun c => (left_share s2 q th f c + Z.max 0 (under_of s2 q c f - share_of s2 q c f))%Z).
    set (extra := fun c => (if decide (c = b) then uval (ur_usage r) f else 0)%Z) in *.
    pose proof (zsum_plus counted_for extra ks) as Hsplit.
    enough (zsum (fun c => Z.max (share_of s1 q c f) (under_of s1 q c f)) ks
      <= zsum (fun c => counted_for c + extra c) ks)%Z by lia.
    unfold counted_for, extra. apply zsum_le. intros c _. rewrite <-envelope_share, (envelope_under q c f), Hplace.
    pose proof (share_nonneg s2 Hok2 q c f Hf).
    unfold left_share, th, through_of. destruct (decide (c = b)) as [->|]; [|lia].
    specialize (Habs b f eq_refl Hf Er). rewrite Hpid in Habs. lia.
  - rewrite Z.add_0_r. apply zsum_le. intros c _. rewrite <-envelope_share, (envelope_under q c f), Hplace.
    unfold left_share, th, through_of. lia.
Qed.

(** *** Settling *)

(** Usage within the envelope fits once the envelope is gone. *)
Lemma envelope_fits ks l a :
  usage_ok (ur_usage r) → usage_ok a → discrete a → (∀ f, counted f → (uval a f <= uval (ur_usage r) f)%Z) →
  (∀ f, relevant (_nonzero_fields a) f = true → reservable f = true) →
  covers ks s2 → chain_at (processes (base s2)) (ur_pid r) l → within s1 →
  ∀ row, row ∈ l → fits s2 ks a (link None l (pid row)) row.
Proof.
  intros Hu Ha Had Hle Hres' Hks Hl Hw row Hin f L Hr HL. pose proof (relevant_counted a f Had Hr) as Hf.
  pose proof (Hres' f Hr) as Er. pose proof (Hle f Hf) as Hlef. pose proof (uval_nonneg _ f Ha Hf) as Hann.
  pose proof (chain_rows s2 (tb_store _ Hok2) (ur_pid r) l row Hl Hin) as Hq.
  set (q := pid row) in *. rewrite Hprocs in Hq. specialize (Hw q row f L Hf Hq HL).
  rewrite (claims_cover s1 Hok1 (universe s1) ks) in Hw by (done || apply universe_covers || by apply envelope_covers).
  pose proof (place_at_chain s2 (ur_pid r) l q Hok2 Hl) as Hplace. rewrite envelope_place in Hplace.
  rewrite decide_True in Hplace by (apply list_elem_of_fmap; by exists row).
  rewrite merged_val_sum by by apply not_peak. unfold claims in Hw. unfold claim_on. rewrite Er in *.
  rewrite envelope_own, Hplace in Hw. set (th := through_of (link None l q) a f).
  enough (zsum (fun c => left_share s2 q th f c + Z.max 0 (under_of s2 q c f - share_of s2 q c f)) ks
     + match link None l q with None => 0 | Some _ => uval a f end
     <= zsum (fun c => Z.max (share_of s1 q c f) (under_of s1 q c f)) ks)%Z as Hsum
    by (destruct (link None l q); cbn [place_of_link] in Hw; lia).
  destruct (link None l q) as [b|] eqn:El; cbn [place_of_link] in Hplace.
  - assert (Hb : b ∈ ks).
    { apply Hks, elem_of_universe. left. apply link_in in El as [[=]|Hb]. apply list_elem_of_fmap in Hb as (brow & -> & Hb).
      rewrite (chain_rows s2 (tb_store _ Hok2) (ur_pid r) l brow Hl Hb). eauto. }
    assert (Hind : zsum (fun c => if decide (c = b) then uval a f else 0%Z) ks = uval a f).
    { rewrite (zsum_update (fun _ => 0%Z) _ ks b (proj1 Hks) Hb) by (intros y _ Hy; by rewrite decide_False).
      rewrite decide_True, zsum_zero by done. lia. }
    rewrite <-Hind, <-zsum_plus. apply zsum_le. intros c _. rewrite <-envelope_share, (envelope_under q c f), Hplace.
    pose proof (share_nonneg s2 Hok2 q c f Hf). pose proof (under_nonneg' s2 Hok2 q c f Hf).
    unfold left_share, th, through_of. destruct (decide (c = b)) as [->|]; lia.
  - rewrite Z.add_0_r. apply zsum_le. intros c _. rewrite <-envelope_share, (envelope_under q c f), Hplace.
    unfold left_share, th, through_of. lia.
Qed.
End Envelope.

Lemma along_intro (P : option string → AgentProcess → Prop) below l :
  NoDup (map pid l) → (∀ row, row ∈ l → P (link below l (pid row)) row) → along P below l.
Proof.
  revert below. induction l as [|r l IH]; intros below Hnd H; cbn in *; [done|].
  apply NoDup_cons in Hnd as [Hr Hnd]. split.
  - specialize (H r ltac:(left)). by rewrite String.eqb_refl in H.
  - apply IH; [done|]. intros row Hin. specialize (H row ltac:(by right)).
    destruct (String.eqb_spec (pid r) (pid row)) as [E|_]; [|done].
    destruct Hr. rewrite E. apply list_elem_of_fmap. by exists row.
Qed.
