(* ===== verification/ResourceShares.v ===== *)
(** * Shares for children

    A share is set aside for a child before its row exists, out of what every
    process of the parent's chain has left, and is given up with the process. *)

From S2P Require Import Prelude FiniteSums PyStr PyVal ProcessState ProcessModel ProcessStore ProcessWrites ProcessInvariant ProcessProperties ResourceTables ResourceManager ReservationPages ResourceViews ResourceLedger ResourceErrors ResourceCharges ResourceInvariant.
From stdpp Require Import sorting.

(** ** The reserved mapping of a budget *)

Lemma budget_number_idem f v n : _budget_number f v = Ok n → _budget_number f n = Ok n.
Proof.
  unfold _budget_number, domain_number. destruct (continuous_budget f).
  - intros (x & Hx & [= <-])%bind_Ok. done.
  - destruct v as [z|x]; [by intros [= <-]|]. by intros (z & _ & [= <-])%bind_Ok.
Qed.

Definition reserve_field (b : ResourceBudget) (reserved : gmap string num) (f : budget_field) : res (gmap string num) :=
  if negb (reservable f) then Ok reserved else
  match bget b f with
  | None => Ok reserved
  | Some v => n ← _budget_number f v; Ok (<[budget_field_name f := n]> reserved)
  end.

Definition normal_map (m : gmap string num) : Prop :=
  ∀ k n, m !! k = Some n → domain_number (continuous_key k) n = Ok n.

Lemma reserve_fold b l m m' :
  foldR (reserve_field b) m l = Ok m' → normal_map m → NoDup l → (∀ f, f ∈ l → m !! budget_field_name f = None) →
  normal_map m' ∧ ∀ f, counted f → budget_ok b →
    mshare m' f = if decide (f ∈ l) then (if reservable f then zval (default (NInt 0) (bget b f)) else mshare m f) else mshare m f.
Proof.
  revert m. induction l as [|f l IH]; intros m E Hm Hnd Hfree; cbn [foldR] in E.
  - injection E as <-. split; [done|]. intros f _ _. rewrite decide_False; [done|apply not_elem_of_nil].
  - apply bind_Ok in E as (m1 & E1 & E). apply NoDup_cons in Hnd as [Hf Hnd].
    assert (Hm1 : normal_map m1 ∧ (∀ g, g ≠ f → m1 !! budget_field_name g = m !! budget_field_name g)
      ∧ (counted f → budget_ok b → mshare m1 f = if reservable f then zval (default (NInt 0) (bget b f)) else mshare m f)).
    { unfold reserve_field in E1. destruct (reservable f) eqn:Er; cbn [negb] in E1; [|by injection E1 as <-].
      pose proof (Hfree f ltac:(left)) as Hff.
      destruct (bget b f) as [v|] eqn:Eb.
      2: { injection E1 as <-. split_and!; [done|done|]. intros _ _. unfold mshare. by rewrite Hff. }
      apply bind_Ok in E1 as (n & En & [= <-]). split_and!.
      - intros k n' Hk. destruct (decide (budget_field_name f = k)) as [<-|Hne].
        + rewrite lookup_insert_eq in Hk. injection Hk as <-. rewrite continuous_key_name. by apply budget_number_idem in En.
        + rewrite lookup_insert_ne in Hk by done. by apply Hm.
      - intros g Hg. rewrite lookup_insert_ne; [done|]. intros E'. by apply Hg, eq_sym, budget_field_name_inj.
      - intros Hc Hb. unfold mshare. rewrite lookup_insert_eq. destruct (Hb f v Hc Eb) as [z ->].
        unfold _budget_number in En. rewrite Hc in En. by injection En as <-. }
    destruct Hm1 as (Hn1 & Hother & Hsh).
    destruct (IH m1 E Hn1 Hnd) as [Hn' Hv].
    { intros g Hg. rewrite Hother; [apply Hfree; by right|]. by intros ->. }
    split; [done|]. intros g Hc Hb. rewrite Hv by done. destruct (decide (g = f)) as [->|Hne].
    + rewrite decide_False by done. rewrite decide_True by left. by apply Hsh.
    + assert (Hms : mshare m1 g = mshare m g) by (unfold mshare; by rewrite Hother).
      rewrite Hms. destruct (decide (g ∈ l)); [by rewrite decide_True by (by right)|].
      rewrite decide_False; [done|]. by intros [->|?]%elem_of_cons.
Qed.

(** The share of a counted field is its limit. *)
Lemma reservation_share b m f :
  _reservation_from_budget b = Ok m → budget_ok b → counted f →
  normal_map m ∧ mshare m f = (if reservable f then zval (default (NInt 0) (bget b f)) else 0)%Z.
Proof.
  intros E Hb Hf. change (foldR (reserve_field b) ∅ budget_fields = Ok m) in E.
  destruct (reserve_fold b budget_fields ∅ m E) as [Hn Hv]; [by intros k n|apply budget_fields_NoDup|done|].
  split; [done|]. rewrite Hv, decide_True by (done || apply budget_fields_complete). done.
Qed.

(** ** What is left on a chain *)

Section Remaining.
Variables page_size hard_limit : nat.
Hypothesis Hpage : 0 < page_size ≤ hard_limit.
Variable s : RStore.
Hypothesis Hok : tables_ok s.
Abbreviation remaining_of := (process_remaining page_size hard_limit).

Lemma process_remaining_int row f d x :
  counted f → reservable f = true → processes (base s) !! pid row = Some row → usage_ok d →
  remaining_of row f (_BUDGET_USAGE_MAP f) (Some d) s = Ok x →
  x = match bget (resource_budget row) f with
      | None => None
      | Some n => Some (NInt (Z.max 0 (zval n - (uval (resource_usage row) f + uval d f + claims s (universe s) (pid row) f))))
      end.
Proof.
  intros Hf Hr Hrow Hd E. unfold process_remaining in E.
  destruct (tb_rows _ Hok _ _ Hrow) as [Hru Hrb].
  destruct (bget (resource_budget row) f) as [n|] eqn:Eb; [|by injection E as <-].
  destruct (Hrb f n Hf Eb) as [L ->].
  apply bind_Ok in E as (u & Hm & E). pose proof (merge_usage_Ok _ _ _ Hm) as [Hu _].
  fold (usage_value u f) in E. rewrite usage_value_int, res_bind_ok, Hr in E by done.
  assert (Hnone : ∀ u : ResourceUsage, None = Some u → usage_ok u) by (by intros ? [=]).
  pose proof (committed_value_int page_size hard_limit Hpage s Hok row u f None None (universe s) Hf
                (universe_covers s) Hu Hnone) as Hc.
  unfold committed_value in Hc. rewrite usage_value_int, res_bind_ok, Hr in Hc by done. cbn [negb] in Hc.
  rewrite claim_on_none in Hc.
  rewrite Hc, res_bind_ok in E. unfold _budget_number in E. rewrite Hf in E. cbn [domain_number] in E.
  rewrite res_bind_ok in E. cbn [num_sub] in E. rewrite res_bind_ok, budget_zero_int, num_max_int in E by done.
  injection E as <-. rewrite (merge_uval _ _ _ f Hru Hd Hm Hf).
  fold (merged_val (uval (resource_usage row) f) (uval d f) f). by rewrite merged_val_sum by by apply not_peak.
Qed.

(** The fold keeps the least of what it saw. *)
Lemma least_below f d l :
  counted f → reservable f = true → usage_ok d → (∀ row, row ∈ l → processes (base s) !! pid row = Some row) →
  ∀ acc x, foldR (fun remaining process =>
      left ← remaining_of process f (_BUDGET_USAGE_MAP f) (Some d) s;
      Ok (match left with None => remaining | Some v => Some (num_min_opt remaining v) end)) (Some (NInt acc)) l = Ok x →
  ∃ z, x = Some (NInt z) ∧ (z <= acc)%Z.
Proof.
  intros Hf Hr Hd. induction l as [|row l IH]; intros Hl acc x E; cbn [foldR] in E; [|].
  { injection E as <-. exists acc. split; [done|lia]. }
  apply bind_Ok in E as (acc' & E1 & E). apply bind_Ok in E1 as (y & Hy & [= <-]).
  apply process_remaining_int in Hy; [|done|done|apply Hl; left|done].
  assert (Hl' : ∀ row0, row0 ∈ l → processes (base s) !! pid row0 = Some row0) by (intros; apply Hl; by right).
  destruct (bget (resource_budget row) f) as [n|]; subst y; [|by apply (IH Hl' acc)].
  cbn [num_min_opt] in E. rewrite num_min_int in E. destruct (IH Hl' _ _ E) as (z & -> & Hz). exists z. split; [done|lia].
Qed.
End Remaining.

(** ** Granting a share *)

Section Grant.
Variables page_size hard_limit : nat.
Hypothesis Hpage : 0 < page_size ≤ hard_limit.

(** A validated budget asks for no more than the parent has left. *)
Lemma validated_field s parent prow b d f R :
  tables_ok s → usage_ok d → processes (base s) !! parent = Some prow → counted f → reservable f = true →
  validate_child_field page_size hard_limit parent b d s f = Ok tt → bget b f = Some (NInt R) →
  ∀ n, bget (resource_budget prow) f = Some n →
    (R <= Z.max 0 (zval n - (uval (resource_usage prow) f + claims s (universe s) parent f)))%Z.
Proof.
  intros Hok Hd Hp Hf Hr E HR n Hn. unfold validate_child_field in E. rewrite HR, Hr in E. cbn [negb] in E.
  apply bind_Ok in E as (remaining & Erem & E). apply raise_if_Ok in E.
  unfold _remaining_budget_field_locked in Erem. apply bind_Ok in Erem as (l & Hl & Erem).
  apply chain_run_Ok in Hl; [|done].
  assert (Hrows : ∀ row, row ∈ l → processes (base s) !! pid row = Some row) by (intros row; by apply (chain_rows_at s parent)).
  destruct (chain_lookup s parent l Hl) as (row & rest & -> & Hrow). rewrite Hp in Hrow. injection Hrow as <-.
  destruct (row_decodes s (tb_store _ Hok) parent prow Hp) as [_ Hpid].
  unfold least_remaining in Erem. cbn [foldR] in Erem.
  apply bind_Ok in Erem as (acc & E1 & Erem). apply bind_Ok in E1 as (x & Hx & [= <-]).
  apply (process_remaining_int page_size hard_limit Hpage s Hok) in Hx; [|done|done|by rewrite Hpid|done].
  rewrite Hn, Hpid in Hx. subst x. cbn [num_min_opt] in Erem.
  apply (least_below page_size hard_limit Hpage s Hok f d rest Hf Hr Hd) in Erem as (z & -> & Hz);
    [|intros row Hin; apply Hrows; by right].
  rewrite num_gtb_int in E. apply Z.ltb_ge in E. pose proof (uval_nonneg d f Hd Hf). lia.
Qed.

Lemma validate_child_run s parent b d s' x :
  tables_ok s → _is_zero d = false →
  validate_child_budget page_size hard_limit parent b d s = (s', Ok x) →
  _coerce_usage (UsageObject d) = Ok d ∧
  (∃ prow, processes (base s) !! parent = Some prow) ∧
  (base s' = base s ∧ reservations s' = reservations s ∧ usage_reservations s' = usage_reservations s) ∧
  ∀ f, validate_child_field page_size hard_limit parent b d s' f = Ok tt.
Proof.
  intros Hok Hz E. unfold validate_child_budget in E. rewrite Hz in E.
  apply M_bind_Ok in E as (u & s1 & Hc & E). apply lift_run in Hc as [-> Hc].
  apply M_bind_Ok in E as ([] & s1 & Hp & E).
  apply M_bind_Ok in E as (w & s2 & Hw & E). apply reading_run in Hw as [-> Hw].
  apply M_bind_Ok in E as ([] & s2 & Hx & E). apply lift_run in Hx as [-> _].
  apply reading_run in E as [-> E]. destruct x.
  assert (Hcoerce : u = d).
  { cbn in Hc. apply bind_Ok in Hc as (? & _ & [= <-]). done. } subst u.
  assert (Hsame : s1 = s ∧ ∃ l, _process_chain parent s = Ok l).
  { unfold _preflight_locked in Hp. rewrite reading_bind in Hp. destruct (_process_chain parent s) as [l|]; [|done].
    split; [|eauto]. clear -Hp. generalize dependent (@None string). induction l as [|row l IH]; intros below Hp; cbn [preflight_chain] in Hp.
    - by injection Hp as <-.
    - apply M_bind_Ok in Hp as (c & s2 & Hc & Hp). apply lift_run in Hc as [-> _].
      apply M_bind_Ok in Hp as ([e|] & s2 & He & Hp); apply reading_run in He as [-> _]; [|by eapply IH].
      by apply M_bind_Ok in Hp as (? & ? & _ & ?). }
  destruct Hsame as [-> (l & Hl)]. apply chain_run_Ok in Hl; [|done].
  destruct (chain_lookup s parent l Hl) as (prow & rest & _ & Hrow). split_and!; [done|eauto|done|done|done|].
  rewrite foldR_unit_Ok in E. intros f. apply E, budget_fields_complete.
Qed.

End Grant.

(** The child, if it has a row, is the parent's and runs on this budget. *)
Definition child_of (s : RStore) (parent child : string) (b : ResourceBudget) : Prop := ∀ crow,
  processes (base s) !! child = Some crow → parent_pid crow = Some parent ∧ resource_budget crow = b.

Lemma upsert_ledger s parent child b m now prow :
  ledger_inv s → budget_ok b → _reservation_from_budget b = Ok m →
  let row := {| res_parent_pid := parent; res_child_pid := child; reserved := m; res_created_at := now; res_updated_at := now |} in
  reservation_validate row = Ok tt → child_of s parent child b → processes (base s) !! parent = Some prow →
  (∀ f R, counted f → reservable f = true → bget b f = Some (NInt R) → ∀ n, bget (resource_budget prow) f = Some n →
    (R <= Z.max 0 (zval n - (uval (resource_usage prow) f + claims s (universe s) parent f)))%Z) →
  ∀ s' r, upsert_resource_reservation row s = (s', r) → ledger_inv s'.
Proof.
  intros [Hok Hsync Hw] Hb Hm row Hv Hchild Hp Hleft s' r [= <- _].
  set (s1 := set_reservations _ s).
  set (new := match reservations s !! (parent, child) with
              | Some old => {| res_parent_pid := parent; res_child_pid := child; reserved := m;
                               res_created_at := res_created_at old; res_updated_at := now |}
              | None => row end).
  assert (Hs1 : reservations s1 = <[(parent, child) := new]> (reservations s)) by done.
  assert (Hnew : reserved new = m ∧ res_parent_pid new = parent ∧ res_child_pid new = child)
    by (unfold new; by destruct (reservations s !! (parent, child))). destruct Hnew as (Hn1 & Hn2 & Hn3).
  assert (Hmap : map_ok m).
  { intros k n Hk. destruct (reservation_share b m max_tool_calls Hm Hb eq_refl) as [Hnorm _].
    split; [by apply Hnorm|]. unfold reservation_validate in Hv. rewrite foldR_unit_Ok in Hv.
    eapply validate_number_nonneg, (Hv (k, n)). by apply elem_of_map_to_list. }
  assert (Hok1 : tables_ok s1).
  { destruct Hok as [T1 T2 T3 T4 T5]. split; try done. intros k r'. rewrite Hs1.
    destruct (decide ((parent, child) = k)) as [<-|Hne]; [|rewrite lookup_insert_ne by done; apply T4].
    rewrite lookup_insert_eq. intros [= <-]. split; [congruence|]. apply decoded_map_ok; [by rewrite Hn1|].
    unfold reservation_validate in *. by rewrite Hn1. }
  assert (Hsh : ∀ a c f, counted f → share_of s1 a c f
    = if decide ((a, c) = (parent, child)) then (if reservable f then zval (default (NInt 0) (bget b f)) else 0%Z)
      else share_of s a c f).
  { intros a c f Hf. unfold share_of. rewrite Hs1. destruct (decide ((a, c) = (parent, child))) as [->|Hne].
    - rewrite lookup_insert_eq. unfold share. rewrite Hn1. fold (mshare m f). by apply reservation_share.
    - by rewrite lookup_insert_ne. }
  split; [done| |].
  - intros a c f crow Hf Hr Hpos Hc. rewrite Hsh in * by done. destruct (decide ((a, c) = (parent, child))) as [[= -> ->]|_].
    + destruct (Hchild crow Hc) as [Hpar Hbud]. split; [done|]. rewrite Hr in *. rewrite Hbud.
      destruct (bget b f) as [n|] eqn:Eb; [|done]. destruct (Hb f n Hf Eb) as [z ->]. exists z. split; [done|].
      destruct (tb_rows _ Hok _ _ Hc) as [Hcu _]. pose proof (uval_nonneg _ f Hcu Hf). cbn. lia.
    + by apply (Hsync a c f crow).
  - intros q qrow f L Hf Hq HL. specialize (Hw q qrow f L Hf Hq HL). change (processes (base s1)) with (processes (base s)) in Hq.
    destruct (covers_union s s1) as (ks & Hks & Hks1).
    rewrite (claims_cover s1 Hok1 (universe s1) ks) by (done || apply universe_covers).
    rewrite (claims_cover s Hok (universe s) ks) in Hw by (done || apply universe_covers).
    destruct (decide (q = parent)) as [->|Hne].
    2: { rewrite (claims_same s s1); try done. intros c. unfold share_of. rewrite Hs1. by rewrite lookup_insert_ne by congruence. }
    rewrite Hp in Hq. injection Hq as <-.
    destruct (reservable f) eqn:Er; [|unfold claims in *; by rewrite Er in *].
    set (R := zval (default (NInt 0) (bget b f))).
    assert (HR : (R <= Z.max 0 (L - (uval (resource_usage prow) f + claims s ks parent f)))%Z).
    { unfold R. destruct (bget b f) as [n|] eqn:Eb; [|cbn; lia]. destruct (Hb f n Hf Eb) as [z ->].
      rewrite (claims_cover s Hok ks (universe s)) by (done || apply universe_covers). by apply (Hleft f z Hf Er Eb (NInt L)). }
    assert (HR0 : (0 <= R)%Z).
    { pose proof (share_nonneg s1 Hok1 parent child f Hf) as Hnn. rewrite Hsh, decide_True, Er in Hnn by done. exact Hnn. }
    enough (claims s1 ks parent f <= claims s ks parent f + R)%Z by lia.
    unfold claims. rewrite Er, (own_same s s1) by done.
    pose proof (zsum_one ks child R (proj1 Hks) HR0) as Hone. set (extra := fun c => (if decide (c = child) then R else 0)%Z) in *.
    set (before := fun c => Z.max (share_of s parent c f) (under_of s parent c f)).
    pose proof (zsum_plus before extra ks) as Hsplit.
    enough (zsum (fun c => Z.max (share_of s1 parent c f) (under_of s1 parent c f)) ks
      <= zsum (fun c => before c + extra c) ks)%Z by lia.
    unfold before. apply zsum_le. intros c _. rewrite (under_same s s1), Hsh by done. unfold extra.
    pose proof (share_nonneg s Hok parent c f Hf). pose proof (under_nonneg' s Hok parent c f Hf).
    destruct (decide (c = child)) as [->|Hc]; [rewrite decide_True, Er by done; fold R; lia|].
    rewrite decide_False by congruence. lia.
Qed.

(** *** Checks write evidence only *)

Definition same_tables (s s' : RStore) : Prop :=
  base s' = base s ∧ reservations s' = reservations s ∧ usage_reservations s' = usage_reservations s.

#[export] Instance same_tables_refl : Reflexive same_tables.
Proof. by intros s. Qed.
#[export] Instance same_tables_trans : Transitive same_tables.
Proof. intros a b c (?&?&?) (?&?&?). split_and!; congruence. Qed.

Definition checks {A} (m : M RStore A) : Prop := ∀ s s' r, m s = (s', r) → same_tables s s'.

Lemma checks_bind {A B} (m : M RStore A) (k : A → M RStore B) : checks m → (∀ a, checks (k a)) → checks (m ≫= k).
Proof.
  intros Hm Hk s s' r E. unfold mbind, M_bind in E. destruct (m s) as [s1 [a|e]] eqn:E1.
  - etrans; [by eapply Hm|by eapply Hk].
  - injection E as <- _. by eapply Hm.
Qed.

Lemma checks_pure {A} (f : RStore → res A) : checks (fun s => (s, f s)).
Proof. by intros s s' r [= <- _]. Qed.

Lemma checks_lift {A} (x : res A) : checks (lift_res x).
Proof. apply (checks_pure (fun _ => x)). Qed.

Lemma checks_record e : checks (record e).
Proof. by intros s s' r [= <- _]. Qed.

Lemma checks_preflight ps hl actor d below l : checks (preflight_chain ps hl actor d below l).
Proof.
  revert below. induction l as [|row l IH]; intros below; cbn [preflight_chain]; [apply (checks_pure (fun _ => Ok tt))|].
  apply checks_bind; [apply checks_lift|intros c]. apply checks_bind; [apply (checks_pure (A := option Exceeded))|intros [e|]].
  - apply checks_bind; [apply checks_record|intros _]. apply (checks_pure (fun _ => Err _)).
  - apply IH.
Qed.

Lemma checks_preflight_locked ps hl p d : checks (_preflight_locked ps hl p d).
Proof. apply checks_bind; [apply (checks_pure (A := list AgentProcess))|intros l]. apply checks_preflight. Qed.

Lemma checks_validate_child ps hl parent b d : checks (validate_child_budget ps hl parent b d).
Proof.
  apply checks_bind; [apply checks_lift|intros _].
  apply checks_bind; [destruct (_is_zero d); [apply (checks_pure (fun _ => Ok tt))|apply checks_preflight_locked]|intros _].
  apply checks_bind; [apply (checks_pure (A := num))|intros w].
  apply checks_bind; [apply checks_lift|intros _]. apply (checks_pure (A := unit)).
Qed.

Lemma ledger_same_tables s s' : same_tables s s' → ledger_inv s → ledger_inv s'.
Proof. intros (Hb & Hr & Hu) Hl. apply (ledger_ext s); rewrite ?Hb; try done. apply Hl. Qed.

Lemma usage_ok_one_child : usage_ok one_child.
Proof. by vm_compute. Qed.

(** [reserve_child_budget] keeps the ledger in order, whatever its outcome. *)
Lemma reserve_child_ledger ps hl now parent child b s s' r :
  0 < ps ≤ hl → ledger_inv s → budget_ok b → child_of s parent child b →
  reserve_child_budget ps hl now parent child b s = (s', r) → ledger_inv s'.
Proof.
  intros Hpage Hl Hb Hchild E. unfold reserve_child_budget in E. unfold mbind at 1, M_bind at 1 in E.
  destruct (validate_child_budget ps hl parent b one_child s) as [s1 [x|e]] eqn:Ev;
    pose proof (checks_validate_child _ _ _ _ _ _ _ _ Ev) as Hsame; pose proof (ledger_same_tables _ _ Hsame Hl) as Hl1.
  2: by injection E as <- _.
  destruct (validate_child_run ps hl s parent b one_child s1 x (li_tables _ Hl) eq_refl Ev) as (_ & (prow & Hp) & Hs1 & Hval).
  rewrite lift_bind in E. destruct (_reservation_from_budget b) as [m|] eqn:Em; [|by injection E as <- _].
  case_bool_decide; [by injection E as <- _|]. rewrite lift_bind in E.
  set (row := {| res_parent_pid := parent |}) in *.
  destruct (reservation_validate row) as [[]|] eqn:Hv; [|by injection E as <- _].
  destruct Hs1 as (Hb1 & Hr1 & Hu1).
  assert (Hp1 : processes (base s1) !! parent = Some prow) by (by rewrite Hb1).
  assert (Hchild1 : child_of s1 parent child b) by (unfold child_of; by rewrite Hb1).
  assert (Hleft : ∀ f R, counted f → reservable f = true → bget b f = Some (NInt R) →
    ∀ n, bget (resource_budget prow) f = Some n →
      (R <= Z.max 0 (zval n - (uval (resource_usage prow) f + claims s1 (universe s1) parent f)))%Z).
  { intros f R Hf Hr HR n Hn. by eapply (validated_field ps hl Hpage s1 parent prow b one_child f R (li_tables _ Hl1) usage_ok_one_child). }
  pose proof (upsert_ledger s1 parent child b m now prow Hl1 Hb Em Hv Hchild1 Hp1 Hleft _ (Ok tt) eq_refl) as Hup.
  refine (ledger_same_tables _ s' _ Hup).
  unfold upsert_resource_reservation, modify, mbind, M_bind, record in E. injection E as <- _. done.
Qed.

(** ** Giving shares up *)

Lemma release_ledger p s s' r :
  ledger_inv s → release_process_reservations p s = (s', r) → ledger_inv s'.
Proof.
  intros Hl E. unfold release_process_reservations in E. rewrite !reading_bind in E.
  destruct (list_resource_reservations (of_child p) s) as [l1|]; [|by injection E as <- _].
  rewrite reading_bind in E.
  destruct (list_resource_reservations (of_parent p) s) as [l2|]; [|by injection E as <- _].
  unfold mbind at 1, M_bind at 1, delete_resource_reservations_for_process, modify in E.
  set (s1 := set_reservations _ s) in E.
  assert (Hl1 : ledger_inv s1); [|destruct (l1 ++ l2); [by injection E as <- _|by eapply ledger_record]].
  clear E l1 l2. destruct Hl as [Hok Hsync Hw].
  assert (Hrows : ∀ k r', reservations s1 !! k = Some r' → reservations s !! k = Some r').
  { intros k r' Hk. cbn in Hk. by apply map_lookup_filter_Some in Hk as [? _]. }
  assert (Hsh : ∀ a c f, share_of s1 a c f = share_of s a c f ∨ share_of s1 a c f = 0%Z).
  { intros a c f. unfold share_of. destruct (reservations s1 !! (a, c)) as [r'|] eqn:E; [|by right].
    rewrite (Hrows _ _ E). by left. }
  assert (Hok1 : tables_ok s1).
  { destruct Hok as [T1 T2 T3 T4 T5]. split; try done. intros k r' Hk. by apply T4, Hrows. }
  split; [done| |].
  - intros a c f crow Hf Hr Hpos Hc. destruct (Hsh a c f) as [Eq|Eq]; rewrite Eq in *; [by apply Hsync|lia].
  - intros q qrow f L Hf Hq HL. specialize (Hw q qrow f L Hf Hq HL).
    rewrite (claims_cover s1 Hok1 (universe s1) (universe s)); [|done|apply universe_covers|].
    2: { apply (covers_mono s s1); [done| |apply universe_covers]. intros k [r' Hk]. eauto. }
    enough (claims s1 (universe s) q f <= claims s (universe s) q f)%Z by lia.
    unfold claims. destruct (reservable f); [|done]. rewrite (own_same s s1) by done.
    apply Zplus_le_compat_l, zsum_le. intros c _. rewrite (under_same s s1) by done.
    pose proof (share_nonneg s Hok q c f Hf). destruct (Hsh q c f) as [Eq|Eq]; rewrite Eq; lia.
Qed.

(** ** A process is launched *)

Lemma budget_validated b f n :
  budget_validate b = Ok tt → counted f → bget b f = Some n → ∃ z, n = NInt z ∧ (0 <= z)%Z.
Proof.
  intros Hb Hf Hn.
  assert (Hv : _validate_resource_number (budget_field_name f) (py_opt_num (bget b f)) true true = Ok tt).
  { unfold budget_validate in Hb. cbv zeta in Hb.
    apply bind_Ok in Hb as ([] & H1 & Hb). apply bind_Ok in Hb as ([] & _ & H2).
    rewrite foldR_unit_Ok in H1, H2. unfold counted in Hf.
    setoid_rewrite list_elem_of_In in H1. setoid_rewrite list_elem_of_In in H2.
    destruct f; first [done | refine (H1 _ _); cbn; tauto | refine (H2 _ _); cbn; tauto]. }
  rewrite Hn in Hv. cbn [py_opt_num] in Hv. pose proof (validate_number_nonneg _ _ _ _ Hv) as Hnn.
  destruct n as [z|x]; [by exists z|]. cbn [py_num _validate_resource_number] in Hv. res_simpl.
Qed.

Lemma budget_validated_ok b : budget_validate b = Ok tt → budget_ok b.
Proof. intros Hb f n Hf Hn. destruct (budget_validated b f n Hb Hf Hn) as (z & -> & _). eauto. Qed.

(** What the caller of [insert_process] has arranged: a fresh pid, an existing
    parent, no usage yet, and the budget its share was taken from. *)
Record launchable (s : RStore) (row : AgentProcess) : Prop := {
  la_insertable : insertable row;
  la_parent : ∀ q, parent_pid row = Some q → is_Some (processes (base s) !! q);
  la_usage : resource_usage row = usage_zero;
  la_budget : budget_validate (resource_budget row) = Ok tt;
  la_envelopes : ∀ id r, usage_reservations s !! id = Some r → ur_pid r ≠ pid row;
  la_shares : ∀ c, reservations s !! (pid row, c) = None;
  la_share : ∀ a f, counted f → (0 < share_of s a (pid row) f)%Z →
    parent_pid row = Some a ∧ bget (resource_budget row) f = Some (NInt (share_of s a (pid row) f));
}.

Section Launch.
Variables (s s' : RStore) (row : AgentProcess).
Hypothesis Hok : tables_ok s.
Hypothesis Hla : launchable s row.
Hypothesis Hfresh : processes (base s) !! pid row = None.
Hypothesis Hprocs : processes (base s') = <[pid row := row]> (processes (base s)).
Hypothesis Hinv : store_inv (base s').
Hypothesis Hres : reservations s' = reservations s.
Hypothesis Hur : usage_reservations s' = usage_reservations s.

Lemma launch_old q : q ≠ pid row → processes (base s') !! q = processes (base s) !! q.
Proof. intros Hq. by rewrite Hprocs, lookup_insert_ne. Qed.

Lemma launch_forest : forest (processes (base s')).
Proof.
  destruct (tb_forest _ Hok) as [rank Hrank].
  pose (top := S (match parent_pid row with Some q => rank q | None => 0 end)).
  exists (fun q => if decide (q = pid row) then top else rank q). intros q qrow a Hq Ha.
  destruct (decide (q = pid row)) as [->|Hne].
  - rewrite Hprocs, lookup_insert_eq in Hq. injection Hq as <-.
    destruct (la_parent _ _ Hla a Ha) as [arow Har]. assert (a ≠ pid row) by congruence.
    rewrite launch_old by done. split; [eauto|]. rewrite decide_False by done. unfold top. rewrite Ha. lia.
  - rewrite launch_old in Hq by done. destruct (Hrank q qrow a Hq Ha) as [[arow Har] Hlt].
    assert (a ≠ pid row) by congruence. rewrite launch_old by done. split; [eauto|]. by rewrite decide_False.
Qed.

Lemma launch_tables : tables_ok s'.
Proof.
  destruct Hok as [T1 T2 T3 T4 T5]. split; [done|apply launch_forest| |by rewrite Hres|by rewrite Hur].
  intros q qrow Hq. destruct (decide (q = pid row)) as [->|Hne]; [|rewrite launch_old in Hq by done; by eapply T3].
  rewrite Hprocs, lookup_insert_eq in Hq. injection Hq as <-.
  split; [rewrite (la_usage _ _ Hla); by vm_compute|apply budget_validated_ok, Hla].
Qed.

Lemma launch_chain p l : chain_at (processes (base s)) p l → chain_at (processes (base s')) p l.
Proof.
  induction 1 as [p r Hp Hr|p r q rest Hp Hr _ IH].
  - apply chain_root; [|done]. rewrite launch_old; [done|]. by intros ->; rewrite Hfresh in Hp.
  - eapply chain_up; [|done|done]. rewrite launch_old; [done|]. by intros ->; rewrite Hfresh in Hp.
Qed.

Lemma launch_place owner p : p ≠ pid row → place_at s' owner p = place_at s owner p.
Proof.
  intros Hp. unfold place_at. destruct (processes (base s) !! p) as [prow|] eqn:E.
  - destruct (chain_exists s (tb_forest _ Hok) p prow E) as [l Hl].
    rewrite (process_chain_run s (tb_store _ Hok) (tb_forest _ Hok) p l Hl).
    by rewrite (process_chain_run s' Hinv launch_forest p l (launch_chain p l Hl)).
  - rewrite (process_chain_missing s (tb_store _ Hok)) by done.
    rewrite (process_chain_missing s' Hinv); [done|]. by rewrite launch_old.
Qed.

Lemma launch_fresh_place p : p ≠ pid row → place_at s' (pid row) p = Elsewhere.
Proof.
  intros Hp. rewrite launch_place by done. unfold place_at. destruct (processes (base s) !! p) as [prow|] eqn:E.
  - destruct (chain_exists s (tb_forest _ Hok) p prow E) as [l Hl].
    rewrite (process_chain_run s (tb_store _ Hok) (tb_forest _ Hok) p l Hl).
    assert (Hgen : ∀ b, place_in (pid row) b l = Elsewhere); [|apply Hgen].
    assert (Hrows : ∀ r, r ∈ l → pid r ≠ pid row).
    { intros r Hr Eq. pose proof (chain_rows s (tb_store _ Hok) p l r Hl Hr) as Hr'. congruence. }
    clear -Hrows. induction l as [|r l IH]; intros b; [done|]. cbn.
    rewrite (proj2 (String.eqb_neq _ _) (Hrows r ltac:(left))). apply IH. intros r' Hr'. apply Hrows. by right.
  - rewrite (process_chain_missing s (tb_store _ Hok)) by done.
    apply String.eqb_neq in Hp. by rewrite Hp.
Qed.

Lemma launch_envelope r : r ∈ active_rows s' → ur_pid r ≠ pid row.
Proof.
  intros Hr. unfold active_rows in Hr. rewrite Hur in Hr. fold (active_rows s) in Hr.
  apply (elem_of_active s (tb_usage _ Hok)) in Hr as [Hr _]. by apply (la_envelopes _ _ Hla) in Hr.
Qed.

Lemma launch_actives : active_rows s' = active_rows s.
Proof. unfold active_rows. by rewrite Hur. Qed.

Lemma launch_own a f : own_of s' a f = own_of s a f.
Proof.
  unfold own_of. rewrite <-launch_actives. apply zsum_ext. intros r Hr. unfold is_own.
  by rewrite launch_place by by apply launch_envelope.
Qed.

Lemma launch_under a c f : under_of s' a c f = under_of s a c f.
Proof.
  unfold under_of. rewrite <-launch_actives. apply zsum_ext. intros r Hr. unfold is_under.
  by rewrite launch_place by by apply launch_envelope.
Qed.

Lemma launch_share a c f : share_of s' a c f = share_of s a c f.
Proof. unfold share_of. by rewrite Hres. Qed.

Lemma launch_synced : synced s → synced s'.
Proof.
  intros Hsync a c f crow Hf Hr Hpos Hc. rewrite launch_share in *. destruct (decide (c = pid row)) as [->|Hne].
  - rewrite Hprocs, lookup_insert_eq in Hc. injection Hc as <-. destruct (la_share _ _ Hla a f Hf Hpos) as [Hp Hb].
    split; [done|]. eexists. split; [exact Hb|]. rewrite (la_usage _ _ Hla).
    pose proof (uval_nonneg usage_zero f ltac:(by vm_compute) Hf). lia.
  - rewrite launch_old in Hc by done. by apply (Hsync a c f crow).
Qed.

Lemma launch_within : within s → within s'.
Proof.
  intros Hw q qrow f L Hf Hq HL.
  destruct (covers_union s s') as (ks & Hks & Hks').
  rewrite (claims_cover s' launch_tables (universe s') ks) by (done || apply universe_covers).
  assert (Heq : claims s' ks q f = claims s ks q f).
  { unfold claims. destruct (reservable f); [|done]. rewrite launch_own. f_equal. apply zsum_ext. intros c _.
    by rewrite launch_share, launch_under. }
  destruct (decide (q = pid row)) as [->|Hne].
  - rewrite Hprocs, lookup_insert_eq in Hq. injection Hq as <-.
    destruct (budget_validated _ f (NInt L) (la_budget _ _ Hla) Hf HL) as (z & [= ->] & Hz).
    assert (Hclaims : claims s' ks (pid row) f = 0%Z).
    { unfold claims. destruct (reservable f); [|done].
      assert (own_of s' (pid row) f = 0%Z) as ->.
      { apply zsum_zero. intros r Hr. unfold is_own. by rewrite launch_fresh_place by by apply launch_envelope. }
      apply zsum_zero. intros c _. rewrite launch_share. unfold share_of. rewrite (la_shares _ _ Hla).
      assert (under_of s' (pid row) c f = 0%Z) as ->; [|done].
      apply zsum_zero. intros r Hr. unfold is_under. by rewrite launch_fresh_place by by apply launch_envelope. }
    rewrite Hclaims, (la_usage _ _ Hla). assert (uval usage_zero f = 0%Z) as -> by (by destruct f). lia.
  - rewrite launch_old in Hq by done. rewrite Heq, <-(claims_cover s Hok (universe s) ks) by (done || apply universe_covers).
    by apply Hw.
Qed.
End Launch.

Lemma launch_ledger now row s s' r :
  ledger_inv s → launchable s row → on_base (insert_process now row) s = (s', r) → ledger_inv s'.
Proof.
  intros Hl Hla E. apply on_base_run in E as [E Es].
  pose proof (le_inv _ _ (insert_preserves (fun x => x) now row (la_insertable _ _ Hla) _ _ _ (tb_store _ (li_tables _ Hl)) E)
                (tb_store _ (li_tables _ Hl))) as Hinv.
  destruct r as [u|e].
  2: { unfold insert_process in E. apply sql_transaction_Err in E as [t Et]. rewrite Es, Et. by apply ledger_takeover. }
  apply insert_Ok in E as (Hn & _ & Eb). destruct Hl as [Hok Hsync Hw].
  assert (Hprocs : processes (base s') = <[pid row := row]> (processes (base s))) by (by rewrite Eb).
  split; [by apply (launch_tables s s' row); try rewrite Es|by apply (launch_synced s s' row); try rewrite Es|].
  by apply (launch_within s s' row); try rewrite Es.
Qed.
