(* ===== verification/ResourceSafety.v ===== *)
(** * The ledger over histories

    Every operation of the resource manager that a process can drive, whose
    charges run their preflight or fit, and the recovery of envelopes keep the
    ledger in order, whatever the outcome, and a settlement within its envelope
    is never refused. *)

From S2P Require Import Prelude FiniteSums PyStr PyVal ProcessState ProcessModel ProcessStore ProcessWrites ProcessInvariant ProcessProperties ResourceTables ResourceManager ReservationPages ResourceViews ResourceLedger ResourceErrors ResourceCharges ResourceInvariant ResourceEnvelopes ResourceShares.
From stdpp Require Import sorting.

(** ** The active rows after a write *)

Lemma active_rows_perm s :
  active_rows s ≡ₚ List.filter is_active (map snd (map_to_list (usage_reservations s))).
Proof. apply merge_sort_Permutation. Qed.

Lemma filter_permutation {A} (f : A → bool) (l k : list A) : l ≡ₚ k → List.filter f l ≡ₚ List.filter f k.
Proof. induction 1; cbn; repeat case_match; try done; [by constructor|by constructor|by etrans]. Qed.

Lemma active_insert s m id r :
  m !! id = None → is_active r = true → usage_reservations s = <[id := r]> m →
  ∀ s2, usage_reservations s2 = m → active_rows s ≡ₚ r :: active_rows s2.
Proof.
  intros Hm Hr Hs s2 Hs2. rewrite !active_rows_perm, Hs, Hs2.
  assert (Hl : map snd (map_to_list (<[id := r]> m)) ≡ₚ r :: map snd (map_to_list m))
    by (by rewrite (map_to_list_insert m id r Hm)).
  rewrite (filter_permutation _ _ _ Hl). cbn [List.filter]. by rewrite Hr.
Qed.

Lemma inactive_insert s m id r :
  m !! id = None → is_active r = false → usage_reservations s = <[id := r]> m →
  ∀ s2, usage_reservations s2 = m → active_rows s ≡ₚ active_rows s2.
Proof.
  intros Hm Hr Hs s2 Hs2. rewrite !active_rows_perm, Hs, Hs2.
  assert (Hl : map snd (map_to_list (<[id := r]> m)) ≡ₚ r :: map snd (map_to_list m))
    by (by rewrite (map_to_list_insert m id r Hm)).
  rewrite (filter_permutation _ _ _ Hl). cbn [List.filter]. by rewrite Hr.
Qed.

(** Settling the active row [id] removes it from the active ones. *)
Lemma active_settled s id r r' :
  usage_reservations s !! id = Some r → is_active r = true → is_active r' = false →
  active_rows s ≡ₚ r :: active_rows (set_usage_reservations <[id := r']> s).
Proof.
  intros Hr Ha Ha'. set (m := delete id (usage_reservations s)).
  assert (Hm : m !! id = None) by apply lookup_delete_eq.
  rewrite (active_insert s m id r Hm Ha (eq_sym (insert_delete_id _ _ _ Hr))
             (mkRStore (base s) (reservations s) m (effect_states s) (evidence s))) by done.
  apply Permutation_skip. symmetry. apply (inactive_insert _ m id r' Hm Ha'); [|done].
  cbn. unfold m. by rewrite insert_delete_eq.
Qed.

Lemma tables_usage_row s id r :
  tables_ok s → usage_row_ok id r → tables_ok (set_usage_reservations <[id := r]> s).
Proof.
  intros [T1 T2 T3 T4 T5] Hr. split; try done. intros id' r'. cbn. destruct (decide (id = id')) as [<-|Hne].
  - rewrite lookup_insert_eq. by intros [= <-].
  - rewrite lookup_insert_ne by done. apply T5.
Qed.

Section Operations.
Variables page_size hard_limit : nat.
Hypothesis Hpage : 0 < page_size ≤ hard_limit.
Context `{ExecEvidence}.
Variable json_dumps : list (string * json) → string.
Variable new_nonce : string → string.

(** ** The preflight, decided *)

Lemma preflight_decides s ks d actor l below s' r :
  tables_ok s → covers ks s → usage_ok d → discrete d →
  (∀ row, row ∈ l → processes (base s) !! pid row = Some row ∧ is_Ok (_merge_usage (resource_usage row) d) = true) →
  preflight_chain page_size hard_limit actor d below l s = (s', r) →
  (r = Ok tt ∧ s' = s ∧ along (fits s ks d) below l)
  ∨ ∃ e, r = Err (ResourceLimitExceeded (_limit_message e)) ∧ same_tables s s' ∧ ¬ along (fits s ks d) below l.
Proof.
  intros Hok Hks Hu Hd. revert below. induction l as [|row l IH]; intros below Hl E; cbn [preflight_chain along] in *.
  { injection E as <- <-. by left. }
  destruct (Hl row ltac:(left)) as [Hrow Hm]. rewrite lift_bind in E.
  destruct (_merge_usage (resource_usage row) d) as [candidate|] eqn:Em; [|done].
  destruct (preflight_check page_size hard_limit Hpage s ks d Hok Hks Hu Hd below row candidate Hrow Em) as (ex & He & Hiff).
  rewrite reading_bind, He in E. destruct ex as [ex|].
  - injection E as <- <-. right. exists ex. split_and!; [done|done|]. intros [Hf _]. apply Hiff in Hf. done.
  - pose proof (proj1 Hiff eq_refl) as Hf. destruct (IH (Some (pid row)) (fun r Hr => Hl r ltac:(by right)) E)
      as [(-> & -> & Hfs)|(e & -> & Hs & Hno)]; [by left|right].
    exists e. split_and!; [done|apply Hs..|]. by intros [_ ?].
Qed.

(** The preflight refuses exactly what does not fit.  When the sums do not
    overflow, [preflight] returns, changing nothing, if every ancestor's limit
    has room for the usage beside what the ancestor has committed; otherwise
    it raises the limit error of the first exceeded field, and only an audit
    record is written. *)
Theorem preflight_exact s p req d l s' r :
  tables_ok s → _coerce_usage req = Ok d → discrete d → _is_zero d = false →
  chain_at (processes (base s)) p l →
  (∀ row, row ∈ l → is_Ok (_merge_usage (resource_usage row) d) = true) →
  preflight page_size hard_limit p req s = (s', r) →
  (along (fits s (universe s) d) None l → r = Ok tt ∧ s' = s)
  ∧ (¬ along (fits s (universe s) d) None l →
       ∃ e, r = Err (ResourceLimitExceeded (_limit_message e)) ∧ same_tables s s').
Proof.
  intros Hok Hreq Hd Hz Hl Hm E. unfold preflight in E. rewrite lift_bind, Hreq, Hz in E.
  unfold _preflight_locked in E. rewrite reading_bind in E.
  rewrite (process_chain_run s (tb_store _ Hok) (tb_forest _ Hok) p l Hl) in E.
  apply (preflight_decides s (universe s) d) in E; [|done|apply universe_covers|by eapply coerced_ok|done|].
  2: { intros row Hin. split; [by apply (chain_rows_at s p l)|by apply Hm]. }
  destruct E as [(-> & -> & Hf)|(e & -> & Hs & Hno)]; (split; intros; [|eauto]); done.
Qed.

(** ** Reserving an envelope *)

Definition envelope_row (id p : string) (d : ResourceUsage) (by_ reason now : string) : ResourceUsageReservation :=
  {| reservation_id := id; ur_pid := p; ur_usage := d; ur_status := UR_ACTIVE; reserved_by := by_;
     ur_reason := reason; settled_usage := None; ur_created_at := now; ur_updated_at := now |}.

Definition reserver (source reserved_by : string) : string :=
  if String.eqb reserved_by "" then source else reserved_by.

Lemma envelope_row_ok id p d by_ reason now :
  usage_ok d → usage_reservation_validate (envelope_row id p d by_ reason now) = Ok tt →
  usage_row_ok id (envelope_row id p d by_ reason now).
Proof.
  intros Hd Hv. split; [done|]. unfold decode_usage_reservation. cbn [envelope_row ur_usage settled_usage].
  rewrite Hd, !res_bind_ok. fold (envelope_row id p d by_ reason now). by rewrite Hv.
Qed.

Lemma reserve_usage_ledger now p req d source id by_ s s' r :
  ledger_inv s → _coerce_usage req = Ok d → discrete d →
  usage_reservation_validate (envelope_row id p d (reserver source by_) source now) = Ok tt →
  reserve_usage page_size hard_limit now p req source id by_ s = (s', r) → ledger_inv s'.
Proof.
  intros Hl Hreq Hd Hrow E. pose proof (coerced_ok req d Hreq) as Hu. unfold reserve_usage in E.
  rewrite lift_bind, Hreq in E. destruct (_is_zero d); [by injection E as <- _|].
  destruct r as [x|e]; [|apply unit_of_work_Err in E as (t & s1 & _ & ->); by apply ledger_takeover].
  rewrite unit_of_work_Ok in E. apply M_bind_Ok in E as ([] & s1 & Hp & E). destruct Hl as [Hok Hsync Hw].
  destruct (preflight_locked_fits page_size hard_limit Hpage s (universe s) d p s1 tt Hok (universe_covers s) Hu Hd Hp)
    as [-> (l & Hchain & Hfit)].
  apply M_bind_Ok in E as ([] & s1 & Hi & E). injection E as <- <-. unfold insert_resource_usage_reservation in Hi.
  destruct (usage_reservations s !! id) eqn:Eid; [done|]. injection Hi as <-.
  fold (reserver source by_). fold (envelope_row id p d (reserver source by_) source now).
  set (row := envelope_row id p d (reserver source by_) source now).
  assert (Hok1 : tables_ok (set_usage_reservations <[id := row]> s)).
  { apply tables_usage_row; [done|]. by apply envelope_row_ok. }
  assert (Hact : active_rows (set_usage_reservations <[id := row]> s) ≡ₚ row :: active_rows s)
    by (by apply (active_insert _ (usage_reservations s) id)).
  split; [done| |].
  - by apply (envelope_synced (set_usage_reservations <[id := row]> s) s).
  - apply (envelope_within_more (set_usage_reservations <[id := row]> s) s row) with (ks := universe s) (l := l);
      try done; [apply universe_covers|].
    apply along_and; [done|]. by apply (chain_absorbed s (universe s) d Hok (universe_covers s) Hu p l).
Qed.

(** ** Settling an envelope *)

(** The usage a settlement charges is discrete, and on reservable fields. *)
Definition settles_plainly (s : RStore) (id : string) (m : Settlement) : Prop := ∀ row d,
  usage_reservations s !! id = Some row → is_active row = true → settlement_usage m row = Ok d →
  discrete d ∧ ∀ f, relevant (_nonzero_fields d) f = true → reservable f = true.

Lemma usage_fields_le a e f :
  usage_ok a → usage_ok e → counted f → (∀ g, num_gtb (uget a g) (uget e g) = false) → (uval a f <= uval e f)%Z.
Proof.
  intros Ha He Hf Hle. apply zsum_le. intros g Hg. pose proof (counted_fields f g Hf Hg) as Hc.
  destruct (usage_ok_int a g Ha Hc) as (x & Ex & _), (usage_ok_int e g He Hc) as (y & Ey & _).
  specialize (Hle g). rewrite Ex, Ey in *. rewrite num_gtb_int in Hle. cbn. by apply Z.ltb_ge.
Qed.

Lemma maximum_field row g :
  uget (_maximum_charge_usage row) g = uget (ur_usage row) g ∨ uget (_maximum_charge_usage row) g = usage_default g.
Proof.
  unfold _maximum_charge_usage. destruct (_ && _); [|by left]. cbn [uget]. destruct g; auto.
Qed.

Lemma maximum_usage_ok row : usage_ok (ur_usage row) → usage_ok (_maximum_charge_usage row).
Proof.
  unfold usage_ok, usage_validate. rewrite !foldR_unit_Ok. intros Hu g Hg. specialize (Hu g Hg).
  destruct (maximum_field row g) as [-> | ->]; [done|]. by destruct g.
Qed.

(** A settlement charges valid usage within the envelope. *)
Lemma settlement_usage_le m row d :
  usage_ok (ur_usage row) → settlement_usage m row = Ok d →
  usage_ok d ∧ ∀ f, counted f → (uval d f <= uval (ur_usage row) f)%Z.
Proof.
  intros Hu E. destruct m as [req| |]; cbn [settlement_usage] in E.
  - apply bind_Ok in E as (x & Hreq & E). apply bind_Ok in E as ([] & Hle & [= ->]).
    pose proof (coerced_ok req d Hreq) as Hd. split; [done|]. intros f Hf.
    unfold _assert_usage_within_reservation in Hle. apply raise_if_Ok in Hle. apply usage_fields_le; try done.
    intros g. destruct (num_gtb (uget d g) (uget (ur_usage row) g)) eqn:Eg; [|done].
    assert (existsb (fun f => num_gtb (uget d f) (uget (ur_usage row) f)) usage_fields = true) as Hex; [|congruence].
    apply existsb_exists. exists g. split; [apply list_elem_of_In, usage_fields_complete|done].
  - injection E as <-. pose proof (maximum_usage_ok row Hu) as Hd. split; [done|]. intros f Hf.
    apply zsum_le. intros g Hg. pose proof (counted_fields f g Hf Hg) as Hc.
    destruct (usage_ok_int (ur_usage row) g Hu Hc) as (y & Ey & Hy).
    destruct (maximum_field row g) as [-> | ->]; [done|]. rewrite Ey. unfold usage_default. by rewrite Hc.
  - injection E as <-. split; [by vm_compute|]. intros f Hf.
    pose proof (uval_nonneg _ f Hu Hf). by destruct f.
Qed.

Definition settled_row (row : ResourceUsageReservation) (m : Settlement) (d : ResourceUsage) (now : string)
    : ResourceUsageReservation :=
  {| reservation_id := reservation_id row; ur_pid := ur_pid row; ur_usage := ur_usage row;
     ur_status := settlement_status m; reserved_by := reserved_by row; ur_reason := ur_reason row;
     settled_usage := Some d; ur_created_at := ur_created_at row; ur_updated_at := now |}.

Lemma settled_row_ok id row m d now :
  usage_row_ok id row → usage_ok d → strip now ≠ "" → usage_row_ok id (settled_row row m d now).
Proof.
  intros [Hid Hdec] Hd Hnow. split; [done|]. apply decode_ok in Hdec as (Hu & _ & _ & Hv).
  unfold decode_usage_reservation. cbn [settled_row ur_usage settled_usage]. rewrite Hu, res_bind_ok, Hd, res_bind_ok.
  fold (settled_row row m d now).
  assert (Hval : usage_reservation_validate (settled_row row m d now) = Ok tt); [|by rewrite Hval].
  unfold usage_reservation_validate in *. cbn [foldR] in *.
  cbn [settled_row reservation_id ur_pid reserved_by ur_reason ur_created_at ur_updated_at fst snd] in *.
  repeat (apply bind_Ok in Hv as ([] & Hx & Hv); apply raise_if_Ok in Hx; rewrite Hx; clear Hx; cbn [raise_if]; rewrite res_bind_ok).
  apply String.eqb_neq in Hnow. by rewrite Hnow.
Qed.

(** The completion fence, whatever it checks, is not about limits. *)
Hypothesis post_exec_quiet : ∀ s amb pm process current rev,
  quiet (post_exec_completion_check s amb pm process current rev).

(** Usage that fits along the chain is never refused for a limit. *)
Lemma charge_durably_quiet amb now p d source s s' e :
  tables_ok s → usage_ok d → discrete d →
  (∀ l, chain_at (processes (base s)) p l → along (fits s (universe s) d) None l) →
  charge_durably page_size hard_limit amb now p d source false true s = (s', Err e) → is_limit_error e = false.
Proof.
  intros Hok Hu Hd Hfit E. apply unit_of_work_Err in E as (t & s1 & E & _). rewrite reading_bind in E.
  destruct (_process_chain p s) as [l|e1] eqn:El; [|injection E as _ <-; by eapply quiet_chain].
  pose proof (chain_run_Ok s p l Hok El) as Hl.
  unfold mbind at 1, M_bind at 1 in E.
  destruct (_preflight_locked page_size hard_limit p d s) as [s2 [[]|e2]] eqn:Ep.
  - revert E. apply (quietM_bind _ (fun exceeded => _ ← record (Event "RESOURCE_CHARGED" source p);
        _ ← record (Audit p "resource.charge" ("process:" +:+ p)); mret exceeded)).
    + by apply quiet_charge_chain.
    + intros x. unfold record. be_quietM.
  - injection E as _ <-. unfold _preflight_locked in Ep. rewrite reading_bind, El in Ep.
    apply (preflight_passes page_size hard_limit Hpage s (universe s) d Hok (universe_covers s) Hu Hd) in Ep as [_ Hq];
      [by apply Hq|intros row; by apply (chain_rows_at s p)|by apply Hfit].
Qed.

(** No envelope became active. *)
Definition fewer_active (s s' : RStore) : Prop := ∀ id row,
  usage_reservations s' !! id = Some row → is_active row = true → usage_reservations s !! id = Some row.

Lemma fewer_settled s s' id row m d now :
  usage_reservations s' = <[id := settled_row row m d now]> (usage_reservations s) → fewer_active s s'.
Proof.
  intros E id' row'. rewrite E. destruct (decide (id = id')) as [<-|Hne]; [|by rewrite lookup_insert_ne].
  rewrite lookup_insert_eq. intros [= <-]. by destruct m.
Qed.

Lemma settle_body_ledger amb now id m source recovery s s' r :
  ledger_inv s → strip now ≠ "" → settles_plainly s id m →
  settle_body page_size hard_limit json_dumps amb now new_nonce id m source recovery s = (s', r) →
  match r with
  | Ok (d, fs) => (ledger_inv s' ∧ fewer_active s s') ∧ fs = []
  | Err e => recovery = false → is_limit_error e = true →
      ∃ row, usage_reservations s !! id = Some row ∧ settlement_usage m row = Err e
  end.
Proof.
  intros [Hok Hsync Hw] Hnow Hplain E. unfold settle_body in E. rewrite reading_bind in E.
  unfold get_resource_usage_reservation in E.
  destruct (usage_reservations s !! id) as [row|] eqn:Hrow; [|by injection E as _ <-].
  pose proof (tb_usage _ Hok id row Hrow) as Hrok. destruct (Hrok) as [_ Hdec].
  rewrite Hdec, res_bind_ok in E. pose proof (decode_ok row Hdec) as (Hru & _).
  destruct (is_active row) eqn:Ha; cbn [negb] in E; [|injection E as <- <-; split; [split; [done|by intros ???]|done]].
  rewrite lift_bind in E. destruct (settlement_usage m row) as [d|e] eqn:Hd; [|injection E as _ <-; eauto].
  destruct (Hplain row d Hrow Ha Hd) as [Hdisc Hres]. destruct (settlement_usage_le m row d Hru Hd) as [Hud Hle].
  set (s2 := set_usage_reservations <[id := settled_row row m d now]> s).
  assert (Hset : settle_resource_usage_reservation id (settlement_status m) d now s = (s2, Ok true))
    by (unfold settle_resource_usage_reservation; by rewrite Hrow, Ha).
  unfold mbind at 1, M_bind at 1 in E. rewrite Hset in E. cbn [negb] in E.
  assert (Hok2 : tables_ok s2) by (apply tables_usage_row; [done|by apply settled_row_ok]).
  assert (Hact : active_rows s ≡ₚ row :: active_rows s2) by (apply active_settled; [done|done|by destruct m]).
  assert (Hl2 : ledger_inv s2).
  { split; [done| |].
    - by apply (envelope_synced s s2).
    - by apply (envelope_within_less s s2 row). }
  assert (Hfew : fewer_active s s2) by (by eapply fewer_settled).
  destruct (_is_zero d) eqn:Hz; [by injection E as <- <-|].
  assert (Hfit : ∀ l, chain_at (processes (base s2)) (ur_pid row) l → along (fits s2 (universe s2) d) None l).
  { intros l Hl. apply along_intro; [by apply (chain_pids_NoDup l (ur_pid row) s2)|].
    apply (envelope_fits s s2 row); try done. apply universe_covers. }
  unfold mbind at 1, M_bind at 1, charge_and_kill in E. rewrite lift_bind in E.
  assert (Hco : _coerce_usage (UsageObject d) = Ok d) by (cbn; unfold _validate_usage; by rewrite Hud).
  rewrite Hco, Hz in E. cbn [negb] in E. unfold mbind at 1, M_bind at 1 in E.
  destruct (charge_durably page_size hard_limit amb now (ur_pid row) d source recovery (negb recovery) s2) as [s3 [ex|e]] eqn:Ec.
  - destruct (charge_fitting page_size hard_limit Hpage amb now (ur_pid row) d source recovery (negb recovery) s2 s3 ex Hl2 Hud Hdisc)
      as (-> & Hl3 & Hur & _); [by intros _|done|]. injection E as <- <-. split; [|done]. split; [done|]. intros i x. rewrite Hur. apply Hfew.
  - injection E as <- <-. intros -> Herr. exfalso.
    pose proof (charge_durably_quiet amb now (ur_pid row) d source s2 s3 e Hok2 Hud Hdisc Hfit Ec). congruence.
Qed.

(** No finalization is left to run after the commit. *)
Lemma settle_run amb now finalizer notifier id m source recovery s s' r :
  ledger_inv s → strip now ≠ "" → settles_plainly s id m →
  _settle_usage_reservation page_size hard_limit json_dumps amb now new_nonce finalizer notifier id m source recovery s = (s', r) →
  ∃ x, unit_of_work (settle_body page_size hard_limit json_dumps amb now new_nonce id m source recovery) s = (s', x)
    ∧ r = fst <$> x.
Proof.
  intros Hl Hnow Hplain E. unfold _settle_usage_reservation in E.
  unfold mbind at 1, M_bind at 1 in E.
  destruct (unit_of_work (settle_body page_size hard_limit json_dumps amb now new_nonce id m source recovery) s)
    as [s1 [[d fs]|e]] eqn:Eu.
  - pose proof Eu as Eb. rewrite unit_of_work_Ok in Eb. apply settle_body_ledger in Eb as [_ ->]; [|done..].
    injection E as <- <-. eauto.
  - injection E as <- <-. eauto.
Qed.

Lemma settle_ledger amb now finalizer notifier id m source recovery s s' r :
  ledger_inv s → strip now ≠ "" → settles_plainly s id m →
  _settle_usage_reservation page_size hard_limit json_dumps amb now new_nonce finalizer notifier id m source recovery s = (s', r) →
  ledger_inv s' ∧ fewer_active s s'.
Proof.
  intros Hl Hnow Hplain E. destruct (settle_run _ _ _ _ _ _ _ _ _ _ _ Hl Hnow Hplain E) as ([[d fs]|e] & Eu & _).
  - rewrite unit_of_work_Ok in Eu. by apply settle_body_ledger in Eu as [? _].
  - apply unit_of_work_Err in Eu as (t & s2 & _ & ->). split; [by apply ledger_takeover|by intros ???].
Qed.

(** *** Recovery *)

(** What every active envelope can charge at most is discrete and reservable. *)
Definition plain_rows (s : RStore) : Prop := ∀ id row,
  usage_reservations s !! id = Some row → is_active row = true →
  discrete (_maximum_charge_usage row)
  ∧ ∀ f, relevant (_nonzero_fields (_maximum_charge_usage row)) f = true → reservable f = true.

Lemma plain_settles s id (release : bool) : plain_rows s → settles_plainly s id (if release then Release else ChargeMaximum).
Proof.
  intros Hp row d Hr Ha. destruct release; cbn [settlement_usage]; intros [= <-]; [|by apply (Hp id)].
  split; intros f Hf; [by destruct f|destruct f; vm_compute in Hf; discriminate Hf].
Qed.

Lemma plain_fewer s s' : fewer_active s s' → plain_rows s → plain_rows s'.
Proof. intros Hf Hp id row Hr Ha. apply (Hp id); [by apply Hf|done]. Qed.

Lemma recover_records_ledger amb now finalizer notifier total sample records s s' r :
  ledger_inv s → strip now ≠ "" → plain_rows s →
  recover_records page_size hard_limit json_dumps amb now new_nonce finalizer notifier total sample records s = (s', r) →
  ledger_inv s' ∧ plain_rows s'.
Proof.
  intros Hl Hnow. revert total sample s Hl. induction records as [|row records IH]; intros total sample s Hl Hp; cbn [recover_records].
  { by intros [= <- _]. }
  rewrite reading_bind. intros E. unfold mbind at 1, M_bind at 1 in E.
  destruct (_settle_usage_reservation _ _ _ _ _ _ _ _ _ _ _ _ s) as [s1 x] eqn:E1.
  destruct (settle_ledger _ _ _ _ _ _ _ _ _ _ _ Hl Hnow (plain_settles _ _ _ Hp) E1) as [Hl1 Hf].
  pose proof (plain_fewer _ _ Hf Hp) as Hp1. destruct x as [x|e]; [by eapply IH|by injection E as <- _].
Qed.

Lemma recover_pages_ledger amb now finalizer notifier fuel after total sample s s' r :
  ledger_inv s → strip now ≠ "" → plain_rows s →
  recover_pages page_size hard_limit json_dumps amb now new_nonce finalizer notifier fuel after total sample s = (s', r) →
  ledger_inv s'.
Proof.
  intros Hl Hnow. revert after total sample s Hl. induction fuel as [|n IH]; intros after total sample s Hl Hp; cbn [recover_pages].
  { by intros [= <- _]. }
  rewrite reading_bind. destruct (next_page _ _ _ s) as [page|e]; [|by intros [= <- _]].
  intros E. unfold mbind at 1, M_bind at 1 in E.
  destruct (recover_records _ _ _ _ _ _ _ _ _ _ _ s) as [s1 x] eqn:E1.
  destruct (recover_records_ledger _ _ _ _ _ _ _ _ _ _ Hl Hnow Hp E1) as [Hl1 Hp1].
  destruct x as [x|e]; [|by injection E as <- _]. destruct (next_cursor page); [by eapply IH|by injection E as <- _].
Qed.

Lemma recover_ledger amb now finalizer notifier fuel lease s s' r :
  ledger_inv s → strip now ≠ "" → plain_rows s →
  recover_usage_reservations page_size hard_limit json_dumps amb now new_nonce finalizer notifier fuel lease s = (s', r) →
  ledger_inv s'.
Proof.
  intros Hl Hnow Hp E. unfold recover_usage_reservations in E. rewrite lift_bind in E.
  destruct lease as [[]|e]; [|by injection E as <- _]. unfold mbind at 1, M_bind at 1 in E.
  destruct (recover_pages _ _ _ _ _ _ _ _ _ _ _ _ s) as [s1 x] eqn:E1.
  pose proof (recover_pages_ledger _ _ _ _ _ _ _ _ _ _ _ Hl Hnow Hp E1) as Hl1.
  destruct x as [x|e]; [|by injection E as <- _]. by apply lift_run in E as [-> _].
Qed.

End Operations.

(** ** Writes that keep the ledger's columns *)

Definition ledger_columns (row : AgentProcess) : option string * ResourceBudget * ResourceUsage :=
  (parent_pid row, resource_budget row, resource_usage row).

Lemma ledger_same_columns s s' :
  (∀ q, option_map ledger_columns (processes (base s') !! q) = option_map ledger_columns (processes (base s) !! q)) →
  reservations s' = reservations s → usage_reservations s' = usage_reservations s → store_inv (base s') →
  ledger_inv s → ledger_inv s'.
Proof.
  intros Hcol Hr Hu Hinv [Hok Hsync Hw].
  assert (Hrow : ∀ q row', processes (base s') !! q = Some row' →
    ∃ row, processes (base s) !! q = Some row ∧ ledger_columns row' = ledger_columns row).
  { intros q row' Hq. specialize (Hcol q). rewrite Hq in Hcol.
    destruct (processes (base s) !! q) as [row|]; [|done]. exists row. split; [done|]. cbn [option_map] in Hcol. congruence. }
  assert (Ht : same_tree s s').
  { intros q. specialize (Hcol q). destruct (processes (base s') !! q), (processes (base s) !! q); try done.
    cbn in *. by injection Hcol as -> _ _. }
  assert (Hok' : tables_ok s').
  { split; rewrite ?Hr, ?Hu; [done|by apply (forest_same s), Hok| |apply Hok|apply Hok].
    intros q row' Hq. destruct (Hrow q row' Hq) as (row & Hq' & [= _ -> ->]). by apply (tb_rows _ Hok q). }
  assert (Hsh : ∀ a c f, share_of s' a c f = share_of s a c f) by (intros; unfold share_of; by rewrite Hr).
  split; [done| |].
  - intros a c f crow Hf Hres. rewrite Hsh. intros Hpos Hc. destruct (Hrow c crow Hc) as (row & Hq' & [= -> -> ->]).
    by apply (Hsync a c f row).
  - intros q row' f L Hf Hq. destruct (Hrow q row' Hq) as (row & Hq' & [= _ -> ->]). intros HL.
    rewrite (claims_cover s' Hok' (universe s') (universe s)); [|done|apply universe_covers|].
    2: { apply (covers_mono s s'); [|by rewrite Hr|apply universe_covers]. intros p. by apply same_tree_some. }
    rewrite (claims_same s s') by done. by apply (Hw q row).
Qed.

Section History.
Variables page_size hard_limit : nat.
Hypothesis Hpage : 0 < page_size ≤ hard_limit.
Context `{ExecEvidence}.
Variable json_dumps : list (string * json) → string.
Variable new_nonce : string → string.
Hypothesis post_exec_quiet : ∀ s amb pm process current rev,
  quiet (post_exec_completion_check s amb pm process current rev).

Lemma setattrs_columns patch row :
  forallb (fun i => match i with SetParentPid _ | SetResourceBudget _ | SetResourceUsage _ => false | _ => true end) patch = true →
  ledger_columns (foldl setattr row patch) = ledger_columns row.
Proof.
  revert row. induction patch as [|i patch IH]; intros row Hp; [done|]. cbn in Hp. apply andb_true_iff in Hp as [Hi Hp].
  cbn [foldl]. rewrite IH by done. by destruct i.
Qed.

(** A typed transition keeps the columns of every row. *)
Lemma transition_columns amb now p st rev est esg w o msg control allowed reason b b' r :
  store_inv b →
  apply_process_state_transition json_dumps amb now p st rev est esg w o msg control allowed reason b = (b', r) →
  store_inv b' ∧ ∀ q, option_map ledger_columns (processes b' !! q) = option_map ledger_columns (processes b !! q).
Proof.
  intros Hinv E.
  pose proof (transition_preserves json_dumps _ _ _ _ _ _ _ _ _ _ _ _ _ _ _ _ Hinv E) as Hle.
  split; [by apply (le_inv _ _ Hle)|]. destruct r as [x|e].
  2: { intros q. assert (Hclean : ∃ t, b' = set_takeover t b) by (by eapply err_clean_transition). by destruct Hclean as [t ->]. }
  unfold apply_process_state_transition in E.
  apply M_bind_Ok in E as ([] & ? & Hx & E). apply lift_run in Hx as [-> _].
  apply M_bind_Ok in E as ([] & ? & Hx & E). apply lift_run in Hx as [-> _].
  apply M_bind_Ok in E as (found & ? & Hg & E). apply get_process_Ok in Hg as [-> ->].
  destruct (processes b !! p) as [old|] eqn:Hp; [|done].
  apply M_bind_Ok in E as ([] & ? & Hx & E). apply lift_run in Hx as [-> _].
  fold (transition_patch json_dumps st w o msg old) in E.
  assert (Hpatch : ∃ amb' est', _patch_process amb' now p (transition_patch json_dumps st w o msg old) rev est' true b = (b', Ok x)).
  { destruct control; cbn [negb] in E; [|eauto].
    do 3 (apply M_bind_Ok in E as (? & ? & Hx & E); apply lift_run in Hx as [-> _]). eauto. }
  destruct Hpatch as (amb' & est' & Hpatch).
  apply patch_Ok in Hpatch as (cur & Hcur & _ & _ & Hu & Hpid); [|done]. rewrite Hp in Hcur. injection Hcur as <-.
  apply update_Ok in Hu as (cur & gen & owner & lease & t & Hcur & _ & _ & -> & _).
  destruct (patched_keys now (transition_patch json_dumps st w o msg old) old) as [Hk _].
  rewrite Hk, Hpid, Hp in Hcur. injection Hcur as <-.
  intros q. rewrite committed_lookup, Hk, Hpid. destruct (decide (q = p)) as [->|]; [|done]. by rewrite Hp.
Qed.

(** ** Histories *)

(** One operation, by any caller, returning or raising.  Usage is discrete, and
    a charge that skips its preflight fits along the chain. *)
Inductive manages : RStore → RStore → Prop :=
| manages_charge amb now finalizer notifier p req d source allow_overage kill s s' r :
    _coerce_usage req = Ok d → discrete d → fits_or_asks allow_overage p d s →
    charge page_size hard_limit json_dumps amb now new_nonce finalizer notifier p req source allow_overage kill s = (s', r) →
    manages s s'
| manages_reserve now p req d source id by_ s s' r :
    _coerce_usage req = Ok d → discrete d →
    usage_reservation_validate (envelope_row id p d (reserver source by_) source now) = Ok tt →
    reserve_usage page_size hard_limit now p req source id by_ s = (s', r) → manages s s'
| manages_settle amb now finalizer notifier id m source s s' r :
    strip now ≠ "" → settles_plainly s id m →
    settle_usage_reservation page_size hard_limit json_dumps amb now new_nonce finalizer notifier id m source s = (s', r) →
    manages s s'
| manages_recover amb now finalizer notifier fuel lease s s' r :
    strip now ≠ "" → plain_rows s →
    recover_usage_reservations page_size hard_limit json_dumps amb now new_nonce finalizer notifier fuel lease s = (s', r) →
    manages s s'
| manages_share now parent child b s s' r :
    budget_validate b = Ok tt → child_of s parent child b →
    reserve_child_budget page_size hard_limit now parent child b s = (s', r) → manages s s'
| manages_launch now row s s' r :
    launchable s row → on_base (insert_process now row) s = (s', r) → manages s s'
| manages_release p s s' r :
    release_process_reservations p s = (s', r) → manages s s'
| manages_transition amb now p st rev est esg w o msg control allowed reason s s' r :
    on_base (apply_process_state_transition json_dumps amb now p st rev est esg w o msg control allowed reason) s = (s', r) →
    manages s s'.

Lemma manages_ledger s s' : manages s s' → ledger_inv s → ledger_inv s'.
Proof.
  intros [amb now fin notif p req d source over kill s1 s2 r Hreq Hd Hover E
         |now p req d source id by_ s1 s2 r Hreq Hd Hrow E
         |amb now fin notif id m source s1 s2 r Hnow Hplain E
         |amb now fin notif fuel lease s1 s2 r Hnow Hplain E
         |now parent child b s1 s2 r Hb Hchild E
         |now row s1 s2 r Hla E
         |p s1 s2 r E
         |amb now p st rev est esg w o msg control allowed reason s1 s2 r E] Hl.
  - destruct (_is_zero d) eqn:Hz.
    + enough (s2 = s1) as -> by done. apply (f_equal fst) in E. unfold charge, charge_and_kill, mbind, M_bind, lift_res in E.
      rewrite Hreq, Hz in E. by symmetry.
    + destruct (charge_run page_size hard_limit Hpage json_dumps new_nonce _ _ _ _ _ _ _ _ _ _ _ _ _ Hl Hreq Hd Hz Hover E)
        as [[-> Ec]|(e & t & -> & ->)]; [|by apply ledger_takeover].
      by destruct (charge_fitting page_size hard_limit Hpage amb now p d source over true s1 s2 None Hl (coerced_ok req d Hreq) Hd Hover Ec) as (_ & ? & _).
  - by eapply reserve_usage_ledger.
  - by eapply settle_ledger.
  - by eapply recover_ledger.
  - eapply reserve_child_ledger; [exact Hpage|exact Hl|by apply budget_validated_ok|exact Hchild|exact E].
  - by eapply launch_ledger.
  - by eapply release_ledger.
  - apply on_base_run in E as [E Es]. apply transition_columns in E as [Hinv Hcol]; [|apply Hl].
    apply (ledger_same_columns s1); [done|by rewrite Es|by rewrite Es|done|done].
Qed.

End History.
