(* ===== verification/ResourceKill.v ===== *)
(** * Killing a tree that exceeded its limit

    The kill takes over the leases of running processes.  Its token does not
    carry the Task-Run epoch of the row, while the store compares with a token
    that does: a running, leased process of a Task Run is never killed, and
    the kill of any tree that holds one fails as a whole. *)

From S2P Require Import Prelude PyStr PyVal ProcessState ProcessModel ProcessStore ProcessWrites ProcessExecution ProcessInvariant ProcessProperties ProcessTransition ResourceTables ResourceManager ReservationPages ResourceViews ResourceLedger ResourceErrors ResourceCharges ResourceInvariant ResourceEnvelopes ResourceShares.

Section Kill.
Context `{ExecEvidence}.

(** The row of a process that runs under a Task Run's lease. *)
Definition leased_task_run (row : AgentProcess) : Prop :=
  status row = RUNNING ∧ is_Some (execution_owner_id row) ∧ is_Some (execution_lease_id row)
  ∧ is_Some (task_run_epoch row).

Lemma takeover_not_allowed current process token i s :
  takeover s = Some i → ti_source_execution_token i ≠ token →
  _process_exec_takeover_write_allowed current process token s = (s, Ok false).
Proof.
  intros Hi Hne. unfold _process_exec_takeover_write_allowed. rewrite Hi, (bool_decide_false _ Hne).
  by rewrite orb_true_r.
Qed.

(** A write to a leased running row inside a takeover needs the exact token. *)
Lemma admission_mismatch current process token owner lease i s :
  status current = RUNNING → execution_owner_id current = Some owner → execution_lease_id current = Some lease →
  takeover s = Some i → ti_source_execution_token i ≠ token_of current owner lease →
  ∃ e, _assert_process_exec_admission_update_owner current process token s = (s, Err e).
Proof.
  intros Hs Ho Hl Hi Hne. unfold _assert_process_exec_admission_update_owner. rewrite Hs, Ho, Hl.
  rewrite bool_decide_true by done. cbn [negb].
  unfold mbind at 1, M_bind at 1, get_state at 1. rewrite Hi.
  rewrite (bool_decide_false (Some i = None)) by done. cbn [andb].
  unfold mbind at 1, M_bind at 1. rewrite (takeover_not_allowed _ _ _ i) by done.
  rewrite lift_bind, bool_decide_true by eauto. cbn [andb negb raise_if]. eauto.
Qed.

Lemma fence_mismatch amb current process rev owner lease i s s' x :
  status current = RUNNING → execution_owner_id current = Some owner → execution_lease_id current = Some lease →
  takeover s = Some i → ti_source_execution_token i ≠ token_of current owner lease →
  _process_update_fence amb current process rev s ≠ (s', Ok x).
Proof.
  intros Hs Ho Hl Hi Hne E. unfold _process_update_fence in E.
  do 3 (apply M_bind_Ok in E as (? & ? & Hx & E); apply lift_run in Hx as [-> _]).
  apply M_bind_Ok in E as (s0 & ? & Hx & E). unfold get_state in Hx. injection Hx as <- <-.
  apply M_bind_Ok in E as (? & ? & Hx & E). apply lift_run in Hx as [-> _].
  apply M_bind_Ok in E as (? & ? & Hx & E).
  destruct (admission_mismatch current process (cur_execution amb) owner lease i s Hs Ho Hl Hi Hne) as [e He].
  by rewrite He in Hx.
Qed.

Lemma update_mismatch amb now process b current owner lease i s s' x :
  processes s !! pid process = Some current →
  status current = RUNNING → execution_owner_id current = Some owner → execution_lease_id current = Some lease →
  takeover s = Some i → ti_source_execution_token i ≠ token_of current owner lease →
  _update_process amb now process b s ≠ (s', Ok x).
Proof.
  intros Hp Hs Ho Hl Hi Hne E. unfold _update_process in E.
  apply M_bind_Ok in E as (f & s1 & E & _). rewrite sql_transaction_Ok in E.
  apply M_bind_Ok in E as (s0 & ? & Hx & E). unfold get_state in Hx. injection Hx as <- <-. rewrite Hp in E.
  apply M_bind_Ok in E as (y & s2 & Hf & _). by eapply fence_mismatch.
Qed.

Variable json_dumps : list (string * json) → string.
Variable new_nonce : string → string.
Variables (amb : Ambient) (now : string).
Abbreviation kill_one process reason := (@transition Store (store_repository json_dumps amb now) (pid process) (kill_args process reason)).

Lemma transition_applies p args b b' r :
  @transition Store (store_repository json_dumps amb now) p args b = (b', Ok r) → is_condition_wait (ta_wait_state args) = false →
  ∃ st rev est esg w o msg control allowed reason,
    apply_process_state_transition json_dumps amb now p st rev est esg w o msg control allowed reason b = (b', Ok r).
Proof.
  intros E Hw. unfold transition in E.
  do 4 (apply M_bind_Ok in E as (? & ? & Hx & E); apply lift_run in Hx as [-> _]).
  rewrite Hw in E. apply M_bind_Ok in E as (? & ? & Hx & E). injection Hx as <- _.
  apply M_bind_Ok in E as (? & ? & Hx & E); apply lift_run in Hx as [-> _].
  cbv zeta in E. cbn [repo_transition store_repository] in E. eauto 12.
Qed.

Lemma transition_mismatch p st rev est esg w o msg control allowed reason b b' r row owner lease i :
  store_inv b → processes b !! p = Some row →
  status row = RUNNING → execution_owner_id row = Some owner → execution_lease_id row = Some lease →
  takeover b = Some i → ti_source_execution_token i ≠ token_of row owner lease →
  apply_process_state_transition json_dumps amb now p st rev est esg w o msg control allowed reason b ≠ (b', Ok r).
Proof.
  intros Hinv Hp Hs Ho Hl Hi Hne E.
  apply transition_patched in E as (old & amb' & est' & Hold & Hpatch); [|done].
  rewrite Hp in Hold. injection Hold as <-.
  apply patch_Ok in Hpatch as (cur & Hcur & _ & _ & Hu & Hpid); [|done]. rewrite Hp in Hcur. injection Hcur as <-.
  destruct (patched_keys now (transition_patch json_dumps st w o msg row) row) as [Hk _].
  revert Hu. by apply (update_mismatch _ _ _ _ row owner lease i); rewrite ?Hk, ?Hpid.
Qed.

(** The scope of a leased running process of a Task Run always raises. *)
Lemma takeover_scope_fails row reason b b' r :
  store_inv b → processes b !! pid row = Some row → leased_task_run row →
  _resource_limit_takeover_scope new_nonce row (kill_one row reason) b ≠ (b', Ok r).
Proof.
  intros Hinv Hp (Hs & [owner Ho] & [lease Hl] & [epoch He]) E. unfold _resource_limit_takeover_scope in E.
  rewrite Hs, Ho, Hl, bool_decide_true in E by done. cbn [negb] in E. unfold trusted_process_execution_takeover in E.
  destruct (_ || _ || _ || _ || _ || _ || _); [done|]. destruct (negb _); [done|].
  destruct (takeover b); [done|]. set (intent := {| ti_target_pid := _ |}) in E.
  destruct (kill_one row reason (set_takeover (Some intent) b)) as [b1 [x|e]] eqn:Et; [|done].
  apply transition_applies in Et as (?&?&?&?&?&?&?&?&?&?&Et); [|done].
  revert Et. apply (transition_mismatch (pid row) _ _ _ _ _ _ _ _ _ _ _ _ _ row owner lease intent); try done.
  - by apply (le_inv _ _ (takeover_le b (Some intent))).
  - cbn. unfold token_of. rewrite He. by intros [=].
Qed.

(** Another process's scope leaves the row alone. *)
Lemma takeover_scope_other process reason b b' r q row :
  store_inv b → processes b !! q = Some row → q ≠ pid process →
  _resource_limit_takeover_scope new_nonce process (kill_one process reason) b = (b', Ok r) →
  store_inv b' ∧ processes b' !! q = Some row.
Proof.
  intros Hinv Hq Hne E.
  assert (Hbody : ∀ b0 b1 r0, store_inv b0 → processes b0 !! q = Some row → kill_one process reason b0 = (b1, Ok r0) →
    store_inv b1 ∧ processes b1 !! q = Some row).
  { intros b0 b1 r0 Hi0 Hq0 E0. split; [by apply (le_inv _ _ (transition_preserves_store json_dumps _ _ _ _ _ _ _ Hi0 E0))|].
    apply transition_applies in E0 as (?&?&?&?&?&?&?&?&?&?&E0); [|done].
    apply transition_run in E0; [|done].
    destruct E0 as (old & new & _ & _ & _ & _ & _ & _ & _ & _ & _ & _ & _ & _ & _ & _ & Hrest). by rewrite Hrest. }
  unfold _resource_limit_takeover_scope in E. destruct (negb _); [by eapply Hbody|].
  destruct (execution_owner_id process), (execution_lease_id process); try done; [|by eapply Hbody].
  unfold trusted_process_execution_takeover in E.
  destruct (_ || _ || _ || _ || _ || _ || _); [done|]. destruct (negb _); [done|]. destruct (takeover b); [done|].
  set (intent := {| ti_target_pid := _ |}) in E.
  destruct (kill_one process reason (set_takeover (Some intent) b)) as [b1 [x|e]] eqn:Et; [|done].
  apply Hbody in Et as [Hi1 Hq1]; [|by apply (le_inv _ _ (takeover_le b (Some intent)))|done].
  destruct (match takeover b1 with Some i => _ | None => _ end); [|done]. injection E as <- _.
  split; [by apply (le_inv _ _ (takeover_le b1 None))|done].
Qed.

Lemma kill_tree_fails reason tree row s s' r :
  store_inv (base s) → row ∈ tree → (∀ h, h ∈ tree → pid h = pid row → h = row) →
  processes (base s) !! pid row = Some row → leased_task_run row →
  kill_tree json_dumps amb now new_nonce reason tree s ≠ (s', Ok r).
Proof.
  intros Hinv Hin Huniq Hp Hrun. revert s s' r Hinv Hin Huniq Hp.
  induction tree as [|h tree IH]; intros s s' r Hinv Hin Huniq Hp E; [by apply elem_of_nil in Hin|].
  cbn [kill_tree] in E.
  destruct (decide (pid h = pid row)) as [Epid|Hne].
  - rewrite (Huniq h ltac:(left) Epid) in E. destruct Hrun as (Hs & Hrest). rewrite Hs in E. cbn [is_terminal] in E.
    replace (is_terminal RUNNING) with false in E by (symmetry; by vm_compute).
    apply M_bind_Ok in E as (x & s1 & Ek & _). apply on_base_run in Ek as [Ek _].
    revert Ek. apply takeover_scope_fails; [done|done|by split].
  - assert (Hin' : row ∈ tree) by (apply elem_of_cons in Hin as [->|?]; done).
    assert (Huniq' : ∀ h0, h0 ∈ tree → pid h0 = pid row → h0 = row) by (intros h0 Hh0; apply Huniq; by right).
    destruct (is_terminal (status h)); [by eapply IH|].
    apply M_bind_Ok in E as (x & s1 & Ek & E). apply on_base_run in Ek as [Ek _].
    destruct (takeover_scope_other h reason (base s) (base s1) x (pid row) row Hinv Hp ltac:(congruence) Ek) as [Hi1 Hp1].
    apply M_bind_Ok in E as ([] & s2 & Hd & E). injection Hd as <-.
    apply M_bind_Ok in E as (killed & s3 & Ekt & _). refine (IH _ s3 killed _ Hin' Huniq' _ Ekt); [exact Hi1|exact Hp1].
Qed.

(** A resource limit never kills a running Task-Run process.  When the tree
    of the process that exceeded its limit holds a running, leased row with a
    Task-Run epoch, the kill always raises, and rolls every change of the tree
    back: the takeover token omits the epoch that the store's own token has. *)
Theorem limit_kill_spares_task_runs p reason tree row s s' r :
  store_inv (base s) → _descendant_tree p s = Ok tree → row ∈ tree → (∀ h, h ∈ tree → pid h = pid row → h = row) →
  processes (base s) !! pid row = Some row → leased_task_run row →
  _persist_resource_limit_kill json_dumps amb now new_nonce p reason s = (s', r) →
  ∃ e t, r = Err e ∧ s' = set_base (set_takeover t (base s)) s.
Proof.
  intros Hinv Htree Hin Huniq Hp Hrun E. unfold _persist_resource_limit_kill in E. destruct r as [f|e].
  - exfalso. rewrite unit_of_work_Ok, reading_bind, Htree in E. apply M_bind_Ok in E as (killed & s1 & Ek & _).
    by eapply kill_tree_fails.
  - apply unit_of_work_Err in E as (t & s1 & _ & ->). eauto.
Qed.
End Kill.
