(* ===== verification/ResourceRecovery.v ===== *)
(** * Recovery of usage envelopes

    After a restart the active envelopes are settled page by page, while the
    pages are being read.  When no effect was dispatched every envelope is
    released, exactly once, and the loop ends. *)

From S2P Require Import Prelude PyStr PyVal ProcessState ProcessModel ProcessStore ProcessWrites ProcessInvariant ResourceTables ResourceManager ReservationPages ResourceViews ResourceLedger ResourceErrors ResourceCharges ResourceInvariant ResourceEnvelopes ResourceShares ResourceSafety.
From stdpp Require Import sorting.

Section Recovery.
Variables page_size hard_limit : nat.
Hypothesis Hpage : 0 < page_size ≤ hard_limit.
Context `{ExecEvidence}.
Variables (json_dumps : list (string * json) → string) (amb : Ambient) (now : string) (new_nonce : string → string).
Variables (finalizer : option (list string → string → M RStore unit)) (notifier : option (string → M RStore unit)).
Hypothesis Hnow : strip now ≠ "".
Abbreviation recover_rows := (recover_records page_size hard_limit json_dumps amb now new_nonce finalizer notifier).
Abbreviation recover_all := (recover_pages page_size hard_limit json_dumps amb now new_nonce finalizer notifier).

Definition usage_rows_ok (s : RStore) : Prop := ∀ id r, usage_reservations s !! id = Some r → usage_row_ok id r.

(** The tables with one envelope released, and with all of a list. *)
Definition released (row : ResourceUsageReservation) (s : RStore) : RStore :=
  set_usage_reservations <[reservation_id row := settled_row row Release usage_zero now]> s.

Definition release_all (rows : list ResourceUsageReservation) (s : RStore) : RStore :=
  foldl (fun s row => released row s) s rows.

Lemma released_rows_ok row s :
  usage_rows_ok s → usage_reservations s !! reservation_id row = Some row → usage_rows_ok (released row s).
Proof.
  intros Hrows Hrow id r. cbn. destruct (decide (reservation_id row = id)) as [<-|Hne].
  - rewrite lookup_insert_eq. intros [= <-]. apply settled_row_ok; [by apply Hrows|by vm_compute|done].
  - rewrite lookup_insert_ne by done. apply Hrows.
Qed.

(** Releasing one envelope. *)
Lemma recovery_release_run row s :
  usage_rows_ok s → usage_reservations s !! reservation_id row = Some row → is_active row = true →
  _settle_usage_reservation page_size hard_limit json_dumps amb now new_nonce finalizer notifier
    (reservation_id row) Release "resource.recovery" true s = (released row s, Ok usage_zero).
Proof.
  intros Hrows Hrow Ha. destruct (Hrows _ _ Hrow) as [_ Hdec].
  assert (Hbody : settle_body page_size hard_limit json_dumps amb now new_nonce (reservation_id row) Release "resource.recovery" true s
     = (released row s, Ok (usage_zero, []))).
  { unfold settle_body. rewrite reading_bind. unfold get_resource_usage_reservation. rewrite Hrow, Hdec, res_bind_ok, Ha.
    cbn [negb settlement_usage]. rewrite lift_bind.
    assert (Hset : settle_resource_usage_reservation (reservation_id row) (settlement_status Release) usage_zero now s
       = (released row s, Ok true)) by (unfold settle_resource_usage_reservation; by rewrite Hrow, Ha).
    unfold mbind at 1, M_bind at 1. rewrite Hset. reflexivity. }
  unfold _settle_usage_reservation, mbind at 1, M_bind at 1, unit_of_work. rewrite Hbody. reflexivity.
Qed.

(** The active rows lose their first. *)
Lemma released_active row rest s :
  usage_rows_ok s → active_rows s = row :: rest → active_rows (released row s) = rest.
Proof.
  intros Hrows Ha.
  assert (Hin : row ∈ active_rows s) by (rewrite Ha; left).
  apply (elem_of_active s Hrows) in Hin as [Hrow Hact].
  pose proof (active_settled s (reservation_id row) row (settled_row row Release usage_zero now) Hrow Hact eq_refl) as Hp.
  fold (released row s) in Hp. rewrite Ha in Hp. apply Permutation_cons_inv in Hp.
  pose proof (released_rows_ok row s Hrows Hrow) as Hrows'.
  apply (StronglySorted_unique_strong cursor_le).
  - intros x y Hx Hy Hxy Hyx. rewrite Hp in Hy.
    apply (active_cursor_inj (released row s) Hrows'); [done|done|].
    unfold cursor_le in *. destruct (cursor_ltb_total (cursor_of x) (cursor_of y)) as [?|[?|?]]; congruence.
  - apply StronglySorted_merge_sort; apply _.
  - assert (Hs : StronglySorted cursor_le (active_rows s)) by (apply StronglySorted_merge_sort; apply _).
    rewrite Ha in Hs. by inversion Hs.
  - by symmetry.
Qed.

(** No effect of the envelope's reserver was dispatched. *)
Definition undispatched (s : RStore) : Prop := ∀ r, r ∈ active_rows s → not_dispatched s r = true.

Lemma recover_records_run records rest total sample s :
  usage_rows_ok s → undispatched s → active_rows s = records ++ rest → length sample ≤ page_size →
  recover_rows total sample records s
  = (release_all records s, Ok ((total + Z.of_nat (length records))%Z, take page_size (sample ++ map reservation_id records)))
  ∧ usage_rows_ok (release_all records s) ∧ undispatched (release_all records s) ∧ active_rows (release_all records s) = rest.
Proof.
  revert total sample s. induction records as [|r records IH]; intros total sample s Hrows Hun Ha Hlen.
  { cbn. split_and!; try done. by rewrite app_nil_r, take_ge, Z.add_0_r. }
  assert (Hin : r ∈ active_rows s) by (rewrite Ha; left).
  pose proof (Hun r Hin) as Hnd. apply (elem_of_active s Hrows) in Hin as [Hrow Hact].
  pose proof (released_active r (records ++ rest) s Hrows Ha) as Ha1.
  pose proof (released_rows_ok r s Hrows Hrow) as Hrows1.
  assert (Hun1 : undispatched (released r s)).
  { intros r' Hr'. rewrite Ha1 in Hr'. apply (Hun r'). rewrite Ha. by right. }
  set (sample1 := if length sample <? page_size then sample ++ [reservation_id r] else sample).
  assert (Hlen1 : length sample1 ≤ page_size).
  { unfold sample1. destruct (Nat.ltb_spec (length sample) page_size); [rewrite length_app; cbn; lia|done]. }
  destruct (IH (total + 1)%Z sample1 (released r s) Hrows1 Hun1 Ha1 Hlen1) as (Hrun & Hrest).
  split; [|exact Hrest]. cbn [recover_records]. rewrite reading_bind, Hnd.
  unfold mbind at 1, M_bind at 1. rewrite (recovery_release_run r s Hrows Hrow Hact). fold sample1. rewrite Hrun.
  change (release_all (r :: records) s) with (release_all records (released r s)).
  cbn [map length]. do 3 f_equal; [lia|].
  unfold sample1. destruct (Nat.ltb_spec (length sample) page_size) as [Hlt|Hge]; [by rewrite <-app_assoc|].
  rewrite !(take_app_le sample) by lia. done.
Qed.

(** The pages: the fuel bounds their number. *)
Lemma recover_pages_run fuel after total sample s :
  usage_rows_ok s → undispatched s → (∀ r, r ∈ active_rows s → beyond after r = true) →
  length (active_rows s) < fuel → length sample ≤ page_size →
  recover_all fuel after total sample s
  = (release_all (active_rows s) s,
     Ok ((total + Z.of_nat (length (active_rows s)))%Z, take page_size (sample ++ map reservation_id (active_rows s))))
  ∧ usage_rows_ok (release_all (active_rows s) s) ∧ active_rows (release_all (active_rows s) s) = [].
Proof.
  revert after total sample s. induction fuel as [|n IH]; intros after total sample s Hrows Hun Hbey Hlen Hsam; [lia|].
  cbn [recover_pages]. rewrite reading_bind, (next_page_run page_size hard_limit Hpage s Hrows).
  rewrite (list_filter_all (beyond after)) by done. cbn [page_records next_cursor].
  set (page := take page_size (active_rows s)).
  assert (Hsplit : active_rows s = page ++ drop page_size (active_rows s)) by (unfold page; by rewrite take_drop).
  destruct (recover_records_run page (drop page_size (active_rows s)) total sample s Hrows Hun Hsplit Hsam)
    as (Hrun & Hrows1 & Hun1 & Ha1).
  unfold mbind at 1, M_bind at 1. rewrite Hrun.
  destruct (Nat.ltb_spec page_size (length (active_rows s))) as [Hlt|Hge].
  2: { assert (Hp : page = active_rows s) by (unfold page; by rewrite take_ge). rewrite Hp in *.
       split_and!; [done|done|]. rewrite Ha1, drop_ge; done. }
  destruct (list.last page) as [x|] eqn:El.
  2: { exfalso. apply last_None in El. unfold page in El. apply (f_equal length) in El.
       rewrite length_take in El. cbn in El. lia. }
  cbn [option_map fst snd].
  assert (Hlen1 : length (take page_size (sample ++ map reservation_id page)) ≤ page_size) by (rewrite length_take; lia).
  assert (Hb1 : ∀ r, r ∈ active_rows (release_all page s) → beyond (Some (cursor_of x)) r = true).
  { intros r Hr. rewrite Ha1 in Hr. pose proof (beyond_page page_size hard_limit Hpage s Hrows None x) as Hbp. cbv zeta in Hbp.
    rewrite (list_filter_all (beyond None)) in Hbp by done. fold page in Hbp. specialize (Hbp El).
    rewrite <-Hbp in Hr. by apply list_elem_of_In, filter_In in Hr as [_ ?]. }
  destruct (IH (Some (cursor_of x)) (total + Z.of_nat (length page))%Z _ (release_all page s) Hrows1 Hun1 Hb1
              ltac:(rewrite Ha1, length_drop; lia) Hlen1) as (Hrun2 & Hrows2 & Ha2).
  rewrite Ha1 in *.
  assert (Hall : release_all (drop page_size (active_rows s)) (release_all page s) = release_all (active_rows s) s)
    by (unfold release_all; rewrite <-foldl_app; by rewrite <-Hsplit).
  rewrite Hall in *. split_and!; [|done|done]. rewrite Hrun2. do 3 f_equal.
  - apply (f_equal length) in Hsplit. rewrite length_app in Hsplit. lia.
  - assert (Hids : map reservation_id (active_rows s) = map reservation_id page ++ map reservation_id (drop page_size (active_rows s)))
      by (rewrite <-map_app, <-Hsplit; done).
    rewrite Hids, app_assoc. set (front := sample ++ map reservation_id page).
    destruct (decide (length front ≤ page_size)) as [Hf|Hf]; [by rewrite (take_ge front)|].
    rewrite !(take_app_le front) by lia. rewrite take_app_le by (rewrite length_take; lia). rewrite take_take. f_equal. lia.
Qed.

Lemma release_all_lookup rows s id r :
  NoDup (map reservation_id rows) → (∀ row, row ∈ rows → usage_reservations s !! reservation_id row = Some row) →
  usage_reservations s !! id = Some r →
  usage_reservations (release_all rows s) !! id
  = Some (if decide (id ∈ map reservation_id rows) then settled_row r Release usage_zero now else r).
Proof.
  revert s r. induction rows as [|row rows IH]; intros s r Hnd Hin Hr; [by rewrite decide_False by apply not_elem_of_nil|].
  cbn [map] in *. apply NoDup_cons in Hnd as [Hnin Hnd].
  change (release_all (row :: rows) s) with (release_all rows (released row s)).
  pose proof (Hin row ltac:(left)) as Hrow.
  assert (Hin' : ∀ row', row' ∈ rows → usage_reservations (released row s) !! reservation_id row' = Some row').
  { intros row' Hr'. cbn. rewrite lookup_insert_ne; [apply Hin; by right|].
    intros E. apply Hnin. rewrite E. apply list_elem_of_fmap. by exists row'. }
  destruct (decide (id = reservation_id row)) as [->|Hne].
  - rewrite Hrow in Hr. injection Hr as <-. rewrite (IH (released row s) (settled_row row Release usage_zero now) Hnd Hin').
    + rewrite decide_False by done. by rewrite decide_True by left.
    + cbn. by rewrite lookup_insert_eq.
  - rewrite (IH (released row s) r Hnd Hin') by (cbn; by rewrite lookup_insert_ne).
    destruct (decide (id ∈ map reservation_id rows)); [by rewrite decide_True by (by right)|].
    rewrite decide_False; [done|]. by intros [->|?]%elem_of_cons.
Qed.

(** (C33) Recovery of undispatched envelopes terminates and releases each of them
    exactly once.  With one more page step than there are rows, whatever the
    page size, the loop returns the number of envelopes that were active and
    the first ids; every active row is now released with no usage charged,
    every other row and every other table is as it was. *)
Theorem recovery_releases_undispatched fuel s :
  usage_rows_ok s → undispatched s → size (usage_reservations s) < fuel →
  ∃ s', recover_usage_reservations page_size hard_limit json_dumps amb now new_nonce finalizer notifier fuel (Ok tt) s
        = (s', Ok {| total_count := Z.of_nat (length (active_rows s));
                     sample_ids := take page_size (map reservation_id (active_rows s)) |})
    ∧ active_rows s' = [] ∧ base s' = base s ∧ reservations s' = reservations s
    ∧ ∀ id r, usage_reservations s !! id = Some r → usage_reservations s' !! id
        = Some (if is_active r then settled_row r Release usage_zero now else r).
Proof.
  intros Hrows Hun Hfuel. pose proof (active_length s) as Hlen.
  destruct (recover_pages_run fuel None 0 [] s Hrows Hun) as (Hrun & _ & Hnil); [done|lia|cbn; lia|].
  exists (release_all (active_rows s) s). split_and!; [|done| | |].
  - unfold recover_usage_reservations. rewrite lift_bind. unfold mbind at 1, M_bind at 1. rewrite Hrun. cbn [fst snd app].
    rewrite Z.add_0_l. unfold lift_res. f_equal. unfold mk_summary.
    replace (Z.of_nat (length (active_rows s)) <? 0)%Z with false by (symmetry; apply Z.ltb_ge; lia).
    replace (Z.of_nat (length (active_rows s)) <? Z.of_nat (length (take page_size (map reservation_id (active_rows s)))))%Z
      with false by (symmetry; apply Z.ltb_ge; rewrite length_take, length_map; lia).
    cbn [raise_if]. rewrite !res_bind_ok.
    destruct (existsb _ _) eqn:Ex; [exfalso|done]. apply existsb_exists in Ex as (id & Hid & Hblank).
    apply String.eqb_eq in Hblank as ->. apply list_elem_of_In in Hid. apply elem_of_take in Hid as (i & Hid & _).
    apply list_elem_of_lookup_2, list_elem_of_fmap in Hid as (r & Hr & Hin).
    apply (elem_of_active s Hrows) in Hin as [Hin _]. destruct (Hrows _ _ Hin) as [_ Hdec]. by apply decode_ok in Hdec as (_ & _ & ? & _).
  - clear. generalize (active_rows s). intros l. revert s. induction l as [|r l IH]; intros s; [done|]. apply (IH (released r s)).
  - clear. generalize (active_rows s). intros l. revert s. induction l as [|r l IH]; intros s; [done|]. apply (IH (released r s)).
  - intros id r Hr.
    assert (Hnd : NoDup (map reservation_id (active_rows s))).
    { apply (NoDup_fmap_2_strong reservation_id); [|by apply active_NoDup].
      intros x y [Hx _]%(elem_of_active s Hrows) [Hy _]%(elem_of_active s Hrows) E. congruence. }
    rewrite (release_all_lookup (active_rows s) s id r Hnd); [|intros row Hin; by apply (elem_of_active s Hrows) in Hin as [? _]|done].
    destruct (Hrows id r Hr) as [Hid _].
    destruct (is_active r) eqn:Ea.
    + rewrite decide_True; [done|]. apply list_elem_of_fmap. exists r. split; [done|]. apply (elem_of_active s Hrows). by rewrite Hid.
    + rewrite decide_False; [done|]. intros (x & Ex & Hx)%list_elem_of_fmap. apply (elem_of_active s Hrows) in Hx as [Hx Hax]. congruence.
Qed.
End Recovery.
