(* ===== verification/ResourceSamples.v ===== *)
(** * A small process tree

    A root limited to 100 tokens that has set 40 aside for its child, built by
    running the operations, on which the properties of the resource manager
    are instantiated. *)

From S2P Require Import Prelude PyStr PyVal ProcessState ProcessModel ProcessStore ProcessWrites ProcessInvariant ProcessProperties ResourceTables ResourceManager ReservationPages ResourceViews ResourceLedger ResourceErrors ResourceCharges ResourceInvariant ResourceEnvelopes ResourceShares ResourceSafety ResourceKill ResourceRecovery.

(** ** The tables *)

Definition tokens_budget (n : Z) : ResourceBudget :=
  mk_budget (fun f => match f with max_llm_total_tokens => Some (NInt n) | _ => None end) (NInt 8000).

Definition tokens (n : Z) : ResourceUsage :=
  mk_usage (fun f => match f with llm_total_tokens => NInt n | _ => usage_default f end).

Definition sample_process (p : string) (parent : option string) (n : Z) : AgentProcess :=
  let d := demo_process p RUNNABLE in
  {| pid := p; parent_pid := parent; image_id := image_id d; status := status d; goal_oid := goal_oid d;
     memory_view := memory_view d; capabilities := capabilities d; loaded_skills := loaded_skills d;
     tool_table := tool_table d; event_cursor := event_cursor d; checkpoint_head := checkpoint_head d;
     resource_budget := tokens_budget n; resource_usage := usage_zero; created_at := created_at d;
     updated_at := updated_at d; working_directory := working_directory d; status_message := status_message d;
     wait_state := wait_state d; outcome := outcome d; state_generation := state_generation d;
     llm_profile_id := llm_profile_id d; model_tool_table := model_tool_table d; revision := revision d;
     execution_generation := execution_generation d; execution_owner_id := execution_owner_id d;
     execution_lease_id := execution_lease_id d; task_run_id := task_run_id d; task_run_epoch := task_run_epoch d;
     task_run_role := task_run_role d |}.

Definition bare : RStore := mkRStore empty_store ∅ ∅ ∅ [].
Definition with_root : RStore := fst (on_base (insert_process "t1" (sample_process "root" None 100)) bare).
Definition with_share : RStore := fst (reserve_child_budget 2 9 "t2" "root" "kid" (tokens_budget 40) with_root).
Definition family : RStore := fst (on_base (insert_process "t3" (sample_process "kid" (Some "root") 40)) with_share).

(** ** They are in order *)

Lemma bare_ledger : ledger_inv bare.
Proof.
  assert (Hno : ∀ q row, processes (base bare) !! q = Some row → False) by (intros q row Hq; cbn in Hq; by rewrite lookup_empty in Hq).
  split; [split| |].
  - split; intros p row Hp; by destruct (Hno _ _ Hp).
  - exists (fun _ => 0). intros p row q Hp. by destruct (Hno _ _ Hp).
  - intros p row Hp. by destruct (Hno _ _ Hp).
  - intros k r Hk. cbn in Hk. by rewrite lookup_empty in Hk.
  - intros k r Hk. cbn in Hk. by rewrite lookup_empty in Hk.
  - intros a c f crow _ _ _ Hc. by destruct (Hno _ _ Hc).
  - intros p row f L _ Hp. by destruct (Hno _ _ Hp).
Qed.

Lemma root_launchable : launchable bare (sample_process "root" None 100).
Proof.
  split; try done. by split; [left|].
Qed.

Lemma with_root_ledger : ledger_inv with_root.
Proof.
  destruct (on_base (insert_process "t1" (sample_process "root" None 100)) bare) as [s r] eqn:E.
  unfold with_root. rewrite E. by eapply launch_ledger; [apply bare_ledger|apply root_launchable|].
Qed.

Lemma with_share_ledger : ledger_inv with_share.
Proof.
  destruct (reserve_child_budget 2 9 "t2" "root" "kid" (tokens_budget 40) with_root) as [s r] eqn:E.
  unfold with_share. rewrite E. eapply (reserve_child_ledger 2 9); [lia|apply with_root_ledger| | |exact E].
  - apply budget_validated_ok. by vm_compute.
  - intros crow Hc. exfalso. revert Hc. by vm_compute.
Qed.

Definition kid_share : ResourceReservation :=
  {| res_parent_pid := "root"; res_child_pid := "kid"; reserved := {["max_llm_total_tokens" := NInt 40]};
     res_created_at := "t2"; res_updated_at := "t2" |}.

Lemma with_share_rows : reservations with_share = {[("root", "kid") := kid_share]}.
Proof. vm_compute. reflexivity. Qed.

Lemma kid_launchable : launchable with_share (sample_process "kid" (Some "root") 40).
Proof.
  split; [by split; [left|]| |done|by vm_compute| | |].
  - intros q [= <-]. vm_compute. eauto.
  - intros id r Hr. exfalso. revert Hr. change (usage_reservations with_share) with (∅ : gmap string ResourceUsageReservation).
    by rewrite lookup_empty.
  - intros c. rewrite with_share_rows. apply lookup_singleton_ne. by intros [=].
  - intros a f Hf. unfold share_of. rewrite with_share_rows.
    destruct (decide (a = "root")) as [->|Hne].
    + change (pid (sample_process "kid" (Some "root") 40)) with "kid". rewrite lookup_singleton_eq.
      intros Hpos. split; [done|]. by destruct f; vm_compute in Hpos |- *.
    + rewrite lookup_singleton_ne by (intros E; apply Hne; congruence). intros Hpos. by apply Z.lt_irrefl in Hpos.
Qed.

Lemma family_ledger : ledger_inv family.
Proof.
  destruct (on_base (insert_process "t3" (sample_process "kid" (Some "root") 40)) with_share) as [s r] eqn:E.
  unfold family. rewrite E. by eapply launch_ledger; [apply with_share_ledger|apply kid_launchable|].
Qed.

(** ** Witnesses *)

Lemma discrete_tokens n : discrete (tokens n).
Proof. intros g Hg. by destruct g. Qed.

Lemma tokens_reservable n f : relevant (_nonzero_fields (tokens n)) f = true → reservable f = true.
Proof.
  unfold relevant. intros H. apply existsb_exists in H as (g & Hg & Hin). apply bool_decide_eq_true in Hin.
  unfold _nonzero_fields in Hin. apply list_elem_of_In, filter_In in Hin as [_ Hz].
  destruct g; try discriminate Hz. by destruct f; cbn in Hg; repeat destruct Hg as [Hg|Hg]; try discriminate Hg.
Qed.

Lemma no_evidence_quiet s amb pm process current rev :
  quiet (@post_exec_completion_check no_evidence s amb pm process current rev).
Proof. by apply quiet_Err. Qed.

Lemma run_Ok {S A} (x : S * res A) : is_Ok (snd x) = true → ∃ s' r, x = (s', Ok r).
Proof. destruct x as [s' [r|e]]; [eauto|done]. Qed.

Definition nonce (p : string) : string := "nonce".
Abbreviation charge_tokens p n := (charge (H := no_evidence) 2 9 demo_dumps host "t4" nonce None None p
                                      (UsageObject (tokens n)) "tool" false true).

(** Ten tokens go through; fifty are refused at the child. *)
Lemma charge_is_atomic_witness :
  (∃ s', charge_tokens "kid" 10 family = (s', Ok tt) ∧ ledger_inv s'
     ∧ charged_tree_usage "kid" (tokens 10) family s')
  ∧ ∃ s' e t, charge_tokens "kid" 50 family = (s', Err e) ∧ s' = set_base (set_takeover t (base family)) family.
Proof.
  split.
  - destruct (run_Ok (charge_tokens "kid" 10 family)) as (s' & [] & E); [by vm_compute|].
    exists s'. split; [exact E|].
    exact (charge_is_atomic 2 9 ltac:(lia) (H := no_evidence) demo_dumps nonce host "t4" None None "kid"
      (UsageObject (tokens 10)) (tokens 10) "tool" true family s' (Ok tt) family_ledger ltac:(by vm_compute)
      (discrete_tokens 10) ltac:(by vm_compute) E).
  - assert (Hno : is_Ok (snd (charge_tokens "kid" 50 family)) = false) by (vm_compute; reflexivity).
    destruct (charge_tokens "kid" 50 family) as [s' r] eqn:E.
    destruct (charge_is_atomic 2 9 ltac:(lia) (H := no_evidence) demo_dumps nonce host "t4" None None "kid"
      (UsageObject (tokens 50)) (tokens 50) "tool" true family s' r family_ledger ltac:(by vm_compute)
      (discrete_tokens 50) ltac:(by vm_compute) E) as [_ Hr].
    destruct r as [[]|e]; [|destruct Hr as [t Ht]; exists s', e, t; split; [reflexivity|exact Ht]].
    discriminate Hno.
Defined.

(** An envelope of 30 tokens at the child. *)
Definition reserved_family : RStore :=
  fst (reserve_usage 2 9 "t4" "kid" (UsageObject (tokens 30)) "llm" "env" "effect" family).

Lemma reserved_ledger : ledger_inv reserved_family.
Proof.
  destruct (reserve_usage 2 9 "t4" "kid" (UsageObject (tokens 30)) "llm" "env" "effect" family) as [s r] eqn:E.
  unfold reserved_family. rewrite E.
  eapply (reserve_usage_ledger 2 9 ltac:(lia) "t4" "kid" (UsageObject (tokens 30)) (tokens 30) "llm" "env" "effect" family);
    [apply family_ledger|by vm_compute|apply discrete_tokens|by vm_compute|exact E].
Qed.

Lemma settles_tokens s n : settles_plainly s "env" (Actual (UsageObject (tokens n))).
Proof.
  intros row d _ _ E. cbn [settlement_usage] in E. apply bind_Ok in E as (u & Hu & E). apply bind_Ok in E as (_ & _ & [= <-]).
  cbn [_coerce_usage] in Hu. apply bind_Ok in Hu as (_ & _ & [= <-]).
  split; [apply discrete_tokens|apply tokens_reservable].
Qed.

Abbreviation settle_tokens n := (settle_usage_reservation (H := no_evidence) 2 9 demo_dumps host "t5" nonce None None "env"
                                   (Actual (UsageObject (tokens n))) "llm").


Abbreviation managed := (manages 2 9 (H := no_evidence) demo_dumps nonce).

Lemma root_launched : managed bare with_root.
Proof. eapply (manages_launch _ _ _ _ "t1"), surjective_pairing. apply root_launchable. Qed.

Lemma share_granted : managed with_root with_share.
Proof.
  eapply (manages_share _ _ _ _ "t2" "root" "kid" (tokens_budget 40)), surjective_pairing; [by vm_compute|].
  intros crow Hc. exfalso. revert Hc. by vm_compute.
Qed.

Lemma kid_launched : managed with_share family.
Proof. eapply (manages_launch _ _ _ _ "t3"), surjective_pairing. apply kid_launchable. Qed.

Lemma envelope_reserved : managed family reserved_family.
Proof.
  eapply (manages_reserve _ _ _ _ "t4" "kid" (UsageObject (tokens 30)) (tokens 30)), surjective_pairing;
    [by vm_compute|apply discrete_tokens|by vm_compute].
Qed.

Lemma family_history s' u : settle_tokens 20 reserved_family = (s', Ok u) → rtc managed bare s'.
Proof.
  intros E. eapply rtc_l; [exact root_launched|]. eapply rtc_l; [exact share_granted|].
  eapply rtc_l; [exact kid_launched|]. eapply rtc_l; [exact envelope_reserved|].
  eapply rtc_once, manages_settle; [| |exact E]; [by vm_compute|apply settles_tokens].
Qed.

Definition settled_family : RStore := fst (settle_tokens 20 reserved_family).

Lemma settled_family_run : settle_tokens 20 reserved_family = (settled_family, Ok (tokens 20)).
Proof.
  unfold settled_family. rewrite (surjective_pairing (settle_tokens 20 reserved_family)) at 1.
  assert (Hs : snd (settle_tokens 20 reserved_family) = Ok (tokens 20)) by (vm_compute; reflexivity).
  rewrite Hs. reflexivity.
Qed.

Lemma settled_root : ∃ row, processes (base settled_family) !! "root" = Some row
  ∧ uval (resource_usage row) max_llm_total_tokens = 20%Z
  ∧ bget (resource_budget row) max_llm_total_tokens = Some (NInt 100).
Proof.
  assert (Hrow : match processes (base settled_family) !! "root" with
     | Some row => bool_decide (uval (resource_usage row) max_llm_total_tokens = 20%Z
                                ∧ bget (resource_budget row) max_llm_total_tokens = Some (NInt 100))
     | None => false end = true) by (vm_compute; reflexivity).
  destruct (processes (base settled_family) !! "root") as [row|]; [|discriminate Hrow].
  apply bool_decide_eq_true in Hrow as [Hu Hb]. exists row. split_and!; [reflexivity|exact Hu|exact Hb].
Qed.

(** A charge that skips its preflight and does not fit goes past the limit. *)
Example overage_overcommits :
  option_map (fun row => uval (resource_usage row) max_llm_total_tokens)
    (processes (base (fst (charge (H := no_evidence) 2 9 demo_dumps host "t6" nonce None None "root"
       (UsageObject (tokens 200)) "git" true false settled_family))) !! "root")
  = Some 220%Z.
Proof. vm_compute. reflexivity. Qed.


(** *** The preflight *)

Definition kid_chain : list AgentProcess := match _process_chain "kid" family with Ok l => l | Err _ => [] end.

Lemma kid_chain_at : chain_at (processes (base family)) "kid" kid_chain.
Proof.
  apply chain_run_Ok; [apply family_ledger|]. unfold kid_chain.
  assert (Hok : is_Ok (_process_chain "kid" family) = true) by (vm_compute; reflexivity).
  destruct (_process_chain "kid" family); [reflexivity|discriminate Hok].
Qed.

Lemma kid_merges n : n = 10%Z ∨ n = 50%Z → ∀ row, row ∈ kid_chain → is_Ok (_merge_usage (resource_usage row) (tokens n)) = true.
Proof.
  intros Hn.
  assert (Hall : forallb (fun row => is_Ok (_merge_usage (resource_usage row) (tokens n))) kid_chain = true)
    by (destruct Hn as [-> | ->]; vm_compute; reflexivity).
  intros row Hin. rewrite forallb_forall in Hall. by apply Hall, list_elem_of_In.
Qed.

(** Ten tokens fit at the child and at the root; fifty do not. *)
Lemma preflight_exact_witness :
  ¬ ¬ along (fits family (universe family) (tokens 10)) None kid_chain
  ∧ ¬ along (fits family (universe family) (tokens 50)) None kid_chain.
Proof.
  split; intros Hfit.
  - assert (Hok : is_Ok (snd (preflight 2 9 "kid" (UsageObject (tokens 10)) family)) = true) by (vm_compute; reflexivity).
    destruct (preflight 2 9 "kid" (UsageObject (tokens 10)) family) as [s' r] eqn:E.
    destruct (preflight_exact 2 9 ltac:(lia) family "kid" (UsageObject (tokens 10)) (tokens 10) kid_chain s' r
      (li_tables _ family_ledger) ltac:(by vm_compute) (discrete_tokens 10) ltac:(by vm_compute) kid_chain_at
      (kid_merges 10 (or_introl eq_refl)) E) as [_ Hno].
    destruct (Hno Hfit) as (e & -> & _). discriminate Hok.
  - assert (Hok : is_Ok (snd (preflight 2 9 "kid" (UsageObject (tokens 50)) family)) = false) by (vm_compute; reflexivity).
    destruct (preflight 2 9 "kid" (UsageObject (tokens 50)) family) as [s' r] eqn:E.
    destruct (preflight_exact 2 9 ltac:(lia) family "kid" (UsageObject (tokens 50)) (tokens 50) kid_chain s' r
      (li_tables _ family_ledger) ltac:(by vm_compute) (discrete_tokens 50) ltac:(by vm_compute) kid_chain_at
      (kid_merges 50 (or_intror eq_refl)) E) as [Hyes _].
    destruct (Hyes Hfit) as [-> _]. discriminate Hok.
Defined.

(** *** Recovery *)

Lemma recovery_releases_undispatched_witness :
  ∃ s' summary, recover_usage_reservations 2 9 (H := no_evidence) demo_dumps host "t9" nonce None None 5 (Ok tt) reserved_family
      = (s', Ok summary)
    ∧ total_count summary = 1%Z ∧ sample_ids summary = ["env"] ∧ active_rows s' = [].
Proof.
  destruct (recovery_releases_undispatched 2 9 ltac:(lia) (H := no_evidence) demo_dumps host "t9" nonce None None
    ltac:(by vm_compute) 5 reserved_family) as (s' & E & Hnil & _).
  - exact (tb_usage _ (li_tables _ reserved_ledger)).
  - intros r _. unfold not_dispatched. change (effect_states reserved_family) with (∅ : gmap string string).
    rewrite lookup_empty. reflexivity.
  - apply Nat.ltb_lt. vm_compute. reflexivity.
  - assert (Ha : map reservation_id (active_rows reserved_family) = ["env"]) by (vm_compute; reflexivity).
    eexists s', _. split; [exact E|]. cbn [total_count sample_ids]. rewrite <-(length_map reservation_id), Ha.
    split_and!; [reflexivity|reflexivity|exact Hnil].
Defined.

(** *** A Task-Run process *)

Definition task_row : AgentProcess :=
  let d := demo_process "job" RUNNING in
  {| pid := "job"; parent_pid := None; image_id := image_id d; status := RUNNING; goal_oid := goal_oid d;
     memory_view := memory_view d; capabilities := capabilities d; loaded_skills := loaded_skills d;
     tool_table := tool_table d; event_cursor := event_cursor d; checkpoint_head := checkpoint_head d;
     resource_budget := tokens_budget 10; resource_usage := usage_zero; created_at := created_at d;
     updated_at := updated_at d; working_directory := working_directory d; status_message := status_message d;
     wait_state := None; outcome := None; state_generation := 0;
     llm_profile_id := llm_profile_id d; model_tool_table := model_tool_table d; revision := 0;
     execution_generation := 1; execution_owner_id := Some "worker"; execution_lease_id := Some "lease";
     task_run_id := Some "run"; task_run_epoch := Some 1%Z; task_run_role := Some "root" |}.

Definition with_job : RStore := fst (on_base (insert_process "t1" task_row) bare).

Lemma with_job_inv : store_inv (base with_job).
Proof.
  destruct (on_base (insert_process "t1" task_row) bare) as [s r] eqn:E. unfold with_job. rewrite E.
  apply on_base_run in E as [E _]. cbn [fst].
  refine (le_inv _ _ (insert_preserves (fun x => x) "t1" task_row _ _ _ _ (tb_store _ (li_tables _ bare_ledger)) E) (tb_store _ (li_tables _ bare_ledger))).
  split; [right; by split_and!|by vm_compute].
Qed.

Lemma with_job_tree : _descendant_tree "job" with_job = Ok [task_row] ∧ processes (base with_job) !! "job" = Some task_row.
Proof. split; vm_compute; reflexivity. Qed.

Lemma limit_kill_spares_task_runs_witness :
  ∃ s' e, _persist_resource_limit_kill (H := no_evidence) demo_dumps host "t2" nonce "job" "limit" with_job = (s', Err e)
    ∧ processes (base s') !! "job" = Some task_row ∧ status task_row = RUNNING.
Proof.
  destruct (_persist_resource_limit_kill (H := no_evidence) demo_dumps host "t2" nonce "job" "limit" with_job) as [s' r] eqn:E.
  destruct (limit_kill_spares_task_runs (H := no_evidence) demo_dumps nonce host "t2" "job" "limit" [task_row] task_row with_job s' r
    with_job_inv (proj1 with_job_tree) ltac:(left) ltac:(by intros h ->%list_elem_of_singleton) (proj2 with_job_tree)
    ltac:(split_and!; [done|eexists; reflexivity..]) E) as (e & t & -> & ->).
  exists (set_base (set_takeover t (base with_job)) with_job), e. split; [reflexivity|]. split; [exact (proj2 with_job_tree)|reflexivity].
Defined.
