(* ===== verification/JsonColumn.v ===== *)
(** * JSON columns

    [utils/serde.py]: what a JSON column holds after [dumps] and [loads], and
    that storing it again changes nothing. *)

From S2P Require Import Prelude PyStr PyVal AuthorityRules.
From stdpp Require Import sorting.

(** ** Sorting by a text *)

Section SortItems.
Context {V : Type} (key : V → string).

Fixpoint insert_item (x : V) (l : list V) : list V :=
  match l with
  | [] => [x]
  | y :: l' => if str_leb (key x) (key y) then x :: y :: l' else y :: insert_item x l'
  end.

(** [sort_keys]: stable, and on the keys only. *)
Definition sort_items (l : list V) : list V := foldr insert_item [] l.

Definition items_le (a b : V) : Prop := str_le (key a) (key b).

Lemma insert_item_perm x l : insert_item x l ≡ₚ x :: l.
Proof.
  induction l as [|y l IH]; cbn; [done|]. destruct (str_leb _ _); [done|]. rewrite IH. by constructor.
Qed.

Lemma sort_items_perm l : sort_items l ≡ₚ l.
Proof. induction l as [|x l IH]; cbn; [done|]. by rewrite insert_item_perm, IH. Qed.

Lemma insert_item_sorted x l : Sorted items_le l → Sorted items_le (insert_item x l).
Proof.
  induction 1 as [|y l Hs IH Hhd]; cbn; [by repeat constructor|].
  destruct (str_leb (key x) (key y)) eqn:E; [by repeat constructor|].
  constructor; [done|].
  assert (items_le y x) as Hyx by (destruct (str_le_total (key y) (key x)) as [|Hx]; [done|]; unfold str_le in Hx; congruence).
  destruct l as [|z l]; cbn; [by constructor|].
  destruct (str_leb (key x) (key z)); constructor; [done|]. by inversion Hhd.
Qed.

Lemma sort_items_sorted l : Sorted items_le (sort_items l).
Proof. induction l; cbn; [constructor|by apply insert_item_sorted]. Qed.

Lemma sort_items_id l : Sorted items_le l → sort_items l = l.
Proof.
  induction 1 as [|x l Hs IH Hhd]; [done|].
  change (insert_item x (sort_items l) = x :: l). rewrite IH. destruct Hhd as [|y l Hxy]; cbn; [done|].
  unfold items_le, str_le in Hxy. by rewrite Hxy.
Qed.

Lemma sort_items_idem l : sort_items (sort_items l) = sort_items l.
Proof. apply sort_items_id, sort_items_sorted. Qed.
End SortItems.

(** ** Values *)

(** A key [json.dumps] accepts. *)
Definition json_key (k : pyval) : bool :=
  match k with PStr _ | PBool _ | PInt _ | PFloat _ | PNone => true | _ => false end.

(** The keys of a dict can be sorted: texts, numbers, or a single one. *)
Definition sortable_keys (ks : list pyval) : bool :=
  forallb is_str ks || forallb (fun k => bool_decide (is_Some (num_of k))) ks
  || (length ks <=? 1) && forallb json_key ks.

(** [json.dumps(value, sort_keys=True)] does not raise. *)
Fixpoint json_dumpable (v : pyval) : bool :=
  match v with
  | PNone | PBool _ | PInt _ | PFloat _ | PStr _ => true
  | PSet _ => false
  | PList l | PTuple l => forallb json_dumpable l
  | PDict kvs => sortable_keys (map fst kvs) && forallb (fun kv => json_dumpable (snd kv)) kvs
  end.

Definition key_text (kv : pyval * pyval) : string := match fst kv with PStr s => s | _ => "" end.

(** [sorted] on texts, on numbers, and on at most one value; the mixed lists it
    orders by their first difference are refused here. *)
Definition num_before (a b : pyval) : bool :=
  match num_of a, num_of b with Some x, Some y => num_leb x y | _, _ => true end.

Fixpoint insert_num (x : pyval) (l : list pyval) : list pyval :=
  match l with
  | [] => [x]
  | y :: l' => if num_before x y then x :: y :: l' else y :: insert_num x l'
  end.

Definition text_of (v : pyval) : string := match v with PStr s => s | _ => "" end.

Definition py_sorted (l : list pyval) : res (list pyval) :=
  if forallb is_str l then Ok (sort_items text_of l)
  else if forallb (fun v => bool_decide (is_Some (num_of v))) l then Ok (foldr insert_num [] l)
  else if length l <=? 1 then Ok l
  else Err (TypeError "'<' not supported between instances").

Lemma insert_num_perm x l : insert_num x l ≡ₚ x :: l.
Proof. induction l as [|y l IH]; cbn; [done|]. destruct (num_before x y); [done|]. rewrite IH. by constructor. Qed.

Lemma py_sorted_perm l l' : py_sorted l = Ok l' → l' ≡ₚ l.
Proof.
  unfold py_sorted. destruct (forallb is_str l); [intros [= <-]; apply sort_items_perm|].
  destruct (forallb _ l); [intros [= <-]|destruct (_ <=? _); [by intros [= <-]|done]].
  induction l as [|x l IH]; cbn; [done|]. by rewrite insert_num_perm, IH.
Qed.

Section Json.
Variable str_other : pyval → string.

(** [loads(dumps(value))]: keys become texts, tuples lists and sets sorted
    lists, and a float must be finite. *)
Fixpoint json_stored (v : pyval) : res pyval :=
  match v with
  | PFloat f => if sf_finite f then Ok v else Err (ValueError "Out of range float values are not JSON compliant")
  | PList l | PTuple l => l' ← mapR json_stored l; Ok (PList l')
  | PSet l => l' ← mapR json_stored l; l'' ← py_sorted l'; Ok (PList l'')
  | PDict kvs =>
      items ← mapR (fun kv => x ← json_stored (snd kv); Ok (PStr (py_str str_other (fst kv)), x)) kvs;
      Ok (PDict (sort_items key_text items))
  | _ => Ok v
  end.

(** [_capability_json_object]: the column's object can be serialized. *)
Definition _capability_json_object (label : string) (d : list (string * pyval)) : res unit :=
  raise_if (negb (forallb (fun kv => json_dumpable (snd kv)) d))
    (ValueError ("capability " +:+ label +:+ " must be JSON-serializable")).

(** What the column holds. *)
Definition json_column (d : list (string * pyval)) : res (list (string * pyval)) :=
  items ← mapR (fun kv => x ← json_stored (snd kv); Ok (fst kv, x)) d;
  Ok (sort_items fst items).

(** The texts of two stored values are equal. *)
Fixpoint same_json (a b : pyval) {struct a} : bool :=
  match a, b with
  | PNone, PNone => true
  | PBool x, PBool y => Bool.eqb x y
  | PInt x, PInt y => (x =? y)%Z
  | PFloat x, PFloat y => bool_decide (x = y)
  | PStr x, PStr y => String.eqb x y
  | PList l, PList m =>
      (fix go (l m : list pyval) : bool :=
         match l, m with
         | [], [] => true
         | x :: l', y :: m' => same_json x y && go l' m'
         | _, _ => false
         end) l m
  | PDict d, PDict e =>
      (fix go (d e : list (pyval * pyval)) : bool :=
         match d, e with
         | [], [] => true
         | (k, v) :: d', (k', v') :: e' => same_json k k' && same_json v v' && go d' e'
         | _, _ => false
         end) d e
  | _, _ => false
  end.

(** ** Storing twice *)

Lemma pyval_nested_ind (P : pyval → Prop)
    (Hnone : P PNone) (Hbool : ∀ b, P (PBool b)) (Hint : ∀ z, P (PInt z)) (Hfloat : ∀ f, P (PFloat f))
    (Hstr : ∀ s, P (PStr s)) (Hlist : ∀ l, Forall P l → P (PList l)) (Htuple : ∀ l, Forall P l → P (PTuple l))
    (Hset : ∀ l, Forall P l → P (PSet l)) (Hdict : ∀ kvs, Forall (fun kv => P (snd kv)) kvs → P (PDict kvs)) v : P v.
Proof.
  revert v. fix IH 1. intros [|b|z|f|s|l|l|l|kvs].
  - exact Hnone.
  - apply Hbool.
  - apply Hint.
  - apply Hfloat.
  - apply Hstr.
  - apply Hlist. induction l; constructor; [apply IH|done].
  - apply Htuple. induction l; constructor; [apply IH|done].
  - apply Hset. induction l; constructor; [apply IH|done].
  - apply Hdict. induction kvs as [|[k w]]; constructor; [apply IH|done].
Qed.

(** A stored value: it can be dumped, and storing it gives it back. *)
Definition canonical_json (v : pyval) : Prop := json_dumpable v = true ∧ json_stored v = Ok v.

Lemma stored_items l l' :
  Forall (fun v => ∀ v', json_stored v = Ok v' → canonical_json v') l →
  mapR json_stored l = Ok l' → Forall canonical_json l'.
Proof.
  intros Hl E. apply mapR_Ok in E. revert Hl.
  induction E as [|x y l l' Exy _ IH]; intros Hl; constructor; inversion Hl; subst; auto.
Qed.

Lemma list_canonical l' : Forall canonical_json l' → canonical_json (PList l').
Proof.
  intros Hc. split; cbn.
  - apply forallb_forall. intros x Hx%list_elem_of_In. rewrite Forall_forall in Hc. by apply Hc.
  - rewrite mapR_id; [done|]. eapply Forall_impl; [exact Hc|]. by intros x [_ Hx].
Qed.

Lemma stored_dict kvs items :
  Forall (fun kv => ∀ v', json_stored (snd kv) = Ok v' → canonical_json v') kvs →
  mapR (fun kv => x ← json_stored (snd kv); Ok (PStr (py_str str_other (fst kv)), x)) kvs = Ok items →
  canonical_json (PDict (sort_items key_text items)).
Proof.
  intros Hl E. apply mapR_Ok in E.
  assert (Forall (fun kv => is_str (fst kv) = true ∧ canonical_json (snd kv)) items) as Hc.
  { revert Hl. induction E as [|x y l l' Exy _ IH]; intros Hl; constructor; inversion Hl; subst; auto.
    apply bind_Ok in Exy as (w & Hw & [= <-]). split; [done|]. by apply H1. }
  assert (Forall (fun kv => is_str (fst kv) = true ∧ canonical_json (snd kv)) (sort_items key_text items)) as Hs
    by (by rewrite sort_items_perm).
  rewrite Forall_forall in Hs. split; cbn.
  - apply andb_true_iff. split.
    + unfold sortable_keys. apply orb_true_iff. left. apply orb_true_iff. left.
      apply forallb_forall. intros k Hk. apply in_map_iff in Hk as (kv & <- & Hkv). by apply Hs, list_elem_of_In.
    + apply forallb_forall. intros kv Hkv. by apply Hs, list_elem_of_In.
  - rewrite mapR_id; [rewrite res_bind_ok; by rewrite sort_items_idem|].
    apply Forall_forall. intros [k w] Hkv. destruct (Hs _ Hkv) as [Hk [_ Hw]]. cbn in *. rewrite Hw. by destruct k.
Qed.

Lemma stored_canonical v v' : json_stored v = Ok v' → canonical_json v'.
Proof.
  revert v'. induction v using pyval_nested_ind; intros v'; cbn; try (by intros [= <-]).
  - destruct (sf_finite f) eqn:E; [|done]. intros [= <-]. by split; cbn; [|rewrite E].
  - intros (l' & E & [= <-])%bind_Ok. eapply list_canonical, stored_items; done.
  - intros (l' & E & [= <-])%bind_Ok. eapply list_canonical, stored_items; done.
  - intros (l' & E & Es)%bind_Ok. apply bind_Ok in Es as (l2 & Hp%py_sorted_perm & [= <-]).
    apply list_canonical. rewrite Hp. by eapply stored_items.
  - intros (l' & E & [= <-])%bind_Ok. by eapply stored_dict.
Qed.

(** A column read back is dumped and stored as it is. *)
Lemma json_column_stable d d' :
  json_column d = Ok d' → forallb (fun kv => json_dumpable (snd kv)) d' = true ∧ json_column d' = Ok d'.
Proof.
  unfold json_column. intros (items & E & [= <-])%bind_Ok. apply mapR_Ok in E.
  assert (Forall (fun kv => canonical_json (snd kv)) items) as Hc.
  { induction E as [|x y l l' Exy _ IH]; constructor; [|done].
    apply bind_Ok in Exy as (w & Hw & [= <-]). by eapply stored_canonical. }
  assert (Forall (fun kv => canonical_json (snd kv)) (sort_items fst items)) as Hs by (by rewrite sort_items_perm).
  rewrite Forall_forall in Hs. split.
  - apply forallb_forall. intros kv Hkv. by apply Hs, list_elem_of_In.
  - rewrite mapR_id; [rewrite res_bind_ok; by rewrite sort_items_idem|].
    apply Forall_forall. intros [k w] Hkv. destruct (Hs _ Hkv) as [_ Hw]. cbn in *. by rewrite Hw.
Qed.

(** An entry can be dropped from a stored column. *)
Lemma json_column_filter (b : string * pyval → bool) d :
  json_column d = Ok d → json_column (List.filter b d) = Ok (List.filter b d).
Proof.
  unfold json_column. intros (items & E & Hi)%bind_Ok. injection Hi as Hi. apply mapR_Ok in E.
  assert (∀ kv, kv ∈ d → canonical_json (snd kv)) as Hc.
  { assert (Forall (fun kv => canonical_json (snd kv)) items) as Ha.
    { clear Hi. induction E as [|x y l l' Exy _ IH]; constructor; [|done].
      apply bind_Ok in Exy as (w & Hw & [= <-]). by eapply stored_canonical. }
    rewrite <-(sort_items_perm fst), Hi in Ha. by apply Forall_forall. }
  rewrite mapR_id.
  2:{ apply Forall_forall. intros [k w] Hkv. apply list_elem_of_In, filter_In in Hkv as [Hkv%list_elem_of_In _].
      destruct (Hc _ Hkv) as [_ Hw]. cbn in *. by rewrite Hw. }
  rewrite res_bind_ok. f_equal. apply sort_items_id.
  assert (Sorted (items_le fst) d) as Hd by (rewrite <-Hi; apply sort_items_sorted).
  apply StronglySorted_Sorted. apply Sorted_StronglySorted in Hd; [|unfold items_le; intros ???; by transitivity (fst y)].
  clear -Hd. induction Hd as [|x l Hs IH Hx]; cbn; [constructor|]. destruct (b x); [|done].
  constructor; [done|]. apply Forall_forall. intros y Hy%list_elem_of_In. apply filter_In in Hy as [Hy%list_elem_of_In _].
  by rewrite Forall_forall in Hx; apply Hx.
Qed.
End Json.
