(* ===== verification/CapabilityTables.v ===== *)
(** * Capability tables

    The tables of [storage/sql.py] behind the capability services: the
    [capabilities] rows and the [capability_use_reservations], with the reads
    and the conditional updates on them.

    Rows are kept decoded; a read validates again, as the code does.  A JSON
    column holds what [loads] returns for the text [dumps] wrote.  Audit, event
    and operation-evidence rows are kept as a log of their keys: their payload
    never influences the program, and the sinks are taken not to fail. *)

From S2P Require Import Prelude PyStr PyVal PyEnum ProcessState ProcessModel ProcessStore CapabilityModel AuthorityRules CapabilityEvaluator JsonColumn.
From stdpp Require Import sorting.

(** ** Rights *)

Module CapabilityRight.
Inductive CapabilityRight : Set :=
| READ | WRITE | EXECUTE | LINK | DIFF | MATERIALIZE | DELETE | GRANT | REVOKE | APPROVE | ADMIN.
End CapabilityRight.
Abbreviation CapabilityRight := CapabilityRight.CapabilityRight.

#[export] Instance right_eq_dec : EqDecision CapabilityRight.
Proof. solve_decision. Defined.

#[export] Instance right_enum : StrEnum CapabilityRight := {
  enum_members := [CapabilityRight.READ; CapabilityRight.WRITE; CapabilityRight.EXECUTE;
                   CapabilityRight.LINK; CapabilityRight.DIFF; CapabilityRight.MATERIALIZE;
                   CapabilityRight.DELETE; CapabilityRight.GRANT; CapabilityRight.REVOKE;
                   CapabilityRight.APPROVE; CapabilityRight.ADMIN];
  enum_value r := match r with
    | CapabilityRight.READ => "read" | CapabilityRight.WRITE => "write"
    | CapabilityRight.EXECUTE => "execute" | CapabilityRight.LINK => "link"
    | CapabilityRight.DIFF => "diff" | CapabilityRight.MATERIALIZE => "materialize"
    | CapabilityRight.DELETE => "delete" | CapabilityRight.GRANT => "grant"
    | CapabilityRight.REVOKE => "revoke" | CapabilityRight.APPROVE => "approve"
    | CapabilityRight.ADMIN => "admin" end;
}.

#[export] Instance right_laws : StrEnumLaws CapabilityRight.
Proof. solve_enum. Qed.

(** A set of rights, as the sorted list of its members. *)
Definition right_set (rights : list string) : list string := merge_sort str_le (remove_dups rights).
#[global] Arguments right_set : simpl never.

Definition known_right (r : string) : bool :=
  bool_decide (is_Some (enum_of (E := CapabilityRight) (PStr r))).

Definition _validated_capability_rights (value : list string) : res (list string) :=
  _ ← raise_if (bool_decide (value = [])) (ValueError "capability rights must contain non-empty string rights");
  _ ← raise_if (negb (forallb known_right value)) (ValueError "capability rights contain an unknown right");
  Ok (right_set value).

Definition _persisted_capability_rights (value : list string) : res (list string) :=
  rights ← _validated_capability_rights value;
  _ ← raise_if (negb (length rights =? length value))
        (ValueError "persisted capability rights must not contain duplicates");
  Ok rights.

(** ** Scalars *)

Definition _positive_capability_use_count (value : Z) : res Z :=
  _ ← raise_if (value <? 1)%Z (ValueError "count must be a positive integer");
  Ok value.

Definition _capability_uses_remaining (value : option Z) (st : CapabilityStatus) : res (option Z) :=
  match value with
  | None => Ok None
  | Some u =>
      _ ← raise_if (u <? 0)%Z (ValueError "uses_remaining must be a non-negative integer");
      _ ← raise_if (bool_decide (st = CapabilityStatus.ACTIVE) && (u <? 1)%Z)
            (ValueError "active capability uses_remaining must be positive");
      Ok value
  end.

Definition _capability_authority_scalars (cap : Capability) : res unit :=
  _ ← raise_if (cap_delegation_depth cap <? 0)%Z
        (ValueError "delegation_depth must be a non-negative integer");
  match cap_max_delegation_depth cap with
  | None => Ok tt
  | Some m =>
      _ ← raise_if (m <? 0)%Z (ValueError "max_delegation_depth must be a non-negative integer");
      raise_if (m <? cap_delegation_depth cap)%Z
        (ValueError "max_delegation_depth cannot be less than delegation_depth")
  end.

(** ** State *)

Module UseStatus.
Inductive UseStatus : Set := reserved | committed | restored | invalidated | abandoned.
End UseStatus.
Abbreviation UseStatus := UseStatus.UseStatus.

#[export] Instance use_status_eq_dec : EqDecision UseStatus.
Proof. solve_decision. Defined.

(** A row of [capability_use_reservations]. *)
Record UseReservation : Set := {
  use_id : string;
  use_cap : string;
  use_count : Z;
  use_status : UseStatus;
  use_by : string;
  use_reason : string;
  use_created_at : string;
  use_updated_at : string;
}.

Definition use_settled (st : UseStatus) (now : string) (r : UseReservation) : UseReservation :=
  {| use_id := use_id r; use_cap := use_cap r; use_count := use_count r; use_status := st;
     use_by := use_by r; use_reason := use_reason r; use_created_at := use_created_at r;
     use_updated_at := now |}.

(** The columns the updates of this file write. *)
Definition with_state (u : option Z) (st : CapabilityStatus) (m : list (string * pyval))
    (c : Capability) : Capability :=
  {| cap_id := cap_id c; cap_subject := cap_subject c; cap_resource := cap_resource c;
     cap_rights := cap_rights c; cap_constraints := cap_constraints c;
     cap_issued_by := cap_issued_by c; cap_issued_at := cap_issued_at c;
     cap_expires_at := cap_expires_at c; cap_delegable := cap_delegable c;
     cap_revocable := cap_revocable c; cap_effect := cap_effect c;
     cap_issuer_cap_id := cap_issuer_cap_id c; cap_parent_cap_id := cap_parent_cap_id c;
     cap_delegation_depth := cap_delegation_depth c;
     cap_max_delegation_depth := cap_max_delegation_depth c;
     cap_uses_remaining := u; cap_status := st; cap_metadata := m |}.

Definition with_columns (rights : list string) (constraints metadata : list (string * pyval))
    (c : Capability) : Capability :=
  {| cap_id := cap_id c; cap_subject := cap_subject c; cap_resource := cap_resource c;
     cap_rights := rights; cap_constraints := constraints;
     cap_issued_by := cap_issued_by c; cap_issued_at := cap_issued_at c;
     cap_expires_at := cap_expires_at c; cap_delegable := cap_delegable c;
     cap_revocable := cap_revocable c; cap_effect := cap_effect c;
     cap_issuer_cap_id := cap_issuer_cap_id c; cap_parent_cap_id := cap_parent_cap_id c;
     cap_delegation_depth := cap_delegation_depth c;
     cap_max_delegation_depth := cap_max_delegation_depth c;
     cap_uses_remaining := cap_uses_remaining c; cap_status := cap_status c; cap_metadata := metadata |}.

(** Audit records, events, and the evidence linked to the current operation. *)
Inductive CapEvidence : Set :=
| CapAudit (actor action target : string) (refs : list string)
| CapEvent (type source target capability : string)
| CapExpect (role : string)
| CapLink (reservation role status : string)
| CapTrip (code : string).

Record CStore : Type := mkCStore {
  procs : Store;
  cap_rows : gmap string Capability;
  use_rows : gmap string UseReservation;
  (** [_semantic_authority_locally_tripped]: in memory, never rolled back. *)
  tripped : bool;
  trail : list CapEvidence;
}.

Definition set_procs (b : Store) (s : CStore) : CStore :=
  mkCStore b (cap_rows s) (use_rows s) (tripped s) (trail s).
Definition set_caps (f : gmap string Capability → gmap string Capability) (s : CStore) : CStore :=
  mkCStore (procs s) (f (cap_rows s)) (use_rows s) (tripped s) (trail s).
Definition set_uses (f : gmap string UseReservation → gmap string UseReservation) (s : CStore) : CStore :=
  mkCStore (procs s) (cap_rows s) (f (use_rows s)) (tripped s) (trail s).
Definition trip (s : CStore) : CStore := mkCStore (procs s) (cap_rows s) (use_rows s) true (trail s).
Definition attest (e : CapEvidence) : M CStore unit :=
  modify (fun s => mkCStore (procs s) (cap_rows s) (use_rows s) (tripped s) (trail s ++ [e])).

Definition viewing {A} (f : CStore → res A) : M CStore A := fun s => (s, f s).

(** The in-memory parts a rollback leaves alone. *)
Definition rolled_back (from to_ : CStore) : CStore :=
  mkCStore (set_takeover (takeover (procs from)) (procs to_)) (cap_rows to_) (use_rows to_)
    (tripped from) (trail to_).

(** [RuntimeStore.transaction()] and [_join_or_begin_transaction]. *)
Definition authority_unit {A} (m : M CStore A) : M CStore A := fun s =>
  match m s with
  | (s', Ok a) => (s', Ok a)
  | (s', Err e) => (rolled_back s' s, Err e)
  end.

(** An operation of the process store. *)
Definition on_procs {A} (m : M Store A) : M CStore A := fun s =>
  let '(b, r) := m (procs s) in (set_procs b s, r).

(** ** The host

    What the services are constructed with: configuration, the parts of the
    standard library and of other packages the evaluator and the JSON columns
    use, the identifiers [new_id] draws, the lifecycle admission check, and the
    semantic authority callbacks of the runtime. *)

Class CapabilityHost : Type := {
  max_rights_per_capability : nat;
  max_constraints_bytes : nat;
  default_delegation_depth : Z;
  list_limit : nat;
  use_recovery_page_size : nat;
  shell_policy_key : string;
  shell_policy_levels : list string;
  default_human_actor : string;
  str_other : pyval → string;
  float_of_str : string → option spec_float;
  regex_config : RegexConfig;
  regex_engine : RegexEngine;
  (** [SemanticApprovalBindingV2.from_dict(value).to_dict()]. *)
  semantic_binding : list (pyval * pyval) → res (list (pyval * pyval));
  payload_digest : list (string * pyval) → res string;
  binding_digest : list (pyval * pyval) → string;
  (** [datetime.fromisoformat] in UTC and [datetime.isoformat]. *)
  parse_time : string → option Z;
  format_time : Z → string;
  (** [len(json.dumps(value, sort_keys=True).encode())]. *)
  json_size : list (string * pyval) → option nat;
  (** [new_id(prefix)] with fresh randomness at every state. *)
  new_id : string → CStore → string;
  (** [revalidate_current_admission_if_present]. *)
  revalidate : CStore → res unit;
  (** The runtime's validator of semantic bindings, when it has one: binding,
      phase, capability, context, effect. *)
  semantic_validator : option (list (pyval * pyval) → string → Capability →
    list (pyval * pyval) → option string → res unit);
  (** The runtime observes semantic safety trips. *)
  trip_observed : bool;
}.

(** One call: the clock and the ambient scopes of the caller. *)
Record Call : Type := {
  call_now : Z;
  call_stamp : string;
  call_ambient : Ambient;
}.

Section Tables.
Context `{CapabilityHost}.

(** ** Rows *)

Definition decode_capability (row : Capability) : res Capability :=
  _ ← _capability_uses_remaining (cap_uses_remaining row) (cap_status row);
  _ ← _capability_authority_scalars row;
  rights ← _persisted_capability_rights (cap_rights row);
  _ ← raise_if (max_rights_per_capability <? length rights)
        (ValueError "persisted capability rights exceed configured limit");
  _ ← _capability_json_object "constraints" (cap_constraints row);
  _ ← _capability_json_object "metadata" (cap_metadata row);
  Ok (with_columns rights (cap_constraints row) (cap_metadata row) row).

Definition _row_to_capability (row : Capability) : res Capability :=
  _persisted_model_decode (decode_capability row).

(** The parameters of an INSERT or UPDATE of a whole row. *)
Definition capability_params (cap : Capability) : res Capability :=
  _ ← _capability_uses_remaining (cap_uses_remaining cap) (cap_status cap);
  rights ← _validated_capability_rights (cap_rights cap);
  _ ← _capability_json_object "constraints" (cap_constraints cap);
  _ ← _capability_json_object "metadata" (cap_metadata cap);
  _ ← raise_if (max_rights_per_capability <? length rights)
        (ValueError "capability rights exceed configured limit");
  _ ← _capability_authority_scalars cap;
  constraints ← json_column str_other (cap_constraints cap);
  metadata ← json_column str_other (cap_metadata cap);
  Ok (with_columns rights constraints metadata cap).

(** ** Reads *)

Definition get_capability (id : string) (s : CStore) : res (option Capability) :=
  match cap_rows s !! id with
  | None => Ok None
  | Some row => c ← _row_to_capability row; Ok (Some c)
  end.

(** [ORDER BY issued_at, cap_id], after [subject] when it is not fixed. *)
Definition issue_le (a b : Capability) : Prop :=
  cap_issued_at a ≠ cap_issued_at b ∧ str_le (cap_issued_at a) (cap_issued_at b)
  ∨ cap_issued_at a = cap_issued_at b ∧ str_le (cap_id a) (cap_id b).
Definition subject_le (a b : Capability) : Prop :=
  cap_subject a ≠ cap_subject b ∧ str_le (cap_subject a) (cap_subject b)
  ∨ cap_subject a = cap_subject b ∧ issue_le a b.

#[export] Instance issue_le_dec : RelDecision issue_le.
Proof. intros a b. unfold issue_le. apply _. Defined.
#[export] Instance subject_le_dec : RelDecision subject_le.
Proof. intros a b. unfold subject_le. apply _. Defined.

Definition all_rows (s : CStore) : list Capability := map snd (map_to_list (cap_rows s)).

Definition list_capabilities (subject : option string) (s : CStore) : res (list Capability) :=
  mapR _row_to_capability
    match subject with
    | None => merge_sort subject_le (all_rows s)
    | Some p => merge_sort issue_le (List.filter (fun c => String.eqb (cap_subject c) p) (all_rows s))
    end.

(** [SELECT ... WHERE cap_id = ?] after an update. *)
Definition updated_row (id : string) : M CStore (option Capability) := viewing (get_capability id).

(** ** Conditional updates *)

(** [UPDATE capabilities SET ... WHERE cap_id = ? AND ...]: whether a row was
    updated. *)
Definition update_where (id : string) (clause : Capability → bool) (f : Capability → Capability)
    : M CStore bool := fun s =>
  match cap_rows s !! id with
  | Some row => if clause row then (set_caps <[id := f row]> s, Ok true) else (s, Ok false)
  | None => (s, Ok false)
  end.

Definition update_use_where (id : string) (clause : UseReservation → bool)
    (f : UseReservation → UseReservation) : M CStore bool := fun s =>
  match use_rows s !! id with
  | Some row => if clause row then (set_uses <[id := f row]> s, Ok true) else (s, Ok false)
  | None => (s, Ok false)
  end.

Definition is_reserved (r : UseReservation) : bool := bool_decide (use_status r = UseStatus.reserved).

(** [UPDATE capability_use_reservations SET status = 'invalidated' WHERE
    cap_id = ? AND status = 'reserved']. *)
Definition invalidate_uses (id now : string) : M CStore unit :=
  modify (set_uses (fmap (fun r =>
    if String.eqb (use_cap r) id && is_reserved r then use_settled UseStatus.invalidated now r else r))).

(** An active finite row with [count] uses left. *)
Definition has_uses (count : Z) (c : Capability) : bool :=
  bool_decide (cap_status c = CapabilityStatus.ACTIVE)
  && match cap_uses_remaining c with Some u => (count <=? u)%Z | None => false end.

(** The last use revokes. *)
Definition take_uses (count : Z) (c : Capability) : Capability :=
  match cap_uses_remaining c with
  | Some u => with_state (Some (u - count)%Z)
                (if (u - count <=? 0)%Z then CapabilityStatus.REVOKED else cap_status c)
                (cap_metadata c) c
  | None => c
  end.

(** A finite row that is active or was revoked. *)
Definition restorable (c : Capability) : bool :=
  bool_decide (is_Some (cap_uses_remaining c))
  && bool_decide (cap_status c ∈ [CapabilityStatus.ACTIVE; CapabilityStatus.REVOKED]).

Definition give_uses (count : Z) (c : Capability) : Capability :=
  match cap_uses_remaining c with
  | Some u => with_state (Some (u + count)%Z)
                (if bool_decide (cap_status c = CapabilityStatus.REVOKED)
                 then CapabilityStatus.ACTIVE else cap_status c) (cap_metadata c) c
  | None => c
  end.

(** ** Operations *)

Definition insert_capability (cap : Capability) : M CStore unit :=
  row ← lift_res (capability_params cap);
  s ← get_state;
  _ ← lift_res (raise_if (bool_decide (is_Some (cap_rows s !! cap_id cap)))
        (IntegrityError "UNIQUE constraint failed: capabilities.cap_id"));
  modify (set_caps <[cap_id cap := row]>).

Definition consume_capability_uses (id : string) (count : Z) : M CStore (option Capability) :=
  count ← lift_res (_positive_capability_use_count count);
  authority_unit (
    updated ← update_where id (has_uses count) (take_uses count);
    if negb updated then mret None else updated_row id).

Definition reserve_capability_uses (id reservation : string) (count : Z)
    (reserved_by reason now : string) : M CStore (option Capability) :=
  count ← lift_res (_positive_capability_use_count count);
  authority_unit (
    updated ← update_where id (has_uses count) (take_uses count);
    if negb updated then mret None else
    s ← get_state;
    _ ← lift_res (raise_if (bool_decide (is_Some (use_rows s !! reservation)))
          (IntegrityError "UNIQUE constraint failed: capability_use_reservations.reservation_id"));
    _ ← modify (set_uses <[reservation :=
          {| use_id := reservation; use_cap := id; use_count := count;
             use_status := UseStatus.reserved; use_by := reserved_by; use_reason := reason;
             use_created_at := now; use_updated_at := now |}]>);
    updated_row id).

Definition settle_use (reservation : string) (st : UseStatus) (now : string) : M CStore bool :=
  update_use_where reservation is_reserved (use_settled st now).

Definition commit_capability_use_reservation (reservation now : string) : M CStore bool :=
  authority_unit (settle_use reservation UseStatus.committed now).

(** [except ValueError: raise ValidationError]. *)
Definition persisted_use_count (r : UseReservation) : res Z :=
  match _positive_capability_use_count (use_count r) with
  | Err (ValueError _) => Err (ValidationError "persisted capability reservation count must be a positive integer")
  | x => x
  end.

Definition restore_capability_use_reservation (reservation now : string)
    : M CStore (option Capability) :=
  authority_unit (
    s ← get_state;
    match use_rows s !! reservation with
    | None => mret None
    | Some row =>
        if negb (is_reserved row) then mret None else
        count ← lift_res (persisted_use_count row);
        restored ← update_where (use_cap row) restorable (give_uses count);
        if negb restored then
          _ ← settle_use reservation UseStatus.invalidated now;
          mret None
        else
          _ ← settle_use reservation UseStatus.restored now;
          updated_row (use_cap row)
    end).

(** A row that is not active takes its open reservations with it. *)
Definition update_capability (cap : Capability) (now : string) : M CStore unit :=
  row ← lift_res (capability_params cap);
  authority_unit (
    _ ← update_where (cap_id cap) (fun _ => true) (fun _ => row);
    if bool_decide (cap_status cap = CapabilityStatus.ACTIVE) then mret tt
    else invalidate_uses (cap_id cap) now).

Definition transition_capability_status (id : string) (expected st : CapabilityStatus)
    (metadata : list (string * pyval)) (now : string) : M CStore (option Capability) :=
  authority_unit (
    column ← lift_res (json_column str_other metadata);
    updated ← update_where id (fun c => bool_decide (cap_status c = expected))
      (fun c => with_state (cap_uses_remaining c) st column c);
    if negb updated then mret None else
    _ ← (if bool_decide (st = CapabilityStatus.ACTIVE) then mret tt else invalidate_uses id now);
    updated_row id).

(** [AuthorityRepository.delete_publication_capability]. *)
Definition delete_publication_capability (id : string) : M CStore unit :=
  authority_unit (
    _ ← modify (set_uses (filter (fun kr => use_cap (snd kr) ≠ id)));
    modify (set_caps (delete id))).

(** ** Settlement by the recovery of an external effect *)

(** [_external_effect_reservation_identity] gives [actor] and [contract]. *)
Definition effect_reason (contract : string) : string :=
  "protected operation reserved authority for " +:+ contract.

Definition bound_to (actor contract : string) (r : UseReservation) : bool :=
  String.eqb (use_by r) actor && String.eqb (use_reason r) (effect_reason contract).

Definition _restore_external_effect_capability_reservation (actor contract reservation now : string)
    : M CStore unit :=
  s ← get_state;
  row ← lift_res (of_option (ValidationError "external effect recovery capability reservation is missing")
                    (use_rows s !! reservation));
  _ ← lift_res (raise_if (negb (is_reserved row && bound_to actor contract row))
        (ValidationError "external effect recovery capability reservation binding changed"));
  count ← lift_res (persisted_use_count row);
  restored ← update_where (use_cap row) restorable (give_uses count);
  _ ← lift_res (raise_if (negb restored)
        (ValidationError "external effect recovery capability could not be restored"));
  changed ← settle_use reservation UseStatus.restored now;
  lift_res (raise_if (negb changed)
    (ValidationError "external effect recovery capability reservation raced")).

Definition _commit_external_effect_capability_reservation (actor contract reservation now : string)
    : M CStore unit :=
  s ← get_state;
  row ← lift_res (of_option (ValidationError "external effect recovery capability reservation is missing")
                    (use_rows s !! reservation));
  _ ← lift_res (raise_if (negb (bound_to actor contract row
          && bool_decide (use_status row ∈ [UseStatus.reserved; UseStatus.committed])))
        (ValidationError "external effect recovery capability reservation binding changed"));
  if negb (is_reserved row) then mret tt else
  changed ← settle_use reservation UseStatus.committed now;
  lift_res (raise_if (negb changed)
    (ValidationError "external effect recovery capability reservation raced")).

(** ** Abandoning what a crash left reserved *)

Definition use_ltb (a b : string * string) : bool :=
  str_ltb (fst a) (fst b) || String.eqb (fst a) (fst b) && str_ltb (snd a) (snd b).

Definition use_key (r : UseReservation) : string * string := (use_created_at r, use_id r).

Definition use_le (a b : UseReservation) : Prop := use_ltb (use_key b) (use_key a) = false.

#[export] Instance use_le_dec : RelDecision use_le.
Proof. intros a b. unfold use_le. apply _. Defined.

Definition reserved_after (after : option (string * string)) (r : UseReservation) : bool :=
  is_reserved r && match after with Some c => use_ltb c (use_key r) | None => true end.

Definition reserved_page (after : option (string * string)) (s : CStore) : list UseReservation :=
  take use_recovery_page_size
    (merge_sort use_le (List.filter (reserved_after after) (map snd (map_to_list (use_rows s))))).

(** The loop over one page. *)
Fixpoint abandon_rows (now : string) (total : Z) (sample : list string) (rows : list UseReservation)
    : M CStore (Z * list string) :=
  match rows with
  | [] => mret (total, sample)
  | r :: rest =>
      updated ← settle_use (use_id r) UseStatus.abandoned now;
      if (updated : bool)
      then abandon_rows now (total + 1)%Z
             (if length sample <? use_recovery_page_size then sample ++ [use_id r] else sample) rest
      else abandon_rows now total sample rest
  end.

Fixpoint abandon_pages (fuel : nat) (now : string) (after : option (string * string)) (total : Z)
    (sample : list string) : M CStore (Z * list string) :=
  match fuel with
  | O => raise (RuntimeError "page budget exhausted")
  | S fuel =>
      page ← authority_unit (
        rows ← viewing (fun s => Ok (reserved_page after s));
        result ← abandon_rows now total sample rows;
        mret (rows, result));
      match rev (fst page) with
      | [] => mret (snd page)
      | last_row :: _ => abandon_pages fuel now (Some (use_key last_row)) (fst (snd page)) (snd (snd page))
      end
  end.

(** [CapabilityUseReservationRecoverySummary]. *)
Definition use_recovery_summary (total : Z) (sample : list string) : res (Z * list string) :=
  _ ← raise_if (total <? 0)%Z (ValueError "capability reservation recovery total_count must be non-negative");
  _ ← raise_if (total <? Z.of_nat (length sample))%Z
        (ValueError "capability reservation recovery sample exceeds total");
  _ ← raise_if (existsb (fun i => String.eqb i "") sample)
        (ValueError "capability reservation recovery sample IDs must not be empty");
  Ok (total, sample).

Definition abandon_stale_capability_use_reservations (fuel : nat) (require_recovery_lease : res unit)
    (now : string) : M CStore (Z * list string) :=
  _ ← lift_res require_recovery_lease;
  result ← abandon_pages fuel now None 0 [];
  lift_res (use_recovery_summary (fst result) (snd result)).

(** ** Rollback of an exec publication *)

Definition EXEC_ROLLBACK_TOKEN_KEY : string := "_agent_libos_exec_rollback_token".

Definition owned_rows (p : string) (s : CStore) : list Capability :=
  List.filter (fun c => String.eqb (cap_subject c) p) (all_rows s).

Definition staged_under (token : string) (c : Capability) : bool :=
  bool_decide (cap_status c = CapabilityStatus.EXEC_REVOKED)
  && item_is (cap_metadata c) EXEC_ROLLBACK_TOKEN_KEY token.

(** The update of one row; the metadata it was read with is unchanged in the
    same transaction. *)
Definition restore_staged (p token : string) (before : list Capability) (current : Capability)
    : M CStore unit :=
  if negb (staged_under token current) then mret tt else
  match List.find (fun b => String.eqb (cap_id b) (cap_id current)) (rev before) with
  | None => mret tt
  | Some b =>
      _ ← update_where (cap_id current)
            (fun c => String.eqb (cap_subject c) p
                      && bool_decide (cap_status c = CapabilityStatus.EXEC_REVOKED))
            (fun c => with_state (cap_uses_remaining c) (cap_status b) (cap_metadata b) c);
      mret tt
  end.

Fixpoint for_each {A} (f : A → M CStore unit) (l : list A) : M CStore unit :=
  match l with [] => mret tt | x :: l' => _ ← f x; for_each f l' end.

Definition _restore_exec_revoked_capabilities (p : string) (before : list Capability)
    (rollback_token : option string) : M CStore unit :=
  match rollback_token with
  | None => mret tt
  | Some token =>
      if String.eqb token "" then mret tt else
      rows ← viewing (fun s => Ok (owned_rows p s));
      for_each (restore_staged p token before) rows
  end.

Definition exec_created (before : list Capability) (cleanup_object_oids : list string)
    (rollback_token : option string) (c : Capability) : bool :=
  negb (bool_decide (cap_id c ∈ map cap_id before))
  && bool_decide (cap_status c = CapabilityStatus.ACTIVE)
  && (match rollback_token with Some t => item_is (cap_metadata c) "runtime_publication_id" t | None => false end
      || existsb (fun oid => String.eqb (cap_resource c) ("object:" +:+ oid)) cleanup_object_oids).

Definition _remove_exec_created_capabilities (p : string) (before : list Capability)
    (cleanup_object_oids : list string) (rollback_token : option string) : M CStore unit :=
  rows ← viewing (fun s => Ok (owned_rows p s));
  for_each (fun c => if exec_created before cleanup_object_oids rollback_token c
                     then modify (set_caps (delete (cap_id c))) else mret tt) rows.
End Tables.
