(* ===== verification/CapabilityLease.v ===== *)
(** * Finite capability uses, mutations and authority transactions

    [capability/lease.py], [capability/mutation.py] and
    [capability/transaction.py]: consumption, reservation and settlement of
    finite uses, the durable mutations of capabilities, and the transaction
    that revalidates decisions, reserves their uses, runs a mutation and
    settles.

    The admission guard installed on the public methods is the check their
    bodies repeat inside the transaction. *)

From S2P Require Import Prelude PyStr PyVal PyEnum ProcessState ProcessModel ProcessStore ProcessWrites CapabilityModel CapabilityTables.

Section Lease.
Context `{CapabilityHost} `{ExecEvidence}.

(** [revalidate_admission]. *)
Definition revalidate_admission : M CStore unit := viewing revalidate.

Definition cap_not_found (id : string) : exn := NotFound ("capability not found: " +:+ id).
Definition use_exhausted (id : string) : exn := CapabilityDenied ("capability use exhausted: " +:+ id).

Definition _require_capability (id : string) : M CStore Capability :=
  found ← viewing (get_capability id);
  lift_res (of_option (cap_not_found id) found).

(** [_positive_count]. *)
Definition _positive_count (value : Z) (operation : string) : res Z :=
  _ ← raise_if (value <? 1)%Z
        (ValidationError ("capability " +:+ operation +:+ " count must be a positive integer"));
  Ok value.

Definition revoked (c : Capability) : bool :=
  bool_decide (cap_status c ∈ [CapabilityStatus.REVOKED; CapabilityStatus.EXEC_REVOKED]).
Definition active (c : Capability) : bool := bool_decide (cap_status c = CapabilityStatus.ACTIVE).

Definition _emit_revoked (cap : Capability) (source : string) : M CStore unit :=
  attest (CapEvent "CAPABILITY_REVOKED" source (cap_subject cap) (cap_id cap)).

(** ** Leases *)

Definition consume (id used_by : string) (count : Z) : M CStore Capability :=
  count ← lift_res (_positive_count count "consume");
  authority_unit (
    _ ← revalidate_admission;
    cap ← _require_capability id;
    match cap_uses_remaining cap with
    | None => _ ← revalidate_admission; mret cap
    | Some _ =>
        found ← consume_capability_uses id count;
        updated ← lift_res (of_option (use_exhausted id) found);
        _ ← attest (CapAudit used_by "capability.consume" (cap_resource cap) [id]);
        _ ← (if revoked updated then _emit_revoked updated used_by else mret tt);
        _ ← revalidate_admission;
        mret updated
    end).

Definition reserve (c : Call) (id reserved_by reason : string) (count : Z) : M CStore string :=
  count ← lift_res (_positive_count count "reservation");
  authority_unit (
    _ ← revalidate_admission;
    cap ← _require_capability id;
    match cap_uses_remaining cap with
    | None => raise (ValidationError ("capability is not finite-use: " +:+ id))
    | Some _ =>
        reservation ← viewing (fun s => Ok (new_id "capres" s));
        found ← reserve_capability_uses id reservation count reserved_by reason (call_stamp c);
        updated ← lift_res (of_option (use_exhausted id) found);
        _ ← attest (CapAudit reserved_by "capability.reserve_use" (cap_resource cap) [id]);
        _ ← attest (CapExpect "reservation");
        _ ← attest (CapLink reservation "reservation" "reserved");
        _ ← (if revoked updated then _emit_revoked updated reserved_by else mret tt);
        _ ← revalidate_admission;
        mret reservation
    end).

Definition reserve_decision (c : Call) (decision : option CapabilityDecision) (used_by reason : string)
    : M CStore (option string) :=
  match decision with
  | None => mret None
  | Some d =>
      match dec_consume_capability_id d with
      | None => mret None
      | Some id => r ← reserve c id used_by reason 1; mret (Some r)
      end
  end.

Definition commit (c : Call) (reservation : option string) (committed_by : string) : M CStore bool :=
  match reservation with
  | None => mret false
  | Some id =>
      authority_unit (
        _ ← revalidate_admission;
        committed ← commit_capability_use_reservation id (call_stamp c);
        _ ← attest (CapAudit committed_by "capability.commit_reserved_use"
                      ("capability_reservation:" +:+ id) []);
        _ ← attest (CapLink id "result" (if (committed : bool) then "committed" else "commit_skipped"));
        _ ← revalidate_admission;
        mret committed)
  end.

Definition restore (c : Call) (reservation : option string) (restored_by : string)
    : M CStore (option Capability) :=
  match reservation with
  | None => mret None
  | Some id =>
      authority_unit (
        _ ← revalidate_admission;
        found ← restore_capability_use_reservation id (call_stamp c);
        match found with
        | None =>
            _ ← attest (CapAudit restored_by "capability.restore_reserved_use_skipped"
                          ("capability_reservation:" +:+ id) []);
            _ ← attest (CapLink id "result" "restore_skipped");
            _ ← revalidate_admission;
            mret None
        | Some updated =>
            _ ← attest (CapAudit restored_by "capability.restore_reserved_use" (cap_resource updated)
                          [cap_id updated]);
            _ ← attest (CapEvent "CAPABILITY_GRANTED" restored_by (cap_subject updated) (cap_id updated));
            _ ← attest (CapLink id "result" "restored");
            _ ← revalidate_admission;
            mret (Some updated)
        end)
  end.

(** ** Processes hold the identifiers of their capabilities *)

Definition append_process_capability_ids (c : Call) (p : string) (additions : list string)
    : M Store AgentProcess :=
  found ← get_process p;
  match found with
  | None => raise (conflict "process no longer exists")
  | Some process =>
      let selected := List.filter (fun i => negb (bool_decide (i ∈ capabilities process))) additions in
      if bool_decide (selected = []) then mret process else
      let extended := setattr (setattr process (SetCapabilities (capabilities process ++ selected)))
                        (SetUpdatedAt (call_stamp c)) in
      _ ← update_process (call_ambient c) (call_stamp c) extended;
      mret extended
  end.

(** [CapabilityManager._attach_to_process]. *)
Definition _attach_to_process (c : Call) (subject id : string) : M CStore unit :=
  on_procs (
    found ← get_process subject;
    match found with
    | None => mret tt
    | Some _ => _ ← append_process_capability_ids c subject [id]; mret tt
    end).

(** ** Mutations *)

Record CapabilityDraft : Type := {
  dr_subject : string;
  dr_resource : string;
  dr_rights : list string;
  dr_effect : CapabilityEffect;
  dr_constraints : list (string * pyval);
  dr_metadata : list (string * pyval);
  dr_issued_by : string;
  dr_issuer_cap_id : option string;
  dr_parent_cap_id : option string;
  dr_delegation_depth : Z;
  dr_max_delegation_depth : option Z;
  dr_expires_at : option string;
  dr_uses_remaining : option Z;
  dr_delegable : bool;
  dr_revocable : bool;
}.

Definition capability_of_draft (id now : string) (d : CapabilityDraft) : Capability :=
  {| cap_id := id; cap_subject := dr_subject d; cap_resource := dr_resource d;
     cap_rights := dr_rights d; cap_constraints := dr_constraints d;
     cap_issued_by := dr_issued_by d; cap_issued_at := now; cap_expires_at := dr_expires_at d;
     cap_delegable := dr_delegable d; cap_revocable := dr_revocable d; cap_effect := dr_effect d;
     cap_issuer_cap_id := dr_issuer_cap_id d; cap_parent_cap_id := dr_parent_cap_id d;
     cap_delegation_depth := dr_delegation_depth d;
     cap_max_delegation_depth := dr_max_delegation_depth d;
     cap_uses_remaining := dr_uses_remaining d; cap_status := CapabilityStatus.ACTIVE;
     cap_metadata := dr_metadata d |}.

(** The object returned is the one built in memory. *)
Definition publish (c : Call) (d : CapabilityDraft) : M CStore Capability :=
  authority_unit (
    _ ← revalidate_admission;
    id ← viewing (fun s => Ok (new_id "cap" s));
    let cap := capability_of_draft id (call_stamp c) d in
    _ ← insert_capability cap;
    _ ← _attach_to_process c (cap_subject cap) (cap_id cap);
    _ ← attest (CapEvent "CAPABILITY_GRANTED" (cap_issued_by cap) (cap_subject cap) (cap_id cap));
    _ ← revalidate_admission;
    mret cap).

Definition opt_list {A} (o : option A) : list A := match o with Some x => [x] | None => [] end.

Definition issue_draft (c : Call) (d : CapabilityDraft) (actor : string)
    (authority_decision : option CapabilityDecision) : M CStore Capability :=
  authority_unit (
    _ ← revalidate_admission;
    reservation ← reserve_decision c authority_decision actor "one-time issue authority reserved";
    cap ← publish c d;
    _ ← commit c reservation actor;
    _ ← attest (CapAudit actor "capability.issue" (dr_subject d +:+ ":" +:+ cap_resource cap)
                  (cap_id cap :: opt_list (dr_issuer_cap_id d)));
    _ ← revalidate_admission;
    mret cap).

Definition record_delegation (cap parent_cap : Capability) (parent_subject child_subject actor : string)
    : M CStore unit :=
  authority_unit (
    _ ← revalidate_admission;
    _ ← attest (CapAudit actor "capability.delegate"
                  (parent_subject +:+ "->" +:+ child_subject +:+ ":" +:+ cap_resource cap)
                  [cap_id parent_cap; cap_id cap]);
    revalidate_admission).

Definition _require_revocable (id : string) : M CStore Capability :=
  cap ← _require_capability id;
  _ ← lift_res (raise_if (negb (cap_revocable cap))
        (CapabilityDenied ("capability is not revocable: " +:+ id)));
  mret cap.

Definition _without_exec_rollback_token (m : list (string * pyval)) : list (string * pyval) :=
  List.filter (fun kv => negb (String.eqb (fst kv) EXEC_ROLLBACK_TOKEN_KEY)) m.

(** [replace(current, status=..., metadata=_without_exec_rollback_token(...))]. *)
Definition retired (st : CapabilityStatus) (current : Capability) : Capability :=
  with_state (cap_uses_remaining current) st (_without_exec_rollback_token (cap_metadata current)) current.

Definition revoke_row (c : Call) (id revoked_by : string)
    (authority_decision : option CapabilityDecision) : M CStore Capability :=
  authority_unit (
    _ ← revalidate_admission;
    current ← _require_revocable id;
    reservation ← reserve_decision c authority_decision revoked_by "one-time revoke authority reserved";
    let updated := retired CapabilityStatus.REVOKED current in
    _ ← update_capability updated (call_stamp c);
    _ ← commit c reservation revoked_by;
    _ ← _emit_revoked current revoked_by;
    _ ← attest (CapAudit revoked_by "capability.revoke" (cap_resource current) [id]);
    _ ← revalidate_admission;
    mret updated).

Definition stage_exec_revocation (c : Call) (id rollback_token : string) : M CStore Capability :=
  let selected_token := strip rollback_token in
  _ ← lift_res (raise_if (String.eqb selected_token "")
        (ValueError "exec capability rollback token must not be empty"));
  authority_unit (
    _ ← revalidate_admission;
    current ← _require_revocable id;
    if negb (active current) then _ ← revalidate_admission; mret current else
    let metadata := _without_exec_rollback_token (cap_metadata current)
                    ++ [(EXEC_ROLLBACK_TOKEN_KEY, PStr selected_token)] in
    staged ← transition_capability_status id CapabilityStatus.ACTIVE CapabilityStatus.EXEC_REVOKED
               metadata (call_stamp c);
    match staged with
    | None => latest ← _require_capability id; _ ← revalidate_admission; mret latest
    | Some staged =>
        _ ← _emit_revoked staged "process.exec";
        _ ← attest (CapAudit "process.exec" "capability.revoke" (cap_resource staged) [id]);
        _ ← revalidate_admission;
        mret staged
    end).

(** The loop over the selected rows: each is replaced, and reported. *)
Fixpoint retire_all (c : Call) (report : Capability → M CStore unit) (l : list Capability)
    : M CStore (list Capability) :=
  match l with
  | [] => mret []
  | cap :: rest =>
      let updated := retired CapabilityStatus.REVOKED cap in
      _ ← update_capability updated (call_stamp c);
      _ ← report cap;
      done ← retire_all c report rest;
      mret (updated :: done)
  end.

Definition finalize_exec_revocations (c : Call) (subject rollback_token : string)
    : M CStore (list Capability) :=
  authority_unit (
    _ ← revalidate_admission;
    listed ← viewing (list_capabilities (Some subject));
    finalized ← retire_all c (fun _ => mret tt) (List.filter (staged_under rollback_token) listed);
    _ ← revalidate_admission;
    mret finalized).

Definition disable (c : Call) (id actor : string) : M CStore Capability :=
  authority_unit (
    _ ← revalidate_admission;
    cap ← _require_capability id;
    let updated := retired CapabilityStatus.DISABLED cap in
    _ ← update_capability updated (call_stamp c);
    _ ← attest (CapAudit actor "capability.disable" (cap_resource cap) [id]);
    _ ← revalidate_admission;
    mret updated).

Definition revoke_resource (c : Call) (resource revoked_by : string) : M CStore (list Capability) :=
  authority_unit (
    _ ← revalidate_admission;
    listed ← viewing (list_capabilities None);
    revoked ← retire_all c (fun cap => _emit_revoked cap revoked_by)
      (List.filter (fun cap => String.eqb (cap_resource cap) resource
         && bool_decide (cap_status cap ∈ [CapabilityStatus.ACTIVE; CapabilityStatus.EXEC_REVOKED])) listed);
    _ ← (if bool_decide (revoked = []) then mret tt
         else attest (CapAudit revoked_by "capability.revoke_resource" resource (map cap_id revoked)));
    _ ← revalidate_admission;
    mret revoked).

(** ** Authority transactions *)

Section Transaction.
(** [self._reauthorize]: the decision at its current state. *)
Variable reauthorize : CapabilityDecision → M CStore CapabilityDecision.

Fixpoint reauthorize_all (ds : list CapabilityDecision) : M CStore (list CapabilityDecision) :=
  match ds with
  | [] => mret []
  | d :: rest => d' ← reauthorize d; ds' ← reauthorize_all rest; mret (d' :: ds')
  end.

(** [self._reservations], in insertion order: capability and reservation. *)
Fixpoint reserve_all (c : Call) (actor operation : string) (held : list (string * string))
    (ds : list CapabilityDecision) : M CStore (list (string * string)) :=
  match ds with
  | [] => mret held
  | d :: rest =>
      match dec_consume_capability_id d with
      | None => reserve_all c actor operation held rest
      | Some id =>
          if bool_decide (id ∈ map fst held) then reserve_all c actor operation held rest else
          reservation ← reserve_decision c (Some d) actor
                          ("one-time " +:+ operation +:+ " authority reserved");
          r ← lift_res (of_option (CapabilityDenied (operation +:+ " authority reservation was not created"))
                          reservation);
          reserve_all c actor operation (held ++ [(id, r)]) rest
      end
  end.

Fixpoint commit_all (c : Call) (actor operation : string) (held : list (string * string)) : M CStore unit :=
  match held with
  | [] => mret tt
  | (_, r) :: rest =>
      committed ← commit c (Some r) actor;
      _ ← lift_res (raise_if (negb committed)
            (CapabilityDenied (operation +:+ " authority reservation is no longer active")));
      commit_all c actor operation rest
  end.

(** [with AuthorityTransaction(...) as current: body(current)]: an exception
    anywhere rolls everything back. *)
Definition authority_transaction {A} (c : Call) (decisions : list (option CapabilityDecision))
    (actor operation : string) (body : list CapabilityDecision → M CStore A) : M CStore A :=
  authority_unit (
    _ ← revalidate_admission;
    current ← reauthorize_all (omap id decisions);
    held ← reserve_all c actor operation [] current;
    result ← body current;
    _ ← revalidate_admission;
    _ ← commit_all c actor operation held;
    _ ← revalidate_admission;
    mret result).
End Transaction.
End Lease.
