(* ===== verification/CapabilitySpec.v ===== *)
(** * Capability specs and constraints

    [CapabilityManager._coerce_spec] of [capability/manager.py] and the checks
    on constraints that issuing, delegating and authorizing share.

    A declared [CapabilitySpec] has the types of its annotations; a mapping is
    an untyped value. *)

From S2P Require Import Prelude PyStr PyVal PyEnum CapabilityModel AuthorityRules DataRelease CapabilityEvaluator CapabilityTables.
From stdpp Require Import sorting.

(** ** Data *)

Record CapabilityLease : Type := { le_expires_at : option string; le_uses_remaining : option Z }.

Record DelegationPolicy : Type := {
  dp_delegable : bool;
  dp_revocable : bool;
  dp_max_delegation_depth : option Z;
}.

(** A declared object, or the mapping that stands for it. *)
Inductive RuleArg : Type := RuleObject (r : AuthorityRule) | RuleValue (v : pyval).
Inductive LeaseArg : Type := LeaseObject (l : CapabilityLease) | LeaseValue (v : pyval).
Inductive DelegationArg : Type := DelegationObject (d : DelegationPolicy) | DelegationValue (v : pyval).

Record CapabilitySpec : Type := {
  sp_resource : string;
  sp_rights : list string;
  sp_effect : CapabilityEffect;
  sp_rules : list RuleArg;
  sp_lease : option LeaseArg;
  sp_delegation : option DelegationArg;
  sp_constraints : list (string * pyval);
  sp_metadata : list (string * pyval);
  sp_expires_at : option string;
  sp_uses_remaining : option Z;
  sp_delegable : bool;
  sp_revocable : bool;
  sp_max_delegation_depth : option Z;
}.

(** [CapabilitySpec | dict]. *)
Inductive SpecRequest : Type := SpecObject (s : CapabilitySpec) | SpecMapping (v : pyval).

Definition POLICY_KEY : string := "permission_policy".

Section Spec.
Context `{CapabilityHost}.

(** ** Validation of constraints *)

Definition _constraint_container_error (constraints : list (string * pyval)) : option string :=
  match json_size constraints with
  | None => Some "capability constraints must be JSON-serializable"
  | Some size =>
      if max_constraints_bytes <? size then Some "capability constraints exceed configured byte limit" else
      if existsb (fun kv => negb (bool_decide (fst kv ∈ KNOWN_CONSTRAINT_KEYS))) constraints
      then Some "capability constraints contain unknown keys" else
      if existsb (fun kv => is_none (snd kv)) constraints
      then Some "capability constraint cannot be null" else None
  end.

(** The first rule with unknown or malformed conditions. *)
Fixpoint rule_conditions_error (rules : list AuthorityRule) : res (option string) :=
  match rules with
  | [] => Ok None
  | r :: rest =>
      if negb (bool_decide (_unknown_authority_rule_conditions str_other r = []))
      then Ok (Some "capability authority rule contains unknown conditions") else
      malformed ← _malformed_authority_rule_conditions float_of_str regex_config regex_engine r;
      if negb (bool_decide (malformed = []))
      then Ok (Some "capability authority rule contains malformed conditions")
      else rule_conditions_error rest
  end.

Definition _authority_rules_constraint_error (constraints : list (string * pyval)) : res (option string) :=
  match item_get constraints AUTHORITY_RULES_KEY with
  | None => Ok None
  | Some v =>
      match coerce_many str_other v with
      | Err (ValidationError m) => Ok (Some m)
      | Err e => Err e
      | Ok rules => rule_conditions_error rules
      end
  end.

Definition _shell_policy_constraint_error (constraints : list (string * pyval)) : option string :=
  match item_get constraints shell_policy_key with
  | None => None
  | Some (PStr p) => if bool_decide (p ∈ shell_policy_levels) then None
                     else Some "capability constraint has an invalid shell policy level"
  | Some _ => Some "capability constraint has an invalid shell policy level"
  end.

(** [type(v) is str and v]. *)
Definition nonempty_text (v : pyval) : bool :=
  match v with PStr s => negb (String.eqb s "") | _ => false end.

Definition _inherited_from_constraint_error (constraints : list (string * pyval)) : option string :=
  match item_get constraints "inherited_from" with
  | None => None
  | Some v => if nonempty_text v then None
              else Some "capability constraint inherited_from must be a non-empty string"
  end.

Definition _approval_binding_constraint_error (constraints : list (string * pyval)) : res (option string) :=
  match item_get constraints APPROVAL_BINDING_KEY with
  | None => Ok None
  | Some (PDict d) =>
      match normalize_approval_binding semantic_binding (PDict d) with
      | Ok _ => Ok None
      | Err (ValidationError m) => Ok (Some m)
      | Err e => Err e
      end
  | Some _ => Ok (Some "approval binding must be an object")
  end.

Definition _data_release_binding_constraint_error (constraints : list (string * pyval)) : res (option string) :=
  match item_get constraints DATA_RELEASE_BINDING_KEY with
  | None => Ok None
  | Some v =>
      match binding_from_dict v with
      | Ok _ => Ok None
      | Err (ValueError m) | Err (TypeError m) => Ok (Some m)
      | Err e => Err e
      end
  end.

Definition GIT_TEXT_KEYS : list string :=
  ["git_remote"; "git_url_fingerprint"; "git_expected_state_token"; "git_old_oid"].

Definition _git_constraint_error (constraints : list (string * pyval)) : option string :=
  if existsb (fun k => match item_get constraints k with Some v => negb (nonempty_text v) | None => false end)
       GIT_TEXT_KEYS
  then Some "capability constraint must be a non-empty string" else
  match item_get constraints "git_allowed_refs" with
  | None => None
  | Some (PList refs) =>
      if forallb nonempty_text refs then None
      else Some "capability constraint git_allowed_refs must be a list of non-empty strings"
  | Some _ => Some "capability constraint git_allowed_refs must be a list of non-empty strings"
  end.

(** The validators in order; the first error wins. *)
Fixpoint first_error (checks : list (res (option string))) : res (option string) :=
  match checks with
  | [] => Ok None
  | c :: rest => e ← c; match e with Some m => Ok (Some m) | None => first_error rest end
  end.

Definition _constraint_validation_error (constraints : list (string * pyval)) : res (option string) :=
  first_error
    [Ok (_constraint_container_error constraints);
     _authority_rules_constraint_error constraints;
     Ok (_shell_policy_constraint_error constraints);
     Ok (_inherited_from_constraint_error constraints);
     _approval_binding_constraint_error constraints;
     _data_release_binding_constraint_error constraints;
     Ok (_git_constraint_error constraints)].

Definition _validate_constraints (constraints : list (string * pyval)) : res unit :=
  e ← _constraint_validation_error constraints;
  match e with Some m => Err (ValidationError m) | None => Ok tt end.

(** ** Scalars *)

Definition _positive_uses_remaining (v : pyval) : res (option Z) :=
  match v with
  | PNone => Ok None
  | PInt z => if (z <? 1)%Z then Err (ValidationError "uses_remaining must be a positive integer") else Ok (Some z)
  | _ => Err (ValidationError "uses_remaining must be a positive integer")
  end.

Definition _expires_at_datetime (v : pyval) : res Z :=
  match v with
  | PStr s => expires_at_datetime parse_time s
  | _ => Err (ValidationError "capability expires_at must be an ISO timestamp")
  end.

Definition _normalize_expires_at (v : pyval) : res (option string) :=
  match v with
  | PNone => Ok None
  | _ => t ← _expires_at_datetime v; Ok (Some (format_time t))
  end.

Definition _capability_boolean (v : pyval) : res bool :=
  match v with PBool b => Ok b | _ => Err (ValidationError "capability delegation field must be a boolean") end.

Definition _max_delegation_depth (v : pyval) : res (option Z) :=
  match v with
  | PNone => Ok None
  | PInt z => if (z <? 0)%Z then Err (ValidationError "max_delegation_depth must be a non-negative integer")
              else Ok (Some z)
  | _ => Err (ValidationError "max_delegation_depth must be a non-negative integer")
  end.

Definition py_int_opt (o : option Z) : pyval := match o with Some z => PInt z | None => PNone end.

(** The members of a list, tuple or set. *)
Definition members (v : pyval) : option (list pyval) :=
  match v with PList l | PTuple l | PSet l => Some l | _ => None end.

Definition _normalize_rights (v : pyval) : res (list string) :=
  l ← of_option (ValidationError "capability rights must be a declared rights collection") (members v);
  _ ← raise_if (negb (forallb is_str l)) (ValidationError "capability rights entries must be strings");
  let texts := omap (fun x => match x with PStr s => Some s | _ => None end) l in
  _ ← raise_if (negb (forallb known_right texts)) (ValidationError "unknown capability right");
  let normalized := right_set texts in
  _ ← raise_if (bool_decide (normalized = [])) (ValidationError "capability must include at least one right");
  _ ← raise_if (max_rights_per_capability <? length normalized)
        (ValidationError "capability rights exceed configured limit");
  Ok normalized.

Definition rights_value (rights : list string) : pyval := PSet (map PStr rights).

Definition _effect_from_policy (policy : string) : res (CapabilityEffect * option Z) :=
  if String.eqb policy "always_allow" then Ok (CapabilityEffect.ALLOW, None)
  else if String.eqb policy "always_deny" then Ok (CapabilityEffect.DENY, None)
  else if String.eqb policy "ask_each_time" then Ok (CapabilityEffect.ASK, None)
  else if String.eqb policy "allow_once" then Ok (CapabilityEffect.ALLOW, Some 1%Z)
  else Err (ValueError "unknown permission policy").

(** ** Nested objects *)

Definition _coerce_lease (arg : LeaseArg) : res CapabilityLease :=
  data ← match arg with
         | LeaseObject l => Ok (py_opt (le_expires_at l), py_int_opt (le_uses_remaining l))
         | LeaseValue (PDict d) =>
             _ ← raise_if (has_unknown_key d ["expires_at"; "uses_remaining"])
                   (ValidationError "capability lease contains unknown fields");
             Ok (dict_get_none d "expires_at", dict_get_none d "uses_remaining")
         | LeaseValue _ => Err (ValidationError "capability lease must be a mapping")
         end;
  uses ← _positive_uses_remaining (snd data);
  expires ← _normalize_expires_at (fst data);
  Ok {| le_expires_at := expires; le_uses_remaining := uses |}.

Definition DELEGATION_FIELDS : list string := ["delegable"; "revocable"; "max_delegation_depth"].

Definition _coerce_delegation (arg : option DelegationArg) : res (option DelegationPolicy) :=
  match arg with
  | None => Ok None
  | Some a =>
      data ← match a with
             | DelegationObject d =>
                 Ok (PBool (dp_delegable d), PBool (dp_revocable d), py_int_opt (dp_max_delegation_depth d))
             | DelegationValue (PDict d) =>
                 _ ← raise_if (has_unknown_key d DELEGATION_FIELDS)
                       (ValidationError "capability delegation policy contains unknown fields");
                 Ok (dict_get_default d "delegable" (PBool false), dict_get_default d "revocable" (PBool true),
                     dict_get_none d "max_delegation_depth")
             | DelegationValue _ => Err (ValidationError "capability delegation policy must be a mapping")
             end;
      let '(delegable, revocable, depth) := data in
      delegable ← _capability_boolean delegable;
      revocable ← _capability_boolean revocable;
      depth ← _max_delegation_depth depth;
      Ok (Some {| dp_delegable := delegable; dp_revocable := revocable; dp_max_delegation_depth := depth |})
  end.

Definition rule_to_json (arg : RuleArg) : res pyval :=
  match arg with
  | RuleObject r => Ok (to_json r)
  | RuleValue v => r ← coerce str_other v; Ok (to_json r)
  end.

Definition coerce_rule (arg : RuleArg) : res AuthorityRule :=
  match arg with RuleObject r => Ok r | RuleValue v => coerce str_other v end.

(** ** The data of a spec *)

(** The entries [_coerce_spec] reads; a declared spec has no policy entry. *)
Record SpecData : Type := {
  sd_structured : bool;
  sd_resource : pyval;
  sd_rights : pyval;
  sd_effect : pyval;
  sd_rules : option (list RuleArg);
  sd_lease : option LeaseArg;
  sd_delegation : option DelegationArg;
  sd_constraints : pyval;
  sd_metadata : pyval;
  sd_expires_at : pyval;
  sd_uses_remaining : pyval;
  sd_delegable : pyval;
  sd_revocable : pyval;
  sd_max_delegation_depth : pyval;
  (** ["policy" in data or POLICY_KEY in data], and the policy they give. *)
  sd_has_policy : bool;
  sd_policy : pyval;
}.

Definition _validate_typed_spec_conflicts (s : CapabilitySpec) : res unit :=
  _ ← match sp_lease s with
      | None => Ok tt
      | Some arg =>
          lease ← _coerce_lease arg;
          _ ← match sp_expires_at s with
              | None => Ok tt
              | Some e =>
                  n ← _normalize_expires_at (PStr e);
                  raise_if (negb (bool_decide (n = le_expires_at lease)))
                    (ValidationError "capability spec contains conflicting lease fields")
              end;
          match sp_uses_remaining s with
          | None => Ok tt
          | Some u =>
              n ← _positive_uses_remaining (PInt u);
              raise_if (negb (bool_decide (n = le_uses_remaining lease)))
                (ValidationError "capability spec contains conflicting lease fields")
          end
      end;
  d ← _coerce_delegation (sp_delegation s);
  match d with
  | None => Ok tt
  | Some p =>
      raise_if ((sp_delegable s && negb (eqb (sp_delegable s) (dp_delegable p)))
                || (negb (sp_revocable s) && negb (eqb (sp_revocable s) (dp_revocable p)))
                || (bool_decide (is_Some (sp_max_delegation_depth s))
                    && negb (bool_decide (sp_max_delegation_depth s = dp_max_delegation_depth p))))
        (ValidationError "capability spec contains conflicting delegation fields")
  end.

Definition SPEC_FIELDS : list string :=
  ["resource"; "rights"; "effect"; "rules"; "lease"; "delegation"; "constraints"; "metadata"; "expires_at";
   "uses_remaining"; "delegable"; "revocable"; "max_delegation_depth"; "policy"; POLICY_KEY].

Definition _validate_mapping_spec_fields (d : list (pyval * pyval)) : res unit :=
  _ ← raise_if (has_unknown_key d SPEC_FIELDS) (ValidationError "capability spec contains unknown fields");
  _ ← raise_if (dict_has d "lease" && (dict_has d "expires_at" || dict_has d "uses_remaining"))
        (ValidationError "capability spec contains conflicting lease fields");
  _ ← raise_if (dict_has d "delegation" && existsb (dict_has d) DELEGATION_FIELDS)
        (ValidationError "capability spec contains conflicting delegation fields");
  raise_if (dict_has d "policy" && dict_has d POLICY_KEY)
    (ValidationError "capability spec contains conflicting policy fields").

(** [data.get(key)] of an object that may be a mapping: [None] is absence. *)
Definition arg_of {A} (f : pyval → A) (v : pyval) : option A :=
  match v with PNone => None | _ => Some (f v) end.

Definition _capability_spec_data (request : SpecRequest) : res SpecData :=
  match request with
  | SpecObject s =>
      _ ← _validate_typed_spec_conflicts s;
      Ok {| sd_structured := true; sd_resource := PStr (sp_resource s);
            sd_rights := rights_value (sp_rights s); sd_effect := PStr (enum_value (sp_effect s));
            sd_rules := Some (sp_rules s); sd_lease := sp_lease s; sd_delegation := sp_delegation s;
            sd_constraints := PDict (map (fun kv => (PStr (fst kv), snd kv)) (sp_constraints s));
            sd_metadata := PDict (map (fun kv => (PStr (fst kv), snd kv)) (sp_metadata s));
            sd_expires_at := py_opt (sp_expires_at s); sd_uses_remaining := py_int_opt (sp_uses_remaining s);
            sd_delegable := PBool (sp_delegable s); sd_revocable := PBool (sp_revocable s);
            sd_max_delegation_depth := py_int_opt (sp_max_delegation_depth s);
            sd_has_policy := false; sd_policy := PNone |}
  | SpecMapping (PDict d) =>
      _ ← _validate_mapping_spec_fields d;
      Ok {| sd_structured := false; sd_resource := dict_get_none d "resource";
            sd_rights := dict_get_default d "rights" (PList [PStr "read"]);
            sd_effect := dict_get_default d "effect" (PStr (enum_value CapabilityEffect.ALLOW));
            sd_rules := match dict_get_default d "rules" (PList []) with
                        | PList l | PTuple l => Some (map RuleValue l)
                        | _ => None
                        end;
            sd_lease := arg_of LeaseValue (dict_get_none d "lease");
            sd_delegation := arg_of DelegationValue (dict_get_none d "delegation");
            sd_constraints := dict_get_default d "constraints" (PDict []);
            sd_metadata := dict_get_default d "metadata" (PDict []);
            sd_expires_at := dict_get_none d "expires_at"; sd_uses_remaining := dict_get_none d "uses_remaining";
            sd_delegable := dict_get_default d "delegable" (PBool false);
            sd_revocable := dict_get_default d "revocable" (PBool true);
            sd_max_delegation_depth := dict_get_none d "max_delegation_depth";
            sd_has_policy := dict_has d "policy" || dict_has d POLICY_KEY;
            sd_policy := match dict_get_none d "policy" with PNone => dict_get_none d POLICY_KEY | v => v end |}
  | SpecMapping _ => Err (ValidationError "capability spec must be a mapping")
  end.

Definition _spec_mapping (v : pyval) : res (list (string * pyval)) :=
  match v with
  | PDict d =>
      _ ← raise_if (has_non_str_key d) (ValidationError "capability field keys must be strings");
      Ok (str_items d)
  | _ => Err (ValidationError "capability field must be an object")
  end.

Definition _spec_rights (d : SpecData) : res pyval :=
  if sd_structured d then
    _ ← raise_if (negb (bool_decide (is_Some (members (sd_rights d)))))
          (ValidationError "CapabilitySpec rights must be a declared rights collection");
    Ok (sd_rights d)
  else match sd_rights d with
       | PList _ => Ok (sd_rights d)
       | _ => Err (ValidationError "capability mapping rights must be a list")
       end.

(** The policy, and the constraints without it. *)
Definition _pop_spec_policy (d : SpecData) (constraints : list (string * pyval))
    : pyval * list (string * pyval) :=
  match sd_policy d with
  | PNone => (default PNone (item_get constraints POLICY_KEY), item_pop constraints POLICY_KEY)
  | p => (p, item_pop constraints POLICY_KEY)
  end.

Definition _coerce_spec (request : SpecRequest) : res CapabilitySpec :=
  d ← _capability_spec_data request;
  resource ← match sd_resource d with
             | PStr s => if String.eqb s "" then Err (ValidationError "capability resource must be a non-empty string")
                         else Ok s
             | _ => Err (ValidationError "capability resource must be a non-empty string")
             end;
  raw_rights ← _spec_rights d;
  constraints ← _spec_mapping (sd_constraints d);
  metadata ← _spec_mapping (sd_metadata d);
  _ ← raise_if (item_has constraints POLICY_KEY && sd_has_policy d)
        (ValidationError "capability spec contains conflicting policy fields");
  rules ← of_option (ValidationError "capability rules must be a list") (sd_rules d);
  let '(policy, constraints) := _pop_spec_policy d constraints in
  uses ← _positive_uses_remaining (sd_uses_remaining d);
  expires ← _normalize_expires_at (sd_expires_at d);
  selected ← match policy with
             | PNone => Ok (sd_effect d, uses)
             | _ => eu ← _effect_from_policy (py_str str_other policy);
                    Ok (PStr (enum_value (fst eu)), snd eu)
             end;
  lease ← match sd_lease d with
          | None => Ok {| le_expires_at := expires; le_uses_remaining := snd selected |}
          | Some arg => _coerce_lease arg
          end;
  effect ← enum_call "effect" (fst selected);
  _ ← raise_if (is_restrictive effect && bool_decide (is_Some (le_uses_remaining lease)))
        (ValidationError "uses_remaining is supported only for allow capabilities");
  delegable ← _capability_boolean (sd_delegable d);
  revocable ← _capability_boolean (sd_revocable d);
  depth ← _max_delegation_depth (sd_max_delegation_depth d);
  delegation ← _coerce_delegation (sd_delegation d);
  constraints ← (if bool_decide (rules = []) then Ok constraints else
                   l ← mapR rule_to_json rules; Ok (item_set constraints AUTHORITY_RULES_KEY (PList l)));
  _ ← _validate_constraints constraints;
  rights ← _normalize_rights raw_rights;
  rules ← mapR coerce_rule rules;
  Ok {| sp_resource := resource; sp_rights := rights; sp_effect := effect; sp_rules := map RuleObject rules;
        sp_lease := Some (LeaseObject lease); sp_delegation := option_map DelegationObject delegation;
        sp_constraints := constraints; sp_metadata := metadata;
        sp_expires_at := le_expires_at lease; sp_uses_remaining := le_uses_remaining lease;
        sp_delegable := match delegation with Some p => dp_delegable p | None => delegable end;
        sp_revocable := match delegation with Some p => dp_revocable p | None => revocable end;
        sp_max_delegation_depth := match delegation with Some p => dp_max_delegation_depth p | None => depth end |}.

(** ** Attenuation *)

(** [set(a).issubset(set(b))] on texts. *)
Definition texts_subset (a b : pyval) : bool :=
  match members a, members b with
  | Some l, Some m => forallb (fun x => existsb (py_eq x) m) l
  | _, _ => false
  end.

Definition parent_constraint_error (delegated : list (string * pyval)) (kv : string * pyval) : option string :=
  match item_get delegated (fst kv) with
  | None => Some "delegated capability cannot drop parent constraint"
  | Some v =>
      if String.eqb (fst kv) "git_allowed_refs" then
        if texts_subset v (snd kv) then None
        else Some "delegated capability cannot widen parent constraint: git_allowed_refs"
      else if py_eq v (snd kv) then None else Some "delegated capability cannot change parent constraint"
  end.

(** The keys that select an effect instead of narrowing the context. *)
Definition effect_keys : list string := [AUTHORITY_RULES_KEY; shell_policy_key].

Definition _constraint_attenuation_error (parent delegated : list (string * pyval)) : res (option string) :=
  e ← _constraint_validation_error parent;
  match e with Some _ => Ok (Some "delegated capability has invalid parent constraint") | None =>
  e ← _constraint_validation_error delegated;
  match e with Some _ => Ok (Some "delegated capability has invalid constraint") | None =>
  match omap (parent_constraint_error delegated) parent with
  | m :: _ => Ok (Some m)
  | [] =>
      if existsb (fun kv => negb (item_has parent (fst kv)) && bool_decide (fst kv ∈ effect_keys)) delegated
      then Ok (Some "delegated constraint is not covered by parent") else Ok None
  end end end.
End Spec.
