(* ===== verification/JsonEquality.v ===== *)
(** * Comparing values with stored ones

    A value that equals one read from a JSON column still equals it once it is
    stored itself; and a stored object finds its entries as before. *)

From S2P Require Import Prelude PyStr PyVal CapabilityModel AuthorityRules JsonColumn CapabilityTables CapabilitySpec.
From stdpp Require Import sorting.

(** ** Entries *)

Lemma item_get_cons kv l k : item_get (kv :: l) k = if String.eqb (fst kv) k then Some (snd kv) else item_get l k.
Proof. unfold item_get. cbn. by destruct (String.eqb (fst kv) k). Qed.

Lemma item_get_insert kv l k : item_get (insert_item fst kv l) k = item_get (kv :: l) k.
Proof.
  induction l as [|x l IH]; cbn; [done|]. destruct (str_leb (fst kv) (fst x)) eqn:E; [done|].
  rewrite !item_get_cons, IH, item_get_cons. destruct (String.eqb_spec (fst x) k) as [Ex|Ex]; [|done].
  destruct (String.eqb_spec (fst kv) k) as [Ek|Ek]; [|done]. rewrite Ex, Ek, str_leb_refl in E. done.
Qed.

(** Sorting keeps the first entry of a key first. *)
Lemma item_get_sort l k : item_get (sort_items fst l) k = item_get l k.
Proof.
  induction l as [|kv l IH]; [done|]. change (sort_items fst (kv :: l)) with (insert_item fst kv (sort_items fst l)).
  by rewrite item_get_insert, !item_get_cons, IH.
Qed.

Lemma item_get_elem d k v : item_get d k = Some v → (k, v) ∈ d.
Proof.
  unfold item_get. destruct (List.find _ d) as [[k' w]|] eqn:E; [|done]. intros [= <-].
  apply find_some in E as [Hin Hk%String.eqb_eq]. cbn in Hk. subst k'. by apply list_elem_of_In.
Qed.

Section Stored.
Variable str_other : pyval → string.

Abbreviation stored := (json_stored str_other).
Abbreviation canonical := (canonical_json str_other).

Lemma column_get d d' k :
  json_column str_other d = Ok d' →
  match item_get d k with
  | Some v => ∃ v', stored v = Ok v' ∧ item_get d' k = Some v'
  | None => item_get d' k = None
  end.
Proof.
  unfold json_column. intros (items & E & [= <-])%bind_Ok. rewrite item_get_sort. apply mapR_Ok in E.
  induction E as [|kv y l items Ey _ IH]; [done|]. apply bind_Ok in Ey as (w & Hw & [= <-]).
  rewrite !item_get_cons. cbn. destruct (String.eqb (fst kv) k); [by exists w|exact IH].
Qed.

Lemma column_has d d' k : json_column str_other d = Ok d' → item_has d' k = item_has d k.
Proof.
  intros E. pose proof (column_get d d' k E) as Hg. unfold item_has. destruct (item_get d k) as [v|].
  - destruct Hg as (v' & _ & ->). by apply bool_decide_ext.
  - by rewrite Hg.
Qed.

(** ** Inside stored values *)

Lemma canonical_list l : canonical (PList l) → Forall canonical l.
Proof.
  intros [_ (l' & E & [= ->])%bind_Ok]. apply mapR_Ok in E.
  assert (Forall canonical l) as Hl; [|done].
  assert (∀ a b, Forall2 (fun x y => stored x = Ok y) a b → Forall canonical b) as Hgen.
  { intros a b. induction 1; constructor; [by eapply stored_canonical|done]. }
  by eapply Hgen.
Qed.

Lemma canonical_dict e : canonical (PDict e) → Forall (fun kv => is_str (fst kv) = true ∧ canonical (snd kv)) e.
Proof.
  intros [_ (items & E & [= Hs])%bind_Ok]. rewrite <-Hs, sort_items_perm. apply mapR_Ok in E. clear Hs.
  induction E as [|x y l l' Exy _ IH]; constructor; [|done].
  apply bind_Ok in Exy as (w & Hw & [= <-]). split; [done|]. by eapply stored_canonical.
Qed.

Lemma canonical_not_tuple l : ¬ canonical (PTuple l).
Proof. by intros [_ (l' & _ & [=])%bind_Ok]. Qed.

Lemma canonical_not_set l : ¬ canonical (PSet l).
Proof. intros [_ (l' & _ & (l2 & _ & [=])%bind_Ok)%bind_Ok]. Qed.

(** ** Equality survives storage *)

Definition keeps_eq (v : pyval) : Prop := ∀ w v', py_eq v w = true → canonical w → stored v = Ok v' → py_eq v' w = true.

Lemma keeps_eq_list l m l' :
  Forall keeps_eq l → Forall canonical m → py_eq (PList l) (PList m) = true → mapR stored l = Ok l' →
  py_eq (PList l') (PList m) = true.
Proof.
  intros Hl Hm He E. apply mapR_Ok in E. revert m Hl Hm He. induction E as [|x y l l' Ex _ IH]; intros m Hl Hm He; [done|].
  destruct m as [|z m]; [done|]. inversion Hl; inversion Hm; subst. cbn in He |- *.
  apply andb_true_iff in He as [He1 He2]. apply andb_true_iff. split; [by eapply H1|by apply IH].
Qed.

Lemma py_eq_dict_iff d e :
  py_eq (PDict d) (PDict e) = true ↔
  length d = length e ∧ Forall (fun kv => ∃ kv', kv' ∈ e ∧ py_eq (fst kv) (fst kv') = true ∧ py_eq (snd kv) (snd kv') = true) d.
Proof.
  cbn. rewrite andb_true_iff, Nat.eqb_eq. apply and_iff_compat_l.
  induction d as [|[k v] d IH]; [done|]. rewrite andb_true_iff, IH, Forall_cons, existsb_exists.
  apply and_iff_compat_r. split.
  - intros (kv & Hin & [? ?]%andb_true_iff). exists kv. by rewrite list_elem_of_In.
  - intros (kv & Hin & ? & ?). exists kv. rewrite <-list_elem_of_In, andb_true_iff. done.
Qed.

Lemma keeps_eq_dict kvs e items :
  Forall (fun kv => keeps_eq (snd kv)) kvs → Forall (fun kv => is_str (fst kv) = true ∧ canonical (snd kv)) e →
  py_eq (PDict kvs) (PDict e) = true →
  mapR (fun kv => x ← stored (snd kv); Ok (PStr (py_str str_other (fst kv)), x)) kvs = Ok items →
  py_eq (PDict (sort_items key_text items)) (PDict e) = true.
Proof.
  rewrite !py_eq_dict_iff. intros Hk He [Hlen Hd] E. rewrite sort_items_perm. apply mapR_Ok in E. split.
  { rewrite <-Hlen. symmetry. by eapply Forall2_length. }
  clear Hlen. induction E as [|kv y l items Ey _ IH]; [constructor|].
  inversion Hk; inversion Hd as [|? ? (kv' & Hin & E1 & E2)]; subst. constructor; [|by apply IH].
  apply bind_Ok in Ey as (w & Hw & [= <-]). exists kv'. split; [done|].
  rewrite Forall_forall in He. destruct (He kv' Hin) as [Hs Hc]. split; [|by eapply H1].
  destruct kv' as [[] ?]; try done. destruct kv as [[] ?]; try done. 
Qed.

Lemma stored_keeps_eq v : keeps_eq v.
Proof.
  induction v using pyval_nested_ind; intros w v' He Hw; cbn; try (by intros [= <-]).
  - by destruct (sf_finite f); intros [= <-].
  - intros (l' & E & [= <-])%bind_Ok. destruct w; try done. apply canonical_list in Hw. by eapply keeps_eq_list.
  - intros _. destruct w; try done. by apply canonical_not_tuple in Hw.
  - intros _. destruct w; try done. by apply canonical_not_set in Hw.
  - intros (items & E & [= <-])%bind_Ok. destruct w; try done. apply canonical_dict in Hw. by eapply keeps_eq_dict.
Qed.

Lemma members_stored v v' l :
  stored v = Ok v' → members v = Some l → ∃ l' l2, members v' = Some l2 ∧ mapR stored l = Ok l' ∧ l2 ≡ₚ l'.
Proof.
  destruct v; try done; cbn; intros (l' & E & E')%bind_Ok [= <-]; exists l'.
  - injection E' as <-. by exists l'.
  - injection E' as <-. by exists l'.
  - apply bind_Ok in E' as (l2 & Hp%py_sorted_perm & [= <-]). by exists l2.
Qed.

Lemma forallb_perm {A} (f : A → bool) l k : l ≡ₚ k → forallb f l = forallb f k.
Proof. induction 1 as [|x l k _ IH|x y l|? ? ? _ IH1 _ IH2]; cbn; [done|by rewrite IH|destruct (f x), (f y); done|congruence]. Qed.

Lemma texts_subset_stored v w v' :
  texts_subset v w = true → canonical w → stored v = Ok v' → texts_subset v' w = true.
Proof.
  unfold texts_subset. intros Ht Hw E. destruct (members v) as [l|] eqn:Hm; [|done].
  destruct (members_stored v v' l E Hm) as (l' & l2 & -> & El & Hp). destruct w as [| | | | |m|m| |]; try done.
  - cbn in Ht |- *. apply canonical_list in Hw. rewrite (forallb_perm _ _ _ Hp). apply mapR_Ok in El. rewrite !forallb_forall in *. clear Hm E Hp.
    induction El as [|x y l l' Ex _ IH]; [done|]. intros z [<-|Hz]; [|apply IH; [intros; apply Ht; by right|done]].
    destruct (existsb_exists (py_eq x) m) as [Hex _]. destruct Hex as (u & Hu & He); [apply Ht; by left|].
    apply existsb_exists. exists u. split; [done|]. rewrite Forall_forall in Hw.
    eapply stored_keeps_eq; [done|by apply Hw, list_elem_of_In|done].
  - by apply canonical_not_tuple in Hw.
  - by apply canonical_not_set in Hw.
Qed.
End Stored.
