(* ===== verification/CapabilityManager.v ===== *)
(** * Capability manager

    [capability/manager.py]: chains of delegation, matching, authorization,
    revalidation of cached decisions, issue, delegation, revocation and handles.

    A loop up the chain of parents takes one unit of fuel per capability; it
    stops at a repeated one. *)

From S2P Require Import Prelude PyStr PyVal PyEnum ProcessState ProcessModel ProcessStore ProcessWrites ResourceAuthority CapabilityModel AuthorityRules CapabilityEvaluator CapabilityTables CapabilityLease CapabilitySpec.
From stdpp Require Import sorting.

(** ** Contexts *)

Inductive ContextArg : Type :=
| NoContext
| OperationContext (primitive operation : option string) (metadata : list (pyval * pyval))
| MappingContext (d : list (pyval * pyval)).

(** [d.get(key, default)] of an equal key; [{**d, key: value}]. *)
Fixpoint dict_put (d : list (pyval * pyval)) (key v : pyval) : list (pyval * pyval) :=
  match d with
  | [] => [(key, v)]
  | (k, w) :: d' => if py_eq k key then (k, v) :: d' else (k, w) :: dict_put d' key v
  end.

Definition context_dict (context : ContextArg) : list (pyval * pyval) :=
  match context with
  | NoContext => []
  | OperationContext primitive operation metadata =>
      foldl (fun d kv => dict_put d (fst kv) (snd kv))
        [(PStr "primitive", py_opt primitive); (PStr "operation", py_opt operation)] metadata
  | MappingContext d => d
  end.

(** ** Semantic bindings *)

Definition SEMANTIC_ACTION_CATALOG_V1 (action : string) : option (list string) :=
  if String.eqb action "filesystem.read" then Some ["read"]
  else if String.eqb action "git.read" then Some ["read"]
  else if String.eqb action "git.diff" then Some ["diff"] else None.

Definition _raw_semantic_action_is_high_risk (v : pyval) : bool :=
  match v with
  | PDict d =>
      py_eq (dict_get_none d "schema_version") (PInt 2)
      && match dict_get_none d "authority_operation" with
         | PStr a => bool_decide (SEMANTIC_ACTION_CATALOG_V1 a = None)
         | _ => false
         end
  | _ => false
  end.

Definition constraint_value (c : Capability) (key : string) : pyval :=
  default PNone (item_get (cap_constraints c) key).
Definition metadata_value (c : Capability) (key : string) : pyval :=
  default PNone (item_get (cap_metadata c) key).

Definition is_semantic_binding (v : pyval) : bool :=
  match v with PDict d => is_semantic_approval_binding d | _ => false end.

Definition _is_semantic_machine_capability (c : Capability) : bool :=
  is_semantic_binding (constraint_value c APPROVAL_BINDING_KEY)
  || startswith "policy:semantic:" (cap_issued_by c)
  || item_has (cap_metadata c) "semantic_auto_approval".

(** The value under a key of a normalized binding is this text. *)
Definition bound_text (binding : list (pyval * pyval)) (key t : string) : bool :=
  py_eq (dict_get_none binding key) (PStr t).

Definition subset_of (a b : list string) : bool := forallb (fun x => bool_decide (x ∈ b)) a.
Definition same_set (a b : list string) : bool := subset_of a b && subset_of b a.

Definition _semantic_structural_trip_code (c : Capability) (binding : list (pyval * pyval)) (error : string)
    : string :=
  let catalog := match dict_get_none binding "authority_operation" with
                 | PStr a => SEMANTIC_ACTION_CATALOG_V1 a | _ => None end in
  if bool_decide (error ∈ ["BindingV2 capability was not reserved exactly once";
                           "BindingV2 capability is not available exactly once"])
  then "replay_detected"
  else if cap_delegable c || negb (cap_revocable c) || bool_decide (is_Some (cap_parent_cap_id c))
          || negb (cap_delegation_depth c =? 0)%Z
          || match catalog with None => true | Some rights => negb (subset_of (cap_rights c) rights) end
  then "critical_high_grant"
  else if bool_decide (error ∈ ["BindingV2 resource changed"; "BindingV2 right changed"; "BindingV2 effect changed"])
  then "unauthorized_effect" else "binding_mismatch".

Definition first_some (l : list (bool * string)) : option string :=
  option_map snd (List.find fst l).

Definition _semantic_binding_identity_error (c : Capability) (binding : list (pyval * pyval))
    (subject resource : string) : res (option string) :=
  let epoch := match dict_get_none binding "policy_epoch_id" with PStr e => e | _ => "" end in
  match first_some
    [(negb (bool_decide (cap_effect c = CapabilityEffect.ALLOW)), "BindingV2 capability is not an allow grant");
     (cap_delegable c || negb (cap_revocable c), "BindingV2 capability must be nondelegable and revocable");
     (bool_decide (is_Some (cap_parent_cap_id c)) || negb (cap_delegation_depth c =? 0)%Z,
      "BindingV2 capability must not be delegated");
     (negb (String.eqb (cap_issued_by c) ("policy:semantic:" +:+ epoch)),
      "BindingV2 capability issuer is not its Host policy epoch");
     (negb (String.eqb (cap_subject c) subject) || negb (bound_text binding "pid" subject),
      "BindingV2 subject changed");
     (negb (String.eqb (cap_resource c) resource) || negb (bound_text binding "resource" resource),
      "BindingV2 resource changed")] with
  | Some m => Ok (Some m)
  | None =>
      match parse (cap_resource c) false with
      | Ok p => Ok (if bool_decide (rp_scope p = EXACT) then None else Some "BindingV2 resource is not exact")
      | Err (TypeError _) | Err (ValueError _) | Err (ValidationError _) =>
          Ok (Some "BindingV2 resource is malformed")
      | Err e => Err e
      end
  end.

Definition _semantic_binding_use_error (c : Capability) (binding : list (pyval * pyval)) (right_ : string)
    (effect_id : option string) (allow_reserved : bool) : option string :=
  first_some
    [(negb (same_set (cap_rights c) [right_]) || negb (bound_text binding "right" right_),
      "BindingV2 right changed");
     (match cap_expires_at c with Some t => negb (bound_text binding "expires_at" t) | None => true end,
      "BindingV2 expiry changed");
     (allow_reserved && negb (bool_decide (cap_uses_remaining c = Some 0%Z)),
      "BindingV2 capability was not reserved exactly once");
     (negb allow_reserved && negb (bool_decide (cap_uses_remaining c = Some 1%Z)),
      "BindingV2 capability is not available exactly once");
     (match effect_id with Some e => negb (bound_text binding "effect_id" e) | None => false end,
      "BindingV2 effect changed")].

Definition _semantic_binding_capability_error (c : Capability) (binding : list (pyval * pyval))
    (subject resource right_ : string) (effect_id : option string) (allow_reserved : bool)
    : res (option string) :=
  e ← _semantic_binding_identity_error c binding subject resource;
  Ok (match e with
      | Some m => Some m
      | None => _semantic_binding_use_error c binding right_ effect_id allow_reserved
      end).

Definition PROVENANCE_FIELDS : list string := ["settlement_id"; "budget_bucket_id"; "matched_rule_id"].

Section Semantic.
Context `{CapabilityHost}.

Definition _semantic_binding_metadata_error (c : Capability) (binding : list (pyval * pyval)) : option string :=
  match metadata_value c "semantic_auto_approval" with
  | PDict m =>
      let expected := [("schema_version", PInt 1); ("binding_sha256", PStr (binding_digest binding));
                       ("request_id", dict_get_none binding "request_id");
                       ("assessment_id", dict_get_none binding "assessment_id");
                       ("policy_epoch_id", dict_get_none binding "policy_epoch_id")] in
      if has_non_str_key m || negb (keys_are m (map fst expected ++ PROVENANCE_FIELDS))
         || existsb (fun f => negb (nonempty_text (dict_get_none m f))) PROVENANCE_FIELDS
         || existsb (fun kv => negb (py_eq (dict_get_none m (fst kv)) (snd kv))) expected
      then Some "BindingV2 machine issuance provenance changed" else None
  | _ => Some "BindingV2 capability has no machine issuance provenance"
  end.

Definition _semantic_binding_host_validation_error (c : Capability) (binding context : list (pyval * pyval))
    (phase : string) (effect_id : option string) : res (option string) :=
  match semantic_validator with
  | None => Ok (Some "Host semantic authority validator is not configured")
  | Some validator =>
      match validator binding phase c context effect_id with
      | Ok _ => Ok None
      | Err (SemanticAuthorityTripDeferred code) => Err (SemanticAuthorityTripDeferred code)
      | Err _ => Ok (Some "Host semantic control rejected the BindingV2 grant")
      end
  end.

(** The latch, then the deferred exception or the observer. *)
Definition _trip_semantic_binding_violation (code phase : string) : M CStore unit :=
  _ ← modify trip;
  if negb (String.eqb phase "authorize") then raise (SemanticAuthorityTripDeferred code)
  else if trip_observed then attest (CapTrip code) else mret tt.

Definition _semantic_approval_constraint_error (c : Capability) (subject resource right_ : string)
    (context : list (pyval * pyval)) (phase : string) (effect_id : option string) (allow_reserved : bool)
    : M CStore (option string) :=
  if negb (_is_semantic_machine_capability c) then mret None else
  s ← get_state;
  if tripped s then mret (Some "Runtime semantic authority emergency latch is tripped") else
  let raw := constraint_value c APPROVAL_BINDING_KEY in
  let raw_code := if _raw_semantic_action_is_high_risk raw then "critical_high_grant" else "binding_mismatch" in
  if negb (is_semantic_binding raw) then
    _ ← _trip_semantic_binding_violation raw_code phase;
    mret (Some "BindingV2 schema marker is missing or malformed")
  else
  match normalize_approval_binding semantic_binding raw with
  | Err (TypeError _) | Err (ValueError _) | Err (ValidationError _) =>
      _ ← _trip_semantic_binding_violation raw_code phase;
      mret (Some "BindingV2 is malformed")
  | Err e => raise e
  | Ok binding =>
      structural ← lift_res (_semantic_binding_capability_error c binding subject resource right_ effect_id
                               allow_reserved);
      match structural with
      | Some m =>
          _ ← _trip_semantic_binding_violation (_semantic_structural_trip_code c binding m) phase;
          mret (Some m)
      | None =>
          match _semantic_binding_metadata_error c binding with
          | Some m => _ ← _trip_semantic_binding_violation "binding_mismatch" phase; mret (Some m)
          | None => lift_res (_semantic_binding_host_validation_error c binding context phase effect_id)
          end
      end
  end.
End Semantic.

(** ** Chains *)

Section Manager.
Context `{CapabilityHost} `{ExecEvidence}.

Definition _is_expired (c : Call) (cap : Capability) : bool := is_expired parse_time cap (call_now c).

(** Enough fuel to visit every capability once. *)
Definition chain_fuel (s : CStore) : nat := S (S (size (cap_rows s))).

Definition chain_exhausted {A} : res A := Err (RuntimeError "capability chain budget exhausted").

Fixpoint parents_active (fuel : nat) (c : Call) (s : CStore) (seen : list string) (parent_id : option string)
    : res bool :=
  match parent_id, fuel with
  | None, _ => Ok true
  | Some _, O => chain_exhausted
  | Some i, S fuel =>
      if bool_decide (i ∈ seen) then Ok false else
      found ← get_capability i s;
      match found with
      | None => Ok false
      | Some parent =>
          if negb (active parent) || _is_expired c parent then Ok false
          else parents_active fuel c s (i :: seen) (cap_parent_cap_id parent)
      end
  end.

Definition _parent_chain_active (c : Call) (cap : Capability) (s : CStore) : res bool :=
  parents_active (chain_fuel s) c s [cap_id cap] (cap_parent_cap_id cap).

Fixpoint chain_constraint_error (fuel : nat) (s : CStore) (seen : list string) (current : option Capability)
    : res (option string) :=
  match current, fuel with
  | None, _ => Ok None
  | Some _, O => chain_exhausted
  | Some cap, S fuel =>
      if bool_decide (cap_id cap ∈ seen) then Ok (Some "capability parent chain contains a cycle") else
      e ← _constraint_validation_error (cap_constraints cap);
      match e with
      | Some m => Ok (Some m)
      | None =>
          next ← match cap_parent_cap_id cap with Some p => get_capability p s | None => Ok None end;
          chain_constraint_error fuel s (cap_id cap :: seen) next
      end
  end.

Definition _authority_chain_constraint_error (cap : Capability) (s : CStore) : res (option string) :=
  chain_constraint_error (chain_fuel s) s [] (Some cap).

(** [a or b] on identifiers. *)
Definition id_or (a b : option string) : option string :=
  match a with
  | Some i => if String.eqb i "" then b else a
  | None => b
  end.

Fixpoint issuers (fuel : nat) (s : CStore) (seen : list string) (current : option Capability)
    : res (list string) :=
  match current, fuel with
  | None, _ => Ok []
  | Some _, O => chain_exhausted
  | Some cap, S fuel =>
      if bool_decide (cap_id cap ∈ seen) then Ok [] else
      next ← match id_or (cap_parent_cap_id cap) (cap_issuer_cap_id cap) with
             | Some p => if String.eqb p "" then Ok None else get_capability p s
             | None => Ok None
             end;
      rest ← issuers fuel s (cap_id cap :: seen) next;
      Ok (cap_id cap :: rest)
  end.

Definition _issuer_chain (cap : Capability) (s : CStore) : res (list string) :=
  issuers (chain_fuel s) s [] (Some cap).

(** ** Matching *)

(** A comprehension whose condition may raise. *)
Definition filterR {A} (f : A → res bool) : list A → res (list A) :=
  fix go l :=
    match l with
    | [] => Ok []
    | x :: l' => b ← f x; rest ← go l'; Ok (if (b : bool) then x :: rest else rest)
    end.

(** [a and b], the second evaluated only when the first holds. *)
Definition andR (a : bool) (b : res bool) : res bool := if a then b else Ok false.

Definition live (c : Call) (cap : Capability) : bool := active cap && negb (_is_expired c cap).

Definition _matching_capabilities (c : Call) (subject resource right_ : string) (include_ask : bool)
    (s : CStore) : res (list Capability) :=
  _ ← parse resource true;
  listed ← list_capabilities (Some subject) s;
  matches ← filterR (fun cap =>
      andR (live c cap)
        (b ← _parent_chain_active c cap s;
         Ok (b && (include_ask || negb (bool_decide (cap_effect cap = CapabilityEffect.ASK)))
             && matches (cap_resource cap) resource && bool_decide (right_ ∈ cap_rights cap)))) listed;
  Ok (sort_matching_capabilities matches).

(** ** Decisions *)

Definition with_issuer_chain (chain : list string) (d : CapabilityDecision) : CapabilityDecision :=
  {| dec_subject := dec_subject d; dec_resource := dec_resource d; dec_right := dec_right d;
     dec_allowed := dec_allowed d; dec_effect := dec_effect d; dec_reason := dec_reason d;
     dec_matched_capability_ids := dec_matched_capability_ids d;
     dec_selected_capability_id := dec_selected_capability_id d;
     dec_consume_capability_id := dec_consume_capability_id d; dec_issuer_chain := chain;
     dec_constraint_results := dec_constraint_results d; dec_context := dec_context d |}.

Definition without_consumption (d : CapabilityDecision) : CapabilityDecision :=
  {| dec_subject := dec_subject d; dec_resource := dec_resource d; dec_right := dec_right d;
     dec_allowed := dec_allowed d; dec_effect := dec_effect d; dec_reason := dec_reason d;
     dec_matched_capability_ids := dec_matched_capability_ids d;
     dec_selected_capability_id := dec_selected_capability_id d;
     dec_consume_capability_id := None; dec_issuer_chain := dec_issuer_chain d;
     dec_constraint_results := dec_constraint_results d; dec_context := dec_context d |}.

(** [replace(capability, constraints={"invalid_persisted_constraint": True})]. *)
Definition disqualified (cap : Capability) : Capability :=
  with_columns (cap_rights cap) [("invalid_persisted_constraint", PBool true)] (cap_metadata cap) cap.

(** The capability as the evaluator sees it. *)
Definition evaluation_match (subject resource right_ : string) (context : list (pyval * pyval))
    (phase : string) (cap : Capability) : M CStore Capability :=
  semantic ← (if _is_semantic_machine_capability cap && String.eqb phase "authorize"
                 && negb (match dict_get_none context "semantic_exact_operation_context" with
                          | PBool true => true | _ => false end)
              then mret (Some "BindingV2 requires an exact Host operation context")
              else _semantic_approval_constraint_error cap subject resource right_ context phase None false);
  error ← match semantic with
          | Some m => mret (Some m)
          | None => viewing (_authority_chain_constraint_error cap)
          end;
  mret (match error with Some _ => disqualified cap | None => cap end).

Fixpoint evaluation_matches (subject resource right_ : string) (context : list (pyval * pyval))
    (phase : string) (l : list Capability) : M CStore (list Capability) :=
  match l with
  | [] => mret []
  | cap :: rest =>
      cap' ← evaluation_match subject resource right_ context phase cap;
      rest' ← evaluation_matches subject resource right_ context phase rest;
      mret (cap' :: rest')
  end.

Definition _record_decision (d : CapabilityDecision) (audit : bool) : M CStore CapabilityDecision :=
  if audit then
    _ ← attest (CapExpect "decision");
    _ ← attest (CapAudit (dec_subject d) "capability.authorize" (dec_resource d) (dec_matched_capability_ids d));
    mret d
  else mret d.

Definition selected_in (l : list Capability) (d : CapabilityDecision) : option Capability :=
  List.find (fun cap => bool_decide (dec_selected_capability_id d = Some (cap_id cap))) l.

Definition _decision_from_matches (subject resource right_ : string) (matches : list Capability)
    (context : list (pyval * pyval)) (audit : bool) (phase : string) : M CStore CapabilityDecision :=
  evaluated ← evaluation_matches subject resource right_ context phase matches;
  decision ← lift_res (CapabilityEvaluator.decide str_other float_of_str regex_config regex_engine semantic_binding payload_digest
                         subject resource right_ evaluated context (fun _ => []));
  decision ← match selected_in matches decision with
             | None => mret decision
             | Some selected =>
                 chain ← viewing (_issuer_chain selected);
                 mret (with_issuer_chain chain decision)
             end;
  _record_decision decision audit.

Definition _authorize_for_semantic_phase (c : Call) (subject resource right_ : string)
    (context : list (pyval * pyval)) (audit : bool) (phase : string) : M CStore CapabilityDecision :=
  matches ← viewing (_matching_capabilities c subject resource right_ true);
  _decision_from_matches subject resource right_ matches context audit phase.

Definition authorize (c : Call) (subject resource right_ : string) (context : ContextArg) (audit : bool)
    : M CStore CapabilityDecision :=
  _authorize_for_semantic_phase c subject resource right_ (context_dict context) audit "authorize".

Definition authorize_matching_capabilities (c : Call) (subject resource right_ : string)
    (capabilities : list Capability) (context : ContextArg) (audit : bool) : M CStore CapabilityDecision :=
  matches ← viewing (fun s => filterR (fun cap =>
      andR (String.eqb (cap_subject cap) subject && live c cap)
        (b ← _parent_chain_active c cap s;
         Ok (b && matches (cap_resource cap) resource && bool_decide (right_ ∈ cap_rights cap)))) capabilities);
  _decision_from_matches subject resource right_ (sort_matching_capabilities matches) (context_dict context)
    audit "authorize".

(** ** Revalidation *)

Definition authority_changed (reason : string) : exn :=
  CapabilityDenied ("capability authority changed before protected dispatch: " +:+ reason).

Definition reauthorize_decision (c : Call) (d : CapabilityDecision) (audit : bool)
    : M CStore CapabilityDecision :=
  current ← _authorize_for_semantic_phase c (dec_subject d) (dec_resource d) (dec_right d) (dec_context d)
              audit "prepare";
  _ ← lift_res (raise_if (negb (dec_allowed current)) (authority_changed (dec_reason current)));
  mret current.

Definition selected_changed : exn :=
  CapabilityDenied "selected capability authority changed before protected dispatch".

Definition reauthorize_selected_decision (c : Call) (d : CapabilityDecision) (audit : bool)
    : M CStore CapabilityDecision :=
  match dec_selected_capability_id d with
  | None => raise (CapabilityDenied "cannot reauthorize a denied or unbound capability decision")
  | Some id =>
      _ ← lift_res (raise_if (negb (dec_allowed d))
            (CapabilityDenied "cannot reauthorize a denied or unbound capability decision"));
      _ ← lift_res (raise_if (match dec_consume_capability_id d with
                              | Some i => negb (String.eqb i id) | None => false end)
            (CapabilityDenied "cached finite-use decision is not bound to its selected capability"));
      global_decision ← _authorize_for_semantic_phase c (dec_subject d) (dec_resource d) (dec_right d)
                          (dec_context d) audit "prepare";
      _ ← lift_res (raise_if (negb (dec_allowed global_decision)) (authority_changed (dec_reason global_decision)));
      found ← viewing (get_capability id);
      selected ← lift_res (of_option
                   (CapabilityDenied "selected capability no longer exists before protected dispatch") found);
      current_ok ← viewing (fun s =>
        andR (String.eqb (cap_subject selected) (dec_subject d) && live c selected)
          (b ← _parent_chain_active c selected s;
           Ok (b && matches (cap_resource selected) (dec_resource d)
               && bool_decide (dec_right d ∈ cap_rights selected))));
      _ ← lift_res (raise_if (negb current_ok) selected_changed);
      _ ← lift_res (raise_if (match metadata_value selected "object_handle" with PBool true => true | _ => false end
                              && negb (String.eqb (cap_resource selected) (dec_resource d)))
            (CapabilityDenied "named object capability no longer matches its exact resource"));
      current ← _decision_from_matches (dec_subject d) (dec_resource d) (dec_right d) [selected] (dec_context d)
                  audit "prepare";
      _ ← lift_res (raise_if (negb (dec_allowed current
                                     && bool_decide (dec_selected_capability_id current = Some id))) selected_changed);
      mret current
  end.

(** ** Using authority *)

(** [authority_transaction] and [selected_authority_transaction]. *)
Definition manager_transaction {A} (c : Call) (decisions : list (option CapabilityDecision))
    (actor operation : string) (body : list CapabilityDecision → M CStore A) : M CStore A :=
  authority_transaction (fun d => reauthorize_decision c d false) c decisions actor operation body.

Definition selected_transaction {A} (c : Call) (decisions : list (option CapabilityDecision))
    (actor operation : string) (body : list CapabilityDecision → M CStore A) : M CStore A :=
  authority_transaction (fun d => reauthorize_selected_decision c d false) c decisions actor operation body.

Definition require (c : Call) (subject resource right_ : string) (context : ContextArg) (consume_ : bool)
    (used_by : option string) (reason : string) : M CStore CapabilityDecision :=
  decision ← authorize c subject resource right_ context true;
  _ ← lift_res (raise_if (negb (dec_allowed decision)) (CapabilityDenied (dec_reason decision)));
  if negb consume_ then mret decision else
  let actor := match used_by with Some u => if String.eqb u "" then subject else u | None => subject end in
  manager_transaction c [Some decision] actor reason (fun current =>
    match current with
    | d :: _ => mret (without_consumption d)
    | [] => raise (RuntimeError "tuple index out of range")
    end).

Definition claim_decision_use (c : Call) (d : CapabilityDecision) (used_by reason : string) : M CStore unit :=
  _ ← lift_res (raise_if (negb (dec_allowed d)) (CapabilityDenied "cannot claim a denied capability decision"));
  manager_transaction c [Some d] used_by reason (fun _ => mret tt).

Definition consume_allow_once (c : Call) (subject resource right_ used_by : string) : M CStore unit :=
  decision ← authorize c subject resource right_ NoContext false;
  match dec_consume_capability_id decision with
  | None => mret tt
  | Some _ => claim_decision_use c decision used_by "one-time permission consumed"
  end.

Definition reserve_decision_use (c : Call) (decision : option CapabilityDecision) (used_by reason : string)
    : M CStore (option string) :=
  match decision with
  | None => mret None
  | Some d =>
      _ ← lift_res (raise_if (negb (dec_allowed d))
            (CapabilityDenied "cannot reserve a denied capability decision"));
      authority_unit (
        current ← reauthorize_decision c d false;
        reserve_decision c (Some current) used_by reason)
  end.

(** ** Delegation and transfer *)

Definition capabilities_for (subject : string) (s : CStore) : res (list Capability) :=
  list_capabilities (Some subject) s.

Definition rights_intersect (a b : list string) : bool := existsb (fun x => bool_decide (x ∈ b)) a.

Definition _resource_patterns_intersect (left right_ : string) : bool := covers left right_ || covers right_ left.

Definition cannot (subject action : string) (spec : CapabilitySpec) : exn :=
  CapabilityDenied (subject +:+ " cannot " +:+ action +:+ " on " +:+ sp_resource spec).

(** The well-formedness of the rules of a row; whatever is wrong denies. *)
Definition _require_parent_authority_rules_well_formed (cap : Capability) (subject : string)
    (spec : CapabilitySpec) (action : string) : res unit :=
  match constraint_value cap AUTHORITY_RULES_KEY with
  | PNone => Ok tt
  | raw =>
      match coerce_many str_other raw with
      | Err _ => Err (cannot subject action spec)
      | Ok rules =>
          e ← rule_conditions_error rules;
          raise_if (bool_decide (is_Some e)) (cannot subject action spec)
      end
  end.

(** The loop over the capabilities of the subject. *)
Fixpoint no_restrictive_boundary (c : Call) (s : CStore) (subject : string) (spec : CapabilitySpec)
    (action : string) (l : list Capability) : res unit :=
  match l with
  | [] => Ok tt
  | cap :: rest =>
      if negb (live c cap) then no_restrictive_boundary c s subject spec action rest else
      chain ← _parent_chain_active c cap s;
      if negb (chain && rights_intersect (sp_rights spec) (cap_rights cap)
               && _resource_patterns_intersect (cap_resource cap) (sp_resource spec))
      then no_restrictive_boundary c s subject spec action rest else
      _ ← _require_parent_authority_rules_well_formed cap subject spec action;
      _ ← raise_if (is_restrictive (cap_effect cap)) (cannot subject action spec);
      no_restrictive_boundary c s subject spec action rest
  end.

Definition _require_no_restrictive_parent_boundary (c : Call) (subject : string) (spec : CapabilitySpec)
    (action : string) (s : CStore) : res unit :=
  l ← capabilities_for subject s;
  no_restrictive_boundary c s subject spec action l.

Definition _require_valid_constraint_chain (parent : Capability) (s : CStore) : res unit :=
  e ← _authority_chain_constraint_error parent s;
  raise_if (bool_decide (is_Some e)) (CapabilityDenied "capability has invalid parent constraint chain").

Definition _require_temporal_attenuation (c : Call) (parent : Capability) (selected : CapabilitySpec) : res unit :=
  _ ← match sp_expires_at selected with
      | None => Ok tt
      | Some e =>
          t ← _expires_at_datetime (PStr e);
          raise_if (t <=? call_now c)%Z (ValidationError "capability expiry must be in the future")
      end;
  raise_if (match cap_expires_at parent, sp_expires_at selected with
            | Some p, Some e => str_ltb p e
            | _, _ => false
            end)
    (CapabilityDenied "capability cannot outlive parent capability").

Definition _capability_max_delegation_depth (cap : Capability) : Z :=
  default default_delegation_depth (cap_max_delegation_depth cap).

Definition _initial_max_delegation_depth (selected : CapabilitySpec) : option Z :=
  match sp_max_delegation_depth selected with
  | Some d => Some d
  | None => if sp_delegable selected then Some default_delegation_depth else None
  end.

Definition _delegated_max_delegation_depth (parent : Capability) (selected : CapabilitySpec) : Z :=
  default (_capability_max_delegation_depth parent) (sp_max_delegation_depth selected).

Definition _require_constraint_attenuation (parent : Capability) (spec : CapabilitySpec) : res unit :=
  e ← _constraint_attenuation_error (cap_constraints parent) (sp_constraints spec);
  match e with Some m => Err (CapabilityDenied m) | None => Ok tt end.

(** The requested limit is above the parent's. *)
Definition widens_depth (parent : Capability) (selected : CapabilitySpec) : bool :=
  match sp_max_delegation_depth selected with
  | Some d => (_capability_max_delegation_depth parent <? d)%Z
  | None => false
  end.

Definition _validate_delegation_parent (c : Call) (parent : Capability) (selected : CapabilitySpec) (s : CStore)
    : res unit :=
  _ ← _require_valid_constraint_chain parent s;
  _ ← raise_if (bool_decide (is_Some (cap_uses_remaining parent)))
        (CapabilityDenied "finite-use capabilities cannot be delegated");
  _ ← raise_if (sp_delegable selected && negb (cap_delegable parent))
        (CapabilityDenied "parent capability is not delegable");
  _ ← _require_temporal_attenuation c parent selected;
  let parent_max := _capability_max_delegation_depth parent in
  _ ← raise_if (parent_max <=? cap_delegation_depth parent)%Z (CapabilityDenied "delegation depth exhausted");
  _ ← raise_if (widens_depth parent selected)
        (CapabilityDenied "delegated capability cannot increase parent delegation depth");
  _ ← raise_if (sp_delegable selected
                && (default parent_max (sp_max_delegation_depth selected) <=? cap_delegation_depth parent + 1)%Z)
        (CapabilityDenied "delegated capability cannot be delegable after depth exhaustion");
  _require_constraint_attenuation parent selected.

Definition _validate_transfer_parent (c : Call) (parent : Capability) (selected : CapabilitySpec) (s : CStore)
    : res unit :=
  _ ← _require_valid_constraint_chain parent s;
  _ ← raise_if (negb (bool_decide (sp_effect selected = CapabilityEffect.ALLOW)))
        (CapabilityDenied "grant authority can only transfer allow capabilities");
  _ ← raise_if (bool_decide (is_Some (cap_uses_remaining parent)))
        (CapabilityDenied "finite-use capabilities cannot be granted onward");
  _ ← raise_if (sp_delegable selected && negb (cap_delegable parent))
        (CapabilityDenied "transferred capability cannot be delegable from non-delegable parent");
  _ ← _require_temporal_attenuation c parent selected;
  let parent_max := _capability_max_delegation_depth parent in
  _ ← raise_if (widens_depth parent selected)
        (CapabilityDenied "transferred capability cannot increase parent delegation depth");
  _ ← raise_if (sp_delegable selected && (parent_max <=? cap_delegation_depth parent + 1)%Z)
        (CapabilityDenied "transferred capability cannot be delegable after depth exhaustion");
  _require_constraint_attenuation parent selected.

(** [key=(len(resource), issued_at, cap_id), reverse=True]. *)
Definition parent_key_le (a b : Capability) : Prop :=
  (String.length (cap_resource b) < String.length (cap_resource a))%nat
  ∨ String.length (cap_resource a) = String.length (cap_resource b) ∧ issue_le b a.

#[export] Instance parent_key_le_dec : RelDecision parent_key_le.
Proof. intros a b. unfold parent_key_le. apply _. Defined.

(** The first candidate that validates, or the first refusal. *)
Fixpoint first_valid (validate : Capability → res unit) (first_error : option exn) (l : list Capability)
    : res Capability :=
  match l with
  | [] => match first_error with
          | Some e => Err e
          | None => Err (RuntimeError "assert first_error is not None")
          end
  | cap :: rest =>
      match validate cap with
      | Ok _ => Ok cap
      | Err e =>
          if is_capability_denied e
          then first_valid validate (match first_error with None => Some e | f => f end) rest
          else Err e
      end
  end.

Definition find_parent (c : Call) (subject : string) (spec : CapabilitySpec) (action : string)
    (extra : Capability → bool) (validate : Capability → res unit) (s : CStore) : res Capability :=
  _ ← _require_no_restrictive_parent_boundary c subject spec action s;
  l ← capabilities_for subject s;
  candidates ← filterR (fun cap =>
      andR (live c cap)
        (b ← _parent_chain_active c cap s;
         Ok (b && bool_decide (cap_effect cap = CapabilityEffect.ALLOW) && extra cap
             && covers (cap_resource cap) (sp_resource spec)
             && subset_of (sp_rights spec) (cap_rights cap)))) l;
  _ ← raise_if (bool_decide (candidates = [])) (cannot subject action spec);
  first_valid validate None (merge_sort parent_key_le candidates).

Definition _find_delegation_parent (c : Call) (parent : string) (spec : CapabilitySpec) (s : CStore)
    : res Capability :=
  find_parent c parent spec "delegate" cap_delegable (fun cap => _validate_delegation_parent c cap spec s) s.

Definition _find_transfer_parent (c : Call) (actor : string) (spec : CapabilitySpec) (s : CStore)
    : res Capability :=
  find_parent c actor spec "grant" (fun _ => true) (fun cap => _validate_transfer_parent c cap spec s) s.

(** ** Drafts *)

Definition _capability_draft (d : CapabilityDraft) : res CapabilityDraft :=
  _ ← raise_if (String.eqb (dr_subject d) "") (ValidationError "capability subject must be non-empty");
  _ ← parse (dr_resource d) false;
  rights ← _normalize_rights (rights_value (dr_rights d));
  _ ← _validate_constraints (dr_constraints d);
  uses ← _positive_uses_remaining (py_int_opt (dr_uses_remaining d));
  depth ← _max_delegation_depth (py_int_opt (dr_max_delegation_depth d));
  _ ← raise_if (match depth with Some m => (m <? dr_delegation_depth d)%Z | None => false end)
        (ValidationError "max_delegation_depth cannot be less than delegation_depth");
  expires ← _normalize_expires_at (py_opt (dr_expires_at d));
  Ok {| dr_subject := dr_subject d; dr_resource := canonical (dr_resource d); dr_rights := rights;
        dr_effect := dr_effect d; dr_constraints := dr_constraints d; dr_metadata := dr_metadata d;
        dr_issued_by := dr_issued_by d; dr_issuer_cap_id := dr_issuer_cap_id d;
        dr_parent_cap_id := dr_parent_cap_id d; dr_delegation_depth := dr_delegation_depth d;
        dr_max_delegation_depth := depth; dr_expires_at := expires; dr_uses_remaining := uses;
        dr_delegable := dr_delegable d; dr_revocable := dr_revocable d |}.

Definition _prepare_issue_draft (actor subject : string) (selected : CapabilitySpec)
    (transfer_parent : option Capability) (issuer_cap_id : option string) : res CapabilityDraft :=
  _capability_draft
    {| dr_subject := subject; dr_resource := sp_resource selected; dr_rights := sp_rights selected;
       dr_effect := sp_effect selected; dr_constraints := sp_constraints selected;
       dr_metadata := sp_metadata selected; dr_issued_by := actor; dr_issuer_cap_id := issuer_cap_id;
       dr_parent_cap_id := option_map cap_id transfer_parent;
       dr_delegation_depth := match transfer_parent with
                              | Some p => (cap_delegation_depth p + 1)%Z | None => 0%Z end;
       dr_max_delegation_depth :=
         match transfer_parent with
         | Some p => if sp_delegable selected then Some (_delegated_max_delegation_depth p selected)
                     else _initial_max_delegation_depth selected
         | None => _initial_max_delegation_depth selected
         end;
       dr_expires_at := match transfer_parent, sp_expires_at selected with
                        | Some p, None => cap_expires_at p
                        | _, e => e
                        end;
       dr_uses_remaining := sp_uses_remaining selected; dr_delegable := sp_delegable selected;
       dr_revocable := sp_revocable selected |}.

(** ** Issue *)

(** The deciding authority, and the parent whose rights a grant transfers. *)
Definition _require_issue_authority (c : Call) (actor : string) (spec : CapabilitySpec)
    : M CStore (CapabilityDecision * option Capability) :=
  admin ← authorize c actor (sp_resource spec) "admin" NoContext false;
  if dec_allowed admin then mret (admin, None) else
  grant ← authorize c actor (sp_resource spec) "grant" NoContext false;
  if dec_allowed grant then
    parent ← viewing (_find_transfer_parent c actor spec);
    _ ← viewing (_validate_transfer_parent c parent spec);
    mret (grant, Some parent)
  else raise (CapabilityDenied (actor +:+ " lacks grant/admin authority to issue on " +:+ sp_resource spec)).

Definition issue (c : Call) (actor subject : string) (request : SpecRequest) (issuer_cap_id : option string)
    (require_authority : bool) : M CStore Capability :=
  selected ← lift_res (_coerce_spec request);
  if negb require_authority then
    draft ← lift_res (_prepare_issue_draft actor subject selected None issuer_cap_id);
    issue_draft c draft actor None
  else
    authority ← _require_issue_authority c actor selected;
    manager_transaction c [Some (fst authority)] actor "capability issue" (fun current =>
      decision ← lift_res (of_option (RuntimeError "tuple index out of range") (head current));
      transfer ← match snd authority with
                 | None => mret None
                 | Some _ =>
                     parent ← viewing (_find_transfer_parent c actor selected);
                     _ ← viewing (_validate_transfer_parent c parent selected);
                     mret (Some parent)
                 end;
      draft ← lift_res (_prepare_issue_draft actor subject selected transfer (dec_selected_capability_id decision));
      issue_draft c draft actor None).

(** The spec of the trusted helpers. *)
Definition trusted_spec (resource : string) (rights : list string) (effect : CapabilityEffect)
    (constraints metadata : list (string * pyval)) (expires_at : option string) (uses_remaining : option Z)
    (delegable revocable : bool) (max_delegation_depth : option Z) : CapabilitySpec :=
  {| sp_resource := resource; sp_rights := rights; sp_effect := effect; sp_rules := []; sp_lease := None;
     sp_delegation := None; sp_constraints := constraints; sp_metadata := metadata;
     sp_expires_at := expires_at; sp_uses_remaining := uses_remaining; sp_delegable := delegable;
     sp_revocable := revocable; sp_max_delegation_depth := max_delegation_depth |}.

Definition issue_trusted (c : Call) (subject resource : string) (rights : list string) (issued_by : string)
    (effect : CapabilityEffect) (constraints metadata : list (string * pyval)) (expires_at : option string)
    (uses_remaining : option Z) (delegable revocable : bool) (max_delegation_depth : option Z)
    : M CStore Capability :=
  normalized ← lift_res (_normalize_rights (rights_value rights));
  issue c issued_by subject
    (SpecObject (trusted_spec resource normalized effect constraints metadata expires_at uses_remaining
                   delegable revocable max_delegation_depth)) None false.

Definition grant (c : Call) (subject resource : string) (rights : list string) (issued_by : string)
    (constraints metadata : list (string * pyval)) (expires_at : option string) (delegable revocable : bool)
    : M CStore Capability :=
  eu ← lift_res (_effect_from_policy
         match item_get constraints POLICY_KEY with Some v => py_str str_other v | None => "always_allow" end);
  issue_trusted c subject resource rights issued_by (fst eu) (item_pop constraints POLICY_KEY) metadata
    expires_at (snd eu) delegable revocable None.

Definition grant_once (c : Call) (subject resource : string) (rights : list string) (issued_by : option string)
    (constraints metadata : list (string * pyval)) (expires_at : option string) : M CStore Capability :=
  issue_trusted c subject resource rights
    (match issued_by with Some i => if String.eqb i "" then default_human_actor else i | None => default_human_actor end)
    CapabilityEffect.ALLOW constraints metadata expires_at (Some 1%Z) false true None.

Definition set_permission_policy (c : Call) (subject resource : string) (rights : list string) (policy : string)
    (issued_by : option string) (constraints : list (string * pyval)) (expires_at : option string)
    : M CStore Capability :=
  eu ← lift_res (_effect_from_policy policy);
  let actor := match issued_by with Some i => if String.eqb i "" then default_human_actor else i
               | None => default_human_actor end in
  authority_unit (
    cap ← issue_trusted c subject resource rights actor (fst eu) constraints [] expires_at (snd eu)
            false true None;
    _ ← attest (CapAudit actor "capability.permission_policy" (subject +:+ ":" +:+ resource) [cap_id cap]);
    mret cap).

(** ** Delegate *)

Definition _insert_capability (c : Call) (d : CapabilityDraft) : M CStore Capability :=
  draft ← lift_res (_capability_draft d);
  publish c draft.

Definition delegated_draft (parent child actor : string) (parent_cap : Capability) (selected : CapabilitySpec)
    : CapabilityDraft :=
  {| dr_subject := child; dr_resource := sp_resource selected; dr_rights := sp_rights selected;
     dr_effect := sp_effect selected; dr_constraints := sp_constraints selected;
     dr_metadata := item_set (sp_metadata selected) "delegated_from" (PStr parent); dr_issued_by := actor;
     dr_issuer_cap_id := Some (cap_id parent_cap); dr_parent_cap_id := Some (cap_id parent_cap);
     dr_delegation_depth := cap_delegation_depth parent_cap + 1;
     dr_max_delegation_depth := Some (_delegated_max_delegation_depth parent_cap selected);
     dr_expires_at := id_or (sp_expires_at selected) (cap_expires_at parent_cap);
     dr_uses_remaining := sp_uses_remaining selected; dr_delegable := sp_delegable selected;
     dr_revocable := sp_revocable selected |}.

(** [actor or parent]. *)
Definition actor_or (actor : option string) (parent : string) : string :=
  match actor with Some a => if String.eqb a "" then parent else a | None => parent end.

Definition _delegate_selected (c : Call) (parent child : string) (selected : CapabilitySpec)
    (actor : option string) : M CStore Capability :=
  parent_cap ← viewing (_find_delegation_parent c parent selected);
  cap ← _insert_capability c (delegated_draft parent child (actor_or actor parent) parent_cap selected);
  _ ← record_delegation cap parent_cap parent child (actor_or actor parent);
  mret cap.

Definition delegate (c : Call) (parent child : string) (request : SpecRequest) (actor : option string)
    : M CStore Capability :=
  selected ← lift_res (_coerce_spec request);
  authority_unit (_delegate_selected c parent child selected actor).

Definition validate_delegation (c : Call) (parent : string) (request : SpecRequest) : M CStore Capability :=
  selected ← lift_res (_coerce_spec request);
  viewing (_find_delegation_parent c parent selected).

Definition inherit (c : Call) (parent child resource : string) (rights : list string) (issued_by : string)
    (constraints : list (string * pyval)) : M CStore Capability :=
  normalized ← lift_res (_normalize_rights (rights_value rights));
  delegate c parent child
    (SpecObject (trusted_spec resource normalized CapabilityEffect.ALLOW constraints
                   [("issued_by", PStr issued_by)] None None false true None)) (Some issued_by).

(** ** Coverage and derivation *)

Inductive CoverParent : Type := CoverCapability (cap : Capability) | CoverSpec (request : SpecRequest).

(** What [spec_covers] compares of its first argument. *)
Record Ceiling : Type := {
  ce_resource : string; ce_rights : list string; ce_effect : CapabilityEffect;
  ce_constraints : list (string * pyval); ce_expires_at : option string; ce_uses : option Z;
  ce_delegable : bool; ce_max_depth : option Z;
}.

Definition ceiling_of (parent : CoverParent) : res Ceiling :=
  match parent with
  | CoverCapability cap =>
      Ok {| ce_resource := cap_resource cap; ce_rights := cap_rights cap; ce_effect := cap_effect cap;
            ce_constraints := cap_constraints cap; ce_expires_at := cap_expires_at cap;
            ce_uses := cap_uses_remaining cap; ce_delegable := cap_delegable cap;
            ce_max_depth := if cap_delegable cap || bool_decide (is_Some (cap_max_delegation_depth cap))
                            then Some (_capability_max_delegation_depth cap) else None |}
  | CoverSpec request =>
      sp ← _coerce_spec request;
      Ok {| ce_resource := sp_resource sp; ce_rights := sp_rights sp; ce_effect := sp_effect sp;
            ce_constraints := sp_constraints sp; ce_expires_at := sp_expires_at sp;
            ce_uses := sp_uses_remaining sp; ce_delegable := sp_delegable sp;
            ce_max_depth := _initial_max_delegation_depth sp |}
  end.

Definition _spec_root_covers (effect : CapabilityEffect) (resource : string) (selected : CapabilitySpec) : bool :=
  bool_decide (effect = CapabilityEffect.ALLOW) && covers resource (sp_resource selected).

Definition spec_covers (parent : CoverParent) (requested : SpecRequest) : res bool :=
  p ← ceiling_of parent;
  selected ← _coerce_spec requested;
  if negb (_spec_root_covers (ce_effect p) (ce_resource p) selected) then Ok false else
  if negb (subset_of (sp_rights selected) (ce_rights p)) then Ok false else
  e ← _constraint_attenuation_error (ce_constraints p) (sp_constraints selected);
  if bool_decide (is_Some e) then Ok false else
  if match ce_expires_at p, sp_expires_at selected with
     | Some t, None => true
     | Some t, Some x => str_ltb t x
     | None, _ => false
     end then Ok false else
  if match ce_uses p with
     | Some u => negb (bool_decide (sp_uses_remaining selected = Some u))
     | None => false
     end then Ok false else
  if sp_delegable selected && negb (ce_delegable p) then Ok false else
  Ok (match ce_max_depth p, sp_max_delegation_depth selected with
      | Some m, Some d => (d <=? m)%Z
      | _, _ => true
      end).

(** [any(self.spec_covers(limit, selected) for limit in ceiling)]. *)
Fixpoint any_covers (ceiling : list SpecRequest) (selected : CapabilitySpec) : res bool :=
  match ceiling with
  | [] => Ok false
  | limit :: rest =>
      b ← spec_covers (CoverSpec limit) (SpecObject selected);
      if (b : bool) then Ok true else any_covers rest selected
  end.

Fixpoint check_transition (c : Call) (source : string) (ceiling : list SpecRequest)
    (specs : list CapabilitySpec) : M CStore unit :=
  match specs with
  | [] => mret tt
  | selected :: rest =>
      covered ← (if bool_decide (ceiling = []) then mret true else lift_res (any_covers ceiling selected));
      _ ← lift_res (raise_if (negb covered)
            (CapabilityDenied ("authority exceeds transition ceiling: " +:+ sp_resource selected)));
      _ ← viewing (_find_delegation_parent c source selected);
      check_transition c source ceiling rest
  end.

Fixpoint delegate_each (c : Call) (source target actor : string) (specs : list CapabilitySpec)
    : M CStore (list Capability) :=
  match specs with
  | [] => mret []
  | selected :: rest =>
      cap ← _delegate_selected c source target selected (Some actor);
      caps ← delegate_each c source target actor rest;
      mret (cap :: caps)
  end.

Definition derive_authority (c : Call) (source target : string) (requested : list SpecRequest)
    (transition_kind : string) (ceiling : list SpecRequest) (actor : option string)
    : M CStore (list Capability) :=
  specs ← lift_res (mapR _coerce_spec requested);
  authority_unit (
    _ ← check_transition c source ceiling specs;
    derived ← delegate_each c source target (actor_or actor ("authority_transition:" +:+ transition_kind)) specs;
    _ ← attest (CapAudit (actor_or actor source) "capability.derive_authority" (source +:+ "->" +:+ target)
                  (map cap_id derived));
    mret derived).

(** ** Revocation *)

Definition _require_revoke_authority (c : Call) (actor : string) (cap : Capability)
    : M CStore (option CapabilityDecision) :=
  if String.eqb actor (cap_issued_by cap) then mret None else
  if String.eqb actor (cap_subject cap) then
    if bool_decide (cap_effect cap = CapabilityEffect.ALLOW) then mret None
    else raise (CapabilityDenied (actor +:+ " cannot self-revoke restrictive capability " +:+ cap_id cap))
  else
  revoke ← authorize c actor (cap_resource cap) "revoke" NoContext false;
  if dec_allowed revoke then mret (Some revoke) else
  admin ← authorize c actor (cap_resource cap) "admin" NoContext false;
  if dec_allowed admin then mret (Some admin)
  else raise (CapabilityDenied (actor +:+ " lacks revoke/admin authority for capability " +:+ cap_id cap)).

Definition revoke (c : Call) (id revoked_by : string) (require_authority : bool) : M CStore Capability :=
  cap ← _require_revocable id;
  authority ← (if require_authority then _require_revoke_authority c revoked_by cap else mret None);
  match authority with
  | None => revoke_row c id revoked_by None
  | Some d => manager_transaction c [Some d] revoked_by "capability revoke" (fun _ => revoke_row c id revoked_by None)
  end.

(** ** Object handles *)

Record ObjectHandle : Type := {
  oh_oid : string;
  oh_rights : list string;
  oh_capability_id : string;
  oh_expires_at : option string;
}.

Definition authorize_handle (c : Call) (subject : string) (handle : ObjectHandle) (right_ : string)
    : M CStore CapabilityDecision :=
  let resource := "object:" +:+ oh_oid handle in
  _ ← lift_res (raise_if (negb (bool_decide (right_ ∈ oh_rights handle)))
        (CapabilityDenied ("object handle lacks " +:+ right_ +:+ ": " +:+ oh_oid handle)));
  found ← viewing (get_capability (oh_capability_id handle));
  let invalid := CapabilityDenied ("invalid object capability: " +:+ oh_capability_id handle) in
  cap ← lift_res (of_option invalid found);
  valid ← viewing (fun s => andR (live c cap) (_parent_chain_active c cap s));
  _ ← lift_res (raise_if (negb valid) invalid);
  _ ← lift_res (raise_if (negb (String.eqb (cap_subject cap) subject))
        (CapabilityDenied ("capability subject mismatch: " +:+ cap_subject cap +:+ " != " +:+ subject)));
  _ ← lift_res (raise_if (negb (String.eqb (cap_resource cap) resource))
        (CapabilityDenied ("object handle resource mismatch: " +:+ cap_resource cap +:+ " != " +:+ resource)));
  _ ← lift_res (raise_if (negb (bool_decide (right_ ∈ cap_rights cap)))
        (CapabilityDenied ("object capability lacks " +:+ right_ +:+ ": " +:+ oh_oid handle)));
  global_decision ← authorize c subject resource right_ NoContext false;
  if negb (dec_allowed global_decision) then mret global_decision
  else authorize_matching_capabilities c subject resource right_ [cap] NoContext false.

Definition handle_changed : exn := CapabilityDenied "object handle authority changed before permission claim".

(** [except CapabilityDenied]. *)
Definition on_denied {A} (m : M CStore A) (e' : exn) : M CStore A := fun s =>
  match m s with
  | (s', Err e) => (s', Err (if is_capability_denied e then e' else e))
  | x => x
  end.

Definition _reauthorize_handle_decision (c : Call) (subject : string) (handle : ObjectHandle) (right_ : string)
    : M CStore CapabilityDecision :=
  current ← on_denied (authorize_handle c subject handle right_) handle_changed;
  _ ← lift_res (raise_if (negb (dec_allowed current)) handle_changed);
  _ ← lift_res (raise_if (negb (bool_decide (dec_selected_capability_id current = Some (oh_capability_id handle))))
        (CapabilityDenied "object handle authority no longer matches its named capability"));
  mret current.

Definition assert_handle (c : Call) (subject : string) (handle : ObjectHandle) (right_ : string) : M CStore unit :=
  decision ← authorize_handle c subject handle right_;
  _ ← lift_res (raise_if (negb (dec_allowed decision))
        (CapabilityDenied ("capability lacks " +:+ right_ +:+ ": " +:+ oh_oid handle)));
  authority_transaction (fun _ => _reauthorize_handle_decision c subject handle right_) c [Some decision]
    "object_memory" "object handle permission" (fun _ => mret tt).

Definition handle_for_object (c : Call) (subject oid : string) (rights : list string) (issued_by : string)
    (expires_at : option string) (uses_remaining : option Z) (metadata : list (string * pyval))
    : M CStore ObjectHandle :=
  normalized ← lift_res (_normalize_rights (rights_value rights));
  cap ← issue_trusted c subject ("object:" +:+ oid) normalized issued_by CapabilityEffect.ALLOW []
          (item_set metadata "object_handle" (PBool true)) expires_at uses_remaining false true None;
  mret {| oh_oid := oid; oh_rights := normalized; oh_capability_id := cap_id cap; oh_expires_at := expires_at |}.

(** ** Transitions *)

Definition has_wildcard (r : string) : bool := endswith ":*" r || endswith "/*" r.

Definition resources_overlap (left right_ : string) : res bool :=
  match (l ← parse left false; r ← parse right_ false; Ok (l, r)) with
  | Err e => if is_capability_denied e then Ok (String.eqb left right_) else Err e
  | Ok (l, r) =>
      Ok (String.eqb (rp_kind l) (rp_kind r)
          && (matches left right_ || matches right_ left
              || (has_wildcard left || has_wildcard right_)
                 && (startswith (rp_body r) (rp_body l) || startswith (rp_body l) (rp_body r))))
  end.

(** [any(right in candidate.rights and self.resources_overlap(...))]. *)
Fixpoint any_overlap (resource right_ : string) (l : list Capability) : res bool :=
  match l with
  | [] => Ok false
  | cap :: rest =>
      b ← andR (bool_decide (right_ ∈ cap_rights cap)) (resources_overlap resource (cap_resource cap));
      if (b : bool) then Ok true else any_overlap resource right_ rest
  end.

Fixpoint transferable (c : Call) (cap : Capability) (kind : string) (restrictive : list Capability)
    (rights : list string) : M CStore (list string) :=
  match rights with
  | [] => mret []
  | r :: rest =>
      blocked ← lift_res (any_overlap (cap_resource cap) r restrictive);
      if (blocked : bool) then transferable c cap kind restrictive rest else
      decision ← authorize c (cap_subject cap) (cap_resource cap) r
                   (MappingContext [(PStr "primitive", PStr "authority_transition"); (PStr "operation", PStr kind)])
                   false;
      others ← transferable c cap kind restrictive rest;
      mret (if dec_allowed decision && bool_decide (dec_selected_capability_id decision = Some (cap_id cap))
            then r :: others else others)
  end.

Definition transition_allowed_rights (c : Call) (cap : Capability) (kind : string) (duplicates_authority : bool)
    : M CStore (list string) :=
  if negb (live c cap) then mret [] else
  if duplicates_authority && bool_decide (is_Some (cap_uses_remaining cap)) then mret [] else
  let rights := merge_sort str_le (cap_rights cap) in
  if negb (bool_decide (cap_effect cap = CapabilityEffect.ALLOW)) then mret rights else
  listed ← viewing (capabilities_for (cap_subject cap));
  allowed ← transferable c cap kind
    (List.filter (fun candidate => live c candidate && is_restrictive (cap_effect candidate)) listed) rights;
  _ ← attest (CapAudit (cap_subject cap) "capability.transition_filter" ("capability:" +:+ cap_id cap) [cap_id cap]);
  mret allowed.

(** ** Semantic approvals of cached decisions *)

Definition is_semantic_approval_decision (d : CapabilityDecision) (s : CStore) : res bool :=
  match dec_selected_capability_id d with
  | None => Ok false
  | Some id =>
      found ← get_capability id s;
      Ok (match found with Some cap => _is_semantic_machine_capability cap | None => false end)
  end.

Definition require_semantic_approval_current (d : CapabilityDecision) (phase : string) (effect_id : option string)
    (allow_reserved : bool) : M CStore unit :=
  match dec_selected_capability_id d with
  | None => mret tt
  | Some id =>
      found ← viewing (get_capability id);
      cap ← lift_res (of_option
        (CapabilityDenied "semantic approval capability disappeared before protected dispatch") found);
      if negb (_is_semantic_machine_capability cap) then mret tt else
      error ← _semantic_approval_constraint_error cap (dec_subject d) (dec_resource d) (dec_right d)
                (dec_context d) phase effect_id allow_reserved;
      match error with
      | Some m => raise (CapabilityDenied ("semantic one-shot authority is no longer current: " +:+ m))
      | None => mret tt
      end
  end.
End Manager.
