(* ===== verification/CapabilityEvolution.v ===== *)
(** * How capability tables evolve

    Rows keep what they grant; a finite use is never given out twice; a row
    that was retired with no open reservation stays retired; and a delegated
    row is attenuated.  Every operation on the tables respects all of it.  First,
    the shape of the rows themselves. *)

From S2P Require Import Prelude FiniteSums PyStr PyVal PyEnum ProcessState ProcessModel ProcessStore ResourceAuthority CapabilityModel AuthorityRules CapabilityEvaluator JsonColumn CapabilityTables CapabilityLease CapabilitySpec CapabilityManager.
From stdpp Require Import sorting.

(** ** Rows of the capability tables

    The rows that an insert or an update can leave, and that reading or writing
    one again changes nothing. *)

(** ** Whole rows *)

Lemma remove_dups_same {A} `{EqDecision A} (l : list A) : NoDup l → remove_dups l = l.
Proof. induction 1 as [|x l Hx _ IH]; cbn; [done|]. destruct (decide_rel _ x l); [done|]. by rewrite IH. Qed.

Lemma right_set_idem l : right_set (right_set l) = right_set l.
Proof.
  unfold right_set at 1. rewrite remove_dups_same.
  - apply (Sorted_unique str_le); [apply Sorted_merge_sort, _..|apply merge_sort_Permutation].
  - unfold right_set. rewrite merge_sort_Permutation. apply NoDup_remove_dups.
Qed.

Lemma elem_of_right_set r l : r ∈ right_set l ↔ r ∈ l.
Proof. unfold right_set. by rewrite merge_sort_Permutation, elem_of_remove_dups. Qed.

Lemma validated_rights_ok l l' :
  _validated_capability_rights l = Ok l' ↔ l ≠ [] ∧ forallb known_right l = true ∧ l' = right_set l.
Proof.
  unfold _validated_capability_rights. rewrite bind_Ok. setoid_rewrite bind_Ok. split.
  - intros (u & Hn & u' & Hk & [= <-]). apply raise_if_Ok in Hn, Hk.
    apply bool_decide_eq_false in Hn. apply negb_false_iff in Hk. done.
  - intros (Hn & Hk & ->). exists tt. rewrite raise_if_Ok, bool_decide_eq_false. split; [done|].
    exists tt. by rewrite raise_if_Ok, Hk.
Qed.

Lemma validated_rights_stable l l' :
  _validated_capability_rights l = Ok l' → _validated_capability_rights l' = Ok l'.
Proof.
  rewrite !validated_rights_ok. intros (Hn & Hk & ->). split_and!.
  - intros E. destruct l as [|x l]; [done|]. assert (x ∈ right_set (x :: l)) as Hx by (apply elem_of_right_set; left).
    rewrite E in Hx. by apply not_elem_of_nil in Hx.
  - apply forallb_forall. intros x Hx%list_elem_of_In. rewrite elem_of_right_set in Hx. rewrite forallb_forall in Hk. by apply Hk, list_elem_of_In.
  - by rewrite right_set_idem.
Qed.

Lemma with_columns_id row rights c m :
  with_columns rights c m row = row ↔ rights = cap_rights row ∧ c = cap_constraints row ∧ m = cap_metadata row.
Proof. destruct row; cbn. split; [intros [= -> -> ->]; done|intros (-> & -> & ->); done]. Qed.

Section Rows.
Context `{CapabilityHost}.

(** What makes the parameters of a row valid. *)
Record params_valid (cap : Capability) : Prop := {
  pv_uses : is_Ok (_capability_uses_remaining (cap_uses_remaining cap) (cap_status cap)) = true;
  pv_rights : is_Ok (_validated_capability_rights (cap_rights cap)) = true;
  pv_limit : (length (right_set (cap_rights cap)) <= max_rights_per_capability)%nat;
  pv_scalars : _capability_authority_scalars cap = Ok tt;
  pv_constraints : forallb (fun kv => json_dumpable (snd kv)) (cap_constraints cap) = true;
  pv_metadata : forallb (fun kv => json_dumpable (snd kv)) (cap_metadata cap) = true;
}.

Lemma json_object_ok label d u :
  _capability_json_object label d = Ok u ↔ forallb (fun kv => json_dumpable (snd kv)) d = true.
Proof. unfold _capability_json_object. by rewrite raise_if_Ok, negb_false_iff. Qed.

Lemma params_ok cap row :
  capability_params cap = Ok row ↔
  params_valid cap ∧ ∃ c m, json_column str_other (cap_constraints cap) = Ok c
    ∧ json_column str_other (cap_metadata cap) = Ok m
    ∧ row = with_columns (right_set (cap_rights cap)) c m cap.
Proof.
  unfold capability_params. split.
  - intros (u & Hu & E)%bind_Ok. apply bind_Ok in E as (l & Hr & E). apply bind_Ok in E as ([] & Hc & E).
    apply bind_Ok in E as ([] & Hm & E). apply bind_Ok in E as ([] & Hl & E).
    apply bind_Ok in E as ([] & Hs & E). apply bind_Ok in E as (c & Ec & E). apply bind_Ok in E as (m & Em & [= <-]).
    pose proof Hr as (_ & _ & ->)%validated_rights_ok. apply json_object_ok in Hc, Hm.
    apply raise_if_Ok, Nat.ltb_ge in Hl. split; [|by eauto 10].
    split; [by rewrite Hu|by rewrite Hr|done..].
  - intros [[Hu Hr Hl Hs Hc Hm] (c & m & Ec & Em & ->)].
    destruct (_capability_uses_remaining _ _); [|done]. rewrite res_bind_ok.
    destruct (_validated_capability_rights _) as [l|] eqn:El; [|done]. rewrite res_bind_ok.
    apply validated_rights_ok in El as (_ & _ & ->).
    rewrite (proj2 (json_object_ok _ _ tt) Hc), (proj2 (json_object_ok _ _ tt) Hm), !res_bind_ok.
    assert ((max_rights_per_capability <? length (right_set (cap_rights cap)))%nat = false) as -> by by apply Nat.ltb_ge.
    cbn [raise_if]. by rewrite res_bind_ok, Hs, res_bind_ok, Ec, res_bind_ok, Em, res_bind_ok.
Qed.

(** A stored row: writing it again leaves it alone. *)
Definition stored_row (row : Capability) : Prop := capability_params row = Ok row.

Lemma stored_row_spec row :
  stored_row row ↔ params_valid row ∧ right_set (cap_rights row) = cap_rights row
    ∧ json_column str_other (cap_constraints row) = Ok (cap_constraints row)
    ∧ json_column str_other (cap_metadata row) = Ok (cap_metadata row).
Proof.
  unfold stored_row. rewrite params_ok. split.
  - intros [Hv (c & m & Ec & Em & Er)]. symmetry in Er. apply with_columns_id in Er as (? & -> & ->). done.
  - intros (Hv & Hr & Ec & Em). split; [done|]. exists (cap_constraints row), (cap_metadata row).
    split_and!; [done..|]. symmetry. by apply with_columns_id.
Qed.

Lemma params_stored cap row : capability_params cap = Ok row → stored_row row.
Proof.
  intros E. apply params_ok in E as [[Hu Hr Hl Hs Hc Hm] (c & m & Ec & Em & ->)].
  apply json_column_stable in Ec as [Hc' Ec]. apply json_column_stable in Em as [Hm' Em].
  apply stored_row_spec. cbn. split_and!; [|apply right_set_idem|done..].
  destruct (_validated_capability_rights (cap_rights cap)) as [l|] eqn:El; [|done].
  apply validated_rights_ok in El as HE. destruct HE as (_ & _ & ->). apply validated_rights_stable in El.
  split; cbn; [done|by rewrite El|by rewrite right_set_idem|done..].
Qed.

Lemma stored_decodes row : stored_row row → _row_to_capability row = Ok row.
Proof.
  intros (Hv & Hr & _ & _)%stored_row_spec. destruct Hv as [Hu Hri Hl Hs Hc Hm].
  unfold _row_to_capability, decode_capability.
  destruct (_capability_uses_remaining _ _); [|done]. rewrite res_bind_ok, Hs, res_bind_ok.
  destruct (_validated_capability_rights _) as [l|] eqn:El; [|done].
  unfold _persisted_capability_rights. rewrite El, res_bind_ok.
  apply validated_rights_ok in El as (_ & _ & ->). rewrite Hr, Nat.eqb_refl. cbn [negb raise_if].
  rewrite res_bind_ok, res_bind_ok.
  assert ((max_rights_per_capability <? length (cap_rights row))%nat = false) as -> by (apply Nat.ltb_ge; by rewrite <-Hr).
  cbn [raise_if]. rewrite res_bind_ok, (proj2 (json_object_ok _ _ tt) Hc), (proj2 (json_object_ok _ _ tt) Hm), !res_bind_ok.
  cbn. f_equal. by apply with_columns_id.
Qed.

(** The columns [with_state] writes. *)
Definition state_valid (u : option Z) (st : CapabilityStatus) : Prop :=
  match u with
  | Some n => (0 <= n)%Z ∧ (st = CapabilityStatus.ACTIVE → (1 <= n)%Z)
  | None => True
  end.

Lemma uses_valid u st : is_Ok (_capability_uses_remaining u st) = true ↔ state_valid u st.
Proof.
  unfold _capability_uses_remaining, state_valid. destruct u as [n|]; [|done].
  destruct (Z.ltb_spec n 0); cbn; [split; [done|intros [? _]; lia]|].
  case_bool_decide; destruct (Z.ltb_spec n 1); cbn; split; intros Hx; try done.
  destruct Hx as [_ Hx]. specialize (Hx ltac:(done)). lia.
Qed.

Lemma stored_with_state u st m row :
  stored_row row → state_valid u st → json_column str_other m = Ok m → stored_row (with_state u st m row).
Proof.
  intros (Hv & Hr & Hc & _)%stored_row_spec Hs Hm. apply stored_row_spec. cbn. split_and!; [|done..].
  destruct Hv as [Hu Hri Hl Hsc Hco _]. split; cbn; [by apply uses_valid|done..|].
  by apply (json_column_stable str_other m m).
Qed.

Lemma stored_valid row : stored_row row → state_valid (cap_uses_remaining row) (cap_status row).
Proof. intros ([Hu _ _ _ _ _] & _)%stored_row_spec. by apply uses_valid. Qed.

Lemma stored_metadata row : stored_row row → json_column str_other (cap_metadata row) = Ok (cap_metadata row).
Proof. by intros (_ & _ & _ & ?)%stored_row_spec. Qed.
End Rows.

(** ** What is observed of the tables *)

(** The uses a reservation has taken from its capability. *)
Definition spent_of (id : string) (u : UseReservation) : Z :=
  if String.eqb (use_cap u) id && negb (bool_decide (use_status u = UseStatus.restored)) then use_count u else 0%Z.

Definition spent (s : CStore) (id : string) : Z := map_sum (spent_of id) (use_rows s).

Definition open_use (s : CStore) (id : string) : Prop :=
  ∃ r u, use_rows s !! r = Some u ∧ use_cap u = id ∧ use_status u = UseStatus.reserved.

Definition retired_status (st : CapabilityStatus) : Prop :=
  st = CapabilityStatus.REVOKED ∨ st = CapabilityStatus.DISABLED.

(** Retired for good: no reservation can bring it back. *)
Definition dead (s : CStore) (id : string) : Prop :=
  ∃ row, cap_rows s !! id = Some row ∧ retired_status (cap_status row) ∧ ¬ open_use s id.

(** The columns that never change. *)
Definition same_grant (row row' : Capability) : Prop :=
  ∃ u st m, row' = with_state u st m row ∧ (u = None ↔ cap_uses_remaining row = None).

(** The value a delegated constraint keeps of its parent's. *)
Definition keeps_value (key : string) (v' v : pyval) : bool :=
  if String.eqb key "git_allowed_refs" then texts_subset v' v else py_eq v' v.

Section Evolution.
Context `{CapabilityHost}.

(** A time as [isoformat] writes it. *)
Definition dated_text (e : string) : Prop := ∃ x t, expires_at_datetime parse_time x = Ok t ∧ e = format_time t.

(** What [C] grants of [P].  Expiries are compared as the code compares them,
    as texts, before the child's is normalized once more. *)
Record attenuates (P C : Capability) : Prop := {
  at_effect : cap_effect P = CapabilityEffect.ALLOW;
  at_unlimited : cap_uses_remaining P = None;
  at_rights : subset_of (cap_rights C) (cap_rights P) = true;
  at_resource : matches (cap_resource P) (cap_resource C) = true;
  at_constraints k v : item_get (cap_constraints P) k = Some v →
    ∃ v', item_get (cap_constraints C) k = Some v' ∧ keeps_value k v' v = true;
  at_effects k : k ∈ effect_keys → item_has (cap_constraints C) k = true → item_has (cap_constraints P) k = true;
  at_expiry p : cap_expires_at P = Some p →
    ∃ e, (e = p ∨ dated_text e) ∧ str_ltb p e = false ∧ _normalize_expires_at (PStr e) = Ok (cap_expires_at C);
  at_depth : cap_delegation_depth C = (cap_delegation_depth P + 1)%Z;
  at_delegable : cap_delegable C = true → cap_delegable P = true
    ∧ (cap_delegation_depth C < _capability_max_delegation_depth P)%Z
    ∧ (_capability_max_delegation_depth C <= _capability_max_delegation_depth P)%Z;
}.

Definition has_parent (s : CStore) (row : Capability) : Prop :=
  ∀ p, cap_parent_cap_id row = Some p → ∃ prow, cap_rows s !! p = Some prow ∧ attenuates prow row.

(** A row expires at a time as [isoformat] writes it, and is attenuated from the
    parent it names. *)
Definition parented (s : CStore) (row : Capability) : Prop :=
  (∀ e, cap_expires_at row = Some e → dated_text e) ∧ has_parent s row.

Record caps_ok (s : CStore) : Prop := {
  ck_row id row : cap_rows s !! id = Some row →
    cap_id row = id ∧ stored_row row
    ∧ (cap_status row = CapabilityStatus.EXEC_REVOKED → state_valid (cap_uses_remaining row) CapabilityStatus.ACTIVE);
  ck_use r u : use_rows s !! r = Some u → use_id u = r ∧ (1 <= use_count u)%Z;
}.

Record evolves (s s' : CStore) : Prop := {
  ev_rows id row : cap_rows s !! id = Some row →
    ∃ row', cap_rows s' !! id = Some row' ∧ same_grant row row'
      ∧ (∀ n, cap_uses_remaining row = Some n → ∃ n', cap_uses_remaining row' = Some n'
           ∧ (n' + spent s' id <= n + spent s id)%Z);
  ev_dead id : dead s id → dead s' id;
  ev_born id row' : cap_rows s !! id = None → cap_rows s' !! id = Some row' → parented s' row';
}.

(** One step keeps well-formed tables well formed and lets them evolve. *)
Definition advance (s s' : CStore) : Prop := caps_ok s → caps_ok s' ∧ evolves s s'.

(** ** Order *)

Lemma same_grant_refl row : same_grant row row.
Proof. exists (cap_uses_remaining row), (cap_status row), (cap_metadata row). by destruct row. Qed.

Lemma same_grant_trans a b c : same_grant a b → same_grant b c → same_grant a c.
Proof.
  intros (u & st & m & -> & Hu) (u' & st' & m' & -> & Hu'). exists u', st', m'. split; [done|]. cbn in Hu'. by rewrite Hu', Hu.
Qed.

Lemma attenuates_same P P' C C' : same_grant P P' → same_grant C C' → attenuates P C → attenuates P' C'.
Proof.
  intros (u & st & m & -> & Hu) (u' & st' & m' & -> & _) []. split; cbn; try done. by apply Hu.
Qed.

Lemma parented_evolves s s' row row' :
  evolves s s' → same_grant row row' → parented s row → parented s' row'.
Proof.
  intros Hev Hs [Hd Hp]. pose proof Hs as (u & st & m & Erow & _). split; [by subst row'|]. intros p Ep.
  assert (cap_parent_cap_id row = Some p) as Ep' by (by subst row').
  destruct (Hp p Ep') as (prow & Hprow & Ha). destruct (ev_rows _ _ Hev p prow Hprow) as (prow' & Hprow' & Hs' & _).
  exists prow'. split; [done|]. by eapply attenuates_same.
Qed.

Lemma evolves_refl s : evolves s s.
Proof.
  split; [|done|intros; congruence]. intros id row Hr. exists row. split; [done|]. split; [apply same_grant_refl|].
  intros n Hn. exists n. split; [done|lia].
Qed.

Lemma evolves_trans s1 s2 s3 : evolves s1 s2 → evolves s2 s3 → evolves s1 s3.
Proof.
  intros H1 H2. split.
  - intros id row Hr. destruct (ev_rows _ _ H1 _ _ Hr) as (row2 & Hr2 & Hs2 & Hu2).
    destruct (ev_rows _ _ H2 _ _ Hr2) as (row3 & Hr3 & Hs3 & Hu3).
    exists row3. split; [done|]. split; [by eapply same_grant_trans|].
    intros n Hn. destruct (Hu2 n Hn) as (n2 & Hn2 & L2). destruct (Hu3 n2 Hn2) as (n3 & Hn3 & L3).
    exists n3. split; [done|lia].
  - intros id Hd. by apply (ev_dead _ _ H2), (ev_dead _ _ H1).
  - intros id row3 Hn Hr3. destruct (cap_rows s2 !! id) as [row2|] eqn:Hr2.
    + destruct (ev_rows _ _ H2 _ _ Hr2) as (row3' & Hr3' & Hs3 & _). rewrite Hr3 in Hr3'. injection Hr3' as <-.
      eapply parented_evolves; [exact H2|exact Hs3|]. by eapply (ev_born _ _ H1).
    + by eapply (ev_born _ _ H2).
Qed.

#[export] Instance advance_preorder : PreOrder advance.
Proof.
  split.
  - intros s Hs. split; [done|apply evolves_refl].
  - intros s1 s2 s3 H1 H2 Hs. destruct (H1 Hs) as [Hs2 E1]. destruct (H2 Hs2) as [Hs3 E2].
    split; [done|by eapply evolves_trans].
Qed.

(** ** The rules of [advance] *)

(** The tables are the same. *)
Definition same_tables (s s' : CStore) : Prop := cap_rows s' = cap_rows s ∧ use_rows s' = use_rows s.

Lemma dead_same s s' id : same_tables s s' → dead s id → dead s' id.
Proof.
  intros [Ec Eu] (row & Hr & Hst & Ho). exists row. rewrite Ec. split_and!; [done..|].
  intros (r & u & Hu & Hrest). apply Ho. exists r, u. by rewrite <-Eu.
Qed.

Lemma advance_same s s' : same_tables s s' → advance s s'.
Proof.
  intros Hsame [Hr Hu]. pose proof Hsame as [Ec Eu]. split; [split; intros; [apply Hr|apply Hu]; congruence|].
  split.
  - intros id row Hrow. exists row. rewrite Ec. split; [done|]. split; [apply same_grant_refl|].
    intros n Hn. exists n. split; [done|]. unfold spent. rewrite Eu. lia.
  - intros id. by apply dead_same.
  - rewrite Ec. intros; congruence.
Qed.

Lemma lift_res_Ok {S A} (r : res A) (s s' : S) a : lift_res r s = (s', Ok a) ↔ s' = s ∧ r = Ok a.
Proof. unfold lift_res. split; [by intros [= -> ->]|by intros [-> ->]]. Qed.

Lemma viewing_Ok {A} (f : CStore → res A) s s' a : viewing f s = (s', Ok a) ↔ s' = s ∧ f s = Ok a.
Proof. unfold viewing. split; [by intros [= -> ->]|by intros [-> ->]]. Qed.

(** An operation all of whose runs advance, and one whose returning runs do. *)
Definition obeys {A} (m : M CStore A) : Prop := ∀ s s' r, m s = (s', r) → advance s s'.
Definition obeys_ok {A} (m : M CStore A) : Prop := ∀ s s' a, m s = (s', Ok a) → advance s s'.

Lemma obeys_obeys_ok {A} (m : M CStore A) : obeys m → obeys_ok m.
Proof. intros Hm s s' a. apply Hm. Qed.

Lemma obeys_bind {A B} (m : M CStore A) (k : A → M CStore B) : obeys m → (∀ a, obeys (k a)) → obeys (m ≫= k).
Proof.
  intros Hm Hk s s' r. unfold mbind, M_bind. destruct (m s) as [s1 [a|e]] eqn:E1.
  - intros E2. transitivity s1; [by eapply Hm|by eapply Hk].
  - intros [= <- <-]. by eapply Hm.
Qed.

Lemma obeys_lift_bind {A B} (x : res A) (k : A → M CStore B) : (∀ a, x = Ok a → obeys (k a)) → obeys (lift_res x ≫= k).
Proof. intros Hk s s' r E. destruct x as [a|e]; [by apply (Hk a eq_refl) in E|]. by injection E as <- _. Qed.

Lemma obeys_ok_bind {A B} (m : M CStore A) (k : A → M CStore B) :
  obeys_ok m → (∀ a, obeys_ok (k a)) → obeys_ok (m ≫= k).
Proof. intros Hm Hk s s' b (a & s1 & E1 & E2)%M_bind_Ok. transitivity s1; [by eapply Hm|by eapply Hk]. Qed.

Lemma obeys_unit {A} (m : M CStore A) : obeys_ok m → obeys (authority_unit m).
Proof.
  intros Hm s s' r. unfold authority_unit. destruct (m s) as [s1 [a|e]] eqn:E; intros [= <- <-].
  - by eapply Hm.
  - by apply advance_same.
Qed.

Lemma authority_unit_Ok {A} (m : M CStore A) s s' a : authority_unit m s = (s', Ok a) ↔ m s = (s', Ok a).
Proof. unfold authority_unit. destruct (m s) as [? []]; naive_solver. Qed.

Lemma obeys_ok_unit {A} (m : M CStore A) : obeys_ok m → obeys_ok (authority_unit m).
Proof. intros Hm. by apply obeys_obeys_ok, obeys_unit. Qed.

Lemma obeys_quiet {A} (m : M CStore A) : (∀ s, same_tables s (fst (m s))) → obeys m.
Proof. intros Hm s s' r E. apply advance_same. specialize (Hm s). by rewrite E in Hm. Qed.

Lemma obeys_viewing {A} (f : CStore → res A) : obeys (viewing f).
Proof. by apply obeys_quiet. Qed.
Lemma obeys_lift {A} (r : res A) : obeys (lift_res r).
Proof. by apply obeys_quiet. Qed.
Lemma obeys_ret {A} (a : A) : obeys (mret a).
Proof. by apply obeys_quiet. Qed.
Lemma obeys_raise {A} e : obeys (raise e : M CStore A).
Proof. by apply obeys_quiet. Qed.
Lemma obeys_get : obeys get_state.
Proof. by apply obeys_quiet. Qed.
Lemma obeys_attest e : obeys (attest e).
Proof. by apply obeys_quiet. Qed.
Lemma obeys_trip : obeys (modify trip).
Proof. by apply obeys_quiet. Qed.
Lemma obeys_procs {A} (m : M Store A) : obeys (on_procs m).
Proof. apply obeys_quiet. intros s. unfold on_procs. by destruct (m (procs s)). Qed.

(** ** Operations that leave the tables alone *)

Definition quiet {A} (m : M CStore A) : Prop := ∀ s s' r, m s = (s', r) → same_tables s s'.

Lemma quiet_obeys {A} (m : M CStore A) : quiet m → obeys m.
Proof. intros Hm s s' r E. apply advance_same. by eapply Hm. Qed.

Lemma quiet_viewing {A} (f : CStore → res A) : quiet (viewing f).
Proof. by intros s s' r [= <- <-]. Qed.
Lemma quiet_lift {A} (x : res A) : quiet (lift_res x).
Proof. by intros s s' r [= <- <-]. Qed.
Lemma quiet_ret {A} (a : A) : quiet (mret a).
Proof. by intros s s' r [= <- <-]. Qed.
Lemma quiet_raise {A} e : quiet (raise e : M CStore A).
Proof. by intros s s' r [= <- <-]. Qed.
Lemma caps_quiet_get : quiet get_state.
Proof. by intros s s' r [= <- <-]. Qed.
Lemma quiet_attest e : quiet (attest e).
Proof. by intros s s' r [= <- <-]. Qed.
Lemma quiet_trip : quiet (modify trip).
Proof. by intros s s' r [= <- <-]. Qed.
Lemma quiet_procs {A} (m : M Store A) : quiet (on_procs m).
Proof. intros s s' r. unfold on_procs. destruct (m (procs s)). by intros [= <- <-]. Qed.
Lemma caps_quiet_bind {A B} (m : M CStore A) (k : A → M CStore B) : quiet m → (∀ a, quiet (k a)) → quiet (m ≫= k).
Proof.
  intros Hm Hk s s' r. unfold mbind, M_bind. destruct (m s) as [s1 [a|e]] eqn:E1; intros E2.
  - destruct (Hm _ _ _ E1) as [E3 E4], (Hk _ _ _ _ E2) as [E5 E6]. split; congruence.
  - injection E2 as <- <-. by eapply Hm.
Qed.
End Evolution.

Create HintDb caps.
#[export] Hint Resolve obeys_viewing obeys_lift obeys_ret obeys_raise obeys_get obeys_attest obeys_trip obeys_procs : caps.
#[export] Hint Resolve quiet_viewing quiet_lift quiet_ret quiet_raise caps_quiet_get quiet_attest quiet_trip quiet_procs : caps.

(** Compose: binds, conditionals and matches down to the operations. *)
Ltac obeys_step :=
  first [ solve [auto with caps nocore | apply obeys_obeys_ok; auto with caps nocore]
        | match goal with
          | |- obeys_ok (authority_unit _) => apply obeys_ok_unit
          | |- obeys (authority_unit _) => apply obeys_unit
          | |- obeys_ok (mbind _ _) => apply obeys_ok_bind; [|intros ?]
          | |- obeys (mbind _ _) => apply obeys_bind; [|intros ?]
          | |- quiet (mbind _ _) => apply caps_quiet_bind; [|intros ?]
          | |- context [match ?x with _ => _ end] => destruct x
          end ].
Ltac obeys := repeat obeys_step.
