(* ===== verification/CapabilityOperations.v ===== *)
(** * The operations on the capability tables advance them

    Every conditional update of [storage/sql.py] on capabilities and use
    reservations keeps the tables well formed and lets them only evolve. *)

From S2P Require Import Prelude FiniteSums PyStr PyVal PyEnum ProcessState ProcessModel ProcessStore ResourceAuthority CapabilityModel AuthorityRules CapabilityEvaluator JsonColumn CapabilityTables CapabilityLease CapabilitySpec CapabilityManager CapabilityEvolution.
From stdpp Require Import sorting.

(** ** Reservations *)

Lemma spent_update (s s' : CStore) r u u' id :
  use_rows s !! r = Some u → use_rows s' = <[r := u']> (use_rows s) →
  spent s' id = (spent s id - spent_of id u + spent_of id u')%Z.
Proof. intros Hr E. unfold spent. rewrite E. by apply map_sum_update. Qed.

Lemma spent_insert (s s' : CStore) r u id :
  use_rows s !! r = None → use_rows s' = <[r := u]> (use_rows s) →
  spent s' id = (spent_of id u + spent s id)%Z.
Proof. intros Hr E. unfold spent. rewrite E. by apply map_sum_insert. Qed.

Lemma spent_same (s s' : CStore) id : use_rows s' = use_rows s → spent s' id = spent s id.
Proof. unfold spent. by intros ->. Qed.

Lemma spent_of_settled st now u id :
  st ≠ UseStatus.restored → use_status u = UseStatus.reserved →
  spent_of id (use_settled st now u) = spent_of id u.
Proof. intros Hst Hu. unfold spent_of. cbn. rewrite Hu, !bool_decide_eq_false_2 by done. done. Qed.

Lemma spent_of_nonneg id u : (1 <= use_count u)%Z → (0 <= spent_of id u)%Z.
Proof. unfold spent_of. destruct (_ && _); lia. Qed.

Lemma open_use_settled (s s' : CStore) r u st now id :
  use_rows s !! r = Some u → use_rows s' = <[r := use_settled st now u]> (use_rows s) →
  st ≠ UseStatus.reserved → open_use s' id → open_use s id.
Proof.
  intros Hr E Hst (r' & v & Hv & Hid & Hs). rewrite E, lookup_insert in Hv. destruct (decide (r = r')) as [->|].
  - injection Hv as <-. done.
  - by exists r', v.
Qed.

Section Operations.
Context `{CapabilityHost}.

(** ** One row changes, or none *)

Definition uses_ok (s : CStore) : Prop := ∀ r u, use_rows s !! r = Some u → use_id u = r ∧ (1 <= use_count u)%Z.

Definition row_ok (id : string) (row : Capability) : Prop :=
  cap_id row = id ∧ stored_row row
  ∧ (cap_status row = CapabilityStatus.EXEC_REVOKED → state_valid (cap_uses_remaining row) CapabilityStatus.ACTIVE).

Lemma caps_uses_ok s : caps_ok s → uses_ok s.
Proof. intros Hok r u. apply (ck_use s Hok). Qed.

Lemma caps_row_ok s id row : caps_ok s → cap_rows s !! id = Some row → row_ok id row.
Proof. intros Hok. apply (ck_row s Hok). Qed.

(** The other rows see reservations settled, never opened. *)
Definition settles_only (s s' : CStore) (j : string) : Prop :=
  (spent s' j <= spent s j)%Z ∧ (open_use s' j → open_use s j).

Lemma settles_only_same s s' j : use_rows s' = use_rows s → settles_only s s' j.
Proof.
  intros E. split; [by rewrite (spent_same _ _ _ E)|]. intros (r & u & Hu & Hrest). exists r, u. by rewrite <-E.
Qed.

Lemma advance_row s s' id row row' :
  caps_ok s → cap_rows s !! id = Some row → cap_rows s' = <[id := row']> (cap_rows s) →
  same_grant row row' → row_ok id row' → uses_ok s' →
  (∀ n, cap_uses_remaining row = Some n → ∃ n', cap_uses_remaining row' = Some n'
     ∧ (n' + spent s' id <= n + spent s id)%Z) →
  (∀ j, j ≠ id → settles_only s s' j) →
  (retired_status (cap_status row) → ¬ open_use s id → retired_status (cap_status row') ∧ ¬ open_use s' id) →
  caps_ok s' ∧ evolves s s'.
Proof.
  intros Hok Hr E Hs Hrow Hu Hn Hj Hd. split.
  { split; [|exact Hu]. intros i x. rewrite E, lookup_insert. destruct (decide (id = i)) as [<-|].
    - by intros [= <-].
    - apply (ck_row s Hok). }
  split.
  - intros i x Hx. rewrite E, lookup_insert. destruct (decide (id = i)) as [<-|Hne].
    + exists row'. rewrite Hr in Hx. injection Hx as <-. done.
    + exists x. split; [done|]. split; [apply same_grant_refl|]. intros n En. exists n. split; [done|].
      destruct (Hj i) as [Hle _]; [congruence|]. lia.
  - intros i (x & Hx & Hst & Ho). destruct (decide (id = i)) as [<-|Hne].
    + rewrite Hr in Hx. injection Hx as <-. destruct (Hd Hst Ho) as [? ?].
      exists row'. rewrite E, lookup_insert_eq. done.
    + exists x. rewrite E, lookup_insert_ne by done. split; [done|]. split; [done|]. intros Ho'. apply Ho. by apply (Hj i).
  - intros i x Hnone. rewrite E, lookup_insert. destruct (decide (id = i)) as [<-|]; intros; congruence.
Qed.

(** Only the reservations change. *)
Lemma advance_uses s s' :
  caps_ok s → cap_rows s' = cap_rows s → uses_ok s' → (∀ j, settles_only s s' j) → caps_ok s' ∧ evolves s s'.
Proof.
  intros Hok E Hu Hj. split; [split; [rewrite E; apply Hok|exact Hu]|]. split.
  - intros i x Hx. exists x. rewrite E. split; [done|]. split; [apply same_grant_refl|].
    intros n En. exists n. split; [done|]. destruct (Hj i). lia.
  - intros i (x & Hx & Hst & Ho). exists x. rewrite E. split; [done|]. split; [done|]. intros Ho'. by apply Ho, Hj.
  - rewrite E. intros; congruence.
Qed.

Lemma uses_ok_settled s s' r u st now :
  caps_ok s → use_rows s !! r = Some u → use_rows s' = <[r := use_settled st now u]> (use_rows s) → uses_ok s'.
Proof.
  intros Hok Hr E i x. rewrite E, lookup_insert. destruct (decide (r = i)) as [<-|].
  - intros [= <-]. cbn. by apply (ck_use s Hok).
  - apply (ck_use s Hok).
Qed.

(** ** Conditional updates *)

Lemma cap_update_run id clause f s :
  (∃ row, cap_rows s !! id = Some row ∧ clause row = true
     ∧ update_where id clause f s = (set_caps <[id := f row]> s, Ok true))
  ∨ update_where id clause f s = (s, Ok false).
Proof.
  unfold update_where. destruct (cap_rows s !! id) as [row|]; [|by right].
  destruct (clause row) eqn:E; [left; by exists row|by right].
Qed.

Lemma settle_use_run r st now s :
  (∃ u, use_rows s !! r = Some u ∧ use_status u = UseStatus.reserved
     ∧ settle_use r st now s = (set_uses <[r := use_settled st now u]> s, Ok true))
  ∨ settle_use r st now s = (s, Ok false).
Proof.
  unfold settle_use, update_use_where. destruct (use_rows s !! r) as [u|]; [|by right].
  destruct (is_reserved u) eqn:E; [|by right]. left. exists u. by apply bool_decide_eq_true in E.
Qed.

Lemma has_uses_spec count row :
  has_uses count row = true ↔
  cap_status row = CapabilityStatus.ACTIVE ∧ ∃ n, cap_uses_remaining row = Some n ∧ (count <= n)%Z.
Proof.
  unfold has_uses. rewrite andb_true_iff, bool_decide_eq_true. destruct (cap_uses_remaining row) as [n|].
  - rewrite Z.leb_le. naive_solver.
  - naive_solver.
Qed.

Lemma take_uses_spec count row n :
  cap_uses_remaining row = Some n →
  take_uses count row = with_state (Some (n - count)%Z)
    (if (n - count <=? 0)%Z then CapabilityStatus.REVOKED else cap_status row) (cap_metadata row) row.
Proof. unfold take_uses. by intros ->. Qed.

Lemma same_grant_with_state u st m row : (u = None ↔ cap_uses_remaining row = None) → same_grant row (with_state u st m row).
Proof. intros Hu. by exists u, st, m. Qed.

Lemma take_uses_ok id count row n :
  row_ok id row → cap_status row = CapabilityStatus.ACTIVE → cap_uses_remaining row = Some n → (count <= n)%Z →
  same_grant row (take_uses count row) ∧ row_ok id (take_uses count row).
Proof.
  intros (Hid & Hs & _) Ha Hn Hc. rewrite (take_uses_spec _ _ _ Hn), Ha. split.
  - apply same_grant_with_state. by rewrite Hn.
  - split; [done|]. cbn. split; [|by destruct (_ <=? _)%Z].
    apply stored_with_state; [done| |by apply stored_metadata].
    cbn. destruct (Z.leb_spec (n - count) 0); split; intros; try lia; done.
Qed.

Lemma give_uses_ok id count row :
  row_ok id row → restorable row = true → (1 <= count)%Z →
  ∃ n, cap_uses_remaining row = Some n ∧ cap_uses_remaining (give_uses count row) = Some (n + count)%Z
    ∧ same_grant row (give_uses count row) ∧ row_ok id (give_uses count row).
Proof.
  intros (Hid & Hs & _) (Hsome & Hst)%andb_true_iff Hc. apply bool_decide_eq_true in Hsome as [n Hn], Hst.
  exists n. split; [done|]. unfold give_uses. rewrite Hn.
  assert ((if bool_decide (cap_status row = CapabilityStatus.REVOKED) then CapabilityStatus.ACTIVE else cap_status row)
    = CapabilityStatus.ACTIVE) as ->.
  { apply elem_of_cons in Hst as [->|Hst]; [done|]. apply list_elem_of_singleton in Hst as ->. done. }
  split; [done|]. split; [apply same_grant_with_state; by rewrite Hn|]. split; [done|]. split; [|done].
  apply stored_valid in Hs as Hv. rewrite Hn in Hv. destruct Hv as [Hv _].
  apply stored_with_state; [done| |by apply stored_metadata]. cbn. split; intros; lia.
Qed.

(** ** Uses *)

Lemma positive_count_Ok n n' : _positive_capability_use_count n = Ok n' ↔ n' = n ∧ (1 <= n)%Z.
Proof.
  unfold _positive_capability_use_count. rewrite bind_Ok. setoid_rewrite raise_if_Ok. setoid_rewrite Z.ltb_ge. naive_solver.
Qed.

Lemma has_uses_not_retired count row : has_uses count row = true → ¬ retired_status (cap_status row).
Proof. intros (-> & _)%has_uses_spec. by intros [|]. Qed.

Lemma advance_take s id count row :
  caps_ok s → cap_rows s !! id = Some row → has_uses count row = true → (1 <= count)%Z →
  caps_ok (set_caps <[id := take_uses count row]> s) ∧ evolves s (set_caps <[id := take_uses count row]> s).
Proof.
  intros Hok Hr Hh Hc. pose proof Hh as (Ha & n & Hn & Hle)%has_uses_spec.
  destruct (take_uses_ok id count row n) as [Hs Hrow]; [by eapply caps_row_ok|done..|].
  eapply (advance_row s _ id row); [done..|by apply (caps_uses_ok s)| | |].
  - intros m Hm. rewrite Hn in Hm. injection Hm as <-. exists (n - count)%Z.
    rewrite (take_uses_spec _ _ _ Hn). split; [done|]. rewrite (spent_same s (set_caps _ s) id eq_refl). lia.
  - intros j _. by apply settles_only_same.
  - intros Hret. by apply has_uses_not_retired in Hh.
Qed.

(** The bound of a validated count. *)
Lemma obeys_positive {A} n (k : Z → M CStore A) : ((1 <= n)%Z → obeys (k n)) → obeys (lift_res (_positive_capability_use_count n) ≫= k).
Proof.
  intros Hk s s' r. unfold mbind, M_bind, lift_res. destruct (_positive_capability_use_count n) as [n'|e] eqn:E.
  - apply positive_count_Ok in E as [-> Hn]. by apply Hk.
  - intros [= <- <-]. by apply advance_same.
Qed.

(** A conditional update, then a continuation. *)
Lemma obeys_ok_update {A} id clause f (k : bool → M CStore A) :
  (∀ s row, caps_ok s → cap_rows s !! id = Some row → clause row = true →
     caps_ok (set_caps <[id := f row]> s) ∧ evolves s (set_caps <[id := f row]> s)) →
  (∀ b, obeys_ok (k b)) → obeys_ok (update_where id clause f ≫= k).
Proof.
  intros Hu Hk. apply obeys_ok_bind; [|done]. intros s s' b E Hok.
  destruct (cap_update_run id clause f s) as [(row & Hr & Hc & E1)|E1]; rewrite E1 in E; injection E as <- <-.
  - by apply Hu.
  - by apply (advance_same s).
Qed.

Lemma obeys_updated_row id : obeys (updated_row id).
Proof. apply obeys_viewing. Qed.
#[local] Hint Resolve obeys_updated_row : caps.

Lemma obeys_consume_uses id count : obeys (consume_capability_uses id count).
Proof.
  apply obeys_positive. intros Hc. apply obeys_unit, obeys_ok_update; [|intros []; obeys].
  intros s row Hok Hr Hh. by apply advance_take.
Qed.

Lemma fresh_use_spent id count r by_ reason now j :
  spent_of j {| use_id := r; use_cap := id; use_count := count; use_status := UseStatus.reserved;
                use_by := by_; use_reason := reason; use_created_at := now; use_updated_at := now |}
  = if String.eqb id j then count else 0%Z.
Proof. unfold spent_of. cbn. by destruct (String.eqb id j). Qed.

Lemma advance_reserve s id count row r by_ reason now :
  caps_ok s → cap_rows s !! id = Some row → has_uses count row = true → (1 <= count)%Z → use_rows s !! r = None →
  let s' := set_uses <[r := {| use_id := r; use_cap := id; use_count := count; use_status := UseStatus.reserved;
                use_by := by_; use_reason := reason; use_created_at := now; use_updated_at := now |}]>
              (set_caps <[id := take_uses count row]> s) in
  caps_ok s' ∧ evolves s s'.
Proof.
  intros Hok Hr Hh Hc Hf s'. pose proof Hh as (Ha & n & Hn & Hle)%has_uses_spec.
  destruct (take_uses_ok id count row n) as [Hs Hrow]; [by eapply caps_row_ok|done..|].
  assert (∀ j, spent s' j = (if String.eqb id j then count else 0) + spent s j)%Z as Hsp.
  { intros j. erewrite (spent_insert s s' r _ j Hf); [|reflexivity]. by rewrite fresh_use_spent. }
  eapply (advance_row s s' id row); [done..| | | |].
  - intros i u. cbn. rewrite lookup_insert. destruct (decide (r = i)) as [<-|]; [by intros [= <-]|apply (ck_use s Hok)].
  - intros m Hm. rewrite Hn in Hm. injection Hm as <-. exists (n - count)%Z.
    rewrite (take_uses_spec _ _ _ Hn), Hsp, String.eqb_refl. split; [done|lia].
  - intros j Hj. split; [rewrite Hsp; apply not_eq_sym, String.eqb_neq in Hj; rewrite Hj; lia|].
    intros (i & u & Hu & Hid & Hst). cbn in Hu. rewrite lookup_insert in Hu. destruct (decide (r = i)) as [<-|].
    + injection Hu as <-. by destruct Hj.
    + by exists i, u.
  - intros Hret. by apply has_uses_not_retired in Hh.
Qed.

Lemma obeys_reserve_uses id r count by_ reason now : obeys (reserve_capability_uses id r count by_ reason now).
Proof.
  apply obeys_positive. intros Hc. apply obeys_unit. intros s s' o E Hok.
  apply M_bind_Ok in E as (b & s1 & Eu & E).
  destruct (cap_update_run id (has_uses count) (take_uses count) s) as [(row & Hr & Hh & E1)|E1];
    rewrite E1 in Eu; injection Eu as <- <-; cbn [negb] in E.
  - apply M_bind_Ok in E as (x & s2 & [= <- <-] & E). apply M_bind_Ok in E as ([] & s3 & Ef & E).
    apply lift_res_Ok in Ef as [-> Ef]. apply raise_if_Ok, bool_decide_eq_false in Ef.
    apply M_bind_Ok in E as ([] & s4 & [= <-] & E). apply viewing_Ok in E as [-> _].
    apply advance_reserve; try done. by apply eq_None_not_Some.
  - injection E as <- <-. by apply (advance_same s).
Qed.

(** ** Settlement *)

Lemma settles_only_settled (s s' : CStore) r u st now j :
  caps_ok s → use_rows s !! r = Some u → use_status u = UseStatus.reserved → st ≠ UseStatus.reserved →
  use_rows s' = <[r := use_settled st now u]> (use_rows s) → settles_only s s' j.
Proof.
  intros Hok Hr Hu Hst E. split; [|by eapply open_use_settled].
  rewrite (spent_update s s' r u _ j Hr E). destruct (ck_use s Hok r u Hr) as [_ Hc].
  pose proof (spent_of_nonneg j u Hc).
  destruct (decide (st = UseStatus.restored)) as [->|Hne].
  - unfold spent_of at 2. cbn. rewrite andb_false_r. lia.
  - rewrite spent_of_settled by done. lia.
Qed.

Lemma advance_settle s r u st now :
  caps_ok s → use_rows s !! r = Some u → use_status u = UseStatus.reserved → st ≠ UseStatus.reserved →
  let s' := set_uses <[r := use_settled st now u]> s in caps_ok s' ∧ evolves s s'.
Proof.
  intros Hok Hr Hu Hst s'. apply advance_uses; [done..| |].
  - by eapply uses_ok_settled.
  - intros j. by eapply settles_only_settled.
Qed.

Lemma obeys_settle r st now : st ≠ UseStatus.reserved → obeys (settle_use r st now).
Proof.
  intros Hst s s' b E Hok. destruct (settle_use_run r st now s) as [(u & Hr & Hu & E1)|E1]; rewrite E1 in E; injection E as <- <-.
  - by apply advance_settle.
  - by apply (advance_same s).
Qed.

Lemma obeys_commit_use r now : obeys (commit_capability_use_reservation r now).
Proof. by apply obeys_unit, obeys_obeys_ok, obeys_settle. Qed.

(** A restored reservation gives its uses back. *)
Lemma advance_give_back s r u row now :
  caps_ok s → use_rows s !! r = Some u → use_status u = UseStatus.reserved →
  cap_rows s !! use_cap u = Some row → restorable row = true →
  let s' := set_uses <[r := use_settled UseStatus.restored now u]>
              (set_caps <[use_cap u := give_uses (use_count u) row]> s) in
  caps_ok s' ∧ evolves s s'.
Proof.
  intros Hok Hr Hu Hrow Hre s'. destruct (ck_use s Hok r u Hr) as [_ Hc].
  destruct (give_uses_ok (use_cap u) (use_count u) row) as (n & Hn & Hn' & Hs & Hrow'); [by eapply caps_row_ok|done..|].
  assert (∀ j, settles_only s s' j) as Hj by (intros j; by eapply (settles_only_settled s s' r u UseStatus.restored now j)).
  eapply (advance_row s s' (use_cap u) row); [done..| | | |].
  - by eapply (uses_ok_settled s s').
  - intros m Hm. rewrite Hn in Hm. injection Hm as <-. exists (n + use_count u)%Z. split; [done|].
    rewrite (spent_update s s' r u (use_settled UseStatus.restored now u) (use_cap u) Hr eq_refl). unfold spent_of. cbn.
    rewrite String.eqb_refl, Hu. cbn [negb andb]. rewrite bool_decide_eq_false_2, bool_decide_eq_true_2 by done. cbn [negb andb]. lia.
  - intros j _. apply Hj.
  - intros _ Ho. exfalso. apply Ho. by exists r, u.
Qed.

Lemma persisted_use_count_Ok u n : persisted_use_count u = Ok n → n = use_count u ∧ (1 <= n)%Z.
Proof.
  unfold persisted_use_count. destruct (_positive_capability_use_count (use_count u)) as [m|[]] eqn:E; try done.
  intros [= <-]. by apply positive_count_Ok in E as [-> ?].
Qed.

(** Give back, then settle. *)
Lemma give_then_settle {A} s s' r u now (k : bool → bool → M CStore A) a :
  caps_ok s → use_rows s !! r = Some u → use_status u = UseStatus.reserved →
  (restored ← update_where (use_cap u) restorable (give_uses (use_count u));
   if negb restored then k false false
   else (settled ← settle_use r UseStatus.restored now; k true settled)) s = (s', Ok a) →
  (∀ b c, obeys_ok (k b c)) → caps_ok s' ∧ evolves s s'.
Proof.
  intros Hok Hr Hu E Hk. apply M_bind_Ok in E as (b & s1 & Eu & E).
  destruct (cap_update_run (use_cap u) restorable (give_uses (use_count u)) s) as [(row & Hrow & Hre & E1)|E1];
    rewrite E1 in Eu; injection Eu as <- <-; cbn [negb] in E; [|by eapply Hk].
  apply M_bind_Ok in E as (c & s2 & Es & E).
  set (s1 := set_caps _ s) in *.
  destruct (settle_use_run r UseStatus.restored now s1) as [(u' & Hr' & Hu' & E2)|E2].
  - rewrite E2 in Es. injection Es as <- <-. cbn in Hr'. rewrite Hr in Hr'. injection Hr' as <-.
    pose proof (advance_give_back s r u row now Hok Hr Hu Hrow Hre) as [Hok2 Hev].
    destruct (Hk _ _ _ _ _ E Hok2) as [? Hev']. split; [done|]. by eapply evolves_trans.
  - exfalso. unfold settle_use, update_use_where, is_reserved in E2. cbn in E2. rewrite Hr, Hu in E2. done.
Qed.

Lemma obeys_restore_use r now : obeys (restore_capability_use_reservation r now).
Proof.
  apply obeys_unit. intros s s' o E Hok. apply M_bind_Ok in E as (x & s1 & [= <- <-] & E).
  destruct (use_rows s !! r) as [u|] eqn:Hr; [|injection E as <- <-; by apply (advance_same s)].
  destruct (is_reserved u) eqn:Hu; cbn [negb] in E; [|injection E as <- <-; by apply (advance_same s)].
  apply bool_decide_eq_true in Hu. apply M_bind_Ok in E as (n & s1 & En & E).
  apply lift_res_Ok in En as [-> En]. apply persisted_use_count_Ok in En as [-> _].
  eapply (give_then_settle s s' r u now
    (fun b _ => if negb b then _ ← settle_use r UseStatus.invalidated now; mret None else updated_row (use_cap u)) o);
    [done..| |].
  - revert E. unfold mbind, M_bind. destruct (update_where _ _ _ s) as [s1 [[]|]]; cbn [negb]; try done.
  - intros [] _; cbn [negb]; [obeys|]. apply obeys_obeys_ok, obeys_bind; [by apply obeys_settle|intros; obeys].
Qed.

Lemma obeys_restore_effect actor contract r now :
  obeys_ok (_restore_external_effect_capability_reservation actor contract r now).
Proof.
  intros s s' o E Hok. apply M_bind_Ok in E as (x & s1 & [= <- <-] & E).
  apply M_bind_Ok in E as (u & s1 & Eu & E). apply lift_res_Ok in Eu as [-> Hr%of_option_Ok].
  apply M_bind_Ok in E as ([] & s1 & Eb & E). apply lift_res_Ok in Eb as [-> Eb%raise_if_Ok].
  apply negb_false_iff, andb_true_iff in Eb as [Hu%bool_decide_eq_true _].
  apply M_bind_Ok in E as (n & s1 & En & E). apply lift_res_Ok in En as [-> En]. apply persisted_use_count_Ok in En as [-> _].
  eapply (give_then_settle s s' r u now
    (fun b c => if b then lift_res (raise_if (negb c) (ValidationError "external effect recovery capability reservation raced"))
                else raise (ValidationError "external effect recovery capability could not be restored")) o); [done..| |].
  - revert E. unfold mbind, M_bind, lift_res. destruct (update_where _ _ _ s) as [s1 [[]|]]; cbn [negb raise_if]; try done.
  - intros [] c; apply obeys_obeys_ok; obeys.
Qed.

Lemma obeys_commit_effect actor contract r now :
  obeys_ok (_commit_external_effect_capability_reservation actor contract r now).
Proof.
  apply obeys_obeys_ok, obeys_bind; [obeys|]. intros x. apply obeys_bind; [obeys|]. intros u.
  apply obeys_bind; [obeys|]. intros _. destruct (negb (is_reserved u)); [obeys|].
  apply obeys_bind; [by apply obeys_settle|]. intros b. obeys.
Qed.

(** ** Abandoning *)

Lemma obeys_abandon_rows now total sample rows : obeys (abandon_rows now total sample rows).
Proof.
  revert total sample. induction rows as [|r rows IH]; intros total sample; [apply obeys_ret|].
  apply obeys_bind; [by apply obeys_settle|]. intros []; apply IH.
Qed.

Lemma obeys_abandon_pages fuel now after total sample : obeys (abandon_pages fuel now after total sample).
Proof.
  revert after total sample. induction fuel as [|fuel IH]; intros after total sample; [apply obeys_raise|].
  apply obeys_bind.
  - apply obeys_unit, obeys_obeys_ok, obeys_bind; [obeys|]. intros rows.
    apply obeys_bind; [apply obeys_abandon_rows|]. intros; obeys.
  - intros [rows [t l]]. cbn. destruct (rev rows); [obeys|apply IH].
Qed.

Lemma obeys_abandon fuel lease now : obeys (abandon_stale_capability_use_reservations fuel lease now).
Proof.
  apply obeys_bind; [obeys|]. intros _. apply obeys_bind; [apply obeys_abandon_pages|]. intros; obeys.
Qed.

(** ** Invalidation *)

Definition invalidated (id now : string) (u : UseReservation) : UseReservation :=
  if String.eqb (use_cap u) id && is_reserved u then use_settled UseStatus.invalidated now u else u.

Section Invalidated.
Context (s s' : CStore) (id now : string) (Hok : caps_ok s) (E : use_rows s' = invalidated id now <$> use_rows s).

Lemma invalidated_uses_ok : uses_ok s'.
Proof.
  intros r u. rewrite E, lookup_fmap. destruct (use_rows s !! r) as [v|] eqn:Hv; [|done]. intros [= <-].
  apply (ck_use s Hok) in Hv. unfold invalidated. by destruct (_ && _).
Qed.

Lemma invalidated_spent j : spent s' j = spent s j.
Proof.
  unfold spent. rewrite E, map_sum_fmap. apply map_sum_ext. intros r u _. unfold invalidated.
  destruct (String.eqb (use_cap u) id); cbn [andb]; [|done]. destruct (is_reserved u) eqn:Hu; [|done].
  apply bool_decide_eq_true in Hu. by apply spent_of_settled.
Qed.

Lemma invalidated_open j : open_use s' j → open_use s j ∧ j ≠ id.
Proof.
  intros (r & u & Hu & Hid & Hst). rewrite E, lookup_fmap in Hu. destruct (use_rows s !! r) as [v|] eqn:Hv; [|done].
  injection Hu as <-. unfold invalidated in Hid, Hst.
  destruct (String.eqb_spec (use_cap v) id) as [Ej|Ej]; cbn [andb] in *.
  - destruct (is_reserved v) eqn:Hr; [done|]. apply bool_decide_eq_false in Hr. done.
  - split; [by exists r, v|congruence].
Qed.

Lemma invalidated_settles j : settles_only s s' j.
Proof. split; [by rewrite invalidated_spent|]. intros Ho. by apply invalidated_open. Qed.
End Invalidated.

(** A row written back with another status and other metadata. *)
Lemma advance_leave s s' id row st m now :
  caps_ok s → cap_rows s !! id = Some row → st ≠ CapabilityStatus.ACTIVE →
  (st = CapabilityStatus.EXEC_REVOKED → cap_status row = CapabilityStatus.ACTIVE) →
  (retired_status (cap_status row) → retired_status st) →
  json_column str_other m = Ok m →
  cap_rows s' = <[id := with_state (cap_uses_remaining row) st m row]> (cap_rows s) →
  use_rows s' = invalidated id now <$> use_rows s →
  row_ok id (with_state (cap_uses_remaining row) st m row) ∧ caps_ok s' ∧ evolves s s' ∧ ¬ open_use s' id.
Proof.
  intros Hok Hr Hst Hex Hret Hm Ec Eu. destruct (caps_row_ok s id row Hok Hr) as (Hid & Hs & _).
  assert (row_ok id (with_state (cap_uses_remaining row) st m row)) as Hrow.
  { split; [done|]. pose proof (stored_valid row Hs) as Hv. split.
    - apply stored_with_state; [done| |done]. unfold state_valid in *. destruct (cap_uses_remaining row); [|done].
      split; [apply Hv|done].
    - cbn. intros Est. by rewrite <-(Hex Est). }
  assert (¬ open_use s' id) as Hno by (intros Ho; by destruct (invalidated_open s s' id now Eu id Ho)).
  split; [done|]. cut (caps_ok s' ∧ evolves s s'); [by intros []|].
  eapply (advance_row s s' id row); [done..| |done| | | |].
  - by apply same_grant_with_state.
  - by eapply invalidated_uses_ok.
  - intros n Hn. exists n. split; [done|]. erewrite invalidated_spent by done. lia.
  - intros j _. by eapply invalidated_settles.
  - intros ? _. split; [|done]. by apply Hret.
Qed.

(** ** Retirement *)

Lemma retire_run s s' st current now u :
  caps_ok s → cap_rows s !! cap_id current = Some current → retired_status st →
  update_capability (retired st current) now s = (s', Ok u) →
  cap_rows s' = <[cap_id current := retired st current]> (cap_rows s)
  ∧ use_rows s' = invalidated (cap_id current) now <$> use_rows s
  ∧ caps_ok s' ∧ evolves s s' ∧ ¬ open_use s' (cap_id current).
Proof.
  intros Hok Hr Hst E. destruct (caps_row_ok s _ _ Hok Hr) as (_ & Hs & _).
  assert (st ≠ CapabilityStatus.ACTIVE ∧ st ≠ CapabilityStatus.EXEC_REVOKED) as [Ha He] by (by destruct Hst as [->| ->]).
  set (s1 := set_uses (fmap (invalidated (cap_id current) now))
               (set_caps <[cap_id current := retired st current]> s)).
  destruct (advance_leave s s1 (cap_id current) current st (_without_exec_rollback_token (cap_metadata current)) now)
    as ((_ & Hstored & _) & Hok1 & Hev & Hno); [done..| | |done|done|].
  { intros _. done. }
  { by apply json_column_filter, stored_metadata. }
  assert (s' = s1) as ->; [|done].
  unfold update_capability in E. apply M_bind_Ok in E as (row & s0 & Ep & E). apply lift_res_Ok in Ep as [-> Ep].
  change (capability_params (retired st current) = Ok (retired st current)) in Hstored.
  rewrite Hstored in Ep. injection Ep as <-. rewrite authority_unit_Ok in E.
  unfold mbind, M_bind, update_where in E. cbn [cap_id retired with_state] in E. rewrite Hr in E.
  cbn [cap_status retired with_state] in E. rewrite bool_decide_eq_false_2 in E by done. by injection E as <-.
Qed.

Lemma retire_dead s s' st current now u :
  caps_ok s → cap_rows s !! cap_id current = Some current → retired_status st →
  update_capability (retired st current) now s = (s', Ok u) →
  caps_ok s' ∧ evolves s s' ∧ dead s' (cap_id current).
Proof.
  intros Hok Hr Hst E. destruct (retire_run s s' st current now u) as (Ec & _ & Hok' & Hev & Hno); [done..|].
  split; [done|]. split; [done|]. exists (retired st current). rewrite Ec, lookup_insert_eq. done.
Qed.

(** ** Insertion *)

Lemma insert_run s s' cap u :
  insert_capability cap s = (s', Ok u) →
  ∃ row, capability_params cap = Ok row ∧ cap_rows s !! cap_id cap = None ∧ s' = set_caps <[cap_id cap := row]> s.
Proof.
  unfold insert_capability. intros E. apply M_bind_Ok in E as (row & s0 & Ep & E). apply lift_res_Ok in Ep as [-> Ep].
  apply M_bind_Ok in E as (x & s1 & [= <- <-] & E). apply M_bind_Ok in E as ([] & s1 & Ef & E).
  apply lift_res_Ok in Ef as [-> Ef%raise_if_Ok]. apply bool_decide_eq_false, eq_None_not_Some in Ef.
  injection E as <- <-. by exists row.
Qed.

Lemma params_shape cap row :
  capability_params cap = Ok row →
  ∃ c m, json_column str_other (cap_constraints cap) = Ok c ∧ row = with_columns (right_set (cap_rights cap)) c m cap.
Proof. intros (_ & c & m & Ec & _ & ->)%params_ok. eauto. Qed.

Lemma insert_advance s s' cap u :
  caps_ok s → insert_capability cap s = (s', Ok u) → cap_status cap = CapabilityStatus.ACTIVE →
  (∀ row, capability_params cap = Ok row → parented s row) → caps_ok s' ∧ evolves s s'.
Proof.
  intros Hok E Ha Hp. apply insert_run in E as (row & Erow & Hnone & ->).
  pose proof (params_shape _ _ Erow) as (c & m & _ & Eshape).
  assert (cap_id row = cap_id cap ∧ cap_status row = CapabilityStatus.ACTIVE) as [Hid Hst] by (by subst row).
  split.
  { split; [|apply (caps_uses_ok s Hok)]. intros i x. cbn. rewrite lookup_insert. destruct (decide (cap_id cap = i)) as [<-|].
    - intros [= <-]. split; [done|]. split; [by eapply params_stored|]. intros Hx. congruence.
    - apply (ck_row s Hok). }
  assert (∀ i x, cap_rows s !! i = Some x → cap_rows (set_caps <[cap_id cap := row]> s) !! i = Some x) as Hkeep.
  { intros i x Hx. cbn. rewrite lookup_insert_ne; [done|]. intros <-. congruence. }
  split.
  - intros i x Hx. exists x. split; [by apply Hkeep|]. split; [apply same_grant_refl|]. intros n Hn. exists n. split; [done|].
    rewrite (spent_same s (set_caps _ s) i eq_refl). lia.
  - intros i (x & Hx & Hrest). exists x. split; [by apply Hkeep|done].
  - intros i x Hi. cbn. rewrite lookup_insert. destruct (decide (cap_id cap = i)) as [<-|]; [|congruence].
    intros [= <-]. destruct (Hp row Erow) as [Hd Hpar]. split; [done|]. intros p Ep.
    destruct (Hpar p Ep) as (prow & Hpr & Hat). exists prow. split; [by apply Hkeep|done].
Qed.

(** ** Exec revocation and its rollback *)

Lemma obeys_stage id m now :
  obeys (transition_capability_status id CapabilityStatus.ACTIVE CapabilityStatus.EXEC_REVOKED m now).
Proof.
  apply obeys_unit. intros s s' o E Hok. apply M_bind_Ok in E as (column & s0 & Ec & E).
  apply lift_res_Ok in Ec as [-> Ec]. apply json_column_stable in Ec as [_ Ec].
  apply M_bind_Ok in E as (b & s1 & Eu & E). unfold update_where in Eu.
  destruct (cap_rows s !! id) as [row|] eqn:Hr; [|injection Eu as <- <-; injection E as <- <-; by apply (advance_same s)].
  destruct (bool_decide_reflect (cap_status row = CapabilityStatus.ACTIVE)) as [Ha|Ha];
    injection Eu as <- <-; cbn [negb] in E; [|injection E as <- <-; by apply (advance_same s)].
  apply M_bind_Ok in E as ([] & s2 & Ei & E). apply viewing_Ok in E as [-> _]. injection Ei as <-.
  match goal with |- caps_ok ?s' ∧ _ =>
    destruct (advance_leave s s' id row CapabilityStatus.EXEC_REVOKED column now) as (_ & ? & ? & _); try done end.
  by intros [|]; congruence.
Qed.

Lemma obeys_restore_staged p token before current :
  (∀ b, b ∈ before → json_column str_other (cap_metadata b) = Ok (cap_metadata b)) →
  obeys (restore_staged p token before current).
Proof.
  intros Hb. unfold restore_staged. destruct (negb (staged_under token current)); [obeys|].
  destruct (List.find _ (rev before)) as [b|] eqn:Ef; [|obeys].
  apply find_some in Ef as [Hin%in_rev%list_elem_of_In _].
  apply obeys_bind; [|intros; obeys]. intros s s' o E Hok. unfold update_where in E.
  destruct (cap_rows s !! cap_id current) as [row|] eqn:Hr; [|injection E as <- <-; by apply (advance_same s)].
  destruct (_ && _) eqn:Hc; injection E as <- <-; [|by apply (advance_same s)].
  apply andb_true_iff in Hc as [_ Hx%bool_decide_eq_true].
  destruct (caps_row_ok s _ _ Hok Hr) as (Hid & Hs & Hv). specialize (Hv Hx).
  eapply (advance_row s _ (cap_id current) row); [done..|by apply same_grant_with_state| |by apply (caps_uses_ok s)| | |].
  - split; [done|]. split; [|done]. apply stored_with_state; [done| |by apply Hb].
    unfold state_valid in *. destruct (cap_uses_remaining row); [|done]. split; [apply Hv|]. intros _. by apply Hv.
  - intros n Hn. exists n. split; [done|]. rewrite (spent_same s (set_caps _ s) _ eq_refl). lia.
  - intros j _. by apply settles_only_same.
  - intros [|]; congruence.
Qed.

Lemma obeys_for_each {A} (f : A → M CStore unit) l : (∀ x, obeys (f x)) → obeys (for_each f l).
Proof. intros Hf. induction l as [|x l IH]; cbn; [obeys|]. apply obeys_bind; [apply Hf|done]. Qed.

Lemma obeys_restore_exec p before token :
  (∀ b, b ∈ before → json_column str_other (cap_metadata b) = Ok (cap_metadata b)) →
  obeys (_restore_exec_revoked_capabilities p before token).
Proof.
  intros Hb. unfold _restore_exec_revoked_capabilities. destruct token as [t|]; [|obeys].
  destruct (String.eqb t ""); [obeys|]. apply obeys_bind; [obeys|]. intros rows.
  apply obeys_for_each. intros x. by apply obeys_restore_staged.
Qed.

(** ** Reads of well-formed tables *)

Lemma get_capability_ok s id cap : caps_ok s → get_capability id s = Ok (Some cap) → cap_rows s !! id = Some cap.
Proof.
  intros Hok. unfold get_capability. destruct (cap_rows s !! id) as [row|] eqn:Hr; [|done].
  destruct (caps_row_ok s id row Hok Hr) as (_ & Hs & _). rewrite (stored_decodes row Hs). by intros [= <-].
Qed.

Lemma get_capability_total s id : caps_ok s → get_capability id s = Ok (cap_rows s !! id).
Proof.
  intros Hok. unfold get_capability. destruct (cap_rows s !! id) as [row|] eqn:Hr; [|done].
  destruct (caps_row_ok s id row Hok Hr) as (_ & Hs & _). by rewrite (stored_decodes row Hs).
Qed.

Lemma elem_of_all_rows s row : caps_ok s → row ∈ all_rows s ↔ cap_rows s !! cap_id row = Some row.
Proof.
  intros Hok. unfold all_rows. rewrite list_elem_of_In, in_map_iff. split.
  - intros ([id x] & <- & Hin). cbn. apply list_elem_of_In, elem_of_map_to_list in Hin.
    by destruct (caps_row_ok s id x Hok Hin) as (-> & _).
  - intros Hr. exists (cap_id row, row). split; [done|]. by apply list_elem_of_In, elem_of_map_to_list.
Qed.

Lemma all_rows_ids s : caps_ok s → NoDup (map cap_id (all_rows s)).
Proof.
  intros Hok. unfold all_rows. rewrite map_map.
  assert (map (fun kv => cap_id (snd kv)) (map_to_list (cap_rows s)) = (map_to_list (cap_rows s)).*1) as ->.
  { apply map_ext_in. intros [id x] Hin. apply list_elem_of_In, elem_of_map_to_list in Hin. cbn.
    by destruct (caps_row_ok s id x Hok Hin) as (-> & _). }
  apply NoDup_fst_map_to_list.
Qed.

Lemma NoDup_filter_ids (b : Capability → bool) l : NoDup (map cap_id l) → NoDup (map cap_id (List.filter b l)).
Proof.
  induction l as [|x l IH]; cbn; [done|]. intros [Hx Hnd]%NoDup_cons. destruct (b x); [|by apply IH].
  cbn. apply NoDup_cons. split; [|by apply IH]. intros Hy. apply Hx.
  apply list_elem_of_In, in_map_iff in Hy as (y & Ey & Hy). apply filter_In in Hy as [Hy _].
  apply list_elem_of_In, in_map_iff. by exists y.
Qed.

Definition owned_by (subject : option string) (row : Capability) : Prop :=
  match subject with Some p => cap_subject row = p | None => True end.

(** A listing is the rows of its subject, once each; it never fails. *)
Lemma list_capabilities_ok s subject :
  caps_ok s → ∃ l, list_capabilities subject s = Ok l ∧ NoDup (map cap_id l)
    ∧ ∀ row, row ∈ l ↔ cap_rows s !! cap_id row = Some row ∧ owned_by subject row.
Proof.
  intros Hok. unfold list_capabilities. set (rows := match subject with Some _ => _ | None => _ end).
  assert (∀ row, row ∈ rows ↔ cap_rows s !! cap_id row = Some row ∧ owned_by subject row) as Hin.
  { intros row. subst rows. destruct subject as [p|]; rewrite merge_sort_Permutation; cbn.
    - rewrite list_elem_of_In, filter_In, <-list_elem_of_In, elem_of_all_rows, String.eqb_eq by done. done.
    - rewrite elem_of_all_rows by done. naive_solver. }
  exists rows. split_and!; [|subst rows|done].
  - apply mapR_id, Forall_forall. intros row Hrow. apply stored_decodes. apply Hin in Hrow as [Hrow _].
    by destruct (caps_row_ok s _ _ Hok Hrow) as (_ & ? & _).
  - assert (NoDup (map cap_id (all_rows s))) as Hnd by by apply all_rows_ids.
    destruct subject as [p|]; rewrite merge_sort_Permutation; [by apply NoDup_filter_ids|done].
Qed.

End Operations.
