(* ===== verification/CapabilityServices.v ===== *)
(** * The capability services advance the tables

    Leases, mutations, authority transactions and the manager's operations,
    each composed of operations that advance the tables. *)

From S2P Require Import Prelude FiniteSums PyStr PyVal PyEnum ProcessState ProcessModel ProcessStore ProcessWrites ResourceAuthority CapabilityModel AuthorityRules CapabilityEvaluator JsonColumn CapabilityTables CapabilityLease CapabilitySpec CapabilityManager CapabilityEvolution CapabilityOperations.
From stdpp Require Import sorting.

#[export] Hint Resolve obeys_updated_row obeys_consume_uses obeys_reserve_uses obeys_commit_use obeys_restore_use obeys_abandon obeys_stage : caps.

Section Services.
Context `{CapabilityHost} `{ExecEvidence}.

Lemma obeys_revalidate : obeys revalidate_admission.
Proof. apply obeys_viewing. Qed.
Lemma obeys_emit cap source : obeys (_emit_revoked cap source).
Proof. apply obeys_attest. Qed.
#[local] Hint Resolve obeys_revalidate obeys_emit : caps.

(** ** Leases *)

Lemma obeys_require_capability id : obeys (_require_capability id).
Proof. unfold _require_capability. obeys. Qed.
Lemma obeys_attach c subject id : obeys (_attach_to_process c subject id).
Proof. apply obeys_procs. Qed.
#[local] Hint Resolve obeys_require_capability obeys_attach : caps.

Lemma obeys_consume id used_by count : obeys (consume id used_by count).
Proof. unfold consume. obeys. Qed.

Lemma obeys_reserve c id reserved_by reason count : obeys (reserve c id reserved_by reason count).
Proof. unfold reserve. obeys. Qed.
#[local] Hint Resolve obeys_reserve : caps.

Lemma obeys_reserve_decision c d used_by reason : obeys (reserve_decision c d used_by reason).
Proof. unfold reserve_decision. obeys. Qed.

Lemma obeys_commit c r actor : obeys (commit c r actor).
Proof. unfold commit. obeys. Qed.

Lemma obeys_restore c r actor : obeys (restore c r actor).
Proof. unfold restore. obeys. Qed.
#[local] Hint Resolve obeys_reserve_decision obeys_commit : caps.

(** ** Retirement *)

(** A step whose guard needs the tables it ran on. *)
Lemma obeys_ok_at {A B} (m : M CStore A) (k : A → M CStore B) :
  obeys_ok m →
  (∀ s0 s a s' b, caps_ok s0 → caps_ok s → m s0 = (s, Ok a) → k a s = (s', Ok b) → caps_ok s' ∧ evolves s s') →
  obeys_ok (m ≫= k).
Proof.
  intros Hm Hk s s' b (a & s1 & E1 & E2)%M_bind_Ok Hok. destruct (Hm _ _ _ E1 Hok) as [Hok1 Hev].
  destruct (Hk s s1 a s' b Hok Hok1 E1 E2) as [? Hev']. split; [done|]. by eapply evolves_trans.
Qed.

Lemma require_capability_run s s' id cap :
  caps_ok s → _require_capability id s = (s', Ok cap) → s' = s ∧ cap_rows s !! id = Some cap ∧ cap_id cap = id.
Proof.
  intros Hok E. unfold _require_capability in E. apply M_bind_Ok in E as (f & s1 & Ef & E).
  apply viewing_Ok in Ef as [-> Ef]. apply lift_res_Ok in E as [-> E%of_option_Ok]. subst f.
  apply get_capability_ok in Ef as Hr; [|done]. split; [done|]. split; [done|].
  by destruct (caps_row_ok s id cap Hok Hr) as (? & _).
Qed.

Lemma require_revocable_run s s' id cap :
  caps_ok s → _require_revocable id s = (s', Ok cap) →
  s' = s ∧ cap_rows s !! id = Some cap ∧ cap_id cap = id ∧ cap_revocable cap = true.
Proof.
  intros Hok E. unfold _require_revocable in E. apply M_bind_Ok in E as (f & s1 & Ef & E).
  apply require_capability_run in Ef as (-> & Hr & Hid); [|done]. apply M_bind_Ok in E as ([] & s1 & Er & E).
  apply lift_res_Ok in Er as [-> Er%raise_if_Ok%negb_false_iff]. by injection E as <- <-.
Qed.

Lemma dead_quiet {A} (m : M CStore A) s s' r id : quiet m → m s = (s', r) → dead s id → dead s' id.
Proof. intros Hm E. apply dead_same. by eapply Hm. Qed.

Lemma caps_ok_quiet {A} (m : M CStore A) s s' r : quiet m → m s = (s', r) → caps_ok s → caps_ok s' ∧ evolves s s'.
Proof. intros Hm E. apply advance_same. by eapply Hm. Qed.

(** Rows of a listing, retired in turn. *)
Lemma retire_all_run c report l :
  (∀ cap, quiet (report cap)) → ∀ s s' out,
  caps_ok s → NoDup (map cap_id l) → Forall (fun cap => cap_rows s !! cap_id cap = Some cap) l →
  retire_all c report l s = (s', Ok out) →
  caps_ok s' ∧ evolves s s' ∧ Forall (fun cap => dead s' (cap_id cap)) l
  ∧ out = map (retired CapabilityStatus.REVOKED) l.
Proof.
  intros Hq. induction l as [|cap l IH]; intros s s' out Hok Hnd Hl E; cbn in E.
  { injection E as <- <-. split; [done|]. split; [apply evolves_refl|]. by split. }
  inversion Hnd as [|? ? Hx Hnd']; subst. inversion Hl as [|? ? Hr Hl']; subst.
  apply M_bind_Ok in E as (u & s1 & Eu & E). apply M_bind_Ok in E as ([] & s2 & Er & E).
  apply M_bind_Ok in E as (done_ & s3 & Ed & E). injection E as <- <-.
  destruct (retire_run s s1 CapabilityStatus.REVOKED cap (call_stamp c) u) as (Ec & _ & Hok1 & Hev1 & Hno); [done..|by left|done|].
  assert (dead s1 (cap_id cap)) as Hd.
  { exists (retired CapabilityStatus.REVOKED cap). rewrite Ec, lookup_insert_eq. split; [done|]. split; [by left|done]. }
  pose proof (Hq cap _ _ _ Er) as Hsame. destruct (advance_same s1 s2 Hsame Hok1) as [Hok2 Hev2].
  destruct (IH s2 s3 done_ Hok2 Hnd') as (Hok3 & Hev3 & Hall & ->); [|done|].
  { rewrite Forall_forall in Hl' |- *. intros x Hin. destruct Hsame as [-> _]. rewrite Ec, lookup_insert_ne; [by apply Hl'|].
    intros Eid. apply Hx. rewrite Eid. by apply list_elem_of_In, in_map, list_elem_of_In. }
  split; [done|]. split; [by eapply evolves_trans, evolves_trans|]. split; [|done].
  constructor; [|done]. by apply (ev_dead _ _ Hev3), (ev_dead _ _ Hev2).
Qed.

(** The filter of a listing can be retired. *)
Lemma listed_rows s subject (b : Capability → bool) l :
  caps_ok s → list_capabilities subject s = Ok l →
  NoDup (map cap_id (List.filter b l))
  ∧ Forall (fun cap => cap_rows s !! cap_id cap = Some cap) (List.filter b l).
Proof.
  intros Hok E. destruct (list_capabilities_ok s subject Hok) as (l' & E' & Hnd & Hin). rewrite E in E'. injection E' as <-.
  split; [by apply NoDup_filter_ids|]. apply Forall_forall. intros x Hx. apply list_elem_of_In, filter_In in Hx as [Hx _].
  by apply Hin, list_elem_of_In.
Qed.

Lemma obeys_retire_listed {A} c report subject b (k : list Capability → M CStore A) :
  (∀ cap, quiet (report cap)) → (∀ l, obeys_ok (k l)) →
  obeys_ok (listed ← viewing (list_capabilities subject);
            out ← retire_all c report (List.filter b listed); k out).
Proof.
  intros Hq Hk. apply obeys_ok_at; [apply obeys_obeys_ok; obeys|]. intros s0 s l s' a Hok0 Hok El E.
  apply viewing_Ok in El as [-> El]. apply M_bind_Ok in E as (out & s1 & Er & E).
  destruct (listed_rows s0 subject b l Hok0 El) as [Hnd Hall].
  destruct (retire_all_run c report _ Hq _ _ _ Hok Hnd Hall Er) as (Hok1 & Hev & _).
  destruct (Hk _ _ _ _ E Hok1) as [? Hev']. split; [done|]. by eapply evolves_trans.
Qed.

Lemma obeys_finalize c subject token : obeys (finalize_exec_revocations c subject token).
Proof.
  unfold finalize_exec_revocations. apply obeys_unit, obeys_ok_bind; [obeys|]. intros _.
  apply obeys_retire_listed; [intros; apply quiet_ret|intros; obeys].
Qed.

Lemma obeys_revoke_resource c resource actor : obeys (revoke_resource c resource actor).
Proof.
  unfold revoke_resource. apply obeys_unit, obeys_ok_bind; [obeys|]. intros _.
  apply obeys_retire_listed; [intros; apply quiet_attest|]. intros l. obeys.
Qed.

Lemma obeys_stage_exec c id token : obeys (stage_exec_revocation c id token).
Proof. unfold stage_exec_revocation. apply obeys_bind; [obeys|]. intros _. apply obeys_unit. unfold _require_revocable. obeys. Qed.

(** ** Revocation *)

Lemma retire_tail {A} (m : M CStore A) s s' id a :
  m s = (s', Ok a) → caps_ok s → dead s id → obeys_ok m → caps_ok s' ∧ evolves s s' ∧ dead s' id.
Proof.
  intros E Hok Hd Hm. destruct (Hm _ _ _ E Hok) as [Hok' Hev]. split; [done|]. split; [done|]. by apply (ev_dead _ _ Hev).
Qed.

Lemma disable_run c id actor s s' cap :
  caps_ok s → disable c id actor s = (s', Ok cap) →
  caps_ok s' ∧ evolves s s' ∧ dead s' id.
Proof.
  intros Hok E. unfold disable in E. rewrite authority_unit_Ok in E.
  apply M_bind_Ok in E as ([] & s1 & Ea & E). apply viewing_Ok in Ea as [-> _].
  apply M_bind_Ok in E as (row & s1 & Er & E). apply require_capability_run in Er as (-> & Hr & Hid); [|done].
  apply M_bind_Ok in E as (u & s1 & Eu & E). subst id.
  apply retire_dead in Eu as (Hok1 & Hev1 & Hd); [|done..|by right].
  destruct (retire_tail _ _ _ _ _ E Hok1 Hd) as (? & Hev2 & ?); [obeys|].
  split; [done|]. split; [by eapply evolves_trans|done].
Qed.

Lemma revoke_row_run c id actor s s' cap :
  caps_ok s → revoke_row c id actor None s = (s', Ok cap) →
  caps_ok s' ∧ evolves s s' ∧ dead s' id
  ∧ ∃ row, cap_rows s !! id = Some row ∧ cap_revocable row = true ∧ cap = retired CapabilityStatus.REVOKED row.
Proof.
  intros Hok E. unfold revoke_row in E. rewrite authority_unit_Ok in E.
  apply M_bind_Ok in E as ([] & s1 & Ea & E). apply viewing_Ok in Ea as [-> _].
  apply M_bind_Ok in E as (row & s1 & Er & E). apply require_revocable_run in Er as (-> & Hr & Hid & Hrev); [|done].
  apply M_bind_Ok in E as (x & s1 & [= <- <-] & E).
  apply M_bind_Ok in E as (u & s1 & Eu & E). subst id.
  apply retire_dead in Eu as (Hok1 & Hev1 & Hd); [|done..|by left].
  destruct (retire_tail _ _ _ _ _ E Hok1 Hd) as (? & Hev2 & ?); [obeys|].
  split; [done|]. split; [by eapply evolves_trans|]. split; [done|]. exists row. split; [done|]. split; [done|].
  apply M_bind_Ok in E as (x & s2 & _ & E). apply M_bind_Ok in E as ([] & s3 & _ & E).
  apply M_bind_Ok in E as ([] & s4 & _ & E). apply M_bind_Ok in E as ([] & s5 & _ & E). by injection E as _ <-.
Qed.

Lemma obeys_disable c id actor : obeys (disable c id actor).
Proof.
  unfold disable. apply obeys_unit. intros s s' cap E Hok.
  by destruct (disable_run c id actor s s' cap Hok) as (? & ? & _); [unfold disable; rewrite authority_unit_Ok|].
Qed.

Lemma obeys_revoke_row c id actor : obeys (revoke_row c id actor None).
Proof.
  unfold revoke_row. apply obeys_unit. intros s s' cap E Hok.
  by destruct (revoke_row_run c id actor s s' cap Hok) as (? & ? & _); [unfold revoke_row; rewrite authority_unit_Ok|].
Qed.

(** ** Decisions read the tables *)

Lemma quiet_semantic cap subject resource right_ context phase effect_id allow_reserved :
  quiet (_semantic_approval_constraint_error cap subject resource right_ context phase effect_id allow_reserved).
Proof. unfold _semantic_approval_constraint_error, _trip_semantic_binding_violation. cbv zeta. obeys. Qed.
#[local] Hint Resolve quiet_semantic : caps.

Lemma quiet_evaluation_match subject resource right_ context phase cap :
  quiet (evaluation_match subject resource right_ context phase cap).
Proof. unfold evaluation_match. obeys. Qed.
#[local] Hint Resolve quiet_evaluation_match : caps.
Lemma quiet_evaluation_matches subject resource right_ context phase l :
  quiet (evaluation_matches subject resource right_ context phase l).
Proof. induction l as [|cap l IH]; cbn; obeys. Qed.
#[local] Hint Resolve quiet_evaluation_matches : caps.

Lemma quiet_decision subject resource right_ matches context audit phase :
  quiet (_decision_from_matches subject resource right_ matches context audit phase).
Proof. unfold _decision_from_matches, _record_decision. obeys. Qed.
#[local] Hint Resolve quiet_decision : caps.

Lemma quiet_phase c subject resource right_ context audit phase :
  quiet (_authorize_for_semantic_phase c subject resource right_ context audit phase).
Proof. unfold _authorize_for_semantic_phase. obeys. Qed.
#[local] Hint Resolve quiet_phase : caps.

Lemma quiet_authorize c subject resource right_ context audit : quiet (authorize c subject resource right_ context audit).
Proof. apply quiet_phase. Qed.

Lemma quiet_authorize_matching c subject resource right_ l context audit :
  quiet (authorize_matching_capabilities c subject resource right_ l context audit).
Proof. unfold authorize_matching_capabilities. obeys. Qed.
#[local] Hint Resolve quiet_authorize quiet_authorize_matching : caps.

Lemma quiet_reauthorize c d audit : quiet (reauthorize_decision c d audit).
Proof. unfold reauthorize_decision. obeys. Qed.

Lemma quiet_reauthorize_selected c d audit : quiet (reauthorize_selected_decision c d audit).
Proof. unfold reauthorize_selected_decision. obeys. Qed.

Lemma quiet_authorize_handle c subject handle right_ : quiet (authorize_handle c subject handle right_).
Proof. unfold authorize_handle. cbv zeta. obeys. Qed.

Lemma quiet_on_denied {A} (m : M CStore A) e : quiet m → quiet (on_denied m e).
Proof.
  intros Hm s s' r. unfold on_denied. destruct (m s) as [s1 [a|x]] eqn:E; intros [= <- <-]; by eapply Hm.
Qed.

Lemma quiet_reauthorize_handle c subject handle right_ : quiet (_reauthorize_handle_decision c subject handle right_).
Proof. unfold _reauthorize_handle_decision. apply caps_quiet_bind; [apply quiet_on_denied, quiet_authorize_handle|intros; obeys]. Qed.

(** ** Transactions *)

Section Transaction.
Context (reauthorize : CapabilityDecision → M CStore CapabilityDecision) (Hre : ∀ d, quiet (reauthorize d)).

Lemma quiet_reauthorize_all ds : quiet (reauthorize_all reauthorize ds).
Proof. induction ds as [|d ds IH]; cbn; [obeys|]. apply caps_quiet_bind; [apply Hre|]. intros; obeys. Qed.

Lemma obeys_reserve_all c actor operation held ds : obeys (reserve_all c actor operation held ds).
Proof.
  revert held. induction ds as [|d ds IH]; intros held; cbn; [obeys|].
  destruct (dec_consume_capability_id d) as [i|]; [|apply IH]. case_bool_decide; [apply IH|].
  apply obeys_bind; [obeys|]. intros r. apply obeys_bind; [obeys|]. intros x. apply IH.
Qed.

Lemma obeys_commit_all c actor operation held : obeys (commit_all c actor operation held).
Proof. induction held as [|[i r] held IH]; cbn; [obeys|]. apply obeys_bind; [obeys|]. intros b. apply obeys_bind; [obeys|]. intros _. apply IH. Qed.

Lemma obeys_authority_transaction {A} c ds actor operation (body : list CapabilityDecision → M CStore A) :
  (∀ l, obeys_ok (body l)) → obeys (authority_transaction reauthorize c ds actor operation body).
Proof.
  intros Hb. apply obeys_unit, obeys_ok_bind; [obeys|]. intros _.
  apply obeys_ok_bind; [apply obeys_obeys_ok, quiet_obeys, quiet_reauthorize_all|]. intros l.
  apply obeys_ok_bind; [apply obeys_obeys_ok, obeys_reserve_all|]. intros held.
  apply obeys_ok_bind; [apply Hb|]. intros a. apply obeys_ok_bind; [obeys|]. intros _.
  apply obeys_ok_bind; [apply obeys_obeys_ok, obeys_commit_all|]. intros; obeys.
Qed.
End Transaction.

Lemma obeys_manager_transaction {A} c ds actor operation (body : list CapabilityDecision → M CStore A) :
  (∀ l, obeys_ok (body l)) → obeys (manager_transaction c ds actor operation body).
Proof. apply obeys_authority_transaction. intros d. apply quiet_reauthorize. Qed.

Lemma obeys_selected_transaction {A} c ds actor operation (body : list CapabilityDecision → M CStore A) :
  (∀ l, obeys_ok (body l)) → obeys (selected_transaction c ds actor operation body).
Proof. apply obeys_authority_transaction. intros d. apply quiet_reauthorize_selected. Qed.

Lemma obeys_require c subject resource right_ context consume_ used_by reason :
  obeys (require c subject resource right_ context consume_ used_by reason).
Proof.
  unfold require. apply obeys_bind; [apply quiet_obeys, quiet_authorize|]. intros d.
  apply obeys_bind; [obeys|]. intros _. destruct (negb consume_); [obeys|].
  apply obeys_manager_transaction. intros l. obeys.
Qed.

Lemma obeys_claim c d used_by reason : obeys (claim_decision_use c d used_by reason).
Proof. unfold claim_decision_use. apply obeys_bind; [obeys|]. intros _. apply obeys_manager_transaction. intros l. obeys. Qed.

Lemma obeys_reserve_decision_use c d used_by reason : obeys (reserve_decision_use c d used_by reason).
Proof.
  unfold reserve_decision_use. destruct d as [d|]; [|obeys]. apply obeys_bind; [obeys|]. intros _.
  apply obeys_unit, obeys_obeys_ok, obeys_bind; [apply quiet_obeys, quiet_reauthorize|]. intros; obeys.
Qed.

Lemma obeys_consume_allow_once c subject resource right_ used_by : obeys (consume_allow_once c subject resource right_ used_by).
Proof.
  unfold consume_allow_once. apply obeys_bind; [apply quiet_obeys, quiet_authorize|]. intros d.
  destruct (dec_consume_capability_id d); [apply obeys_claim|obeys].
Qed.

Lemma obeys_assert_handle c subject handle right_ : obeys (assert_handle c subject handle right_).
Proof.
  unfold assert_handle. apply obeys_bind; [apply quiet_obeys, quiet_authorize_handle|]. intros d.
  apply obeys_bind; [obeys|]. intros _. apply obeys_authority_transaction; [|intros; obeys].
  intros d'. apply quiet_reauthorize_handle.
Qed.

Lemma quiet_require_revoke_authority c actor cap : quiet (_require_revoke_authority c actor cap).
Proof. unfold _require_revoke_authority. obeys. Qed.

Lemma obeys_revoke c id actor require_authority : obeys (revoke c id actor require_authority).
Proof.
  unfold revoke. apply obeys_bind; [unfold _require_revocable; obeys|]. intros cap.
  apply obeys_bind; [destruct require_authority; [apply quiet_obeys, quiet_require_revoke_authority|obeys]|].
  intros [d|]; [|apply obeys_revoke_row]. apply obeys_manager_transaction. intros l.
  apply obeys_obeys_ok, obeys_revoke_row.
Qed.
End Services.
