(* ===== verification/CapabilityRollback.v ===== *)
(** * Rollback of staged revocations

    An exec stages the revocation of capabilities under a token; rolling it back
    with the snapshot taken before restores every row. *)

From S2P Require Import Prelude FiniteSums PyStr PyVal PyEnum ProcessState ProcessModel ProcessStore ProcessWrites ResourceAuthority CapabilityModel AuthorityRules CapabilityEvaluator JsonColumn CapabilityTables CapabilityLease CapabilitySpec JsonEquality CapabilityManager CapabilityEvolution CapabilityOperations CapabilityServices.
From stdpp Require Import sorting.

Section Rollback.
Context `{CapabilityHost} `{ExecEvidence}.

(** [row'] is [row], or an active row of [p] staged under [token]. *)
Definition staged_from (p token : string) (row row' : Capability) : Prop :=
  row' = row
  ∨ cap_status row = CapabilityStatus.ACTIVE ∧ cap_subject row = p
    ∧ ∃ m, row' = with_state (cap_uses_remaining row) CapabilityStatus.EXEC_REVOKED m row
           ∧ item_is m EXEC_ROLLBACK_TOKEN_KEY token = true.

Definition staged_tables (p token : string) (s s' : CStore) : Prop :=
  ∀ id, option_Forall2 (staged_from p token) (cap_rows s !! id) (cap_rows s' !! id).

Lemma staged_tables_refl p token s : staged_tables p token s s.
Proof. intros id. destruct (cap_rows s !! id); constructor. by left. Qed.

Lemma item_get_app d d' k : item_get d k = None → item_get (d ++ d') k = item_get d' k.
Proof.
  induction d as [|kv d IH]; [done|]. cbn [app]. rewrite !item_get_cons. by destruct (String.eqb (fst kv) k); [|apply IH].
Qed.

Lemma item_get_without m : item_get (_without_exec_rollback_token m) EXEC_ROLLBACK_TOKEN_KEY = None.
Proof.
  induction m as [|kv m IH]; [done|]. unfold _without_exec_rollback_token in *. cbn [List.filter].
  destruct (String.eqb (fst kv) EXEC_ROLLBACK_TOKEN_KEY) eqn:E; cbn [negb]; [done|]. by rewrite item_get_cons, E.
Qed.

(** The column written by a staging carries the token. *)
Lemma staged_column m token column :
  json_column str_other (_without_exec_rollback_token m ++ [(EXEC_ROLLBACK_TOKEN_KEY, PStr token)]) = Ok column →
  item_is column EXEC_ROLLBACK_TOKEN_KEY token = true.
Proof.
  intros E. pose proof (column_get _ _ _ EXEC_ROLLBACK_TOKEN_KEY E) as Hg.
  rewrite item_get_app in Hg by apply item_get_without. rewrite item_get_cons, String.eqb_refl in Hg.
  destruct Hg as (v' & [= <-] & Hv). unfold item_is. rewrite Hv. cbn. by rewrite String.eqb_refl.
Qed.

Lemma stage_transition_run id m now s s' o :
  transition_capability_status id CapabilityStatus.ACTIVE CapabilityStatus.EXEC_REVOKED m now s = (s', Ok o) →
  cap_rows s' = cap_rows s
  ∨ ∃ row column, cap_rows s !! id = Some row ∧ cap_status row = CapabilityStatus.ACTIVE
      ∧ json_column str_other m = Ok column
      ∧ cap_rows s' = <[id := with_state (cap_uses_remaining row) CapabilityStatus.EXEC_REVOKED column row]> (cap_rows s).
Proof.
  unfold transition_capability_status. rewrite authority_unit_Ok. intros E.
  apply M_bind_Ok in E as (column & s1 & Ec & E). apply lift_res_Ok in Ec as [-> Ec].
  apply M_bind_Ok in E as (b & s1 & Eu & E).
  edestruct (cap_update_run id) as [(row & Hr & Hc & E1)|E1]; rewrite E1 in Eu; injection Eu as <- <-; cbn [negb] in E.
  - right. apply bool_decide_eq_true in Hc. exists row, column. split; [done|]. split; [done|]. split; [done|].
    apply M_bind_Ok in E as ([] & s2 & Ei & E). apply viewing_Ok in E as [-> _]. by injection Ei as <-.
  - left. by injection E as <- _.
Qed.

Lemma stage_run c id token s s' cap :
  caps_ok s → stage_exec_revocation c id token s = (s', Ok cap) →
  cap_rows s' = cap_rows s
  ∨ ∃ row m, cap_rows s !! id = Some row ∧ cap_status row = CapabilityStatus.ACTIVE
      ∧ item_is m EXEC_ROLLBACK_TOKEN_KEY (strip token) = true
      ∧ cap_rows s' = <[id := with_state (cap_uses_remaining row) CapabilityStatus.EXEC_REVOKED m row]> (cap_rows s).
Proof.
  intros Hok E. unfold stage_exec_revocation in E. apply M_bind_Ok in E as ([] & s1 & E1 & E). apply lift_res_Ok in E1 as [-> _].
  rewrite authority_unit_Ok in E. apply M_bind_Ok in E as ([] & s1 & E1 & E). apply viewing_Ok in E1 as [-> _].
  apply M_bind_Ok in E as (row & s1 & E1 & E). apply require_revocable_run in E1 as (-> & Hr & Hid & _); [|done].
  destruct (negb (active row)).
  { apply M_bind_Ok in E as ([] & s1 & E1 & E). apply viewing_Ok in E1 as [-> _]. injection E as <- _. by left. }
  apply M_bind_Ok in E as (o & s1 & E1 & E). apply stage_transition_run in E1.
  assert (cap_rows s' = cap_rows s1) as ->.
  { destruct o as [st|].
    - apply M_bind_Ok in E as ([] & t1 & A1 & E). apply M_bind_Ok in E as ([] & t2 & A2 & E).
      apply M_bind_Ok in E as ([] & t3 & A3 & E). injection E as <- _. apply quiet_attest in A1 as [<- _].
      apply viewing_Ok in A3 as [-> _]. by apply quiet_attest in A2 as [-> _].
    - apply M_bind_Ok in E as (x & t1 & A1 & E). apply M_bind_Ok in E as ([] & t2 & A2 & E). injection E as <- _.
      apply viewing_Ok in A2 as [-> _]. unfold _require_capability in A1. apply M_bind_Ok in A1 as (y & t3 & A1 & A2).
      apply viewing_Ok in A1 as [-> _]. by apply lift_res_Ok in A2 as [-> _]. }
  destruct E1 as [E1|(row' & column & Hr' & Hact & Hcol & E1)]; [by left|right].
  exists row', column. split_and!; try done. by eapply staged_column.
Qed.

(** Stagings one after the other. *)
Fixpoint stage_each (c : Call) (token : string) (ids : list string) : M CStore unit :=
  match ids with
  | [] => mret tt
  | id :: rest => _ ← stage_exec_revocation c id token; stage_each c token rest
  end.

Definition owned_ids (p : string) (s : CStore) (ids : list string) : Prop :=
  ∀ id row, id ∈ ids → cap_rows s !! id = Some row → cap_subject row = p.

Lemma stage_each_run c p token ids s0 s s' :
  caps_ok s → staged_tables p (strip token) s0 s → owned_ids p s0 ids →
  stage_each c token ids s = (s', Ok tt) → caps_ok s' ∧ staged_tables p (strip token) s0 s'.
Proof.
  revert s. induction ids as [|id ids IH]; intros s Hok Hst Hown E; cbn in E; [by injection E as <-|].
  apply M_bind_Ok in E as (cap & s1 & E1 & E). apply obeys_stage_exec in E1 as Hadv. destruct (Hadv Hok) as [Hok1 _].
  apply (IH s1); [done| |intros i row Hi; apply Hown; by right|done].
  intros i. apply stage_run in E1 as [Ec|(row & m & Hr & Hact & Hm & Ec)]; [rewrite Ec; apply Hst| |done].
  rewrite Ec, lookup_insert. destruct (decide (id = i)) as [<-|]; [|apply Hst].
  specialize (Hst id). rewrite Hr in Hst. inversion Hst as [row0 ? Hfrom Hr0|]; subst. constructor. right.
  destruct Hfrom as [->|(_ & _ & m' & -> & _)]; [|done]. symmetry in Hr0. split; [done|].
  split; [by eapply Hown; [left|]|by exists m].
Qed.

(** ** The rollback *)

Lemma staged_under_staged token u m row :
  item_is m EXEC_ROLLBACK_TOKEN_KEY token = true →
  staged_under token (with_state u CapabilityStatus.EXEC_REVOKED m row) = true.
Proof. intros Hm. unfold staged_under. cbn. by rewrite Hm. Qed.

(** Undoing the staging of a row gives the row. *)
Lemma unstage row m :
  with_state (cap_uses_remaining row) (cap_status row) (cap_metadata row)
    (with_state (cap_uses_remaining row) CapabilityStatus.EXEC_REVOKED m row) = row.
Proof. by destruct row. Qed.

Section Loop.
Context (s0 : CStore) (p token : string) (before : list Capability).
Context (Hok0 : caps_ok s0) (Hbefore : list_capabilities (Some p) s0 = Ok before).
Context (Hfresh : ∀ id row, cap_rows s0 !! id = Some row → staged_under token row = false).

Lemma snapshot_find id row :
  cap_rows s0 !! id = Some row → cap_subject row = p →
  List.find (fun b => String.eqb (cap_id b) id) (rev before) = Some row.
Proof.
  intros Hr Hp. destruct (caps_row_ok s0 id row Hok0 Hr) as (Hid & _ & _). subst id.
  destruct (list_capabilities_ok s0 (Some p) Hok0) as (l & El & _ & Hl). rewrite Hbefore in El. injection El as <-.
  destruct (List.find _ (rev before)) as [b|] eqn:Ef.
  - apply find_some in Ef as [Hin%in_rev%list_elem_of_In Eb%String.eqb_eq]. apply Hl in Hin as [Hb _]. congruence.
  - exfalso. assert (In row (rev before)) as Hin by (apply in_rev; rewrite rev_involutive; by apply list_elem_of_In, Hl).
    apply (find_none _ _ Ef) in Hin. by rewrite String.eqb_refl in Hin.
Qed.

Lemma restore_one s current row :
  cap_rows s !! cap_id current = Some current → cap_subject current = p →
  cap_rows s0 !! cap_id current = Some row → staged_from p token row current →
  ∃ s', restore_staged p token before current s = (s', Ok tt)
    ∧ cap_rows s' = <[cap_id current := row]> (cap_rows s).
Proof.
  intros Hc Hp Hr [->|(Hact & Hrp & m & -> & Hm)]; unfold restore_staged.
  - rewrite (Hfresh _ _ Hr). exists s. split; [done|]. by rewrite insert_id.
  - cbn [cap_id with_state] in *. rewrite (staged_under_staged _ _ _ _ Hm), (snapshot_find _ _ Hr Hrp). cbn [negb].
    unfold mbind, M_bind, update_where. rewrite Hc. cbn [cap_subject cap_status with_state]. rewrite Hrp, String.eqb_refl.
    eexists. split; [reflexivity|]. cbn. by rewrite unstage.
Qed.

Lemma restore_loop l s :
  NoDup (map cap_id l) →
  (∀ cur, cur ∈ l → cap_rows s !! cap_id cur = Some cur ∧ cap_subject cur = p
     ∧ ∃ row, cap_rows s0 !! cap_id cur = Some row ∧ staged_from p token row cur) →
  ∃ s', for_each (restore_staged p token before) l s = (s', Ok tt)
    ∧ ∀ i, cap_rows s' !! i = if decide (i ∈ map cap_id l) then cap_rows s0 !! i else cap_rows s !! i.
Proof.
  revert s. induction l as [|cur l IH]; intros s Hnd Hl; cbn [for_each map].
  { exists s. split; [done|]. intros i. rewrite decide_False; [done|apply not_elem_of_nil]. }
  apply NoDup_cons in Hnd as [Hx Hnd]. destruct (Hl cur) as (Hc & Hp & row & Hr & Hst); [by left|].
  destruct (restore_one s cur row Hc Hp Hr Hst) as (s1 & E1 & Ec).
  destruct (IH s1 Hnd) as (s' & E2 & Hi).
  { intros y Hy. destruct (Hl y) as (Hyr & Hyp & Hys); [by right|]. split; [|done].
    rewrite Ec, lookup_insert_ne; [done|]. intros E. apply Hx. rewrite E. by apply list_elem_of_In, in_map, list_elem_of_In. }
  exists s'. split; [unfold mbind, M_bind; by rewrite E1|]. intros i. rewrite Hi, Ec, lookup_insert.
  destruct (decide (i ∈ map cap_id l)) as [Hin|Hin].
  - rewrite decide_True; [done|by right].
  - destruct (decide (cap_id cur = i)) as [<-|Hne]; [rewrite decide_True; [done|by left]|].
    rewrite decide_False; [done|]. intros [Hi'|Hi']%elem_of_cons; [by apply Hne|done].
Qed.
End Loop.

(** (C31) Rolling an exec back restores the capabilities it staged.  After any
    stagings of capabilities of one process under a token no row carries yet,
    the rollback with the snapshot listed before them returns and leaves every
    row of the table exactly as it was, status and metadata included. *)
Theorem exec_rollback_restores c p token ids s s1 before :
  caps_ok s → owned_ids p s ids → strip token ≠ "" →
  (∀ id row, cap_rows s !! id = Some row → staged_under (strip token) row = false) →
  list_capabilities (Some p) s = Ok before →
  stage_each c token ids s = (s1, Ok tt) →
  ∃ s2, _restore_exec_revoked_capabilities p before (Some (strip token)) s1 = (s2, Ok tt)
    ∧ cap_rows s2 = cap_rows s.
Proof.
  intros Hok Hown Htok Hfresh Hbefore E.
  destruct (stage_each_run c p token ids s s s1 Hok (staged_tables_refl _ _ _) Hown E) as [Hok1 Hst].
  unfold _restore_exec_revoked_capabilities. apply String.eqb_neq in Htok. rewrite Htok.
  assert (∀ cur, cur ∈ owned_rows p s1 ↔ cap_rows s1 !! cap_id cur = Some cur ∧ cap_subject cur = p) as Hin.
  { intros cur. unfold owned_rows. by rewrite list_elem_of_In, filter_In, <-list_elem_of_In, elem_of_all_rows, String.eqb_eq. }
  destruct (restore_loop s p (strip token) before Hok Hbefore Hfresh (owned_rows p s1) s1) as (s2 & E2 & Hi).
  - by apply NoDup_filter_ids, all_rows_ids.
  - intros cur [Hc Hp]%Hin. split; [done|]. split; [done|]. specialize (Hst (cap_id cur)). rewrite Hc in Hst.
    inversion Hst as [row ? Hfrom Hr|]; subst. by exists row.
  - exists s2. split; [unfold mbind, M_bind, viewing; by rewrite E2|]. apply map_eq. intros i. rewrite Hi.
    destruct (decide _) as [|Hni]; [done|]. specialize (Hst i). inversion Hst as [row row' Hfrom Hr Hr'|]; [|done].
    destruct Hfrom as [->|(_ & Hp & m & -> & _)]; [done|]. exfalso. apply Hni.
    symmetry in Hr, Hr'. destruct (caps_row_ok s i row Hok Hr) as (Hid & _ & _).
    set (cur := with_state (cap_uses_remaining row) CapabilityStatus.EXEC_REVOKED m row) in *.
    assert (cap_id cur = i) as Hcid by done. rewrite <-Hcid. apply list_elem_of_In, in_map, list_elem_of_In, Hin.
    split; [by rewrite Hcid|done].
Qed.
End Rollback.
