(* ===== verification/CapabilityDelegation.v ===== *)
(** * Delegation attenuates

    A row published under a parent the manager found grants a part of what the
    parent grants: its rights, resources, constraints and delegation depth. *)

From S2P Require Import Prelude FiniteSums PyStr PyVal PyEnum ProcessState ProcessModel ProcessStore ProcessWrites ResourceAuthority CapabilityModel AuthorityRules CapabilityEvaluator JsonColumn CapabilityTables CapabilityLease CapabilitySpec JsonEquality CapabilityManager CapabilityEvolution CapabilityOperations CapabilityServices.
From stdpp Require Import sorting.

Section Delegation.
Context `{CapabilityHost} `{ExecEvidence}.

(** ** What the checks establish *)

(** What a spec keeps of the parent it was validated against. *)
Record within (P : Capability) (sel : CapabilitySpec) : Prop := {
  wi_effect : cap_effect P = CapabilityEffect.ALLOW;
  wi_unlimited : cap_uses_remaining P = None;
  wi_rights : subset_of (sp_rights sel) (cap_rights P) = true;
  wi_resource : covers (cap_resource P) (sp_resource sel) = true;
  wi_constraints : _constraint_attenuation_error (cap_constraints P) (sp_constraints sel) = Ok None;
  wi_delegable : sp_delegable sel = true → cap_delegable P = true
    ∧ (cap_delegation_depth P + 1 < _capability_max_delegation_depth P)%Z;
  wi_depth d : sp_max_delegation_depth sel = Some d → (d <= _capability_max_delegation_depth P)%Z;
  wi_expiry p e : cap_expires_at P = Some p → sp_expires_at sel = Some e → str_ltb p e = false;
}.

Lemma filterR_Ok {A} (f : A → res bool) l l' x :
  filterR f l = Ok l' → x ∈ l' → x ∈ l ∧ f x = Ok true.
Proof.
  revert l'. induction l as [|y l IH]; cbn; intros l'; [intros [= <-]; by intros ?%not_elem_of_nil|].
  intros (b & Eb & E)%bind_Ok. apply bind_Ok in E as (rest & Er & [= <-]). intros Hx.
  destruct b; [apply elem_of_cons in Hx as [->|Hx]; [by split; [left|]|]|];
    destruct (IH rest Er Hx); (split; [by right|done]).
Qed.

Lemma first_valid_Ok validate e l cap : first_valid validate e l = Ok cap → cap ∈ l ∧ is_Ok (validate cap) = true.
Proof.
  revert e. induction l as [|x l IH]; intros e; cbn; [by destruct e|].
  destruct (validate x) as [u|x'] eqn:E.
  - intros [= <-]. split; [left|by rewrite E].
  - destruct (is_capability_denied x'); [|done]. intros Hf. destruct (IH _ Hf). by split; [right|].
Qed.

Lemma andR_Ok (a : bool) (b : res bool) : andR a b = Ok true ↔ a = true ∧ b = Ok true.
Proof. destruct a; cbn; naive_solver. Qed.

Lemma is_Ok_unit (r : res unit) : is_Ok r = true ↔ r = Ok tt.
Proof. destruct r as [[]|]; cbn; naive_solver. Qed.

(** A candidate: live, with a live chain, allowing and wide enough. *)
Lemma find_parent_spec c subject spec action extra validate s P :
  find_parent c subject spec action extra validate s = Ok P →
  ∃ l, list_capabilities (Some subject) s = Ok l ∧ P ∈ l ∧ live c P = true
    ∧ _parent_chain_active c P s = Ok true ∧ cap_effect P = CapabilityEffect.ALLOW ∧ extra P = true
    ∧ covers (cap_resource P) (sp_resource spec) = true ∧ subset_of (sp_rights spec) (cap_rights P) = true
    ∧ validate P = Ok tt.
Proof.
  unfold find_parent. intros (u & _ & E)%bind_Ok. apply bind_Ok in E as (l & El & E).
  apply bind_Ok in E as (cands & Ec & E). apply bind_Ok in E as (u' & _ & E).
  apply first_valid_Ok in E as [Hin Hv]. apply is_Ok_unit in Hv. rewrite merge_sort_Permutation in Hin.
  apply (filterR_Ok _ _ _ _ Ec) in Hin as [Hin (Hl & Hb)%andR_Ok]. apply bind_Ok in Hb as (b & Eb & Hb).
  injection Hb as Hb. rewrite !andb_true_iff in Hb. destruct Hb as ((((-> & Heff) & Hx) & Hcov) & Hsub).
  apply bool_decide_eq_true in Heff. exists l. split_and!; done.
Qed.

Lemma attenuation_Ok P spec : _require_constraint_attenuation P spec = Ok tt →
  _constraint_attenuation_error (cap_constraints P) (sp_constraints spec) = Ok None.
Proof. unfold _require_constraint_attenuation. intros ([m|] & -> & E)%bind_Ok; done. Qed.

Lemma widens_depth_false P sel d :
  widens_depth P sel = false → sp_max_delegation_depth sel = Some d → (d <= _capability_max_delegation_depth P)%Z.
Proof. unfold widens_depth. intros Hw E. rewrite E in Hw. by apply Z.ltb_ge in Hw. Qed.

Lemma temporal_Ok c P sel p e :
  _require_temporal_attenuation c P sel = Ok tt → cap_expires_at P = Some p → sp_expires_at sel = Some e →
  str_ltb p e = false.
Proof. unfold _require_temporal_attenuation. intros (u & _ & Hr)%bind_Ok Ep Ee. rewrite Ep, Ee in Hr. by apply raise_if_Ok in Hr. Qed.

(** A conditional refusal that did not happen. *)
Lemma not_refused (a : bool) (x y : Z) : a && (x <=? y)%Z = false → a = true → (y < x)%Z.
Proof. intros Hf ->. cbn in Hf. by apply Z.leb_gt. Qed.

Lemma delegable_not_refused a b : a && negb b = false → a = true → b = true.
Proof. by intros Hf ->; apply negb_false_iff in Hf. Qed.

Lemma validate_delegation_within c P sel s :
  cap_effect P = CapabilityEffect.ALLOW → covers (cap_resource P) (sp_resource sel) = true →
  subset_of (sp_rights sel) (cap_rights P) = true → _validate_delegation_parent c P sel s = Ok tt → within P sel.
Proof.
  intros Heff Hcov Hsub E. unfold _validate_delegation_parent in E. apply bind_Ok in E as (u1 & _ & E).
  apply bind_Ok in E as (u2 & E2 & E). apply bind_Ok in E as (u3 & E3 & E). apply bind_Ok in E as ([] & E4 & E).
  apply bind_Ok in E as (u5 & E5 & E). apply bind_Ok in E as (u6 & E6 & E). apply bind_Ok in E as (u7 & E7 & E).
  apply raise_if_Ok in E2, E3, E5, E6, E7. apply bool_decide_eq_false, eq_None_not_Some in E2.
  pose proof (not_refused _ _ _ E7) as Hlim.
  assert (∀ d, sp_max_delegation_depth sel = Some d → (d <= _capability_max_delegation_depth P)%Z) as Hw
    by (intros d; by apply widens_depth_false).
  split; try done; [by apply attenuation_Ok| |intros p e; by eapply temporal_Ok].
  intros Hd. split; [by apply (delegable_not_refused _ _ E3)|]. specialize (Hlim Hd).
  destruct (sp_max_delegation_depth sel) as [d|]; cbn in Hlim; [specialize (Hw d eq_refl)|]; lia.
Qed.

Lemma validate_transfer_within c P sel s :
  cap_effect P = CapabilityEffect.ALLOW → covers (cap_resource P) (sp_resource sel) = true →
  subset_of (sp_rights sel) (cap_rights P) = true → _validate_transfer_parent c P sel s = Ok tt → within P sel.
Proof.
  intros Heff Hcov Hsub E. unfold _validate_transfer_parent in E. apply bind_Ok in E as (u1 & _ & E).
  apply bind_Ok in E as (u2 & _ & E). apply bind_Ok in E as (u3 & E3 & E). apply bind_Ok in E as (u4 & E4 & E).
  apply bind_Ok in E as ([] & E5 & E). apply bind_Ok in E as (u6 & E6 & E). apply bind_Ok in E as (u7 & E7 & E).
  apply raise_if_Ok in E3, E4, E6, E7. apply bool_decide_eq_false, eq_None_not_Some in E3.
  split; try done; [by apply attenuation_Ok| |intros d; by apply widens_depth_false|intros p e; by eapply temporal_Ok].
  intros Hd. split; [by apply (delegable_not_refused _ _ E4)|]. by apply (not_refused _ _ _ E7).
Qed.

(** ** What a draft becomes *)

Lemma normalize_rights_ok rights r' : _normalize_rights (rights_value rights) = Ok r' → r' = right_set rights.
Proof.
  unfold _normalize_rights. intros (l & El & E)%bind_Ok. apply of_option_Ok in El. cbn in El. injection El as <-.
  apply bind_Ok in E as (u1 & _ & E). apply bind_Ok in E as (u2 & _ & E). apply bind_Ok in E as (u3 & _ & E).
  apply bind_Ok in E as (u4 & _ & [= <-]). f_equal. induction rights as [|r l IH]; cbn; [done|]. by f_equal.
Qed.

(** The columns of the row a draft is stored as. *)
Record drafted (d : CapabilityDraft) (row : Capability) : Prop := {
  df_resource : cap_resource row = canonical (dr_resource d);
  df_rights x : x ∈ cap_rights row ↔ x ∈ dr_rights d;
  df_subject : cap_subject row = dr_subject d;
  df_effect : cap_effect row = dr_effect d;
  df_uses : cap_uses_remaining row = dr_uses_remaining d;
  df_revocable : cap_revocable row = dr_revocable d;
  df_expires : _normalize_expires_at (py_opt (dr_expires_at d)) = Ok (cap_expires_at row);
  df_constraints : json_column str_other (dr_constraints d) = Ok (cap_constraints row);
  df_depth : cap_delegation_depth row = dr_delegation_depth d;
  df_delegable : cap_delegable row = dr_delegable d;
  df_max : cap_max_delegation_depth row = dr_max_delegation_depth d;
  df_parent : cap_parent_cap_id row = dr_parent_cap_id d;
}.

Lemma max_depth_same o m : _max_delegation_depth (py_int_opt o) = Ok m → m = o.
Proof. destruct o as [z|]; cbn; [destruct (z <? 0)%Z; [done|]|]; by intros [= <-]. Qed.

Lemma uses_same o m : _positive_uses_remaining (py_int_opt o) = Ok m → m = o.
Proof. destruct o as [z|]; cbn; [destruct (z <? 1)%Z; [done|]|]; by intros [= <-]. Qed.

Lemma normalized_dated o e : _normalize_expires_at (py_opt o) = Ok (Some e) → dated_text e.
Proof. destruct o as [x|]; [|done]. cbn. intros (t & Et & [= <-])%bind_Ok. by exists x, t. Qed.

Lemma draft_dated d d' e : _capability_draft d = Ok d' → dr_expires_at d' = Some e → dated_text e.
Proof.
  unfold _capability_draft. intros E Ee. do 7 (apply bind_Ok in E as (? & _ & E)). apply bind_Ok in E as (ex & Ex & [= <-]).
  cbn in Ee. subst ex. by eapply normalized_dated.
Qed.

Lemma draft_row d d' id now row :
  _capability_draft d = Ok d' → capability_params (capability_of_draft id now d') = Ok row →
  drafted d row ∧ is_Ok (parse (dr_resource d) false) = true.
Proof.
  unfold _capability_draft. intros E Hrow. apply bind_Ok in E as (u1 & _ & E). apply bind_Ok in E as (p & Ep & E).
  apply bind_Ok in E as (r & Er & E). apply bind_Ok in E as (u2 & _ & E). apply bind_Ok in E as (uses & Eu & E).
  apply bind_Ok in E as (m & Em & E). apply bind_Ok in E as (u3 & _ & E). apply bind_Ok in E as (x & Ex & [= <-]).
  apply normalize_rights_ok in Er as ->. apply max_depth_same in Em as ->. apply uses_same in Eu as ->.
  apply params_shape in Hrow as (c & md & Ec & ->). split; [|by rewrite Ep]. split; cbn; try done.
  intros y. by rewrite !elem_of_right_set.
Qed.

Lemma drafted_rights P d row : drafted d row → subset_of (dr_rights d) (cap_rights P) = true → subset_of (cap_rights row) (cap_rights P) = true.
Proof.
  unfold subset_of. rewrite !forallb_forall. intros Hd Hs x Hx. apply Hs. apply list_elem_of_In.
  by apply (df_rights _ _ Hd), list_elem_of_In.
Qed.

Lemma covers_matches g r : covers g r = true → matches g (canonical r) = true.
Proof.
  unfold covers. destruct (parse r false) as [q|] eqn:E; [|done]. by apply parse_shape in E as [<- _].
Qed.

Lemma attenuation_spec parent delegated :
  _constraint_attenuation_error parent delegated = Ok None →
  (∀ k v, (k, v) ∈ parent → ∃ v', item_get delegated k = Some v' ∧ keeps_value k v' v = true)
  ∧ (∀ k, k ∈ effect_keys → item_has delegated k = true → item_has parent k = true).
Proof.
  unfold _constraint_attenuation_error. intros ([m|] & _ & E)%bind_Ok; [done|]. apply bind_Ok in E as ([m|] & _ & E); [done|].
  destruct (omap (parent_constraint_error delegated) parent) as [|m l] eqn:Eo; [|done].
  destruct (existsb _ delegated) eqn:Ex; [done|]. split.
  - intros k v Hin. assert (parent_constraint_error delegated (k, v) = None) as Hn.
    { destruct (parent_constraint_error delegated (k, v)) as [m|] eqn:Em; [|done]. exfalso.
      assert (m ∈ omap (parent_constraint_error delegated) parent) as Hm by (apply list_elem_of_omap; by exists (k, v)).
      rewrite Eo in Hm. by apply not_elem_of_nil in Hm. }
    unfold parent_constraint_error in Hn. cbn [fst snd] in Hn. destruct (item_get delegated k) as [v'|]; [|done].
    exists v'. split; [done|]. unfold keeps_value.
    destruct (String.eqb k "git_allowed_refs"); [by destruct (texts_subset v' v)|by destruct (py_eq v' v)].
  - intros k Hk Hh. destruct (item_has parent k) eqn:Ep; [done|]. exfalso. apply not_true_iff_false in Ex. apply Ex.
    unfold item_has in Hh. apply bool_decide_eq_true in Hh as [v Hv]. apply existsb_exists. exists (k, v).
    split; [by apply list_elem_of_In, item_get_elem|]. cbn. rewrite Ep. by apply bool_decide_eq_true.
Qed.

Definition dated_spec (sel : CapabilitySpec) : Prop := ∀ e, sp_expires_at sel = Some e → dated_text e.

Lemma coerced_dated request sel : _coerce_spec request = Ok sel → dated_spec sel.
Proof.
  intros E e. unfold _coerce_spec in E. apply bind_Ok in E as (d & _ & E).
  do 6 (apply bind_Ok in E as (? & _ & E)). destruct (_pop_spec_policy _ _) as [policy cs].
  apply bind_Ok in E as (uses & _ & E). apply bind_Ok in E as (ex & Ex & E). apply bind_Ok in E as (? & _ & E).
  apply bind_Ok in E as (lease & El & E). do 10 (apply bind_Ok in E as (? & _ & E)). injection E as <-. cbn. intros He.
  assert (∀ v, _normalize_expires_at v = Ok (Some e) → dated_text e) as Hn.
  { intros v Hv. destruct v; try done. cbn in Hv. apply bind_Ok in Hv as (t & Et & [= <-]). by eexists _, t. }
  destruct (sd_lease d) as [arg|].
  - unfold _coerce_lease in El. apply bind_Ok in El as (? & _ & El). apply bind_Ok in El as (? & _ & El).
    apply bind_Ok in El as (? & Ee & [= <-]). cbn in He. subst. by eapply Hn.
  - injection El as <-. cbn in He. subst. by eapply Hn.
Qed.

(** A kept value is kept by what is stored of it. *)
Lemma keeps_stored k v v' w :
  keeps_value k v' v = true → canonical_json str_other v → json_stored str_other v' = Ok w → keeps_value k w v = true.
Proof.
  unfold keeps_value. destruct (String.eqb k "git_allowed_refs").
  - apply texts_subset_stored.
  - intros He Hv E. by eapply stored_keeps_eq.
Qed.

Lemma column_canonical d : json_column str_other d = Ok d → Forall (fun kv => canonical_json str_other (snd kv)) d.
Proof.
  unfold json_column. intros (items & E & [= Hi])%bind_Ok. rewrite <-Hi, sort_items_perm. apply mapR_Ok in E. clear Hi.
  induction E as [|x y l l' Exy _ IH]; constructor; [|done].
  apply bind_Ok in Exy as (w & Hw & [= <-]). by eapply stored_canonical.
Qed.

(** A draft under a parent its spec is within. *)
Record under (P : Capability) (sel : CapabilitySpec) (d : CapabilityDraft) : Prop := {
  un_parent : dr_parent_cap_id d = Some (cap_id P);
  un_resource : dr_resource d = sp_resource sel;
  un_rights : dr_rights d = sp_rights sel;
  un_constraints : dr_constraints d = sp_constraints sel;
  un_expires p : cap_expires_at P = Some p →
    ∃ e, dr_expires_at d = Some e ∧ (e = p ∨ sp_expires_at sel = Some e);
  un_depth : dr_delegation_depth d = (cap_delegation_depth P + 1)%Z;
  un_delegable : dr_delegable d = sp_delegable sel;
  un_max : sp_delegable sel = true → dr_max_delegation_depth d = Some (_delegated_max_delegation_depth P sel);
}.

Lemma drafted_attenuates P sel d row :
  within P sel → dated_spec sel → stored_row P → under P sel d → drafted d row → attenuates P row.
Proof.
  intros Hw Hsel HP [_ Er Eri Ec Ex Ed Edl Em] Hd. destruct (attenuation_spec _ _ (wi_constraints _ _ Hw)) as [Hat Hef].
  pose proof (df_constraints _ _ Hd) as Hcol. rewrite Ec in Hcol. split.
  - apply Hw.
  - apply Hw.
  - apply (drafted_rights P d row Hd). rewrite Eri. apply Hw.
  - rewrite (df_resource _ _ Hd), Er. apply covers_matches, Hw.
  - intros k v Hk. destruct (Hat k v (item_get_elem _ _ _ Hk)) as (v' & Hv' & Hkeep).
    pose proof (column_get _ _ _ k Hcol) as Hg. rewrite Hv' in Hg. destruct Hg as (w & Hsw & Hgw). exists w. split; [done|].
    eapply keeps_stored; [done| |done]. apply stored_row_spec in HP as (_ & _ & HP & _).
    apply column_canonical in HP. rewrite Forall_forall in HP. by apply (HP (k, v)), item_get_elem.
  - intros k Hk. rewrite (column_has _ _ _ k Hcol). by apply Hef.
  - intros p Hp. destruct (Ex p Hp) as (e & He & Hor). pose proof (df_expires _ _ Hd) as Hn. rewrite He in Hn.
    exists e. destruct Hor as [->|Hse].
    + split; [by left|]. split; [apply str_ltb_irrefl|done].
    + split; [right; by apply Hsel|]. split; [by apply (wi_expiry _ _ Hw)|done].
  - by rewrite (df_depth _ _ Hd).
  - rewrite (df_delegable _ _ Hd), (df_depth _ _ Hd), Edl, Ed. intros Hdel.
    destruct (wi_delegable _ _ Hw Hdel) as [? ?]. split_and!; [done..|].
    unfold _capability_max_delegation_depth at 1. rewrite (df_max _ _ Hd), (Em Hdel). cbn.
    unfold _delegated_max_delegation_depth. destruct (sp_max_delegation_depth sel) as [m|] eqn:Es; cbn; [by apply (wi_depth _ _ Hw)|lia].
Qed.

(** ** Publication *)

(** What a publication leaves in the tables. *)
Record published (c : Call) (d : CapabilityDraft) (s s' : CStore) (cap : Capability) : Prop := {
  pb_cap : cap = capability_of_draft (cap_id cap) (call_stamp c) d;
  pb_fresh : cap_rows s !! cap_id cap = None;
  pb_row : ∃ row, capability_params cap = Ok row ∧ cap_rows s' = <[cap_id cap := row]> (cap_rows s);
  pb_uses : use_rows s' = use_rows s;
}.

Lemma same_tables_trans s1 s2 s3 : same_tables s1 s2 → same_tables s2 s3 → same_tables s1 s3.
Proof. intros [? ?] [? ?]. split; congruence. Qed.

Lemma published_after c d s s1 s2 cap : published c d s s1 cap → same_tables s1 s2 → published c d s s2 cap.
Proof. intros [? ? ? ?] [Er Eu]. split; [done..|by rewrite Er|by rewrite Eu]. Qed.

Lemma quiet_revalidate : quiet revalidate_admission.
Proof. apply quiet_viewing. Qed.
Lemma quiet_attach c subject id : quiet (_attach_to_process c subject id).
Proof. apply quiet_procs. Qed.
#[local] Hint Resolve quiet_revalidate quiet_attach : caps.

Lemma publish_run c d s s' cap : publish c d s = (s', Ok cap) → published c d s s' cap.
Proof.
  unfold publish. rewrite authority_unit_Ok. intros E.
  apply M_bind_Ok in E as ([] & s1 & Ea & E). apply viewing_Ok in Ea as [-> _].
  apply M_bind_Ok in E as (i & s1 & Ei & E). apply viewing_Ok in Ei as [-> _].
  set (cap0 := capability_of_draft i (call_stamp c) d) in *. cbv zeta in E.
  apply M_bind_Ok in E as (u & s1 & Eu & E). apply insert_run in Eu as (row & Erow & Hf & ->).
  apply M_bind_Ok in E as ([] & s2 & Eat & E). apply M_bind_Ok in E as ([] & s3 & Eev & E).
  apply M_bind_Ok in E as ([] & s4 & Er & E). injection E as <- <-.
  eapply (published_after c d s (set_caps <[cap_id cap0 := row]> s)); [split; [done..|by exists row|done]|].
  eapply same_tables_trans; [by apply quiet_attach in Eat|].
  eapply same_tables_trans; [by apply quiet_attest in Eev|by apply quiet_revalidate in Er].
Qed.

Definition rows_parented (c : Call) (d : CapabilityDraft) (s : CStore) : Prop :=
  ∀ i row, capability_params (capability_of_draft i (call_stamp c) d) = Ok row → parented s row.

Lemma published_advance c d s s' cap :
  caps_ok s → rows_parented c d s → published c d s s' cap → caps_ok s' ∧ evolves s s'.
Proof.
  intros Hok Hp [Ecap Hf (row & Erow & Er) Eu].
  assert (insert_capability cap s = (set_caps <[cap_id cap := row]> s, Ok tt)) as Ei.
  { unfold insert_capability, mbind, M_bind, lift_res, get_state. rewrite Erow, Hf. done. }
  destruct (insert_advance s _ cap tt Hok Ei) as [Hok1 Hev1]; [by rewrite Ecap|intros x; rewrite Ecap; apply Hp|].
  destruct (advance_same (set_caps <[cap_id cap := row]> s) s') as [? Hev2]; [by split|done|].
  split; [done|]. by eapply evolves_trans.
Qed.

Lemma draft_parented c d d' s :
  _capability_draft d = Ok d' →
  (∀ i row, capability_params (capability_of_draft i (call_stamp c) d') = Ok row → has_parent s row) → rows_parented c d' s.
Proof.
  intros Ed Hp i row Erow. split; [|by eapply Hp]. intros e Ee. apply params_shape in Erow as (x & m & _ & ->).
  by eapply draft_dated.
Qed.

Lemma rootless_parented c d d' s : _capability_draft d = Ok d' → dr_parent_cap_id d' = None → rows_parented c d' s.
Proof.
  intros Ed Hn. eapply draft_parented; [done|]. intros i row E p Ep. apply params_shape in E as (x & m & _ & ->). cbn in Ep. congruence.
Qed.

Lemma draft_same d d' : _capability_draft d = Ok d' →
  dr_parent_cap_id d' = dr_parent_cap_id d ∧ dr_subject d' = dr_subject d ∧ dr_metadata d' = dr_metadata d.
Proof.
  unfold _capability_draft. intros E. apply bind_Ok in E as (? & _ & E). apply bind_Ok in E as (? & _ & E).
  apply bind_Ok in E as (? & _ & E). apply bind_Ok in E as (? & _ & E). apply bind_Ok in E as (? & _ & E).
  apply bind_Ok in E as (? & _ & E). apply bind_Ok in E as (? & _ & E). by apply bind_Ok in E as (? & _ & [= <-]).
Qed.

Lemma under_attenuates c P sel d d' i row :
  within P sel → dated_spec sel → stored_row P → under P sel d → _capability_draft d = Ok d' →
  capability_params (capability_of_draft i (call_stamp c) d') = Ok row → attenuates P row.
Proof. intros Hw Hs HP Hu Ed Erow. destruct (draft_row d d' i _ row Ed Erow) as [Hd _]. by eapply drafted_attenuates. Qed.

Lemma under_parented c P sel d d' s :
  caps_ok s → cap_rows s !! cap_id P = Some P → within P sel → dated_spec sel → under P sel d →
  _capability_draft d = Ok d' → rows_parented c d' s.
Proof.
  intros Hok Hr Hw Hds Hu Ed. eapply draft_parented; [done|]. intros i row Erow p Ep.
  destruct (caps_row_ok s _ P Hok Hr) as (_ & Hs & _).
  destruct (draft_row d d' i _ row Ed Erow) as [Hd _]. rewrite (df_parent _ _ Hd), (un_parent _ _ _ Hu) in Ep.
  injection Ep as <-. exists P. split; [done|]. by eapply under_attenuates.
Qed.

Lemma delegated_under parent child actor P sel : under P sel (delegated_draft parent child actor P sel).
Proof.
  split; try done. cbn. intros p Hp. unfold id_or. rewrite Hp. destruct (sp_expires_at sel) as [e|]; [|exists p; by split; [|left]].
  destruct (String.eqb e ""); [exists p; by split; [|left]|exists e; by split; [|right]].
Qed.

Lemma find_delegation_within c parent sel s P :
  _find_delegation_parent c parent sel s = Ok P → within P sel.
Proof.
  intros E. apply find_parent_spec in E as (l & _ & _ & _ & _ & Heff & _ & Hcov & Hsub & Hv).
  by eapply validate_delegation_within.
Qed.

Lemma find_transfer_within c actor sel s P : _find_transfer_parent c actor sel s = Ok P → within P sel.
Proof.
  intros E. apply find_parent_spec in E as (l & _ & _ & _ & _ & Heff & _ & Hcov & Hsub & Hv).
  by eapply validate_transfer_within.
Qed.

Lemma found_parent_row c subject sel action extra validate s P :
  caps_ok s → find_parent c subject sel action extra validate s = Ok P →
  cap_rows s !! cap_id P = Some P ∧ cap_subject P = subject.
Proof.
  intros Hok E. apply find_parent_spec in E as (l & El & Hin & _).
  destruct (list_capabilities_ok s (Some subject) Hok) as (l' & El' & _ & Hl). rewrite El in El'. injection El' as <-.
  by apply Hl in Hin.
Qed.

(** ** Issue *)

Lemma issue_draft_run c d actor s s' cap : issue_draft c d actor None s = (s', Ok cap) → published c d s s' cap.
Proof.
  unfold issue_draft. rewrite authority_unit_Ok. intros E.
  apply M_bind_Ok in E as ([] & s1 & Ea & E). apply viewing_Ok in Ea as [-> _].
  apply M_bind_Ok in E as (x & s1 & [= <- <-] & E). apply M_bind_Ok in E as (cap0 & s1 & Ep & E).
  apply publish_run in Ep. apply M_bind_Ok in E as (b & s2 & [= <- <-] & E).
  apply M_bind_Ok in E as ([] & s3 & Eat & E). apply M_bind_Ok in E as ([] & s4 & Er & E). injection E as <- <-.
  eapply published_after; [done|]. eapply same_tables_trans; [by apply quiet_attest in Eat|by apply quiet_revalidate in Er].
Qed.

Lemma obeys_ok_issue_draft c d actor s s' cap :
  rows_parented c d s → issue_draft c d actor None s = (s', Ok cap) → advance s s'.
Proof. intros Hp E Hok. apply issue_draft_run in E. by eapply published_advance. Qed.

Lemma obeys_issue_rootless c d0 d actor :
  _capability_draft d0 = Ok d → dr_parent_cap_id d = None → obeys (issue_draft c d actor None).
Proof.
  intros Hd Hn. unfold issue_draft. apply obeys_unit. intros s s' cap E.
  eapply (obeys_ok_issue_draft c d actor); [by eapply rootless_parented|]. unfold issue_draft. by rewrite authority_unit_Ok.
Qed.

Lemma prepare_rootless actor subject sel issuer d :
  _prepare_issue_draft actor subject sel None issuer = Ok d → dr_parent_cap_id d = None.
Proof. intros E. by apply draft_same in E as (-> & _). Qed.

Lemma transfer_under actor subject P sel issuer d' :
  _prepare_issue_draft actor subject sel (Some P) issuer = Ok d' → ∃ d, under P sel d ∧ _capability_draft d = Ok d'.
Proof.
  unfold _prepare_issue_draft. intros E. eexists. split; [|exact E]. split; try done; cbn; [|by intros ->].
  intros p Hp. destruct (sp_expires_at sel) as [e|]; [exists e; by split; [|right]|exists p; by split; [|left]].
Qed.

Lemma quiet_issue_authority c actor spec : quiet (_require_issue_authority c actor spec).
Proof.
  unfold _require_issue_authority. apply caps_quiet_bind; [apply quiet_authorize|]. intros a.
  destruct (dec_allowed a); [obeys|]. apply caps_quiet_bind; [apply quiet_authorize|]. intros g. obeys.
Qed.

(** The transaction body of an authorized issue. *)
Lemma issue_body_advance c actor subject sel parent l s s' cap :
  dated_spec sel →
  (decision ← lift_res (of_option (RuntimeError "tuple index out of range") (head l));
   transfer ← match (parent : option Capability) with
              | None => mret None
              | Some _ =>
                  P ← viewing (_find_transfer_parent c actor sel);
                  _ ← viewing (_validate_transfer_parent c P sel);
                  mret (Some P)
              end;
   draft ← lift_res (_prepare_issue_draft actor subject sel transfer (dec_selected_capability_id decision));
   issue_draft c draft actor None) s = (s', Ok cap) → advance s s'.
Proof.
  intros Hds E Hok. apply M_bind_Ok in E as (d & s1 & Ed & E). apply lift_res_Ok in Ed as [-> _].
  apply M_bind_Ok in E as (t & s1 & Et & E). apply M_bind_Ok in E as (draft & s2 & Edr & E).
  apply lift_res_Ok in Edr as [-> Edr]. destruct parent as [Q|].
  - apply M_bind_Ok in Et as (P & s2 & Ef & Et). apply viewing_Ok in Ef as [-> Ef].
    apply M_bind_Ok in Et as ([] & s2 & Ev & Et). apply viewing_Ok in Ev as [-> _]. injection Et as <- <-.
    apply transfer_under in Edr as (d0 & Hu & Edr). apply found_parent_row in Ef as Hr; [|done].
    eapply obeys_ok_issue_draft; [|exact E|done]. eapply under_parented; [done|apply Hr| |done..]. by eapply find_transfer_within.
  - injection Et as <- <-. eapply obeys_issue_rootless; [exact Edr|by eapply prepare_rootless|exact E|done].
Qed.

Lemma obeys_issue c actor subject request issuer authority : obeys (issue c actor subject request issuer authority).
Proof.
  unfold issue. apply obeys_lift_bind. intros sel Hsel. apply coerced_dated in Hsel. destruct authority; cbn [negb].
  - apply obeys_bind; [apply quiet_obeys, quiet_issue_authority|]. intros [d parent]. apply obeys_manager_transaction.
    intros l s s' cap. by apply issue_body_advance.
  - intros s s' r E. unfold mbind, M_bind in E. destruct (lift_res _ s) as [s1 [draft|e]] eqn:El.
    + apply lift_res_Ok in El as [-> Ed]. eapply obeys_issue_rootless; [exact Ed|by eapply prepare_rootless|exact E].
    + injection E as <- <-. unfold lift_res in El. injection El as <- _. by apply advance_same.
Qed.
#[local] Hint Resolve obeys_issue : caps.

Lemma obeys_issue_trusted c subject resource rights by_ effect cs m exp uses delegable revocable depth :
  obeys (issue_trusted c subject resource rights by_ effect cs m exp uses delegable revocable depth).
Proof. unfold issue_trusted. obeys. Qed.
#[local] Hint Resolve obeys_issue_trusted : caps.

Lemma obeys_grant c subject resource rights by_ cs m exp delegable revocable :
  obeys (grant c subject resource rights by_ cs m exp delegable revocable).
Proof. unfold grant. apply obeys_bind; [obeys|]. intros; obeys. Qed.

Lemma obeys_grant_once c subject resource rights by_ cs m exp : obeys (grant_once c subject resource rights by_ cs m exp).
Proof. apply obeys_issue_trusted. Qed.

Lemma obeys_set_policy c subject resource rights policy by_ cs exp :
  obeys (set_permission_policy c subject resource rights policy by_ cs exp).
Proof.
  unfold set_permission_policy. apply obeys_bind; [obeys|]. intros eu. cbv zeta. apply obeys_unit, obeys_obeys_ok.
  apply obeys_bind; [apply obeys_issue_trusted|]. intros; obeys.
Qed.

Lemma obeys_handle c subject oid rights by_ exp uses m : obeys (handle_for_object c subject oid rights by_ exp uses m).
Proof. unfold handle_for_object. apply obeys_bind; [obeys|]. intros. apply obeys_bind; [apply obeys_issue_trusted|]. intros; obeys. Qed.

(** ** Delegate *)

(** The row a spec is stored as under a parent: the rights, the resource, the
    effect, the constraints, the uses and the expiry that were asked for (the
    parent's expiry where none was), and no others. *)
Record grants_spec (target : string) (P : Capability) (sel : CapabilitySpec) (row : Capability) : Prop := {
  gs_subject : cap_subject row = target;
  gs_parent : cap_parent_cap_id row = Some (cap_id P);
  gs_resource : cap_resource row = canonical (sp_resource sel);
  gs_rights x : x ∈ cap_rights row ↔ x ∈ sp_rights sel;
  gs_effect : cap_effect row = sp_effect sel;
  gs_constraints : json_column str_other (sp_constraints sel) = Ok (cap_constraints row);
  gs_uses : cap_uses_remaining row = sp_uses_remaining sel;
  gs_expires : _normalize_expires_at (py_opt (id_or (sp_expires_at sel) (cap_expires_at P))) = Ok (cap_expires_at row);
  gs_delegable : cap_delegable row = sp_delegable sel;
  gs_revocable : cap_revocable row = sp_revocable sel;
  gs_depth : cap_delegation_depth row = (cap_delegation_depth P + 1)%Z;
}.

(** A delegation: its parent, and the row it left. *)
Record delegated (c : Call) (parent child : string) (sel : CapabilitySpec) (s s' : CStore) (cap : Capability) : Prop := {
  dg_parent : ∃ P row, cap_rows s !! cap_id P = Some P ∧ cap_subject P = parent ∧ live c P = true
    ∧ _parent_chain_active c P s = Ok true ∧ cap_delegable P = true ∧ within P sel
    ∧ cap_rows s !! cap_id cap = None ∧ cap_rows s' = <[cap_id cap := row]> (cap_rows s)
    ∧ grants_spec child P sel row ∧ attenuates P row;
  dg_uses : use_rows s' = use_rows s;
}.

Lemma quiet_record_delegation cap P parent child actor : quiet (record_delegation cap P parent child actor).
Proof.
  intros s s' r. unfold record_delegation, authority_unit.
  destruct ((_ ← revalidate_admission; _) s) as [s1 [a|e]] eqn:E; intros [= <- <-]; [|done].
  assert (quiet (_ ← revalidate_admission; _ ← attest (CapAudit actor "capability.delegate"
    (parent +:+ "->" +:+ child +:+ ":" +:+ cap_resource cap) [cap_id P; cap_id cap]); revalidate_admission)) as Hq by obeys.
  by apply (Hq s s1 (Ok a)).
Qed.

Lemma delegate_selected_run c parent child sel actor s s' cap :
  caps_ok s → dated_spec sel → _delegate_selected c parent child sel actor s = (s', Ok cap) →
  caps_ok s' ∧ evolves s s' ∧ delegated c parent child sel s s' cap.
Proof.
  intros Hok Hds E. unfold _delegate_selected in E. apply M_bind_Ok in E as (P & s1 & Ef & E). apply viewing_Ok in Ef as [-> Ef].
  apply M_bind_Ok in E as (cap0 & s1 & Ei & E). apply M_bind_Ok in E as ([] & s2 & Er & E). injection E as <- <-.
  unfold _insert_capability in Ei. apply M_bind_Ok in Ei as (d & s3 & Ed & Ei). apply lift_res_Ok in Ed as [-> Ed].
  apply publish_run in Ei. apply quiet_record_delegation in Er. eapply published_after in Ei; [|done].
  pose proof (found_parent_row _ _ _ _ _ _ _ _ Hok Ef) as [Hr Hsub]. pose proof (find_delegation_within _ _ _ _ _ Ef) as Hw.
  pose proof (delegated_under parent child (actor_or actor parent) P sel) as Hu.
  destruct (published_advance c d s s2 cap0 Hok) as [Hok' Hev]; [by eapply under_parented|done|].
  split; [done|]. split; [done|].
  destruct Ei as [Ecap Hf (row & Erow & Erows) Eu]. split; [|done]. exists P, row.
  apply find_parent_spec in Ef as (l & _ & _ & Hl & Hc & _ & Hdel & _). rewrite Ecap in Erow.
  destruct (draft_row _ _ _ _ _ Ed Erow) as [Hd _].
  split_and!; try done; [by split; apply Hd|]. destruct (caps_row_ok s _ P Hok Hr) as (_ & Hs & _). by eapply under_attenuates.
Qed.

Lemma obeys_ok_delegate_selected c parent child sel actor :
  dated_spec sel → obeys_ok (_delegate_selected c parent child sel actor).
Proof. intros Hds s s' cap E Hok. by destruct (delegate_selected_run _ _ _ _ _ _ _ _ Hok Hds E) as (? & ? & _). Qed.

Lemma obeys_delegate c parent child request actor : obeys (delegate c parent child request actor).
Proof.
  unfold delegate. apply obeys_lift_bind. intros sel Hsel. apply obeys_unit, obeys_ok_delegate_selected.
  by eapply coerced_dated.
Qed.

Lemma obeys_inherit c parent child resource rights by_ cs : obeys (inherit c parent child resource rights by_ cs).
Proof. unfold inherit. apply obeys_bind; [obeys|]. intros l. apply obeys_delegate. Qed.

Lemma quiet_check_transition c source ceiling specs : quiet (check_transition c source ceiling specs).
Proof.
  induction specs as [|sel specs IH]; cbn; [obeys|]. apply caps_quiet_bind; [destruct (bool_decide _); obeys|].
  intros b. apply caps_quiet_bind; [obeys|]. intros _. apply caps_quiet_bind; [obeys|]. intros _. apply IH.
Qed.

Lemma obeys_ok_delegate_each c source target actor specs :
  Forall dated_spec specs → obeys_ok (delegate_each c source target actor specs).
Proof.
  induction 1 as [|sel specs Hsel _ IH]; cbn; [apply obeys_obeys_ok; obeys|].
  apply obeys_ok_bind; [by apply obeys_ok_delegate_selected|]. intros cap. apply obeys_ok_bind; [apply IH|]. intros; obeys.
Qed.

Lemma coerced_specs_dated requested specs : mapR _coerce_spec requested = Ok specs → Forall dated_spec specs.
Proof.
  intros E. apply mapR_Ok in E. induction E as [|x y l l' Hxy _ IH]; constructor; [by eapply coerced_dated|done].
Qed.

Lemma obeys_derive c source target requested kind ceiling actor :
  obeys (derive_authority c source target requested kind ceiling actor).
Proof.
  unfold derive_authority. apply obeys_lift_bind. intros specs Hspecs. apply obeys_unit.
  apply obeys_ok_bind; [apply obeys_obeys_ok, quiet_obeys, quiet_check_transition|]. intros _.
  apply obeys_ok_bind; [apply obeys_ok_delegate_each; by eapply coerced_specs_dated|]. intros; obeys.
Qed.
End Delegation.
