(* ===== verification/CapabilityHistory.v ===== *)
(** * Histories of the capability services

    Any sequence of calls on the capability services, at any clock and in any
    ambient scope, and what holds along it: revocation is final, finite uses are
    never overdrawn, delegated rows stay attenuated, and a chain of parents is
    walked to its end.

    The removal of rows an aborted exec created is not part of a history. *)

From S2P Require Import Prelude FiniteSums PyStr PyVal PyEnum ProcessState ProcessModel ProcessStore ProcessWrites ResourceAuthority CapabilityModel AuthorityRules CapabilityEvaluator JsonColumn CapabilityTables CapabilityLease CapabilitySpec JsonEquality CapabilityManager CapabilityEvolution CapabilityOperations CapabilityServices CapabilityDelegation.
From stdpp Require Import sorting.

Section History.
Context `{CapabilityHost} `{ExecEvidence}.

(** ** Steps *)

(** A snapshot of rows whose metadata was read from the table. *)
Definition snapshot (before : list Capability) : Prop :=
  ∀ b, b ∈ before → json_column str_other (cap_metadata b) = Ok (cap_metadata b).

(** A run of one service, returning or raising. *)
Definition runs {A} (m : M CStore A) (s s' : CStore) : Prop := ∃ r, m s = (s', r).

Inductive authority_step (s s' : CStore) : Prop :=
| step_processes b : s' = set_procs b s → authority_step s s'
| step_consume id by_ n : runs (consume id by_ n) s s' → authority_step s s'
| step_reserve c id by_ reason n : runs (reserve c id by_ reason n) s s' → authority_step s s'
| step_commit c r by_ : runs (commit c r by_) s s' → authority_step s s'
| step_restore c r by_ : runs (restore c r by_) s s' → authority_step s s'
| step_reserve_use c d by_ reason : runs (reserve_decision_use c d by_ reason) s s' → authority_step s s'
| step_claim c d by_ reason : runs (claim_decision_use c d by_ reason) s s' → authority_step s s'
| step_consume_once c p res r by_ : runs (consume_allow_once c p res r by_) s s' → authority_step s s'
| step_authorize c p res r ctx a : runs (authorize c p res r ctx a) s s' → authority_step s s'
| step_require c p res r ctx b by_ reason : runs (require c p res r ctx b by_ reason) s s' → authority_step s s'
| step_handle c p h r : runs (assert_handle c p h r) s s' → authority_step s s'
| step_issue c a p req i b : runs (issue c a p req i b) s s' → authority_step s s'
| step_issue_trusted c p res rs by_ e cs m x u d v k :
    runs (issue_trusted c p res rs by_ e cs m x u d v k) s s' → authority_step s s'
| step_grant c p res rs by_ cs m e d v : runs (grant c p res rs by_ cs m e d v) s s' → authority_step s s'
| step_grant_once c p res rs by_ cs m e : runs (grant_once c p res rs by_ cs m e) s s' → authority_step s s'
| step_policy c p res rs pol by_ cs e : runs (set_permission_policy c p res rs pol by_ cs e) s s' → authority_step s s'
| step_object c p o rs by_ e u m : runs (handle_for_object c p o rs by_ e u m) s s' → authority_step s s'
| step_delegate c p q req a : runs (delegate c p q req a) s s' → authority_step s s'
| step_inherit c p q res rs by_ cs : runs (inherit c p q res rs by_ cs) s s' → authority_step s s'
| step_derive c p q reqs k ceil a : runs (derive_authority c p q reqs k ceil a) s s' → authority_step s s'
| step_revoke c id by_ b : runs (revoke c id by_ b) s s' → authority_step s s'
| step_disable c id by_ : runs (disable c id by_) s s' → authority_step s s'
| step_revoke_resource c res by_ : runs (revoke_resource c res by_) s s' → authority_step s s'
| step_stage c id t : runs (stage_exec_revocation c id t) s s' → authority_step s s'
| step_finalize c p t : runs (finalize_exec_revocations c p t) s s' → authority_step s s'
| step_rollback p before t : snapshot before →
    runs (authority_unit (_restore_exec_revoked_capabilities p before t)) s s' → authority_step s s'
| step_effect_restore a k r now :
    runs (authority_unit (_restore_external_effect_capability_reservation a k r now)) s s' → authority_step s s'
| step_effect_commit a k r now :
    runs (authority_unit (_commit_external_effect_capability_reservation a k r now)) s s' → authority_step s s'
| step_abandon fuel lease now : runs (abandon_stale_capability_use_reservations fuel lease now) s s' → authority_step s s'.

Definition authority_history : CStore → CStore → Prop := rtc authority_step.

Lemma runs_advance {A} (m : M CStore A) s s' : obeys m → runs m s s' → advance s s'.
Proof. intros Hm [r E]. by eapply Hm. Qed.

Lemma step_advance s s' : authority_step s s' → advance s s'.
Proof.
  intros []; (eapply runs_advance; [|eassumption]) || idtac.
  - subst. by apply advance_same.
  - apply obeys_consume.
  - apply obeys_reserve.
  - apply obeys_commit.
  - apply obeys_restore.
  - apply obeys_reserve_decision_use.
  - apply obeys_claim.
  - apply obeys_consume_allow_once.
  - apply quiet_obeys, quiet_authorize.
  - apply obeys_require.
  - apply obeys_assert_handle.
  - apply obeys_issue.
  - apply obeys_issue_trusted.
  - apply obeys_grant.
  - apply obeys_grant_once.
  - apply obeys_set_policy.
  - apply obeys_handle.
  - apply obeys_delegate.
  - apply obeys_inherit.
  - apply obeys_derive.
  - apply obeys_revoke.
  - apply obeys_disable.
  - apply obeys_revoke_resource.
  - apply obeys_stage_exec.
  - apply obeys_finalize.
  - by apply obeys_unit, obeys_obeys_ok, obeys_restore_exec.
  - apply obeys_unit, obeys_restore_effect.
  - apply obeys_unit, obeys_commit_effect.
  - apply obeys_abandon.
Qed.

Lemma history_advance s s' : authority_history s s' → advance s s'.
Proof.
  induction 1 as [s|s1 s2 s3 Hs _ IH]; [reflexivity|]. transitivity s2; [by apply step_advance|done].
Qed.

(** ** Chains of parents *)

(** Every capability above is active and not expired. *)
Inductive ancestors_live (c : Call) (s : CStore) : option string → Prop :=
| live_root : ancestors_live c s None
| live_parent i row : cap_rows s !! i = Some row → live c row = true →
    ancestors_live c s (cap_parent_cap_id row) → ancestors_live c s (Some i).

(** [x] is [id], or was delegated from it. *)
Inductive descends (s : CStore) (id : string) : string → Prop :=
| descends_self : descends s id id
| descends_child x row p : cap_rows s !! x = Some row → cap_parent_cap_id row = Some p →
    descends s id p → descends s id x.

Lemma ancestors_descend c s id p row :
  ancestors_live c s (Some p) → descends s id p → cap_rows s !! id = Some row → live c row = true.
Proof.
  intros Hl Hd Hr. induction Hd as [|x xrow q Hx Hq _ IH].
  - inversion Hl as [|i row' Hi Hlive]; subst. congruence.
  - inversion Hl as [|i row' Hi Hlive Hrest]; subst. rewrite Hx in Hi. injection Hi as <-. apply IH. by rewrite <-Hq.
Qed.

(** The chain itself. *)
Inductive lineage (c : Call) (s : CStore) : option string → list string → Prop :=
| lineage_root : lineage c s None []
| lineage_up i row l : cap_rows s !! i = Some row → live c row = true →
    lineage c s (cap_parent_cap_id row) l → lineage c s (Some i) (i :: l).

Lemma lineage_fun c s o l l' : lineage c s o l → lineage c s o l' → l' = l.
Proof.
  intros Hl. revert l'. induction Hl as [|i row l Hr _ _ IH]; intros l' Hl'; inversion Hl' as [|j row' l2 Hr' _ Hl2]; subst; [done|].
  rewrite Hr in Hr'. injection Hr' as <-. f_equal. by apply IH.
Qed.

Lemma lineage_suffix c s o l1 i l2 : lineage c s o (l1 ++ i :: l2) → lineage c s (Some i) (i :: l2).
Proof.
  revert o. induction l1 as [|j l1 IH]; intros o Hl; cbn in Hl.
  - by inversion Hl; subst.
  - inversion Hl as [|? row ? _ _ Hrest]; subst. by eapply IH.
Qed.

(** A chain above a stored row never comes back to it. *)
Lemma lineage_acyclic c s i row l :
  cap_rows s !! i = Some row → lineage c s (cap_parent_cap_id row) l → i ∉ l.
Proof.
  intros Hr Hl (l1 & l2 & ->)%list_elem_of_split. pose proof (lineage_suffix _ _ _ _ _ _ Hl) as Hs.
  inversion Hs as [|? row' ? Hr' _ Hl2]; subst. rewrite Hr in Hr'. injection Hr' as <-.
  apply (lineage_fun _ _ _ _ _ Hl2) in Hl. apply (f_equal length) in Hl. rewrite length_app in Hl. cbn in Hl. lia.
Qed.

Lemma ancestors_lineage c s o : ancestors_live c s o ↔ ∃ l, lineage c s o l.
Proof.
  split.
  - induction 1 as [|i row Hr Hl _ [l IH]]; [exists []; constructor|]. exists (i :: l). by econstructor.
  - intros [l Hl]. induction Hl as [|i row l Hr Hlive _ IH]; [constructor|]. by econstructor.
Qed.

Definition unseen (s : CStore) (seen : list string) : gset string := dom (cap_rows s) ∖ list_to_set seen.

Lemma unseen_shrinks s seen i row :
  cap_rows s !! i = Some row → i ∉ seen → size (unseen s (i :: seen)) < size (unseen s seen).
Proof.
  intros Hr Hi. apply subset_size. unfold unseen. apply elem_of_dom_2 in Hr. set_solver.
Qed.

Lemma live_negb c row : negb (active row) || _is_expired c row = negb (live c row).
Proof. unfold live. by rewrite negb_andb, negb_involutive. Qed.

Lemma parents_active_spec fuel c s seen o :
  caps_ok s → size (unseen s seen) < fuel →
  ∃ b, parents_active fuel c s seen o = Ok b
    ∧ (b = true ↔ ∃ l, lineage c s o l ∧ ∀ i, i ∈ l → i ∉ seen).
Proof.
  intros Hok. revert seen o. induction fuel as [|fuel IH]; intros seen o Hf; [lia|].
  destruct o as [i|]; cbn.
  2:{ exists true. split; [done|]. split; [|done]. intros _. exists []. split; [constructor|]. by intros i ?%not_elem_of_nil. }
  case_bool_decide as Hi.
  { exists false. split; [done|]. split; [done|]. intros (l & Hl & Hd). exfalso.
    inversion Hl; subst. eapply Hd; [by left|done]. }
  rewrite (get_capability_total s i Hok), res_bind_ok. destruct (cap_rows s !! i) as [row|] eqn:Hr.
  2:{ exists false. split; [done|]. split; [done|]. intros (l & Hl & _). inversion Hl; congruence. }
  rewrite live_negb. destruct (live c row) eqn:Hlive; cbn [negb].
  2:{ exists false. split; [done|]. split; [done|]. intros (l & Hl & _). inversion Hl; congruence. }
  pose proof (unseen_shrinks s seen i row Hr Hi) as Hsh.
  destruct (IH (i :: seen) (cap_parent_cap_id row)) as (b & Eb & Hb); [lia|]. exists b. split; [done|]. rewrite Hb. split.
  - intros (l & Hl & Hd). exists (i :: l). split; [by econstructor|]. intros j [->|Hj]%elem_of_cons; [done|].
    intros Hs. apply (Hd j Hj). by right.
  - intros (l & Hl & Hd). inversion Hl as [|? row' l' Hr' _ Hl']; subst. rewrite Hr in Hr'. injection Hr' as <-.
    exists l'. split; [done|]. intros j Hj [->|Hs]%elem_of_cons; [by eapply lineage_acyclic|].
    by apply (Hd j); [right|].
Qed.

Lemma chain_fuel_enough s seen : size (unseen s seen) < chain_fuel s.
Proof.
  unfold chain_fuel. rewrite <-size_dom. assert (size (unseen s seen) <= size (dom (cap_rows s))) as Hl; [|lia].
  apply subseteq_size. unfold unseen. set_solver.
Qed.

Lemma chain_active_spec c s cap :
  caps_ok s → cap_rows s !! cap_id cap = Some cap →
  ∃ b, _parent_chain_active c cap s = Ok b ∧ (b = true ↔ ancestors_live c s (cap_parent_cap_id cap)).
Proof.
  intros Hok Hr. unfold _parent_chain_active.
  destruct (parents_active_spec (chain_fuel s) c s [cap_id cap] (cap_parent_cap_id cap) Hok (chain_fuel_enough _ _)) as (b & Eb & Hb).
  exists b. split; [done|]. rewrite Hb, ancestors_lineage. split; [intros (l & Hl & _); by exists l|].
  intros [l Hl]. exists l. split; [done|]. intros i Hi ->%list_elem_of_singleton. by eapply lineage_acyclic.
Qed.
End History.
