(* ===== verification/CapabilityDecisions.v ===== *)
(** * What an allowing decision rests on

    The capabilities a decision of the manager considers, and that an allowing
    decision selects one of them whose whole lineage is live. *)

From S2P Require Import Prelude FiniteSums PyStr PyVal PyEnum ProcessState ProcessModel ProcessStore ProcessWrites ResourceAuthority CapabilityModel AuthorityRules CapabilityEvaluator EvaluatorProperties JsonColumn CapabilityTables CapabilityLease CapabilitySpec JsonEquality CapabilityManager CapabilityEvolution CapabilityOperations CapabilityServices CapabilityDelegation CapabilityHistory.
From stdpp Require Import sorting.

Section Decisions.
Context `{CapabilityHost} `{ExecEvidence}.

(** A stored capability of the subject, live with its lineage, for the request. *)
Record entitles (c : Call) (s : CStore) (subject resource right_ : string) (row : Capability) : Prop := {
  en_row : cap_rows s !! cap_id row = Some row;
  en_subject : cap_subject row = subject;
  en_live : live c row = true;
  en_chain : ancestors_live c s (cap_parent_cap_id row);
  en_matches : matches (cap_resource row) resource = true;
  en_right : right_ ∈ cap_rights row;
}.

Lemma filterR_In {A} (f : A → res bool) l l' x : filterR f l = Ok l' → x ∈ l → f x = Ok true → x ∈ l'.
Proof.
  revert l'. induction l as [|y l IH]; cbn; intros l'; [by intros _ ?%not_elem_of_nil|].
  intros (b & Eb & E)%bind_Ok. apply bind_Ok in E as (rest & Er & [= <-]).
  intros [->|Hx]%elem_of_cons Hf; [rewrite Hf in Eb; injection Eb as <-; left|].
  destruct b; [right|]; by apply IH.
Qed.

Lemma sort_matching_perm l : sort_matching_capabilities l ≡ₚ l.
Proof. unfold sort_matching_capabilities. by rewrite !stable_sort_perm. Qed.

(** DENY first, then the longest resource, the latest issue, and the least
    identifier. *)
Definition match_order : relation Capability := refined by_effect (refined by_length (refined by_issue by_id)).

#[local] Instance by_effect_pre : PreOrder by_effect.
Proof. split; intros ?; unfold by_effect; [|intros ? ?]; lia. Qed.
#[local] Instance by_effect_total : Total by_effect.
Proof. intros a b. unfold by_effect. lia. Qed.
#[local] Instance by_length_pre : PreOrder by_length.
Proof. split; intros ?; unfold by_length; [|intros ? ?]; lia. Qed.
#[local] Instance by_length_total : Total by_length.
Proof. intros a b. unfold by_length. lia. Qed.
#[local] Instance by_issue_trans : Transitive by_issue.
Proof. intros a b c Hab Hbc. unfold by_issue in *. by etrans. Qed.
#[local] Instance by_issue_total : Total by_issue.
Proof. intros a b. apply (total str_le). Qed.
#[local] Instance by_id_trans : Transitive by_id.
Proof. intros a b c Hab Hbc. unfold by_id in *. by etrans. Qed.
#[local] Instance by_id_total : Total by_id.
Proof. intros a b. apply (total str_le). Qed.

Lemma sort_matching_sorted l : StronglySorted match_order (sort_matching_capabilities l).
Proof. repeat (apply stable_sort_sorted; [apply _..|]). apply stable_sort_ordered; apply _. Qed.

Lemma matching_spec c subject resource right_ s l row :
  caps_ok s → _matching_capabilities c subject resource right_ true s = Ok l →
  row ∈ l ↔ entitles c s subject resource right_ row.
Proof.
  intros Hok E. unfold _matching_capabilities in E. apply bind_Ok in E as (p & _ & E).
  apply bind_Ok in E as (listed & El & E). apply bind_Ok in E as (ms & Em & [= <-]). rewrite sort_matching_perm.
  destruct (list_capabilities_ok s (Some subject) Hok) as (l' & El' & _ & Hl). rewrite El in El'. injection El' as <-.
  split.
  - intros Hin. apply (filterR_Ok _ _ _ _ Em) in Hin as [Hin (Hlive & Hb)%andR_Ok].
    apply Hl in Hin as [Hr Hs]. destruct (chain_active_spec c s row Hok Hr) as (b & Eb & Hb').
    rewrite Eb, res_bind_ok in Hb. injection Hb as Hb. cbn [orb] in Hb. rewrite !andb_true_iff in Hb.
    destruct Hb as (((-> & _) & Hm) & Hri%bool_decide_eq_true). split; try done. by apply Hb'.
  - intros [Hr Hs Hlive Hch Hm Hri]. eapply filterR_In; [exact Em|by apply Hl|]. apply andR_Ok. split; [done|].
    destruct (chain_active_spec c s row Hok Hr) as (b & -> & Hb'). apply Hb' in Hch as ->.
    rewrite res_bind_ok, Hm. by rewrite (bool_decide_eq_true_2 _ Hri).
Qed.

(** ** Evaluation *)

(** A request, up to the tables it is judged on. *)
Record Asked : Type := {
  as_tables : CStore;
  as_subject : string;
  as_resource : string;
  as_right : string;
  as_context : list (pyval * pyval);
  as_phase : string;
}.

(** A match the manager bars before the evaluator sees it: its persisted
    constraints do not fit the request, or those of its parents. *)
Definition barred (q : Asked) (cap : Capability) : Prop :=
  ∃ s1 s2, same_tables (as_tables q) s1
    ∧ evaluation_match (as_subject q) (as_resource q) (as_right q) (as_context q) (as_phase q) cap s1
      = (s2, Ok (disqualified cap)).

(** What the evaluator sees of a match: itself, or disqualified. *)
Definition seen_as (q : Asked) (row row' : Capability) : Prop :=
  row' = row ∨ row' = disqualified row ∧ barred q row.

Lemma evaluation_matches_run q l s s' out :
  same_tables (as_tables q) s →
  evaluation_matches (as_subject q) (as_resource q) (as_right q) (as_context q) (as_phase q) l s = (s', Ok out) →
  Forall2 (seen_as q) l out.
Proof.
  revert s s' out. induction l as [|cap l IH]; intros s s' out Hsame E; cbn in E; [by injection E as _ <-|].
  apply M_bind_Ok in E as (cap' & s1 & E1 & E). apply M_bind_Ok in E as (rest & s2 & E2 & E). injection E as _ <-.
  constructor.
  - pose proof E1 as E1'. unfold evaluation_match in E1. apply M_bind_Ok in E1 as (a & s3 & _ & E1).
    apply M_bind_Ok in E1 as (e & s4 & _ & E1). injection E1 as _ <-. destruct e; [right|by left].
    split; [done|]. by exists s, s1.
  - eapply IH; [|exact E2]. eapply same_tables_trans; [exact Hsame|]. by apply quiet_evaluation_match in E1.
Qed.

Abbreviation constraints_of :=
  (evaluate_constraints str_other float_of_str regex_config regex_engine semantic_binding payload_digest).

Lemma invalid_key : ("invalid_persisted_constraint" : string) ∉ KNOWN_CONSTRAINT_KEYS.
Proof. apply (bool_decide_eq_false _). by vm_compute. Qed.

Lemma disqualified_results row context rs :
  constraints_of (disqualified row) context = Ok rs →
  all_ok rs = false ∧ constraint_failure_is_scoped_miss rs = false.
Proof.
  unfold evaluate_constraints. cbn [cap_constraints disqualified with_columns]. intros (r & Er & E)%bind_Ok.
  injection E as <-. apply bind_Ok in Er as (x & Ex & [= <-]). unfold evaluate_constraint in Ex. cbn [fst snd] in Ex.
  rewrite bool_decide_eq_false_2 in Ex by apply invalid_key. cbn [negb] in Ex. injection Ex as <-. done.
Qed.

(** The fields of a decision the issuer chain and the record leave alone. *)
Definition same_verdict (d d' : CapabilityDecision) : Prop :=
  dec_allowed d' = dec_allowed d ∧ dec_selected_capability_id d' = dec_selected_capability_id d
  ∧ dec_consume_capability_id d' = dec_consume_capability_id d ∧ dec_effect d' = dec_effect d.

Lemma decision_run q l audit s s' d :
  same_tables (as_tables q) s →
  _decision_from_matches (as_subject q) (as_resource q) (as_right q) l (as_context q) audit (as_phase q) s = (s', Ok d) →
  ∃ evaluated d0, Forall2 (seen_as q) l evaluated
    ∧ CapabilityEvaluator.decide str_other float_of_str regex_config regex_engine semantic_binding payload_digest
        (as_subject q) (as_resource q) (as_right q) evaluated (as_context q) (fun _ => []) = Ok d0
    ∧ same_verdict d0 d.
Proof.
  unfold _decision_from_matches. intros Hsame E. apply M_bind_Ok in E as (ev & s1 & Eev & E).
  apply evaluation_matches_run in Eev; [|done]. apply M_bind_Ok in E as (d0 & s2 & Ed & E). apply lift_res_Ok in Ed as [-> Ed].
  apply M_bind_Ok in E as (d1 & s3 & E1 & E). exists ev, d0. split; [done|]. split; [done|].
  assert (same_verdict d0 d1) as Hv.
  { destruct (selected_in l d0) as [sel|].
    - apply M_bind_Ok in E1 as (ch & s4 & _ & E1). by injection E1 as _ <-.
    - by injection E1 as _ <-. }
  unfold _record_decision in E. destruct audit; [|by injection E as _ <-].
  apply M_bind_Ok in E as (u & s4 & _ & E). apply M_bind_Ok in E as (u' & s5 & _ & E). by injection E as _ <-.
Qed.

(** ** Allowing decisions *)

Abbreviation takes_before :=
  (preferred str_other float_of_str regex_config regex_engine semantic_binding payload_digest match_order).

(** The capability an allowing decision selected: the first, in the order of
    the matches, of those the manager did not bar - the first approved one, or,
    where nothing is approved and nothing asks, the first that allows; and what
    an allowing decision excludes. *)
Record supports (P : Capability → Prop) (q : Asked) (d : CapabilityDecision) (row : Capability) : Prop := {
  su_in : P row;
  su_effect : cap_effect row = CapabilityEffect.ALLOW;
  su_constraints : ∃ rs, constraints_of row (as_context q) = Ok rs ∧ all_ok rs = true;
  su_selected : dec_selected_capability_id d = Some (cap_id row);
  su_consume : dec_consume_capability_id d = (if bool_decide (is_Some (cap_uses_remaining row)) then Some (cap_id row) else None);
  su_foremost other : P other → barred q other ∨ takes_before (as_context q) row other;
  su_denied deny : P deny → cap_effect deny = CapabilityEffect.DENY →
    ∃ rs, constraints_of deny (as_context q) = Ok rs ∧ constraint_failure_is_scoped_miss rs = true;
}.

(** Barring a match keeps its place. *)
Lemma seen_order q a a' b b' : seen_as q a a' → seen_as q b b' → match_order a b → match_order a' b'.
Proof. by intros [->|[-> _]] [->|[-> _]]. Qed.

Lemma seen_sorted q l ev : Forall2 (seen_as q) l ev → StronglySorted match_order l → StronglySorted match_order ev.
Proof.
  induction 1 as [|a a' l ev Ha Hev IH]; intros Hs; [constructor|]. apply StronglySorted_inv in Hs as [Hs Hall].
  constructor; [by apply IH|]. rewrite Forall_forall in Hall |- *. intros b' Hb.
  apply list_elem_of_lookup in Hb as [i Hi]. destruct (Forall2_lookup_r _ _ _ _ _ Hev Hi) as (b & Hi0 & Hb).
  eapply seen_order; [exact Ha|exact Hb|]. apply Hall. by eapply list_elem_of_lookup_2.
Qed.

Lemma decision_allowed q l audit s s' d :
  same_tables (as_tables q) s → StronglySorted match_order l →
  _decision_from_matches (as_subject q) (as_resource q) (as_right q) l (as_context q) audit (as_phase q) s = (s', Ok d) →
  dec_allowed d = true →
  ∃ row, supports (.∈ l) q d row.
Proof.
  intros Hsame Hsort E Ha. apply decision_run in E as (ev & d0 & Hev & Ed & (Ea & Es & Ec & _)); [|done].
  rewrite Ea in Ha. destruct (decide_allowed_sound _ _ _ _ _ _ _ _ _ _ _ _ _ Ed Ha) as (_ & _ & Hdeny).
  destruct (decide_foremost _ _ _ _ _ _ match_order _ _ _ _ _ _ _ (seen_sorted _ _ _ Hev Hsort) Ed Ha)
    as (row & rs & Hin & Hrs & (Heff & Hok & _)%verdict_allow & Hsel & Hcon & Hfore).
  apply list_elem_of_lookup in Hin as [i Hi]. destruct (Forall2_lookup_r _ _ _ _ _ Hev Hi) as (row0 & Hi0 & [-> | [Hdis _]]).
  2:{ subst row. by destruct (disqualified_results _ _ _ Hrs) as [Hf _]; rewrite Hok in Hf. }
  exists row0. split; [by eapply list_elem_of_lookup_2|done|by exists rs|by rewrite Es|by rewrite Ec| |].
  - intros other Ho. apply list_elem_of_lookup in Ho as [j Hj].
    destruct (Forall2_lookup_l _ _ _ _ _ Hev Hj) as (other' & Hj' & [-> | [_ Hb]]); [right|by left].
    apply Hfore. by eapply list_elem_of_lookup_2.
  - intros deny Hd Hde. apply list_elem_of_lookup in Hd as [j Hj].
    destruct (Forall2_lookup_l _ _ _ _ _ Hev Hj) as (deny' & Hj' & [-> | [-> _]]); apply list_elem_of_lookup_2 in Hj';
      destruct (Hdeny _ Hj') as (rs' & Hrs' & Hm); [done|by exists rs'|done|].
    by destruct (disqualified_results _ _ _ Hrs') as [_ Hf]; rewrite Hm in Hf.
Qed.

Lemma phase_allowed c subject resource right_ context audit phase s s' d :
  caps_ok s → _authorize_for_semantic_phase c subject resource right_ context audit phase s = (s', Ok d) →
  dec_allowed d = true →
  ∃ row, supports (entitles c s subject resource right_)
    {| as_tables := s; as_subject := subject; as_resource := resource; as_right := right_;
       as_context := context; as_phase := phase |} d row.
Proof.
  intros Hok E Ha. unfold _authorize_for_semantic_phase in E. apply M_bind_Ok in E as (l & s1 & El & E).
  apply viewing_Ok in El as [-> El]. set (q := {| as_tables := s |}).
  assert (StronglySorted match_order l) as Hsort.
  { unfold _matching_capabilities in El. apply bind_Ok in El as (? & _ & El). apply bind_Ok in El as (? & _ & El).
    apply bind_Ok in El as (ms & _ & [= <-]). apply sort_matching_sorted. }
  destruct (decision_allowed q l audit s s' d) as (row & Hs); [done|done|exact E|done|].
  exists row. destruct Hs as [Hin He Hc Hsel Hcon Hfore Hden]. split; [by eapply matching_spec|done..| |].
  - intros other Ho. apply Hfore. by eapply matching_spec.
  - intros deny Hd. apply Hden. by eapply matching_spec.
Qed.
End Decisions.
