(* ===== verification/CapabilityProperties.v ===== *)
(** * Properties of the capability services

    Revocation is final, finite uses stay within their grant, delegation
    attenuates, an allowing decision has a live lineage, and a claim or a
    derivation happens once and whole or not at all. *)

From S2P Require Import Prelude FiniteSums PyStr PyVal PyEnum ProcessState ProcessModel ProcessStore ProcessWrites ResourceAuthority CapabilityModel AuthorityRules CapabilityEvaluator EvaluatorProperties JsonColumn CapabilityTables CapabilityLease CapabilitySpec JsonEquality CapabilityManager CapabilityEvolution CapabilityOperations CapabilityServices CapabilityDelegation CapabilityHistory CapabilityDecisions.
From stdpp Require Import sorting.
From Stdlib Require Import Ascii.

(** [datetime.isoformat] and [datetime.fromisoformat] on the times that are read:
    a time that is written reads back, and the texts are in the order of the
    times. *)
Class TimeLaws `{CapabilityHost} : Prop := {
  time_round x t : expires_at_datetime parse_time x = Ok t → expires_at_datetime parse_time (format_time t) = Ok t;
  time_order x y a b : expires_at_datetime parse_time x = Ok a → expires_at_datetime parse_time y = Ok b →
    str_ltb (format_time a) (format_time b) = (a <? b)%Z;
}.

Section Properties.
Context `{CapabilityHost} `{ExecEvidence}.

(** ** Revocation *)

(** The body of a transaction that returned, and what ran around it. *)
Lemma transaction_body {A} reauthorize c ds actor operation (body : list CapabilityDecision → M CStore A) s s' a :
  (∀ d, quiet (reauthorize d)) → caps_ok s →
  authority_transaction reauthorize c ds actor operation body s = (s', Ok a) →
  ∃ l s1 s2, caps_ok s1 ∧ evolves s s1 ∧ body l s1 = (s2, Ok a) ∧ advance s2 s'.
Proof.
  intros Hq Hok E. unfold authority_transaction in E. rewrite authority_unit_Ok in E.
  apply M_bind_Ok in E as ([] & s1 & E1 & E). apply viewing_Ok in E1 as [-> _].
  apply M_bind_Ok in E as (l & s1 & E1 & E). destruct (quiet_obeys _ (quiet_reauthorize_all reauthorize Hq _) _ _ _ E1 Hok) as [Hok1 Hev1].
  apply M_bind_Ok in E as (held & s2 & E2 & E). destruct (obeys_reserve_all _ _ _ _ _ _ _ _ E2 Hok1) as [Hok2 Hev2].
  apply M_bind_Ok in E as (b & s3 & E3 & E). exists l, s2, s3. split; [done|]. split; [by eapply evolves_trans|].
  apply M_bind_Ok in E as ([] & s4 & E4 & E). apply viewing_Ok in E4 as [-> _].
  apply M_bind_Ok in E as ([] & s4 & E4 & E). apply obeys_commit_all in E4.
  apply M_bind_Ok in E as ([] & s5 & E5 & E). apply viewing_Ok in E5 as [-> _]. by injection E as <- <-.
Qed.

Lemma revoke_dead c id by_ require_authority s s' cap :
  caps_ok s → revoke c id by_ require_authority s = (s', Ok cap) → caps_ok s' ∧ dead s' id.
Proof.
  intros Hok E. split; [by apply obeys_revoke in E; apply E|].
  unfold revoke in E. apply M_bind_Ok in E as (row & s1 & Er & E). apply require_revocable_run in Er as (-> & _); [|done].
  apply M_bind_Ok in E as (a & s1 & Ea & E).
  assert (caps_ok s1) as Hok1.
  { destruct require_authority; [|by injection Ea as <- <-]. apply quiet_obeys in Ea; [by apply Ea|apply quiet_require_revoke_authority]. }
  destruct a as [d|].
  - apply transaction_body in E as (l & s2 & s3 & Hok2 & _ & Eb & Hadv); [|intros d'; apply quiet_reauthorize|done].
    apply revoke_row_run in Eb as (Hok3 & _ & Hd & _); [|done]. destruct (Hadv Hok3) as [_ Hev]. by apply (ev_dead _ _ Hev).
  - by apply revoke_row_run in E as (_ & _ & ? & _).
Qed.

(** An allowing decision never rests on a retired capability or on one
    delegated from it. *)
Lemma allowed_avoids_dead c subject resource right_ ctx audit s s' d id x :
  caps_ok s → dead s id → authorize c subject resource right_ ctx audit s = (s', Ok d) →
  dec_allowed d = true → dec_selected_capability_id d = Some x → ¬ descends s id x.
Proof.
  intros Hok (drow & Hdr & Hret & _) E Ha Hsel Hdesc.
  destruct (phase_allowed _ _ _ _ _ _ _ _ _ _ Hok E Ha) as (row & Hs).
  rewrite (su_selected _ _ _ _ Hs) in Hsel. injection Hsel as <-. pose proof (su_in _ _ _ _ Hs) as Hin.
  assert (live c drow = true) as Hlive.
  { eapply (ancestors_descend c s id (cap_id row)); [|done..]. econstructor; apply Hin. }
  unfold live, active in Hlive. apply andb_true_iff in Hlive as [Hact%bool_decide_eq_true _].
  destruct Hret; congruence.
Qed.

(** (C3) Revocation is final.  Once [revoke] returned for a capability, then
    after any history of the capability services, at any clock, no decision
    that allows an access selects that capability or a capability delegated
    from it, however far. *)
Theorem revocation_is_final c id by_ require_authority s s1 cap s2 c' subject resource right_ ctx audit s3 d x :
  caps_ok s → revoke c id by_ require_authority s = (s1, Ok cap) → authority_history s1 s2 →
  authorize c' subject resource right_ ctx audit s2 = (s3, Ok d) → dec_allowed d = true →
  dec_selected_capability_id d = Some x → ¬ descends s2 id x.
Proof.
  intros Hok E Hh. apply revoke_dead in E as [Hok1 Hd]; [|done].
  destruct (history_advance _ _ Hh Hok1) as [Hok2 Hev]. apply allowed_avoids_dead; [done|]. by apply (ev_dead _ _ Hev).
Qed.

(** ** Finite uses *)

(** (C4) A finite capability is never overdrawn.  Along any history of the
    services, what is left of its uses and what reservations have taken from it
    without giving back never exceed what they were at the start, whatever is
    consumed, reserved, committed, restored, invalidated or abandoned, and what
    is left is never negative. *)
Theorem finite_use_budget s s' id row n :
  caps_ok s → authority_history s s' → cap_rows s !! id = Some row → cap_uses_remaining row = Some n →
  ∃ row' n', cap_rows s' !! id = Some row' ∧ same_grant row row' ∧ cap_uses_remaining row' = Some n'
    ∧ (0 <= n')%Z ∧ (n' + spent s' id <= n + spent s id)%Z.
Proof.
  intros Hok Hh Hr Hn. destruct (history_advance _ _ Hh Hok) as [Hok' Hev].
  destruct (ev_rows _ _ Hev id row Hr) as (row' & Hr' & Hs & Hu). destruct (Hu n Hn) as (n' & Hn' & Hle).
  exists row', n'. split_and!; try done. destruct (caps_row_ok s' id row' Hok' Hr') as (_ & Hst & _).
  apply stored_valid in Hst. rewrite Hn' in Hst. apply Hst.
Qed.

(** ** Delegation *)

Lemma subset_of_spec a b : subset_of a b = true ↔ ∀ x, x ∈ a → x ∈ b.
Proof.
  unfold subset_of. rewrite forallb_forall. split.
  - intros Hf x Hx. apply list_elem_of_In, Hf in Hx. by apply bool_decide_eq_true in Hx.
  - intros Hf x Hx. apply bool_decide_eq_true, Hf. by apply list_elem_of_In.
Qed.

Definition lineage_ok (s : CStore) : Prop := ∀ id row, cap_rows s !! id = Some row → parented s row.

Lemma lineage_advance s s' : lineage_ok s → evolves s s' → lineage_ok s'.
Proof.
  intros Hl Hev id row' Hr'. destruct (cap_rows s !! id) as [row|] eqn:Hr; [|by eapply (ev_born _ _ Hev)].
  destruct (ev_rows _ _ Hev id row Hr) as (row2 & Hr2 & Hs & _). rewrite Hr' in Hr2. injection Hr2 as <-.
  eapply parented_evolves; [done..|]. by eapply Hl.
Qed.

(** A row expires no later than the one it is attenuated from. *)
Lemma expires_with_parent `{!TimeLaws} P C now :
  (∀ e, cap_expires_at P = Some e → dated_text e) → attenuates P C →
  is_expired parse_time P now = true → is_expired parse_time C now = true.
Proof.
  unfold is_expired. intros Hd Hat. destruct (cap_expires_at P) as [p|] eqn:Ep; [|done].
  destruct (Hd p eq_refl) as (x & tp & Hx & ->). rewrite (time_round _ _ Hx). intros Hnow%Z.leb_le.
  destruct (at_expiry _ _ Hat _ Ep) as (e & Hor & Hle & Hn). cbn in Hn. apply bind_Ok in Hn as (te & He & [= <-]).
  rewrite (time_round _ _ He). apply Z.leb_le. enough (te <= tp)%Z by lia.
  destruct Hor as [->|(y & te' & Hy & ->)].
  - rewrite (time_round _ _ Hx) in He. injection He as <-. lia.
  - rewrite (time_round _ _ Hy) in He. injection He as <-. rewrite (time_order _ _ _ _ Hx Hy) in Hle.
    by apply Z.ltb_ge in Hle.
Qed.

Lemma descendant_narrower `{!TimeLaws} s root x rrow row :
  lineage_ok s → descends s root x → cap_rows s !! root = Some rrow → cap_rows s !! x = Some row →
  subset_of (cap_rights row) (cap_rights rrow) = true ∧ (cap_delegation_depth rrow <= cap_delegation_depth row)%Z
  ∧ ∀ now, is_expired parse_time rrow now = true → is_expired parse_time row now = true.
Proof.
  intros Hl Hd Hroot. revert row. induction Hd as [|x xrow p Hx Hp _ IH]; intros row Hr.
  - rewrite Hroot in Hr. injection Hr as <-. split; [by apply subset_of_spec|]. split; [lia|done].
  - rewrite Hx in Hr. injection Hr as <-. destruct (proj2 (Hl x xrow Hx) p Hp) as (prow & Hprow & Hat).
    destruct (IH prow Hprow) as (Hsub & Hdep & Hexp). split; [|split].
    + pose proof (at_rights _ _ Hat) as Hs. rewrite subset_of_spec in *. eauto.
    + rewrite (at_depth _ _ Hat). lia.
    + intros now He. eapply expires_with_parent; [apply (Hl p prow Hprow)|done|by apply Hexp].
Qed.

(** (C5) Delegation only attenuates.  Along any history that starts with
    attenuated rows, every row with a parent keeps its parent's row, which
    allows without a use limit, and its rights are among the parent's, its
    constraints keep every one of the parent's (a [git_allowed_refs] list at
    most as wide) and add no rule or shell policy, it is one level deeper, and
    it is delegable only where the parent is and below its depth limit.  Its
    resource is one the parent's grant matches, so that the parent matches every
    concrete resource it matches - except in the two shapes of [amplifies],
    where the code lets a delegation widen.  No descendant, however far, has a
    right its ancestor lacks, is less deep, or is unexpired when its ancestor has
    expired. *)
Theorem delegation_attenuates `{!TimeLaws} s s' :
  caps_ok s → lineage_ok s → authority_history s s' →
  (∀ id row p, cap_rows s' !! id = Some row → cap_parent_cap_id row = Some p →
     ∃ prow, cap_rows s' !! p = Some prow ∧ attenuates prow row
       ∧ (amplifies (cap_resource prow) (cap_resource row) = false →
          ∀ r, contains_char "*"%char (canonical r) = false →
            matches (cap_resource row) r = true → matches (cap_resource prow) r = true))
  ∧ (∀ root x rrow row, descends s' root x → cap_rows s' !! root = Some rrow → cap_rows s' !! x = Some row →
       subset_of (cap_rights row) (cap_rights rrow) = true
       ∧ (cap_delegation_depth rrow <= cap_delegation_depth row)%Z
       ∧ ∀ now, is_expired parse_time rrow now = true → is_expired parse_time row now = true).
Proof.
  intros Hok Hl Hh. destruct (history_advance _ _ Hh Hok) as [_ Hev]. pose proof (lineage_advance _ _ Hl Hev) as Hl'.
  split.
  - intros id row p Hr Hp. destruct (proj2 (Hl' id row Hr) p Hp) as (prow & Hprow & Hat). exists prow.
    split; [done|]. split; [done|]. intros Hamp r Hr'. apply matches_sound; [apply (at_resource _ _ Hat)|done..].
  - intros root x rrow row. by apply descendant_narrower.
Qed.

(** The walk up the parents of a stored capability ends within its fuel,
    without an error, even where the rows contain a cycle, and answers whether
    every ancestor exists, is active and has not expired. *)
Theorem parent_chain_decides c cap s :
  caps_ok s → cap_rows s !! cap_id cap = Some cap →
  ∃ b, _parent_chain_active c cap s = Ok b ∧ (b = true ↔ ancestors_live c s (cap_parent_cap_id cap)).
Proof. apply chain_active_spec. Qed.

(** ** Decisions *)

Definition asked (s : CStore) (subject resource right_ : string) (context : list (pyval * pyval)) (phase : string) : Asked :=
  {| as_tables := s; as_subject := subject; as_resource := resource; as_right := right_;
     as_context := context; as_phase := phase |}.

(** (C29) Access is allowed only through a live lineage, by the foremost grant.
    A decision of [authorize] that allows selects a stored capability of the
    subject that is active and unexpired with all its ancestors, matches the
    resource, holds the right, allows, and has constraints that all hold; the
    use of a finite capability is charged to it.  Of the matches that are not
    barred by their own persisted constraints or their parents', it is, in the
    order of the matches (longest resource, latest issue, least identifier), the
    first one-shot approval bound to this effect; without one nothing asks, and
    it is the first that allows.  Every matching, live capability that denies
    was left out because the evaluation of its rules reported that none matched
    (which is also what it reports of an ALLOW rule whose regex timed out).  The
    tables are left as they were. *)
Theorem authorize_allowed_sound c subject resource right_ ctx audit s s' d :
  caps_ok s → authorize c subject resource right_ ctx audit s = (s', Ok d) → dec_allowed d = true →
  same_tables s s'
  ∧ ∃ row, supports (entitles c s subject resource right_)
             (asked s subject resource right_ (context_dict ctx) "authorize") d row.
Proof.
  intros Hok E Ha. split; [by apply quiet_authorize in E|]. by eapply phase_allowed.
Qed.

(** ** Claims *)

(** What a rolled back unit leaves. *)
Lemma unit_error {A} (m : M CStore A) s s' e : authority_unit m s = (s', Err e) → same_tables s s'.
Proof. unfold authority_unit. destruct (m s) as [s1 [a|x]]; [done|]. by intros [= <- <-]. Qed.

Lemma reserve_run c id by_ reason n s s' r :
  caps_ok s → reserve c id by_ reason n s = (s', Ok r) →
  ∃ row u, cap_rows s !! id = Some row ∧ has_uses n row = true ∧ use_rows s !! r = None
    ∧ cap_rows s' = <[id := take_uses n row]> (cap_rows s) ∧ use_rows s' = <[r := u]> (use_rows s)
    ∧ use_cap u = id ∧ use_count u = n ∧ use_status u = UseStatus.reserved.
Proof.
  intros Hok E. unfold reserve in E. apply M_bind_Ok in E as (n' & s1 & En & E). apply lift_res_Ok in En as [-> En].
  unfold _positive_count in En. apply bind_Ok in En as (u0 & _ & [= <-]). rewrite authority_unit_Ok in E.
  apply M_bind_Ok in E as ([] & s1 & E1 & E). apply viewing_Ok in E1 as [-> _].
  apply M_bind_Ok in E as (cap & s1 & E1 & E). apply require_capability_run in E1 as (-> & _ & _); [|done].
  destruct (cap_uses_remaining cap); [|done].
  apply M_bind_Ok in E as (r' & s1 & E1 & E). apply viewing_Ok in E1 as [-> _].
  apply M_bind_Ok in E as (found & s1 & Eres & E). apply M_bind_Ok in E as (upd & s2 & E2 & E).
  apply lift_res_Ok in E2 as [-> ->%of_option_Ok].
  assert (same_tables s1 s' ∧ r = r') as [[Ec Eu] ->].
  { apply M_bind_Ok in E as ([] & t1 & A1 & E). apply M_bind_Ok in E as ([] & t2 & A2 & E).
    apply M_bind_Ok in E as ([] & t3 & A3 & E). apply M_bind_Ok in E as ([] & t4 & A4 & E).
    apply M_bind_Ok in E as ([] & t5 & A5 & E). injection E as <- <-. split; [|done].
    apply quiet_attest in A1, A2, A3. apply viewing_Ok in A5 as [-> _].
    assert (same_tables t3 t4) as A4' by (destruct (revoked upd); [by apply quiet_attest in A4|by injection A4 as <-]).
    by eapply same_tables_trans, same_tables_trans, same_tables_trans. }
  unfold reserve_capability_uses in Eres. apply M_bind_Ok in Eres as (m & t & Em & Eres).
  apply lift_res_Ok in Em as [-> [-> _]%positive_count_Ok]. rewrite authority_unit_Ok in Eres.
  apply M_bind_Ok in Eres as (b & t & Eup & Eres).
  destruct (cap_update_run id (has_uses n) (take_uses n) s) as [(row & Hr & Hh & E1)|E1];
    rewrite E1 in Eup; injection Eup as <- <-; cbn [negb] in Eres; [|done].
  apply M_bind_Ok in Eres as (x & t & [= <- <-] & Eres). apply M_bind_Ok in Eres as ([] & t & Ef & Eres).
  apply lift_res_Ok in Ef as [-> Ef%raise_if_Ok]. apply bool_decide_eq_false, eq_None_not_Some in Ef.
  apply M_bind_Ok in Eres as ([] & t & [= <-] & Eres). apply viewing_Ok in Eres as [-> _].
  cbn in Ec, Eu, Ef. exists row. eexists. split_and!; [done..|exact Ec|exact Eu|done|done|done].
Qed.

Lemma commit_run c r by_ s s' :
  commit c (Some r) by_ s = (s', Ok true) →
  ∃ u, use_rows s !! r = Some u ∧ cap_rows s' = cap_rows s
    ∧ use_rows s' = <[r := use_settled UseStatus.committed (call_stamp c) u]> (use_rows s).
Proof.
  unfold commit. rewrite authority_unit_Ok. intros E.
  apply M_bind_Ok in E as ([] & s1 & E1 & E). apply viewing_Ok in E1 as [-> _].
  apply M_bind_Ok in E as (b & s1 & E1 & E). unfold commit_capability_use_reservation in E1. rewrite authority_unit_Ok in E1.
  apply M_bind_Ok in E as ([] & s2 & E2 & E). apply M_bind_Ok in E as ([] & s3 & E3 & E).
  apply M_bind_Ok in E as ([] & s4 & E4 & E). injection E as <- ->.
  apply quiet_attest in E2 as [C2 U2]. apply quiet_attest in E3 as [C3 U3]. apply viewing_Ok in E4 as [-> _].
  destruct (settle_use_run r UseStatus.committed (call_stamp c) s) as [(u & Hr & _ & Es)|Es]; rewrite Es in E1; [|done].
  injection E1 as <-. exists u. rewrite C3, C2, U3, U2. done.
Qed.

(** The tables after a transaction on one decision that itself changes none. *)
Definition spends (c : Call) (s s' : CStore) (consumed : option string) : Prop :=
  match consumed with
  | None => same_tables s s'
  | Some id => ∃ row r u, cap_rows s !! id = Some row ∧ has_uses 1 row = true ∧ use_rows s !! r = None
      ∧ cap_rows s' = <[id := take_uses 1 row]> (cap_rows s) ∧ use_rows s' = <[r := u]> (use_rows s)
      ∧ use_cap u = id ∧ use_count u = 1%Z ∧ use_status u = UseStatus.committed
  end.

Lemma spends_from c s1 s s' o : same_tables s1 s → spends c s s' o → spends c s1 s' o.
Proof. intros [Ec Eu]. unfold spends, same_tables. rewrite Ec, Eu. done. Qed.

Lemma spends_to c s s1 s' o : spends c s s1 o → same_tables s1 s' → spends c s s' o.
Proof.
  unfold spends. destruct o as [id|]; [|apply same_tables_trans]. intros (row & r & u & Hrest) [Ec Eu].
  exists row, r, u. by rewrite Ec, Eu.
Qed.

Lemma single_transaction_run {A} reauthorize c d actor operation (body : list CapabilityDecision → M CStore A) s s' a :
  (∀ d, quiet (reauthorize d)) → (∀ l, quiet (body l)) → caps_ok s →
  authority_transaction reauthorize c [Some d] actor operation body s = (s', Ok a) →
  ∃ d' s1, reauthorize d s = (s1, Ok d') ∧ spends c s s' (dec_consume_capability_id d').
Proof.
  intros Hq Hb Hok E. unfold authority_transaction in E. rewrite authority_unit_Ok in E.
  apply M_bind_Ok in E as ([] & s1 & E1 & E). apply viewing_Ok in E1 as [-> _].
  apply M_bind_Ok in E as (l & s1 & E1 & E). cbn in E1. apply M_bind_Ok in E1 as (d' & s2 & Ed & E1).
  apply M_bind_Ok in E1 as (tl & s3 & E2 & E1). injection E2 as <- <-. injection E1 as <- <-. exists d', s2. split; [done|].
  pose proof (Hq _ _ _ _ Ed) as Hsame. eapply spends_from; [done|].
  assert (caps_ok s2) as Hok2 by (by apply (advance_same s s2)). clear Ed Hsame Hok s.
  apply M_bind_Ok in E as (held & s3 & Eh & E). apply M_bind_Ok in E as (b & s4 & E4 & E). apply Hb in E4.
  apply M_bind_Ok in E as ([] & s5 & E5 & E). apply viewing_Ok in E5 as [-> _].
  apply M_bind_Ok in E as ([] & s5 & Ec & E). apply M_bind_Ok in E as ([] & s6 & E6 & E).
  apply viewing_Ok in E6 as [-> _]. injection E as <- <-. cbn in Eh. unfold spends.
  destruct (dec_consume_capability_id d') as [id|] eqn:Ecs; [|by injection Eh as <- <-; injection Ec as <-].
  rewrite bool_decide_eq_false_2 in Eh by apply not_elem_of_nil.
  apply M_bind_Ok in Eh as (o & s6 & Er & Eh). apply M_bind_Ok in Eh as (r & s7 & Eo & Eh).
  apply lift_res_Ok in Eo as [-> ->%of_option_Ok]. injection Eh as <- <-. cbn in Er.
  apply M_bind_Ok in Er as (r' & s7 & Er & Er'). injection Er' as <- ->.
  apply reserve_run in Er as (row & u & Hr & Hh & Hf & Er1 & Er2 & Hid & Hc & Hst); [|done].
  destruct E4 as [B1 B2]. cbn in Ec. apply M_bind_Ok in Ec as (b' & s8 & Ecm & Ec).
  apply M_bind_Ok in Ec as ([] & s9 & Eb' & Ec). apply lift_res_Ok in Eb' as [-> Eb'%raise_if_Ok%negb_false_iff].
  subst b'. injection Ec as <-. apply commit_run in Ecm as (u' & Hu' & Ec1 & Ec2).
  rewrite B2, Er2, lookup_insert_eq in Hu'. injection Hu' as <-.
  exists row, r, (use_settled UseStatus.committed (call_stamp c) u). split; [done|]. split; [done|]. split; [done|].
  rewrite Ec1, B1, Er1, Ec2, B2, Er2, insert_insert_eq. done.
Qed.

(** (C6) A claim spends one use, once, or nothing.  When [claim_decision_use]
    returns, the decision was made again on the current tables and allows, and
    the capability that decision selects and charges - the foremost live one
    entitled to the request, past no DENY whose rules matched - is the one that
    pays: if it is finite, exactly one of its uses is taken, the last one
    revoking it, and exactly one fresh reservation is committed for it; nothing
    else changes.  When it raises, the tables are as before. *)
Theorem claim_spends_once c d by_ reason s s' r :
  caps_ok s → claim_decision_use c d by_ reason s = (s', r) →
  match r with
  | Err _ => same_tables s s'
  | Ok _ => ∃ d' s1 row, reauthorize_decision c d false s = (s1, Ok d') ∧ dec_allowed d' = true
      ∧ supports (entitles c s (dec_subject d) (dec_resource d) (dec_right d))
          (asked s (dec_subject d) (dec_resource d) (dec_right d) (dec_context d) "prepare") d' row
      ∧ match cap_uses_remaining row with
        | None => same_tables s s'
        | Some n => (1 <= n)%Z
            ∧ cap_rows s' = <[cap_id row := with_state (Some (n - 1)%Z)
                 (if (n =? 1)%Z then CapabilityStatus.REVOKED else CapabilityStatus.ACTIVE) (cap_metadata row) row]> (cap_rows s)
            ∧ ∃ id u, use_rows s !! id = None ∧ use_rows s' = <[id := u]> (use_rows s)
                ∧ use_cap u = cap_id row ∧ use_count u = 1%Z ∧ use_status u = UseStatus.committed
        end
  end.
Proof.
  intros Hok E. unfold claim_decision_use in E. destruct r as [a|e].
  - apply M_bind_Ok in E as (u0 & s1 & E1 & E). apply lift_res_Ok in E1 as [-> _].
    apply single_transaction_run in E as (d' & s1 & Ed & Hsp); [|intros; apply quiet_reauthorize|intros; apply quiet_ret|done].
    pose proof Ed as Er. unfold reauthorize_decision in Ed. apply M_bind_Ok in Ed as (cur & s2 & Ep & Ed).
    apply M_bind_Ok in Ed as ([] & s3 & Ea & Ed). apply lift_res_Ok in Ea as [-> Ea%raise_if_Ok%negb_false_iff].
    injection Ed as <- <-. destruct (phase_allowed _ _ _ _ _ _ _ _ _ _ Hok Ep Ea) as (row & Hs).
    exists cur, s2, row. split; [done|]. split; [done|]. split; [exact Hs|]. rewrite (su_consume _ _ _ _ Hs) in Hsp.
    destruct (cap_uses_remaining row) as [n|] eqn:Hn; [|exact Hsp]. cbn in Hsp.
    destruct Hsp as (row' & rid & u & Hr & Hh & Hf & E1 & E2 & Hrest).
    pose proof (su_in _ _ _ _ Hs) as Hin. rewrite (en_row _ _ _ _ _ _ Hin) in Hr. injection Hr as <-.
    pose proof Hh as (Hact & m & Hm & Hle)%has_uses_spec. rewrite Hn in Hm. injection Hm as <-.
    split; [done|]. split; [|by exists rid, u]. rewrite E1, (take_uses_spec _ _ _ Hn), Hact. f_equal. f_equal.
    destruct (Z.leb_spec (n - 1) 0), (Z.eqb_spec n 1); try done; lia.
  - unfold mbind, M_bind, lift_res in E. destruct (raise_if _ _); [|by injection E as <- <-].
    by apply unit_error in E.
Qed.

(** ** Derivation *)

(** A new row of [target], for one spec, under a delegable row of [source]. *)
Definition derived_row (s s' : CStore) (source target : string) (sel : CapabilitySpec) (cap : Capability) : Prop :=
  cap_rows s !! cap_id cap = None
  ∧ ∃ P row, cap_rows s' !! cap_id cap = Some row ∧ grants_spec target P sel row
    ∧ cap_rows s' !! cap_id P = Some P ∧ cap_subject P = source ∧ cap_delegable P = true ∧ attenuates P row.

Lemma derived_row_mono s0 s s' s'' source target sel cap :
  cap_rows s0 ⊆ cap_rows s → cap_rows s' ⊆ cap_rows s'' →
  derived_row s s' source target sel cap → derived_row s0 s'' source target sel cap.
Proof.
  intros Hlow Hsub (Hn & P & row & Hr & Hg & HP & Hrest). split; [by eapply lookup_weaken_None|]. exists P, row.
  apply (lookup_weaken _ (cap_rows s'')) in Hr, HP; [|done..]. done.
Qed.

(** The rows of [caps] are the only new ones. *)
Definition adds_rows (s s' : CStore) (caps : list Capability) : Prop :=
  cap_rows s ⊆ cap_rows s' ∧ dom (cap_rows s') = dom (cap_rows s) ∪ list_to_set (map cap_id caps)
  ∧ NoDup (map cap_id caps) ∧ use_rows s' = use_rows s.

Lemma delegate_each_run c source target actor specs s s' caps :
  caps_ok s → Forall dated_spec specs → delegate_each c source target actor specs s = (s', Ok caps) →
  adds_rows s s' caps ∧ Forall2 (derived_row s s' source target) specs caps.
Proof.
  intros Hok Hds. revert s s' caps Hok.
  induction Hds as [|sel specs Hsel _ IH]; intros s s' caps Hok E; cbn in E.
  { injection E as <- <-. split; [|constructor]. split_and!; [done|cbn; set_solver|constructor|done]. }
  apply M_bind_Ok in E as (cap & s1 & E1 & E). apply M_bind_Ok in E as (rest & s2 & E2 & E). injection E as <- <-.
  destruct (delegate_selected_run _ _ _ _ _ _ _ _ Hok Hsel E1) as (Hok1 & _ & [Hg Hu]).
  destruct Hg as (P & row & HP & Hsub & _ & _ & Hdel & _ & Hf & Hrows & Hgs & Hat).
  destruct (IH _ _ _ Hok1 E2) as ((Hmono & Hdom & Hnd & Hu2) & Hall).
  assert (cap_rows s ⊆ cap_rows s1) as Hm1 by (rewrite Hrows; by apply insert_subseteq).
  assert (cap_rows s1 !! cap_id cap = Some row) as Hrow by (by rewrite Hrows, lookup_insert_eq).
  split.
  - split_and!; [by etransitivity| | |congruence].
    + rewrite Hdom, Hrows, dom_insert_L. cbn. set_solver.
    + cbn. apply list.NoDup_cons. split; [|done]. intros Hin. apply list_elem_of_fmap in Hin as (c2 & Hc2 & Hin).
      apply list_elem_of_lookup in Hin as [i Hi].
      destruct (Forall2_lookup_r _ _ _ _ _ Hall Hi) as (sel2 & _ & Hn & _). congruence.
  - constructor.
    + split; [done|]. exists P, row. split_and!; try done; [by eapply lookup_weaken|].
      eapply lookup_weaken; [|exact Hmono]. by eapply lookup_weaken.
    + eapply Forall2_impl; [exact Hall|]. intros sel2 c2. by apply derived_row_mono.
Qed.

Lemma check_transition_run c source ceiling specs s s' u :
  check_transition c source ceiling specs s = (s', Ok u) →
  s' = s ∧ Forall (fun sel => ceiling = [] ∨ any_covers ceiling sel = Ok true) specs.
Proof.
  induction specs as [|sel specs IH]; cbn; intros E; [by injection E as <- <-|].
  apply M_bind_Ok in E as (b & s1 & E1 & E). apply M_bind_Ok in E as ([] & s2 & E2 & E).
  apply lift_res_Ok in E2 as [-> E2%raise_if_Ok%negb_false_iff]. apply M_bind_Ok in E as (P & s2 & E3 & E).
  apply viewing_Ok in E3 as [-> _]. subst b.
  assert (s1 = s ∧ (ceiling = [] ∨ any_covers ceiling sel = Ok true)) as [-> Hc].
  { case_bool_decide as Hc; [injection E1 as <-; by split; [|left]|]. apply lift_res_Ok in E1 as [-> E1]. by split; [|right]. }
  destruct (IH E) as [-> Hall]. split; [done|by constructor].
Qed.

(** (C30) A derivation of authority is whole or nothing, and grants what was
    asked for.  When [derive_authority] returns, every requested spec is covered
    by the ceiling, when there is one, and has one capability of the target, in
    the order of the request: under an identifier that was free, with exactly
    the rights, the resource, the effect, the constraints, the uses and the
    expiry of that spec, and attenuated from a delegable capability of the
    source.  These rows are distinct and the only new ones; no other row and no
    reservation is touched.  When it raises, at whichever spec, the tables are as
    before. *)
Theorem derive_authority_atomic c source target requested kind ceiling actor s s' r :
  caps_ok s → derive_authority c source target requested kind ceiling actor s = (s', r) →
  match r with
  | Err _ => same_tables s s'
  | Ok caps => ∃ specs, mapR _coerce_spec requested = Ok specs
      ∧ Forall (fun sel => ceiling = [] ∨ any_covers ceiling sel = Ok true) specs
      ∧ Forall2 (derived_row s s' source target) specs caps
      ∧ adds_rows s s' caps
  end.
Proof.
  intros Hok E. unfold derive_authority in E. destruct r as [caps|e].
  - apply M_bind_Ok in E as (specs & s1 & Es & E). apply lift_res_Ok in Es as [-> Es]. rewrite authority_unit_Ok in E.
    apply M_bind_Ok in E as ([] & s1 & E1 & E). apply check_transition_run in E1 as [-> Hc].
    apply M_bind_Ok in E as (d & s1 & E1 & E). apply M_bind_Ok in E as ([] & s2 & E2 & E). injection E as <- <-.
    apply delegate_each_run in E1 as (Ha & Hall); [|done|by eapply coerced_specs_dated].
    apply quiet_attest in E2 as [Ec Eu]. exists specs. split; [done|]. split; [done|]. unfold adds_rows. rewrite Ec, Eu.
    split; [|done]. eapply Forall2_impl; [exact Hall|]. intros sel cap. apply derived_row_mono; [done|by rewrite Ec].
  - unfold mbind, M_bind, lift_res in E. destruct (mapR _coerce_spec requested); [|by injection E as <- <-].
    by apply unit_error in E.
Qed.
End Properties.
