(* ===== verification/CapabilitySamples.v ===== *)
(** * Concrete capability tables

    A host, and the tables the theorems on the capability services are
    instantiated on. *)

From S2P Require Import Prelude FiniteSums PyStr PyVal PyEnum ProcessState ProcessModel ProcessStore ProcessWrites ProcessInvariant ResourceAuthority CapabilityModel AuthorityRules CapabilityEvaluator EvaluatorProperties JsonColumn CapabilityTables CapabilityLease CapabilitySpec JsonEquality CapabilityManager CapabilityEvolution CapabilityOperations CapabilityServices CapabilityRollback CapabilityDelegation CapabilityHistory CapabilityDecisions CapabilityProperties.
From stdpp Require Import sorting pretty.

(** ** The host *)

(** A time is written as that many ticks. *)
Fixpoint ticks (n : nat) : string := match n with 0 => "" | S n => "i" +:+ ticks n end.

Definition sample_host : CapabilityHost := {|
  max_rights_per_capability := 8;
  max_constraints_bytes := 4096;
  default_delegation_depth := 3;
  list_limit := 100;
  use_recovery_page_size := 2;
  shell_policy_key := "shell_policy_level";
  shell_policy_levels := ["read_only"];
  default_human_actor := "human";
  str_other _ := "";
  float_of_str _ := None;
  regex_config := {| regex_pattern_max_bytes := 100; regex_token_max_bytes := 100 |};
  regex_engine := Samples.literal true;
  semantic_binding := Ok;
  payload_digest _ := Ok "";
  binding_digest _ := "";
  parse_time t := Some (Z.of_nat (String.length t));
  format_time z := ticks (Z.to_nat z);
  json_size d := Some (length d);
  new_id prefix s := prefix +:+ pretty (length (trail s));
  revalidate _ := Ok tt;
  semantic_validator := None;
  trip_observed := false;
|}.

#[export] Existing Instance sample_host.
#[export] Existing Instance no_evidence.

Lemma strip_ticks n : strip (ticks n) = ticks n.
Proof.
  assert (∀ n, rstrip_by is_space (ticks n) = ticks n) as Hr by (induction n0 as [|m IH]; cbn; [done|rewrite IH; by destruct (ticks m)]).
  unfold strip. destruct n as [|n]; [done|]. exact (Hr (S n)).
Qed.

Lemma ticks_length n : String.length (ticks n) = n.
Proof. induction n; cbn; congruence. Qed.

Lemma ticks_order m n : str_ltb (ticks m) (ticks n) = (m <? n).
Proof. revert n. induction m as [|m IH]; intros [|n]; try done. change (S m <? S n) with (m <? n). by rewrite <-IH. Qed.

Lemma ticks_read x t : expires_at_datetime parse_time x = Ok t → ∃ n, t = Z.of_nat (S n).
Proof.
  unfold expires_at_datetime. destruct (strip x) as [|a raw]; [done|]. cbn. intros [= <-]. by exists (String.length raw).
Qed.

#[export] Instance sample_times : TimeLaws.
Proof.
  split.
  - intros x t (n & ->)%ticks_read. unfold expires_at_datetime. cbn [format_time sample_host]. rewrite Nat2Z.id, strip_ticks.
    change (Ok (Z.of_nat (S (String.length (ticks n)))) = Ok (Z.of_nat (S n))). by rewrite ticks_length.
  - intros x y a b (m & ->)%ticks_read (n & ->)%ticks_read. cbn [format_time sample_host]. rewrite !Nat2Z.id, ticks_order.
    destruct (Nat.ltb_spec (S m) (S n)), (Z.ltb_spec (Z.of_nat (S m)) (Z.of_nat (S n))); try done; lia.
Qed.

Definition at_time (now : Z) : Call := {| call_now := now; call_stamp := pretty now; call_ambient := host |}.

Definition bare : CStore := mkCStore empty_store ∅ ∅ false [].

Lemma bare_ok : caps_ok bare.
Proof. split; intros ? ? Hx; done. Qed.

(** ** Runs *)

Definition state_after {A} (m : M CStore A) (s : CStore) : CStore := fst (m s).
Definition returns {A} (m : M CStore A) (s : CStore) : bool := is_Ok (snd (m s)).

Lemma returns_run {A} (m : M CStore A) s : returns m s = true → ∃ a, m s = (state_after m s, Ok a).
Proof. unfold returns, state_after. destruct (m s) as [s' [a|e]]; [by exists a|done]. Qed.

Lemma runs_after {A} (m : M CStore A) s : runs m s (state_after m s).
Proof. unfold runs, state_after. destruct (m s) as [s' r]. by exists r. Qed.

Definition spec_of (resource : string) (rights : list string) (delegable : bool) : SpecRequest :=
  SpecObject (trusted_spec resource rights CapabilityEffect.ALLOW [] [] None None delegable true None).

(** ** Tables *)

(** Two grants of alice, until time 9; a part of the first goes to bob, through her. *)
Definition grant_alice (t : Z) : M CStore Capability :=
  grant (at_time t) "alice" "fs:/srv/*" ["read"; "write"] "human" [] [] (Some "iiiiiiiii") true true.
Definition to_bob : M CStore Capability :=
  delegate (at_time 3) "alice" "bob" (spec_of "fs:/srv/data/*" ["read"] true) None.

Definition granted : CStore := state_after (grant_alice 2) (state_after (grant_alice 1) bare).
Definition delegated_to_bob : CStore := state_after to_bob granted.

Lemma granted_history : authority_history bare granted.
Proof.
  eapply rtc_l; [eapply step_grant, runs_after|]. apply rtc_once. eapply step_grant. apply (runs_after (grant_alice 2)).
Qed.

Lemma delegated_history : authority_history bare delegated_to_bob.
Proof. unfold authority_history. transitivity granted; [apply granted_history|]. apply rtc_once. eapply step_delegate, runs_after. Qed.

Lemma reached_ok s : authority_history bare s → caps_ok s.
Proof. intros Hh. by destruct (history_advance _ _ Hh bare_ok). Qed.

(** Three rows: bob's comes from the later grant. *)
Example three_rows :
  map (fun kv => (fst kv, cap_subject (snd kv), cap_parent_cap_id (snd kv))) (map_to_list (cap_rows delegated_to_bob))
  = [("cap2", "alice", None); ("cap4", "bob", Some "cap2"); ("cap0", "alice", None)].
Proof. by vm_compute. Qed.

(** ** Revocation *)

Definition revoke_second : M CStore Capability := revoke (at_time 4) "cap2" "human" true.
Definition revoked_second : CStore := state_after revoke_second delegated_to_bob.
Definition to_carol : M CStore Capability :=
  delegate (at_time 5) "alice" "carol" (spec_of "fs:/srv/data/*" ["read"] true) None.
Definition later : CStore := state_after to_carol revoked_second.

Definition reading (who : string) : M CStore CapabilityDecision :=
  authorize (at_time 6) who "fs:/srv/data/x" "read" NoContext false.

(** What a run decided. *)
Definition decides (m : M CStore CapabilityDecision) (s : CStore) : option (bool * option string) :=
  match snd (m s) with Ok d => Some (dec_allowed d, dec_selected_capability_id d) | Err _ => None end.

Lemma decides_run m s a x : decides m s = Some (a, x) →
  ∃ d, m s = (state_after m s, Ok d) ∧ dec_allowed d = a ∧ dec_selected_capability_id d = x.
Proof. unfold decides, state_after. destruct (m s) as [s' [d|e]]; [|done]. intros [= <- <-]. by exists d. Qed.

(** Alice still reads through her first grant, and bob no longer does. *)
Lemma revocation_is_final_witness :
  decides (reading "bob") later = Some (false, None)
  ∧ decides (reading "alice") later = Some (true, Some "cap0") ∧ ¬ descends later "cap2" "cap0".
Proof.
  split; [by vm_compute|]. assert (decides (reading "alice") later = Some (true, Some "cap0")) as E by by vm_compute.
  split; [done|]. destruct (decides_run _ _ _ _ E) as (d & Ed & Ha & Hs).
  destruct (returns_run revoke_second delegated_to_bob) as [cap Er]; [by vm_compute|].
  eapply (revocation_is_final (at_time 4) "cap2" "human" true delegated_to_bob _ cap later);
    [apply reached_ok, delegated_history|exact Er| |exact Ed|exact Ha|exact Hs].
  apply rtc_once. eapply step_delegate. apply (runs_after to_carol).
Defined.

(** ** Uses *)

Definition grant_twice : M CStore Capability :=
  issue_trusted (at_time 1) "alice" "fs:/srv/*" ["read"] "human" CapabilityEffect.ALLOW [] [] None (Some 2%Z) false true None.
Definition twice : CStore := state_after grant_twice bare.
Definition read_consuming (t : Z) : M CStore CapabilityDecision :=
  require (at_time t) "alice" "fs:/srv/data/x" "read" NoContext true None "read".
Definition read_once : CStore := state_after (read_consuming 2) twice.

Definition uses_left (id : string) (s : CStore) : option (option Z) := cap_uses_remaining <$> (cap_rows s !! id).

Lemma twice_history : authority_history bare twice.
Proof. apply rtc_once. eapply step_issue_trusted. apply (runs_after grant_twice). Qed.

Lemma finite_use_budget_witness :
  ∃ row row' n', cap_rows twice !! "cap0" = Some row ∧ cap_uses_remaining row = Some 2%Z
    ∧ cap_rows read_once !! "cap0" = Some row' ∧ cap_uses_remaining row' = Some n'
    ∧ (n' + spent read_once "cap0" <= 2 + spent twice "cap0")%Z.
Proof.
  destruct (cap_rows twice !! "cap0") as [row|] eqn:Er; [|by vm_compute in Er].
  assert (option_map cap_uses_remaining (cap_rows twice !! "cap0") = Some (Some 2%Z)) as Hu by by vm_compute.
  rewrite Er in Hu. injection Hu as Hu.
  destruct (finite_use_budget twice read_once "cap0" row 2) as (row' & n' & Hr' & _ & Hn' & _ & Hle); [|..].
  - apply reached_ok, twice_history.
  - apply rtc_once. eapply step_require. apply (runs_after (read_consuming 2)).
  - exact Er.
  - exact Hu.
  - exists row, row', n'. exact (conj eq_refl (conj Hu (conj Hr' (conj Hn' Hle)))).
Defined.

(** Two reads succeed and revoke the grant; the third is refused. *)
Example third_read_refused :
  let s2 := state_after (read_consuming 3) read_once in
  uses_left "cap0" read_once = Some (Some 1%Z) ∧ uses_left "cap0" s2 = Some (Some 0%Z)
  ∧ returns (read_consuming 3) read_once = true ∧ returns (read_consuming 4) s2 = false.
Proof. by vm_compute. Qed.

(** ** Delegation *)

Lemma bare_lineage : lineage_ok bare.
Proof. intros id row Hr. done. Qed.

Definition parent_of (id : string) (s : CStore) : option (option string) := cap_parent_cap_id <$> (cap_rows s !! id).

Lemma delegation_attenuates_witness :
  ∃ row prow, cap_rows delegated_to_bob !! "cap4" = Some row ∧ cap_rows delegated_to_bob !! "cap2" = Some prow
    ∧ attenuates prow row ∧ cap_expires_at row = Some "iiiiiiiii"
    ∧ matches (cap_resource row) "fs:/srv/data/x" = true ∧ matches (cap_resource prow) "fs:/srv/data/x" = true.
Proof.
  destruct (cap_rows delegated_to_bob !! "cap4") as [row|] eqn:Er; [|by vm_compute in Er].
  assert (parent_of "cap4" delegated_to_bob = Some (Some "cap2")) as Hp by by vm_compute.
  unfold parent_of in Hp. rewrite Er in Hp. injection Hp as Hp.
  destruct (delegation_attenuates bare delegated_to_bob bare_ok bare_lineage delegated_history) as [Hall _].
  destruct (Hall "cap4" row "cap2" Er Hp) as (prow & Hprow & Hat & Hres). exists row, prow.
  assert (option_map (fun c => (cap_expires_at c, cap_resource c)) (cap_rows delegated_to_bob !! "cap4")
          = Some (Some "iiiiiiiii", "fs:/srv/data/*")) as He by by vm_compute.
  rewrite Er in He. injection He as He1 He2.
  assert (option_map cap_resource (cap_rows delegated_to_bob !! "cap2") = Some "fs:/srv/*") as Hq by by vm_compute.
  rewrite Hprow in Hq. injection Hq as Hq.
  assert (matches (cap_resource row) "fs:/srv/data/x" = true) as Hm by (rewrite He2; by vm_compute).
  split; [exact eq_refl|]. split; [exact Hprow|]. split; [exact Hat|]. split; [exact He1|]. split; [exact Hm|].
  apply Hres; [rewrite He2, Hq; by vm_compute|by vm_compute|exact Hm].
Defined.

Lemma parent_chain_decides_witness :
  ∃ row, cap_rows delegated_to_bob !! "cap4" = Some row
    ∧ ∃ b, _parent_chain_active (at_time 4) row delegated_to_bob = Ok b.
Proof.
  destruct (cap_rows delegated_to_bob !! "cap4") as [row|] eqn:Er; [|by vm_compute in Er].
  pose proof (reached_ok _ delegated_history) as Hok.
  destruct (caps_row_ok _ _ _ Hok Er) as (Hid & _). rewrite <-Hid in Er.
  destruct (parent_chain_decides (at_time 4) row delegated_to_bob Hok Er) as (b & Eb & _).
  exists row. exact (conj eq_refl (ex_intro _ b Eb)).
Defined.

Lemma authorize_allowed_sound_witness :
  ∃ d row, reading "bob" delegated_to_bob = (state_after (reading "bob") delegated_to_bob, Ok d)
    ∧ dec_selected_capability_id d = Some "cap4"
    ∧ entitles (at_time 6) delegated_to_bob "bob" "fs:/srv/data/x" "read" row.
Proof.
  assert (decides (reading "bob") delegated_to_bob = Some (true, Some "cap4")) as E by by vm_compute.
  destruct (decides_run _ _ _ _ E) as (d & Ed & Ha & Hs).
  destruct (authorize_allowed_sound _ _ _ _ _ _ _ _ _ (reached_ok _ delegated_history) Ed Ha) as (_ & row & Hsup).
  exists d, row. exact (conj Ed (conj Hs (su_in _ _ _ _ Hsup))).
Defined.

(** ** Claims *)

Definition decision_at (s : CStore) (d0 : CapabilityDecision) : CapabilityDecision :=
  match snd (authorize (at_time 2) "alice" "fs:/srv/data/x" "read" NoContext false s) with Ok d => d | Err _ => d0 end.

Definition no_decision : CapabilityDecision :=
  {| dec_subject := ""; dec_resource := ""; dec_right := ""; dec_allowed := false; dec_effect := None; dec_reason := "";
     dec_matched_capability_ids := []; dec_selected_capability_id := None; dec_consume_capability_id := None;
     dec_issuer_chain := []; dec_constraint_results := []; dec_context := [] |}.

Definition claiming : M CStore unit := claim_decision_use (at_time 2) (decision_at twice no_decision) "alice" "read".

(** A decision taken on [twice] is claimed there. *)
Lemma claim_spends_once_witness :
  ∃ d row, dec_selected_capability_id d = Some (cap_id row)
    ∧ entitles (at_time 2) twice "alice" "fs:/srv/data/x" "read" row
    ∧ uses_left "cap0" (state_after claiming twice) = Some (Some 1%Z).
Proof.
  destruct (returns_run claiming twice) as [u Eu]; [by vm_compute|].
  pose proof (claim_spends_once _ _ _ _ _ _ _ (reached_ok _ twice_history) Eu) as (d & s1 & row & _ & _ & Hrow & _).
  exists d, row. split; [apply (su_selected _ _ _ _ Hrow)|]. split; [|by vm_compute]. apply su_in in Hrow.
  assert (dec_subject (decision_at twice no_decision) = "alice") as E1 by by vm_compute.
  assert (dec_resource (decision_at twice no_decision) = "fs:/srv/data/x") as E2 by by vm_compute.
  assert (dec_right (decision_at twice no_decision) = "read") as E3 by by vm_compute.
  rewrite E1, E2, E3 in Hrow. exact Hrow.
Defined.

(** Three grants of unlike width, and of one day: the narrowest comes first. *)
Definition on_resource (r : string) : Capability :=
  {| cap_id := "cap-" +:+ r; cap_subject := "alice"; cap_resource := r; cap_rights := ["read"];
     cap_constraints := []; cap_issued_by := "human"; cap_issued_at := "1"; cap_expires_at := None;
     cap_delegable := false; cap_revocable := true; cap_effect := CapabilityEffect.ALLOW;
     cap_issuer_cap_id := None; cap_parent_cap_id := None; cap_delegation_depth := 0;
     cap_max_delegation_depth := None; cap_uses_remaining := None;
     cap_status := CapabilityStatus.ACTIVE; cap_metadata := [] |}.

Example narrowest_first :
  map cap_resource (sort_matching_capabilities (map on_resource ["f:*"; "fs:/a/b:*"; "fs:/a:*"]))
  = ["fs:/a/b:*"; "fs:/a:*"; "f:*"].
Proof. by vm_compute. Qed.

(** ** Derivation *)

Definition derive_two : M CStore (list Capability) :=
  derive_authority (at_time 3) "alice" "worker" [spec_of "fs:/srv/data/*" ["read"] false; spec_of "fs:/srv/log/*" ["write"] false]
    "fork" [spec_of "fs:/srv/*" ["read"; "write"] false] None.

(** The second spec is outside the ceiling. *)
Definition derive_too_much : M CStore (list Capability) :=
  derive_authority (at_time 3) "alice" "worker" [spec_of "fs:/srv/data/*" ["read"] false; spec_of "fs:/srv/log/*" ["write"] false]
    "fork" [spec_of "fs:/srv/data/*" ["read"; "write"] false] None.

Lemma derive_authority_atomic_witness :
  (∃ specs caps, snd (derive_two granted) = Ok caps
     ∧ Forall2 (derived_row granted (state_after derive_two granted) "alice" "worker") specs caps ∧ length caps = 2)
  ∧ same_tables granted (state_after derive_too_much granted) ∧ returns derive_too_much granted = false.
Proof.
  pose proof (reached_ok _ granted_history) as Hok. split; [|split; [|by vm_compute]].
  - destruct (returns_run derive_two granted) as [caps E]; [by vm_compute|].
    destruct (derive_authority_atomic _ _ _ _ _ _ _ _ _ _ Hok E) as (specs & Hspecs & _ & Hall & _).
    exists specs, caps. split; [by rewrite E|]. split; [exact Hall|]. rewrite <-(Forall2_length _ _ _ Hall).
    by rewrite (mapR_length _ _ _ Hspecs).
  - destruct (derive_too_much granted) as [s' r] eqn:E. assert (is_Ok r = false) as Hr.
    { assert (is_Ok (snd (derive_too_much granted)) = false) as Hx by by vm_compute. by rewrite E in Hx. }
    unfold state_after. rewrite E. pose proof (derive_authority_atomic _ _ _ _ _ _ _ _ _ _ Hok E) as Hd.
    destruct r; [discriminate Hr|exact Hd].
Defined.

(** ** Rollback of an exec *)

Definition staging : M CStore unit := stage_each (at_time 3) " t1 " ["cap0"; "cap2"].

Lemma all_rows_check (f : Capability → bool) s :
  forallb (fun kv => f (snd kv)) (map_to_list (cap_rows s)) = true →
  ∀ id row, cap_rows s !! id = Some row → f row = true.
Proof. intros Hf id row Hr. rewrite forallb_forall in Hf. apply elem_of_map_to_list, list_elem_of_In in Hr. exact (Hf _ Hr). Qed.

Lemma exec_rollback_restores_witness :
  ∃ before s2, list_capabilities (Some "alice") granted = Ok before
    ∧ map cap_status (all_rows (state_after staging granted)) = [CapabilityStatus.EXEC_REVOKED; CapabilityStatus.EXEC_REVOKED]
    ∧ _restore_exec_revoked_capabilities "alice" before (Some "t1") (state_after staging granted) = (s2, Ok tt)
    ∧ cap_rows s2 = cap_rows granted.
Proof.
  pose proof (reached_ok _ granted_history) as Hok.
  destruct (list_capabilities_ok granted (Some "alice") Hok) as (before & Eb & _).
  destruct (returns_run staging granted) as [[] Es]; [by vm_compute|].
  destruct (exec_rollback_restores (at_time 3) "alice" " t1 " ["cap0"; "cap2"] granted (state_after staging granted) before Hok)
    as (s2 & E2 & Ec).
  - intros id row _ Hr. apply String.eqb_eq.
    exact (all_rows_check (fun row => String.eqb (cap_subject row) "alice") granted ltac:(by vm_compute) id row Hr).
  - by vm_compute.
  - intros id row Hr. apply negb_true_iff.
    exact (all_rows_check (fun row => negb (staged_under (strip " t1 ") row)) granted ltac:(by vm_compute) id row Hr).
  - exact Eb.
  - exact Es.
  - exists before, s2. split; [exact Eb|]. split; [by vm_compute|]. exact (conj E2 Ec).
Defined.

(** ** Coverage is not delegation *)

Definition finite_delegable : CStore :=
  state_after (issue_trusted (at_time 1) "alice" "fs:/srv/*" ["read"] "human" CapabilityEffect.ALLOW [] [] None (Some 2%Z)
                 true true None) bare.

Definition two_uses : CapabilitySpec := trusted_spec "fs:/srv/data/*" ["read"] CapabilityEffect.ALLOW [] [] None (Some 2%Z) false true None.

(** [spec_covers] accepts a spec as finite as its finite parent; delegation
    refuses every finite parent. *)
Lemma spec_covers_beyond_delegation :
  match cap_rows finite_delegable !! "cap0" with
  | Some cap =>
      cap_delegable cap = true
      ∧ spec_covers (CoverCapability cap) (SpecObject two_uses) = Ok true
      ∧ _validate_delegation_parent (at_time 2) cap two_uses finite_delegable
        = Err (CapabilityDenied "finite-use capabilities cannot be delegated")
  | None => False
  end.
Proof. by vm_compute. Qed.
