(* ===== verification/StoreSteps.v ===== *)
(** * Operations that respect a preorder of stores

    An operation keeps a preorder when every run of it, returning or raising,
    moves the store up.  The composition rules are stated once, for any store
    and any preorder. *)

From S2P Require Import Prelude.

Section Steps.
Context {S : Type} (R : relation S) `{!PreOrder R}.

Definition keeps {A} (m : M S A) : Prop := ∀ s s' r, m s = (s', r) → R s s'.

Lemma keeps_ret {A} (a : A) : keeps (mret a).
Proof. by intros s s' r [= <- _]. Qed.

Lemma keeps_raise {A} e : keeps (raise e : M S A).
Proof. by intros s s' r [= <- _]. Qed.

Lemma keeps_lift {A} (x : res A) : keeps (lift_res x).
Proof. by intros s s' r [= <- _]. Qed.

Lemma keeps_get : keeps get_state.
Proof. by intros s s' r [= <- _]. Qed.

Lemma keeps_read {A} (f : S → res A) : keeps (fun s => (s, f s)).
Proof. by intros s s' r [= <- _]. Qed.

Lemma keeps_modify f : (∀ s, R s (f s)) → keeps (modify f).
Proof. by intros Hf s s' r [= <- _]. Qed.

Lemma keeps_bind {A B} (m : M S A) (k : A → M S B) : keeps m → (∀ a, keeps (k a)) → keeps (m ≫= k).
Proof.
  intros Hm Hk s s' r. unfold mbind, M_bind. destruct (m s) as [s1 [a|e]] eqn:E1.
  - intros E2. transitivity s1; [by eapply Hm|by eapply Hk].
  - intros [= <- _]. by eapply Hm.
Qed.

(** Only the result of a run is used. *)
Lemma keeps_fst {A} (m : M S A) : (∀ s, R s (fst (m s))) → keeps m.
Proof. intros Hm s s' r E. specialize (Hm s). by rewrite E in Hm. Qed.
End Steps.

(** A stronger relation is kept too. *)
Lemma keeps_weaken {S A} (R Q : relation S) (m : M S A) : (∀ s s', R s s' → Q s s') → keeps R m → keeps Q m.
Proof. intros HRQ Hm s s' r E. by eapply HRQ, Hm. Qed.

(** Running the first command. *)
Lemma lift_ok_bind {S A B} (x : res A) (k : A → M S B) a s : x = Ok a → (lift_res x ≫= k) s = k a s.
Proof. by intros ->. Qed.

Lemma run_bind {S A B} (m : M S A) (k : A → M S B) s s' a : m s = (s', Ok a) → (m ≫= k) s = k a s'.
Proof. intros E. unfold mbind, M_bind. by rewrite E. Qed.

(** A run of [m ≫= k] that raises in [m] or goes on with [k]. *)
Lemma bind_run {S A B} (m : M S A) (k : A → M S B) s s' x : (m ≫= k) s = (s', x) →
  (∃ e, m s = (s', Err e) ∧ x = Err e) ∨ ∃ a s1, m s = (s1, Ok a) ∧ k a s1 = (s', x).
Proof.
  unfold mbind, M_bind. destruct (m s) as [s1 [a|e]]; [right; by exists a, s1|]. intros [= -> <-]. left. by exists e.
Qed.

(** A run evaluated to a value. *)
Lemma run_ok {S A} (m : M S A) s : is_Ok (snd (m s)) = true → ∃ a, m s = (fst (m s), Ok a).
Proof. destruct (m s) as [s' [a|e]]; [by exists a|done]. Qed.

Create HintDb steps.

(** Compose: binds, conditionals and matches down to the operations. *)
Ltac keep_leaf :=
  first [ apply keeps_ret; apply _ | apply keeps_raise; apply _ | apply keeps_lift; apply _
        | apply keeps_get; apply _ | apply keeps_read; apply _ ].
Ltac keep_step :=
  first [ solve [keep_leaf | auto with steps nocore]
        | match goal with
          | |- keeps _ (mbind _ _) => apply keeps_bind; [apply _| |intros ?]
          | |- keeps _ ?m => match m with context [match ?x with _ => _ end] => destruct x end
          end ].
Ltac keep := repeat keep_step.
