(* ===== verification/EffectModel.v ===== *)
(** * External effect records

    [models/external_effect.py]: the record of one effect outside the store,
    its states, the recovery queries and their pages, and the result of a
    settlement, with every validator. *)

From S2P Require Import Prelude PyStr PyVal PyEnum.

(** ** States *)

Definition _EXTERNAL_EFFECT_STATES : list string := ["pending"; "finalized"].

Definition _EXTERNAL_EFFECT_TRANSACTION_STATES : list string :=
  ["prepared"; "authorized"; "approved"; "dispatched"; "committed"; "failed"; "unknown"; "compensated"].

Definition _PAYLOAD_RETENTION_SCHEMA_VERSION : Z := 1.
Definition _PAYLOAD_RETENTION_TIERS : list string := ["full"; "summary"; "hash_only"].

Module RollbackClass.
Inductive ExternalEffectRollbackClass : Set := IRREVERSIBLE | ROLLBACKABLE | NO_ROLLBACK_REQUIRED | UNKNOWN.
End RollbackClass.
Abbreviation ExternalEffectRollbackClass := RollbackClass.ExternalEffectRollbackClass.

#[export] Instance rollback_class_eq_dec : EqDecision ExternalEffectRollbackClass.
Proof. solve_decision. Defined.

#[export] Instance rollback_class_enum : StrEnum ExternalEffectRollbackClass := {
  enum_members := [RollbackClass.IRREVERSIBLE; RollbackClass.ROLLBACKABLE;
                   RollbackClass.NO_ROLLBACK_REQUIRED; RollbackClass.UNKNOWN];
  enum_value c := match c with
    | RollbackClass.IRREVERSIBLE => "irreversible" | RollbackClass.ROLLBACKABLE => "rollbackable"
    | RollbackClass.NO_ROLLBACK_REQUIRED => "no_rollback_required" | RollbackClass.UNKNOWN => "unknown" end;
}.

#[export] Instance rollback_class_laws : StrEnumLaws ExternalEffectRollbackClass.
Proof. solve_enum. Qed.

Module RollbackStatus.
Inductive ExternalEffectRollbackStatus : Set := NOT_SUPPORTED | NOT_APPLIED | NOT_REQUIRED | UNKNOWN.
End RollbackStatus.
Abbreviation ExternalEffectRollbackStatus := RollbackStatus.ExternalEffectRollbackStatus.

#[export] Instance rollback_status_eq_dec : EqDecision ExternalEffectRollbackStatus.
Proof. solve_decision. Defined.

#[export] Instance rollback_status_enum : StrEnum ExternalEffectRollbackStatus := {
  enum_members := [RollbackStatus.NOT_SUPPORTED; RollbackStatus.NOT_APPLIED;
                   RollbackStatus.NOT_REQUIRED; RollbackStatus.UNKNOWN];
  enum_value c := match c with
    | RollbackStatus.NOT_SUPPORTED => "not_supported" | RollbackStatus.NOT_APPLIED => "not_applied"
    | RollbackStatus.NOT_REQUIRED => "not_required" | RollbackStatus.UNKNOWN => "unknown" end;
}.

#[export] Instance rollback_status_laws : StrEnumLaws ExternalEffectRollbackStatus.
Proof. solve_enum. Qed.

Definition default_external_effect_rollback_status (c : ExternalEffectRollbackClass)
    : ExternalEffectRollbackStatus :=
  match c with
  | RollbackClass.IRREVERSIBLE => RollbackStatus.NOT_SUPPORTED
  | RollbackClass.ROLLBACKABLE => RollbackStatus.NOT_APPLIED
  | RollbackClass.NO_ROLLBACK_REQUIRED => RollbackStatus.NOT_REQUIRED
  | RollbackClass.UNKNOWN => RollbackStatus.UNKNOWN
  end.

(** ** Records *)

Record ExternalEffectClassification : Type := {
  cl_class : ExternalEffectRollbackClass;
  cl_status : ExternalEffectRollbackStatus;
  cl_mutation : bool;
  cl_flow : bool;
  cl_metadata : Payload;
}.

Record ExternalEffectRecord : Type := {
  eff_id : string;
  eff_record : option string;
  eff_event : option string;
  eff_pid : string;
  eff_provider : string;
  eff_operation : string;
  eff_target : option string;
  eff_class : ExternalEffectRollbackClass;
  eff_rollback : ExternalEffectRollbackStatus;
  eff_mutation : bool;
  eff_flow : bool;
  eff_metadata : Payload;
  eff_created_at : string;
  eff_state : string;
  eff_tx : string;
  eff_args_hash : option string;
  eff_key : option string;
  eff_receipt : Payload;
  eff_updated_at : option string;
  eff_retention_version : Z;
  eff_tier : string;
  eff_retention_sha256 : option string;
}.

(** [_valid_sha256]. *)
Definition _valid_sha256 (value : option string) : bool :=
  match value with Some s => is_sha256_hex s | None => false end.

(** [__post_init__]. *)
Definition effect_validate (r : ExternalEffectRecord) : res unit :=
  _ ← raise_if (negb (bool_decide (eff_state r ∈ _EXTERNAL_EFFECT_STATES)))
        (ValueError "invalid external effect state");
  _ ← raise_if (negb (bool_decide (eff_tx r ∈ _EXTERNAL_EFFECT_TRANSACTION_STATES)))
        (ValueError "invalid external effect transaction state");
  _ ← raise_if (negb (eff_retention_version r =? _PAYLOAD_RETENTION_SCHEMA_VERSION)%Z)
        (ValueError "invalid external effect payload-retention schema version");
  _ ← raise_if (negb (bool_decide (eff_tier r ∈ _PAYLOAD_RETENTION_TIERS)))
        (ValueError "invalid external effect payload-retention tier");
  if String.eqb (eff_tier r) "full"
  then raise_if (bool_decide (is_Some (eff_retention_sha256 r)))
         (ValueError "full external effect payload cannot have a retention digest")
  else raise_if (negb (_valid_sha256 (eff_retention_sha256 r)))
         (ValueError "retained external effect payload requires a SHA-256 digest").

(** [evidence/payload_retention.py]: [external_effect_payload_retention_tier(r)
    is PayloadRetentionTier.FULL]. *)
Definition retention_is_full (r : ExternalEffectRecord) : res bool :=
  _ ← raise_if (negb (eff_retention_version r =? _PAYLOAD_RETENTION_SCHEMA_VERSION)%Z)
        (ValueError "external effect payload retention schema is unsupported");
  _ ← raise_if (negb (bool_decide (eff_tier r ∈ _PAYLOAD_RETENTION_TIERS)))
        (ValueError "external effect payload retention tier is invalid");
  Ok (String.eqb (eff_tier r) "full").

(** ** Cursors, queries and pages *)

Record ExternalEffectCursor : Set := { ecur_created_at : string; ecur_effect_id : string }.

Definition mk_effect_cursor (created effect : string) : res ExternalEffectCursor :=
  _ ← raise_if (String.eqb created "") (ValueError "external effect cursor created_at must not be empty");
  _ ← raise_if (String.eqb effect "") (ValueError "external effect cursor effect_id must not be empty");
  Ok {| ecur_created_at := created; ecur_effect_id := effect |}.

(** [order=True]: the fields in order. *)
Definition ecursor_ltb (a b : ExternalEffectCursor) : bool :=
  str_ltb (ecur_created_at a) (ecur_created_at b)
  || String.eqb (ecur_created_at a) (ecur_created_at b) && str_ltb (ecur_effect_id a) (ecur_effect_id b).

#[export] Instance ecursor_eq_dec : EqDecision ExternalEffectCursor.
Proof. solve_decision. Defined.

Record ExternalEffectRecoveryQuery : Set := {
  q_effect_state : string;
  q_transaction_states : list string;
  q_after : option ExternalEffectCursor;
  q_limit : nat;
}.

Definition mk_recovery_query (effect_state : string) (transaction_states : list string)
    (after : option ExternalEffectCursor) (limit : nat) : res ExternalEffectRecoveryQuery :=
  _ ← raise_if (negb (bool_decide (effect_state ∈ _EXTERNAL_EFFECT_STATES)))
        (ValueError "invalid external effect recovery state");
  let selected := fromkeys transaction_states in
  _ ← raise_if (existsb (fun s => negb (bool_decide (s ∈ _EXTERNAL_EFFECT_TRANSACTION_STATES))) selected)
        (ValueError "invalid external effect recovery transaction states");
  _ ← raise_if (limit =? 0) (ValueError "external effect recovery page limit must be positive");
  Ok {| q_effect_state := effect_state; q_transaction_states := selected; q_after := after; q_limit := limit |}.

Record ExternalEffectPage : Type := {
  epage_records : list ExternalEffectRecord;
  epage_next : option ExternalEffectCursor;
}.

Definition mk_effect_page (records : list ExternalEffectRecord) (next : option ExternalEffectCursor)
    : res ExternalEffectPage :=
  _ ← raise_if (match next, records with Some _, [] => true | _, _ => false end)
        (ValueError "empty external effect page cannot have a next cursor");
  Ok {| epage_records := records; epage_next := next |}.

Record ExternalEffectRecoverySummary : Set := {
  esum_total : Z;
  esum_sample : list string;
}.

Definition mk_effect_summary (total : Z) (sample : list string) : res ExternalEffectRecoverySummary :=
  _ ← raise_if (total <? 0)%Z (ValueError "external effect recovery total_count must be non-negative");
  _ ← raise_if (total <? Z.of_nat (length sample))%Z
        (ValueError "external effect recovery sample exceeds total");
  _ ← raise_if (existsb (fun i => String.eqb i "") sample)
        (ValueError "external effect recovery sample IDs must not be empty");
  Ok {| esum_total := total; esum_sample := sample |}.

Definition esum_truncated (s : ExternalEffectRecoverySummary) : bool :=
  (Z.of_nat (length (esum_sample s)) <? esum_total s)%Z.

(** ** Settlements *)

Definition RECOVERABLE_STATES : list string := ["prepared"; "authorized"; "approved"; "dispatched"; "unknown"].
Definition PROVIDER_STATES : list string := ["committed"; "failed"; "compensated"; "not_started"].

Record ExternalEffectRecoverySettlement : Type := {
  stl_effect : ExternalEffectRecord;
  stl_previous : string;
  stl_provider_state : string;
  stl_transition_seq : Z;
  stl_audit : string;
  stl_restored : list string;
  stl_committed : list string;
  stl_released : list string;
}.

Definition mk_settlement (effect : ExternalEffectRecord) (previous provider_state : string) (seq : Z)
    (audit : string) (restored committed released : list string) : res ExternalEffectRecoverySettlement :=
  _ ← raise_if (negb (String.eqb (eff_state effect) "finalized"))
        (ValueError "external effect recovery settlement must be finalized");
  _ ← raise_if (negb (bool_decide (previous ∈ RECOVERABLE_STATES)))
        (ValueError "invalid external effect recovery previous transaction state");
  _ ← raise_if (negb (bool_decide (provider_state ∈ PROVIDER_STATES)))
        (ValueError "invalid external effect recovery provider state");
  _ ← raise_if (seq <=? 0)%Z (ValueError "external effect recovery transition sequence must be positive");
  _ ← raise_if (String.eqb audit "")
        (ValueError "external effect recovery settlement audit record must not be empty");
  let ids := restored ++ committed ++ released in
  _ ← raise_if (existsb (fun i => String.eqb i "") ids)
        (ValueError "external effect recovery reservation IDs must not be empty");
  _ ← raise_if (negb (bool_decide (NoDup ids)))
        (ValueError "external effect recovery reservation IDs must not overlap");
  Ok {| stl_effect := effect; stl_previous := previous; stl_provider_state := provider_state;
        stl_transition_seq := seq; stl_audit := audit; stl_restored := restored;
        stl_committed := committed; stl_released := released |}.

(** ** Facts about payloads *)

Lemma retention_validated r : effect_validate r = Ok tt → retention_is_full r = Ok (String.eqb (eff_tier r) "full").
Proof.
  unfold effect_validate, retention_is_full. intros Hv.
  apply bind_Ok in Hv as (? & _ & Hv). apply bind_Ok in Hv as (? & _ & Hv).
  apply bind_Ok in Hv as ([] & Hversion%raise_if_Ok & Hv). apply bind_Ok in Hv as ([] & Htier%raise_if_Ok & _).
  by rewrite Hversion, Htier.
Qed.
