(* ===== verification/EffectTables.v ===== *)
(** * External effect tables

    The tables of [storage/sql.py] behind the evidence layer: the
    [external_effects] rows, their transition ledger with its counter, and the
    operations and operation evidence they are bound to.  They stand beside the
    capability tables and the resource reservations, because the recovery of an
    effect settles all three in one transaction.

    Rows are kept decoded; a read validates again, as the code does, and a
    payload column holds what [loads] returns for the text [dumps] wrote. *)

From S2P Require Import Prelude PyStr PyVal PyEnum ProcessState ProcessModel ProcessStore CapabilityModel ResourceTables ResourceManager JsonColumn CapabilityTables EffectModel.
From stdpp Require Import sorting.

(** ** State *)

Record EffectTransition : Set := {
  tr_effect : string;
  tr_state : string;
  tr_tx : string;
  tr_at : string;
}.

(** The columns of [operations] the effects are bound to. *)
Record OperationRow : Set := {
  op_name : string;
  op_actor : string;
  op_pid : option string;
  op_parent : option string;
  op_expected : list string;
}.

Record OperationEvidenceLink : Type := {
  lk_operation : string;
  lk_type : string;
  lk_id : string;
  lk_role : string;
  lk_metadata : Payload;
}.

Record AuditRecord : Type := {
  aud_id : string;
  aud_timestamp : string;
  aud_actor : string;
  aud_action : string;
  aud_target : string;
  aud_decision : Payload;
  aud_correlation : option string;
}.

Record EStore : Type := mkEStore {
  caps : CStore;
  capacity : gmap (string * string) ResourceReservation;
  usage_rows : gmap string ResourceUsageReservation;
  effects : gmap string ExternalEffectRecord;
  (** The [external_effect_ledger] row of [runtime_counters]. *)
  ledger : option Z;
  transitions : gmap Z EffectTransition;
  (** [runtime_epoch] of the [task_runs] rows. *)
  run_epochs : gmap string Z;
  op_rows : gmap string OperationRow;
  op_links : list OperationEvidenceLink;
  audits : list AuditRecord;
  notes : list Evidence;
}.

Definition set_ecaps (c : CStore) (s : EStore) : EStore :=
  mkEStore c (capacity s) (usage_rows s) (effects s) (ledger s) (transitions s) (run_epochs s)
    (op_rows s) (op_links s) (audits s) (notes s).
Definition set_effects (f : gmap string ExternalEffectRecord → gmap string ExternalEffectRecord)
    (s : EStore) : EStore :=
  mkEStore (caps s) (capacity s) (usage_rows s) (f (effects s)) (ledger s) (transitions s)
    (run_epochs s) (op_rows s) (op_links s) (audits s) (notes s).
Definition set_ledger (v : Z) (s : EStore) : EStore :=
  mkEStore (caps s) (capacity s) (usage_rows s) (effects s) (Some v) (transitions s)
    (run_epochs s) (op_rows s) (op_links s) (audits s) (notes s).
Definition set_transitions (f : gmap Z EffectTransition → gmap Z EffectTransition) (s : EStore) : EStore :=
  mkEStore (caps s) (capacity s) (usage_rows s) (effects s) (ledger s) (f (transitions s))
    (run_epochs s) (op_rows s) (op_links s) (audits s) (notes s).
Definition set_operations (f : gmap string OperationRow → gmap string OperationRow) (s : EStore) : EStore :=
  mkEStore (caps s) (capacity s) (usage_rows s) (effects s) (ledger s) (transitions s)
    (run_epochs s) (f (op_rows s)) (op_links s) (audits s) (notes s).
Definition add_link (l : OperationEvidenceLink) (s : EStore) : EStore :=
  mkEStore (caps s) (capacity s) (usage_rows s) (effects s) (ledger s) (transitions s)
    (run_epochs s) (op_rows s) (op_links s ++ [l]) (audits s) (notes s).
Definition add_audit (a : AuditRecord) (s : EStore) : EStore :=
  mkEStore (caps s) (capacity s) (usage_rows s) (effects s) (ledger s) (transitions s)
    (run_epochs s) (op_rows s) (op_links s) (audits s ++ [a]) (notes s).

(** A read. *)
Definition seeing {A} (f : EStore → res A) : M EStore A := fun s => (s, f s).

(** [RuntimeStore.transaction()]: the in-memory parts of the capability
    services are not rolled back. *)
Definition effect_unit {A} (m : M EStore A) : M EStore A := fun s =>
  match m s with
  | (s', Ok a) => (s', Ok a)
  | (s', Err e) => (set_ecaps (rolled_back (caps s') (caps s)) s, Err e)
  end.

(** An operation of the capability tables. *)
Definition on_caps {A} (m : M CStore A) : M EStore A := fun s =>
  let '(c, r) := m (caps s) in (set_ecaps c s, r).

(** An operation of the resource tables, which share the process table. *)
Definition resource_view (s : EStore) : RStore :=
  mkRStore (procs (caps s)) (capacity s) (usage_rows s) (eff_tx <$> effects s) (notes s).

Definition with_resources (t : RStore) (s : EStore) : EStore :=
  mkEStore (set_procs (base t) (caps s)) (reservations t) (usage_reservations t) (effects s) (ledger s)
    (transitions s) (run_epochs s) (op_rows s) (op_links s) (audits s) (evidence t).

Definition on_resources {A} (m : M RStore A) : M EStore A := fun s =>
  let '(t, r) := m (resource_view s) in (with_resources t s, r).

(** ** The host

    What the evidence layer is constructed with besides the capability host:
    the clock and fresh identifiers (the [n]-th drawn in one statement), the
    page limit and the authority policy of the acting process. *)

Class EffectHost : Type := {
  effect_caps :: CapabilityHost;
  utc_now : nat → EStore → string;
  fresh_id : string → EStore → string;
  recovery_page_hard_limit : nat;
  (** [EffectAuthorityPort.assert_effect] and the data-flow policy of the
      manifest [get_for_process] returns. *)
  assert_effect : string → string → EStore → res unit;
  manifest_policy : string → EStore → res (option Payload);
}.

Section EffectTables.
Context `{EffectHost}.

(** ** Rows *)

Definition or_else (a : option string) (b : string) : string :=
  match a with Some t => if String.eqb t "" then b else t | None => b end.

Definition _row_to_external_effect (row : ExternalEffectRecord) : res ExternalEffectRecord :=
  _persisted_model_decode (_ ← effect_validate row; Ok row).

(** The columns a statement writes from a record. *)
Definition with_payloads (metadata receipt : Payload) (updated : string) (r : ExternalEffectRecord)
    : ExternalEffectRecord :=
  {| eff_id := eff_id r; eff_record := eff_record r; eff_event := eff_event r; eff_pid := eff_pid r;
     eff_provider := eff_provider r; eff_operation := eff_operation r; eff_target := eff_target r;
     eff_class := eff_class r; eff_rollback := eff_rollback r; eff_mutation := eff_mutation r;
     eff_flow := eff_flow r; eff_metadata := metadata; eff_created_at := eff_created_at r;
     eff_state := eff_state r; eff_tx := eff_tx r; eff_args_hash := eff_args_hash r;
     eff_key := eff_key r; eff_receipt := receipt; eff_updated_at := Some updated;
     eff_retention_version := eff_retention_version r; eff_tier := eff_tier r;
     eff_retention_sha256 := eff_retention_sha256 r |}.

Definition occurred_at (r : ExternalEffectRecord) : string := or_else (eff_updated_at r) (eff_created_at r).

Definition effect_params (r : ExternalEffectRecord) : res ExternalEffectRecord :=
  metadata ← json_column str_other (eff_metadata r);
  receipt ← json_column str_other (eff_receipt r);
  Ok (with_payloads metadata receipt (occurred_at r) r).

Definition with_transaction (state tx : string) (record key : option string) (r : ExternalEffectRecord)
    : ExternalEffectRecord :=
  {| eff_id := eff_id r; eff_record := record; eff_event := eff_event r; eff_pid := eff_pid r;
     eff_provider := eff_provider r; eff_operation := eff_operation r; eff_target := eff_target r;
     eff_class := eff_class r; eff_rollback := eff_rollback r; eff_mutation := eff_mutation r;
     eff_flow := eff_flow r; eff_metadata := eff_metadata r; eff_created_at := eff_created_at r;
     eff_state := state; eff_tx := tx; eff_args_hash := eff_args_hash r;
     eff_key := key; eff_receipt := eff_receipt r; eff_updated_at := eff_updated_at r;
     eff_retention_version := eff_retention_version r; eff_tier := eff_tier r;
     eff_retention_sha256 := eff_retention_sha256 r |}.

Definition all_effects (s : EStore) : list ExternalEffectRecord := map snd (map_to_list (effects s)).

(** [idx_external_effects_pid_idempotency]: another row of the process holds
    the key. *)
Definition holds_key (p k : string) (r : ExternalEffectRecord) : bool :=
  String.eqb (eff_pid r) p && bool_decide (eff_key r = Some k).

Definition key_taken (id p : string) (key : option string) (s : EStore) : bool :=
  match key with
  | None => false
  | Some k => existsb (fun kr => negb (String.eqb (fst kr) id) && holds_key p k (snd kr))
                (map_to_list (effects s))
  end.

(** ** The ledger *)

Definition _append_external_effect_transition (id state tx occurred : string) : M EStore Z :=
  s ← get_state;
  value ← lift_res (of_option (ValidationError "external effect ledger counter is missing") (ledger s));
  let seq := (value + 1)%Z in
  _ ← modify (set_ledger seq);
  _ ← lift_res (raise_if (bool_decide (is_Some (transitions s !! seq)))
        (IntegrityError "UNIQUE constraint failed: external_effect_transitions.seq"));
  _ ← modify (set_transitions
        <[seq := {| tr_effect := id; tr_state := state; tr_tx := tx; tr_at := occurred |}]>);
  mret seq.

Definition current_effect_ledger_seq (s : EStore) : res Z :=
  of_option (ValidationError "external effect ledger counter is missing") (ledger s).

Definition external_effect_transition_matches (seq : Z) (id state tx : string) (s : EStore) : res bool :=
  _ ← raise_if ((seq <=? 0)%Z || (2 ^ 63 - 1 <? seq)%Z || String.eqb id "" || String.eqb state ""
                || String.eqb tx "") (ValidationError "external effect transition identity is invalid");
  Ok match transitions s !! seq with
     | Some t => String.eqb (tr_effect t) id && String.eqb (tr_state t) state && String.eqb (tr_tx t) tx
     | None => false
     end.

(** ** Reads *)

Definition get_external_effect (id : string) (s : EStore) : res (option ExternalEffectRecord) :=
  match effects s !! id with
  | None => Ok None
  | Some row => r ← _row_to_external_effect row; Ok (Some r)
  end.

Definition get_external_effect_by_idempotency (p key : string) (s : EStore)
    : res (option ExternalEffectRecord) :=
  match List.filter (holds_key p key) (all_effects s) with
  | [] => Ok None
  | [row] => r ← _row_to_external_effect row; Ok (Some r)
  | _ => Err (ValidationError "external effect idempotency index returned duplicate rows")
  end.

(** [ORDER BY created_at, effect_id]. *)
Definition ecursor_of (r : ExternalEffectRecord) : ExternalEffectCursor :=
  {| ecur_created_at := eff_created_at r; ecur_effect_id := eff_id r |}.

Definition effect_le (a b : ExternalEffectRecord) : Prop := ecursor_ltb (ecursor_of b) (ecursor_of a) = false.

#[export] Instance effect_le_dec : RelDecision effect_le.
Proof. intros a b. unfold effect_le. apply _. Defined.

Definition effects_where (clause : ExternalEffectRecord → bool) (s : EStore) : list ExternalEffectRecord :=
  merge_sort effect_le (List.filter clause (all_effects s)).

Definition after_cursor (after : option ExternalEffectCursor) (r : ExternalEffectRecord) : bool :=
  match after with Some c => ecursor_ltb c (ecursor_of r) | None => true end.

Definition list_external_effects (created_after pid_ : option string) (pids : option (list string))
    (s : EStore) : res (list ExternalEffectRecord) :=
  if bool_decide (pids = Some []) then Ok [] else
  mapR _row_to_external_effect
    (effects_where (fun r =>
       match created_after with Some t => str_ltb t (eff_created_at r) | None => true end
       && match pid_ with Some p => String.eqb (eff_pid r) p | None => true end
       && match pids with Some ps => bool_decide (eff_pid r ∈ ps) | None => true end) s).

Definition recoverable_row (q : ExternalEffectRecoveryQuery) (r : ExternalEffectRecord) : bool :=
  String.eqb (eff_state r) (q_effect_state q)
  && (bool_decide (q_transaction_states q = []) || bool_decide (eff_tx r ∈ q_transaction_states q))
  && after_cursor (q_after q) r.

Definition query_external_effect_recovery (q : ExternalEffectRecoveryQuery) (s : EStore)
    : res ExternalEffectPage :=
  _ ← raise_if (recovery_page_hard_limit <? q_limit q)
        (ValidationError "external effect recovery page limit exceeds configured hard limit");
  let rows := take (S (q_limit q)) (effects_where (recoverable_row q) s) in
  records ← mapR _row_to_external_effect (take (q_limit q) rows);
  next ← match (if q_limit q <? length rows then list.last records else None) with
         | Some r => c ← mk_effect_cursor (eff_created_at r) (eff_id r); Ok (Some c)
         | None => Ok None
         end;
  mk_effect_page records next.

(** *** Changes after a ledger sequence *)

Definition _EXTERNAL_EFFECT_CHANGE_QUERY_BATCH_SIZE : nat := 500.

Definition changed_after (seq : Z) (s : EStore) (r : ExternalEffectRecord) : bool :=
  existsb (fun kt => String.eqb (tr_effect (snd kt)) (eff_id r) && (seq <? fst kt)%Z)
    (map_to_list (transitions s)).

Definition in_batch (pids : option (list string)) (r : ExternalEffectRecord) : bool :=
  match pids with Some ps => bool_decide (eff_pid r ∈ ps) | None => true end.

(** The loop over the pages of one batch. *)
Fixpoint _query_external_effect_changes (fuel : nat) (seq : Z) (pids : option (list string))
    (after : option ExternalEffectCursor) (s : EStore) : res (list ExternalEffectRecord) :=
  match fuel with
  | O => Err (RuntimeError "page budget exhausted")
  | S fuel =>
      let page := take _EXTERNAL_EFFECT_CHANGE_QUERY_BATCH_SIZE
        (effects_where (fun r => changed_after seq s r && in_batch pids r && after_cursor after r) s) in
      if length page <? _EXTERNAL_EFFECT_CHANGE_QUERY_BATCH_SIZE then Ok page else
      match list.last page with
      | None => Ok page
      | Some r =>
          rest ← _query_external_effect_changes fuel seq pids (Some (ecursor_of r)) s;
          Ok (page ++ rest)
      end
  end.

(** The generator: distinct identifiers, in batches. *)
Fixpoint _external_effect_pid_batches (seen batch pids : list string) : res (list (list string)) :=
  match pids with
  | [] => Ok (if bool_decide (batch = []) then [] else [batch])
  | p :: rest =>
      if String.eqb p "" then Err (ValidationError "external effect PID filters must be non-empty text")
      else if bool_decide (p ∈ seen) then _external_effect_pid_batches seen batch rest
      else
        let batch := batch ++ [p] in
        if length batch =? _EXTERNAL_EFFECT_CHANGE_QUERY_BATCH_SIZE
        then more ← _external_effect_pid_batches (p :: seen) [] rest; Ok (batch :: more)
        else _external_effect_pid_batches (p :: seen) batch rest
  end.

Definition list_external_effects_changed_after (fuel : nat) (seq : Z) (pids : option (list string))
    (s : EStore) : res (list ExternalEffectRecord) :=
  _ ← raise_if (seq <? 0)%Z (ValidationError "external effect ledger sequence must be a non-negative integer");
  rows ← match pids with
         | None => _query_external_effect_changes fuel seq None None s
         | Some ps =>
             batches ← _external_effect_pid_batches [] [] ps;
             pages ← mapR (fun b => _query_external_effect_changes fuel seq (Some b) None s) batches;
             Ok (concat pages)
         end;
  mapR _row_to_external_effect (merge_sort effect_le rows).

(** ** Insertion and finalization *)

Definition insert_external_effect (record : ExternalEffectRecord) : M EStore unit :=
  full ← lift_res (retention_is_full record);
  _ ← lift_res (raise_if (negb full)
        (ValidationError "new external effect records must contain full provider payloads"));
  effect_unit (
    row ← lift_res (effect_params record);
    s ← get_state;
    _ ← lift_res (raise_if (bool_decide (is_Some (effects s !! eff_id record)))
          (IntegrityError "UNIQUE constraint failed: external_effects.effect_id"));
    _ ← lift_res (raise_if (key_taken (eff_id record) (eff_pid record) (eff_key record) s)
          (IntegrityError "UNIQUE constraint failed: external_effects.pid, external_effects.idempotency_key"));
    _ ← modify (set_effects <[eff_id record := row]>);
    _ ← _append_external_effect_transition (eff_id record) (eff_state record) (eff_tx record)
          (occurred_at record);
    mret tt).

(** The [WHERE] clause of the finalization. *)
Definition finalizable (record row : ExternalEffectRecord) : bool :=
  String.eqb (eff_pid row) (eff_pid record)
  && String.eqb (eff_provider row) (eff_provider record)
  && String.eqb (eff_operation row) (eff_operation record)
  && bool_decide (eff_target row = eff_target record)
  && bool_decide (eff_record row = None) && bool_decide (eff_event row = None)
  && bool_decide (eff_class row = RollbackClass.UNKNOWN)
  && bool_decide (eff_rollback row = RollbackStatus.UNKNOWN)
  && String.eqb (eff_state row) "pending".

Definition finalize_external_effect (intent : string) (record : ExternalEffectRecord) : M EStore bool :=
  _ ← lift_res (raise_if (negb (String.eqb (eff_id record) intent))
        (ValidationError "external effect finalization record id must match intent id"));
  _ ← lift_res (raise_if (negb (String.eqb (eff_state record) "finalized"))
        (ValidationError "external effect finalization record must be finalized"));
  full ← lift_res (retention_is_full record);
  _ ← lift_res (raise_if (negb full)
        (ValidationError "external effect finalization must contain full provider payloads"));
  effect_unit (
    row ← lift_res (effect_params record);
    s ← get_state;
    match effects s !! intent with
    | None => mret false
    | Some current =>
        if negb (finalizable record current) then mret false else
        _ ← lift_res (raise_if (key_taken intent (eff_pid record) (eff_key record) s)
              (IntegrityError "UNIQUE constraint failed: external_effects.pid, external_effects.idempotency_key"));
        _ ← modify (set_effects <[intent := row]>);
        _ ← _append_external_effect_transition (eff_id record) (eff_state record) (eff_tx record)
              (occurred_at record);
        mret true
    end).

(** ** Transitions *)

Definition transition_external_effect (id : string) (expected : list string) (tx : string)
    (metadata receipt : option Payload) (updated : string) : M EStore bool :=
  let states := fromkeys expected in
  _ ← lift_res (raise_if (bool_decide (states = []))
        (ValidationError "external effect transition requires expected states"));
  effect_unit (
    s ← get_state;
    match effects s !! id with
    | None => mret false
    | Some row =>
        current ← lift_res (_row_to_external_effect row);
        if negb (bool_decide (eff_tx current ∈ states)) then mret false else
        full ← lift_res (retention_is_full current);
        _ ← lift_res (raise_if (negb full)
              (ValidationError "retained external effect payloads cannot be transitioned"));
        metadata_column ← lift_res (json_column str_other (or_payload metadata (eff_metadata current)));
        receipt_column ← lift_res (json_column str_other (or_payload receipt (eff_receipt current)));
        _ ← modify (set_effects <[id :=
              with_payloads metadata_column receipt_column updated
                (with_transaction (eff_state row) tx (eff_record row) (eff_key row) row)]>);
        _ ← _append_external_effect_transition id (eff_state current) tx updated;
        mret true
    end).

(** The [WHERE] clause of the abandonment. *)
Definition abandonable (row : ExternalEffectRecord) : bool :=
  bool_decide (eff_record row = None) && bool_decide (eff_event row = None)
  && bool_decide (eff_class row = RollbackClass.UNKNOWN)
  && bool_decide (eff_rollback row = RollbackStatus.UNKNOWN)
  && String.eqb (eff_state row) "pending".

(** [abandon_external_effect_intent] of the store. *)
Definition delete_external_effect_intent (id : string) : M EStore bool := fun s =>
  match effects s !! id with
  | Some row => if abandonable row then (set_effects (delete id) s, Ok true) else (s, Ok false)
  | None => (s, Ok false)
  end.

(** ** Settlement by recovery *)

Definition is_text (v : pyval) : bool := match v with PStr s => negb (String.eqb s "") | _ => false end.
Definition texts (l : list pyval) : list string := omap (fun v => match v with PStr s => Some s | _ => None end) l.

Definition _validate_external_effect_recovery_run_fence (run_id : option string) (epoch : option Z) : res unit :=
  _ ← raise_if (negb (eqb (bool_decide (run_id = None)) (bool_decide (epoch = None))))
        (ValidationError "external effect recovery TaskRun id and epoch must be supplied together");
  _ ← raise_if (bool_decide (run_id = Some ""))
        (ValidationError "external effect recovery TaskRun id must not be empty");
  raise_if (match epoch with Some e => (e <=? 0)%Z | None => false end)
    (ValidationError "external effect recovery TaskRun epoch must be positive").

Definition settled_state (provider_state : string) : string :=
  if String.eqb provider_state "not_started" then "failed" else provider_state.

Definition _validate_external_effect_recovery_request (id expected provider_state : string)
    (receipt : Payload) (audit : AuditRecord) (updated : string) (run_id : option string)
    (epoch : option Z) : res string :=
  _ ← raise_if (String.eqb id "") (ValidationError "external effect recovery requires an effect id");
  _ ← raise_if (negb (bool_decide (expected ∈ RECOVERABLE_STATES)))
        (ValidationError "external effect recovery expected state is not recoverable");
  _ ← raise_if (negb (bool_decide (provider_state ∈ PROVIDER_STATES)))
        (ValidationError "external effect recovery provider state is invalid");
  _ ← raise_if (String.eqb expected "prepared" && negb (String.eqb provider_state "not_started"))
        (ValidationError "prepared external effect recovery requires a certified not-started provider conclusion");
  _ ← raise_if (bool_decide (receipt = []))
        (ValidationError "external effect recovery requires a non-empty provider receipt");
  _ ← raise_if (negb (String.eqb (aud_action audit) "external_effect.recovery_settled"
                      && String.eqb (aud_target audit) ("external_effect:" +:+ id)))
        (ValidationError "external effect recovery audit is not bound to the effect");
  _ ← raise_if (String.eqb updated "")
        (ValidationError "external effect recovery timestamp must not be empty");
  _ ← _validate_external_effect_recovery_run_fence run_id epoch;
  Ok (settled_state provider_state).

(** The process belongs to the run at its current epoch. *)
Definition in_run (p run : string) (epoch : Z) (s : EStore) : bool :=
  match processes (procs (caps s)) !! p with
  | Some process =>
      bool_decide (task_run_id process = Some run) && bool_decide (task_run_epoch process = Some epoch)
      && bool_decide (run_epochs s !! run = Some epoch)
  | None => false
  end.

Definition _load_external_effect_recovery_candidate (id expected : string) (run_id : option string)
    (epoch : option Z) (s : EStore) : res (option ExternalEffectRecord) :=
  match effects s !! id with
  | None => Ok None
  | Some row =>
      current ← _row_to_external_effect row;
      if negb (String.eqb (eff_state current) "pending" && String.eqb (eff_tx current) expected)
      then Ok None else
      full ← retention_is_full current;
      _ ← raise_if (negb full)
            (ValidationError "retained external effect payloads cannot be recovered");
      match run_id, epoch with
      | Some run, Some e => Ok (if in_run (eff_pid current) run e s then Some current else None)
      | _, _ => Ok (Some current)
      end
  end.

Definition _external_effect_recovery_capability_reservation_ids (effect : ExternalEffectRecord)
    : res (list string) :=
  match item_get (eff_metadata effect) "protected_operation" with
  | None | Some PNone => Ok []
  | Some (PDict protected) =>
      match dict_get_none protected "reservation_ids" with
      | PList raw | PTuple raw =>
          _ ← raise_if (negb (forallb is_text raw))
                (ValidationError "external effect recovery capability reservations are invalid");
          _ ← raise_if (negb (bool_decide (NoDup (texts raw))))
                (ValidationError "external effect recovery capability reservations are duplicated");
          Ok (texts raw)
      | _ => Err (ValidationError "external effect recovery capability reservations are invalid")
      end
  | Some _ => Err (ValidationError "external effect recovery protected-operation evidence is invalid")
  end.

(** A completed phase that changed, observed or committed something. *)
Definition effectful_phase (phase : pyval) : bool :=
  match phase with
  | PDict d => negb (py_falsy (dict_get_none d "state_mutation"))
               || negb (py_falsy (dict_get_none d "information_flow"))
               || negb (py_falsy (dict_get_none d "commits_authority"))
  | _ => false
  end.

Definition _require_external_effect_globally_not_started (effect : ExternalEffectRecord) : res unit :=
  let raw := match item_get (eff_metadata effect) "completed_provider_phases" with
             | Some v => if py_falsy v then PList [] else v | None => PList [] end in
  match raw with
  | PList phases =>
      _ ← raise_if (negb (forallb is_dict phases))
            (ValidationError "external effect recovery provider phase evidence is invalid");
      raise_if (existsb effectful_phase phases)
        (ValidationError "phase-local not-started receipt cannot erase an earlier provider effect")
  | _ => Err (ValidationError "external effect recovery provider phase evidence is invalid")
  end.

Definition _external_effect_reservation_identity (effect : ExternalEffectRecord) : res (string * string) :=
  match item_get (eff_metadata effect) "protected_operation" with
  | Some (PDict protected) =>
      match dict_get_none protected "actor", dict_get_none protected "contract_name" with
      | PStr actor, PStr contract =>
          _ ← raise_if (String.eqb actor "" || String.eqb contract "")
                (ValidationError "external effect recovery reservation identity is invalid");
          Ok (actor, contract)
      | _, _ => Err (ValidationError "external effect recovery reservation identity is invalid")
      end
  | _ => Err (ValidationError "external effect recovery reservation identity is missing")
  end.

Definition _update_external_effect_recovery_candidate (current : ExternalEffectRecord)
    (expected provider_state settled : string) (metadata receipt : Payload) (audit updated : string)
    : M EStore bool :=
  metadata_column ← lift_res (json_column str_other metadata);
  receipt_column ← lift_res (json_column str_other receipt);
  s ← get_state;
  match effects s !! eff_id current with
  | Some row =>
      if String.eqb (eff_state row) "pending" && String.eqb (eff_tx row) expected then
        let key := if String.eqb provider_state "not_started" then None else eff_key current in
        _ ← lift_res (raise_if (key_taken (eff_id current) (eff_pid row) key s)
              (IntegrityError "UNIQUE constraint failed: external_effects.pid, external_effects.idempotency_key"));
        let record := match eff_record row with Some r => Some r | None => Some audit end in
        _ ← modify (set_effects <[eff_id current :=
              with_payloads metadata_column receipt_column updated
                (with_transaction "finalized" settled record key row)]>);
        mret true
      else mret false
  | None => mret false
  end.

(** The rows [reserved_by] the effect, in [ORDER BY reservation_id]. *)
Definition envelope_le (a b : ResourceUsageReservation) : Prop := str_le (reservation_id a) (reservation_id b).

#[export] Instance envelope_le_dec : RelDecision envelope_le.
Proof. intros a b. unfold envelope_le. apply _. Defined.

Definition envelopes_of (id : string) (s : EStore) : list ResourceUsageReservation :=
  merge_sort envelope_le
    (List.filter (fun r => String.eqb (reserved_by r) id) (map snd (map_to_list (usage_rows s)))).

Fixpoint release_envelopes (rows : list ResourceUsageReservation) (updated : string) : M EStore (list string) :=
  match rows with
  | [] => mret []
  | row :: rest =>
      _ ← lift_res (raise_if (negb (is_active row))
            (ValidationError "external effect recovery resource reservation is no longer active"));
      changed ← on_resources
        (settle_resource_usage_reservation (reservation_id row) UR_RELEASED usage_zero updated);
      _ ← lift_res (raise_if (negb changed)
            (ValidationError "external effect recovery resource reservation raced"));
      released ← release_envelopes rest updated;
      mret (reservation_id row :: released)
  end.

Definition _release_external_effect_resource_reservations (effect : ExternalEffectRecord)
    (updated : string) (release : bool) : M EStore (list string) :=
  rows ← seeing (fun s => Ok (envelopes_of (eff_id effect) s));
  _ ← lift_res (raise_if (existsb (fun r => negb (String.eqb (ur_pid r) (eff_pid effect))) rows)
        (ValidationError "external effect recovery resource reservation binding changed"));
  if negb release then mret [] else release_envelopes rows updated.

(** One reservation after the other; the identity is read again for each. *)
Fixpoint converge_uses (effect : ExternalEffectRecord) (not_started : bool) (updated : string)
    (ids : list string) : M EStore unit :=
  match ids with
  | [] => mret tt
  | id :: rest =>
      identity ← lift_res (_external_effect_reservation_identity effect);
      _ ← on_caps (if not_started
            then _restore_external_effect_capability_reservation (fst identity) (snd identity) id updated
            else _commit_external_effect_capability_reservation (fst identity) (snd identity) id updated);
      converge_uses effect not_started updated rest
  end.

Definition _converge_external_effect_recovery_reservations (current : ExternalEffectRecord)
    (ids : list string) (provider_state updated : string)
    : M EStore (list string * list string * list string) :=
  let not_started := String.eqb provider_state "not_started" in
  _ ← converge_uses current not_started updated ids;
  released ← _release_external_effect_resource_reservations current updated not_started;
  mret (if not_started then ids else [], if not_started then [] else ids, released).

Definition py_texts (l : list string) : pyval := PList (map PStr l).

Definition _record_external_effect_recovery_settlement (id previous provider_state settled : string)
    (audit : AuditRecord) (updated : string) (restored committed released : list string)
    : M EStore ExternalEffectRecoverySettlement :=
  seq ← _append_external_effect_transition id "finalized" settled updated;
  let decision := payload_merge (aud_decision audit)
    [("previous_transaction_state", PStr previous); ("provider_state", PStr provider_state);
     ("settled_transaction_state", PStr settled);
     ("restored_capability_reservation_ids", py_texts restored);
     ("committed_capability_reservation_ids", py_texts committed);
     ("released_resource_reservation_ids", py_texts released); ("transition_seq", PInt seq)] in
  _ ← modify (add_audit {| aud_id := aud_id audit; aud_timestamp := aud_timestamp audit;
          aud_actor := aud_actor audit; aud_action := aud_action audit; aud_target := aud_target audit;
          aud_decision := decision; aud_correlation := aud_correlation audit |});
  found ← seeing (get_external_effect id);
  effect ← lift_res (of_option
             (ValidationError "external effect recovery row disappeared during settlement") found);
  lift_res (mk_settlement effect previous provider_state seq (aud_id audit) restored committed released).

Definition settle_external_effect_recovery (id expected provider_state : string)
    (metadata receipt : Payload) (audit : AuditRecord) (updated : string)
    (run_id : option string) (epoch : option Z) : M EStore (option ExternalEffectRecoverySettlement) :=
  settled ← lift_res (_validate_external_effect_recovery_request id expected provider_state receipt audit
              updated run_id epoch);
  effect_unit (
    candidate ← seeing (_load_external_effect_recovery_candidate id expected run_id epoch);
    match candidate with
    | None => mret None
    | Some current =>
        ids ← lift_res (_external_effect_recovery_capability_reservation_ids current);
        _ ← lift_res (if String.eqb provider_state "not_started"
                      then _require_external_effect_globally_not_started current else Ok tt);
        changed ← _update_external_effect_recovery_candidate current expected provider_state settled
                    metadata receipt (aud_id audit) updated;
        if negb changed then mret None else
        converged ← _converge_external_effect_recovery_reservations current ids provider_state updated;
        settlement ← _record_external_effect_recovery_settlement id expected provider_state settled audit
                       updated (fst (fst converged)) (snd (fst converged)) (snd converged);
        mret (Some settlement)
    end).
End EffectTables.
