(* ===== verification/EffectLedger.v ===== *)
(** * The effect ledger

    [evidence/external_effects.py] over the tables: an intent is recorded
    before a provider is called, marked dispatched, and recorded, settled,
    declared unknown or abandoned afterwards; at startup the pending effects are
    reconciled with their providers.  With it the evidence links of
    [runtime/operation_manager.py] and the approval binding of
    [capability/effect_binding.py].

    A provider is what it answers to [reconcile_external_effect] and
    [verify_external_effect_receipt]. *)

From S2P Require Import Prelude PyStr PyVal PyEnum ProcessState ProcessModel ProcessStore CapabilityModel AuthorityRules CapabilityEvaluator ResourceTables ResourceManager JsonColumn CapabilityTables EffectModel EffectTables.
From stdpp Require Import sorting.

(** ** Providers *)

Inductive ProviderAnswer : Type :=
| AnswerRaises (error_type : string)
| AnswerOther
| Answer (state : pyval) (receipt : option Payload).

Record Provider : Type := {
  prov_reconcile : option (ExternalEffectRecord → ProviderAnswer);
  prov_verify : option (ExternalEffectRecord → Payload → res ProviderAnswer);
}.

(** [provider_overrides] and the attributes of the substrate. *)
Record Substrate : Type := {
  sub_overrides : string → option (option Provider);
  sub_provider : string → option Provider;
}.

Definition select_provider (sub : Substrate) (name : string) : option Provider :=
  match sub_overrides sub name with Some p => p | None => sub_provider sub name end.

(** An [OperationPort], and its current operation. *)
Definition Operations : Type := option (option string).

Section EffectLedger.
Context `{EffectHost}.

(** ** Operation evidence *)

Definition current_id (operations : Operations) : option string :=
  match operations with Some cur => cur | None => None end.

(** [OperationManager.expect]; the roles are kept sorted. *)
Definition expect (roles : list string) (operations : Operations) : M EStore unit :=
  match operations with
  | None | Some None => mret tt
  | Some (Some id) =>
      s ← get_state;
      row ← lift_res (of_option (ValueError "operation not found") (op_rows s !! id));
      let expected := merge_sort str_le (remove_dups (op_expected row ++ roles)) in
      modify (set_operations <[id := {| op_name := op_name row; op_actor := op_actor row;
        op_pid := op_pid row; op_parent := op_parent row; op_expected := expected |}]>)
  end.

(** [OperationManager.link_evidence]: whether the link was inserted. *)
Definition link_evidence (type id role : string) (metadata : Payload) (operations : Operations) : M EStore bool :=
  match current_id operations with
  | None => mret false
  | Some operation =>
      s ← get_state;
      match op_rows s !! operation with
      | None => mret false
      | Some _ =>
          column ← lift_res (json_column str_other metadata);
          if existsb (fun l => String.eqb (lk_operation l) operation && String.eqb (lk_type l) type
                               && String.eqb (lk_id l) id && String.eqb (lk_role l) role) (op_links s)
          then mret false
          else
            _ ← modify (add_link {| lk_operation := operation; lk_type := type; lk_id := id;
                                    lk_role := role; lk_metadata := column |});
            mret true
      end
  end.

(** ** Approval bindings *)

(** [binding[key]], a text. *)
Definition binding_text (binding : list (pyval * pyval)) (key : string) : res string :=
  match dict_get binding key with
  | Some (PStr s) => Ok s
  | Some _ => Err (TypeError "approval binding field must be a string")
  | None => Err (KeyError key)
  end.

(** The bindings found so far, by effect. *)
Definition add_binding (bindings : list (string * list (pyval * pyval))) (binding : list (pyval * pyval))
    : res (list (string * list (pyval * pyval))) :=
  effect ← binding_text binding "effect_id";
  match List.find (fun kb => String.eqb (fst kb) effect) bindings with
  | Some (_, existing) =>
      _ ← raise_if (negb (py_eq (PDict existing) (PDict binding)))
            (ValidationError "external effect dispatch has conflicting approval bindings");
      Ok bindings
  | None => Ok (bindings ++ [(effect, binding)])
  end.

(** The binding of the capability one reservation took a use of. *)
Definition reservation_binding (s : EStore) (reservation : string) : res (option (list (pyval * pyval))) :=
  match use_rows (caps s) !! reservation with
  | None => Ok None
  | Some row =>
      if String.eqb (use_cap row) "" then Ok None else
      found ← get_capability (use_cap row) (caps s);
      match found with
      | None => Ok None
      | Some cap =>
          match item_get (cap_constraints cap) APPROVAL_BINDING_KEY with
          | None | Some PNone => Ok None
          | Some raw => b ← normalize_approval_binding semantic_binding raw; Ok (Some b)
          end
      end
  end.

Fixpoint approval_chain (fuel : nat) (s : EStore) (operation : option string) (seen : list string)
    (bindings : list (string * list (pyval * pyval))) : res (list (string * list (pyval * pyval))) :=
  match fuel, operation with
  | _, None => Ok bindings
  | O, _ => Err (RuntimeError "operation chain budget exhausted")
  | S fuel, Some id =>
      if bool_decide (id ∈ seen) then Ok bindings else
      let links := List.filter (fun l => String.eqb (lk_operation l) id
                                         && String.eqb (lk_type l) "capability_reservation") (op_links s) in
      bindings ← foldR (fun acc l => found ← reservation_binding s (lk_id l);
                          match found with Some b => add_binding acc b | None => Ok acc end) bindings links;
      approval_chain fuel s (match op_rows s !! id with Some row => op_parent row | None => None end)
        (id :: seen) bindings
  end.

(** Effect identifier and hash of the arguments. *)
Definition current_approval_effect_binding (operation : option string) (s : EStore)
    : res (option (string * string)) :=
  bindings ← approval_chain (S (S (size (op_rows s)))) s operation [] [];
  match bindings with
  | [] => Ok None
  | [(effect, binding)] => hash ← binding_text binding "canonical_args_hash"; Ok (Some (effect, hash))
  | _ => Err (ValidationError "external effect dispatch has multiple approval bindings")
  end.

(** ** Intents *)

Definition _effect_with_idempotency_key (p key : string) (s : EStore) : res (option ExternalEffectRecord) :=
  get_external_effect_by_idempotency p key s.

Definition _default_idempotency_key (operation_id : option string) (effect provider operation : string)
    (target : option string) (args_hash : string) : res string :=
  payload_digest [("operation_id", PStr (or_else operation_id effect)); ("provider", PStr provider);
                  ("operation", PStr operation); ("target", py_opt target);
                  ("canonical_args_hash", PStr args_hash)].

(** [effect_id], [args_hash] and [selected_key]. *)
Definition _effect_identity (p provider operation : string) (target : option string)
    (binding_context : Payload) (canonical_args_supplied : bool) (operation_id key : option string)
    (s : EStore) : res (string * string * string) :=
  approval ← current_approval_effect_binding operation_id s;
  let effect := match approval with Some (e, _) => e | None => fresh_id "effintent" s end in
  computed ← canonical_effect_hash payload_digest (map (fun kv => (PStr (fst kv), snd kv)) binding_context);
  _ ← raise_if (match approval with
                | Some (_, h) => canonical_args_supplied && negb (String.eqb h computed) | None => false end)
        (ValidationError "protected operation arguments do not match the approved external effect");
  let args_hash := match approval with Some (_, h) => h | None => computed end in
  selected ← match key with
             | Some k => if String.eqb k "" then _default_idempotency_key operation_id effect provider operation target args_hash
                         else Ok k
             | None => _default_idempotency_key operation_id effect provider operation target args_hash
             end;
  existing ← _effect_with_idempotency_key p selected s;
  _ ← raise_if (bool_decide (is_Some existing))
        (ValidationError "duplicate external effect dispatch blocked by idempotency key");
  Ok (effect, args_hash, selected).

Definition label_fields : list string :=
  ["sensitivity"; "trust_level"; "integrity"; "origin"; "tenant"; "principal"].

Definition _effect_metadata (metadata : option Payload) (information_flow : bool) (policy : option Payload)
    : res Payload :=
  let selected := or_payload metadata [] in
  if negb information_flow then Ok selected else
  labels ← match item_get selected "data_labels" with
           | Some (PDict kvs) => Ok (List.filter (fun kv => match fst kv with
                                       | PStr k => bool_decide (k ∈ label_fields) | _ => false end) kvs)
           | Some v => if py_falsy v then Ok [] else Err (TypeError "object is not a mapping")
           | None => Ok []
           end;
  Ok (item_set selected "information_flow_evidence"
        (PDict [(PStr "mode", PStr "observe_only"); (PStr "labels", PDict labels);
                (PStr "manifest_policy", py_object (or_payload policy []))])).

Definition _insert_effect_intent (record : ExternalEffectRecord) : M EStore unit := fun s =>
  match insert_external_effect record s with
  | (s', Ok u) => (s', Ok u)
  | (s', Err e) =>
      match _effect_with_idempotency_key (eff_pid record) (or_else (eff_key record) "None") s' with
      | Err e' => (s', Err e')
      | Ok (Some _) =>
          (s', Err (ValidationError "duplicate external effect dispatch blocked by concurrent idempotency claim"))
      | Ok None => (s', Err e)
      end
  end.

Definition evidence_metadata (state provider operation : string) : Payload :=
  [("effect_state", PStr state); ("provider", PStr provider); ("operation", PStr operation)].

Definition _link_pending_effect (operations : Operations) (record : ExternalEffectRecord) : M EStore unit :=
  _ ← expect ["effect"] operations;
  _ ← link_evidence "external_effect" (eff_id record) "effect"
        (evidence_metadata "pending" (eff_provider record) (eff_operation record)) operations;
  mret tt.

(** [dict((metadata or {}).get("context") or metadata or {})]. *)
Definition intent_context (metadata : option Payload) : res Payload :=
  let d := or_payload metadata [] in
  match item_get d "context" with
  | Some v => if py_falsy v then Ok d else
              match v with PDict kvs => Ok (str_items kvs) | _ => Err (TypeError "object is not a mapping") end
  | None => Ok d
  end.

(** What an intent is prepared for. *)
Record EffectIntent : Type := {
  int_pid : string;
  int_provider : string;
  int_operation : string;
  int_target : option string;
  int_mutation : bool;
  int_flow : bool;
  int_metadata : option Payload;
  int_key : option string;
  int_canonical_args : option Payload;
  int_policy : bool;
}.

Definition _effect_manifest (i : EffectIntent) (s : EStore) : res (option Payload) :=
  if int_policy i then
    _ ← assert_effect (int_pid i) (int_provider i +:+ "." +:+ int_operation i) s;
    manifest_policy (int_pid i) s
  else Ok None.

Definition intent_record (i : EffectIntent) (effect args_hash key now : string) (metadata : Payload)
    : ExternalEffectRecord :=
  {| eff_id := effect; eff_record := None; eff_event := None; eff_pid := int_pid i;
     eff_provider := int_provider i; eff_operation := int_operation i; eff_target := int_target i;
     eff_class := RollbackClass.UNKNOWN; eff_rollback := RollbackStatus.UNKNOWN;
     eff_mutation := int_mutation i; eff_flow := int_flow i;
     eff_metadata := payload_merge metadata
       [("effect_state", PStr "pending"); ("outcome", PStr "unknown_after_provider_boundary")];
     eff_created_at := now; eff_state := "pending"; eff_tx := "prepared";
     eff_args_hash := Some args_hash; eff_key := Some key; eff_receipt := []; eff_updated_at := Some now;
     eff_retention_version := _PAYLOAD_RETENTION_SCHEMA_VERSION; eff_tier := "full";
     eff_retention_sha256 := None |}.

Definition prepare_external_effect_intent (operations : Operations) (i : EffectIntent)
    : M EStore ExternalEffectRecord :=
  policy ← seeing (_effect_manifest i);
  context ← lift_res (intent_context (int_metadata i));
  let binding_context := or_payload (int_canonical_args i) context in
  identity ← seeing (_effect_identity (int_pid i) (int_provider i) (int_operation i) (int_target i)
    binding_context (bool_decide (is_Some (int_canonical_args i))) (current_id operations) (int_key i));
  now ← seeing (fun s => Ok (utc_now 0 s));
  metadata ← lift_res (_effect_metadata (int_metadata i) (int_flow i) policy);
  let record := intent_record i (fst (fst identity)) (snd (fst identity)) (snd identity) now metadata in
  _ ← _insert_effect_intent record;
  _ ← (match operations with None => mret tt | Some _ => _link_pending_effect operations record end);
  mret record.

(** ** Recording an outcome *)

(** The boundary a record is written for, and the evidence rows it names. *)
Record EffectBoundary : Type := {
  bnd_pid : string;
  bnd_provider : string;
  bnd_operation : string;
  bnd_target : option string;
  bnd_audit : option string;
  bnd_event : option string;
}.

(** [provider_metadata.get("outcome")] decides the transaction. *)
Definition outcome_state (metadata : Payload) : string :=
  let outcome := match item_get metadata "outcome" with
                 | Some v => if py_falsy v then "" else py_str str_other v | None => "" end in
  if startswith "unknown" outcome then "unknown"
  else if String.eqb outcome "failed" then "failed" else "committed".

Definition receipt_of (metadata : Payload) : Payload :=
  match item_get metadata "provider_receipt" with Some (PDict kvs) => str_items kvs | _ => [] end.

Definition outcome_record (b : EffectBoundary) (cl : ExternalEffectClassification) (effect : string)
    (intent : option ExternalEffectRecord) (metadata : Payload) (created updated : string)
    : ExternalEffectRecord :=
  {| eff_id := effect; eff_record := bnd_audit b; eff_event := bnd_event b; eff_pid := bnd_pid b;
     eff_provider := bnd_provider b; eff_operation := bnd_operation b; eff_target := bnd_target b;
     eff_class := cl_class cl; eff_rollback := cl_status cl; eff_mutation := cl_mutation cl;
     eff_flow := cl_flow cl; eff_metadata := metadata; eff_created_at := created;
     eff_state := "finalized"; eff_tx := outcome_state metadata;
     eff_args_hash := match intent with Some i => eff_args_hash i | None => None end;
     eff_key := match intent with Some i => eff_key i | None => None end;
     eff_receipt := receipt_of metadata; eff_updated_at := Some updated;
     eff_retention_version := _PAYLOAD_RETENTION_SCHEMA_VERSION; eff_tier := "full";
     eff_retention_sha256 := None |}.

Definition record_external_effect (operations : Operations) (b : EffectBoundary)
    (cl : ExternalEffectClassification) (metadata : option Payload) (intent_effect_id : option string)
    : M EStore ExternalEffectRecord :=
  let provider_metadata := item_set (payload_merge (cl_metadata cl) (or_payload metadata [])) "effect_state"
        (PStr "finalized") in
  intent ← (match intent_effect_id with
            | Some id => seeing (get_external_effect id) | None => mret None end);
  s ← get_state;
  let effect := match intent_effect_id with
                | Some id => if String.eqb id "" then fresh_id "eff" s else id
                | None => fresh_id "eff" s end in
  let record := outcome_record b cl effect intent provider_metadata (utc_now 0 s) (utc_now 1 s) in
  _ ← (match intent_effect_id with
       | None => insert_external_effect record
       | Some id =>
           finalized ← finalize_external_effect id record;
           lift_res (raise_if (negb finalized) (ValidationError
             "external effect intent was missing, already finalized, or did not match its provider boundary"))
       end);
  _ ← (match operations with
       | None => mret false
       | Some _ => link_evidence "external_effect" (eff_id record) "effect"
                     (evidence_metadata "finalized" (bnd_provider b) (bnd_operation b)) operations
       end);
  mret record.

(** ** Marks *)

Definition intent_not_found : exn := ValidationError "external effect intent not found".

Definition require_effect (id : string) : M EStore ExternalEffectRecord :=
  found ← seeing (get_external_effect id);
  lift_res (of_option intent_not_found found).

(** [store.get_external_effect(effect_id) or current]. *)
Definition effect_or (id : string) (current : ExternalEffectRecord) : M EStore ExternalEffectRecord :=
  found ← seeing (get_external_effect id);
  mret (match found with Some r => r | None => current end).

Definition mark_external_effect_dispatched (id : string) : M EStore ExternalEffectRecord :=
  current ← require_effect id;
  let metadata := item_set (eff_metadata current) "transaction_state" (PStr "dispatched") in
  now ← seeing (fun s => Ok (utc_now 0 s));
  changed ← transition_external_effect id ["prepared"; "authorized"; "approved"] "dispatched"
              (Some metadata) None now;
  _ ← (if (changed : bool) then mret tt else
       refreshed ← seeing (get_external_effect id);
       lift_res (raise_if (match refreshed with Some r => negb (String.eqb (eff_tx r) "dispatched") | None => true end)
         (ValidationError "external effect intent cannot be dispatched")));
  effect_or id current.

Definition mark_external_effect_unknown (id reason : string) (provider_receipt : option Payload)
    : M EStore ExternalEffectRecord :=
  current ← require_effect id;
  let receipt := or_payload provider_receipt (eff_receipt current) in
  let metadata := payload_merge (eff_metadata current)
    [("outcome", PStr "unknown"); ("reconciliation_reason", PStr reason); ("transaction_state", PStr "unknown")] in
  if String.eqb (eff_tx current) "unknown" && payload_eq (eff_metadata current) metadata
     && payload_eq (eff_receipt current) receipt
  then mret current else
  now ← seeing (fun s => Ok (utc_now 0 s));
  changed ← transition_external_effect id RECOVERABLE_STATES "unknown" (Some metadata) (Some receipt) now;
  _ ← lift_res (raise_if (negb changed) (ValidationError "external effect intent cannot become unknown"));
  effect_or id current.

Definition abandon_external_effect_intent (operations : Operations) (id : option string) : M EStore unit :=
  match id with
  | None => mret tt
  | Some id =>
      abandoned ← delete_external_effect_intent id;
      _ ← lift_res (raise_if (negb abandoned)
            (ValidationError "external effect intent was missing or already finalized"));
      _ ← (match operations with
           | None => mret false
           | Some _ => link_evidence "external_effect" id "result"
                         [("outcome", PStr "not_started"); ("effect_state", PStr "abandoned")] operations
           end);
      mret tt
  end.

(** ** Provider conclusions *)

Definition _provider_receipt_certifies_not_started (receipt : option Payload) : bool :=
  match receipt with
  | None => false
  | Some d =>
      let is_true k := match item_get d k with Some (PBool true) => true | _ => false end in
      (match item_get d "dispatch_status" with Some v => py_eq v (PStr "not_started") | None => false end
       && is_true "certified")
      || is_true "certified_not_started"
  end.

Definition _normalized_provider_reconciliation_state (value : pyval) (receipt : option Payload) : string :=
  let state := if py_falsy value then "unknown" else py_str str_other value in
  if String.eqb state "failed" && _provider_receipt_certifies_not_started receipt then "not_started" else state.

(** [not isinstance(receipt, Mapping) or not receipt]. *)
Definition no_receipt (receipt : option Payload) : bool :=
  match receipt with Some (_ :: _) => false | _ => true end.

Definition _verified_provider_receipt (value : ProviderAnswer) : res (string * Payload) :=
  match value with
  | Answer state receipt =>
      _ ← raise_if (no_receipt receipt)
            (ValidationError "provider receipt verifier returned no authoritative receipt");
      let selected := _normalized_provider_reconciliation_state state receipt in
      _ ← raise_if (negb (bool_decide (selected ∈ PROVIDER_STATES)))
            (ValidationError "provider receipt verifier returned an unsupported effect state");
      Ok (selected, or_payload receipt [])
  | _ => Err (ValidationError "provider receipt verifier must return an authoritative result object")
  end.

Definition settlement_metadata (effect : ExternalEffectRecord) (provider_state source digest : string) : Payload :=
  let metadata := payload_merge (eff_metadata effect)
    [("reconciled", PBool true); ("reconciliation_source", PStr source);
     ("provider_reconciliation_state", PStr provider_state);
     ("transaction_state", PStr (settled_state provider_state)); ("outcome", PStr provider_state);
     ("provider_receipt_sha256", PStr digest)] in
  if String.eqb provider_state "not_started"
  then payload_merge metadata [("certified_not_started", PBool true); ("dispatch_status", PStr "not_started")]
  else metadata.

Definition settlement_audit (effect : ExternalEffectRecord) (id provider_state source digest now : string)
    : AuditRecord :=
  {| aud_id := id; aud_timestamp := now; aud_actor := "runtime.recovery";
     aud_action := "external_effect.recovery_settled"; aud_target := "external_effect:" +:+ eff_id effect;
     aud_decision := [("source", PStr source); ("provider", PStr (eff_provider effect));
                      ("operation", PStr (eff_operation effect)); ("provider_state", PStr provider_state);
                      ("provider_receipt_sha256", PStr digest)];
     aud_correlation := Some (eff_id effect) |}.

Definition _settle_external_effect_recovery (effect : ExternalEffectRecord) (provider_state : string)
    (receipt : Payload) (source : string) (run_id : option string) (epoch : option Z)
    : M EStore ExternalEffectRecoverySettlement :=
  digest ← lift_res (payload_digest receipt);
  s ← get_state;
  let now := utc_now 0 s in
  settled ← settle_external_effect_recovery (eff_id effect) (eff_tx effect) provider_state
    (settlement_metadata effect provider_state source digest) receipt
    (settlement_audit effect (fresh_id "audit" s) provider_state source digest now) now run_id epoch;
  lift_res (of_option (ValidationError "external effect recovery raced or failed its fence") settled).

(** ** Reconciliation *)

Definition _persist_provider_terminal_reconciliation (effect : ExternalEffectRecord) (provider_state : string)
    (receipt : option Payload) : M EStore unit :=
  if no_receipt receipt then
    _ ← mark_external_effect_unknown (eff_id effect)
          "provider_terminal_state_without_authoritative_receipt" None;
    mret tt
  else
    _ ← _settle_external_effect_recovery effect provider_state (or_payload receipt [])
          "provider_reconciliation" None None;
    mret tt.

Definition _persist_provider_reconciliation_result (effect : ExternalEffectRecord) (answer_state : pyval)
    (receipt : option Payload) : M EStore unit :=
  let normalized := _normalized_provider_reconciliation_state answer_state receipt in
  let state := if bool_decide (normalized ∈ "unknown" :: PROVIDER_STATES) then normalized else "unknown" in
  if String.eqb (eff_tx effect) "prepared" && negb (bool_decide (state ∈ ["not_started"; "unknown"])) then
    _ ← mark_external_effect_unknown (eff_id effect) "prepared_effect_requires_certified_not_started" receipt;
    mret tt
  else if bool_decide (state ∈ PROVIDER_STATES) then
    _persist_provider_terminal_reconciliation effect state receipt
  else
    let metadata := payload_merge (eff_metadata effect)
      [("reconciled", PBool true); ("transaction_state", PStr state); ("outcome", PStr state)] in
    let selected := or_payload receipt [] in
    if String.eqb (eff_tx effect) "unknown" && payload_eq (eff_metadata effect) metadata
       && payload_eq (eff_receipt effect) selected
    then mret tt else
    now ← seeing (fun s => Ok (utc_now 0 s));
    changed ← transition_external_effect (eff_id effect) RECOVERABLE_STATES state (Some metadata)
                (Some selected) now;
    lift_res (raise_if (negb changed) (ValidationError "external effect reconciliation raced")).

Definition _reconcile_pending_external_effect (sub : Substrate) (effect : ExternalEffectRecord) : M EStore unit :=
  match match select_provider sub (eff_provider effect) with Some p => prov_reconcile p | None => None end with
  | None =>
      _ ← mark_external_effect_unknown (eff_id effect) "provider_does_not_support_reconciliation" None;
      mret tt
  | Some reconcile =>
      match reconcile effect with
      | AnswerRaises t =>
          _ ← mark_external_effect_unknown (eff_id effect) ("provider_reconciliation_error:" +:+ t) None;
          mret tt
      | AnswerOther =>
          _ ← mark_external_effect_unknown (eff_id effect) "invalid_reconciliation_result" None;
          mret tt
      | Answer state receipt => _persist_provider_reconciliation_result effect state receipt
      end
  end.

(** *** [iter_external_effect_recovery]

    The generator, with the body its consumer runs on each effect: the page is
    read before its first effect is handled, the next one after its last. *)

Section Iteration.
Context {A : Type} (body : A → ExternalEffectRecord → M EStore A).

Fixpoint recovery_rows (q : ExternalEffectRecoveryQuery) (previous : option ExternalEffectCursor)
    (records : list ExternalEffectRecord) (acc : A) : M EStore (option ExternalEffectCursor * A) :=
  match records with
  | [] => mret (previous, acc)
  | effect :: rest =>
      cursor ← lift_res (mk_effect_cursor (eff_created_at effect) (eff_id effect));
      _ ← lift_res (raise_if (match previous with Some p => negb (ecursor_ltb p cursor) | None => false end)
            (ValidationError "external effect recovery repository returned a non-monotonic page"));
      _ ← lift_res (raise_if (negb (String.eqb (eff_state effect) (q_effect_state q)))
            (ValidationError "external effect recovery repository returned an ineligible effect state"));
      _ ← lift_res (raise_if (negb (bool_decide (q_transaction_states q = []))
                              && negb (bool_decide (eff_tx effect ∈ q_transaction_states q)))
            (ValidationError "external effect recovery repository returned an ineligible transaction state"));
      acc ← body acc effect;
      recovery_rows q (Some cursor) rest acc
  end.

Definition next_query (q : ExternalEffectRecoveryQuery) (c : ExternalEffectCursor) : ExternalEffectRecoveryQuery :=
  {| q_effect_state := q_effect_state q; q_transaction_states := q_transaction_states q;
     q_after := Some c; q_limit := q_limit q |}.

Fixpoint iter_external_effect_recovery (fuel : nat) (q : ExternalEffectRecoveryQuery) (acc : A) : M EStore A :=
  match fuel with
  | O => raise (RuntimeError "page budget exhausted")
  | S fuel =>
      page ← seeing (query_external_effect_recovery q);
      _ ← lift_res (raise_if (q_limit q <? length (epage_records page))
            (ValidationError "external effect recovery repository exceeded the requested page limit"));
      result ← recovery_rows q (q_after q) (epage_records page) acc;
      match epage_next page with
      | None => mret (snd result)
      | Some c =>
          _ ← lift_res (raise_if (negb (bool_decide (fst result = Some c)))
                (ValidationError "external effect recovery repository returned an invalid next cursor"));
          iter_external_effect_recovery fuel (next_query q c) (snd result)
      end
  end.
End Iteration.

(** The count and the sample. *)
Definition counted (page_size : nat) (acc : Z * list string) (id : string) : Z * list string :=
  ((fst acc + 1)%Z, if length (snd acc) <? page_size then snd acc ++ [id] else snd acc).

Definition protected_metadata (effect : ExternalEffectRecord) : bool :=
  match item_get (eff_metadata effect) "protected_operation" with Some (PDict _) => true | _ => false end.

Definition reconcile_one (sub : Substrate) (page_size : nat) (acc : Z * list string)
    (effect : ExternalEffectRecord) : M EStore (Z * list string) :=
  if String.eqb (eff_tx effect) "prepared" && protected_metadata effect then mret acc else
  _ ← _reconcile_pending_external_effect sub effect;
  mret (counted page_size acc (eff_id effect)).

Definition reconcile_pending_external_effects (fuel : nat) (sub : Substrate)
    (require_recovery_lease : res unit) (page_size : nat) : M EStore ExternalEffectRecoverySummary :=
  _ ← lift_res require_recovery_lease;
  q ← lift_res (mk_recovery_query "pending" [] None page_size);
  result ← iter_external_effect_recovery (reconcile_one sub page_size) fuel q (0%Z, []);
  lift_res (mk_effect_summary (fst result) (snd result)).

(** ** Settlement from a Host-selected receipt *)

Definition settle_external_effect_from_authoritative_receipt (provider : option Provider) (run_id id expected : string)
    (receipt : Payload) (epoch : Z) (require_recovery_lease : res unit)
    : M EStore ExternalEffectRecoverySettlement :=
  _ ← lift_res require_recovery_lease;
  _ ← lift_res (raise_if (String.eqb id "") (ValidationError "authoritative receipt requires an effect id"));
  _ ← lift_res (raise_if (negb (bool_decide (expected ∈ RECOVERABLE_STATES)))
        (ValidationError "authoritative receipt expected state is not recoverable"));
  _ ← lift_res (raise_if (bool_decide (receipt = []))
        (ValidationError "authoritative provider receipt is required"));
  effect ← require_effect id;
  _ ← lift_res (raise_if (negb (String.eqb (eff_state effect) "pending" && String.eqb (eff_tx effect) expected))
        (ValidationError "authoritative receipt no longer matches the expected effect state"));
  verify ← lift_res (of_option (ValidationError "configured provider cannot verify authoritative effect receipts")
             match provider with Some p => prov_verify p | None => None end);
  verified ← lift_res (verify effect receipt);
  conclusion ← lift_res (_verified_provider_receipt verified);
  _settle_external_effect_recovery effect (fst conclusion) (snd conclusion) "host_verified_receipt"
    (Some run_id) (Some epoch).
End EffectLedger.
