(* ===== verification/EffectInvariant.v ===== *)
(** * The life of an effect and its ledger

    Well-formed effect tables; the abstract life of one effect; and the
    relation between the tables before and after any operation of the evidence
    layer: an effect moves along its life, a finalized one keeps its outcome,
    and every row that changed has a new entry in the ledger. *)

From S2P Require Import Prelude PyStr PyVal PyEnum ProcessState ProcessModel ProcessStore CapabilityModel AuthorityRules CapabilityEvaluator ResourceTables ResourceManager JsonColumn CapabilityTables CapabilityEvolution StoreSteps EffectModel EffectTables EffectLedger.
From stdpp Require Import sorting.

(** ** The abstract life *)

Definition OUTCOMES : list string := ["committed"; "failed"; "compensated"; "unknown"].
Definition UNDISPATCHED : list string := ["prepared"; "authorized"; "approved"].

(** State and transaction state of an effect. *)
Abbreviation Phase := (string * string)%type.

(** The phase an effect without or with a phase is written in. *)
Inductive life_step : option Phase → Phase → Prop :=
| life_prepare : life_step None ("pending", "prepared")
| life_record o : o ∈ OUTCOMES → life_step None ("finalized", o)
| life_dispatch tx : tx ∈ UNDISPATCHED → life_step (Some ("pending", tx)) ("pending", "dispatched")
| life_phase : life_step (Some ("pending", "dispatched")) ("pending", "dispatched")
| life_doubt tx : tx ∈ RECOVERABLE_STATES → life_step (Some ("pending", tx)) ("pending", "unknown")
| life_settle tx o : o ∈ OUTCOMES → life_step (Some ("pending", tx)) ("finalized", o)
| life_settled o : life_step (Some ("finalized", o)) ("finalized", o).

Definition phase_of (r : ExternalEffectRecord) : Phase := (eff_state r, eff_tx r).
Definition phase (s : EStore) (id : string) : option Phase :=
  (fun r => (eff_state r, eff_tx r)) <$> effects s !! id.

(** The abstract machine: the phase of every effect, and the log of the phases
    that were written. *)
Record Lives : Type := { lv_phase : gmap string Phase; lv_log : gmap Z (string * Phase) }.

Definition entry_of (t : EffectTransition) : string * Phase := (tr_effect t, (tr_state t, tr_tx t)).
Definition lives_of (s : EStore) : Lives :=
  {| lv_phase := phase_of <$> effects s; lv_log := entry_of <$> transitions s |}.

(** One effect moves along its life and its new phase is the next entry of the
    log; or, with [gone] set, a pending effect is dropped, and nothing is
    logged. *)
Inductive lives_step (gone : bool) (a : Lives) : Lives → Prop :=
| lives_write id ph n :
    life_step (lv_phase a !! id) ph → (∀ k, is_Some (lv_log a !! k) ↔ (1 <= k <= n)%Z) →
    lives_step gone a {| lv_phase := <[id := ph]> (lv_phase a); lv_log := <[(n + 1)%Z := (id, ph)]> (lv_log a) |}
| lives_drop id tx :
    gone = true → lv_phase a !! id = Some ("pending", tx) →
    lives_step gone a {| lv_phase := delete id (lv_phase a); lv_log := lv_log a |}.

(** What a finalized row keeps. *)
Definition frozen (r r' : ExternalEffectRecord) : Prop :=
  eff_state r' = eff_state r ∧ eff_tx r' = eff_tx r ∧ eff_pid r' = eff_pid r
  ∧ eff_provider r' = eff_provider r ∧ eff_operation r' = eff_operation r ∧ eff_target r' = eff_target r
  ∧ eff_class r' = eff_class r ∧ eff_rollback r' = eff_rollback r ∧ eff_mutation r' = eff_mutation r
  ∧ eff_flow r' = eff_flow r ∧ eff_record r' = eff_record r ∧ eff_event r' = eff_event r
  ∧ eff_key r' = eff_key r ∧ eff_args_hash r' = eff_args_hash r ∧ eff_created_at r' = eff_created_at r.

(** Envelope rows are kept under their identifiers. *)
Definition usage_keyed (s : EStore) : Prop := ∀ id r, usage_rows s !! id = Some r → reservation_id r = id.

Lemma frozen_refl r : frozen r r.
Proof. done. Qed.

Lemma frozen_trans a b c : frozen a b → frozen b c → frozen a c.
Proof. unfold frozen. intros. destruct_and!. split_and!; congruence. Qed.

Section Invariant.
Context `{EffectHost}.

(** ** Well-formed tables *)

Definition stored_payload (d : Payload) : Prop := json_column str_other d = Ok d.

Record effect_row_ok (id : string) (r : ExternalEffectRecord) : Prop := {
  er_id : eff_id r = id;
  er_valid : effect_validate r = Ok tt;
  er_final : eff_state r = "finalized" → eff_tx r ∈ OUTCOMES;
  er_metadata : stored_payload (eff_metadata r);
  er_receipt : stored_payload (eff_receipt r);
}.

(** The newest entry of an effect. *)
Definition newest (s : EStore) (id : string) (k : Z) (t : EffectTransition) : Prop :=
  transitions s !! k = Some t ∧ tr_effect t = id
  ∧ ∀ k' t', transitions s !! k' = Some t' → tr_effect t' = id → (k' <= k)%Z.

Record effects_ok (s : EStore) : Prop := {
  ek_row id r : effects s !! id = Some r → effect_row_ok id r;
  ek_key i j r r' k : effects s !! i = Some r → effects s !! j = Some r' →
    eff_pid r = eff_pid r' → eff_key r = Some k → eff_key r' = Some k → i = j;
  ek_ledger : ∃ n, ledger s = Some n ∧ (0 <= n)%Z ∧ ∀ k, is_Some (transitions s !! k) ↔ (1 <= k <= n)%Z;
  ek_newest id r : effects s !! id = Some r →
    ∃ k t, newest s id k t ∧ tr_state t = eff_state r ∧ tr_tx t = eff_tx r;
  ek_usage : usage_keyed s;
}.

(** ** Progress *)

Definition entry_after (n : Z) (s : EStore) (id : string) : Prop :=
  ∃ k t, transitions s !! k = Some t ∧ tr_effect t = id ∧ (n < k)%Z.

Record progresses (gone : bool) (s s' : EStore) : Prop := {
  pg_transitions : transitions s ⊆ transitions s';
  pg_ledger n : ledger s = Some n → ∃ n', ledger s' = Some n' ∧ (n <= n')%Z;
  pg_lives : rtc (lives_step gone) (lives_of s) (lives_of s');
  pg_final id r : effects s !! id = Some r → eff_state r = "finalized" →
    ∃ r', effects s' !! id = Some r' ∧ frozen r r';
  pg_logged n id r' : ledger s = Some n → effects s' !! id = Some r' →
    effects s !! id = Some r' ∨ entry_after n s' id;
}.

(** Whatever happens but abandonment, with [gone] unset. *)
Definition advances (gone : bool) (s s' : EStore) : Prop := effects_ok s → effects_ok s' ∧ progresses gone s s'.
Definition effect_advance : relation EStore := advances false.

Lemma progresses_refl gone s : progresses gone s s.
Proof. split; [done|by intros n ->; exists n|done|by intros id r ->; exists r|by left]. Qed.

Lemma entry_after_mono n s s' id : transitions s ⊆ transitions s' → entry_after n s id → entry_after n s' id.
Proof. intros Hs (k & t & Hk & Ht & Hlt). exists k, t. split; [|done]. by eapply lookup_weaken. Qed.

Lemma progresses_trans gone a b c : progresses gone a b → progresses gone b c → progresses gone a c.
Proof.
  intros H1 H2. split.
  - transitivity (transitions b); [apply (pg_transitions _ _ _ H1)|apply (pg_transitions _ _ _ H2)].
  - intros n En. destruct (pg_ledger _ _ _ H1 n En) as (m & Em & ?). destruct (pg_ledger _ _ _ H2 m Em) as (k & Ek & ?).
    exists k. split; [done|lia].
  - transitivity (lives_of b); [apply H1|apply H2].
  - intros id r Hr Hf. destruct (pg_final _ _ _ H1 id r Hr Hf) as (r1 & Hr1 & F1).
    destruct (pg_final _ _ _ H2 id r1 Hr1) as (r2 & Hr2 & F2); [by destruct F1 as [-> _]|].
    exists r2. split; [done|by eapply frozen_trans].
  - intros n id r En Hr. destruct (pg_ledger _ _ _ H1 n En) as (m & Em & Hle).
    destruct (pg_logged _ _ _ H2 m id r Em Hr) as [Hb|(k & t & Hk & Ht & Hlt)].
    + destruct (pg_logged _ _ _ H1 n id r En Hb) as [|He]; [by left|right].
      eapply entry_after_mono; [apply (pg_transitions _ _ _ H2)|done].
    + right. exists k, t. split; [done|split; [done|lia]].
Qed.

#[export] Instance advances_preorder gone : PreOrder (advances gone).
Proof.
  split; [intros s Hs; split; [done|apply progresses_refl]|].
  intros a b c H1 H2 Hs. destruct (H1 Hs) as [Hb P1]. destruct (H2 Hb) as [Hc P2].
  split; [done|by eapply progresses_trans].
Qed.

#[export] Instance effect_advance_preorder : PreOrder effect_advance.
Proof. apply advances_preorder. Qed.

Lemma lives_step_weaken a b : lives_step false a b → lives_step true a b.
Proof. intros [id ph n Hl Hn|]; [by constructor|done]. Qed.

Lemma advances_weaken s s' : effect_advance s s' → advances true s s'.
Proof.
  intros Ha Hs. destruct (Ha Hs) as [Hs' []]. split; [done|]. split; try done.
  eapply rtc_subrel; [|done]. intros x y. apply lives_step_weaken.
Qed.

(** ** Operations that leave the effects alone *)

Definition same_effects (s s' : EStore) : Prop :=
  effects s' = effects s ∧ ledger s' = ledger s ∧ transitions s' = transitions s
  ∧ (usage_keyed s → usage_keyed s').

#[export] Instance same_effects_preorder : PreOrder same_effects.
Proof. split; [done|]. unfold same_effects. intros a b c (E1 & E2 & E3 & K) (F1 & F2 & F3 & L). split_and!; [congruence..|auto]. Qed.

Lemma newest_same s s' id k t : same_effects s s' → newest s id k t → newest s' id k t.
Proof. intros (_ & _ & E & _). unfold newest. by rewrite E. Qed.

Lemma advance_same_effects s s' : same_effects s s' → effect_advance s s'.
Proof.
  intros Hsame Hs. pose proof Hsame as (Ee & El & Et & Hu). split.
  - split; rewrite ?Ee, ?El, ?Et; try apply Hs; [|by apply Hu, Hs].
    intros id r Hr. destruct (ek_newest _ Hs id r Hr) as (k & t & Hn & Hst). exists k, t. split; [|done].
    by eapply newest_same.
  - split; unfold lives_of, entry_after; rewrite ?Ee, ?El, ?Et.
    + done.
    + intros n ->. by exists n.
    + done.
    + intros id r -> _. by exists r.
    + by left.
Qed.

(** ** Writing one row *)

(** The row is written and the ledger extended. *)
Definition writes (id : string) (r : ExternalEffectRecord) (s s' : EStore) : Prop :=
  effects s' = <[id := r]> (effects s) ∧ (usage_keyed s → usage_keyed s')
  ∧ ∃ n at_, ledger s = Some n ∧ ledger s' = Some (n + 1)%Z
      ∧ transitions s' = <[(n + 1)%Z := {| tr_effect := id; tr_state := eff_state r; tr_tx := eff_tx r; tr_at := at_ |}]>
                          (transitions s).

(** No other row of the process holds the key. *)
Definition key_free (s : EStore) (id p : string) (key : option string) : Prop :=
  ∀ j r k, effects s !! j = Some r → eff_pid r = p → eff_key r = Some k → key = Some k → j = id.

Lemma key_taken_false s id p key : key_taken id p key s = false → key_free s id p key.
Proof.
  unfold key_taken. intros Hk j r k Hj Hp Hrk ->. destruct (String.eqb_spec j id) as [->|Hne]; [done|exfalso].
  assert (existsb (fun kr => negb (String.eqb (fst kr) id) && holds_key p k (snd kr)) (map_to_list (effects s)) = true)
    as Hx; [|by rewrite Hx in Hk].
  apply existsb_exists. exists (j, r). split; [by apply list_elem_of_In, elem_of_map_to_list|]. cbn.
  unfold holds_key. apply String.eqb_neq in Hne. by rewrite Hne, Hp, String.eqb_refl, Hrk, bool_decide_eq_true_2.
Qed.

Lemma writes_ok id r s s' :
  effects_ok s → writes id r s s' → effect_row_ok id r → key_free s id (eff_pid r) (eff_key r) → effects_ok s'.
Proof.
  intros Hs (Ee & Hu & n & at_ & En & En' & Et) Hr Hkey. destruct (ek_ledger _ Hs) as (m & Em & Hm & Hk).
  rewrite En in Em. injection Em as <-.
  split.
  - intros i x. rewrite Ee. intros [[<- <-]|[Hne Hx]]%lookup_insert_Some; [done|]. by apply (ek_row _ Hs).
  - intros i j x y k. rewrite Ee. intros [[<- <-]|[Hi Hx]]%lookup_insert_Some [[<- <-]|[Hj Hy]]%lookup_insert_Some Hp Hxk Hyk.
    + done.
    + symmetry. by eapply Hkey.
    + by eapply Hkey.
    + by eapply (ek_key _ Hs).
  - exists (n + 1)%Z. rewrite Et. split; [done|]. split; [lia|]. intros k.
    destruct (decide (n + 1 = k)%Z) as [<-|Hne].
    + rewrite lookup_insert_eq. split; [lia|by eexists].
    + rewrite lookup_insert_ne by done. rewrite Hk. lia.
  - assert (Hold : ∀ k' t', transitions s !! k' = Some t' → (k' <= n)%Z).
    { intros k' t' Hk'. assert (is_Some (transitions s !! k')) as Hi by (by eexists). apply Hk in Hi. lia. }
    intros i x. rewrite Ee. intros [[<- <-]|[Hne Hx]]%lookup_insert_Some.
    + exists (n + 1)%Z, {| tr_effect := id; tr_state := eff_state r; tr_tx := eff_tx r; tr_at := at_ |}. split; [|done].
      unfold newest. rewrite Et, lookup_insert_eq. split_and!; [done..|].
      intros k' t' Hk' _. apply lookup_insert_Some in Hk' as [[<- _]|[_ Hk']]; [lia|]. apply Hold in Hk'. lia.
    + destruct (ek_newest _ Hs i x Hx) as (k & t & (Hkt & Ht & Hmax) & Hst). exists k, t. split; [|done].
      unfold newest. rewrite Et. split_and!; [|done|].
      * rewrite lookup_insert_ne; [done|]. apply Hold in Hkt. lia.
      * intros k' t' Hk' Ht'. apply lookup_insert_Some in Hk' as [[_ <-]|[_ Hk']]; [by cbn in Ht'|by eapply Hmax].
  - apply Hu, Hs.
Qed.

Lemma writes_progress id r s s' :
  effects_ok s → writes id r s s' →
  life_step (phase s id) (phase_of r) →
  (∀ r0, effects s !! id = Some r0 → eff_state r0 = "finalized" → frozen r0 r) →
  progresses false s s'.
Proof.
  intros Hs (Ee & Hu & n & at_ & En & En' & Et) Hlife Hfin. destruct (ek_ledger _ Hs) as (m & Em & Hm & Hk).
  rewrite En in Em. injection Em as <-.
  assert (Hfresh : transitions s !! (n + 1)%Z = None).
  { apply eq_None_not_Some. rewrite Hk. lia. }
  split.
  - rewrite Et. by apply insert_subseteq.
  - intros k. rewrite En. intros [= <-]. exists (n + 1)%Z. split; [done|lia].
  - apply rtc_once. unfold lives_of. rewrite Ee, Et, !fmap_insert. apply lives_write; cbn.
    + by rewrite lookup_fmap.
    + intros k. rewrite lookup_fmap, fmap_is_Some. apply Hk.
  - intros i x Hx Hf. rewrite Ee. destruct (decide (id = i)) as [<-|Hne].
    + rewrite lookup_insert_eq. exists r. split; [done|by apply Hfin].
    + rewrite lookup_insert_ne by done. by exists x.
  - intros k i x. rewrite En, Ee. intros [= <-] [[<- <-]|[Hne Hx]]%lookup_insert_Some; [|by left]. right.
    eexists (n + 1)%Z, _. rewrite Et, lookup_insert_eq. split; [done|]. split; [done|lia].
Qed.
End Invariant.
