(* ===== verification/EffectUpdates.v ===== *)
(** * The updates of the effect tables

    What each statement of [EffectTables] does on every branch, and that it
    moves the tables along [effect_advance]. *)

From S2P Require Import Prelude PyStr PyVal PyEnum ProcessState ProcessModel ProcessStore CapabilityModel AuthorityRules CapabilityEvaluator ResourceTables ResourceManager JsonColumn CapabilityTables JsonEquality CapabilityEvolution StoreSteps EffectModel EffectTables EffectLedger EffectInvariant.
From stdpp Require Import sorting.

(** The tables with one row written and its entry appended. *)
Definition wrote (id : string) (r : ExternalEffectRecord) (at_ : string) (n : Z) (s : EStore) : EStore :=
  set_transitions <[(n + 1)%Z := {| tr_effect := id; tr_state := eff_state r; tr_tx := eff_tx r; tr_at := at_ |}]>
    (set_ledger (n + 1) (set_effects <[id := r]> s)).

(** The in-memory parts of the capability services, after a rollback. *)
Definition rolled (s' s : EStore) : EStore := set_ecaps (rolled_back (caps s') (caps s)) s.

Section Updates.
Context `{EffectHost}.

Lemma wrote_writes id r at_ n s : ledger s = Some n → writes id r s (wrote id r at_ n s).
Proof. intros En. split; [done|]. split; [done|]. by exists n, at_. Qed.

Lemma same_rolled s' s : same_effects s (rolled s' s).
Proof. done. Qed.

Lemma set_takeover_same b : set_takeover (takeover b) b = b.
Proof. by destruct b. Qed.

Lemma rolled_back_same c : rolled_back c c = c.
Proof. unfold rolled_back. rewrite set_takeover_same. by destruct c. Qed.

Lemma effect_unit_Ok {A} (m : M EStore A) s s' a : effect_unit m s = (s', Ok a) ↔ m s = (s', Ok a).
Proof. unfold effect_unit. destruct (m s) as [? []]; naive_solver. Qed.

Lemma effect_unit_Err {A} (m : M EStore A) s s' e :
  effect_unit m s = (s', Err e) → ∃ s1, m s = (s1, Err e) ∧ s' = rolled s1 s.
Proof. unfold effect_unit. destruct (m s) as [s1 []]; [done|]. intros [= <- <-]. by exists s1. Qed.

(** Operations that do not touch what a rollback leaves alone. *)
Definition same_memory (s s' : EStore) : Prop :=
  takeover (procs (caps s')) = takeover (procs (caps s)) ∧ tripped (caps s') = tripped (caps s).

#[export] Instance same_memory_preorder : PreOrder same_memory.
Proof. split; [done|]. unfold same_memory. intros a b c ??. destruct_and!. split; congruence. Qed.

(** Nothing but the tables of a rolled back transaction had changed. *)
Lemma rolled_same s' s : same_memory s s' → rolled s' s = s.
Proof.
  unfold rolled, rolled_back. intros [-> ->]. rewrite set_takeover_same. destruct s as [[]]; done.
Qed.

Lemma unit_Err_same {A} (m : M EStore A) s s' e : keeps same_memory m → effect_unit m s = (s', Err e) → s' = s.
Proof. intros Hm (s1 & E & ->)%effect_unit_Err. apply rolled_same. by apply Hm in E. Qed.

Lemma mem_modify_effects f : keeps same_memory (modify (set_effects f)).
Proof. by apply keeps_modify. Qed.
Lemma mem_modify_ledger v : keeps same_memory (modify (set_ledger v)).
Proof. by apply keeps_modify. Qed.
Lemma mem_modify_transitions f : keeps same_memory (modify (set_transitions f)).
Proof. by apply keeps_modify. Qed.
Lemma mem_modify_audit a : keeps same_memory (modify (add_audit a)).
Proof. by apply keeps_modify. Qed.
#[local] Hint Resolve mem_modify_effects mem_modify_ledger mem_modify_transitions mem_modify_audit : steps.

Lemma mem_append id st tx at_ : keeps same_memory (_append_external_effect_transition id st tx at_).
Proof. unfold _append_external_effect_transition. keep. Qed.
#[local] Hint Resolve mem_append : steps.

(** A transaction: what its returning runs do is enough. *)
Lemma keeps_unit {A} (m : M EStore A) :
  (∀ s s' a, m s = (s', Ok a) → effect_advance s s') → keeps effect_advance (effect_unit m).
Proof.
  intros Hm s s' [a|e] E.
  - rewrite effect_unit_Ok in E. exact (Hm _ _ _ E).
  - apply effect_unit_Err in E as (s1 & _ & ->). apply advance_same_effects, same_rolled.
Qed.

(** ** Rows *)

Lemma decode_effect r : effect_validate r = Ok tt → _row_to_external_effect r = Ok r.
Proof. unfold _row_to_external_effect, _persisted_model_decode. by intros ->. Qed.

Lemma get_effect_ok s id r : effects_ok s → effects s !! id = Some r → get_external_effect id s = Ok (Some r).
Proof. intros Hs Hr. unfold get_external_effect. rewrite Hr, decode_effect; [done|]. by apply (ek_row _ Hs _ _ Hr). Qed.

Lemma get_effect_Ok s id r :
  effects_ok s → get_external_effect id s = Ok r → r = effects s !! id.
Proof.
  intros Hs. destruct (effects s !! id) as [x|] eqn:Ex.
  - rewrite (get_effect_ok _ _ _ Hs Ex). by intros [= <-].
  - unfold get_external_effect. rewrite Ex. by intros [= <-].
Qed.

(** The columns written from a record. *)
Lemma effect_params_Ok r row : effect_params r = Ok row →
  ∃ m c, row = with_payloads m c (occurred_at r) r ∧ stored_payload m ∧ stored_payload c.
Proof.
  unfold effect_params. intros (m & Hm & E)%bind_Ok. apply bind_Ok in E as (c & Hc & [= <-]).
  exists m, c. split; [done|]. by split; eapply json_column_stable.
Qed.

Lemma params_row_ok r row id :
  effect_params r = Ok row → eff_id r = id → effect_validate r = Ok tt →
  (eff_state r = "finalized" → eff_tx r ∈ OUTCOMES) → effect_row_ok id row.
Proof.
  intros (m & c & -> & Hm & Hc)%effect_params_Ok Hid Hv Hf. by split.
Qed.

(** ** The ledger *)

Lemma append_Ok id st tx at_ s s' seq :
  _append_external_effect_transition id st tx at_ s = (s', Ok seq) →
  ∃ n, ledger s = Some n ∧ seq = (n + 1)%Z ∧ transitions s !! (n + 1)%Z = None
    ∧ s' = set_transitions <[(n + 1)%Z := {| tr_effect := id; tr_state := st; tr_tx := tx; tr_at := at_ |}]>
             (set_ledger (n + 1) s).
Proof.
  unfold _append_external_effect_transition. intros E. res_simpl.
  match goal with H : bool_decide _ = false |- _ => apply bool_decide_eq_false in H; apply eq_None_not_Some in H as Hnone end.
  eexists. split; [eassumption|]. split; [done|]. split; [exact Hnone|done].
Qed.

(** On well-formed tables the entry is always appended. *)
Lemma append_run id st tx at_ s n :
  ledger s = Some n → transitions s !! (n + 1)%Z = None →
  _append_external_effect_transition id st tx at_ s
  = (set_transitions <[(n + 1)%Z := {| tr_effect := id; tr_state := st; tr_tx := tx; tr_at := at_ |}]>
       (set_ledger (n + 1) s), Ok (n + 1)%Z).
Proof.
  intros En Et. unfold _append_external_effect_transition, mbind, M_bind, get_state, lift_res. rewrite En. cbn.
  rewrite Et. by rewrite bool_decide_eq_false_2 by (by intros [? [=]]).
Qed.

Lemma ledger_next s : effects_ok s → ∃ n, ledger s = Some n ∧ transitions s !! (n + 1)%Z = None.
Proof.
  intros Hs. destruct (ek_ledger _ Hs) as (n & En & Hn & Hk). exists n. split; [done|].
  apply eq_None_not_Some. rewrite Hk. lia.
Qed.

(** ** Insertion *)

Lemma effect_insert_Ok record s s' u :
  insert_external_effect record s = (s', Ok u) →
  ∃ row n, effect_params record = Ok row ∧ effects s !! eff_id record = None
    ∧ key_taken (eff_id record) (eff_pid record) (eff_key record) s = false
    ∧ ledger s = Some n ∧ s' = wrote (eff_id record) row (occurred_at record) n s.
Proof.
  unfold insert_external_effect. intros (full & s1 & E1 & E)%M_bind_Ok. unfold lift_res in E1. injection E1 as <- Hfull.
  apply M_bind_Ok in E as ([] & s1 & E1 & E). unfold lift_res in E1. injection E1 as <- Hf. rewrite effect_unit_Ok in E.
  res_simpl. match goal with H : _append_external_effect_transition _ _ _ _ _ = _ |- _ => apply append_Ok in H as (n & En & -> & Ht & ->) end.
  match goal with H : bool_decide _ = false |- _ => apply bool_decide_eq_false in H; apply eq_None_not_Some in H as Hnone end.
  match goal with H : effect_params _ = Ok _ |- _ => pose proof H as Hp; apply effect_params_Ok in H as (m & c & -> & _) end.
  by eexists _, n.
Qed.

Lemma insert_Err record s s' e : insert_external_effect record s = (s', Err e) → s' = s.
Proof.
  unfold insert_external_effect, mbind at 1, M_bind at 1, lift_res at 1. destruct (retention_is_full record) as [full|]; [|by intros [= <- _]].
  unfold mbind at 1, M_bind at 1, lift_res at 1. destruct (raise_if _ _) as [[]|]; [|by intros [= <- _]].
  apply unit_Err_same. keep.
Qed.

Lemma effect_insert_advance record :
  effect_validate record = Ok tt →
  life_step None (phase_of record) →
  keeps effect_advance (insert_external_effect record).
Proof.
  intros Hv Hlife s s' [u|e] E; [|apply insert_Err in E as ->; reflexivity].
  intros Hs. apply effect_insert_Ok in E as (row & n & Hp & Hnone & Hkey & En & ->).
  assert (Hfin : eff_state record = "finalized" → eff_tx record ∈ OUTCOMES).
  { intros Hf. unfold phase_of in Hlife. rewrite Hf in Hlife. by inversion Hlife. }
  pose proof (wrote_writes (eff_id record) row (occurred_at record) n s En) as Hw.
  pose proof (params_row_ok _ _ _ Hp eq_refl Hv Hfin) as Hrow.
  destruct (effect_params_Ok _ _ Hp) as (m & c & -> & _).
  split.
  - eapply writes_ok; [done|exact Hw|done|by apply key_taken_false].
  - eapply writes_progress; [done|exact Hw| |by rewrite Hnone].
    unfold phase. by rewrite Hnone.
Qed.
(** ** Finalization *)

Lemma finalize_Ok intent record s s' b :
  finalize_external_effect intent record s = (s', Ok b) →
  eff_id record = intent ∧ eff_state record = "finalized" ∧
  if b then ∃ row current n, effect_params record = Ok row ∧ effects s !! intent = Some current
    ∧ finalizable record current = true ∧ key_taken intent (eff_pid record) (eff_key record) s = false
    ∧ ledger s = Some n ∧ s' = wrote intent row (occurred_at record) n s
  else s' = s.
Proof.
  unfold finalize_external_effect. intros (u & s1 & E1 & E)%M_bind_Ok. unfold lift_res in E1.
  injection E1 as <- Hid%raise_if_Ok%negb_false_iff%String.eqb_eq.
  apply M_bind_Ok in E as (u1 & s1 & E1 & E). injection E1 as <- Hfin%raise_if_Ok%negb_false_iff%String.eqb_eq.
  subst intent. split; [done|]. split; [done|].
  apply M_bind_Ok in E as (full & s1 & E1 & E). injection E1 as <- _.
  apply M_bind_Ok in E as (u2 & s1 & E1 & E). injection E1 as <- _. rewrite effect_unit_Ok in E. res_simpl.
  match type of E with context [match effects ?x !! _ with _ => _ end] => destruct (effects x !! eff_id record) as [current|] eqn:Ec end; [|by res_simpl].
  destruct (finalizable record current) eqn:Ef; cbn [negb] in E; [|by res_simpl].
  res_simpl. match goal with H : _append_external_effect_transition _ _ _ _ _ = _ |- _ => apply append_Ok in H as (n & En & -> & Ht & ->) end.
  match goal with H : effect_params _ = Ok _ |- _ => pose proof H as Hp; apply effect_params_Ok in H as (m & c & -> & _) end.
  eexists _, current, n. by split_and!.
Qed.

Lemma finalize_Err intent record s s' e : finalize_external_effect intent record s = (s', Err e) → s' = s.
Proof.
  unfold finalize_external_effect, mbind at 1, M_bind at 1, lift_res at 1. destruct (raise_if _ _) as [[]|]; [|by intros [= <- _]].
  unfold mbind at 1, M_bind at 1, lift_res at 1. destruct (raise_if _ _) as [[]|]; [|by intros [= <- _]].
  unfold mbind at 1, M_bind at 1, lift_res at 1. destruct (retention_is_full record) as [full|]; [|by intros [= <- _]].
  unfold mbind at 1, M_bind at 1, lift_res at 1. destruct (raise_if _ _) as [[]|]; [|by intros [= <- _]].
  apply unit_Err_same. keep.
Qed.

Lemma finalizable_spec record row : finalizable record row = true →
  eff_pid row = eff_pid record ∧ eff_state row = "pending".
Proof.
  unfold finalizable. rewrite !andb_true_iff, !String.eqb_eq. tauto.
Qed.

Lemma finalize_advance intent record :
  effect_validate record = Ok tt → eff_tx record ∈ OUTCOMES →
  keeps effect_advance (finalize_external_effect intent record).
Proof.
  intros Hv Htx s s' [[]|e] E.
  3: { apply finalize_Err in E as ->. reflexivity. }
  2: { apply finalize_Ok in E as (_ & _ & ->). reflexivity. }
  intros Hs. apply finalize_Ok in E as (Hid & Hst & row & current & n & Hp & Hc & Hfin & Hkey & En & ->).
  apply finalizable_spec in Hfin as [Hpid Hpend].
  pose proof (wrote_writes intent row (occurred_at record) n s En) as Hw.
  pose proof (params_row_ok _ _ _ Hp Hid Hv (fun _ => Htx)) as Hrow.
  destruct (effect_params_Ok _ _ Hp) as (m & c & -> & _).
  split.
  - eapply writes_ok; [done|exact Hw|done|by apply key_taken_false].
  - eapply writes_progress; [done|exact Hw| |].
    + unfold phase, phase_of. rewrite Hc. cbn. rewrite Hpend, Hst. by constructor.
    + rewrite Hc. intros r0 [= <-]. by rewrite Hpend.
Qed.

(** ** Transitions *)

Definition transitioned (row : ExternalEffectRecord) (tx : string) (m c : Payload) (updated : string)
    : ExternalEffectRecord :=
  with_payloads m c updated (with_transaction (eff_state row) tx (eff_record row) (eff_key row) row).

Lemma effect_transition_Ok id expected tx metadata receipt updated s s' b :
  effects_ok s → transition_external_effect id expected tx metadata receipt updated s = (s', Ok b) →
  if b then ∃ row m c n, effects s !! id = Some row ∧ eff_tx row ∈ fromkeys expected ∧ eff_tier row = "full"
    ∧ json_column str_other (or_payload metadata (eff_metadata row)) = Ok m
    ∧ json_column str_other (or_payload receipt (eff_receipt row)) = Ok c
    ∧ ledger s = Some n ∧ s' = wrote id (transitioned row tx m c updated) updated n s
  else s' = s ∧ ∀ row, effects s !! id = Some row → eff_tx row ∉ fromkeys expected.
Proof.
  intros Hs. unfold transition_external_effect. intros E. res_simpl. rewrite effect_unit_Ok in E. res_simpl.
  match type of E with context [match effects ?x !! _ with _ => _ end] => destruct (effects x !! id) as [row|] eqn:Er end; [|by res_simpl].
  pose proof (ek_row _ Hs _ _ Er) as Hrow. rewrite (decode_effect row) in E by apply Hrow. rewrite (lift_ok_bind _ _ _ _ eq_refl) in E.
  destruct (bool_decide (eff_tx row ∈ fromkeys expected)) eqn:Eb; cbn [negb] in E.
  2: { res_simpl. split; [done|]. intros ? [= <-]. by apply bool_decide_eq_false in Eb. }
  apply bool_decide_eq_true in Eb. rewrite (retention_validated row) in E by apply Hrow. rewrite (lift_ok_bind _ _ _ _ eq_refl) in E.
  res_simpl. match goal with H : _append_external_effect_transition _ _ _ _ _ = _ |- _ => apply append_Ok in H as (n & En & -> & Ht & ->) end.
  match goal with H : String.eqb _ "full" = true |- _ => apply String.eqb_eq in H as Hfull end.
  eexists row, _, _, n. by split_and!.
Qed.

Lemma transition_Err id expected tx metadata receipt updated s s' e :
  transition_external_effect id expected tx metadata receipt updated s = (s', Err e) → s' = s.
Proof.
  unfold transition_external_effect, mbind at 1, M_bind at 1, lift_res at 1. destruct (raise_if _ _) as [[]|]; [|by intros [= <- _]].
  apply unit_Err_same. keep.
Qed.

(** The transitions the evidence layer makes: along the life of a pending
    effect, and none that changes an outcome. *)
Definition lawful (expected : list string) (tx : string) : Prop :=
  ∀ x, x ∈ fromkeys expected →
    life_step (Some ("pending", x)) ("pending", tx) ∧ (x ∈ OUTCOMES → x = tx)
    ∧ tx ∈ _EXTERNAL_EFFECT_TRANSACTION_STATES.

Lemma validate_tx r tx m c u : effect_validate r = Ok tt → tx ∈ _EXTERNAL_EFFECT_TRANSACTION_STATES →
  effect_validate (transitioned r tx m c u) = Ok tt.
Proof.
  unfold effect_validate. intros Hv Htx. cbn. apply bind_Ok in Hv as ([] & H1 & Hv). apply bind_Ok in Hv as ([] & _ & Hv).
  rewrite H1, (bool_decide_eq_true_2 _ Htx). exact Hv.
Qed.

Lemma valid_state r : effect_validate r = Ok tt → eff_state r = "pending" ∨ eff_state r = "finalized".
Proof.
  unfold effect_validate. intros ([] & E%raise_if_Ok%negb_false_iff%bool_decide_eq_true & _)%bind_Ok.
  unfold _EXTERNAL_EFFECT_STATES in E. set_solver.
Qed.

Lemma transition_advance id expected tx metadata receipt updated :
  lawful expected tx → keeps effect_advance (transition_external_effect id expected tx metadata receipt updated).
Proof.
  intros Hlaw s s' r E Hs. revert E. destruct r as [[]|e]; intros E.
  3: { apply transition_Err in E as ->. by apply (reflexivity (R := effect_advance)). }
  2: { apply effect_transition_Ok in E as (-> & _); [|done]. by apply (reflexivity (R := effect_advance)). }
  apply effect_transition_Ok in E as (row & m & c & n & Hr & Hin & _ & Hm & Hc & En & ->); [|done].
  destruct (Hlaw _ Hin) as (Hstep & Hout & Hvtx). pose proof (ek_row _ Hs _ _ Hr) as Hrow.
  set (new := transitioned row tx m c updated). pose proof (wrote_writes id new updated n s En) as Hw.
  assert (Hfinal : eff_state row = "finalized" → eff_tx row = tx) by (intros Hf; by apply Hout, Hrow).
  split.
  - eapply writes_ok; [done|exact Hw| |].
    + split; cbn; [apply Hrow|apply validate_tx; [apply Hrow|done]| |by eapply json_column_stable|by eapply json_column_stable].
      intros Hf. rewrite <-Hfinal by done. by apply Hrow.
    + intros j r' k Hj Hp Hk Hk'. by eapply (ek_key _ Hs).
  - eapply writes_progress; [done|exact Hw| |].
    + unfold phase, phase_of. rewrite Hr. cbn. destruct (valid_state row) as [Hp|Hf]; [apply Hrow|by rewrite Hp|].
      rewrite (Hfinal Hf), Hf. apply life_settled.
    + rewrite Hr. intros r0 [= <-] Hf. unfold frozen. cbn. split_and!; try done. symmetry. by apply Hfinal.
Qed.

(** ** Abandonment *)

Lemma delete_Ok id s s' b :
  delete_external_effect_intent id s = (s', Ok b) →
  if b then ∃ row, effects s !! id = Some row ∧ eff_state row = "pending" ∧ s' = set_effects (delete id) s else s' = s.
Proof.
  unfold delete_external_effect_intent. destruct (effects s !! id) as [row|]; [|by intros [= <- <-]].
  destruct (abandonable row) eqn:Ea; intros [= <- <-]; [|done]. exists row. split; [done|]. split; [|done].
  unfold abandonable in Ea. rewrite !andb_true_iff, String.eqb_eq in Ea. tauto.
Qed.

Lemma delete_advance id : keeps (advances true) (delete_external_effect_intent id).
Proof.
  intros s s' [[]|e] E Hs.
  3: { exfalso. revert E. unfold delete_external_effect_intent. destruct (effects s !! id); [destruct (abandonable _)|]; done. }
  2: { apply delete_Ok in E as ->. by apply (reflexivity (R := advances true)). }
  apply delete_Ok in E as (row & Hr & Hp & ->). split.
  - split; cbn.
    + intros i r [_ Hi]%lookup_delete_Some. by apply (ek_row _ Hs).
    + intros i j r r' k [_ Hi]%lookup_delete_Some [_ Hj]%lookup_delete_Some. by apply (ek_key _ Hs).
    + apply (ek_ledger _ Hs).
    + intros i r [_ Hi]%lookup_delete_Some. apply (ek_newest _ Hs _ _ Hi).
    + apply (ek_usage _ Hs).
  - split; cbn.
    + done.
    + intros n ->. by exists n.
    + apply rtc_once. unfold lives_of. cbn. rewrite fmap_delete. apply (lives_drop true (lives_of s) id (eff_tx row)); [done|]. cbn.
      rewrite lookup_fmap, Hr. cbn. unfold phase_of. by rewrite Hp.
    + intros i r Hi Hf. exists r. split; [|done]. rewrite lookup_delete_ne; [done|]. intros <-.
      rewrite Hr in Hi. injection Hi as <-. congruence.
    + intros n i r' _ [_ Hi]%lookup_delete_Some. by left.
Qed.
End Updates.

#[export] Hint Resolve mem_modify_effects mem_modify_ledger mem_modify_transitions mem_modify_audit mem_append : steps.
