(* ===== verification/EffectSettlement.v ===== *)
(** * Settling an effect with its reservations

    The second half of a recovery: the conditional update of the effect, the
    capability uses and the resource envelopes reserved for it, the ledger entry
    and the audit row, in one transaction.  Stated on every branch. *)

From S2P Require Import Prelude FiniteSums PyStr PyVal PyEnum ProcessState ProcessModel ProcessStore CapabilityModel AuthorityRules CapabilityEvaluator ResourceTables ResourceManager JsonColumn CapabilityTables JsonEquality CapabilityEvolution CapabilityOperations StoreSteps EffectModel EffectTables EffectLedger EffectInvariant EffectUpdates.
From stdpp Require Import sorting.

(** ** One reservation *)

(** The capability tables after one reservation was given back, or kept. *)
Definition use_restored (r now : string) (u : UseReservation) (row : Capability) (c : CStore) : CStore :=
  set_uses <[r := use_settled UseStatus.restored now u]> (set_caps <[use_cap u := give_uses (use_count u) row]> c).

Definition use_kept (r now : string) (u : UseReservation) (c : CStore) : CStore :=
  if is_reserved u then set_uses <[r := use_settled UseStatus.committed now u]> c else c.

Lemma restore_use_Ok actor contract r now c c' v :
  _restore_external_effect_capability_reservation actor contract r now c = (c', Ok v) →
  ∃ u row, use_rows c !! r = Some u ∧ use_status u = UseStatus.reserved ∧ bound_to actor contract u = true
    ∧ (1 <= use_count u)%Z ∧ cap_rows c !! use_cap u = Some row ∧ restorable row = true
    ∧ c' = use_restored r now u row c.
Proof.
  unfold _restore_external_effect_capability_reservation. intros E.
  apply M_bind_Ok in E as (s0 & s1 & [= <- <-] & E). apply M_bind_Ok in E as (u & s1 & E1 & E).
  injection E1 as <- Hu%of_option_Ok. apply M_bind_Ok in E as ([] & s1 & E1 & E).
  injection E1 as <- Hb%raise_if_Ok%negb_false_iff. apply andb_true_iff in Hb as [Hres Hbound].
  apply bool_decide_eq_true in Hres. apply M_bind_Ok in E as (count & s1 & E1 & E). injection E1 as <- Hcount.
  assert (count = use_count u ∧ (1 <= use_count u)%Z) as [-> Hpos].
  { revert Hcount. unfold persisted_use_count, _positive_capability_use_count.
    destruct (use_count u <? 1)%Z eqn:El; cbn; [done|]. intros [= <-]. split; [done|lia]. }
  apply M_bind_Ok in E as (restored & s1 & E1 & E).
  destruct (cap_update_run (use_cap u) restorable (give_uses (use_count u)) c) as [(row & Hr & Hre & E2)|E2];
    rewrite E2 in E1; injection E1 as <- <-; [|by res_simpl].
  cbn in E. apply M_bind_Ok in E as ([] & s1 & E1 & E). injection E1 as <-. apply M_bind_Ok in E as (changed & s1 & E1 & E).
  unfold settle_use, update_use_where in E1. cbn in E1. rewrite Hu in E1. unfold is_reserved in E1.
  rewrite bool_decide_eq_true_2 in E1 by done. injection E1 as <- <-. injection E as <- _.
  by exists u, row.
Qed.

Lemma commit_use_Ok actor contract r now c c' v :
  _commit_external_effect_capability_reservation actor contract r now c = (c', Ok v) →
  ∃ u, use_rows c !! r = Some u ∧ use_status u ∈ [UseStatus.reserved; UseStatus.committed]
    ∧ bound_to actor contract u = true ∧ c' = use_kept r now u c.
Proof.
  unfold _commit_external_effect_capability_reservation. intros E.
  apply M_bind_Ok in E as (s0 & s1 & [= <- <-] & E). apply M_bind_Ok in E as (u & s1 & E1 & E).
  injection E1 as <- Hu%of_option_Ok. apply M_bind_Ok in E as ([] & s1 & E1 & E).
  injection E1 as <- Hb%raise_if_Ok%negb_false_iff. apply andb_true_iff in Hb as [Hbound Hst%bool_decide_eq_true].
  exists u. split; [done|]. split; [done|]. split; [done|]. unfold use_kept.
  destruct (is_reserved u) eqn:Er; cbn in E; [|by injection E as <- _].
  apply M_bind_Ok in E as (changed & s1 & E1 & E). unfold settle_use, update_use_where in E1. rewrite Hu, Er in E1.
  injection E1 as <- <-. by injection E as <- _.
Qed.

(** *** What a rollback leaves alone *)

Definition same_cmem (c c' : CStore) : Prop := takeover (procs c') = takeover (procs c) ∧ tripped c' = tripped c.

#[export] Instance same_cmem_preorder : PreOrder same_cmem.
Proof. split; [done|]. unfold same_cmem. intros a b c ??. destruct_and!. split; congruence. Qed.

Lemma cmem_update id clause f : keeps same_cmem (update_where id clause f).
Proof. intros c c' r E. destruct (cap_update_run id clause f c) as [(row & _ & _ & E1)|E1]; rewrite E1 in E; by injection E as <- _. Qed.

Lemma cmem_settle r st now : keeps same_cmem (settle_use r st now).
Proof.
  intros c c' x. unfold settle_use, update_use_where. destruct (use_rows c !! r); [destruct (is_reserved _)|]; by intros [= <- _].
Qed.
#[local] Hint Resolve cmem_update cmem_settle : steps.

Lemma cmem_restore_use actor contract r now :
  keeps same_cmem (_restore_external_effect_capability_reservation actor contract r now).
Proof. unfold _restore_external_effect_capability_reservation. keep. Qed.

Lemma cmem_commit_use actor contract r now :
  keeps same_cmem (_commit_external_effect_capability_reservation actor contract r now).
Proof. unfold _commit_external_effect_capability_reservation. keep. Qed.

Lemma mem_on_caps {A} (m : M CStore A) : keeps same_cmem m → keeps same_memory (on_caps m).
Proof. intros Hm s s' r. unfold on_caps. destruct (m (caps s)) as [c x] eqn:E. intros [= <- _]. by apply Hm in E. Qed.

(** ** All reservations of an effect *)

(** Uses the listed reservations took from one capability. *)
Definition held_by (c : CStore) (ids : list string) (cap : string) : Z :=
  zsum (fun r => match use_rows c !! r with
                 | Some u => if String.eqb (use_cap u) cap then use_count u else 0%Z | None => 0%Z end) ids.

(** The reservation was made for the protected operation of the effect. *)
Definition reserved_for (effect : ExternalEffectRecord) (u : UseReservation) : Prop :=
  ∃ actor contract, _external_effect_reservation_identity effect = Ok (actor, contract)
    ∧ bound_to actor contract u = true.

(** Everything but the uses that were converged. *)
Record converged (effect : ExternalEffectRecord) (not_started : bool) (now : string) (ids : list string)
    (c c' : CStore) : Prop := {
  cv_procs : procs c' = procs c;
  cv_use r u : use_rows c !! r = Some u → use_rows c' !! r = Some
    (if decide (r ∈ ids)
     then (if not_started then use_settled UseStatus.restored now u
           else if is_reserved u then use_settled UseStatus.committed now u else u)
     else u);
  cv_listed r : r ∈ ids → ∃ u, use_rows c !! r = Some u ∧ reserved_for effect u
    ∧ use_status u ∈ (if not_started then [UseStatus.reserved] else [UseStatus.reserved; UseStatus.committed]);
  cv_none r : use_rows c !! r = None → use_rows c' !! r = None;
  cv_cap i row : cap_rows c !! i = Some row → ∃ row', cap_rows c' !! i = Some row' ∧ same_grant row row'
    ∧ cap_uses_remaining row' = (fun n => (n + if not_started then held_by c ids i else 0)%Z) <$> cap_uses_remaining row;
}.

Lemma held_by_same c c' ids i :
  (∀ r, r ∈ ids → use_rows c' !! r = use_rows c !! r) → held_by c' ids i = held_by c ids i.
Proof. intros Hs. apply zsum_ext. intros r Hr. by rewrite Hs. Qed.

Lemma give_uses_grant n row : restorable row = true →
  same_grant row (give_uses n row) ∧ cap_uses_remaining (give_uses n row) = (fun u => (u + n)%Z) <$> cap_uses_remaining row.
Proof.
  unfold restorable, give_uses. intros [[u Hu]%bool_decide_eq_true _]%andb_true_iff. rewrite Hu. split; [|done].
  eexists _, _, _. split; [reflexivity|]. rewrite Hu. done.
Qed.

Lemma converged_nil effect b now c : converged effect b now [] c c.
Proof.
  split; [done| | |done|].
  - intros r u Hu. by rewrite decide_False by apply not_elem_of_nil.
  - by intros r Hr%elem_of_nil.
  - intros i row Hr. exists row. split; [done|]. split; [apply same_grant_refl|].
    destruct (cap_uses_remaining row); cbn; [|done]. f_equal. destruct b; cbn; lia.
Qed.

Lemma converged_restore effect now r u row ids c c' :
  r ∉ ids → reserved_for effect u → use_rows c !! r = Some u → use_status u = UseStatus.reserved →
  cap_rows c !! use_cap u = Some row → restorable row = true →
  converged effect true now ids (use_restored r now u row c) c' → converged effect true now (r :: ids) c c'.
Proof.
  intros Hni Hfor Hu Hst Hrow Hre [Hp Huse Hlisted Hnone Hcap].
  set (c1 := use_restored r now u row c) in *.
  assert (Ho : ∀ x, x ≠ r → use_rows c1 !! x = use_rows c !! x) by (intros x Hx; by apply lookup_insert_ne).
  assert (Hr1 : use_rows c1 !! r = Some (use_settled UseStatus.restored now u)) by apply lookup_insert_eq.
  assert (Hheld : ∀ i, held_by c1 ids i = held_by c ids i).
  { intros i. apply held_by_same. intros x Hx. apply Ho. intros ->. done. }
  split.
  - exact Hp.
  - intros x y Hx. destruct (decide (x = r)) as [->|Hne].
    + rewrite decide_True by left. rewrite Hu in Hx. injection Hx as <-. specialize (Huse _ _ Hr1).
      by rewrite decide_False in Huse.
    + rewrite <-Ho in Hx by done. specialize (Huse _ _ Hx). rewrite Huse. f_equal.
      destruct (decide (x ∈ ids)) as [Hi|Hi]; [by rewrite decide_True by (by right)|].
      rewrite decide_False; [done|]. by intros [?|?]%elem_of_cons.
  - intros x [->|Hx]%elem_of_cons; [exists u; split; [done|]; split; [done|]; rewrite Hst; left|].
    destruct (Hlisted x Hx) as (y & Hy & Hs). rewrite Ho in Hy by (intros ->; done). exists y. done.
  - intros x Hx. apply Hnone. rewrite Ho; [done|]. congruence.
  - intros i x Hx. cbn [held_by zsum]. rewrite Hu.
    destruct (String.eqb_spec (use_cap u) i) as [<-|Hne].
    + rewrite Hrow in Hx. injection Hx as <-. destruct (give_uses_grant (use_count u) row Hre) as [Hg Hn].
      destruct (Hcap (use_cap u) (give_uses (use_count u) row)) as (row' & Hr' & Hg' & Hn'); [apply lookup_insert_eq|].
      exists row'. split; [done|]. split; [by eapply same_grant_trans|]. rewrite Hn', Hn, Hheld.
      destruct (cap_uses_remaining row); cbn; [|done]. f_equal. unfold held_by. lia.
    + destruct (Hcap i x) as (row' & Hr' & Hg' & Hn'); [cbn; by rewrite lookup_insert_ne|].
      exists row'. split; [done|]. split; [done|]. rewrite Hn', Hheld.
      destruct (cap_uses_remaining x); cbn; [|done]. done.
Qed.

Lemma converged_keep effect now r u ids c c' :
  r ∉ ids → reserved_for effect u → use_rows c !! r = Some u → use_status u ∈ [UseStatus.reserved; UseStatus.committed] →
  converged effect false now ids (use_kept r now u c) c' → converged effect false now (r :: ids) c c'.
Proof.
  intros Hni Hfor Hu Hst [Hp Huse Hlisted Hnone Hcap]. set (c1 := use_kept r now u c) in *.
  assert (Ho : ∀ x, x ≠ r → use_rows c1 !! x = use_rows c !! x).
  { intros x Hx. unfold c1, use_kept. destruct (is_reserved u); [by apply lookup_insert_ne|done]. }
  assert (Hr1 : use_rows c1 !! r = Some (if is_reserved u then use_settled UseStatus.committed now u else u)).
  { unfold c1, use_kept. destruct (is_reserved u); [apply lookup_insert_eq|done]. }
  assert (Hc1 : cap_rows c1 = cap_rows c ∧ procs c1 = procs c) by (unfold c1, use_kept; by destruct (is_reserved u)).
  split.
  - rewrite Hp. apply Hc1.
  - intros x y Hx. destruct (decide (x = r)) as [->|Hne].
    + rewrite decide_True by left. rewrite Hu in Hx. injection Hx as <-. specialize (Huse _ _ Hr1).
      by rewrite decide_False in Huse.
    + rewrite <-Ho in Hx by done. specialize (Huse _ _ Hx). rewrite Huse. f_equal.
      destruct (decide (x ∈ ids)) as [Hi|Hi]; [by rewrite decide_True by (by right)|].
      rewrite decide_False; [done|]. by intros [?|?]%elem_of_cons.
  - intros x [->|Hx]%elem_of_cons; [by exists u|].
    destruct (Hlisted x Hx) as (y & Hy & Hs). rewrite Ho in Hy by (intros ->; done). exists y. done.
  - intros x Hx. apply Hnone. rewrite Ho; [done|]. congruence.
  - intros i x Hx. apply Hcap. by rewrite (proj1 Hc1).
Qed.

Definition set_usage_rows (m : gmap string ResourceUsageReservation) (s : EStore) : EStore :=
  mkEStore (caps s) (capacity s) m (effects s) (ledger s) (transitions s) (run_epochs s)
    (op_rows s) (op_links s) (audits s) (notes s).

Section Settlement.
Context `{EffectHost}.

Lemma converge_uses_Ok effect b now ids s s' v :
  NoDup ids → converge_uses effect b now ids s = (s', Ok v) →
  ∃ c', s' = set_ecaps c' s ∧ converged effect b now ids (caps s) c'.
Proof.
  intros Hnd. revert s. induction Hnd as [|r ids Hni Hnd IH]; intros s E; cbn in E.
  - injection E as <- _. exists (caps s). split; [by destruct s|apply converged_nil].
  - apply M_bind_Ok in E as ([actor contract] & s1 & E1 & E). injection E1 as <- Hid.
    apply M_bind_Ok in E as (w & s1 & E1 & E). unfold on_caps in E1. cbn [fst snd] in E1.
    destruct b.
    + destruct (_restore_external_effect_capability_reservation _ _ _ _ _) as [c1 x] eqn:Ec. injection E1 as <- ->.
      apply restore_use_Ok in Ec as (u & row & Hu & Hst & Hb & _ & Hrow & Hre & ->).
      destruct (IH _ E) as (c' & -> & Hc). exists c'. split; [done|].
      eapply converged_restore; [done| |done..]. by exists actor, contract.
    + destruct (_commit_external_effect_capability_reservation _ _ _ _ _) as [c1 x] eqn:Ec. injection E1 as <- ->.
      apply commit_use_Ok in Ec as (u & Hu & Hst & Hb & ->).
      destruct (IH _ E) as (c' & -> & Hc). exists c'. split; [done|].
      eapply converged_keep; [done| |done..]. by exists actor, contract.
Qed.

Lemma mem_converge effect b now ids : keeps same_memory (converge_uses effect b now ids).
Proof.
  induction ids as [|r ids IH]; cbn [converge_uses]; [keep_leaf|].
  apply keeps_bind; [apply _|keep_leaf|intros k]. apply keeps_bind; [apply _| |intros _; exact IH].
  apply mem_on_caps. destruct b; [apply cmem_restore_use|apply cmem_commit_use].
Qed.

(** ** Envelopes *)

(** [SET status = 'released', settled_usage_json = dumps(ResourceUsage())]. *)
Definition envelope_released (now : string) (r : ResourceUsageReservation) : ResourceUsageReservation :=
  {| reservation_id := reservation_id r; ur_pid := ur_pid r; ur_usage := ur_usage r; ur_status := UR_RELEASED;
     reserved_by := reserved_by r; ur_reason := ur_reason r; settled_usage := Some usage_zero;
     ur_created_at := ur_created_at r; ur_updated_at := now |}.

Lemma settle_envelope_Ok id now s s' b :
  on_resources (settle_resource_usage_reservation id UR_RELEASED usage_zero now) s = (s', Ok b) →
  if b then ∃ r, usage_rows s !! id = Some r ∧ is_active r = true
    ∧ s' = set_usage_rows (<[id := envelope_released now r]> (usage_rows s)) s
  else s' = s.
Proof.
  unfold on_resources, settle_resource_usage_reservation. cbn [usage_reservations resource_view].
  assert (Hid : ∀ t, base t = procs (caps s) → reservations t = capacity s → evidence t = notes s →
    with_resources t s = set_usage_rows (usage_reservations t) s).
  { intros [b0 r0 u0 e0 v0]. destruct s as [[]]. cbn. by intros -> -> ->. }
  destruct (usage_rows s !! id) as [r|]; [destruct (is_active r) eqn:Ea|]; intros [= <- <-].
  - exists r. split; [done|]. split; [done|]. by rewrite Hid.
  - destruct s as [[]]. done.
  - destruct s as [[]]. done.
Qed.

Lemma mem_settle_envelope id st u now : keeps same_memory (on_resources (settle_resource_usage_reservation id st u now)).
Proof.
  intros s s' x. unfold on_resources, settle_resource_usage_reservation.
  destruct (usage_reservations _ !! id) as [r|]; [destruct (is_active r)|]; by intros [= <- _].
Qed.
#[local] Hint Resolve mem_settle_envelope : steps.

Lemma release_envelopes_Ok rows now s s' released :
  NoDup (map reservation_id rows) → release_envelopes rows now s = (s', Ok released) →
  released = map reservation_id rows ∧ ∃ m, s' = set_usage_rows m s
    ∧ ∀ id, m !! id = if decide (id ∈ released) then envelope_released now <$> usage_rows s !! id else usage_rows s !! id.
Proof.
  revert s released. induction rows as [|row rows IH]; intros s released Hnd E; cbn in E.
  { injection E as <- <-. split; [done|]. exists (usage_rows s). split; [by destruct s|].
    intros id. by rewrite decide_False by apply not_elem_of_nil. }
  cbn in Hnd. apply NoDup_cons in Hnd as [Hni Hnd].
  apply M_bind_Ok in E as (w & s1 & E1 & E). injection E1 as <- _. apply M_bind_Ok in E as (changed & s1 & E1 & E).
  apply settle_envelope_Ok in E1. destruct changed; [|by apply M_bind_Ok in E as (? & ? & [=] & _)].
  destruct E1 as (r & Hr & _ & ->). apply M_bind_Ok in E as (w' & s1 & E1 & E). injection E1 as <- _.
  apply M_bind_Ok in E as (rest & s1 & E1 & E). injection E as <- <-.
  destruct (IH _ rest Hnd E1) as (-> & m & -> & Hm). split; [done|]. exists m. split; [done|].
  intros id. rewrite Hm. cbn [usage_rows set_usage_rows map].
  destruct (decide (id = reservation_id row)) as [->|Hne].
  - rewrite decide_False by done. rewrite decide_True by left. by rewrite lookup_insert_eq, Hr.
  - rewrite lookup_insert_ne by done. destruct (decide (id ∈ map reservation_id rows)) as [Hi|Hi].
    + by rewrite decide_True by (by right).
    + rewrite decide_False; [done|]. by intros [?|?]%elem_of_cons.
Qed.

Lemma mem_release_envelopes rows now : keeps same_memory (release_envelopes rows now).
Proof. induction rows as [|row rows IH]; cbn [release_envelopes]; keep. Qed.

Lemma envelopes_elem id s r : r ∈ envelopes_of id s ↔ reserved_by r = id ∧ ∃ k, usage_rows s !! k = Some r.
Proof.
  unfold envelopes_of. rewrite merge_sort_Permutation, list_elem_of_In, filter_In, String.eqb_eq, <-list_elem_of_In.
  rewrite (list_elem_of_fmap snd). split.
  - intros [([k x] & -> & Hk%elem_of_map_to_list) Hb]. split; [done|by exists k].
  - intros [Hb [k Hk]]. split; [|done]. exists (k, r). split; [done|by apply elem_of_map_to_list].
Qed.

Lemma envelopes_nodup id s : usage_keyed s → NoDup (map reservation_id (envelopes_of id s)).
Proof.
  intros Hk. unfold envelopes_of. rewrite (merge_sort_Permutation envelope_le).
  assert (map reservation_id (List.filter (fun r => String.eqb (reserved_by r) id) (map snd (map_to_list (usage_rows s))))
    `sublist_of` map fst (map_to_list (usage_rows s))) as Hsub; [|eapply sublist_NoDup; [apply (NoDup_fst_map_to_list (usage_rows s))|exact Hsub]].
  assert (∀ kr, kr ∈ map_to_list (usage_rows s) → reservation_id (snd kr) = fst kr) as Hall.
  { intros [k r] Hkr%elem_of_map_to_list. by apply Hk. }
  induction (map_to_list (usage_rows s)) as [|[k r] l IH]; cbn; [constructor|].
  assert (reservation_id r = k) as <- by (apply (Hall (k, r)); left).
  destruct (String.eqb (reserved_by r) id); cbn; [apply sublist_skip|apply sublist_cons]; apply IH; intros; apply Hall; by right.
Qed.

Lemma release_Ok effect now release s s' released :
  usage_keyed s → _release_external_effect_resource_reservations effect now release s = (s', Ok released) →
  (∀ k r, usage_rows s !! k = Some r → reserved_by r = eff_id effect → ur_pid r = eff_pid effect)
  ∧ released = (if release then map reservation_id (envelopes_of (eff_id effect) s) else [])
  ∧ ∃ m, s' = set_usage_rows m s ∧ (∀ k, usage_rows s !! k = None → m !! k = None)
    ∧ ∀ k r, usage_rows s !! k = Some r → m !! k = Some
      (if release && String.eqb (reserved_by r) (eff_id effect) then envelope_released now r else r).
Proof.
  intros Hk E. unfold _release_external_effect_resource_reservations in E.
  apply M_bind_Ok in E as (rows & s1 & [= <- <-] & E). apply M_bind_Ok in E as (w & s1 & E1 & E).
  injection E1 as <- Hpid%raise_if_Ok. split.
  { intros k r Hr Hb. destruct (decide (ur_pid r = eff_pid effect)) as [|Hne]; [done|exfalso].
    assert (existsb (fun r0 => negb (String.eqb (ur_pid r0) (eff_pid effect))) (envelopes_of (eff_id effect) s) = true) as Hx;
      [|by rewrite Hx in Hpid].
    apply existsb_exists. exists r. split; [apply list_elem_of_In, envelopes_elem; split; [done|by exists k]|].
    by apply negb_true_iff, String.eqb_neq. }
  destruct release; cbn in E.
  2: { injection E as <- <-. split; [done|]. exists (usage_rows s). split; [by destruct s|]. done. }
  apply release_envelopes_Ok in E as (-> & m & -> & Hm); [|by apply envelopes_nodup]. split; [done|]. exists m. split; [done|].
  split; [intros k Hn; rewrite Hm, Hn; by destruct (decide _)|].
  intros k r Hr. rewrite Hm. cbn [andb]. destruct (String.eqb_spec (reserved_by r) (eff_id effect)) as [Hb|Hb].
  - rewrite decide_True; [by rewrite Hr|]. apply (list_elem_of_fmap reservation_id). exists r. split; [symmetry; by apply Hk|].
    apply envelopes_elem. split; [done|by exists k].
  - rewrite decide_False; [done|]. intros (r' & Hid & [Hb' [k' Hr']]%envelopes_elem)%(list_elem_of_fmap reservation_id).
    rewrite (Hk _ _ Hr') in Hid. subst k'. rewrite Hr in Hr'. congruence.
Qed.

Lemma mem_release effect now release : keeps same_memory (_release_external_effect_resource_reservations effect now release).
Proof.
  unfold _release_external_effect_resource_reservations. apply keeps_bind; [apply _|keep_leaf|intros rows].
  apply keeps_bind; [apply _|keep_leaf|intros _]. destruct release; cbn; [apply mem_release_envelopes|keep_leaf].
Qed.

(** ** The settlement *)

Definition settled_row (row : ExternalEffectRecord) (provider_state : string) (m c : Payload) (audit now : string)
    : ExternalEffectRecord :=
  with_payloads m c now
    (with_transaction "finalized" (settled_state provider_state)
       (Some (match eff_record row with Some r => r | None => audit end))
       (if String.eqb provider_state "not_started" then None else eff_key row) row).

(** The run fence of the request. *)
Definition fenced (row : ExternalEffectRecord) (run : option string) (epoch : option Z) (s : EStore) : Prop :=
  match run, epoch with Some r, Some e => in_run (eff_pid row) r e s = true | _, _ => True end.

(** What a request must look like. *)
Definition certified (id expected provider_state : string) (receipt : Payload) (audit : AuditRecord) : Prop :=
  expected ∈ RECOVERABLE_STATES ∧ provider_state ∈ PROVIDER_STATES
  ∧ (expected = "prepared" → provider_state = "not_started") ∧ receipt ≠ []
  ∧ aud_action audit = "external_effect.recovery_settled" ∧ aud_target audit = "external_effect:" +:+ id.

Lemma request_Ok id expected ps rc audit now run epoch st :
  _validate_external_effect_recovery_request id expected ps rc audit now run epoch = Ok st →
  certified id expected ps rc audit ∧ st = settled_state ps.
Proof.
  unfold _validate_external_effect_recovery_request. intros E.
  apply bind_Ok in E as (u1 & _ & E). apply bind_Ok in E as (u2 & H1%raise_if_Ok%negb_false_iff%bool_decide_eq_true & E).
  apply bind_Ok in E as (u3 & H2%raise_if_Ok%negb_false_iff%bool_decide_eq_true & E).
  apply bind_Ok in E as (u4 & H3%raise_if_Ok & E). apply bind_Ok in E as (u5 & H4%raise_if_Ok%bool_decide_eq_false & E).
  apply bind_Ok in E as (u6 & H5%raise_if_Ok%negb_false_iff & E). apply andb_true_iff in H5 as [H5%String.eqb_eq H6%String.eqb_eq].
  apply bind_Ok in E as (u7 & _ & E). apply bind_Ok in E as (u8 & _ & [= <-]).
  split; [|done]. split_and!; try done. intros ->. by apply negb_false_iff, String.eqb_eq in H3.
Qed.

Lemma load_Ok id expected run epoch s o :
  effects_ok s → _load_external_effect_recovery_candidate id expected run epoch s = Ok o →
  match o with
  | Some row => effects s !! id = Some row ∧ eff_state row = "pending" ∧ eff_tx row = expected
                ∧ eff_tier row = "full" ∧ fenced row run epoch s
  | None => ∀ row, effects s !! id = Some row → eff_state row = "pending" → eff_tx row = expected →
              ∃ r e, run = Some r ∧ epoch = Some e ∧ in_run (eff_pid row) r e s = false
  end.
Proof.
  intros Hs. unfold _load_external_effect_recovery_candidate. destruct (effects s !! id) as [row|] eqn:Er; [|by intros [= <-]].
  pose proof (ek_row _ Hs _ _ Er) as Hrow. rewrite (decode_effect row) by apply Hrow. rewrite res_bind_ok.
  destruct (String.eqb (eff_state row) "pending" && String.eqb (eff_tx row) expected) eqn:Eb; cbn [negb].
  2: { intros [= <-]. intros ? [= <-] Hp Ht. by rewrite Hp, Ht, !String.eqb_refl in Eb. }
  apply andb_true_iff in Eb as [Hp%String.eqb_eq Ht%String.eqb_eq].
  rewrite (retention_validated row) by apply Hrow. rewrite res_bind_ok. intros (u & Hf%raise_if_Ok%negb_false_iff%String.eqb_eq & E)%bind_Ok.
  unfold fenced. destruct run as [r|], epoch as [e|]; try (injection E as <-; by split_and!).
  destruct (in_run (eff_pid row) r e s) eqn:Ei; injection E as <-; [by split_and!|].
  intros ? [= <-] _ _. by exists r, e.
Qed.

Lemma update_candidate_Ok row expected ps settled md rc audit now s s' b :
  effects s !! eff_id row = Some row → eff_state row = "pending" → eff_tx row = expected → settled = settled_state ps →
  _update_external_effect_recovery_candidate row expected ps settled md rc audit now s = (s', Ok b) →
  b = true ∧ ∃ m c, json_column str_other md = Ok m ∧ json_column str_other rc = Ok c
    ∧ key_taken (eff_id row) (eff_pid row) (if String.eqb ps "not_started" then None else eff_key row) s = false
    ∧ s' = set_effects <[eff_id row := settled_row row ps m c audit now]> s.
Proof.
  intros Hr Hp Ht -> E. unfold _update_external_effect_recovery_candidate in E.
  apply M_bind_Ok in E as (m & s1 & E1 & E). injection E1 as <- Hm. apply M_bind_Ok in E as (c & s1 & E1 & E). injection E1 as <- Hc.
  apply M_bind_Ok in E as (s0 & s1 & [= <- <-] & E). rewrite Hr, Hp, Ht, !String.eqb_refl in E. cbn [andb] in E.
  apply M_bind_Ok in E as (u & s1 & E1 & E). injection E1 as <- Hk%raise_if_Ok.
  apply M_bind_Ok in E as (u' & s1 & E1 & E). injection E1 as <-. injection E as <- <-.
  split; [done|]. exists m, c. split_and!; try done. unfold settled_row. by destruct (eff_record row).
Qed.

Lemma mem_update_candidate row expected ps settled md rc audit now :
  keeps same_memory (_update_external_effect_recovery_candidate row expected ps settled md rc audit now).
Proof. unfold _update_external_effect_recovery_candidate. keep. Qed.

Lemma converge_Ok row ids ps now s s' restored committed released :
  NoDup ids → usage_keyed s →
  _converge_external_effect_recovery_reservations row ids ps now s = (s', Ok (restored, committed, released)) →
  let b := String.eqb ps "not_started" in
  restored = (if b then ids else []) ∧ committed = (if b then [] else ids)
  ∧ released = (if b then map reservation_id (envelopes_of (eff_id row) s) else [])
  ∧ (∀ k r, usage_rows s !! k = Some r → reserved_by r = eff_id row → ur_pid r = eff_pid row)
  ∧ ∃ c' m, converged row b now ids (caps s) c' ∧ s' = set_usage_rows m (set_ecaps c' s)
    ∧ (∀ k, usage_rows s !! k = None → m !! k = None) ∧ ∀ k r, usage_rows s !! k = Some r → m !! k = Some
        (if b && String.eqb (reserved_by r) (eff_id row) then envelope_released now r else r).
Proof.
  intros Hnd Hk E. unfold _converge_external_effect_recovery_reservations in E. cbv zeta in E.
  set (b := String.eqb ps "not_started") in *. apply M_bind_Ok in E as (u & s1 & E1 & E).
  apply converge_uses_Ok in E1 as (c' & -> & Hc); [|done]. apply M_bind_Ok in E as (rel & s2 & E2 & E).
  apply release_Ok in E2 as (Hpid & -> & m & -> & Hnone & Hm); [|exact Hk]. injection E as <- <- <- <-.
  split_and!; try done. by exists c', m.
Qed.

Lemma mem_converge_all row ids ps now :
  keeps same_memory (_converge_external_effect_recovery_reservations row ids ps now).
Proof.
  unfold _converge_external_effect_recovery_reservations. apply keeps_bind; [apply _|apply mem_converge|intros _].
  apply keeps_bind; [apply _|apply mem_release|intros released]. keep_leaf.
Qed.

Lemma mem_record_settlement id previous ps settled audit now a b c :
  keeps same_memory (_record_external_effect_recovery_settlement id previous ps settled audit now a b c).
Proof. unfold _record_external_effect_recovery_settlement, seeing. keep. Qed.

(** A settlement that raises leaves every table as it was. *)
Lemma settle_Err id expected ps md rc audit now run epoch s s' e :
  settle_external_effect_recovery id expected ps md rc audit now run epoch s = (s', Err e) → s' = s.
Proof.
  unfold settle_external_effect_recovery, mbind at 1, M_bind at 1, lift_res at 1.
  destruct (_validate_external_effect_recovery_request _ _ _ _ _ _ _ _) as [st|]; [|by intros [= <- _]].
  apply unit_Err_same. unfold seeing. apply keeps_bind; [apply _|keep_leaf|intros [current|]]; [|keep_leaf].
  apply keeps_bind; [apply _|keep_leaf|intros ids]. apply keeps_bind; [apply _|keep_leaf|intros _].
  apply keeps_bind; [apply _|apply mem_update_candidate|intros []]; cbn [negb]; [|keep_leaf].
  apply keeps_bind; [apply _|apply mem_converge_all|intros cv]. apply keeps_bind; [apply _|apply mem_record_settlement|intros st']. keep_leaf.
Qed.

(** The whole effect of a settlement. *)
Record settlement (id expected ps : string) (md rc : Payload) (audit : AuditRecord) (now : string)
    (run : option string) (epoch : option Z) (s s' : EStore) (row : ExternalEffectRecord) (ids : list string)
    (m c : Payload) (n : Z) (st : ExternalEffectRecoverySettlement) : Prop := {
  sm_request : certified id expected ps rc audit;
  sm_row : effects s !! id = Some row;
  sm_pending : eff_state row = "pending" ∧ eff_tx row = expected ∧ eff_tier row = "full";
  sm_fence : fenced row run epoch s;
  sm_ids : _external_effect_recovery_capability_reservation_ids row = Ok ids;
  sm_not_started : ps = "not_started" → _require_external_effect_globally_not_started row = Ok tt;
  sm_columns : json_column str_other md = Ok m ∧ json_column str_other rc = Ok c;
  sm_key : key_taken id (eff_pid row) (if String.eqb ps "not_started" then None else eff_key row) s = false;
  sm_effects : effects s' = <[id := settled_row row ps m c (aud_id audit) now]> (effects s);
  sm_ledger : ledger s = Some n ∧ ledger s' = Some (n + 1)%Z;
  sm_transitions : transitions s' = <[(n + 1)%Z := {| tr_effect := id; tr_state := "finalized";
      tr_tx := settled_state ps; tr_at := now |}]> (transitions s);
  sm_uses : converged row (String.eqb ps "not_started") now ids (caps s) (caps s');
  sm_no_envelope k : usage_rows s !! k = None → usage_rows s' !! k = None;
  sm_envelopes k r : usage_rows s !! k = Some r → usage_rows s' !! k = Some
      (if String.eqb ps "not_started" && String.eqb (reserved_by r) id then envelope_released now r else r);
  sm_audit : ∃ a, audits s' = audits s ++ [a] ∧ aud_id a = aud_id audit ∧ aud_action a = aud_action audit
      ∧ aud_target a = aud_target audit;
  sm_rest : capacity s' = capacity s ∧ run_epochs s' = run_epochs s ∧ op_rows s' = op_rows s
      ∧ op_links s' = op_links s ∧ notes s' = notes s;
  sm_result : stl_effect st = settled_row row ps m c (aud_id audit) now ∧ stl_provider_state st = ps
      ∧ stl_transition_seq st = (n + 1)%Z ∧ stl_audit st = aud_id audit
      ∧ stl_restored st = (if String.eqb ps "not_started" then ids else [])
      ∧ stl_committed st = (if String.eqb ps "not_started" then [] else ids);
}.

Lemma reservation_ids_nodup row ids :
  _external_effect_recovery_capability_reservation_ids row = Ok ids → NoDup ids.
Proof.
  unfold _external_effect_recovery_capability_reservation_ids.
  assert (∀ raw, (_ ← raise_if (negb (forallb is_text raw)) (ValidationError "external effect recovery capability reservations are invalid");
                  _ ← raise_if (negb (bool_decide (NoDup (texts raw)))) (ValidationError "external effect recovery capability reservations are duplicated");
                  Ok (texts raw)) = Ok ids → NoDup ids) as Hraw.
  { intros raw (u & _ & E)%bind_Ok. apply bind_Ok in E as (u' & Hn%raise_if_Ok%negb_false_iff%bool_decide_eq_true & [= <-]). done. }
  destruct (item_get _ _) as [[]|]; try done; try (intros [= <-]; constructor).
  destruct (dict_get_none _ _); try done; apply Hraw.
Qed.

Lemma settle_Ok id expected ps md rc audit now run epoch s s' o :
  effects_ok s →
  settle_external_effect_recovery id expected ps md rc audit now run epoch s = (s', Ok o) →
  match o with
  | None => s' = s
  | Some st => ∃ row ids m c n, settlement id expected ps md rc audit now run epoch s s' row ids m c n st
  end.
Proof.
  intros Hs E. pose proof (ek_usage _ Hs) as Hk. unfold settle_external_effect_recovery in E. apply M_bind_Ok in E as (st0 & s1 & E1 & E).
  injection E1 as <- (Hreq & ->)%request_Ok. rewrite effect_unit_Ok in E. apply M_bind_Ok in E as (cand & s1 & E1 & E).
  injection E1 as <- Hload%load_Ok; [|done]. destruct cand as [row|]; [|by injection E as <- <-].
  destruct Hload as (Hr & Hp & Ht & Htier & Hf). pose proof (er_id _ _ (ek_row _ Hs _ _ Hr)) as Hid. subst id.
  apply M_bind_Ok in E as (ids & s1 & E1 & E). injection E1 as <- Hids. apply M_bind_Ok in E as (u & s1 & E1 & E). injection E1 as <- Hns.
  apply M_bind_Ok in E as (changed & s1 & E1 & E).
  apply update_candidate_Ok in E1 as (-> & m & c & Hm & Hc & Hkey & ->); [|done..]. cbn [negb] in E.
  apply M_bind_Ok in E as ([[restored committed] released] & s2 & E2 & E).
  apply converge_Ok in E2 as (-> & -> & -> & Hpid & c' & us & Hcv & -> & Hunone & Hus); [|by eapply reservation_ids_nodup|exact Hk].
  apply M_bind_Ok in E as (st & s3 & E3 & E). injection E as <- <-. unfold _record_external_effect_recovery_settlement in E3.
  apply M_bind_Ok in E3 as (seq & s4 & E4 & E3). apply append_Ok in E4 as (n & En & -> & _ & ->).
  apply M_bind_Ok in E3 as (u' & s5 & E5 & E3). injection E5 as <-. apply M_bind_Ok in E3 as (found & s5 & E5 & E3).
  injection E5 as <- Hfound. unfold get_external_effect in Hfound. cbn [effects add_audit set_transitions set_ledger set_usage_rows set_ecaps set_effects] in Hfound.
  rewrite lookup_insert_eq in Hfound. apply bind_Ok in Hfound as (r & Hdec & [= <-]).
  apply M_bind_Ok in E3 as (eff & s5 & E5 & E3). injection E5 as <- <-. injection E3 as <- Hst.
  assert (r = settled_row row ps m c (aud_id audit) now) as ->.
  { revert Hdec. unfold _row_to_external_effect, _persisted_model_decode.
    destruct (effect_validate _) as [|x]; cbn; [by intros [= <-]|by destruct x]. }
  exists row, ids, m, c, n. split; try done.
  - intros ->. rewrite String.eqb_refl in Hns. by destruct u.
  - eexists. split; [reflexivity|done].
  - unfold mk_settlement in Hst. do 7 (apply bind_Ok in Hst as (? & _ & Hst)). by injection Hst as <-.
Qed.

Lemma settlement_writes id expected ps md rc audit now run epoch s s' row ids m c n st :
  settlement id expected ps md rc audit now run epoch s s' row ids m c n st →
  writes id (settled_row row ps m c (aud_id audit) now) s s'.
Proof.
  intros []. split; [done|]. split.
  - intros Hk k r Hr. destruct (usage_rows s !! k) as [r0|] eqn:E0; [|by rewrite sm_no_envelope0 in Hr].
    rewrite (sm_envelopes0 _ _ E0) in Hr. injection Hr as <-. apply Hk in E0. by destruct (_ && _).
  - exists n, now. by destruct sm_ledger0.
Qed.

Lemma settled_outcome ps : ps ∈ PROVIDER_STATES → settled_state ps ∈ OUTCOMES ∧ settled_state ps ∈ _EXTERNAL_EFFECT_TRANSACTION_STATES.
Proof.
  unfold PROVIDER_STATES. intros Hp. repeat (apply elem_of_cons in Hp as [->|Hp]); [..|by apply elem_of_nil in Hp];
    (split; apply (bool_decide_unpack _); by vm_compute).
Qed.

Lemma validate_settled row ps m c audit now :
  effect_validate row = Ok tt → ps ∈ PROVIDER_STATES → effect_validate (settled_row row ps m c audit now) = Ok tt.
Proof.
  unfold effect_validate. intros Hv Hps. cbn. apply bind_Ok in Hv as ([] & _ & Hv). apply bind_Ok in Hv as ([] & _ & Hv).
  destruct (settled_outcome ps Hps) as [_ Ht].
  rewrite (bool_decide_eq_true_2 _ Ht). exact Hv.
Qed.

Lemma settle_advance id expected ps md rc audit now run epoch :
  keeps effect_advance (settle_external_effect_recovery id expected ps md rc audit now run epoch).
Proof.
  intros s s' r E Hs. revert E. destruct r as [[st|]|e]; intros E.
  3: { apply settle_Err in E as ->. by apply (reflexivity (R := effect_advance)). }
  2: { apply settle_Ok in E as ->; [|done]. by apply (reflexivity (R := effect_advance)). }
  apply settle_Ok in E as (row & ids & m & c & n & Hset); [|done]. pose proof (settlement_writes _ _ _ _ _ _ _ _ _ _ _ _ _ _ _ _ _ Hset) as Hw.
  destruct Hset as [Hreq Hr (Hp & Ht & _) _ _ _ [Hm Hc] Hkey _ _ _ _ _ _ _ _ _].
  pose proof (ek_row _ Hs _ _ Hr) as Hrow. destruct Hreq as (_ & Hps & _).
  split.
  - eapply writes_ok; [done|exact Hw| |].
    + split; cbn; [apply Hrow|apply validate_settled; [apply Hrow|done]| |by eapply json_column_stable|by eapply json_column_stable].
      intros _. by apply settled_outcome.
    + by apply key_taken_false.
  - eapply writes_progress; [done|exact Hw| |].
    + unfold phase, phase_of. rewrite Hr. cbn. rewrite Hp. constructor. by apply settled_outcome.
    + rewrite Hr. intros r0 [= <-]. by rewrite Hp.
Qed.
End Settlement.
