(* ===== verification/EffectHistory.v ===== *)
(** * Histories of the effect tables

    Every operation of the evidence layer moves the tables along
    [effect_advance]; so does any sequence of them, interleaved with operations
    of the other managers. *)

From S2P Require Import Prelude PyStr PyVal PyEnum ProcessState ProcessModel ProcessStore CapabilityModel AuthorityRules CapabilityEvaluator ResourceTables ResourceManager JsonColumn CapabilityTables JsonEquality CapabilityEvolution StoreSteps EffectModel EffectTables EffectLedger EffectInvariant EffectUpdates EffectSettlement.
From stdpp Require Import sorting.

Section History.
Context `{EffectHost}.

(** ** Lawful transitions *)

Lemma lawful_dispatch : lawful UNDISPATCHED "dispatched".
Proof.
  intros x Hx. change (x ∈ UNDISPATCHED) in Hx. split; [|split; [|apply (bool_decide_unpack _); by vm_compute]].
  - by constructor.
  - unfold UNDISPATCHED, OUTCOMES in *. set_solver.
Qed.

Lemma lawful_doubt : lawful RECOVERABLE_STATES "unknown".
Proof.
  intros x Hx. change (x ∈ RECOVERABLE_STATES) in Hx. split; [|split; [|apply (bool_decide_unpack _); by vm_compute]].
  - by constructor.
  - unfold RECOVERABLE_STATES, OUTCOMES in *. set_solver.
Qed.

Lemma lawful_phase : lawful ["dispatched"] "dispatched".
Proof.
  intros x Hx. change (x ∈ ["dispatched"]) in Hx. apply list_elem_of_singleton in Hx as ->.
  split; [apply life_phase|]. split; [done|apply (bool_decide_unpack _); by vm_compute].
Qed.

(** ** Operations *)

Lemma expect_same roles ops : keeps same_effects (expect roles ops).
Proof. unfold expect. keep. by apply keeps_modify. Qed.

Lemma link_same type id role md ops : keeps same_effects (link_evidence type id role md ops).
Proof. unfold link_evidence. keep. by apply keeps_modify. Qed.

Lemma keeps_same {A} (m : M EStore A) : keeps same_effects m → keeps effect_advance m.
Proof. apply keeps_weaken, advance_same_effects. Qed.

Lemma expect_advance roles ops : keeps effect_advance (expect roles ops).
Proof. apply keeps_same, expect_same. Qed.
Lemma link_advance type id role md ops : keeps effect_advance (link_evidence type id role md ops).
Proof. apply keeps_same, link_same. Qed.
#[local] Hint Resolve expect_advance link_advance : steps.

Lemma seeing_keeps {A} (f : EStore → res A) : keeps effect_advance (seeing f).
Proof. keep_leaf. Qed.
#[local] Hint Resolve seeing_keeps settle_advance : steps.

Lemma intent_valid i effect h k now md : effect_validate (intent_record i effect h k now md) = Ok tt.
Proof. done. Qed.

Lemma insert_intent_advance i effect h k now md :
  keeps effect_advance (_insert_effect_intent (intent_record i effect h k now md)).
Proof.
  intros s s' r E. set (rec := intent_record i effect h k now md) in *.
  assert (keeps effect_advance (insert_external_effect rec)) as Hk by (apply effect_insert_advance; [done|constructor]).
  unfold _insert_effect_intent in E. destruct (insert_external_effect rec s) as [s1 x] eqn:Ei. apply Hk in Ei.
  destruct x as [u|e]; [by injection E as <- _|]. destruct (_effect_with_idempotency_key _ _ _) as [[]|]; by injection E as <- _.
Qed.
#[local] Hint Resolve insert_intent_advance : steps.

Lemma prepare_advance ops i : keeps effect_advance (prepare_external_effect_intent ops i).
Proof. unfold prepare_external_effect_intent, _link_pending_effect. keep. Qed.

Lemma outcome_tx md : outcome_state md ∈ OUTCOMES.
Proof. unfold outcome_state, OUTCOMES. destruct (startswith _ _); [set_solver|]. destruct (String.eqb _ _); set_solver. Qed.

Lemma outcome_valid b cl effect intent md created updated :
  effect_validate (outcome_record b cl effect intent md created updated) = Ok tt.
Proof.
  assert (outcome_state md ∈ _EXTERNAL_EFFECT_TRANSACTION_STATES) as Ht.
  { pose proof (outcome_tx md) as Ho. unfold OUTCOMES, _EXTERNAL_EFFECT_TRANSACTION_STATES in *. set_solver. }
  unfold effect_validate. cbn. by rewrite (bool_decide_eq_true_2 _ Ht).
Qed.

Lemma record_advance ops b cl md intent : keeps effect_advance (record_external_effect ops b cl md intent).
Proof.
  unfold record_external_effect. apply keeps_bind; [apply _|destruct intent; keep|intros found].
  apply keeps_bind; [apply _|keep_leaf|intros s]. apply keeps_bind; [apply _| |intros u; keep].
  destruct intent as [id|].
  - apply keeps_bind; [apply _| |intros fin; keep_leaf]. apply finalize_advance; [apply outcome_valid|apply outcome_tx].
  - apply effect_insert_advance; [apply outcome_valid|apply life_record, outcome_tx].
Qed.

Lemma dispatch_advance id : keeps effect_advance (mark_external_effect_dispatched id).
Proof.
  unfold mark_external_effect_dispatched, require_effect, effect_or. keep. apply transition_advance, lawful_dispatch.
Qed.

Lemma doubt_advance id md rc now : keeps effect_advance (transition_external_effect id RECOVERABLE_STATES "unknown" md rc now).
Proof. apply transition_advance, lawful_doubt. Qed.

Lemma phase_advance id md rc now : keeps effect_advance (transition_external_effect id ["dispatched"] "dispatched" md rc now).
Proof. apply transition_advance, lawful_phase. Qed.
#[local] Hint Resolve doubt_advance phase_advance : steps.

Lemma unknown_advance id reason rc : keeps effect_advance (mark_external_effect_unknown id reason rc).
Proof. unfold mark_external_effect_unknown, require_effect, effect_or. keep. Qed.
#[local] Hint Resolve unknown_advance : steps.

Lemma abandon_advance ops id : keeps (advances true) (abandon_external_effect_intent ops id).
Proof.
  unfold abandon_external_effect_intent. destruct id as [id|]; [|apply keeps_ret, _].
  apply keeps_bind; [apply _|apply delete_advance|intros b].
  eapply keeps_weaken; [apply advances_weaken|]. keep.
Qed.

Lemma settle_recovery_advance effect ps rc source run epoch :
  keeps effect_advance (_settle_external_effect_recovery effect ps rc source run epoch).
Proof. unfold _settle_external_effect_recovery. keep. Qed.
#[local] Hint Resolve settle_recovery_advance : steps.

(** The state that is persisted when the conclusion is not terminal. *)
Lemma persisted_state normalized :
  let state := if bool_decide (normalized ∈ "unknown" :: PROVIDER_STATES) then normalized else "unknown" in
  state ∉ PROVIDER_STATES → state = "unknown".
Proof.
  cbv zeta. destruct (bool_decide _) eqn:Eb; [|done]. intros Hn. by apply bool_decide_eq_true, elem_of_cons in Eb as [|].
Qed.

Lemma persist_advance effect v rc : keeps effect_advance (_persist_provider_reconciliation_result effect v rc).
Proof.
  unfold _persist_provider_reconciliation_result, _persist_provider_terminal_reconciliation. cbv zeta.
  set (normalized := _normalized_provider_reconciliation_state v rc).
  pose proof (persisted_state normalized) as Hst. cbv zeta in Hst.
  set (state := if bool_decide (normalized ∈ _) then _ else _) in *.
  destruct (_ && _); [keep|]. destruct (bool_decide (state ∈ PROVIDER_STATES)) eqn:Ep; [keep|].
  rewrite Hst by (by apply bool_decide_eq_false in Ep). keep.
Qed.
#[local] Hint Resolve persist_advance : steps.

Lemma reconcile_effect_advance sub effect : keeps effect_advance (_reconcile_pending_external_effect sub effect).
Proof. unfold _reconcile_pending_external_effect. keep. Qed.
#[local] Hint Resolve reconcile_effect_advance : steps.

Section Iteration.
Context {A : Type} (body : A → ExternalEffectRecord → M EStore A).
Context (Hbody : ∀ acc r, keeps effect_advance (body acc r)).

Lemma rows_advance q previous records acc : keeps effect_advance (recovery_rows body q previous records acc).
Proof. revert previous acc. induction records as [|r records IH]; intros previous acc; cbn [recovery_rows]; keep. Qed.

Lemma iter_advance fuel q acc : keeps effect_advance (iter_external_effect_recovery body fuel q acc).
Proof.
  revert q acc. induction fuel as [|fuel IH]; intros q acc; cbn [iter_external_effect_recovery]; [keep_leaf|].
  apply keeps_bind; [apply _|keep_leaf|intros page]. apply keeps_bind; [apply _|keep_leaf|intros _].
  apply keeps_bind; [apply _|apply rows_advance|intros result]. keep.
Qed.
End Iteration.

Lemma reconcile_one_advance sub page acc effect : keeps effect_advance (reconcile_one sub page acc effect).
Proof. unfold reconcile_one. keep. Qed.

Lemma reconcile_advance fuel sub lease page : keeps effect_advance (reconcile_pending_external_effects fuel sub lease page).
Proof.
  unfold reconcile_pending_external_effects. keep. apply iter_advance. intros. apply reconcile_one_advance.
Qed.

Lemma receipt_advance p run id expected rc epoch lease :
  keeps effect_advance (settle_external_effect_from_authoritative_receipt p run id expected rc epoch lease).
Proof. unfold settle_external_effect_from_authoritative_receipt, require_effect. keep. Qed.

(** ** Histories *)

(** A run of one operation, returning or raising; with [gone] unset, none
    abandons an intent. *)
Definition effect_runs {A} (m : M EStore A) (s s' : EStore) : Prop := ∃ r, m s = (s', r).

Inductive effect_step (gone : bool) (s s' : EStore) : Prop :=
| estep_prepare ops i : effect_runs (prepare_external_effect_intent ops i) s s' → effect_step gone s s'
| estep_record ops b cl md intent : effect_runs (record_external_effect ops b cl md intent) s s' → effect_step gone s s'
| estep_dispatch id : effect_runs (mark_external_effect_dispatched id) s s' → effect_step gone s s'
| estep_phase id md rc now :
    effect_runs (transition_external_effect id ["dispatched"] "dispatched" md rc now) s s' → effect_step gone s s'
| estep_unknown id reason rc : effect_runs (mark_external_effect_unknown id reason rc) s s' → effect_step gone s s'
| estep_abandon ops id : gone = true → effect_runs (abandon_external_effect_intent ops id) s s' → effect_step gone s s'
| estep_reconcile fuel sub lease page :
    effect_runs (reconcile_pending_external_effects fuel sub lease page) s s' → effect_step gone s s'
| estep_receipt p run id expected rc epoch lease :
    effect_runs (settle_external_effect_from_authoritative_receipt p run id expected rc epoch lease) s s' →
    effect_step gone s s'
(** Any operation of another manager, and a rolled back transaction. *)
| estep_elsewhere : same_effects s s' → effect_step gone s s'.

Definition effect_history : EStore → EStore → Prop := rtc (effect_step true).

Lemma effect_runs_advance {A} (m : M EStore A) s s' : keeps effect_advance m → effect_runs m s s' → effect_advance s s'.
Proof. intros Hm [r E]. exact (Hm _ _ _ E). Qed.

Lemma effect_step_advance gone s s' : effect_step gone s s' → advances gone s s'.
Proof.
  assert (∀ A (m : M EStore A), keeps effect_advance m → effect_runs m s s' → advances gone s s') as Hany.
  { intros A m Hm Hr. apply effect_runs_advance in Hr; [|done]. destruct gone; [by apply advances_weaken|done]. }
  intros [].
  - by eapply Hany; [apply prepare_advance|].
  - by eapply Hany; [apply record_advance|].
  - by eapply Hany; [apply dispatch_advance|].
  - by eapply Hany; [apply phase_advance|].
  - by eapply Hany; [apply unknown_advance|].
  - subst gone. destruct H1 as [r E]. exact (abandon_advance _ _ _ _ _ E).
  - by eapply Hany; [apply reconcile_advance|].
  - by eapply Hany; [apply receipt_advance|].
  - apply advance_same_effects in H0. destruct gone; [by apply advances_weaken|done].
Qed.

Lemma effect_steps_advance gone s s' : rtc (effect_step gone) s s' → advances gone s s'.
Proof.
  induction 1 as [s|s1 s2 s3 Hs _ IH]; [reflexivity|]. transitivity s2; [by apply effect_step_advance|done].
Qed.

Lemma effect_history_advance s s' : effect_history s s' → advances true s s'.
Proof. apply effect_steps_advance. Qed.
End History.

#[export] Hint Resolve expect_advance link_advance seeing_keeps settle_advance unknown_advance
  doubt_advance phase_advance : steps.
