(* ===== verification/EffectPages.v ===== *)
(** * Keyset pages of effects

    The rows in [ORDER BY created_at, effect_id] order as one strictly sorted
    list, of which the pages are consecutive pieces; the query for the effects
    changed after a ledger sequence against its specification. *)

From S2P Require Import Prelude PyStr PyVal PyEnum ProcessState ProcessModel ProcessStore CapabilityModel ResourceTables ResourceManager JsonColumn CapabilityTables StoreSteps EffectModel EffectTables EffectLedger EffectInvariant EffectUpdates EffectSettlement EffectHistory.
From stdpp Require Import sorting.

(** ** The order of cursors *)

Definition ecursor_key (c : ExternalEffectCursor) : string * string := (ecur_created_at c, ecur_effect_id c).

Lemma ecursor_irrefl a : ecursor_ltb a a = false.
Proof. apply (dated_irrefl (ecursor_key a)). Qed.

Lemma ecursor_trans a b c : ecursor_ltb a b = true → ecursor_ltb b c = true → ecursor_ltb a c = true.
Proof. apply (dated_trans (ecursor_key a) (ecursor_key b) (ecursor_key c)). Qed.

Lemma ecursor_total a b : ecursor_ltb a b = true ∨ a = b ∨ ecursor_ltb b a = true.
Proof.
  destruct (dated_total (ecursor_key a) (ecursor_key b)) as [?|[E|?]]; [by left| |by right; right].
  right; left. destruct a, b. by injection E as [= -> ->].
Qed.

Lemma ecursor_asym a b : ecursor_ltb a b = true → ecursor_ltb b a = false.
Proof. apply (dated_asym (ecursor_key a) (ecursor_key b)). Qed.

#[export] Instance effect_le_trans : Transitive effect_le.
Proof. apply (dated_le_trans (fun r => ecursor_key (ecursor_of r))). Qed.

#[export] Instance effect_le_total : Total effect_le.
Proof. apply (dated_le_total (fun r => ecursor_key (ecursor_of r))). Qed.

(** ** Strictly sorted lists of rows *)

Definition effect_lt (a b : ExternalEffectRecord) : Prop := ecursor_ltb (ecursor_of a) (ecursor_of b) = true.

Definition effect_key (r : ExternalEffectRecord) : string * string := ecursor_key (ecursor_of r).

Lemma strict_ext l k :
  StronglySorted effect_lt l → StronglySorted effect_lt k → (∀ x, x ∈ l ↔ x ∈ k) → l = k.
Proof. apply (dated_strict_ext effect_key). Qed.

Lemma strict_app_inv l k : StronglySorted effect_lt (l ++ k) →
  StronglySorted effect_lt l ∧ StronglySorted effect_lt k ∧ ∀ x y, x ∈ l → y ∈ k → effect_lt x y.
Proof. apply (dated_app_inv effect_key). Qed.

(** What lies beyond the last row of a page. *)
Lemma beyond_last n l x y :
  StronglySorted effect_lt l → list.last (take n l) = Some x →
  (y ∈ l ∧ ecursor_ltb (ecursor_of x) (ecursor_of y) = true) ↔ y ∈ drop n l.
Proof. apply (dated_beyond_last effect_key). Qed.

Section Pages.
Context `{EffectHost}.

(** ** Rows as a list *)

Lemma all_effects_elem s r : effects_ok s → r ∈ all_effects s ↔ effects s !! eff_id r = Some r.
Proof.
  intros Hs. unfold all_effects. rewrite (list_elem_of_fmap snd). split.
  - intros ([i x] & -> & Hi%elem_of_map_to_list). cbn. by rewrite (er_id _ _ (ek_row _ Hs _ _ Hi)).
  - intros Hr. exists (eff_id r, r). split; [done|by apply elem_of_map_to_list].
Qed.

Lemma effects_where_elem clause s r :
  effects_ok s → r ∈ effects_where clause s ↔ clause r = true ∧ effects s !! eff_id r = Some r.
Proof.
  intros Hs. unfold effects_where. rewrite merge_sort_Permutation, list_elem_of_In, filter_In, <-list_elem_of_In.
  rewrite all_effects_elem by done. tauto.
Qed.

Lemma all_effects_ids s : effects_ok s → NoDup (map eff_id (all_effects s)).
Proof.
  intros Hs. unfold all_effects. rewrite map_map.
  assert (map (fun kr : string * ExternalEffectRecord => eff_id (snd kr)) (map_to_list (effects s)) = map fst (map_to_list (effects s))) as ->;
    [|apply (NoDup_fst_map_to_list (effects s))].
  apply map_ext_in. intros [i x] Hi%list_elem_of_In%elem_of_map_to_list. by apply (er_id _ _ (ek_row _ Hs _ _ Hi)).
Qed.

Lemma all_effects_length s : length (all_effects s) = size (effects s).
Proof. unfold all_effects. rewrite length_map. by rewrite length_map_to_list. Qed.

(** Distinct rows in [ORDER BY] order are strictly sorted. *)
Lemma sorted_strict l :
  NoDup (map eff_id l) → StronglySorted effect_le l → StronglySorted effect_lt l.
Proof.
  intros Hnd. apply (dated_sorted_strict effect_key). eapply (NoDup_fmap_1 snd). rewrite <-list_fmap_compose. exact Hnd.
Qed.

Lemma filter_ids (f : ExternalEffectRecord → bool) l : NoDup (map eff_id l) → NoDup (map eff_id (List.filter f l)).
Proof.
  intros Hnd. eapply NoDup_map_sublist; [|exact Hnd]. clear Hnd.
  induction l as [|x l IH]; cbn; [constructor|]. destruct (f x); [by apply sublist_skip|by apply sublist_cons].
Qed.

Lemma effects_where_strict clause s : effects_ok s → StronglySorted effect_lt (effects_where clause s).
Proof.
  intros Hs. apply sorted_strict; [|apply StronglySorted_merge_sort; apply _].
  unfold effects_where. rewrite (merge_sort_Permutation effect_le). by apply filter_ids, all_effects_ids.
Qed.

Lemma effects_where_length clause s : length (effects_where clause s) <= size (effects s).
Proof.
  unfold effects_where. rewrite (merge_sort_Permutation effect_le), <-all_effects_length. apply filter_length_le.
Qed.

Lemma effects_where_ext c c' s : effects_ok s →
  (∀ r, effects s !! eff_id r = Some r → c r = c' r) → effects_where c s = effects_where c' s.
Proof.
  intros Hs Hc. apply strict_ext; [by apply effects_where_strict..|]. intros r. rewrite !effects_where_elem by done.
  split; intros [Hx Hr]; (split; [|done]); [by rewrite <-Hc|by rewrite Hc].
Qed.

(** Sorting the rows again changes nothing. *)
Lemma merge_sort_id_sorted s clause : effects_ok s →
  merge_sort effect_le (effects_where clause s) = effects_where clause s.
Proof.
  intros Hs. apply strict_ext; [|by apply effects_where_strict|].
  - apply sorted_strict; [|apply StronglySorted_merge_sort; apply _]. unfold effects_where.
    rewrite !(merge_sort_Permutation effect_le). by apply filter_ids, all_effects_ids.
  - intros x. by rewrite (merge_sort_Permutation effect_le).
Qed.

(** Stored rows decode. *)
Lemma decode_effects clause s : effects_ok s → mapR _row_to_external_effect (effects_where clause s) = Ok (effects_where clause s).
Proof.
  intros Hs. apply mapR_id, Forall_forall. intros r [_ Hr]%effects_where_elem; [|done]. apply decode_effect.
  by apply (ek_row _ Hs _ _ Hr).
Qed.

(** ** Changes *)

Definition change_clause (seq : Z) (pids : option (list string)) (s : EStore) (r : ExternalEffectRecord) : bool :=
  changed_after seq s r && in_batch pids r.

Lemma query_changes fuel seq pids after s :
  effects_ok s → length (effects_where (fun r => change_clause seq pids s r && after_cursor after r) s) < fuel →
  _query_external_effect_changes fuel seq pids after s
  = Ok (effects_where (fun r => change_clause seq pids s r && after_cursor after r) s).
Proof.
  intros Hs. revert after. induction fuel as [|fuel IH]; intros after Hlen; [lia|]. cbn [_query_external_effect_changes].
  set (rows := effects_where (fun r => change_clause seq pids s r && after_cursor after r) s) in *.
  change (effects_where (fun r => changed_after seq s r && in_batch pids r && after_cursor after r) s) with rows.
  pose proof (effects_where_strict (fun r => change_clause seq pids s r && after_cursor after r) s Hs) as Hstrict. fold rows in Hstrict.
  assert (0 < _EXTERNAL_EFFECT_CHANGE_QUERY_BATCH_SIZE) as Hpos by (unfold _EXTERNAL_EFFECT_CHANGE_QUERY_BATCH_SIZE; lia).
  set (batch := _EXTERNAL_EFFECT_CHANGE_QUERY_BATCH_SIZE) in *.
  destruct (Nat.ltb_spec (length (take batch rows)) batch) as [Hlt|Hge].
  { rewrite length_take in Hlt. by rewrite take_ge by lia. }
  destruct (list.last (take batch rows)) as [x|] eqn:Ex.
  2: { apply last_None in Ex. rewrite Ex in Hge. cbn in Hge. lia. }
  assert (Hrest : effects_where (fun r => change_clause seq pids s r && after_cursor (Some (ecursor_of x)) r) s = drop batch rows).
  { apply strict_ext; [by apply effects_where_strict| |].
    - pose proof (take_drop batch rows) as Hsplit. rewrite <-Hsplit in Hstrict. apply (strict_app_inv _ _ Hstrict).
    - intros y. rewrite <-(beyond_last batch rows x y Hstrict Ex). unfold rows.
      assert (Hx : x ∈ rows) by (apply last_Some_elem_of, elem_of_take in Ex as (i & Ex & _); by eapply list_elem_of_lookup_2).
      unfold rows in Hx. rewrite effects_where_elem in Hx by done. destruct Hx as [[_ Hax]%andb_true_iff _].
      rewrite !effects_where_elem by done. rewrite !andb_true_iff. cbn [after_cursor]. split; [|tauto].
      intros [[Hc Hxy] Hy]. split_and!; try done. destruct after as [c|]; [|done]. cbn in *. by eapply ecursor_trans. }
  rewrite length_take in Hge. rewrite IH; rewrite Hrest; [|rewrite length_drop; lia].
  cbn. by rewrite take_drop.
Qed.

(** *** Batches of processes *)

Lemma pid_batches_spec seen batch pids bs :
  NoDup batch → (∀ p, p ∈ batch → p ∈ seen) →
  _external_effect_pid_batches seen batch pids = Ok bs →
  NoDup (concat bs) ∧ ∀ p, p ∈ concat bs ↔ p ∈ batch ∨ (p ∈ pids ∧ p ∉ seen).
Proof.
  revert seen batch bs. induction pids as [|p pids IH]; intros seen batch bs Hnd Hsub; cbn [_external_effect_pid_batches].
  { intros [= <-]. destruct (bool_decide (batch = [])) eqn:Eb.
    - apply bool_decide_eq_true in Eb as ->. split; [constructor|]. set_solver.
    - cbn. rewrite app_nil_r. split; [done|]. set_solver. }
  destruct (String.eqb p ""); [done|]. destruct (bool_decide (p ∈ seen)) eqn:Es.
  { apply bool_decide_eq_true in Es. intros E. destruct (IH _ _ _ Hnd Hsub E) as [H1 H2]. split; [done|].
    intros x. rewrite H2. split; [set_solver|]. intros [Hx|[[Ex|Hx]%elem_of_cons Hn]]; [by left|by subst x|by right]. }
  apply bool_decide_eq_false in Es.
  assert (Hnd' : NoDup (batch ++ [p])).
  { apply NoDup_app. split; [done|]. split; [|apply NoDup_singleton]. intros x Hx ->%list_elem_of_singleton. by apply Es, Hsub. }
  destruct (length (batch ++ [p]) =? _)%nat.
  - intros (more & E & [= <-])%bind_Ok. destruct (IH (p :: seen) [] more) as [H1 H2]; [constructor|set_solver|done|].
    cbn. split.
    + apply NoDup_app. split; [done|]. split; [|done]. intros x Hx Hm. apply H2 in Hm. set_solver.
    + intros x. rewrite elem_of_app, H2. destruct (decide (x = p)); set_solver.
  - intros E. destruct (IH (p :: seen) (batch ++ [p]) bs Hnd') as [H1 H2]; [set_solver|done|].
    split; [done|]. intros x. rewrite H2. destruct (decide (x = p)); set_solver.
Qed.

Lemma pid_batches_total seen batch pids :
  Forall (fun p => p ≠ "") pids → ∃ bs, _external_effect_pid_batches seen batch pids = Ok bs.
Proof.
  intros Hp. revert seen batch. induction Hp as [|p pids Hne _ IH]; intros seen batch; cbn [_external_effect_pid_batches]; [by eexists|].
  apply String.eqb_neq in Hne. rewrite Hne. destruct (bool_decide _); [apply IH|].
  destruct (_ =? _)%nat; [|apply IH]. destruct (IH (p :: seen) []) as [bs ->]. by eexists.
Qed.

Lemma elem_of_concat {A} (x : A) (ls : list (list A)) : x ∈ concat ls ↔ ∃ l, x ∈ l ∧ l ∈ ls.
Proof. rewrite list_elem_of_In, in_concat. setoid_rewrite <-list_elem_of_In. naive_solver. Qed.

(** The batches one after the other are all changes of the processes. *)
Lemma concat_batches seq s bs :
  effects_ok s → NoDup (concat bs) →
  merge_sort effect_le (concat (map (fun b => effects_where (change_clause seq (Some b) s) s) bs))
  = effects_where (change_clause seq (Some (concat bs)) s) s.
Proof.
  intros Hs Hnd. apply strict_ext; [|by apply effects_where_strict|].
  - apply sorted_strict; [|apply StronglySorted_merge_sort; apply _]. rewrite (merge_sort_Permutation effect_le).
    induction bs as [|b bs IH]; cbn; [constructor|]. cbn in Hnd. apply NoDup_app in Hnd as (_ & Hdis & Hnd).
    rewrite map_app. apply NoDup_app. split; [|split; [|by apply IH]].
    + unfold effects_where. rewrite (merge_sort_Permutation effect_le). by apply filter_ids, all_effects_ids.
    + intros i (x & <- & Hx)%list_elem_of_In%in_map_iff (y & Ey & Hy)%list_elem_of_In%in_map_iff.
      apply list_elem_of_In, effects_where_elem in Hx as [[_ Hxb]%andb_true_iff Hx]; [|done].
      apply list_elem_of_In, elem_of_concat_map in Hy as (b' & Hb' & [[_ Hyb]%andb_true_iff Hy]%effects_where_elem); [|done].
      rewrite Ey, Hx in Hy. injection Hy as <-. cbn in Hxb, Hyb. apply bool_decide_eq_true in Hxb, Hyb.
      apply (Hdis _ Hxb). apply elem_of_concat. by exists b'.
  - intros x. rewrite (merge_sort_Permutation effect_le), elem_of_concat_map, effects_where_elem by done. split.
    + intros (b & Hb & [[Hc Hxb]%andb_true_iff Hx]%effects_where_elem); [|done]. split; [|done]. apply andb_true_iff. split; [done|].
      cbn in *. apply bool_decide_eq_true in Hxb. apply bool_decide_eq_true, elem_of_concat. by exists b.
    + intros [[Hc Hxb]%andb_true_iff Hx]. cbn in Hxb. apply bool_decide_eq_true, elem_of_concat in Hxb as (b & Hxb & Hb).
      exists b. split; [done|]. apply effects_where_elem; [done|]. split; [|done]. apply andb_true_iff. split; [done|].
      cbn. by apply bool_decide_eq_true.
Qed.

Lemma mapR_const {A B} (f : A → res B) (g : A → B) l : (∀ x, x ∈ l → f x = Ok (g x)) → mapR f l = Ok (map g l).
Proof.
  induction l as [|x l IH]; intros Hf; cbn; [done|]. rewrite Hf by left. cbn. by rewrite IH by (intros; apply Hf; by right).
Qed.

Lemma query_all fuel seq pids s :
  effects_ok s → size (effects s) < fuel →
  _query_external_effect_changes fuel seq pids None s = Ok (effects_where (change_clause seq pids s) s).
Proof.
  intros Hs Hf. assert (effects_where (fun r => change_clause seq pids s r && after_cursor None r) s = effects_where (change_clause seq pids s) s) as E.
  { apply effects_where_ext; [done|]. intros r _. by rewrite andb_true_r. }
  rewrite query_changes; [by rewrite E|done|]. pose proof (effects_where_length (fun r => change_clause seq pids s r && after_cursor None r) s). lia.
Qed.

(** With one more page than there are rows the query returns, and it returns
    the rows its specification selects. *)
Lemma changed_after_run fuel seq pids s :
  effects_ok s → (0 <= seq)%Z → size (effects s) < fuel →
  (∀ ps, pids = Some ps → Forall (fun p => p ≠ "") ps) →
  list_external_effects_changed_after fuel seq pids s = Ok (effects_where (change_clause seq pids s) s).
Proof.
  intros Hs Hseq Hf Hp. unfold list_external_effects_changed_after.
  replace (seq <? 0)%Z with false by (symmetry; apply Z.ltb_ge; lia). cbn [raise_if]. rewrite res_bind_ok.
  destruct pids as [ps|].
  - destruct (pid_batches_total [] [] ps (Hp ps eq_refl)) as [bs Eb]. rewrite Eb, res_bind_ok.
    rewrite (mapR_const _ (fun b => effects_where (change_clause seq (Some b) s) s)) by (intros; by apply query_all).
    rewrite !res_bind_ok. apply pid_batches_spec in Eb as [Hnd Hel]; [|constructor|set_solver].
    rewrite concat_batches by done. rewrite (effects_where_ext _ (change_clause seq (Some ps) s)) by
      (try done; intros r _; unfold change_clause; f_equal; cbn; apply bool_decide_ext; rewrite Hel; set_solver).
    by apply decode_effects.
  - rewrite query_all, res_bind_ok by done. rewrite (merge_sort_id_sorted s) by done. by apply decode_effects.
Qed.
End Pages.
