(* ===== verification/EffectReconciliation.v ===== *)
(** * Reconciliation as a loop over a snapshot

    The recovery iterator reads the pending effects page by page while its body
    changes them.  A body that touches only the row it is given, and never its
    place in the order, is run exactly once on every row that was eligible when
    the iteration began: the pages are a loop over a snapshot.  Then,
    what that loop concludes. *)

From S2P Require Import Prelude PyStr PyVal PyEnum ProcessState ProcessModel ProcessStore CapabilityModel AuthorityRules ResourceTables ResourceManager JsonColumn CapabilityTables StoreSteps EffectModel EffectTables EffectLedger EffectInvariant EffectUpdates EffectSettlement EffectHistory EffectPages.
From stdpp Require Import sorting.

(** The body on every row in turn. *)
Fixpoint each_row {A} (body : A → ExternalEffectRecord → M EStore A) (rows : list ExternalEffectRecord) (acc : A)
    : M EStore A :=
  match rows with
  | [] => mret acc
  | r :: rest => acc ← body acc r; each_row body rest acc
  end.

Section Within.
Context `{EffectHost}.

(** ** Bodies that own their row *)

(** Only the row [id] may change, or go, and it keeps its place. *)
Definition within (id : string) (s s' : EStore) : Prop :=
  effects_ok s → effects_ok s'
    ∧ (∀ j, j ≠ id → effects s' !! j = effects s !! j)
    ∧ (∀ x, effects s' !! id = Some x → ∃ x0, effects s !! id = Some x0 ∧ eff_created_at x = eff_created_at x0).

#[export] Instance within_preorder id : PreOrder (within id).
Proof.
  split; [intros s Hs; split; [done|split; [done|intros x Hx; by exists x]]|].
  intros a b c H1 H2 Ha. destruct (H1 Ha) as (Hb & O1 & C1). destruct (H2 Hb) as (Hc & O2 & C2).
  split; [done|]. split; [intros j Hj; by rewrite O2, O1|].
  intros x Hx. destruct (C2 x Hx) as (y & Hy & E1). destruct (C1 y Hy) as (z & Hz & E2). exists z. split; [done|congruence].
Qed.

Lemma within_same id s s' : effects s' = effects s → (effects_ok s → effects_ok s') → within id s s'.
Proof. intros E Hok Hs. split; [by apply Hok|]. rewrite E. split; [done|intros x Hx; by exists x]. Qed.

Lemma within_row id row r s s' :
  effects s !! id = Some row → effects s' = <[id := r]> (effects s) → eff_created_at r = eff_created_at row →
  (effects_ok s → effects_ok s') → within id s s'.
Proof.
  intros Hrow E Hc Hok Hs. split; [by apply Hok|]. rewrite E. split; [intros j Hj; by rewrite lookup_insert_ne|].
  intros x. rewrite lookup_insert_eq. intros [= <-]. by exists row.
Qed.

Lemma transition_within id expected tx md rc now :
  lawful expected tx → keeps (within id) (transition_external_effect id expected tx md rc now).
Proof.
  intros Hlaw s s' r E Hs0. pose proof (transition_advance _ _ _ _ _ _ Hlaw _ _ _ E) as Ha. revert Hs0.
  assert (Hok : effects_ok s → effects_ok s') by (intros Hs; apply (Ha Hs)). intros Hs. destruct r as [[]|e].
  - apply effect_transition_Ok in E as (row & m & c & n & Hr & _ & _ & _ & _ & _ & ->); [|done].
    by apply (within_row id row (transitioned row tx m c now)).
  - apply effect_transition_Ok in E as [-> _]; [|done]. by apply (reflexivity (R := within id)).
  - apply transition_Err in E as ->. by apply (reflexivity (R := within id)).
Qed.

Lemma settle_within id expected ps md rc audit now run epoch :
  keeps (within id) (settle_external_effect_recovery id expected ps md rc audit now run epoch).
Proof.
  intros s s' r E Hs. pose proof (settle_advance _ _ _ _ _ _ _ _ _ _ _ _ E) as Ha.
  assert (Hok : effects_ok s → effects_ok s') by (intros ?; by apply Ha). destruct r as [[st|]|e].
  - apply settle_Ok in E as (row & ids & m & c & n & []); [|done].
    by apply (within_row id row (settled_row row ps m c (aud_id audit) now)).
  - apply settle_Ok in E as ->; [|done]. by apply (reflexivity (R := within id)).
  - apply settle_Err in E as ->. by apply (reflexivity (R := within id)).
Qed.

Lemma seeing_within {A} id (f : EStore → res A) : keeps (within id) (seeing f).
Proof. keep_leaf. Qed.

Lemma doubt_within id md rc now : keeps (within id) (transition_external_effect id RECOVERABLE_STATES "unknown" md rc now).
Proof. apply transition_within, lawful_doubt. Qed.
#[local] Hint Resolve seeing_within doubt_within settle_within : steps.

Lemma unknown_within id reason rc : keeps (within id) (mark_external_effect_unknown id reason rc).
Proof. unfold mark_external_effect_unknown, require_effect, effect_or. keep. Qed.

Lemma settle_recovery_within effect ps rc source run epoch :
  keeps (within (eff_id effect)) (_settle_external_effect_recovery effect ps rc source run epoch).
Proof. unfold _settle_external_effect_recovery. keep. Qed.
#[local] Hint Resolve unknown_within settle_recovery_within : steps.

Lemma persist_within effect v rc : keeps (within (eff_id effect)) (_persist_provider_reconciliation_result effect v rc).
Proof.
  unfold _persist_provider_reconciliation_result, _persist_provider_terminal_reconciliation. cbv zeta.
  set (normalized := _normalized_provider_reconciliation_state v rc).
  pose proof (persisted_state normalized) as Hst. cbv zeta in Hst.
  set (state := if bool_decide (normalized ∈ _) then _ else _) in *.
  destruct (_ && _); [keep|]. destruct (bool_decide (state ∈ PROVIDER_STATES)) eqn:Ep; [keep|].
  rewrite Hst by (by apply bool_decide_eq_false in Ep). keep.
Qed.
#[local] Hint Resolve persist_within : steps.

Lemma reconcile_effect_within sub effect : keeps (within (eff_id effect)) (_reconcile_pending_external_effect sub effect).
Proof. unfold _reconcile_pending_external_effect. keep. Qed.
#[local] Hint Resolve reconcile_effect_within : steps.

Lemma reconcile_one_within sub page acc effect : keeps (within (eff_id effect)) (reconcile_one sub page acc effect).
Proof. unfold reconcile_one. keep. Qed.

(** ** Pages of a table in motion *)

Section Iteration.
Context {A : Type} (body : A → ExternalEffectRecord → M EStore A).
Context (Hbody : ∀ acc r, keeps (within (eff_id r)) (body acc r)).

(** What the loop leaves as it was: rows it was not given, and places. *)
Lemma each_row_frame rows acc s s' x :
  effects_ok s → each_row body rows acc s = (s', x) →
  effects_ok s' ∧ (∀ j, j ∉ map eff_id rows → effects s' !! j = effects s !! j)
  ∧ (∀ j y, effects s' !! j = Some y → ∃ y0, effects s !! j = Some y0 ∧ eff_created_at y = eff_created_at y0).
Proof.
  revert acc s. induction rows as [|r rows IH]; intros acc s Hs; cbn [each_row map].
  { intros [= <- _]. split; [done|split; [done|intros j y Hy; by exists y]]. }
  unfold mbind, M_bind. destruct (body acc r s) as [s1 [acc1|e]] eqn:E1; destruct (Hbody _ _ _ _ _ E1 Hs) as (Hs1 & O1 & C1).
  - intros E. destruct (IH _ _ Hs1 E) as (Hs' & O2 & C2). split; [done|]. split.
    + intros j [Hj1 Hj2]%not_elem_of_cons. by rewrite O2, O1.
    + intros j y Hy. destruct (C2 j y Hy) as (y1 & Hy1 & E2). destruct (decide (j = eff_id r)) as [->|Hne].
      * destruct (C1 y1 Hy1) as (y0 & Hy0 & E3). exists y0. split; [done|congruence].
      * rewrite O1 in Hy1 by done. by exists y1.
  - intros [= <- _]. split; [done|]. split.
    + intros j [Hj _]%not_elem_of_cons. by apply O1.
    + intros j y Hy. destruct (decide (j = eff_id r)) as [->|Hne]; [by apply C1|]. rewrite O1 in Hy by done. by exists y.
Qed.

Definition dated (r : ExternalEffectRecord) : Prop := eff_created_at r ≠ "" ∧ eff_id r ≠ "".

Lemma cursor_of_dated r : dated r → mk_effect_cursor (eff_created_at r) (eff_id r) = Ok (ecursor_of r).
Proof. intros [H1 H2]. apply String.eqb_neq in H1, H2. unfold mk_effect_cursor. by rewrite H1, H2. Qed.

(** The last cursor of a run of rows. *)
Fixpoint last_cursor (previous : option ExternalEffectCursor) (rows : list ExternalEffectRecord) : option ExternalEffectCursor :=
  match rows with [] => previous | r :: rest => last_cursor (Some (ecursor_of r)) rest end.

Lemma last_cursor_last previous rows x : list.last rows = Some x → last_cursor previous rows = Some (ecursor_of x).
Proof. intros (l & ->)%last_Some. revert previous. induction l as [|y l IH]; intros p; [done|apply IH]. Qed.

Definition eligible (q : ExternalEffectRecoveryQuery) (r : ExternalEffectRecord) : Prop :=
  eff_state r = q_effect_state q ∧ (q_transaction_states q = [] ∨ eff_tx r ∈ q_transaction_states q).

Lemma recoverable_spec q r : recoverable_row q r = true ↔ eligible q r ∧ after_cursor (q_after q) r = true.
Proof.
  unfold recoverable_row, eligible. rewrite !andb_true_iff, orb_true_iff, String.eqb_eq, !bool_decide_eq_true. tauto.
Qed.

Lemma recovery_rows_run q previous rows acc s :
  StronglySorted effect_lt rows → Forall dated rows → Forall (eligible q) rows →
  Forall (fun r => after_cursor previous r = true) rows →
  recovery_rows body q previous rows acc s
  = (acc ← each_row body rows acc; mret (last_cursor previous rows, acc)) s.
Proof.
  intros Hsort. revert previous acc s. induction Hsort as [|r rows Hsort IH Hlt]; intros previous acc s Hd He Ha; [done|].
  apply Forall_cons in Hd as [Hdr Hd], He as [[Hst Htx] He], Ha as [Har Ha]. cbn [recovery_rows each_row last_cursor].
  rewrite (cursor_of_dated r) by done. rewrite (lift_ok_bind (Ok (ecursor_of r)) _ (ecursor_of r)) by done.
  rewrite (lift_ok_bind _ _ tt).
  2: { destruct previous as [p|]; [|done]. cbn in Har. by rewrite Har. }
  rewrite (lift_ok_bind _ _ tt) by (by rewrite Hst, String.eqb_refl).
  rewrite (lift_ok_bind _ _ tt).
  2: { destruct Htx as [Hq|Hq]; [by rewrite (bool_decide_eq_true_2 _ Hq)|]. by rewrite (bool_decide_eq_true_2 _ Hq), andb_false_r. }
  unfold mbind, M_bind. destruct (body acc r s) as [s1 [acc1|e]]; [|done].
  rewrite IH; [done..|]. exact Hlt.
Qed.

Lemma each_row_app p k acc s : each_row body (p ++ k) acc s = (acc ← each_row body p acc; each_row body k acc) s.
Proof.
  revert acc s. induction p as [|r p IH]; intros acc s; [done|]. cbn [each_row app]. unfold mbind, M_bind.
  destruct (body acc r s) as [s1 [acc1|e]]; [|done]. by rewrite IH.
Qed.

(** A page is the first rows, and names its last one when there are more. *)
Lemma query_page q s :
  effects_ok s → 0 < q_limit q <= recovery_page_hard_limit → Forall dated (effects_where (recoverable_row q) s) →
  let rows := effects_where (recoverable_row q) s in
  query_external_effect_recovery q s
  = Ok {| epage_records := take (q_limit q) rows;
          epage_next := if q_limit q <? length rows then last_cursor None (take (q_limit q) rows) else None |}.
Proof.
  intros Hs [Hpos Hlim] Hd rows. fold rows in Hd. unfold query_external_effect_recovery.
  replace (recovery_page_hard_limit <? q_limit q) with false by (symmetry; apply Nat.ltb_ge; lia).
  cbn [raise_if]. rewrite res_bind_ok. cbv zeta. fold rows. rewrite take_take, Nat.min_l by lia.
  assert (mapR _row_to_external_effect (take (q_limit q) rows) = Ok (take (q_limit q) rows)) as ->.
  { apply mapR_id, Forall_forall. intros r Hr. apply decode_effect.
    apply elem_of_take in Hr as (i & Hr%list_elem_of_lookup_2 & _). unfold rows in Hr.
    apply effects_where_elem in Hr as [_ Hr]; [|done]. by apply (ek_row _ Hs _ _ Hr). }
  rewrite res_bind_ok, length_take.
  destruct (Nat.ltb_spec (q_limit q) (length rows)) as [Hlt|Hge].
  - replace (q_limit q <? Nat.min (S (q_limit q)) (length rows)) with true by (symmetry; apply Nat.ltb_lt; lia).
    assert (take (q_limit q) rows ≠ []) as Hne.
    { intros He. apply (f_equal length) in He. rewrite length_take in He. cbn in He. lia. }
    destruct (list.last (take (q_limit q) rows)) as [r|] eqn:El; [|by apply last_None in El].
    rewrite (cursor_of_dated r). 2: { rewrite Forall_forall in Hd. apply Hd. apply last_Some_elem_of in El.
      apply elem_of_take in El as (i & El & _). by eapply list_elem_of_lookup_2. }
    rewrite !res_bind_ok. rewrite (last_cursor_last None _ r) by done. unfold mk_effect_page.
    by destruct (take (q_limit q) rows).
  - replace (q_limit q <? Nat.min (S (q_limit q)) (length rows)) with false by (symmetry; apply Nat.ltb_ge; lia).
    by rewrite res_bind_ok.
Qed.

Lemma in_page q s r : effects_ok s → r ∈ effects_where (recoverable_row q) s →
  eligible q r ∧ after_cursor (q_after q) r = true ∧ effects s !! eff_id r = Some r.
Proof. intros Hs [[He Ha]%recoverable_spec Hr]%effects_where_elem; done. Qed.

(** The rows beyond the page are the same before and after the loop over it. *)
Lemma next_rows q s s1 acc v x :
  let rows := effects_where (recoverable_row q) s in let page := take (q_limit q) rows in
  effects_ok s → each_row body page acc s = (s1, v) → list.last page = Some x →
  effects_where (recoverable_row (next_query q (ecursor_of x))) s1 = drop (q_limit q) rows.
Proof.
  intros rows page Hs E Hx. destruct (each_row_frame _ _ _ _ _ Hs E) as (Hs1 & Hframe & Hplace).
  pose proof (effects_where_strict (recoverable_row q) s Hs) as Hsort. fold rows in Hsort.
  assert (Hin : ∀ r, r ∈ page → r ∈ rows).
  { intros r (i & Hr & _)%elem_of_take. by eapply list_elem_of_lookup_2. }
  assert (Hbefore : ∀ r, r ∈ page → ecursor_ltb (ecursor_of x) (ecursor_of r) = false).
  { intros r Hr. apply last_Some in Hx as [l Hl]. unfold page in *. pose proof (take_drop (q_limit q) rows) as Hsplit.
    rewrite Hl in Hsplit, Hr. rewrite <-Hsplit in Hsort. apply strict_app_inv in Hsort as (Hp & _).
    apply strict_app_inv in Hp as (_ & _ & Hlt). apply elem_of_app in Hr as [Hr| ->%list_elem_of_singleton].
    - apply ecursor_asym, Hlt; [done|left].
    - apply ecursor_irrefl. }
  (* beyond the cursor a stored row is stored in both *)
  assert (Hsame : ∀ y, ecursor_ltb (ecursor_of x) (ecursor_of y) = true →
            effects s1 !! eff_id y = Some y ↔ effects s !! eff_id y = Some y).
  { intros y Hy. destruct (decide (eff_id y ∈ map eff_id page)) as [Hm|Hm]; [|by rewrite Hframe].
    apply list_elem_of_In, in_map_iff in Hm as (r & Hid & Hr%list_elem_of_In).
    destruct (in_page q s r Hs (Hin r Hr)) as (_ & _ & Hrow). split; intros Hs'; exfalso.
    - destruct (Hplace _ _ Hs') as (y0 & Hy0 & Hc). rewrite <-Hid, Hrow in Hy0. injection Hy0 as <-.
      assert (ecursor_of y = ecursor_of r) as Hcur by (unfold ecursor_of; by rewrite Hc, Hid).
      rewrite Hcur, (Hbefore r Hr) in Hy. done.
    - rewrite <-Hid, Hrow in Hs'. injection Hs' as ->. by rewrite (Hbefore _ Hr) in Hy. }
  apply strict_ext; [by apply effects_where_strict| |].
  { pose proof (take_drop (q_limit q) rows) as Hsplit. rewrite <-Hsplit in Hsort. apply (strict_app_inv _ _ Hsort). }
  intros y. rewrite <-(beyond_last (q_limit q) rows x y Hsort Hx). unfold rows.
  assert (Hax : after_cursor (q_after q) x = true).
  { apply (in_page q s x Hs), Hin. by apply last_Some_elem_of. }
  rewrite !effects_where_elem by done. rewrite !recoverable_spec. cbn [next_query q_after after_cursor]. unfold eligible. cbn.
  split.
  - intros [[[He1 He2] Hy] Hr]. rewrite Hsame in Hr by done. split_and!; try done. destruct (q_after q) as [c|]; [|done].
    cbn in *. by eapply ecursor_trans.
  - intros [[[[He1 He2] _] Hr] Hy]. rewrite Hsame by done. by split_and!.
Qed.

(** Paging is looping over the snapshot. *)
Lemma iter_snapshot fuel q acc s :
  effects_ok s → 0 < q_limit q <= recovery_page_hard_limit →
  Forall dated (effects_where (recoverable_row q) s) → length (effects_where (recoverable_row q) s) < fuel →
  iter_external_effect_recovery body fuel q acc s = each_row body (effects_where (recoverable_row q) s) acc s.
Proof.
  revert q acc s. induction fuel as [|fuel IH]; intros q acc s Hs Hlim Hd Hfuel; [lia|].
  cbn [iter_external_effect_recovery]. set (rows := effects_where (recoverable_row q) s) in *.
  unfold seeing at 1. rewrite (run_bind _ _ s s _ (f_equal (pair s) (query_page q s Hs Hlim Hd))). fold rows.
  cbn [epage_records epage_next]. rewrite (lift_ok_bind _ _ tt).
  2: { rewrite length_take. by replace (q_limit q <? _) with false by (symmetry; apply Nat.ltb_ge; lia). }
  set (page := take (q_limit q) rows). pose proof (effects_where_strict (recoverable_row q) s Hs) as Hsort. fold rows in Hsort.
  rewrite <-(take_drop (q_limit q) rows) in Hsort. pose proof (strict_app_inv _ _ Hsort) as (Hp & _).
  assert (Hrows : ∀ r, r ∈ page → eligible q r ∧ after_cursor (q_after q) r = true).
  { intros r (i & Hr & _)%elem_of_take. apply list_elem_of_lookup_2 in Hr. destruct (in_page q s r Hs Hr) as (? & ? & ?). done. }
  assert (Hrun := recovery_rows_run q (q_after q) page acc s Hp (Forall_take _ _ _ Hd)
    ltac:(apply Forall_forall; intros; by apply Hrows) ltac:(apply Forall_forall; intros; by apply Hrows)).
  assert (Hsplit : each_row body rows acc s = (acc ← each_row body page acc; each_row body (drop (q_limit q) rows) acc) s)
    by (by rewrite <-each_row_app; unfold page; rewrite take_drop).
  rewrite Hsplit. unfold mbind, M_bind in Hrun |- *. rewrite Hrun.
  destruct (each_row body page acc s) as [s1 [acc1|e]] eqn:E1; [|done]. cbn [fst snd mret].
  destruct (Nat.ltb_spec (q_limit q) (length rows)) as [Hlt|Hge].
  2: { by rewrite drop_ge by done. }
  destruct (list.last page) as [x|] eqn:Ex.
  2: { apply last_None in Ex. unfold page in Ex. apply (f_equal length) in Ex. rewrite length_take in Ex. cbn in Ex. lia. }
  rewrite !(last_cursor_last _ _ x) by done. cbn. rewrite bool_decide_eq_true_2 by done. cbn.
  pose proof (next_rows q s s1 acc _ x Hs E1 Ex) as Hnext. fold rows in Hnext.
  destruct (each_row_frame _ _ _ _ _ Hs E1) as (Hs1 & _).
  rewrite IH; rewrite ?Hnext; [done|done|done|by apply Forall_drop|rewrite length_drop; lia].
Qed.
End Iteration.
End Within.

(** ** What reconciliation concludes

    The phase one reconciliation leaves its effect in, what a prepared effect
    needs to be finalized, and the outcome of the whole loop. *)

Section Conclusions.
Context `{EffectHost}.

(** ** Payloads that fit a column *)

Definition encodable (d : Payload) : Prop := Forall (fun kv => ∃ x, json_stored str_other (snd kv) = Ok x) d.

Lemma encodable_column d : encodable d → ∃ m, json_column str_other d = Ok m.
Proof.
  intros Hd. unfold json_column.
  assert (∃ items, mapR (fun kv => x ← json_stored str_other (snd kv); Ok (fst kv, x)) d = Ok items) as [items ->]; [|by eexists].
  induction Hd as [|kv d [x Hx] _ [items IH]]; cbn; [by eexists|]. rewrite Hx, res_bind_ok, IH. by eexists.
Qed.

Lemma column_encodable d m : json_column str_other d = Ok m → encodable d.
Proof.
  unfold json_column. intros (items & E%mapR_Ok & _)%bind_Ok. unfold encodable.
  induction E as [|kv y l l' (x & Hx & _)%bind_Ok _ IH]; constructor; [by exists x|done].
Qed.

Lemma encodable_set k v d : (∃ x, json_stored str_other v = Ok x) → encodable d → encodable (item_set d k v).
Proof.
  intros Hv Hd. induction Hd as [|[k' v'] d Hkv Hd IH]; cbn; [by constructor|].
  destruct (String.eqb k' k); constructor; done.
Qed.

Lemma encodable_merge d e : encodable d → encodable e → encodable (payload_merge d e).
Proof.
  intros Hd He. unfold payload_merge. revert d Hd. induction He as [|[k v] e Hv _ IH]; intros d Hd; cbn; [done|].
  by apply IH, encodable_set.
Qed.

(** ** Forward runs *)

Lemma effect_transition_run id expected tx md rc now s row m c :
  effects_ok s → effects s !! id = Some row → fromkeys expected ≠ [] → eff_tx row ∈ fromkeys expected → eff_tier row = "full" →
  json_column str_other (or_payload md (eff_metadata row)) = Ok m →
  json_column str_other (or_payload rc (eff_receipt row)) = Ok c →
  ∃ n, ledger s = Some n
    ∧ transition_external_effect id expected tx md rc now s = (wrote id (transitioned row tx m c now) now n s, Ok true).
Proof.
  intros Hs Hr Hne Hin Hfull Hm Hc. destruct (ledger_next s Hs) as (n & En & Ht). exists n. split; [done|].
  pose proof (ek_row _ Hs _ _ Hr) as Hrow. unfold transition_external_effect. cbv zeta.
  rewrite (lift_ok_bind _ _ tt) by (by rewrite bool_decide_eq_false_2). apply effect_unit_Ok.
  unfold get_state. rewrite (run_bind _ _ s s s eq_refl). rewrite Hr.
  rewrite (lift_ok_bind _ _ row) by apply decode_effect, Hrow. rewrite bool_decide_eq_true_2 by done. cbn [negb].
  rewrite (lift_ok_bind _ _ true) by (rewrite (retention_validated row) by apply Hrow; by rewrite Hfull).
  rewrite (lift_ok_bind _ _ tt) by done. rewrite (lift_ok_bind _ _ m), (lift_ok_bind _ _ c) by done.
  unfold modify. rewrite (run_bind _ _ s _ tt eq_refl). set (s1 := set_effects _ s).
  by rewrite (run_bind _ _ _ _ _ (append_run id (eff_state row) tx now s1 n En Ht)).
Qed.

Lemma require_run id s row : effects_ok s → effects s !! id = Some row → require_effect id s = (s, Ok row).
Proof.
  intros Hs Hr. unfold require_effect, seeing. rewrite (run_bind _ _ s s (Some row)); [done|].
  by rewrite (get_effect_ok _ _ _ Hs Hr).
Qed.

(** What the provider handed over as a receipt can be stored. *)
Definition storable (receipt : option Payload) : Prop := ∀ d, receipt = Some d → ∃ c, json_column str_other d = Ok c.

(** A recoverable effect can always be declared unknown, on a receipt that can be stored. *)
Lemma unknown_total id reason rc s row :
  effects_ok s → effects s !! id = Some row → eff_tx row ∈ RECOVERABLE_STATES → eff_tier row = "full" → storable rc →
  ∃ s' r, mark_external_effect_unknown id reason rc s = (s', Ok r).
Proof.
  intros Hs Hr Htx Hfull Hrc. pose proof (ek_row _ Hs _ _ Hr) as Hrow.
  assert (∃ c, json_column str_other (or_payload rc (eff_receipt row)) = Ok c) as [c Hc].
  { destruct rc as [d|]; [by apply (Hrc d)|]. eexists. apply (er_receipt _ _ Hrow). }
  unfold mark_external_effect_unknown.
  rewrite (run_bind _ _ s s row) by by apply require_run. cbv zeta. destruct (_ && _ && _); [by do 2 eexists|].
  set (md := payload_merge _ _).
  destruct (encodable_column md) as [m Hm].
  { apply encodable_merge; [apply (column_encodable _ _ (er_metadata _ _ Hrow))|]. repeat constructor; by eexists. }
  destruct (effect_transition_run id RECOVERABLE_STATES "unknown" (Some md) (Some (or_payload rc (eff_receipt row))) (utc_now 0 s) s row m c)
    as (n & En & E); [done..|exact Hm|exact Hc|].
  unfold seeing at 1. rewrite (run_bind _ _ s s (utc_now 0 s)) by done. rewrite (run_bind _ _ _ _ _ E).
  rewrite (lift_ok_bind _ _ tt) by done. unfold effect_or, seeing.
  destruct (transition_advance _ _ _ _ _ _ lawful_doubt _ _ _ E Hs) as [Hs' _].
  rewrite (run_bind _ _ _ (wrote id (transitioned row "unknown" m c (utc_now 0 s)) (utc_now 0 s) n s)
             (Some (transitioned row "unknown" m c (utc_now 0 s)))); [by do 2 eexists|].
  rewrite (get_effect_ok _ id (transitioned row "unknown" m c (utc_now 0 s)) Hs'); [done|].
  apply lookup_insert_eq.
Qed.

(** ** Phases *)

Lemma transition_phase id expected tx md rc now s s' row :
  effects_ok s → effects s !! id = Some row →
  transition_external_effect id expected tx md rc now s = (s', Ok true) → phase s' id = Some (eff_state row, tx).
Proof.
  intros Hs Hr E. apply effect_transition_Ok in E as (row' & m & c & n & Hr' & _ & _ & _ & _ & _ & ->); [|done].
  rewrite Hr in Hr'. injection Hr' as <-. unfold phase. cbn. by rewrite lookup_insert_eq.
Qed.

Lemma unknown_phase id reason rc s s' r row :
  effects_ok s → effects s !! id = Some row →
  mark_external_effect_unknown id reason rc s = (s', Ok r) → phase s' id = Some (eff_state row, "unknown").
Proof.
  intros Hs Hr. unfold mark_external_effect_unknown. rewrite (run_bind _ _ s s row) by by apply require_run. cbv zeta.
  destruct (String.eqb (eff_tx row) "unknown") eqn:Eu; cbn [andb].
  - destruct (_ && _).
    { intros [= <- _]. unfold phase. rewrite Hr. cbn. apply String.eqb_eq in Eu. by rewrite Eu. }
    intros E. apply M_bind_Ok in E as (now & s1 & [= <- _] & E). apply M_bind_Ok in E as (changed & s1 & E1 & E).
    apply M_bind_Ok in E as (u & s2 & E2 & E). injection E2 as <- Hc%raise_if_Ok%negb_false_iff. subst changed.
    unfold effect_or, seeing in E. apply M_bind_Ok in E as (x & s2 & E2 & E). injection E2 as <- _. injection E as <- _.
    by eapply transition_phase.
  - intros E. apply M_bind_Ok in E as (now & s1 & [= <- _] & E). apply M_bind_Ok in E as (changed & s1 & E1 & E).
    apply M_bind_Ok in E as (u & s2 & E2 & E). injection E2 as <- Hc%raise_if_Ok%negb_false_iff. subst changed.
    unfold effect_or, seeing in E. apply M_bind_Ok in E as (x & s2 & E2 & E). injection E2 as <- _. injection E as <- _.
    by eapply transition_phase.
Qed.

(** A settlement by the evidence layer. *)
Lemma settle_recovery_Ok effect ps rc source run epoch s s' st :
  effects_ok s → _settle_external_effect_recovery effect ps rc source run epoch s = (s', Ok st) →
  ∃ digest row ids m c n, payload_digest rc = Ok digest ∧
    settlement (eff_id effect) (eff_tx effect) ps (settlement_metadata effect ps source digest) rc
      (settlement_audit effect (fresh_id "audit" s) ps source digest (utc_now 0 s)) (utc_now 0 s) run epoch s s' row ids m c n st.
Proof.
  intros Hs E. unfold _settle_external_effect_recovery in E. apply M_bind_Ok in E as (digest & s1 & E1 & E).
  injection E1 as <- Hd. apply M_bind_Ok in E as (s0 & s1 & [= <- <-] & E). cbv zeta in E.
  apply M_bind_Ok in E as (o & s1 & E1 & E). injection E as <- Eo%of_option_Ok. subst o.
  apply settle_Ok in E1 as (row & ids & m & c & n & Hset); [|done]. by exists digest, row, ids, m, c, n.
Qed.

(** What reconciling one effect leaves. *)
Definition concluded (o : option (string * string)) : Prop :=
  o = Some ("pending", "unknown") ∨ ∃ x, x ∈ OUTCOMES ∧ o = Some ("finalized", x).

(** The provider of the effect reported that it never started, on a receipt,
    and no phase of the effect had completed. *)
Definition never_started (sub : Substrate) (effect : ExternalEffectRecord) : Prop :=
  ∃ p reconcile state receipt, select_provider sub (eff_provider effect) = Some p ∧ prov_reconcile p = Some reconcile
    ∧ reconcile effect = Answer state receipt ∧ _normalized_provider_reconciliation_state state receipt = "not_started"
    ∧ no_receipt receipt = false ∧ _require_external_effect_globally_not_started effect = Ok tt.

Lemma reconcile_concludes sub effect s s' :
  effects_ok s → effects s !! eff_id effect = Some effect → eff_state effect = "pending" →
  _reconcile_pending_external_effect sub effect s = (s', Ok tt) →
  concluded (phase s' (eff_id effect))
  ∧ (eff_tx effect = "prepared" → phase s' (eff_id effect) = Some ("pending", "unknown")
       ∨ phase s' (eff_id effect) = Some ("finalized", "failed") ∧ never_started sub effect).
Proof.
  intros Hs Hr Hp. set (id := eff_id effect) in *.
  assert (Hdoubt : ∀ reason rc s1, (_ ← mark_external_effect_unknown id reason rc; mret tt) s = (s1, Ok tt) →
            phase s1 id = Some ("pending", "unknown")).
  { intros reason rc s1 E. apply M_bind_Ok in E as (x & s2 & E & [= <-]). rewrite <-Hp. by eapply unknown_phase. }
  assert (Hun : ∀ s1, phase s1 id = Some ("pending", "unknown") → concluded (phase s1 id)
            ∧ (eff_tx effect = "prepared" → phase s1 id = Some ("pending", "unknown")
                 ∨ phase s1 id = Some ("finalized", "failed") ∧ never_started sub effect)).
  { intros s1 E. rewrite E. split; [by left|by left]. }
  unfold _reconcile_pending_external_effect. destruct (select_provider sub (eff_provider effect)) as [p|] eqn:Esel.
  2: { intros E. eapply Hun, Hdoubt, E. }
  destruct (prov_reconcile p) as [reconcile|] eqn:Erec; [|intros E; eapply Hun, Hdoubt, E].
  destruct (reconcile effect) as [t| |state rc] eqn:Ea; [intros E; eapply Hun, Hdoubt, E..|].
  unfold _persist_provider_reconciliation_result, _persist_provider_terminal_reconciliation. cbv zeta.
  set (normalized := _normalized_provider_reconciliation_state state rc) in *.
  pose proof (persisted_state normalized) as Hst. cbv zeta in Hst.
  assert (Hsel : ∀ x, x ≠ "unknown" → (if bool_decide (normalized ∈ "unknown" :: PROVIDER_STATES) then normalized else "unknown") = x →
                 normalized = x) by (intros x Hx; destruct (bool_decide _); congruence).
  set (selected := if bool_decide (normalized ∈ _) then _ else _) in *.
  destruct (String.eqb (eff_tx effect) "prepared" && negb (bool_decide (selected ∈ ["not_started"; "unknown"]))) eqn:Eprep.
  { intros E. eapply Hun, Hdoubt, E. }
  destruct (bool_decide (selected ∈ PROVIDER_STATES)) eqn:Eprov.
  - destruct (no_receipt rc) eqn:Enr; [intros E; eapply Hun, Hdoubt, E|]. intros E. apply M_bind_Ok in E as (st & s1 & E & [= ->]).
    apply settle_recovery_Ok in E as (digest & row & ids & m & c & n & _ & Hset); [|done]. fold id in Hset.
    pose proof (sm_row _ _ _ _ _ _ _ _ _ _ _ _ _ _ _ _ _ Hset) as Hrow. rewrite Hr in Hrow. injection Hrow as <-.
    destruct (sm_request _ _ _ _ _ _ _ _ _ _ _ _ _ _ _ _ _ Hset) as (_ & Hps & Honly & _).
    assert (phase s' id = Some ("finalized", settled_state selected)) as ->.
    { unfold phase. rewrite (sm_effects _ _ _ _ _ _ _ _ _ _ _ _ _ _ _ _ _ Hset), lookup_insert_eq. done. }
    split; [right; exists (settled_state selected); split; [by apply settled_outcome|done]|].
    intros Hprep. right. rewrite (Honly Hprep). split; [done|]. exists p, reconcile, state, rc. split_and!; try done.
    + apply (Hsel "not_started"); [done|]. by apply Honly.
    + apply (sm_not_started _ _ _ _ _ _ _ _ _ _ _ _ _ _ _ _ _ Hset). by apply Honly.
  - apply bool_decide_eq_false in Eprov. rewrite (Hst Eprov). cbv zeta. destruct (String.eqb (eff_tx effect) "unknown" && _ && _) eqn:Esame.
    { intros [= <-]. apply Hun. apply andb_true_iff in Esame as [[Eu _]%andb_true_iff _]. apply String.eqb_eq in Eu.
      unfold phase. rewrite Hr. cbn. by rewrite Hp, Eu. }
    intros E. apply M_bind_Ok in E as (now & s1 & E1 & E). injection E1 as <- _. apply M_bind_Ok in E as (changed & s1 & E1 & E).
    injection E as <- Hc%raise_if_Ok%negb_false_iff. subst changed. apply Hun. rewrite <-Hp. by eapply transition_phase.
Qed.

(** ** The loop *)

(** Protected effects that were never dispatched are left to their recovery. *)
Definition skipped (r : ExternalEffectRecord) : bool := String.eqb (eff_tx r) "prepared" && protected_metadata r.

Definition seen_rows (rows : list ExternalEffectRecord) : list ExternalEffectRecord :=
  List.filter (fun r => negb (skipped r)) rows.

Definition resolved (s' : EStore) (r : ExternalEffectRecord) : Prop :=
  if skipped r then effects s' !! eff_id r = Some r else concluded (phase s' (eff_id r)).

Definition in_table (s : EStore) (r : ExternalEffectRecord) : Prop :=
  effects s !! eff_id r = Some r ∧ eff_state r = "pending".

Lemma reconcile_one_Ok sub page acc r s s' acc' :
  effects_ok s → in_table s r → reconcile_one sub page acc r s = (s', Ok acc') →
  resolved s' r ∧ acc' = (if skipped r then acc else counted page acc (eff_id r)).
Proof.
  intros Hs [Hr Hp]. unfold reconcile_one, resolved. fold (skipped r). destruct (skipped r).
  - by intros [= <- <-].
  - intros ([] & s1 & E & [= <- <-])%M_bind_Ok. split; [|done]. by apply (reconcile_concludes _ _ _ _ Hs Hr Hp E).
Qed.

Lemma in_table_frame rows r s s1 :
  Forall (in_table s) rows → eff_id r ∉ map eff_id rows → (∀ j, j ≠ eff_id r → effects s1 !! j = effects s !! j) →
  Forall (in_table s1) rows.
Proof.
  intros Hall Hni Hframe. rewrite Forall_forall in *. intros x Hx. destruct (Hall x Hx) as [Hr Hp]. split; [|done].
  rewrite Hframe; [done|]. intros He. apply Hni. rewrite <-He. by apply list_elem_of_In, in_map, list_elem_of_In.
Qed.

Lemma reconcile_loop sub page rows acc s s' acc' :
  effects_ok s → NoDup (map eff_id rows) → Forall (in_table s) rows →
  each_row (reconcile_one sub page) rows acc s = (s', Ok acc') →
  Forall (resolved s') rows ∧ acc' = foldl (fun a r => counted page a (eff_id r)) acc (seen_rows rows).
Proof.
  revert acc s. induction rows as [|r rows IH]; intros acc s Hs Hnd Hall E; cbn [each_row] in E.
  { injection E as <- <-. by split. }
  cbn [map] in Hnd. apply NoDup_cons in Hnd as [Hni Hnd]. apply Forall_cons in Hall as [Hr Hall].
  apply M_bind_Ok in E as (acc1 & s1 & E1 & E). destruct (reconcile_one_within _ _ _ _ _ _ _ E1 Hs) as (Hs1 & Hframe & _).
  destruct (reconcile_one_Ok _ _ _ _ _ _ _ Hs Hr E1) as [Hres ->].
  destruct (IH _ _ Hs1 Hnd (in_table_frame _ _ _ _ Hall Hni Hframe) E) as [Hrest ->].
  destruct (each_row_frame _ (reconcile_one_within sub page) _ _ _ _ _ Hs1 E) as (_ & Hkeep & _).
  split.
  - constructor; [|done]. unfold resolved, phase in *. by rewrite Hkeep.
  - cbn. by destruct (skipped r).
Qed.

Lemma counted_fold page n sample rows :
  foldl (fun a r => counted page a (eff_id r)) (n, sample) rows
  = ((n + Z.of_nat (length rows))%Z, sample ++ take (page - length sample) (map eff_id rows)).
Proof.
  revert n sample. induction rows as [|r rows IH]; intros n sample; cbn [foldl map].
  { rewrite take_nil, app_nil_r. cbn [length]. f_equal. lia. }
  unfold counted at 2. cbn [fst snd]. destruct (Nat.ltb_spec (length sample) page) as [Hlt|Hge]; rewrite IH; cbn [length].
  - rewrite length_app. cbn [length]. f_equal; [lia|]. replace (page - length sample) with (S (page - (length sample + 1))) by lia.
    cbn [take]. by rewrite <-app_assoc.
  - f_equal; [lia|]. by replace (page - length sample) with 0 by lia.
Qed.

(** ** Providers that conclude nothing *)

(** The answer settles nothing: it names no known state, or a terminal one
    without a receipt, or another one than a start that was certified not to
    have happened, for an effect that was only prepared.  Its receipt can be
    stored. *)
Definition settles_nothing (r : ExternalEffectRecord) (state : pyval) (receipt : option Payload) : Prop :=
  let normalized := _normalized_provider_reconciliation_state state receipt in
  storable receipt
  ∧ (normalized ∉ PROVIDER_STATES ∨ no_receipt receipt = true ∨ eff_tx r = "prepared" ∧ normalized ≠ "not_started").

Definition inconclusive (sub : Substrate) (r : ExternalEffectRecord) : Prop :=
  match select_provider sub (eff_provider r) with
  | Some p => match prov_reconcile p with
              | Some reconcile => match reconcile r with Answer state receipt => settles_nothing r state receipt | _ => True end
              | None => True
              end
  | None => True
  end.

Definition recoverable (r : ExternalEffectRecord) : Prop := eff_tx r ∈ RECOVERABLE_STATES ∧ eff_tier r = "full".

(** The effect is in doubt, or was left alone. *)
Definition doubted (s' : EStore) (r : ExternalEffectRecord) : Prop :=
  if skipped r then effects s' !! eff_id r = Some r else phase s' (eff_id r) = Some ("pending", "unknown").

Lemma persist_total r state rc s :
  effects_ok s → in_table s r → recoverable r → settles_nothing r state rc →
  ∃ s', _persist_provider_reconciliation_result r state rc s = (s', Ok tt) ∧ phase s' (eff_id r) = Some ("pending", "unknown").
Proof.
  intros Hs [Hr Hp] [Htx Hfull] [Hrc Hnone]. pose proof (ek_row _ Hs _ _ Hr) as Hrow.
  assert (∀ reason rc', storable rc' → ∃ s', (_ ← mark_external_effect_unknown (eff_id r) reason rc'; mret tt) s = (s', Ok tt)
            ∧ phase s' (eff_id r) = Some ("pending", "unknown")) as Hmark.
  { intros reason rc' Hrc'. destruct (unknown_total (eff_id r) reason rc' s r Hs Hr Htx Hfull Hrc') as (s' & x & E). exists s'.
    rewrite (run_bind _ _ _ _ _ E). split; [done|]. rewrite <-Hp. by eapply unknown_phase. }
  unfold _persist_provider_reconciliation_result, _persist_provider_terminal_reconciliation. cbv zeta.
  set (normalized := _normalized_provider_reconciliation_state state rc) in *.
  pose proof (persisted_state normalized) as Hst. cbv zeta in Hst.
  set (selected := if bool_decide (normalized ∈ _) then _ else _) in *.
  destruct (String.eqb (eff_tx r) "prepared" && _) eqn:Eprep; [by apply Hmark|].
  destruct (bool_decide (selected ∈ PROVIDER_STATES)) eqn:Eprov.
  - assert (no_receipt rc = true) as ->; [|by apply Hmark].
    apply bool_decide_eq_true in Eprov. assert (selected = normalized) as Hsel.
    { unfold selected in *. destruct (bool_decide _); [done|]. unfold PROVIDER_STATES in Eprov. set_solver. }
    rewrite Hsel in *. destruct Hnone as [?|[?|[Hprep Hns]]]; [done|done|].
    rewrite Hprep in Eprep. cbn in Eprep. apply negb_false_iff, bool_decide_eq_true in Eprep. exfalso.
    apply elem_of_cons in Eprep as [Ex|Ex%list_elem_of_singleton]; [done|]. rewrite Ex in Eprov.
    unfold PROVIDER_STATES in Eprov. set_solver.
  - apply bool_decide_eq_false in Eprov. rewrite (Hst Eprov). cbv zeta.
    destruct (String.eqb (eff_tx r) "unknown" && _ && _) eqn:Esame.
    { exists s. split; [done|]. apply andb_true_iff in Esame as [[Eu%String.eqb_eq _]%andb_true_iff _].
      unfold phase. rewrite Hr. cbn. by rewrite Hp, Eu. }
    set (md := payload_merge _ _). destruct (encodable_column md) as [m Hm].
    { apply encodable_merge; [apply (column_encodable _ _ (er_metadata _ _ Hrow))|]. repeat constructor; by eexists. }
    assert (∃ c, json_column str_other (or_payload rc []) = Ok c) as [c Hc].
    { destruct rc as [d|]; [by apply (Hrc d)|by eexists]. }
    destruct (effect_transition_run (eff_id r) RECOVERABLE_STATES "unknown" (Some md) (Some (or_payload rc [])) (utc_now 0 s) s r m c)
      as (n & En & E); [done..|exact Hm|exact Hc|].
    unfold seeing at 1. rewrite (run_bind _ _ s s (utc_now 0 s)) by done. rewrite (run_bind _ _ _ _ _ E).
    eexists. split; [done|]. rewrite <-Hp. by eapply transition_phase.
Qed.

Lemma reconcile_one_total sub page acc r s :
  effects_ok s → in_table s r → recoverable r → inconclusive sub r →
  ∃ s' acc', reconcile_one sub page acc r s = (s', Ok acc') ∧ doubted s' r.
Proof.
  intros Hs [Hr Hp] [Htx Hfull] Hinc. unfold reconcile_one, doubted. fold (skipped r). destruct (skipped r); [by do 2 eexists|].
  assert (∀ reason, ∃ s', (_ ← mark_external_effect_unknown (eff_id r) reason None; mret tt) s = (s', Ok tt)
            ∧ phase s' (eff_id r) = Some ("pending", "unknown")) as Hmark.
  { intros reason. destruct (unknown_total (eff_id r) reason None s r Hs Hr Htx Hfull) as (s' & x & E); [done|]. exists s'.
    rewrite (run_bind _ _ _ _ _ E). split; [done|]. rewrite <-Hp. by eapply unknown_phase. }
  assert (∃ s', _reconcile_pending_external_effect sub r s = (s', Ok tt) ∧ phase s' (eff_id r) = Some ("pending", "unknown")) as (s' & E & Hph).
  { unfold _reconcile_pending_external_effect. unfold inconclusive in Hinc. destruct (select_provider _ _) as [p|]; [|apply Hmark].
    destruct (prov_reconcile p) as [reconcile|]; [|apply Hmark]. destruct (reconcile r) as [t| |state rc]; [apply Hmark..|]. by apply persist_total. }
  exists s', (counted page acc (eff_id r)). by rewrite (run_bind _ _ _ _ _ E).
Qed.

Lemma reconcile_loop_total sub page rows acc s :
  effects_ok s → NoDup (map eff_id rows) → Forall (in_table s) rows → Forall recoverable rows → Forall (inconclusive sub) rows →
  ∃ s' acc', each_row (reconcile_one sub page) rows acc s = (s', Ok acc') ∧ Forall (doubted s') rows.
Proof.
  revert acc s. induction rows as [|r rows IH]; intros acc s Hs Hnd Hall Hrec Hinc; cbn [each_row]; [by do 2 eexists|].
  cbn [map] in Hnd. apply NoDup_cons in Hnd as [Hni Hnd]. apply Forall_cons in Hall as [Hr Hall], Hrec as [Hrr Hrec], Hinc as [Hir Hinc].
  destruct (reconcile_one_total sub page acc r s Hs Hr Hrr Hir) as (s1 & acc1 & E1 & Hdoubt). rewrite (run_bind _ _ _ _ _ E1).
  destruct (reconcile_one_within _ _ _ _ _ _ _ E1 Hs) as (Hs1 & Hframe & _).
  destruct (IH acc1 s1) as (s' & acc' & E & Hrest); [done|done|by eapply in_table_frame|done|done|].
  exists s', acc'. split; [done|]. constructor; [|done].
  destruct (each_row_frame _ (reconcile_one_within sub page) _ _ _ _ _ Hs1 E) as (_ & Hkeep & _).
  unfold doubted, phase in *. by rewrite Hkeep.
Qed.
End Conclusions.
