(* ===== verification/EffectProperties.v ===== *)
(** * Properties of the effect ledger

    The life of an effect over any history of operations, what the ledger
    gives back, idempotency keys, settlements and reconciliation. *)

From S2P Require Import Prelude PyStr PyVal PyEnum ProcessState ProcessModel ProcessStore CapabilityModel AuthorityRules CapabilityEvaluator ResourceTables ResourceManager JsonColumn CapabilityTables StoreSteps EffectModel EffectTables EffectLedger EffectInvariant EffectUpdates EffectSettlement EffectHistory EffectPages EffectReconciliation.
From stdpp Require Import sorting.

Section EffectProperties.
Context `{EffectHost}.

(** ** Lives *)

(** (C7) The evidence layer refines the abstract machine of effect lives.  Over
    any history of its operations, whatever the providers answer and however
    they are interleaved with those of other managers, the phases of the effects
    and the log of the ledger make a run of [lives_step]: one at a time, an
    effect that does not exist is prepared (or recorded with its outcome), one
    that was not dispatched is dispatched, a pending one is put in doubt or
    settled with one of the four outcomes, and the phase that is written is the
    next entry of the ledger.  A pending effect disappears only where the
    history abandons intents.  A finalized effect keeps its outcome and the
    boundary it was recorded for, and the tables stay well-formed. *)
Theorem effects_refine_lifecycle gone s s' :
  effects_ok s → rtc (effect_step gone) s s' →
  effects_ok s' ∧ rtc (lives_step gone) (lives_of s) (lives_of s')
  ∧ (∀ id r, effects s !! id = Some r → eff_state r = "finalized" →
       ∃ r', effects s' !! id = Some r' ∧ frozen r r').
Proof.
  intros Hs Hh. destruct (effect_steps_advance _ _ _ Hh Hs) as [Hs' Hp]. split; [done|]. split; apply Hp.
Qed.

(** ** The ledger *)

Lemma changed_after_entry n s r : changed_after n s r = true ↔ entry_after n s (eff_id r).
Proof.
  unfold changed_after, entry_after. rewrite existsb_exists. split.
  - intros ([k t] & Hin%list_elem_of_In%elem_of_map_to_list & [He%String.eqb_eq Hlt%Z.ltb_lt]%andb_true_iff). by exists k, t.
  - intros (k & t & Hk & He & Hlt). exists (k, t). split; [by apply list_elem_of_In, elem_of_map_to_list|].
    cbn. by rewrite He, String.eqb_refl, (proj2 (Z.ltb_lt _ _) Hlt).
Qed.

(** (C9) A reader that remembers a ledger sequence and asks later for what
    changed gets an answer whatever happened in between: the stored effects
    with a later ledger entry, of the processes it named, each once and in
    creation order; and an effect it does not get is, in the table, exactly as
    it was. *)
Theorem ledger_finds_every_change fuel n pids s s' :
  effects_ok s → effect_history s s' → ledger s = Some n → size (effects s') < fuel →
  (∀ ps, pids = Some ps → Forall (fun p => p ≠ "") ps) →
  ∃ l, list_external_effects_changed_after fuel n pids s' = Ok l ∧ StronglySorted effect_lt l
    ∧ (∀ r, r ∈ l ↔ effects s' !! eff_id r = Some r ∧ entry_after n s' (eff_id r) ∧ in_batch pids r = true)
    ∧ (∀ r, effects s' !! eff_id r = Some r → in_batch pids r = true → r ∉ l → effects s !! eff_id r = Some r).
Proof.
  intros Hs Hh En Hf Hp. destruct (effect_history_advance _ _ Hh Hs) as [Hs' Hpr].
  destruct (ek_ledger _ Hs) as (m & Em & Hm & _). rewrite En in Em. injection Em as <-.
  exists (effects_where (change_clause n pids s') s'). split; [by apply changed_after_run|].
  split; [by apply effects_where_strict|].
  assert (Hel : ∀ r, r ∈ effects_where (change_clause n pids s') s'
                 ↔ effects s' !! eff_id r = Some r ∧ entry_after n s' (eff_id r) ∧ in_batch pids r = true).
  { intros r. rewrite effects_where_elem by done. unfold change_clause. rewrite andb_true_iff, changed_after_entry. tauto. }
  split; [done|]. intros r Hr Hb Hni. destruct (pg_logged _ _ _ Hpr n _ _ En Hr) as [|He]; [done|].
  exfalso. by apply Hni, Hel.
Qed.

(** ** Idempotency *)

(** No row of the process holds the key. *)
Definition unclaimed (p k : string) (s : EStore) : Prop :=
  ∀ id row, effects s !! id = Some row → holds_key p k row = false.

Lemma find_key_None p k s : _effect_with_idempotency_key p k s = Ok None → unclaimed p k s.
Proof.
  unfold _effect_with_idempotency_key, get_external_effect_by_idempotency, all_effects. intros E id row Hr.
  destruct (holds_key p k row) eqn:Hk; [exfalso|done].
  assert (row ∈ List.filter (holds_key p k) (map snd (map_to_list (effects s)))) as Hin.
  { apply list_elem_of_In, filter_In. split; [|done]. apply in_map_iff. exists (id, row). split; [done|].
    by apply list_elem_of_In, elem_of_map_to_list. }
  destruct (List.filter _ _) as [|x [|y l]]; [by apply elem_of_nil in Hin| |done].
  apply bind_Ok in E as (r & _ & E). done.
Qed.

Lemma identity_Ok p pr op tgt ctx sup oid key s e h k :
  _effect_identity p pr op tgt ctx sup oid key s = Ok (e, h, k) →
  unclaimed p k s ∧ (∀ k0, key = Some k0 → k0 ≠ "" → k = k0).
Proof.
  unfold _effect_identity. intros (approval & _ & E)%bind_Ok. apply bind_Ok in E as (computed & _ & E).
  apply bind_Ok in E as (u & _ & E). apply bind_Ok in E as (selected & Hsel & E). apply bind_Ok in E as (existing & Hex & E).
  apply bind_Ok in E as (u' & Hnone%raise_if_Ok%bool_decide_eq_false & [= _ _ <-]).
  destruct existing as [r|]; [by destruct Hnone; eexists|]. split; [by apply find_key_None|].
  intros k0 -> Hne. apply String.eqb_neq in Hne. rewrite Hne in Hsel. by injection Hsel as <-.
Qed.

Lemma insert_intent_run r s s' x : _insert_effect_intent r s = (s', x) →
  match x with Ok u => insert_external_effect r s = (s', Ok u) | Err _ => s' = s end.
Proof.
  unfold _insert_effect_intent. destruct (insert_external_effect r s) as [s1 [u|e]] eqn:E.
  - by intros [= <- <-].
  - apply insert_Err in E as ->. by destruct (_effect_with_idempotency_key _ _ _) as [[]|]; intros [= <- <-].
Qed.

Lemma pure_bind_run {A B} (f : EStore → res A) (k : A → M EStore B) s s' x : (seeing f ≫= k) s = (s', x) →
  (s' = s ∧ ∃ e, x = Err e) ∨ ∃ a, f s = Ok a ∧ k a s = (s', x).
Proof.
  intros [(e & E & ->)|(a & s1 & E & Ek)]%bind_run; injection E as <- E; [left; by split; [|exists e]|right; by exists a].
Qed.

(** What a prepared intent leaves: nothing but an error, or its row. *)
Lemma prepare_run ops i s s' x :
  prepare_external_effect_intent ops i s = (s', x) →
  (s' = s ∧ ∃ e, x = Err e) ∨
  ∃ e h k now md s1, unclaimed (int_pid i) k s ∧ (∀ k0, int_key i = Some k0 → k0 ≠ "" → k = k0)
    ∧ insert_external_effect (intent_record i e h k now md) s = (s1, Ok tt) ∧ same_effects s1 s'
    ∧ ∀ r, x = Ok r → r = intent_record i e h k now md.
Proof.
  unfold prepare_external_effect_intent. intros [|(policy & _ & E)]%pure_bind_run; [by left|].
  apply (pure_bind_run (fun _ => intent_context (int_metadata i))) in E as [|(ctx & _ & E)]; [by left|]. cbv zeta in E.
  apply pure_bind_run in E as [|([[e h] k] & [Hfree Hkey]%identity_Ok & E)]; [by left|]. cbn [fst snd] in E.
  apply pure_bind_run in E as [|(now & _ & E)]; [by left|].
  apply (pure_bind_run (fun _ => _effect_metadata (int_metadata i) (int_flow i) policy)) in E as [|(md & _ & E)]; [by left|].
  apply bind_run in E as [(er & E1%insert_intent_run & ->)|([] & s1 & E1%insert_intent_run & E)]; [left; by split; [|exists er]|].
  right. exists e, h, k, now, md, s1. do 3 (split; [done|]).
  assert (Hlink : keeps same_effects (match ops with None => mret tt | Some _ => _link_pending_effect ops (intent_record i e h k now md) end : M EStore unit)).
  { destruct ops; [|keep_leaf]. unfold _link_pending_effect. apply keeps_bind; [apply _|apply expect_same|intros _].
    apply keeps_bind; [apply _|apply link_same|intros _; keep_leaf]. }
  apply bind_run in E as [(er & E2 & ->)|(u & s2 & E2 & E)].
  - split; [exact (Hlink _ _ _ E2)|done].
  - injection E as <- <-. split; [exact (Hlink _ _ _ E2)|by intros r [= <-]].
Qed.

(** (C10) An idempotency key dispatches once: while an effect of the process
    holds the key of an intent, whatever the state of that effect, the intent
    is refused before anything is written; and an
    intent that is accepted becomes a new pending row under its key, which no
    row of the process held, so that the next one with the key is refused. *)
Theorem idempotency_key_blocks ops i s s' x :
  effects_ok s → prepare_external_effect_intent ops i s = (s', x) →
  (∀ k id row, int_key i = Some k → k ≠ "" → effects s !! id = Some row → holds_key (int_pid i) k row = true →
     s' = s ∧ ∃ e, x = Err e)
  ∧ (∀ r, x = Ok r → ∃ k row, eff_key r = Some k ∧ unclaimed (int_pid i) k s
       ∧ effects s !! eff_id r = None ∧ effects s' = <[eff_id r := row]> (effects s)
       ∧ holds_key (int_pid i) k row = true ∧ phase s' (eff_id r) = Some ("pending", "prepared")).
Proof.
  intros Hs E. apply prepare_run in E as [[-> [er ->]]|(e & h & k & now & md & s1 & Hfree & Hkey & E1 & (Esame & _) & Hret)].
  { split; [intros; split; [done|by exists er]|done]. }
  split.
  - intros k0 id row Hk Hne Hr Hholds. exfalso. rewrite (Hkey k0 Hk Hne) in Hfree. by rewrite (Hfree _ _ Hr) in Hholds.
  - intros r ->%Hret. apply effect_insert_Ok in E1 as (row & n & (m & c & -> & _)%effect_params_Ok & Hnone & _ & _ & ->).
    exists k, (with_payloads m c (occurred_at (intent_record i e h k now md)) (intent_record i e h k now md)). split; [done|]. split; [done|]. split; [done|].
    split; [exact Esame|]. split.
    + unfold holds_key. cbn. by rewrite String.eqb_refl, bool_decide_eq_true_2.
    + unfold phase. rewrite Esame. cbn. by rewrite lookup_insert_eq.
Qed.

(** ** Settlements *)

Lemma settle_recovery_Err effect ps rc source run epoch s s' e :
  effects_ok s → _settle_external_effect_recovery effect ps rc source run epoch s = (s', Err e) → s' = s.
Proof.
  intros Hs. unfold _settle_external_effect_recovery.
  intros [(e1 & [= -> _] & _)|(digest & s1 & [= <- _] & E)]%bind_run; [done|].
  apply bind_run in E as [(e1 & [= -> _] & _)|(s0 & s1 & [= <- <-] & E)]. cbv zeta in E.
  apply bind_run in E as [(e1 & E & _)|(o & s1 & E & Eo)]; [by apply settle_Err in E|].
  injection Eo as -> Eo. destruct o as [st|]; [done|]. by apply settle_Ok in E.
Qed.

Lemma require_effect_run id s s' x : effects_ok s → require_effect id s = (s', x) →
  s' = s ∧ ∀ r, x = Ok r → effects s !! id = Some r.
Proof.
  intros Hs. unfold require_effect. intros [[-> [e ->]]|(found & Hf%get_effect_Ok & [= <- <-])]%pure_bind_run; [done| |done].
  split; [done|]. subst found. destruct (effects s !! id); [by intros r [= <-]|done].
Qed.

(** (C8) Settling an effect in doubt on a receipt the Host selected: whatever
    goes wrong, in the request, in the provider's verifier, in the run fence,
    in a reservation, every table is as it was. Otherwise the provider
    verified the receipt for the stored row, the row was pending in the state
    the Host expected and belonged to the run under the epoch given, and the
    settlement is complete: the row is finalized with the provider's outcome,
    the ledger has one more entry and the audit its record; when the effect
    never started its reserved uses went back to their capabilities, its
    envelopes were released and its key is free again, and otherwise the uses
    are committed and no capability gained any. *)
Theorem receipt_settlement_converges provider run id expected receipt epoch lease s s' x :
  effects_ok s →
  settle_external_effect_from_authoritative_receipt provider run id expected receipt epoch lease s = (s', x) →
  match x with
  | Err _ => s' = s
  | Ok st => ∃ p verify answer ps rc row,
      provider = Some p ∧ prov_verify p = Some verify ∧ verify row receipt = Ok answer
      ∧ _verified_provider_receipt answer = Ok (ps, rc) ∧ in_run (eff_pid row) run epoch s = true
      ∧ ∃ md audit now ids m c n,
          settlement id expected ps md rc audit now (Some run) (Some epoch) s s' row ids m c n st
  end.
Proof.
  intros Hs. unfold settle_external_effect_from_authoritative_receipt.
  do 4 (intros [(e & [= -> _] & ->)|(? & s1 & [= <- _] & E)]%bind_run; [done|]; revert E).
  intros [(e & E & ->)|(row & s1 & E1 & E)]%bind_run; [by apply require_effect_run in E as [-> _]|].
  apply require_effect_run in E1 as [-> Hrow]; [|done]. specialize (Hrow row eq_refl).
  apply bind_run in E as [(e & [= -> _] & ->)|(u & s1 & [= <- Hst%raise_if_Ok%negb_false_iff] & E)]; [done|].
  apply andb_true_iff in Hst as [_ Htx%String.eqb_eq].
  apply bind_run in E as [(e & [= -> _] & ->)|(verify & s1 & [= <- Hv%of_option_Ok] & E)]; [done|].
  apply bind_run in E as [(e & [= -> _] & ->)|(answer & s1 & [= <- Ha] & E)]; [done|].
  apply bind_run in E as [(e & [= -> _] & ->)|([ps rc] & s1 & [= <- Hc] & E)]; [done|]. cbn [fst snd] in E.
  destruct x as [st|e]; [|by eapply settle_recovery_Err].
  pose proof (er_id _ _ (ek_row _ Hs _ _ Hrow)) as Hid.
  apply settle_recovery_Ok in E as (digest & row' & ids & m & c & n & _ & Hset); [|done]. rewrite Hid, Htx in Hset.
  assert (row' = row) as ->.
  { pose proof (sm_row _ _ _ _ _ _ _ _ _ _ _ _ _ _ _ _ _ Hset) as Hr. rewrite Hrow in Hr. by injection Hr. }
  destruct provider as [p|]; [|done]. exists p, verify, answer, ps, rc, row. do 4 (split; [done|]).
  split; [exact (sm_fence _ _ _ _ _ _ _ _ _ _ _ _ _ _ _ _ _ Hset)|]. by do 7 eexists.
Qed.

(** (C11) An effect that was prepared and never dispatched is not finalized on a
    provider's word alone: reconciliation leaves it in doubt, or finalizes it
    as failed, and then its provider reported on a receipt that it never
    started, and no phase of it had completed; a Host receipt finalizes it
    only with that same conclusion. *)
Theorem prepared_effect_needs_certificate id row s s' :
  effects_ok s → effects s !! id = Some row → eff_state row = "pending" → eff_tx row = "prepared" →
  (∀ sub, _reconcile_pending_external_effect sub row s = (s', Ok tt) →
     phase s' id = Some ("pending", "unknown")
     ∨ phase s' id = Some ("finalized", "failed") ∧ never_started sub row)
  ∧ (∀ provider run expected receipt epoch lease st,
       settle_external_effect_from_authoritative_receipt provider run id expected receipt epoch lease s = (s', Ok st) →
       phase s' id = Some ("finalized", "failed") ∧ stl_provider_state st = "not_started"
       ∧ _require_external_effect_globally_not_started row = Ok tt).
Proof.
  intros Hs Hr Hp Htx. pose proof (er_id _ _ (ek_row _ Hs _ _ Hr)) as Hid. split.
  - intros sub E. subst id. by apply (reconcile_concludes _ _ _ _ Hs Hr Hp E).
  - intros provider run expected receipt epoch lease st. unfold settle_external_effect_from_authoritative_receipt. intros E.
    do 4 (apply M_bind_Ok in E as (? & s1 & [= <- _] & E)). apply M_bind_Ok in E as (row' & s1 & E1 & E).
    apply require_effect_run in E1 as [-> Hrow]; [|done]. specialize (Hrow row' eq_refl). rewrite Hr in Hrow. injection Hrow as <-.
    do 3 (apply M_bind_Ok in E as (? & s1 & [= <- _] & E)). apply M_bind_Ok in E as ([ps rc] & s1 & [= <- _] & E). cbn [fst snd] in E.
    apply settle_recovery_Ok in E as (digest & row' & ids & m & c & n & _ & Hset); [|done]. rewrite Hid in Hset.
    pose proof (sm_row _ _ _ _ _ _ _ _ _ _ _ _ _ _ _ _ _ Hset) as Hr'. rewrite Hr in Hr'. injection Hr' as <-.
    destruct (sm_request _ _ _ _ _ _ _ _ _ _ _ _ _ _ _ _ _ Hset) as (_ & _ & Honly & _). specialize (Honly Htx) as ->.
    split; [|split].
    + unfold phase. by rewrite (sm_effects _ _ _ _ _ _ _ _ _ _ _ _ _ _ _ _ _ Hset), lookup_insert_eq.
    + apply (sm_result _ _ _ _ _ _ _ _ _ _ _ _ _ _ _ _ _ Hset).
    + by apply (sm_not_started _ _ _ _ _ _ _ _ _ _ _ _ _ _ _ _ _ Hset).
Qed.

(** ** Reconciliation *)

Definition pending_rows (s : EStore) : list ExternalEffectRecord :=
  effects_where (fun r => String.eqb (eff_state r) "pending") s.

Section Reconciliation.
Context (sub : Substrate) (page : nat) (s : EStore) (fuel : nat).
Context (Hok : effects_ok s) (Hpage : 0 < page <= recovery_page_hard_limit).
Context (Hdated : ∀ id r, effects s !! id = Some r → dated r) (Hfuel : size (effects s) < fuel).

Lemma pending_in_table : Forall (in_table s) (pending_rows s).
Proof.
  apply Forall_forall. intros r Hr. apply effects_where_elem in Hr as [Hp%String.eqb_eq Hr]; [|exact Hok]. by split.
Qed.

Lemma pending_ids : NoDup (map eff_id (pending_rows s)).
Proof. unfold pending_rows, effects_where. rewrite (merge_sort_Permutation effect_le). by apply filter_ids, all_effects_ids. Qed.

(** Startup reconciliation is a loop over the effects pending when it began. *)
Lemma reconcile_loop_eq :
  reconcile_pending_external_effects fuel sub (Ok tt) page s
  = (acc ← each_row (reconcile_one sub page) (pending_rows s) (0%Z, []); lift_res (mk_effect_summary (fst acc) (snd acc))) s.
Proof using Hok Hpage Hdated Hfuel.
  unfold reconcile_pending_external_effects. rewrite (lift_ok_bind _ _ tt) by done.
  set (q := {| q_effect_state := "pending"; q_transaction_states := []; q_after := None; q_limit := page |}).
  rewrite (lift_ok_bind _ _ q).
  2: { unfold mk_recovery_query. rewrite bool_decide_eq_true_2 by (apply (bool_decide_unpack _); by vm_compute).
       cbn. by replace (page =? 0) with false by (symmetry; apply Nat.eqb_neq; lia). }
  assert (effects_where (recoverable_row q) s = pending_rows s) as Hrows.
  { apply effects_where_ext; [done|]. intros r _. unfold recoverable_row. cbn. by rewrite !andb_true_r. }
  unfold mbind, M_bind at 1 2. rewrite iter_snapshot; rewrite ?Hrows; [done|apply reconcile_one_within|done|done| |].
  - apply Forall_forall. intros r [_ Hr]%effects_where_elem; [|done]. by eapply Hdated.
  - unfold pending_rows. pose proof (effects_where_length (fun r => String.eqb (eff_state r) "pending") s). lia.
Qed.
End Reconciliation.

(** (C12) Startup reconciliation visits, page by page while it changes the very
    rows it pages over, exactly the effects that were pending when it began,
    each once: with a page for every row it comes to an end, its summary
    counts and samples those it did not leave to a protected operation, each
    of them is in doubt or finalized afterwards, and no other effect changed. *)
Theorem reconciliation_drains sub page s fuel s' x :
  effects_ok s → 0 < page <= recovery_page_hard_limit →
  (∀ id r, effects s !! id = Some r → dated r) → size (effects s) < fuel →
  reconcile_pending_external_effects fuel sub (Ok tt) page s = (s', x) →
  (acc ← each_row (reconcile_one sub page) (pending_rows s) (0%Z, []);
   lift_res (mk_effect_summary (fst acc) (snd acc))) s = (s', x)
  ∧ ∀ summary, x = Ok summary →
      esum_total summary = Z.of_nat (length (seen_rows (pending_rows s)))
      ∧ esum_sample summary = take page (map eff_id (seen_rows (pending_rows s)))
      ∧ (∀ id r, effects s !! id = Some r → eff_state r = "pending" → resolved s' r)
      ∧ (∀ id, (∀ r, effects s !! id = Some r → eff_state r ≠ "pending") → effects s' !! id = effects s !! id).
Proof.
  intros Hs Hpage Hd Hf E. rewrite (reconcile_loop_eq sub page s fuel Hs Hpage Hd Hf) in E. split; [done|].
  intros summary ->. apply M_bind_Ok in E as (acc & s1 & E & Esum). injection Esum as -> Esum.
  destruct (reconcile_loop _ _ _ _ _ _ _ Hs (pending_ids s Hs) (pending_in_table s Hs) E) as [Hres Hacc].
  rewrite counted_fold in Hacc. cbn [length app] in Hacc. rewrite Nat.sub_0_r in Hacc. subst acc.
  unfold mk_effect_summary in Esum. apply bind_Ok in Esum as (u1 & _ & Esum). apply bind_Ok in Esum as (u2 & _ & Esum).
  apply bind_Ok in Esum as (u3 & _ & [= <-]). cbn [fst snd esum_total esum_sample]. split; [done|]. split; [done|]. split.
  - intros id r Hr Hp. rewrite Forall_forall in Hres. apply Hres. unfold pending_rows. apply effects_where_elem; [done|].
    split; [by apply String.eqb_eq|]. by rewrite (er_id _ _ (ek_row _ Hs _ _ Hr)).
  - intros id Hid. destruct (each_row_frame _ (reconcile_one_within sub page) _ _ _ _ _ Hs E) as (_ & Hframe & _).
    apply Hframe. intros (r & <- & Hr%list_elem_of_In)%list_elem_of_In%in_map_iff. unfold pending_rows in Hr.
    apply effects_where_elem in Hr as [Hp%String.eqb_eq Hr]; [|done]. by apply (Hid r).
Qed.

(** (C13) Providers that settle nothing never stop the startup.  Let every
    pending effect be in a recoverable state with its full payload, and its
    provider be missing, raise, answer something that is no reconciliation
    result, or answer a result that settles nothing (no known state, a terminal
    one without a receipt, or another one than a certified [not_started] for a
    prepared effect) whose receipt, if any, can be stored as JSON.  Then
    reconciliation returns its summary, and every pending effect it did not
    leave to a protected operation is recorded as in doubt.  The receipt must
    be storable: see [EffectSamples.poisoned_answer_stops_reconciliation]. *)
Theorem silent_providers_never_block sub page s fuel :
  effects_ok s → 0 < page <= recovery_page_hard_limit →
  (∀ id r, effects s !! id = Some r → dated r) → size (effects s) < fuel →
  (∀ id r, effects s !! id = Some r → eff_state r = "pending" → recoverable r ∧ inconclusive sub r) →
  ∃ s' summary, reconcile_pending_external_effects fuel sub (Ok tt) page s = (s', Ok summary)
    ∧ ∀ id r, effects s !! id = Some r → eff_state r = "pending" →
        if skipped r then effects s' !! id = Some r else phase s' id = Some ("pending", "unknown").
Proof.
  intros Hs Hpage Hd Hf Hall. rewrite (reconcile_loop_eq sub page s fuel Hs Hpage Hd Hf).
  assert (Hpend : ∀ r, r ∈ pending_rows s → effects s !! eff_id r = Some r ∧ eff_state r = "pending").
  { intros r Hr. pose proof (pending_in_table s Hs) as Ht. rewrite Forall_forall in Ht. by apply Ht. }
  destruct (reconcile_loop_total sub page (pending_rows s) (0%Z, []) s) as (s' & acc & E & Hdoubt);
    [done|by apply pending_ids|by apply pending_in_table| | |].
  1-2: apply Forall_forall; intros r [Hr Hp]%Hpend; by apply (Hall _ _ Hr Hp).
  rewrite (run_bind _ _ _ _ _ E). destruct (reconcile_loop _ _ _ _ _ _ _ Hs (pending_ids s Hs) (pending_in_table s Hs) E) as [_ Hacc].
  rewrite counted_fold in Hacc. cbn [length app] in Hacc. rewrite Nat.sub_0_r in Hacc. subst acc. cbn [fst snd].
  set (ids := map eff_id (seen_rows (pending_rows s))).
  assert (Hids : existsb (fun i => String.eqb i "") (take page ids) = false).
  { apply not_true_is_false. intros (i & Hi%list_elem_of_In & Heq%String.eqb_eq)%existsb_exists.
    apply elem_of_take in Hi as (k & Hi%list_elem_of_lookup_2%list_elem_of_In & _). apply in_map_iff in Hi as (r & <- & Hr).
    apply filter_In in Hr as [Hr%list_elem_of_In%Hpend _]. by apply (Hd _ _ (proj1 Hr)). }
  exists s', {| esum_total := 0 + Z.of_nat (length (seen_rows (pending_rows s))); esum_sample := take page ids |}. split.
  - unfold mk_effect_summary, lift_res. rewrite Hids. rewrite length_take. unfold ids. rewrite length_map.
    set (n := length _). replace (0 + Z.of_nat n <? 0)%Z with false by (symmetry; apply Z.ltb_ge; lia).
    by replace (0 + Z.of_nat n <? _)%Z with false by (symmetry; apply Z.ltb_ge; lia).
  - intros id r Hr Hp. pose proof (er_id _ _ (ek_row _ Hs _ _ Hr)) as Hid. rewrite Forall_forall in Hdoubt.
    specialize (Hdoubt r). unfold doubted in Hdoubt. rewrite Hid in Hdoubt. apply Hdoubt. unfold pending_rows.
    apply effects_where_elem; [done|]. split; [by apply String.eqb_eq|by rewrite Hid].
Qed.
End EffectProperties.
