(* ===== verification/EffectSamples.v ===== *)
(** * Concrete effect tables

    A host, providers, and the tables the theorems on the effect ledger are
    instantiated on. *)

From S2P Require Import Prelude PyStr PyVal PyEnum ProcessState ProcessModel ProcessStore ProcessInvariant CapabilityModel AuthorityRules CapabilityEvaluator ResourceTables ResourceManager JsonColumn CapabilityTables CapabilityLease CapabilitySamples StoreSteps EffectModel EffectTables EffectLedger EffectInvariant EffectUpdates EffectSettlement EffectHistory EffectPages EffectReconciliation EffectProperties.
From stdpp Require Import sorting pretty.

(** ** The host *)

Definition ledger_text (s : EStore) : string := pretty (match ledger s with Some n => Z.to_nat n | None => 0 end).

#[export] Instance effect_host : EffectHost := {|
  effect_caps := sample_host;
  utc_now _ s := "t" +:+ ledger_text s;
  fresh_id prefix s := prefix +:+ ledger_text s;
  recovery_page_hard_limit := 10;
  assert_effect _ _ _ := Ok tt;
  manifest_policy _ _ := Ok None;
|}.

Definition no_effects : EStore := {|
  caps := bare; capacity := ∅; usage_rows := ∅; effects := ∅; ledger := Some 0%Z; transitions := ∅;
  run_epochs := {[ "run" := 7%Z ]}; op_rows := ∅; op_links := []; audits := []; notes := [];
|}.

Lemma empty_effects_ok s :
  effects s = ∅ → ledger s = Some 0%Z → transitions s = ∅ → usage_rows s = ∅ → effects_ok s.
Proof.
  intros He Hl Ht Hu. split.
  - intros id r Hx. by rewrite He in Hx.
  - intros i j r r' k Hx. by rewrite He in Hx.
  - exists 0%Z. split; [done|]. split; [lia|]. intros k. rewrite Ht, lookup_empty. split; [by intros []|lia].
  - intros id r Hx. by rewrite He in Hx.
  - intros id r Hx. by rewrite Hu in Hx.
Qed.

(** ** Providers *)

Definition commit_receipt : Payload := [("id", PStr "r1")].

Definition committing : Provider :=
  {| prov_reconcile := Some (fun _ => Answer (PStr "committed") (Some commit_receipt));
     prov_verify := Some (fun _ rc => Ok (Answer (PStr "committed") (Some rc))) |}.
Definition not_starting : Provider :=
  {| prov_reconcile := Some (fun _ => Answer (PStr "not_started") (Some commit_receipt));
     prov_verify := Some (fun _ rc => Ok (Answer (PStr "not_started") (Some rc))) |}.
Definition failing : Provider :=
  {| prov_reconcile := Some (fun _ => AnswerRaises "TimeoutError"); prov_verify := None |}.
(** Answers that settle nothing; the receipt of the second one cannot be stored. *)
Definition vague : Provider :=
  {| prov_reconcile := Some (fun _ => Answer (PStr "in_progress") (Some commit_receipt)); prov_verify := None |}.
Definition poisoned : Provider :=
  {| prov_reconcile := Some (fun _ => Answer (PStr "unknown") (Some [("cost", PFloat SpecFloat.S754_nan)])); prov_verify := None |}.

Definition with_provider (p : Provider) : Substrate :=
  {| sub_overrides _ := None; sub_provider name := if String.eqb name "fs" then Some p else None |}.

(** ** Runs *)

Definition efinal {A} (m : M EStore A) (s : EStore) : EStore := fst (m s).
Definition ereturns {A} (m : M EStore A) (s : EStore) : bool := is_Ok (snd (m s)).

Lemma ereturns_run {A} (m : M EStore A) s : ereturns m s = true → ∃ a, m s = (efinal m s, Ok a).
Proof. apply run_ok. Qed.

Lemma eruns {A} (m : M EStore A) s : effect_runs m s (efinal m s).
Proof. unfold effect_runs, efinal. destruct (m s) as [s' r]. by exists r. Qed.

Definition writing (key : string) : EffectIntent := {|
  int_pid := "alice"; int_provider := "fs"; int_operation := "write"; int_target := Some "/srv/x";
  int_mutation := true; int_flow := false; int_metadata := None; int_key := Some key;
  int_canonical_args := None; int_policy := false |}.

Definition prepare (key : string) : M EStore ExternalEffectRecord := prepare_external_effect_intent None (writing key).

Definition one_prepared : EStore := efinal (prepare "k1") no_effects.
Definition two_prepared : EStore := efinal (prepare "k2") one_prepared.
Definition dispatched_first : EStore := efinal (mark_external_effect_dispatched "effintent0") two_prepared.
Definition reconciled (p : Provider) : M EStore ExternalEffectRecoverySummary :=
  reconcile_pending_external_effects 3 (with_provider p) (Ok tt) 1.
Definition settled : EStore := efinal (reconciled committing) dispatched_first.

Example phases_along :
  (phase dispatched_first "effintent0", phase dispatched_first "effintent1", phase settled "effintent0", phase settled "effintent1",
   ledger settled, ereturns (reconciled committing) dispatched_first)
  = (Some ("pending", "dispatched"), Some ("pending", "prepared"), Some ("finalized", "committed"), Some ("pending", "unknown"),
     Some 5%Z, true).
Proof. by vm_compute. Qed.

(** *** A protected operation

    Alice runs in a task run, has a use of a two-use capability reserved for
    the write, and declares it with the intent. *)

Definition alice_process : AgentProcess :=
  let d := demo_process "alice" RUNNABLE in
  {| pid := "alice"; parent_pid := None; image_id := image_id d; status := status d; goal_oid := goal_oid d;
     memory_view := memory_view d; capabilities := capabilities d; loaded_skills := loaded_skills d;
     tool_table := tool_table d; event_cursor := event_cursor d; checkpoint_head := checkpoint_head d;
     resource_budget := resource_budget d; resource_usage := resource_usage d; created_at := created_at d;
     updated_at := updated_at d; working_directory := working_directory d; status_message := status_message d;
     wait_state := wait_state d; outcome := outcome d; state_generation := state_generation d;
     llm_profile_id := llm_profile_id d; model_tool_table := model_tool_table d; revision := revision d;
     execution_generation := execution_generation d; execution_owner_id := execution_owner_id d;
     execution_lease_id := execution_lease_id d; task_run_id := Some "run"; task_run_epoch := Some 7%Z;
     task_run_role := task_run_role d |}.

Definition reserving : M CStore string := reserve (at_time 2) "cap0" "alice" (effect_reason "fs.write") 1.
Definition reserved_caps : CStore := state_after reserving twice.
Definition reservation : string := match snd (reserving twice) with Ok r => r | Err _ => "" end.

Definition protected_start : EStore := {|
  caps := set_procs (set_processes (fun _ => {[ "alice" := alice_process ]}) (procs reserved_caps)) reserved_caps;
  capacity := ∅; usage_rows := ∅; effects := ∅; ledger := Some 0%Z; transitions := ∅;
  run_epochs := {[ "run" := 7%Z ]}; op_rows := ∅; op_links := []; audits := []; notes := [] |}.

Definition protected_intent : EffectIntent := {|
  int_pid := "alice"; int_provider := "fs"; int_operation := "write"; int_target := Some "/srv/x";
  int_mutation := true; int_flow := false;
  int_metadata := Some [("protected_operation", PDict [(PStr "actor", PStr "alice"); (PStr "contract_name", PStr "fs.write");
    (PStr "reservation_ids", PList [PStr reservation])])];
  int_key := Some "k1"; int_canonical_args := None; int_policy := false |}.

Definition protected_prepared : EStore := efinal (prepare_external_effect_intent None protected_intent) protected_start.

Definition receipt_run (p : Provider) (epoch : Z) : M EStore ExternalEffectRecoverySettlement :=
  settle_external_effect_from_authoritative_receipt (Some p) "run" "effintent0" "prepared" commit_receipt epoch (Ok tt).

Example receipts_along :
  (reservation, uses_left "cap0" (caps protected_prepared), phase protected_prepared "effintent0")
  = ("capres2", Some (Some 1%Z), Some ("pending", "prepared"))
  ∧ (ereturns (receipt_run not_starting 7) protected_prepared, ereturns (receipt_run committing 7) protected_prepared,
     ereturns (receipt_run not_starting 6) protected_prepared) = (true, false, false).
Proof. by vm_compute. Qed.

(** ** Histories *)

Lemma one_history : effect_history no_effects one_prepared.
Proof. apply rtc_once. eapply estep_prepare, eruns. Qed.

Lemma two_history : effect_history one_prepared two_prepared.
Proof. apply rtc_once. eapply estep_prepare. apply (eruns (prepare "k2") one_prepared). Qed.

Lemma dispatch_history : effect_history two_prepared dispatched_first.
Proof. apply rtc_once. eapply estep_dispatch, eruns. Qed.

Lemma settled_history : effect_history dispatched_first settled.
Proof. apply rtc_once. eapply estep_reconcile, eruns. Qed.

Lemma reached_effects s s' : effects_ok s → effect_history s s' → effects_ok s'.
Proof. intros Hs Hh. by destruct (effect_history_advance _ _ Hh Hs). Qed.

Lemma start_ok : effects_ok no_effects.
Proof. by apply empty_effects_ok. Qed.
Lemma one_ok : effects_ok one_prepared.
Proof. eapply reached_effects; [apply start_ok|apply one_history]. Qed.
Lemma two_ok : effects_ok two_prepared.
Proof. eapply reached_effects; [apply one_ok|apply two_history]. Qed.
Lemma dispatched_ok : effects_ok dispatched_first.
Proof. eapply reached_effects; [apply two_ok|apply dispatch_history]. Qed.
Lemma protected_ok : effects_ok protected_prepared.
Proof.
  eapply (reached_effects protected_start); [by apply empty_effects_ok|]. apply rtc_once. eapply estep_prepare, eruns.
Qed.

(** Both effects are stored with an identifier and a date. *)
Definition well_dated (s : EStore) : bool :=
  forallb (fun kr => negb (String.eqb (eff_created_at (snd kr)) "") && negb (String.eqb (eff_id (snd kr)) "")) (map_to_list (effects s)).

Lemma well_dated_spec s : well_dated s = true → ∀ id r, effects s !! id = Some r → dated r.
Proof.
  unfold well_dated. rewrite forallb_forall. intros Hall id r Hr%elem_of_map_to_list%list_elem_of_In. apply Hall in Hr. cbn in Hr.
  apply andb_true_iff in Hr as [H1%negb_true_iff%String.eqb_neq H2%negb_true_iff%String.eqb_neq]. by split.
Qed.

(** What the row of an effect looks like. *)
Definition stored_as (id : string) (f : ExternalEffectRecord → bool) (s : EStore) : bool :=
  match effects s !! id with Some r => f r | None => false end.

Lemma stored_as_spec id f s : stored_as id f s = true → ∃ r, effects s !! id = Some r ∧ f r = true.
Proof. unfold stored_as. destruct (effects s !! id) as [r|]; [by exists r|done]. Qed.

Definition in_state (tx : string) (r : ExternalEffectRecord) : bool := String.eqb (eff_state r) "pending" && String.eqb (eff_tx r) tx.

Lemma in_state_spec tx r : in_state tx r = true → eff_state r = "pending" ∧ eff_tx r = tx.
Proof. unfold in_state. by rewrite andb_true_iff, !String.eqb_eq. Qed.

(** ** Witnesses *)

(** Prepared, dispatched and committed; the other one in doubt; and no intent
    abandoned. *)
Lemma effects_refine_lifecycle_witness :
  (phase two_prepared "effintent0", phase settled "effintent0") = (Some ("pending", "prepared"), Some ("finalized", "committed"))
  ∧ effects_ok settled ∧ rtc (lives_step false) (lives_of two_prepared) (lives_of settled)
  ∧ lv_log (lives_of settled) !! 3%Z = Some ("effintent0", ("pending", "dispatched")).
Proof.
  destruct (effects_refine_lifecycle false two_prepared settled) as (Hok & Hlife & _).
  - exact two_ok.
  - eapply rtc_l; [eapply estep_dispatch, eruns|]. apply rtc_once. eapply estep_reconcile, eruns.
  - split; [by vm_compute|]. split; [exact Hok|]. split; [exact Hlife|by vm_compute].
Defined.

(** The dispatch is found, and nothing else. *)
Lemma ledger_finds_every_change_witness :
  ledger two_prepared = Some 2%Z
  ∧ (∃ r, effects two_prepared !! "effintent1" = Some r ∧ effects dispatched_first !! "effintent1" = Some r)
  ∧ ∃ l, list_external_effects_changed_after 3 2 (Some ["alice"; "bob"]) dispatched_first = Ok l
      ∧ map eff_id l = ["effintent0"] ∧ StronglySorted effect_lt l.
Proof.
  split; [by vm_compute|].
  split; [eexists; split; [vm_compute; reflexivity|vm_compute; reflexivity]|].
  destruct (ledger_finds_every_change 3 2%Z (Some ["alice"; "bob"]) two_prepared dispatched_first) as (l & E & Hs & _).
  - exact two_ok.
  - exact dispatch_history.
  - by vm_compute.
  - apply Nat.ltb_lt. by vm_compute.
  - intros ps [= <-]. by repeat constructor.
  - exists l. split; [exact E|]. split; [|exact Hs].
    assert (map eff_id <$> (match list_external_effects_changed_after 3 2 (Some ["alice"; "bob"]) dispatched_first with
              Ok x => Some x | Err _ => None end) = Some ["effintent0"]) as Hids by (by vm_compute).
    rewrite E in Hids. cbn in Hids. by injection Hids.
Defined.

(** The key of the first effect is refused, another is not. *)
Lemma idempotency_key_blocks_witness :
  ereturns (prepare "k1") one_prepared = false ∧ efinal (prepare "k1") one_prepared = one_prepared
  ∧ ereturns (prepare "k2") one_prepared = true.
Proof.
  split; [by vm_compute|]. split; [|by vm_compute].
  destruct (stored_as_spec "effintent0" (holds_key "alice" "k1") one_prepared) as (row & Hrow & Hk); [by vm_compute|].
  destruct (idempotency_key_blocks None (writing "k1") one_prepared (efinal (prepare "k1") one_prepared) (snd (prepare "k1" one_prepared))) as [Hblock _].
  - exact one_ok.
  - apply surjective_pairing.
  - by destruct (Hblock "k1" "effintent0" row).
Defined.

(** The prepared effect never started: its use goes back, its key is free. *)
Lemma receipt_settlement_converges_witness :
  uses_left "cap0" (caps protected_prepared) = Some (Some 1%Z)
  ∧ uses_left "cap0" (caps (efinal (receipt_run not_starting 7) protected_prepared)) = Some (Some 2%Z)
  ∧ (∃ row md audit now ids m c n st,
      settlement "effintent0" "prepared" "not_started" md commit_receipt audit now (Some "run") (Some 7%Z)
        protected_prepared (efinal (receipt_run not_starting 7) protected_prepared) row ids m c n st)
  ∧ efinal (receipt_run not_starting 6) protected_prepared = protected_prepared.
Proof.
  split; [by vm_compute|]. split; [by vm_compute|]. split.
  - destruct (ereturns_run (receipt_run not_starting 7) protected_prepared) as [st E]; [by vm_compute|].
    destruct (receipt_settlement_converges (Some not_starting) "run" "effintent0" "prepared" commit_receipt 7 (Ok tt) protected_prepared _ _
      protected_ok E)
      as (p & verify & answer & ps & rc & row & [= <-] & [= <-] & [= <-] & Hv & _ & md & audit & now & ids & m & c & n & Hset).
    injection Hv as <- <-. exists row, md, audit, now, ids, m, c, n, st. exact Hset.
  - pose proof (receipt_settlement_converges (Some not_starting) "run" "effintent0" "prepared" commit_receipt 6 (Ok tt) protected_prepared _ _
      protected_ok (surjective_pairing (receipt_run not_starting 6 protected_prepared))) as Hx.
    assert (match snd (receipt_run not_starting 6 protected_prepared) with Ok _ => false | Err _ => true end = true) as Herr by (by vm_compute).
    destruct (snd (receipt_run not_starting 6 protected_prepared)); [discriminate Herr|exact Hx].
Defined.

(** The provider says committed, and the effect is in doubt; it says it never
    started, and the effect has failed. *)
Lemma prepared_effect_needs_certificate_witness :
  (∃ row s', effects protected_prepared !! "effintent0" = Some row
    ∧ _reconcile_pending_external_effect (with_provider committing) row protected_prepared = (s', Ok tt)
    ∧ phase s' "effintent0" = Some ("pending", "unknown"))
  ∧ phase (efinal (receipt_run not_starting 7) protected_prepared) "effintent0" = Some ("finalized", "failed").
Proof.
  destruct (stored_as_spec "effintent0" (fun r => in_state "prepared" r && String.eqb (eff_provider r) "fs"
      && ereturns (_reconcile_pending_external_effect (with_provider committing) r) protected_prepared) protected_prepared)
    as (row & Hrow & [[[Hp Ht]%in_state_spec Hfs%String.eqb_eq]%andb_true_iff Hret]%andb_true_iff); [by vm_compute|].
  split.
  - destruct (ereturns_run _ _ Hret) as [[] E]. exists row, (efinal (_reconcile_pending_external_effect (with_provider committing) row) protected_prepared).
    split; [exact Hrow|]. split; [exact E|].
    destruct (prepared_effect_needs_certificate "effintent0" row protected_prepared
      (efinal (_reconcile_pending_external_effect (with_provider committing) row) protected_prepared) protected_ok Hrow Hp Ht) as [Hrec _].
    destruct (Hrec _ E) as [Hx|[_ (p & f & state & rc & H1 & H2 & H3 & H4 & _)]]; [exact Hx|exfalso].
    rewrite Hfs in H1. injection H1 as <-. injection H2 as <-. injection H3 as <- <-. discriminate H4.
  - destruct (ereturns_run (receipt_run not_starting 7) protected_prepared) as [st E]; [by vm_compute|].
    destruct (prepared_effect_needs_certificate "effintent0" row protected_prepared
      (efinal (receipt_run not_starting 7) protected_prepared) protected_ok Hrow Hp Ht) as [_ Hrec]. exact (proj1 (Hrec (Some not_starting) "run" "prepared" commit_receipt 7%Z (Ok tt) st E)).
Defined.

(** Two pages of one row. *)
Lemma reconciliation_drains_witness :
  ∃ summary, reconciled committing dispatched_first = (settled, Ok summary)
    ∧ esum_total summary = Z.of_nat (length (seen_rows (pending_rows dispatched_first)))
    ∧ length (seen_rows (pending_rows dispatched_first)) = 2
    ∧ ∀ id r, effects dispatched_first !! id = Some r → eff_state r = "pending" → resolved settled r.
Proof.
  destruct (ereturns_run (reconciled committing) dispatched_first) as [summary E]; [by vm_compute|]. exists summary. split; [exact E|].
  destruct (reconciliation_drains (with_provider committing) 1 dispatched_first 3 settled (Ok summary)) as [_ Hall].
  - exact dispatched_ok.
  - cbn. lia.
  - apply well_dated_spec. by vm_compute.
  - apply Nat.ltb_lt. by vm_compute.
  - exact E.
  - destruct (Hall summary eq_refl) as (Htotal & _ & Hres & _). split; [exact Htotal|]. split; [by vm_compute|exact Hres].
Defined.

Definition storable_b (receipt : option Payload) : bool :=
  match receipt with Some d => is_Ok (json_column str_other d) | None => true end.

Definition silent (sub : Substrate) (s : EStore) : bool :=
  forallb (fun kr => bool_decide (eff_tx (snd kr) ∈ RECOVERABLE_STATES) && String.eqb (eff_tier (snd kr)) "full"
    && match select_provider sub (eff_provider (snd kr)) with
       | Some p => match prov_reconcile p with
                   | Some f => match f (snd kr) with
                               | Answer state rc => storable_b rc
                                   && bool_decide (_normalized_provider_reconciliation_state state rc ∉ PROVIDER_STATES)
                               | _ => true end
                   | None => true end
       | None => true end) (map_to_list (effects s)).

Lemma silent_spec sub s : silent sub s = true → ∀ id r, effects s !! id = Some r → recoverable r ∧ inconclusive sub r.
Proof.
  unfold silent. rewrite forallb_forall. intros Hall id r Hr%elem_of_map_to_list%list_elem_of_In. apply Hall in Hr. cbn in Hr.
  rewrite !andb_true_iff in Hr. destruct Hr as [[H1%bool_decide_eq_true H2%String.eqb_eq] H3]. split; [by split|].
  unfold inconclusive, settles_nothing. destruct (select_provider _ _) as [p|]; [|done]. destruct (prov_reconcile p) as [f|]; [|done]. destruct (f r) as [t| |state rc]; [done..|].
  apply andb_true_iff in H3 as [H3 H4%bool_decide_eq_true]. split; [|by left]. intros d ->. cbn in H3.
  destruct (json_column _ d) as [c|e]; [by exists c|done].
Qed.

(** Neither does an answer that settles nothing, as long as its receipt can be
    stored: a float that is no number makes the write raise, and the loop ends
    with both effects untouched. *)
Lemma poisoned_answer_stops_reconciliation :
  (ereturns (reconciled vague) dispatched_first, phase (efinal (reconciled vague) dispatched_first) "effintent0") = (true, Some ("pending", "unknown"))
  ∧ reconciled poisoned dispatched_first
    = (dispatched_first, Err (ValueError "Out of range float values are not JSON compliant")).
Proof. split; by vm_compute. Qed.

(** The provider raises on both, or answers nothing usable. *)
Lemma silent_providers_never_block_witness :
  phase dispatched_first "effintent0" = Some ("pending", "dispatched")
  ∧ Forall (fun p => ∃ s' summary, reconciled p dispatched_first = (s', Ok summary)
      ∧ phase s' "effintent0" = Some ("pending", "unknown")) [failing; vague].
Proof.
  split; [by vm_compute|]. apply Forall_forall. intros p Hp.
  destruct (silent_providers_never_block (with_provider p) 1 dispatched_first 3) as (s' & summary & E & Hdoubt).
  - exact dispatched_ok.
  - cbn. lia.
  - apply well_dated_spec. by vm_compute.
  - apply Nat.ltb_lt. by vm_compute.
  - intros id r Hr _. apply (silent_spec (with_provider p) dispatched_first) with id; [|exact Hr].
    apply elem_of_cons in Hp as [->|Hp%list_elem_of_singleton]; [|rewrite Hp]; by vm_compute.
  - exists s', summary. split; [exact E|].
    destruct (stored_as_spec "effintent0" (fun r => in_state "dispatched" r && negb (skipped r)) dispatched_first)
      as (r & Hr & [[Hpe _]%in_state_spec Hsk%negb_true_iff]%andb_true_iff); [by vm_compute|].
    specialize (Hdoubt _ _ Hr Hpe). rewrite Hsk in Hdoubt. exact Hdoubt.
Defined.
