(* ===== verification/MessageTables.v ===== *)
(** * Process messages and their table

    [models/messages.py], the security labels of an envelope
    ([memory/data_labels.py], [models/memory.py]) and the [process_messages]
    table of [storage/sql.py], beside the process table. *)

From S2P Require Import Prelude PyStr PyVal PyEnum ProcessState ProcessModel ProcessStore ProcessWrites DataLabels AuthorityRules ResourceTables JsonColumn.
From stdpp Require Import sorting.

(** ** Messages *)

Module MessageKind.
Inductive ProcessMessageKind : Set := NORMAL | INTERRUPT.
End MessageKind.
Abbreviation ProcessMessageKind := MessageKind.ProcessMessageKind.

#[export] Instance message_kind_eq_dec : EqDecision ProcessMessageKind.
Proof. solve_decision. Defined.

#[export] Instance message_kind_enum : StrEnum ProcessMessageKind := {
  enum_members := [MessageKind.NORMAL; MessageKind.INTERRUPT];
  enum_value k := match k with MessageKind.NORMAL => "normal" | MessageKind.INTERRUPT => "interrupt" end;
}.

#[export] Instance message_kind_laws : StrEnumLaws ProcessMessageKind.
Proof. solve_enum. Qed.

Module MessageStatus.
Inductive ProcessMessageStatus : Set := UNREAD | ACKED | SUPERSEDED_BY_RESTORE.
End MessageStatus.
Abbreviation ProcessMessageStatus := MessageStatus.ProcessMessageStatus.

#[export] Instance message_status_eq_dec : EqDecision ProcessMessageStatus.
Proof. solve_decision. Defined.

#[export] Instance message_status_enum : StrEnum ProcessMessageStatus := {
  enum_members := [MessageStatus.UNREAD; MessageStatus.ACKED; MessageStatus.SUPERSEDED_BY_RESTORE];
  enum_value s := match s with
    | MessageStatus.UNREAD => "unread" | MessageStatus.ACKED => "acked"
    | MessageStatus.SUPERSEDED_BY_RESTORE => "superseded_by_restore" end;
}.

#[export] Instance message_status_laws : StrEnumLaws ProcessMessageStatus.
Proof. solve_enum. Qed.

Record ProcessMessage : Type := {
  msg_id : string;
  msg_sender : string;
  msg_recipient : string;
  msg_kind : ProcessMessageKind;
  msg_subject : string;
  msg_body : string;
  msg_channel : string;
  msg_correlation : option string;
  msg_reply_to : option string;
  msg_payload : Payload;
  msg_status : ProcessMessageStatus;
  msg_created_at : string;
  msg_updated_at : string;
  msg_acked_at : option string;
  msg_metadata : Payload;
}.

(** The columns the updates write. *)
Definition with_envelope (payload metadata : Payload) (m : ProcessMessage) : ProcessMessage :=
  {| msg_id := msg_id m; msg_sender := msg_sender m; msg_recipient := msg_recipient m; msg_kind := msg_kind m;
     msg_subject := msg_subject m; msg_body := msg_body m; msg_channel := msg_channel m;
     msg_correlation := msg_correlation m; msg_reply_to := msg_reply_to m; msg_payload := payload;
     msg_status := msg_status m; msg_created_at := msg_created_at m; msg_updated_at := msg_updated_at m;
     msg_acked_at := msg_acked_at m; msg_metadata := metadata |}.

Definition with_status (st : ProcessMessageStatus) (acked : option string) (updated : string) (m : ProcessMessage)
    : ProcessMessage :=
  {| msg_id := msg_id m; msg_sender := msg_sender m; msg_recipient := msg_recipient m; msg_kind := msg_kind m;
     msg_subject := msg_subject m; msg_body := msg_body m; msg_channel := msg_channel m;
     msg_correlation := msg_correlation m; msg_reply_to := msg_reply_to m; msg_payload := msg_payload m;
     msg_status := st; msg_created_at := msg_created_at m; msg_updated_at := updated; msg_acked_at := acked;
     msg_metadata := msg_metadata m |}.

(** [ACKED], at the instant given. *)
Definition acked (now : string) (m : ProcessMessage) : ProcessMessage :=
  with_status MessageStatus.ACKED (Some now) now m.

(** ** Labels of an Object *)

(** The label fields of an [ObjectMetadata]. *)
Record ObjectLabels : Set := {
  ol_sensitivity : string;
  ol_trust_level : string;
  ol_integrity : string;
  ol_origin : option string;
  ol_tenant : option string;
  ol_principal : option string;
  ol_authority : option string;
}.

Definition _validate_object_label (name : string) (v : pyval) (allowed : list string) : res string :=
  match v with
  | PStr s => if bool_decide (s ∈ allowed) then Ok s else Err (ValueError ("invalid object data label " +:+ name))
  | _ => Err (ValueError ("invalid object data label " +:+ name))
  end.

Definition _validate_optional_identity (name : string) (v : pyval) : res (option string) :=
  match v with
  | PNone => Ok None
  | PStr s =>
      _ ← raise_if (String.eqb s "" || negb (String.eqb s (strip s)))
            (ValueError ("invalid object data label " +:+ name));
      _ ← raise_if (String.eqb s "mixed" && negb (bool_decide (name ∈ ["tenant"; "principal"])))
            (ValueError ("invalid object data label " +:+ name));
      _ ← raise_if ((256 <? String.length s) || str_any is_control s)
            (ValueError ("invalid object data label " +:+ name));
      Ok (Some s)
  | _ => Err (ValueError ("invalid object data label " +:+ name))
  end.

(** [ObjectMetadata(...)] given only label fields; the others have defaults
    that are valid. *)
Definition mk_ObjectLabels (sens trust integ org ten prin decl : pyval) : res ObjectLabels :=
  sens ← _validate_object_label "sensitivity" sens _SENSITIVITY_ORDER;
  trust ← _validate_object_label "trust_level" trust _TRUST_ORDER;
  integ ← _validate_object_label "integrity" integ _INTEGRITY_ORDER;
  org ← _validate_optional_identity "origin" org;
  ten ← _validate_optional_identity "tenant" ten;
  prin ← _validate_optional_identity "principal" prin;
  decl ← _validate_optional_identity "declassification_authority" decl;
  Ok {| ol_sensitivity := sens; ol_trust_level := trust; ol_integrity := integ; ol_origin := org;
        ol_tenant := ten; ol_principal := prin; ol_authority := decl |}.

Definition labels_for_explain (l : ObjectLabels) : list (pyval * pyval) :=
  [(PStr "sensitivity", PStr (ol_sensitivity l)); (PStr "trust_level", PStr (ol_trust_level l));
   (PStr "integrity", PStr (ol_integrity l)); (PStr "origin", py_opt (ol_origin l));
   (PStr "tenant", py_opt (ol_tenant l)); (PStr "principal", py_opt (ol_principal l));
   (PStr "declassification_authority", py_opt (ol_authority l))].

(** On a metadata dict. *)
Definition metadata_from_labels (value : Payload) : res (option ObjectLabels) :=
  let kvs := match item_get value "data_labels" with Some (PDict nested) => nested
             | _ => map (fun kv => (PStr (fst kv), snd kv)) value end in
  let field key default := match dict_get kvs key with Some v => v | None => default end in
  if forallb (fun key => negb (bool_decide (is_Some (dict_get kvs key)))) LABEL_FIELDS then Ok None else
  labels ← mk_ObjectLabels (field "sensitivity" (PStr (enum_value DataSensitivity.NORMAL)))
    (field "trust_level" (PStr "unknown")) (field "integrity" (PStr "unknown"))
    (field "origin" (PStr "local")) (field "tenant" PNone) (field "principal" PNone)
    (field "declassification_authority" PNone);
  Ok (Some labels).

(** [DataLabels.from_object_metadata]. *)
Definition from_object_metadata (l : ObjectLabels) : res DataLabels :=
  mk_DataLabels (PStr (ol_sensitivity l)) (PStr (ol_trust_level l)) (PStr (ol_integrity l))
    (py_opt (ol_origin l)) (py_opt (ol_tenant l)) (py_opt (ol_principal l)) (py_opt (ol_authority l)).

(** ** Metadata of an envelope *)

Definition _REQUIRED_DATA_LABEL_FIELDS : list string := ["sensitivity"; "trust_level"; "integrity"].

Definition invalid_labels (e : exn) : exn :=
  match e with
  | ValueError _ | TypeError _ => ValidationError "invalid process message security labels"
  | _ => e
  end.

Definition _canonical_process_message_metadata (selected : Payload) : res Payload :=
  match item_get selected "data_labels" with
  | Some (PDict labels) =>
      _ ← raise_if (negb (forallb (fun k => bool_decide (is_Some (dict_get labels k))) _REQUIRED_DATA_LABEL_FIELDS)
                    || has_unknown_key labels LABEL_FIELDS)
            (ValidationError "process message metadata requires complete security labels");
      _ ← raise_if (match item_get selected "source_oids" with Some (PList _) => false | _ => true end)
            (ValidationError "process message metadata requires canonical source_oids");
      match labels_from_dict (PDict labels) with
      | Ok l => Ok (item_set selected "data_labels" (labels_to_dict l))
      | Err e => Err (invalid_labels e)
      end
  | _ => Err (ValidationError "process message metadata requires complete security labels")
  end.

(** ** The store *)

Record MStore : Type := mkMStore {
  mbase : Store;
  messages : gmap string ProcessMessage;
  (** The records and events, with their decision or payload. *)
  mlog : list (Evidence * Payload);
}.

Definition set_mbase (b : Store) (s : MStore) : MStore := mkMStore b (messages s) (mlog s).
Definition set_messages (f : gmap string ProcessMessage → gmap string ProcessMessage) (s : MStore) : MStore :=
  mkMStore (mbase s) (f (messages s)) (mlog s).
Definition add_evidence (e : Evidence * Payload) (s : MStore) : MStore := mkMStore (mbase s) (messages s) (mlog s ++ [e]).

(** A read. *)
Definition looking {A} (f : MStore → res A) : M MStore A := fun s => (s, f s).

(** An operation of the process store. *)
Definition in_processes {A} (m : M Store A) : M MStore A := fun s =>
  let '(b, r) := m (mbase s) in (set_mbase b s, r).

(** [store.transaction()]: the in-memory takeover intent is not a table. *)
Definition message_unit {A} (m : M MStore A) : M MStore A := fun s =>
  match m s with
  | (s', Ok a) => (s', Ok a)
  | (s', Err e) => (set_mbase (set_takeover (takeover (mbase s')) (mbase s)) s, Err e)
  end.

(** ** The table *)

Section Table.
Variable str_other : pyval → string.

(** Rows hold what the columns hold. *)
Definition _row_to_process_message (row : ProcessMessage) : res ProcessMessage :=
  _persisted_model_decode (
    metadata ← _canonical_process_message_metadata (msg_metadata row);
    Ok (with_envelope (msg_payload row) metadata row)).

Definition insert_process_message (m : ProcessMessage) : M MStore unit :=
  metadata ← lift_res (_canonical_process_message_metadata (msg_metadata m));
  payload_column ← lift_res (json_column str_other (msg_payload m));
  metadata_column ← lift_res (json_column str_other metadata);
  s ← get_state;
  _ ← lift_res (raise_if (bool_decide (is_Some (messages s !! msg_id m)))
        (IntegrityError "UNIQUE constraint failed: process_messages.message_id"));
  modify (set_messages <[msg_id m := with_envelope payload_column metadata_column m]>).

(** The row that matches the [WHERE] clause, updated. *)
Definition update_message_where (id : string) (clause : ProcessMessage → bool)
    (f : ProcessMessage → ProcessMessage) : M MStore bool := fun s =>
  match messages s !! id with
  | Some row => if clause row then (set_messages <[id := f row]> s, Ok true) else (s, Ok false)
  | None => (s, Ok false)
  end.

Definition ack_process_message (id recipient acked_at updated_at : string) : M MStore bool :=
  update_message_where id
    (fun row => String.eqb (msg_recipient row) recipient && bool_decide (msg_status row = MessageStatus.UNREAD))
    (with_status MessageStatus.ACKED (Some acked_at) updated_at).

(** The [metadata_json] texts are compared. *)
Definition update_process_message_metadata (id recipient : string) (expected metadata : Payload)
    (updated_at : string) : M MStore bool :=
  selected ← lift_res (_canonical_process_message_metadata metadata);
  column ← lift_res (json_column str_other selected);
  expected_column ← lift_res (json_column str_other expected);
  update_message_where id
    (fun row => String.eqb (msg_recipient row) recipient && same_json (py_object (msg_metadata row)) (py_object expected_column))
    (fun row => with_status (msg_status row) (msg_acked_at row) updated_at (with_envelope (msg_payload row) column row)).

Definition get_process_message (id : string) (s : MStore) : res (option ProcessMessage) :=
  match messages s !! id with
  | None => Ok None
  | Some row => m ← _row_to_process_message row; Ok (Some m)
  end.

(** *** Queries *)

(** The keyword arguments of a query; [kind] is the value of a member. *)
Record MessageFilters : Set := {
  fl_kind : option string;
  fl_sender : option string;
  fl_channel : option string;
  fl_correlation : option string;
  fl_reply_to : option string;
  fl_ids : option (list string);
}.

Definition no_filters : MessageFilters :=
  {| fl_kind := None; fl_sender := None; fl_channel := None; fl_correlation := None; fl_reply_to := None;
     fl_ids := None |}.

Definition text_clause (o : option string) (column : option string) : bool :=
  match o with None => true | Some t => bool_decide (column = Some t) end.

(** The clauses of a query for [pid] in one of the [statuses]. *)
Definition message_clause (p : string) (statuses : list ProcessMessageStatus) (f : MessageFilters)
    (m : ProcessMessage) : bool :=
  String.eqb (msg_recipient m) p && bool_decide (msg_status m ∈ statuses)
  && text_clause (fl_kind f) (Some (enum_value (msg_kind m))) && text_clause (fl_sender f) (Some (msg_sender m))
  && text_clause (fl_channel f) (Some (msg_channel m)) && text_clause (fl_correlation f) (msg_correlation m)
  && text_clause (fl_reply_to f) (msg_reply_to m)
  && match fl_ids f with None => true | Some ids => bool_decide (msg_id m ∈ ids) end.

(** [ORDER BY created_at, message_id]. *)
Definition message_le : relation ProcessMessage := dated_le (fun m => (msg_created_at m, msg_id m)).

#[export] Instance message_le_dec : RelDecision message_le.
Proof. intros a b. unfold message_le, dated_le. apply _. Defined.

Definition matching_messages (p : string) (statuses : list ProcessMessageStatus) (f : MessageFilters) (s : MStore)
    : list ProcessMessage :=
  merge_sort message_le (List.filter (message_clause p statuses f) (map snd (map_to_list (messages s)))).

(** [ProcessMessageKind(kind)] on the filter. *)
Definition kind_of (f : MessageFilters) : res unit :=
  match fl_kind f with
  | None => Ok tt
  | Some k => (k ← enum_call (E := ProcessMessageKind) "kind" (PStr k); Ok tt)
  end.

Definition list_process_messages (p : string) (statuses : list ProcessMessageStatus) (f : MessageFilters)
    (limit : option Z) (s : MStore) : res (list ProcessMessage) :=
  if bool_decide (fl_ids f = Some []) then Ok [] else
  if bool_decide (statuses = []) then Ok [] else
  _ ← kind_of f;
  let rows := matching_messages p statuses f s in
  mapR _row_to_process_message
    (match limit with Some n => take (Z.to_nat (Z.max 0 n)) rows | None => rows end).

Definition count_process_messages (p : string) (statuses : list ProcessMessageStatus) (f : MessageFilters)
    (s : MStore) : res Z :=
  if bool_decide (fl_ids f = Some []) then Ok 0%Z else
  if bool_decide (statuses = []) then Ok 0%Z else
  _ ← kind_of f;
  Ok (Z.of_nat (length (matching_messages p statuses f s))).
End Table.
