(* ===== verification/ProcessMessages.v ===== *)
(** * The process message manager

    [runtime/message_manager.py]: per-process queues with explicit reads and
    acknowledgements, and the blocking receive that parks a process until a
    matching message is posted.  Waiting and waking go through the transition
    service over the process store. *)

From S2P Require Import Prelude PyStr PyVal PyEnum ProcessState ProcessModel ProcessStore ProcessWrites ProcessTransition DataLabels AuthorityRules ResourceTables JsonColumn MessageTables.
From stdpp Require Import sorting.

(** ** The host

    [config.tools], the clock, identifiers and the size of a JSON text; the
    event and audit sinks, which may raise; the data-flow ports of the process
    manager and of the authority policy; and the Object-task hook. *)

Class MessageHost : Type := {
  message_exec :: ExecEvidence;
  message_json_dumps : list (string * json) → string;
  message_str : pyval → string;
  message_subject_max_chars : nat;
  message_body_max_chars : nat;
  message_payload_max_bytes : Z;
  message_id_max_chars : nat;
  message_read_limit : Z;
  message_read_hard_limit : Z;
  message_filter_ids_hard_limit : nat;
  message_filter_json_max_bytes : Z;
  message_wait_status_max_chars : nat;
  json_size_bytes : pyval → res Z;
  message_now : MStore → string;
  message_new_id : MStore → string;
  evidence_sink : Evidence * Payload → MStore → res unit;
  text_sha256 : string → string;
  canonical_sha256 : pyval → res string;
  assert_data_flow_labels : string → DataLabels → MStore → res unit;
  trusted_source_context : list string → MStore → res DataFlowContext;
  flow_source_oids : string → option pyval → MStore → res (list string);
  flow_context : string → list string → option pyval → option DataFlowContext → MStore → res DataFlowContext;
  object_tasks : option (ProcessMessage → M MStore unit);
}.

(** The filters of a caller; [isinstance] is applied to the identifiers. *)
Record RawFilters : Type := {
  rf_kind : option string;
  rf_sender : option string;
  rf_channel : option string;
  rf_correlation : option pyval;
  rf_reply_to : option pyval;
  rf_ids : option (list pyval);
}.

Definition raw_of (f : MessageFilters) : RawFilters :=
  {| rf_kind := fl_kind f; rf_sender := fl_sender f; rf_channel := fl_channel f;
     rf_correlation := PStr <$> fl_correlation f; rf_reply_to := PStr <$> fl_reply_to f;
     rf_ids := map PStr <$> fl_ids f |}.

(** [filters] as the dict of the code. *)
Definition filters_json (f : MessageFilters) : list (string * json) :=
  let text o := match o with Some s => JStr s | None => JNull end in
  [("kind", text (fl_kind f)); ("sender", text (fl_sender f)); ("channel", text (fl_channel f));
   ("correlation_id", text (fl_correlation f)); ("reply_to", text (fl_reply_to f));
   ("message_ids", match fl_ids f with Some ids => JList (map JStr ids) | None => JNull end)].

(** What [post] is called with. *)
Record PostRequest : Type := {
  po_sender : string;
  po_recipient : string;
  po_kind : string;
  po_channel : option string;
  po_correlation : option pyval;
  po_reply_to : option pyval;
  po_subject : string;
  po_body : string;
  po_payload : option Payload;
  po_metadata : option Payload;
  po_source_oids : option pyval;
}.

Section Messages.
Context `{MessageHost}.

Definition witness (e : Evidence) (decision : Payload) : M MStore unit :=
  _ ← looking (evidence_sink (e, decision));
  modify (add_evidence (e, decision)).

(** ** Normalisation *)

Definition _normalize_identifier (value : pyval) (label : string) : res string :=
  match value with
  | PStr s =>
      _ ← raise_if (String.eqb s "") (ValidationError (label +:+ " must be non-empty"));
      _ ← raise_if (contains_char Ascii.zero s) (ValidationError (label +:+ " cannot contain NUL bytes"));
      _ ← raise_if (message_id_max_chars <? String.length s) (ValidationError (label +:+ " exceeds the limit of chars"));
      Ok s
  | _ => Err (ValidationError (label +:+ " must be a string"))
  end.

Definition _normalize_optional_identifier (value : option pyval) (label : string) : res (option string) :=
  match value with
  | None | Some PNone => Ok None
  | Some v => s ← _normalize_identifier v label; Ok (Some s)
  end.

Definition _normalize_channel (channel : option string) : res string :=
  let selected := strip (match channel with Some c => if String.eqb c "" then "default" else c | None => "default" end) in
  _ ← raise_if (String.eqb selected "") (ProcessError "process message channel must be non-empty");
  _ ← raise_if (128 <? String.length selected) (ProcessError "process message channel is too long");
  Ok selected.

Definition _normalize_limit (limit : option pyval) : res Z :=
  selected ← match limit with
             | None | Some PNone => Ok message_read_limit
             | Some (PInt n) => Ok n
             | _ => Err (ValidationError "process message read limit must be an integer")
             end;
  _ ← raise_if (selected <? 0)%Z (ValidationError "process message read limit must be non-negative");
  _ ← raise_if (message_read_hard_limit <? selected)%Z (ValidationError "process message read limit exceeds the hard limit");
  Ok selected.

Definition _validate_message_ids (ids : option (list pyval)) : res (option (list string)) :=
  match ids with
  | None => Ok None
  | Some l =>
      _ ← raise_if (message_filter_ids_hard_limit <? length l) (ValidationError "process message id filter exceeds the limit");
      checked ← mapR (fun v => _normalize_identifier v "process message id filter") l;
      Ok (Some checked)
  end.

Definition _validate_text_limit (value : string) (limit : nat) (label : string) : res unit :=
  raise_if (limit <? String.length value) (ValidationError (label +:+ " exceeds the limit of chars")).

Definition ensure_json_size (value : pyval) (limit : Z) (label : string) : res unit :=
  size ← json_size_bytes value;
  raise_if (limit <? size)%Z (ValidationError (label +:+ " exceeds the limit of bytes")).

(** [ProcessMessageKind(kind).value if kind is not None else None]. *)
Definition kind_filter (kind : option string) : res (option string) :=
  match kind with
  | None => Ok None
  | Some k => (k ← enum_call (E := ProcessMessageKind) "kind" (PStr k); Ok (Some (enum_value k)))
  end.

Definition _filters (r : RawFilters) : res MessageFilters :=
  kind ← kind_filter (rf_kind r);
  channel ← match rf_channel r with
            | None => Ok None
            | Some c => (c ← _normalize_channel (Some c); Ok (Some c))
            end;
  correlation ← _normalize_optional_identifier (rf_correlation r) "process message correlation_id filter";
  reply_to ← _normalize_optional_identifier (rf_reply_to r) "process message reply_to filter";
  ids ← _validate_message_ids (rf_ids r);
  let filters := {| fl_kind := kind; fl_sender := rf_sender r; fl_channel := channel;
                    fl_correlation := correlation; fl_reply_to := reply_to; fl_ids := ids |} in
  _ ← ensure_json_size (py_of_json (JObj (filters_json filters))) message_filter_json_max_bytes "process message filters";
  Ok filters.

(** ** Reads *)

Definition process_not_found (p : string) : exn := NotFound ("process not found: " +:+ p).

Definition _require_process (p : string) : M MStore AgentProcess :=
  found ← in_processes (get_process p);
  lift_res (of_option (process_not_found p) found).

Definition unread (p : string) (r : RawFilters) (limit : option pyval) : M MStore (list ProcessMessage) :=
  _ ← _require_process p;
  selected ← lift_res (_normalize_limit limit);
  filters ← lift_res (_filters r);
  looking (list_process_messages p [MessageStatus.UNREAD] filters (Some selected)).

(** The statuses a caller sees. *)
Definition visible_statuses (include_acked : bool) : list ProcessMessageStatus :=
  if include_acked then [MessageStatus.UNREAD; MessageStatus.ACKED] else [MessageStatus.UNREAD].

(** [list]. *)
Definition list_messages (p : string) (include_acked : bool) (r : RawFilters) (limit : option pyval)
    : M MStore (list ProcessMessage) :=
  _ ← _require_process p;
  selected ← lift_res (_normalize_limit limit);
  filters ← lift_res (_filters r);
  looking (list_process_messages p (visible_statuses include_acked) filters (Some selected)).

Definition list_page (p : string) (include_acked : bool) (r : RawFilters) (limit : option pyval)
    : M MStore (list ProcessMessage * Z) :=
  _ ← _require_process p;
  selected ← lift_res (_normalize_limit limit);
  filters ← lift_res (_filters r);
  message_unit (
    messages ← looking (list_process_messages p (visible_statuses include_acked) filters (Some selected));
    count ← looking (count_process_messages p (visible_statuses include_acked) filters);
    mret (messages, count)).

(** ** Matching and waking *)

Definition json_get (filters : list (string * json)) (key : string) : option json :=
  snd <$> List.find (fun kv => String.eqb (fst kv) key) filters.

(** [filters.get(key) is not None and column != filters[key]], negated. *)
Definition json_clause (filters : list (string * json)) (key : string) (column : option string) : bool :=
  match json_get filters key with
  | None | Some JNull => true
  | Some (JStr s) => bool_decide (column = Some s)
  | Some _ => false
  end.

(** [message_id in set(message_ids)]. *)
Definition json_members (ids : json) : res (list string) :=
  match ids with
  | JList l =>
      _ ← raise_if (existsb (fun j => match j with JList _ | JObj _ => true | _ => false end) l)
            (TypeError "unhashable type");
      Ok (omap (fun j => match j with JStr s => Some s | _ => None end) l)
  | JObj kvs => Ok (map fst kvs)
  | JStr s => Ok (map (fun c => String c "") (String.list_ascii_of_string s))
  | _ => Err (TypeError "object is not iterable")
  end.

Definition _message_matches (m : ProcessMessage) (filters : list (string * json)) : res bool :=
  if negb (bool_decide (msg_status m = MessageStatus.UNREAD)) then Ok false else
  if negb (json_clause filters "kind" (Some (enum_value (msg_kind m)))) then Ok false else
  if negb (json_clause filters "sender" (Some (msg_sender m))) then Ok false else
  if negb (json_clause filters "channel" (Some (msg_channel m))) then Ok false else
  if negb (json_clause filters "correlation_id" (msg_correlation m)) then Ok false else
  if negb (json_clause filters "reply_to" (msg_reply_to m)) then Ok false else
  match json_get filters "message_ids" with
  | None | Some JNull => Ok true
  | Some ids => members ← json_members ids; Ok (bool_decide (msg_id m ∈ members))
  end.

Definition wake_reason : string := "process wait condition satisfied".

Definition _wake_if_waiting_for_message (amb : Ambient) (m : ProcessMessage) : M MStore unit :=
  found ← in_processes (get_process (msg_recipient m));
  match found with
  | None => mret tt
  | Some process =>
      if negb (bool_decide (status process = WAITING_EVENT)) then mret tt else
      match wait_state process with
      | Some (MessageProcessWait filters) =>
          matches ← lift_res (_message_matches m filters);
          if negb matches then mret tt else
          token ← lift_res (wait_token process);
          now ← looking (fun s => Ok (message_now s));
          _ ← in_processes (@wake Store (store_repository message_json_dumps amb now) token true wake_reason);
          witness (Audit "process.message" "process.message.wait_wake" ("process:" +:+ pid process))
            [("message_id", PStr (msg_id m)); ("filters", py_of_json (JObj filters))]
      | _ => mret tt
      end
  end.

(** ** Posting *)

Definition TERMINAL_STATUSES : list ProcessStatus := [EXITED; FAILED; KILLED].

(** [str(oid or "").strip()]. *)
Definition oid_text (oid : pyval) : string :=
  match oid with PStr t => strip t | _ => if py_falsy oid then "" else strip (message_str oid) end.

(** The labels and flow of a context, as metadata. *)
Definition flow_items (oids : list string) (context : DataFlowContext) (selected : Payload) : Payload :=
  item_set (item_set (item_set selected "source_oids" (PList (map PStr oids)))
    "data_labels" (labels_to_dict (ctx_labels context))) "data_flow_context" (context_to_dict context).

Definition select_sources (source_oids : option pyval) (selected : Payload) (s : MStore) : res Payload :=
  match source_oids with
  | None | Some PNone => Ok selected
  | Some (PStr _) => Err (ValidationError "process message source_oids must be a collection")
  | Some value =>
      items ← py_items value;
      let selected_oids := fromkeys (map oid_text items) in
      _ ← raise_if (existsb (String.eqb "") selected_oids)
            (ValidationError "process message source_oids cannot contain empty Object ids");
      context ← trusted_source_context selected_oids s;
      Ok (flow_items selected_oids context selected)
  end.

Definition _message_metadata (sender : string) (metadata : option Payload) (source_oids : option pyval)
    (s : MStore) : res Payload :=
  selected ← select_sources source_oids (or_payload metadata []) s;
  selected ← match item_get selected "source_oids" with
             | None | Some PNone => Ok (item_set selected "source_oids" (PList []))
             | Some (PList l) =>
                 Ok (item_set selected "source_oids"
                       (PList (map (fun v => PStr (match v with PStr t => t | _ => message_str v end)) l)))
             | Some _ => Err (ValidationError "process message metadata source_oids must be a list")
             end;
  found ← metadata_from_labels selected;
  labels ← match found with
           | Some labels => Ok labels
           | None => mk_ObjectLabels (PStr (enum_value DataSensitivity.NORMAL))
                       (PStr (if startswith "human:" sender then "user_asserted" else "unknown"))
                       (PStr "unknown") (PStr sender) PNone PNone PNone
           end;
  Ok (item_set selected "data_labels" (PDict (labels_for_explain labels))).

Definition _bind_recipient_task_run_metadata (recipient : AgentProcess) (metadata : Payload) : res Payload :=
  let supplied := match item_get metadata "task_run_id" with Some v => v | None => PNone end in
  match task_run_id recipient with
  | None =>
      _ ← raise_if (negb (is_none supplied))
            (ValidationError "process message task_run_id is reserved for a Run-bound recipient");
      Ok metadata
  | Some run_id =>
      _ ← raise_if (String.eqb run_id "") (ValidationError "recipient has an invalid TaskRun binding");
      _ ← raise_if (negb (is_none supplied) && negb (py_eq supplied (PStr run_id)))
            (ValidationError "process message task_run_id does not match the recipient Run");
      Ok (item_set metadata "task_run_id" (PStr run_id))
  end.

(** [evidence/message_projection.py]. *)
Definition task_run_message_evidence_projection (m : ProcessMessage) : res (option Payload) :=
  match item_get (msg_metadata m) "task_run_id" with
  | None | Some PNone => Ok None
  | Some (PStr run_id) =>
      _ ← raise_if (String.eqb run_id "") (ValidationError "TaskRun process message evidence has an invalid run id");
      payload_sha256 ← canonical_sha256 (py_object (msg_payload m));
      Ok (Some [("task_run_id", PStr run_id); ("message_id", PStr (msg_id m)); ("sender", PStr (msg_sender m));
        ("recipient_pid", PStr (msg_recipient m)); ("kind", PStr (enum_value (msg_kind m)));
        ("channel", PStr (msg_channel m)); ("correlation_id", py_opt (msg_correlation m));
        ("reply_to", py_opt (msg_reply_to m)); ("subject_sha256", PStr (text_sha256 (msg_subject m)));
        ("body_sha256", PStr (text_sha256 (msg_body m))); ("payload_sha256", PStr payload_sha256);
        ("data_labels", match item_get (msg_metadata m) "data_labels" with Some v => v | None => PNone end)])
  | Some _ => Err (ValidationError "TaskRun process message evidence has an invalid run id")
  end.

(** What the event and the audit record carry otherwise. *)
Definition plain_evidence (with_sender : bool) (m : ProcessMessage) : Payload :=
  [("message_id", PStr (msg_id m)); ("kind", PStr (enum_value (msg_kind m))); ("channel", PStr (msg_channel m));
   ("correlation_id", py_opt (msg_correlation m)); ("reply_to", py_opt (msg_reply_to m));
   ("subject", PStr (msg_subject m))]
  ++ (if with_sender then [("sender", PStr (msg_sender m))] else [])
  ++ [("data_labels", match item_get (msg_metadata m) "data_labels" with Some v => v | None => PNone end)].

(** The recipient must exist and not be terminal. *)
Definition live_recipient (p : string) : M MStore AgentProcess :=
  recipient ← _require_process p;
  _ ← lift_res (raise_if (bool_decide (status recipient ∈ TERMINAL_STATUSES))
        (ProcessError "cannot post message to terminal process"));
  mret recipient.

(** The message, before anything is written. *)
Definition envelope (r : PostRequest) (recipient : AgentProcess) (s : MStore) : res ProcessMessage :=
  kind ← enum_call (E := ProcessMessageKind) "kind" (PStr (po_kind r));
  let payload := or_payload (po_payload r) [] in
  metadata ← _message_metadata (po_sender r) (po_metadata r) (po_source_oids r) s;
  metadata ← _bind_recipient_task_run_metadata recipient metadata;
  found ← metadata_from_labels metadata;
  _ ← match found with
      | None => Ok tt
      | Some labels => (selected ← from_object_metadata labels; assert_data_flow_labels (po_recipient r) selected s)
      end;
  _ ← _validate_text_limit (po_subject r) message_subject_max_chars "process message subject";
  _ ← _validate_text_limit (po_body r) message_body_max_chars "process message body";
  correlation ← _normalize_optional_identifier (po_correlation r) "process message correlation_id";
  reply_to ← _normalize_optional_identifier (po_reply_to r) "process message reply_to";
  _ ← ensure_json_size (PDict [(PStr "payload", py_object payload); (PStr "metadata", py_object metadata)])
        message_payload_max_bytes "process message payload and metadata";
  let now := message_now s in
  channel ← _normalize_channel (po_channel r);
  Ok {| msg_id := message_new_id s; msg_sender := po_sender r; msg_recipient := po_recipient r; msg_kind := kind;
        msg_subject := po_subject r; msg_body := po_body r; msg_channel := channel;
        msg_correlation := correlation; msg_reply_to := reply_to; msg_payload := payload;
        msg_status := MessageStatus.UNREAD; msg_created_at := now; msg_updated_at := now; msg_acked_at := None;
        msg_metadata := metadata |}.

(** The transaction of [post]. *)
Definition post_unit (amb : Ambient) (m : ProcessMessage) (projection : option Payload) : M MStore unit :=
  message_unit (
    _ ← live_recipient (msg_recipient m);
    _ ← insert_process_message message_str m;
    _ ← witness (Event "process_message_posted" (msg_sender m) (msg_recipient m))
          (or_payload projection (plain_evidence true m));
    _ ← witness (Audit (msg_sender m) "process.message.post" ("process:" +:+ msg_recipient m))
          (or_payload projection (plain_evidence false m));
    _wake_if_waiting_for_message amb m).

(** Run after the commit: neither the hook nor its diagnostics can fail the
    post. *)
Definition notify_object_tasks (m : ProcessMessage) : M MStore unit := fun s =>
  match object_tasks with
  | None => (s, Ok tt)
  | Some hook =>
      match hook m s with
      | (s1, Ok _) => (s1, Ok tt)
      | (s1, Err _) =>
          let '(s2, _) := witness (Audit "process.message" "process.message.object_task_wake_failed"
                            ("process_message:" +:+ msg_id m))
                            [("recipient_pid", PStr (msg_recipient m)); ("error", PStr "internal exception")] s1 in
          (s2, Ok tt)
      end
  end.

Definition post (amb : Ambient) (r : PostRequest) : M MStore ProcessMessage :=
  recipient ← live_recipient (po_recipient r);
  message ← looking (envelope r recipient);
  projection ← lift_res (task_run_message_evidence_projection message);
  _ ← post_unit amb message projection;
  _ ← notify_object_tasks message;
  mret message.

(** ** Sending between processes *)

Definition _require_related_process (sender_pid recipient_pid : string) : M MStore unit :=
  sender ← _require_process sender_pid;
  recipient ← in_processes (get_process recipient_pid);
  let related := match recipient with
    | None => false
    | Some r => String.eqb (pid sender) (pid r) || bool_decide (parent_pid sender = Some (pid r))
                || bool_decide (parent_pid r = Some (pid sender))
    end in
  lift_res (raise_if (negb related)
    (ProcessError (sender_pid +:+ " can only message itself, its parent, or its direct children"))).

(** [metadata] and [source_oids] of the request are those of the caller of
    [post], and are not used here. *)
Definition send_from_process (amb : Ambient) (r : PostRequest) (source_labels : option pyval)
    (source_context : option DataFlowContext) : M MStore ProcessMessage :=
  _ ← _require_related_process (po_sender r) (po_recipient r);
  selected_sources ← looking (flow_source_oids (po_sender r) (po_source_oids r));
  context ← looking (flow_context (po_sender r) selected_sources source_labels source_context);
  post amb {| po_sender := po_sender r; po_recipient := po_recipient r; po_kind := po_kind r;
              po_channel := po_channel r; po_correlation := po_correlation r; po_reply_to := po_reply_to r;
              po_subject := po_subject r; po_body := po_body r; po_payload := po_payload r;
              po_metadata := Some (flow_items selected_sources context []); po_source_oids := None |}.

(** ** Receiving *)

Definition _message_wait_state (filters : list (string * json)) : res ProcessWaitState :=
  w ← mk_MessageProcessWait (py_of_json (JObj filters));
  _ ← raise_if (match legacy_status_message message_json_dumps (Some w) None None with
                | Some text => message_wait_status_max_chars <? String.length text
                | None => false
                end) (ValidationError "process message wait status exceeds the limit of chars");
  Ok w.

(** The checks of a blocking call on its own arguments. *)
Definition blocking_arguments (block : bool) (r : RawFilters) (limit : option pyval) : res unit :=
  _ ← raise_if (block && match rf_ids r with Some [] => true | _ => false end)
        (ValidationError "blocking process message receive requires a non-empty message id filter");
  raise_if (block && match limit with Some v => py_eq v (PInt 0) | None => false end)
    (ValidationError "blocking process message receive requires a positive limit").

Definition wait_args (process : AgentProcess) (w : ProcessWaitState) : TransitionArgs :=
  {| ta_status := WAITING_EVENT; ta_expected_revision := revision process;
     ta_expected_status := Some (status process);
     ta_expected_state_generation := Some (state_generation process);
     ta_wait_state := Some w; ta_outcome := None; ta_status_message := None; ta_control := false;
     ta_allowed_statuses := None; ta_reason := None |}.

(** Park [p] on the filters. *)
Definition register_wait (amb : Ambient) (p : string) (filters : MessageFilters) : M MStore unit :=
  process ← _require_process p;
  w ← lift_res (_message_wait_state (filters_json filters));
  now ← looking (fun s => Ok (message_now s));
  _ ← in_processes (@transition Store (store_repository message_json_dumps amb now) p (wait_args process w));
  witness (Audit p "process.message.wait" ("process:" +:+ p))
    [("filters", py_of_json (JObj (filters_json filters))); ("block", PBool true)].

(** What a receive does with what its query found. *)
Definition wait_unless {A} (amb : Ambient) (p : string) (block : bool) (filters : MessageFilters)
    (query : M MStore A) (none_found : A → bool) : M MStore A :=
  found ← message_unit (
    a ← query;
    if negb (none_found a) || negb block then mret (Some a) else
    _ ← register_wait amb p filters;
    mret None);
  match found with
  | Some a => mret a
  | None => raise (ProcessMessageWaitRequired p)
  end.

Definition receive (amb : Ambient) (p : string) (block include_acked : bool) (r : RawFilters)
    (limit : option pyval) : M MStore (list ProcessMessage) :=
  filters ← lift_res (_filters r);
  _ ← lift_res (blocking_arguments block r limit);
  wait_unless amb p block filters (list_messages p include_acked (raw_of filters) limit)
    (fun messages => bool_decide (messages = [])).

Definition receive_page (amb : Ambient) (p : string) (block include_acked : bool) (r : RawFilters)
    (limit : option pyval) : M MStore (list ProcessMessage * Z) :=
  filters ← lift_res (_filters r);
  _ ← lift_res (blocking_arguments block r limit);
  wait_unless amb p block filters (list_page p include_acked (raw_of filters) limit)
    (fun found => bool_decide (fst found = [])).

(** ** Acknowledging *)

Fixpoint ack_all (p now : string) (selected : list ProcessMessage) : M MStore (list ProcessMessage) :=
  match selected with
  | [] => mret []
  | m :: rest =>
      changed ← ack_process_message (msg_id m) p now now;
      _ ← lift_res (raise_if (negb changed) (ProcessError "process message changed while acknowledging"));
      others ← ack_all p now rest;
      mret (acked now m :: others)
  end.

(** The order of a set of ids is of no consequence: it is used for its size and
    its members. *)
Definition ack (p : string) (message_ids : option (list string)) (r : RawFilters) : M MStore (list ProcessMessage) :=
  match message_ids with
  | Some [] => mret []
  | _ =>
      let selected_ids := fromkeys (match message_ids with Some ids => ids | None => [] end) in
      let by_id := negb (bool_decide (selected_ids = [])) in
      message_unit (
        found ← list_messages p false
          {| rf_kind := rf_kind r; rf_sender := rf_sender r; rf_channel := rf_channel r;
             rf_correlation := rf_correlation r; rf_reply_to := rf_reply_to r;
             rf_ids := if by_id then Some (map PStr selected_ids) else None |}
          (if by_id then Some (PInt (Z.of_nat (length selected_ids))) else None);
        let selected := if by_id then List.filter (fun m => bool_decide (msg_id m ∈ selected_ids)) found else found in
        now ← looking (fun s => Ok (message_now s));
        acknowledged ← ack_all p now selected;
        let count := [("message_ids", PList (map (fun m => PStr (msg_id m)) acknowledged));
                      ("count", PInt (Z.of_nat (length acknowledged)))] in
        _ ← (if bool_decide (acknowledged = []) then mret tt else
             _ ← witness (Event "process_message_acked" p p) count;
             witness (Audit p "process.message.ack" ("process:" +:+ p)) count);
        mret acknowledged)
  end.

(** [sorted(set(..))] of strings. *)
Definition sorted_set (l : list string) : list string := merge_sort str_le (remove_dups l).

Definition NOTICE_INSTRUCTION : string :=
  "Call read_process_messages or receive_process_messages to inspect and acknowledge unread process messages.".

Definition notice (p kind phase source : string) (instruction : option string) : M MStore (option Payload) :=
  found ← unread p {| rf_kind := Some kind; rf_sender := None; rf_channel := None; rf_correlation := None;
                      rf_reply_to := None; rf_ids := None |} None;
  if bool_decide (found = []) then mret None else
  selected_kind ← lift_res (enum_call (E := ProcessMessageKind) "kind" (PStr kind));
  let strings l := PList (map PStr l) in
  let correlations := omap (fun m => match msg_correlation m with Some "" => None | o => o end) found in
  let payload := [("phase", PStr phase); ("kind", PStr (enum_value selected_kind));
                  ("count", PInt (Z.of_nat (length found))); ("message_ids", strings (map msg_id found));
                  ("channels", strings (sorted_set (map msg_channel found)));
                  ("correlation_ids", strings (sorted_set correlations));
                  ("instruction", PStr (match instruction with
                                        | None | Some "" => NOTICE_INSTRUCTION | Some t => t end))] in
  _ ← witness (Event "process_message_notice" source p) payload;
  _ ← witness (Audit source "process.message.notice" ("process:" +:+ p)) payload;
  mret (Some payload).
End Messages.
