(* ===== verification/MessageSteps.v ===== *)
(** * Runs of the message manager

    Reads write nothing; what a post, a registered wait and an acknowledgement
    leave in the tables when they return, and that they leave nothing when they
    raise; then what a query and a wait see. *)

From S2P Require Import Prelude PyStr PyVal PyEnum ProcessState ProcessModel ProcessStore ProcessWrites ProcessInvariant ProcessProperties ProcessTransition DataLabels AuthorityRules ResourceTables JsonColumn StoreSteps MessageTables ProcessMessages.
From stdpp Require Import sorting.

Section Steps.
Context `{MessageHost}.

(** ** Reads *)

Lemma set_mbase_id s : set_mbase (mbase s) s = s.
Proof. by destruct s. Qed.

Lemma looking_keeps {A} (f : MStore → res A) : keeps eq (looking f).
Proof. by intros s s' r [= <- _]. Qed.

Lemma require_process_keeps p : keeps eq (_require_process p).
Proof.
  unfold _require_process. keep. intros s s' r. unfold in_processes.
  destruct (get_process p (mbase s)) as [b x] eqn:E. intros [= <- <-].
  destruct x; [apply get_process_Ok in E as [-> _]|apply read_only_get_process in E as ->]; by rewrite set_mbase_id.
Qed.

Lemma unit_keeps_eq {A} (m : M MStore A) : keeps eq m → keeps eq (message_unit m).
Proof.
  intros Hm s s' r. unfold message_unit. destruct (m s) as [s1 [a|e]] eqn:E; apply Hm in E as <-.
  - by intros [= <- _].
  - intros [= <- _]. destruct s as [[] ]. done.
Qed.

Hint Resolve looking_keeps require_process_keeps unit_keeps_eq : steps.

Lemma unread_keeps p r limit : keeps eq (unread p r limit).
Proof. unfold unread. keep. Qed.

Lemma list_messages_keeps p b r limit : keeps eq (list_messages p b r limit).
Proof. unfold list_messages. keep. Qed.

Lemma list_page_keeps p b r limit : keeps eq (list_page p b r limit).
Proof. unfold list_page. keep. apply unit_keeps_eq. keep. Qed.

Lemma require_related_keeps a b : keeps eq (_require_related_process a b).
Proof.
  unfold _require_related_process. keep. intros s s' r. unfold in_processes.
  destruct (get_process b (mbase s)) as [c x] eqn:E. intros [= <- <-].
  destruct x; [apply get_process_Ok in E as [-> _]|apply read_only_get_process in E as ->]; by rewrite set_mbase_id.
Qed.

(** Reading a process. *)
Lemma in_processes_get p s s' o : in_processes (get_process p) s = (s', Ok o) → s' = s ∧ o = processes (mbase s) !! p.
Proof.
  unfold in_processes. destruct (get_process p (mbase s)) as [b x] eqn:E. intros [= <- ->].
  apply get_process_Ok in E as [-> ->]. by rewrite set_mbase_id.
Qed.

Lemma require_process_Ok p s s' row :
  _require_process p s = (s', Ok row) → s' = s ∧ processes (mbase s) !! p = Some row.
Proof.
  unfold _require_process. intros E. apply M_bind_Ok in E as (o & s1 & E1 & E).
  apply in_processes_get in E1 as [-> ->]. injection E as <- E. by apply of_option_Ok in E.
Qed.

Lemma live_recipient_Ok p s s' row : live_recipient p s = (s', Ok row) →
  s' = s ∧ processes (mbase s) !! p = Some row ∧ status row ∉ TERMINAL_STATUSES.
Proof.
  unfold live_recipient. intros E. apply M_bind_Ok in E as (x & s1 & E1 & E).
  apply require_process_Ok in E1 as [-> Hrow]. apply M_bind_Ok in E as ([] & s2 & E2 & E).
  injection E2 as <- E2. injection E as <- <-. apply raise_if_Ok, bool_decide_eq_false in E2. done.
Qed.

Lemma live_recipient_keeps p : keeps eq (live_recipient p).
Proof. unfold live_recipient. keep. Qed.

Lemma witness_Ok e d s s' u : witness e d s = (s', Ok u) → s' = add_evidence (e, d) s.
Proof. unfold witness. intros E. apply M_bind_Ok in E as (x & s1 & [= <- _] & E). by injection E. Qed.

(** ** Transactions *)

(** The tables of [s], whatever the in-memory takeover intent is. *)
Definition same_tables (s s' : MStore) : Prop := ∃ t, s' = set_mbase (set_takeover t (mbase s)) s.

#[export] Instance same_tables_refl : Reflexive same_tables.
Proof. intros s. exists (takeover (mbase s)). by destruct s as [[] ]. Qed.

#[export] Instance same_tables_trans : Transitive same_tables.
Proof. intros a b c [t ->] [u ->]. by exists u. Qed.

#[export] Instance same_tables_preorder : PreOrder same_tables.
Proof. split; apply _. Qed.

Lemma keeps_eq_tables {A} (m : M MStore A) : keeps eq m → keeps same_tables m.
Proof. apply keeps_weaken. intros s s' ->. reflexivity. Qed.

Lemma message_unit_Ok {A} (m : M MStore A) s s' a : message_unit m s = (s', Ok a) ↔ m s = (s', Ok a).
Proof. unfold message_unit. destruct (m s) as [? []]; naive_solver. Qed.

Lemma message_unit_Err {A} (m : M MStore A) s s' e : message_unit m s = (s', Err e) → same_tables s s'.
Proof. unfold message_unit. destruct (m s) as [s1 []]; [done|]. intros [= <- _]. eexists; reflexivity. Qed.

(** ** Waking *)

Definition waits_on (s : MStore) (p : string) (filters : list (string * json)) : Prop :=
  ∃ row, processes (mbase s) !! p = Some row ∧ status row = WAITING_EVENT
    ∧ wait_state row = Some (MessageProcessWait filters).

(** Process rows other than [p]'s are the same. *)
Definition others_same (p : string) (s s' : MStore) : Prop :=
  ∀ q, q ≠ p → processes (mbase s') !! q = processes (mbase s) !! q.

Definition wake_record (m : ProcessMessage) (p : string) (filters : list (string * json)) : Evidence * Payload :=
  (Audit "process.message" "process.message.wait_wake" ("process:" +:+ p),
   [("message_id", PStr (msg_id m)); ("filters", py_of_json (JObj filters))]).

(** What a wake attempt that returns has done. *)
Inductive woken (m : ProcessMessage) (s s' : MStore) : Prop :=
| woken_none :
    (∀ filters, waits_on s (msg_recipient m) filters → _message_matches m filters = Ok false) →
    s' = s → woken m s s'
| woken_one filters row b :
    waits_on s (msg_recipient m) filters → _message_matches m filters = Ok true →
    processes (mbase s') !! msg_recipient m = Some row → status row = RUNNABLE → wait_state row = None →
    others_same (msg_recipient m) s s' → store_inv (mbase s') →
    s' = add_evidence (wake_record m (msg_recipient m) filters) (set_mbase b s) → woken m s s'.

Lemma in_processes_run {A} (x : M Store A) s s' r : in_processes x s = (s', r) →
  ∃ b, x (mbase s) = (b, r) ∧ s' = set_mbase b s.
Proof. unfold in_processes. destruct (x (mbase s)) as [b y]. intros [= <- <-]. by exists b. Qed.

Lemma wake_message_run amb m s s' u :
  store_inv (mbase s) → _wake_if_waiting_for_message amb m s = (s', Ok u) → woken m s s'.
Proof.
  intros Hinv E. unfold _wake_if_waiting_for_message in E. apply M_bind_Ok in E as (o & s1 & E1 & E).
  apply in_processes_get in E1 as [-> ->]. destruct (processes (mbase s) !! msg_recipient m) as [row|] eqn:Hrow.
  2:{ injection E as <- _. apply woken_none; [|done]. intros f (r & Hr & _). congruence. }
  destruct (bool_decide_reflect (status row = WAITING_EVENT)) as [Hst|Hst]; cbn [negb] in E.
  2:{ injection E as <- _. apply woken_none; [|done]. intros f (r & Hr & ? & _). congruence. }
  destruct (wait_state row) as [w|] eqn:Hw.
  2:{ injection E as <- _. apply woken_none; [|done]. intros f (r & Hr & _ & ?). congruence. }
  destruct w as [|filters| | | | |]; try (injection E as <- _; apply woken_none; [|done]; intros f (r & Hr & _ & ?); congruence).
  apply M_bind_Ok in E as (matches & s1 & E1 & E). injection E1 as <- E1. destruct matches; cbn [negb] in E.
  2:{ injection E as <- _. apply woken_none; [|done]. intros f (r & Hr & _ & ?). congruence. }
  apply M_bind_Ok in E as (token & s1 & E2 & E). injection E2 as <- E2.
  unfold wait_token in E2. rewrite Hw in E2. injection E2 as <-.
  apply M_bind_Ok in E as (now & s1 & [= <- _] & E). apply M_bind_Ok in E as (new & s1 & E2 & E).
  apply in_processes_run in E2 as (b & E2 & ->). apply witness_Ok in E as ->.
  assert (Hpid : pid row = msg_recipient m) by (by apply (inv_side _ Hinv) in Hrow as [[] _]).
  assert (Hinv' : store_inv b).
  { eapply le_inv; [eapply (wake_preserves message_json_dumps amb now); [exact Hinv|exact E2]|exact Hinv]. }
  apply (wake_Ok (S := Store) (row := store_row) (ok := store_inv)) in E2 as
    (old & new' & Ho & Hn & _ & _ & _ & S1 & S2 & _ & _ & Hq); [|done]. cbn [st_pid] in *. rewrite Hpid in *.
  eapply (woken_one _ _ _ filters new' b); try done.
  - by exists row.
Qed.

(** ** Posting *)

(** The row of a message: its JSON columns as stored. *)
Definition stored_message (m stored : ProcessMessage) : Prop :=
  ∃ metadata payload_column metadata_column,
    _canonical_process_message_metadata (msg_metadata m) = Ok metadata
    ∧ json_column message_str (msg_payload m) = Ok payload_column
    ∧ json_column message_str metadata = Ok metadata_column
    ∧ stored = with_envelope payload_column metadata_column m.

Definition post_records (m : ProcessMessage) (projection : option Payload) : list (Evidence * Payload) :=
  [(Event "process_message_posted" (msg_sender m) (msg_recipient m), or_payload projection (plain_evidence true m));
   (Audit (msg_sender m) "process.message.post" ("process:" +:+ msg_recipient m),
    or_payload projection (plain_evidence false m))].

(** The row and the evidence of a post. *)
Definition with_post (m stored : ProcessMessage) (projection : option Payload) (s : MStore) : MStore :=
  mkMStore (mbase s) (<[msg_id m := stored]> (messages s)) (mlog s ++ post_records m projection).

Lemma insert_message_run m s s' u : insert_process_message message_str m s = (s', Ok u) →
  messages s !! msg_id m = None
  ∧ ∃ stored, stored_message m stored ∧ s' = set_messages <[msg_id m := stored]> s.
Proof.
  unfold insert_process_message. intros E. apply M_bind_Ok in E as (md & ? & [= <- E1] & E).
  apply M_bind_Ok in E as (pc & ? & [= <- E2] & E). apply M_bind_Ok in E as (mc & ? & [= <- E3] & E).
  apply M_bind_Ok in E as (x & ? & [= <- <-] & E). apply M_bind_Ok in E as ([] & ? & [= <- E4] & E).
  injection E as <-. apply raise_if_Ok, bool_decide_eq_false, eq_None_not_Some in E4.
  split; [done|]. eexists. split; [by exists md, pc, mc|done].
Qed.

Lemma post_unit_run amb m projection s s' u :
  store_inv (mbase s) → post_unit amb m projection s = (s', Ok u) →
  messages s !! msg_id m = None
  ∧ (∃ row, processes (mbase s) !! msg_recipient m = Some row ∧ status row ∉ TERMINAL_STATUSES)
  ∧ ∃ stored, stored_message m stored ∧ woken m (with_post m stored projection s) s'.
Proof.
  intros Hinv E. unfold post_unit in E. apply (proj1 (message_unit_Ok _ _ _ _)) in E. apply M_bind_Ok in E as (row & s1 & E1 & E).
  apply live_recipient_Ok in E1 as (-> & Hrow & Hst). apply M_bind_Ok in E as ([] & s1 & E1 & E).
  apply insert_message_run in E1 as (Hfresh & stored & Hstored & ->).
  apply M_bind_Ok in E as ([] & s2 & E2 & E). apply witness_Ok in E2 as ->.
  apply M_bind_Ok in E as ([] & s2 & E2 & E). apply witness_Ok in E2 as ->.
  apply wake_message_run in E; [|done]. split; [done|]. split; [by exists row|]. exists stored. split; [done|].
  replace (with_post m stored projection s) with
    (add_evidence (Audit (msg_sender m) "process.message.post" ("process:" +:+ msg_recipient m),
        or_payload projection (plain_evidence false m))
      (add_evidence (Event "process_message_posted" (msg_sender m) (msg_recipient m),
        or_payload projection (plain_evidence true m)) (set_messages <[msg_id m := stored]> s))); [done|].
  unfold with_post, post_records, add_evidence, set_messages. cbn. by rewrite <-app_assoc.
Qed.

(** The message of a post, the transaction, and the hook. *)
Lemma post_run amb r s s' x : post amb r s = (s', x) →
  (∃ e, x = Err e ∧ same_tables s s')
  ∨ ∃ m projection s1 row, processes (mbase s) !! po_recipient r = Some row ∧ envelope r row s = Ok m
      ∧ task_run_message_evidence_projection m = Ok projection
      ∧ post_unit amb m projection s = (s1, Ok tt) ∧ notify_object_tasks m s1 = (s', Ok tt) ∧ x = Ok m.
Proof.
  unfold post. intros E. apply bind_run in E as [(e & E & ->)|(row & s1 & E1 & E)].
  { apply live_recipient_keeps in E as <-. left. exists e. split; [done|reflexivity]. }
  apply live_recipient_Ok in E1 as (-> & Hrow & _). apply bind_run in E as [(e & E & ->)|(m & s1 & E1 & E)].
  { injection E as <- _. left. exists e. split; [done|reflexivity]. }
  injection E1 as <- E1. apply bind_run in E as [(e & E & ->)|(projection & s1 & E2 & E)].
  { injection E as <- _. left. exists e. split; [done|reflexivity]. }
  injection E2 as <- E2. apply bind_run in E as [(e & E & ->)|([] & s1 & E3 & E)].
  { left. exists e. split; [done|]. by eapply message_unit_Err. }
  apply bind_run in E as [(e & E & ->)|([] & s2 & E4 & E)].
  { unfold notify_object_tasks in E. destruct object_tasks as [hook|]; [|done].
    destruct (hook m s1) as [s2 [?|?]]; [done|]. by destruct (witness _ _ s2). }
  injection E as <- <-. right. exists m, projection, s1, row. done.
Qed.

Lemma envelope_Ok r row s m : envelope r row s = Ok m →
  msg_recipient m = po_recipient r ∧ msg_sender m = po_sender r ∧ msg_status m = MessageStatus.UNREAD
  ∧ msg_subject m = po_subject r ∧ msg_body m = po_body r ∧ msg_id m = message_new_id s
  ∧ msg_payload m = or_payload (po_payload r) [] ∧ msg_acked_at m = None
  ∧ PStr (po_kind r) = PStr (enum_value (msg_kind m))
  ∧ ∃ metadata, _bind_recipient_task_run_metadata row metadata = Ok (msg_metadata m).
Proof.
  unfold envelope. intros E. apply bind_Ok in E as (kind & E1 & E). apply bind_Ok in E as (md & _ & E).
  apply bind_Ok in E as (md' & E2 & E). do 7 (apply bind_Ok in E as (? & _ & E)).
  apply bind_Ok in E as (ch & _ & E). injection E as <-. cbn. split_and!; try done; [|by exists md].
  unfold enum_call in E1. destruct (enum_of _) as [k|] eqn:Ek; [|done]. injection E1 as <-. by apply enum_of_Some in Ek.
Qed.

(** ** Waiting *)

Definition wait_record (p : string) (filters : MessageFilters) : Evidence * Payload :=
  (Audit p "process.message.wait" ("process:" +:+ p),
   [("filters", py_of_json (JObj (filters_json filters))); ("block", PBool true)]).

Lemma filters_json_finite f : json_finite (JObj (filters_json f)) = true.
Proof. destruct f as [[] [] [] [] [] [ids|] ]; cbn; rewrite ?andb_true_r; try done; by induction ids. Qed.

Lemma message_wait_state_Ok f w : _message_wait_state (filters_json f) = Ok w → w = MessageProcessWait (filters_json f).
Proof.
  unfold _message_wait_state. intros E. apply bind_Ok in E as (w' & E1 & E). apply bind_Ok in E as ([] & _ & E).
  injection E as <-. unfold mk_MessageProcessWait in E1.
  rewrite (proj2 (strict_json_iff (py_of_json (JObj (filters_json f))) (JObj (filters_json f)))
    (conj eq_refl (filters_json_finite f))) in E1. cbn in E1. by injection E1.
Qed.

Lemma register_wait_run amb p f s s' u :
  store_inv (mbase s) → register_wait amb p f s = (s', Ok u) →
  ∃ b row, s' = add_evidence (wait_record p f) (set_mbase b s) ∧ store_inv b
    ∧ processes b !! p = Some row ∧ status row = WAITING_EVENT
    ∧ wait_state row = Some (MessageProcessWait (filters_json f))
    ∧ ∀ q, q ≠ p → processes b !! q = processes (mbase s) !! q.
Proof.
  intros Hinv E. unfold register_wait in E. apply M_bind_Ok in E as (row & s1 & E1 & E).
  apply require_process_Ok in E1 as [-> Hrow]. apply M_bind_Ok in E as (w & s1 & [= <- Ew] & E).
  apply message_wait_state_Ok in Ew as ->. apply M_bind_Ok in E as (now & s1 & [= <- _] & E).
  apply M_bind_Ok in E as (new & s1 & E1 & E). apply in_processes_run in E1 as (b & E1 & ->).
  apply witness_Ok in E as ->.
  assert (Hinv' : store_inv b).
  { eapply le_inv; [eapply (transition_preserves_store message_json_dumps amb now); [exact Hinv|exact E1]|exact Hinv]. }
  apply (transition_Ok (S := Store) (row := store_row) (ok := store_inv)) in E1
    as (_ & args & E1 & A1 & A2 & _); [|done].
  apply (law_transition (S := Store) (row := store_row) (ok := store_inv)) in E1 as (old & new' & Ho & Hn & Heff & Hq); [|done].
  destruct Heff as (_ & _ & S1 & S2 & _). exists b, new'. rewrite A1 in S1. rewrite A2 in S2. by split_and!.
Qed.

Lemma wait_unless_run {A} amb p block f (query : M MStore A) none_found s s' x :
  keeps eq query → store_inv (mbase s) → wait_unless amb p block f query none_found s = (s', x) →
  (∃ e, x = Err e ∧ same_tables s s')
  ∨ (∃ a, x = Ok a ∧ s' = s ∧ query s = (s, Ok a) ∧ (none_found a = false ∨ block = false))
  ∨ (x = Err (ProcessMessageWaitRequired p) ∧ block = true ∧ (∃ a, query s = (s, Ok a) ∧ none_found a = true)
     ∧ register_wait amb p f s = (s', Ok tt)).
Proof.
  intros Hq Hinv E. unfold wait_unless in E. apply bind_run in E as [(e & E & ->)|(found & s1 & E1 & E)].
  { left. exists e. split; [done|]. by eapply message_unit_Err. }
  apply (proj1 (message_unit_Ok _ _ _ _)) in E1. apply M_bind_Ok in E1 as (a & s2 & E1 & E2). pose proof (Hq _ _ _ E1) as <-.
  destruct (negb (none_found a) || negb block) eqn:Eb.
  - injection E2 as <- <-. injection E as <- <-. right; left. exists a. split_and!; try done.
    rewrite orb_true_iff, !negb_true_iff in Eb. done.
  - apply M_bind_Ok in E2 as ([] & s2 & E2 & E3). injection E3 as <- <-. injection E as <- <-.
    rewrite orb_false_iff, !negb_false_iff in Eb. right; right. destruct Eb. split_and!; try done. by exists a.
Qed.

(** ** Acknowledging *)

Lemma ack_all_run p now selected s s' l : ack_all p now selected s = (s', Ok l) →
  l = map (acked now) selected ∧ mbase s' = mbase s ∧ mlog s' = mlog s ∧ NoDup (map msg_id selected)
  ∧ (∀ m, m ∈ selected → ∃ row, messages s !! msg_id m = Some row ∧ msg_recipient row = p
       ∧ msg_status row = MessageStatus.UNREAD)
  ∧ ∀ id, messages s' !! id =
      if decide (id ∈ map msg_id selected) then acked now <$> messages s !! id else messages s !! id.
Proof.
  revert s s' l. induction selected as [|m rest IH]; intros s s' l E; cbn [ack_all map] in *.
  { injection E as <- <-. split_and!; try done; [apply NoDup_nil_2|by intros m ?%elem_of_nil]. }
  apply M_bind_Ok in E as (changed & s1 & E1 & E). apply M_bind_Ok in E as ([] & s2 & [= <- Hc] & E).
  apply raise_if_Ok, negb_false_iff in Hc as ->. apply M_bind_Ok in E as (others & s3 & E2 & E).
  injection E as <- <-. unfold ack_process_message, update_message_where in E1.
  destruct (messages s !! msg_id m) as [row|] eqn:Hrow; [|done].
  destruct (_ && _) eqn:Hcl in E1; [|done]. injection E1 as <-.
  apply andb_true_iff in Hcl as [Hp%String.eqb_eq Hu%bool_decide_eq_true].
  apply IH in E2 as (-> & Hb & Hl & Hnd & Hall & Hm). cbn in Hb, Hl, Hall, Hm.
  assert (Hni : msg_id m ∉ map msg_id rest).
  { intros (y & Hy & Hin)%list_elem_of_fmap. destruct (Hall y Hin) as (r & Hr & _ & Hs).
    rewrite <-Hy, lookup_insert_eq in Hr. by injection Hr as <-. }
  split_and!; try done.
  - by constructor.
  - intros y [->|Hin]%elem_of_cons; [by exists row|]. destruct (Hall y Hin) as (r & Hr & Hs).
    rewrite lookup_insert_ne in Hr; [by exists r|]. intros Heq. apply Hni. rewrite Heq. by apply list_elem_of_fmap_2.
  - intros id. rewrite Hm. destruct (decide (id = msg_id m)) as [->|Hne].
    + rewrite decide_False by done. rewrite decide_True by left. by rewrite lookup_insert_eq, Hrow.
    + rewrite lookup_insert_ne by done. destruct (decide (id ∈ map msg_id rest)) as [Hi|Hi].
      * by rewrite decide_True by (by right).
      * rewrite decide_False; [done|]. by intros [?|?]%elem_of_cons.
Qed.
End Steps.

(** ** What a query and a wait see

    A query answers the first rows of the sorted matching messages and counts
    them all; the filters of a wait match an unread message exactly when a query
    with the same filters finds it; and a blocking receive parks only when no
    unread message matches. *)

Section Queries.
Context `{MessageHost}.

(** Rows are kept under their identifiers. *)
Definition keyed (s : MStore) : Prop := ∀ id m, messages s !! id = Some m → msg_id m = id.

(** ** The sorted matching messages *)

Lemma elem_of_matching p statuses f s m :
  m ∈ matching_messages p statuses f s ↔
  (∃ id, messages s !! id = Some m) ∧ message_clause p statuses f m = true.
Proof.
  unfold matching_messages. rewrite merge_sort_Permutation, list_elem_of_In, filter_In, <-list_elem_of_In.
  rewrite list_elem_of_fmap. split.
  - intros [([id x] & -> & Hx) Hc]. apply elem_of_map_to_list in Hx. split; [by exists id|done].
  - intros [[id Hid] Hc]. split; [|done]. exists (id, m). split; [done|]. by apply elem_of_map_to_list.
Qed.

Lemma sorted_matching p statuses f s : StronglySorted message_le (matching_messages p statuses f s).
Proof. apply (StronglySorted_merge_sort message_le). Qed.

Lemma keyed_ids s : keyed s → map (fun kv => msg_id (snd kv)) (map_to_list (messages s)) = (map_to_list (messages s)).*1.
Proof.
  intros Hk. apply map_ext_in. intros [id m] Hin. apply list_elem_of_In, elem_of_map_to_list in Hin. by apply Hk in Hin.
Qed.

Lemma matching_ids p statuses f s : keyed s → NoDup (map msg_id (matching_messages p statuses f s)).
Proof.
  intros Hk. unfold matching_messages. rewrite merge_sort_Permutation.
  apply NoDup_map_sublist with (map snd (map_to_list (messages s))).
  - apply list_filter_sublist.
  - rewrite map_map, keyed_ids by done. apply NoDup_fst_map_to_list.
Qed.

(** ** Filters *)

Lemma normalize_channel_again c c' : _normalize_channel c = Ok c' → _normalize_channel (Some c') = Ok c'.
Proof.
  unfold _normalize_channel. intros E. cbv zeta in E. set (x := strip _) in E.
  assert (Hx : strip x = x) by apply strip_idem. clearbody x.
  apply bind_Ok in E as ([] & E1 & E). apply bind_Ok in E as ([] & E2 & [= <-]).
  apply raise_if_Ok in E1 as E1'. rewrite E1', Hx. by rewrite E1, E2.
Qed.

Lemma normalize_identifier_again v label label' t :
  _normalize_identifier v label = Ok t → _normalize_identifier (PStr t) label' = Ok t.
Proof.
  unfold _normalize_identifier. destruct v; try done. intros E.
  repeat (apply bind_Ok in E as ([] & E1 & E); apply raise_if_Ok in E1; revert E1). injection E as <-.
  by intros -> -> ->.
Qed.

Lemma normalize_optional_again v label o :
  _normalize_optional_identifier v label = Ok o → _normalize_optional_identifier (PStr <$> o) label = Ok o.
Proof.
  intros E. assert (o = None ∨ ∃ x t, o = Some t ∧ _normalize_identifier x label = Ok t) as [->|(x & t & -> & Ht)];
    [|done|].
  - destruct v as [v|]; cbn in E; [|injection E as <-; by left].
    assert (v = PNone ∨ (t ← _normalize_identifier v label; Ok (Some t)) = Ok o) as [->|E'] by (destruct v; auto).
    + injection E as <-. by left.
    + apply bind_Ok in E' as (t & Ht & [= <-]). right. by exists v, t.
  - cbn -[_normalize_identifier]. by erewrite normalize_identifier_again.
Qed.

Lemma message_ids_again ids o : _validate_message_ids ids = Ok o → _validate_message_ids (map PStr <$> o) = Ok o.
Proof.
  destruct ids as [l|]; cbn -[_normalize_identifier]; [|by intros [= <-]]. intros E.
  apply bind_Ok in E as ([] & E1 & E). apply bind_Ok in E as (k & E2 & [= <-]). cbn -[_normalize_identifier].
  rewrite length_map, (mapR_length _ _ _ E2), E1. cbn -[_normalize_identifier].
  assert (mapR (fun v => _normalize_identifier v "process message id filter") (map PStr k) = Ok k) as ->; [|done].
  apply mapR_Ok in E2. apply mapR_Ok. clear E1. induction E2 as [|x y l k Hx _ IH]; cbn; [by apply Forall2_nil|]. apply Forall2_cons. split; [|done].
  by eapply normalize_identifier_again.
Qed.

Lemma kind_filter_Ok k o : kind_filter k = Ok o →
  (∀ t, o = Some t → ∃ e : ProcessMessageKind, t = enum_value e) ∧ kind_filter o = Ok o.
Proof.
  destruct k as [k|]; cbn -[enum_call]; [|by intros [= <-]]. intros E. apply bind_Ok in E as (e & _ & [= <-]).
  split; [intros t [= <-]; by exists e|]. by destruct e.
Qed.

Lemma filters_Ok r f : _filters r = Ok f →
  (∀ k, fl_kind f = Some k → ∃ e : ProcessMessageKind, k = enum_value e)
  ∧ (rf_ids r ≠ Some [] → fl_ids f ≠ Some []) ∧ _filters (raw_of f) = Ok f.
Proof.
  unfold _filters. intros E. apply bind_Ok in E as (kind & E1 & E). apply bind_Ok in E as (ch & E2 & E).
  apply bind_Ok in E as (co & E3 & E). apply bind_Ok in E as (re & E4 & E). apply bind_Ok in E as (ids & E5 & E).
  apply bind_Ok in E as ([] & E6 & [= <-]). cbn [fl_kind fl_ids].
  split_and!.
  - intros k. by apply kind_filter_Ok in E1 as [E1 _]; apply E1.
  - intros Hr. destruct (rf_ids r) as [l|]; cbn in E5; [|by injection E5 as <-].
    apply bind_Ok in E5 as (? & _ & E5). apply bind_Ok in E5 as (k & E5 & [= <-]).
    apply mapR_length in E5. intros [= ->]. destruct l; done.
  - cbn [raw_of rf_kind fl_kind]. rewrite (proj2 (kind_filter_Ok _ _ E1)).
    rewrite !res_bind_ok.
    assert (E2' : match ch with None => Ok None | Some c => (c ← _normalize_channel (Some c); Ok (Some c)) end = Ok ch).
    { destruct (rf_channel r); [|by injection E2 as <-]. apply bind_Ok in E2 as (c & E2 & [= <-]).
      by rewrite (normalize_channel_again _ _ E2). }
    change (rf_channel (raw_of _)) with ch. rewrite E2', res_bind_ok. cbn [raw_of rf_correlation rf_reply_to rf_ids
      fl_correlation fl_reply_to fl_ids rf_sender fl_sender].
    by rewrite (normalize_optional_again _ _ _ E3), res_bind_ok, (normalize_optional_again _ _ _ E4), res_bind_ok,
      (message_ids_again _ _ E5), res_bind_ok, E6.
Qed.

(** The clause of a text filter, read from the JSON of the filters. *)
Lemma json_clause_text f key o column :
  json_get (filters_json f) key = Some match o with Some t => JStr t | None => JNull end →
  json_clause (filters_json f) key column = text_clause o column.
Proof. unfold json_clause. intros ->. by destruct o. Qed.

Lemma json_members_strings (ids : list string) : json_members (JList (map JStr ids)) = Ok ids.
Proof.
  unfold json_members. replace (existsb _ (map JStr ids)) with false.
  - cbn. f_equal. induction ids as [|i ids IH]; cbn; [done|]. by rewrite IH.
  - symmetry. by induction ids.
Qed.

(** An unread message matches the filters of a wait exactly when a query for
    unread messages with those filters finds it. *)
Lemma matches_is_clause f m p : msg_recipient m = p → msg_status m = MessageStatus.UNREAD →
  _message_matches m (filters_json f) = Ok (message_clause p [MessageStatus.UNREAD] f m).
Proof.
  intros Hp Hs. unfold _message_matches, message_clause. rewrite Hs, Hp, String.eqb_refl.
  rewrite !bool_decide_true by (done || left).
  rewrite !(json_clause_text f "kind" (fl_kind f)), !(json_clause_text f "sender" (fl_sender f)),
    !(json_clause_text f "channel" (fl_channel f)), !(json_clause_text f "correlation_id" (fl_correlation f)),
    !(json_clause_text f "reply_to" (fl_reply_to f)) by done. cbn [negb andb].
  repeat match goal with |- context [text_clause ?o ?c] => destruct (text_clause o c); [|done] end. cbn [negb andb].
  change (json_get (filters_json f) "message_ids")
    with (Some match fl_ids f with Some ids => JList (map JStr ids) | None => JNull end).
  destruct (fl_ids f) as [ids|]; [|done]. by rewrite json_members_strings.
Qed.

(** ** What a query answers *)

Lemma clause_ids p statuses f m ids : message_clause p statuses f m = true → fl_ids f = Some ids → msg_id m ∈ ids.
Proof. unfold message_clause. intros Hc Hf. rewrite Hf in Hc. apply andb_true_iff in Hc as [_ Hc]. by apply bool_decide_eq_true in Hc. Qed.

Lemma no_ids_no_rows p statuses f s : fl_ids f = Some [] → matching_messages p statuses f s = [].
Proof.
  intros Hi. destruct (matching_messages p statuses f s) as [|m r] eqn:E; [done|].
  assert (Hin : m ∈ matching_messages p statuses f s) by (rewrite E; left).
  apply elem_of_matching in Hin as [_ Hc]. pose proof (clause_ids _ _ _ _ _ Hc Hi) as Hn.
  by apply elem_of_nil in Hn.
Qed.

(** The first [limit] of the matching rows, decoded. *)
Lemma list_process_messages_eq p statuses f k s l : statuses ≠ [] →
  list_process_messages p statuses f (Some k) s = Ok l →
  mapR _row_to_process_message (take (Z.to_nat (Z.max 0 k)) (matching_messages p statuses f s)) = Ok l.
Proof.
  intros Hs. unfold list_process_messages.
  destruct (bool_decide_reflect (fl_ids f = Some [])) as [Hi|_].
  - intros [= <-]. by rewrite (no_ids_no_rows p statuses f s Hi), take_nil.
  - rewrite bool_decide_false by done. intros E. by apply bind_Ok in E as ([] & _ & E).
Qed.

Lemma count_process_messages_eq p statuses f s n : statuses ≠ [] →
  count_process_messages p statuses f s = Ok n → n = Z.of_nat (length (matching_messages p statuses f s)).
Proof.
  intros Hs. unfold count_process_messages.
  destruct (bool_decide_reflect (fl_ids f = Some [])) as [Hi|_].
  - intros [= <-]. by rewrite (no_ids_no_rows p statuses f s Hi).
  - rewrite bool_decide_false by done. intros E. apply bind_Ok in E as ([] & _ & E). by injection E as <-.
Qed.

Lemma visible_nonempty b : visible_statuses b ≠ [].
Proof. by destruct b. Qed.

Lemma list_messages_Ok p b r limit s s' l : list_messages p b r limit s = (s', Ok l) →
  s' = s ∧ ∃ f k, _filters r = Ok f ∧ _normalize_limit limit = Ok k
    ∧ list_process_messages p (visible_statuses b) f (Some k) s = Ok l.
Proof.
  intros E. pose proof (list_messages_keeps _ _ _ _ _ _ _ E) as <-. split; [done|].
  unfold list_messages in E. apply M_bind_Ok in E as (row & s1 & E1 & E). apply require_process_Ok in E1 as [-> _].
  apply M_bind_Ok in E as (k & s1 & [= <- E1] & E). apply M_bind_Ok in E as (f & s1 & [= <- E2] & E).
  injection E as E. by exists f, k.
Qed.

Lemma list_page_Ok p b r limit s s' l n : list_page p b r limit s = (s', Ok (l, n)) →
  s' = s ∧ ∃ f k, _filters r = Ok f ∧ _normalize_limit limit = Ok k
    ∧ list_process_messages p (visible_statuses b) f (Some k) s = Ok l
    ∧ count_process_messages p (visible_statuses b) f s = Ok n.
Proof.
  intros E. pose proof (list_page_keeps _ _ _ _ _ _ _ E) as <-. split; [done|].
  unfold list_page in E. apply M_bind_Ok in E as (row & s1 & E1 & E). apply require_process_Ok in E1 as [-> _].
  apply M_bind_Ok in E as (k & s1 & [= <- E1] & E). apply M_bind_Ok in E as (f & s1 & [= <- E2] & E).
  apply (proj1 (message_unit_Ok _ _ _ _)) in E. apply M_bind_Ok in E as (l' & s1 & [= <- E3] & E).
  apply M_bind_Ok in E as (n' & s1 & [= <- E4] & E). injection E as <- <-. by exists f, k.
Qed.

(** ** A blocking receive that finds nothing *)

(** The configuration's default window is not empty. *)
Hypothesis read_limit_positive : (0 < message_read_limit)%Z.

Lemma normalize_limit_positive limit k :
  match limit with Some v => py_eq v (PInt 0) | None => false end = false →
  _normalize_limit limit = Ok k → (0 < k)%Z.
Proof.
  unfold _normalize_limit. intros Hz E. apply bind_Ok in E as (n & E1 & E).
  apply bind_Ok in E as ([] & E2 & E). apply raise_if_Ok, Z.ltb_ge in E2. apply bind_Ok in E as ([] & _ & [= <-]).
  destruct limit as [[]|]; try done; injection E1 as <-; try done.
  change (num_eqb (NInt z) (NInt 0) = false) in Hz. rewrite num_eqb_int in Hz. lia.
Qed.

Lemma nothing_found p b r limit f s :
  _filters r = Ok f → blocking_arguments true r limit = Ok tt →
  (∃ s', list_messages p b (raw_of f) limit s = (s', Ok []))
  ∨ (∃ s' n, list_page p b (raw_of f) limit s = (s', Ok ([], n))) →
  ∀ id m, messages s !! id = Some m → msg_recipient m = p → _message_matches m (filters_json f) ≠ Ok true.
Proof.
  intros Hf Hb Hl. apply filters_Ok in Hf as (_ & _ & Hagain).
  assert (∃ k, _normalize_limit limit = Ok k ∧ list_process_messages p (visible_statuses b) f (Some k) s = Ok [])
    as (k & Hk & E).
  { destruct Hl as [[s' E]|(s' & n & E)].
    - apply list_messages_Ok in E as (_ & f' & k & Hf & Hk & E). rewrite Hagain in Hf. injection Hf as <-. by exists k.
    - apply list_page_Ok in E as (_ & f' & k & Hf & Hk & E & _). rewrite Hagain in Hf. injection Hf as <-. by exists k. }
  unfold blocking_arguments in Hb. apply bind_Ok in Hb as ([] & _ & Hz). apply raise_if_Ok in Hz. cbn [andb] in Hz.
  apply (normalize_limit_positive _ _ Hz) in Hk. apply list_process_messages_eq in E; [|apply visible_nonempty].
  apply mapR_length in E. intros id m Hm Hp Hmatch.
  assert (Hu : msg_status m = MessageStatus.UNREAD).
  { unfold _message_matches in Hmatch. by destruct (bool_decide_reflect (msg_status m = MessageStatus.UNREAD)). }
  rewrite (matches_is_clause f m p) in Hmatch by done. injection Hmatch as Hmatch.
  assert (Hin : m ∈ matching_messages p (visible_statuses b) f s).
  { apply elem_of_matching. split; [by exists id|]. revert Hmatch. unfold message_clause.
    rewrite Hu, !bool_decide_true; [done| |left]. destruct b; left. }
  destruct (matching_messages p (visible_statuses b) f s) as [|y ys]; [by apply elem_of_nil in Hin|].
  destruct (Z.to_nat (Z.max 0 k)) eqn:Ek; [lia|done].
Qed.
End Queries.
