(* ===== verification/MessageHistory.v ===== *)
(** * Histories of the message manager

    Any sequence of posts, sends, receives, acknowledgements and notices, mixed
    with the steps of other managers: no waiting process is left with an unread
    message that its wait matches, and a message that has been acknowledged
    never becomes unread again. *)

From S2P Require Import Prelude PyStr PyVal PyEnum ProcessState ProcessModel ProcessStore ProcessWrites ProcessInvariant ProcessProperties ProcessTransition DataLabels AuthorityRules ResourceTables JsonColumn StoreSteps MessageTables ProcessMessages MessageSteps.
From stdpp Require Import sorting.

(** ** Steps that neither add an unread message nor start a wait *)

(** What a wait looks at, and the row is not made unread. *)
Definition revised (m m' : ProcessMessage) : Prop :=
  msg_id m' = msg_id m ∧ msg_sender m' = msg_sender m ∧ msg_recipient m' = msg_recipient m
  ∧ msg_kind m' = msg_kind m ∧ msg_channel m' = msg_channel m ∧ msg_correlation m' = msg_correlation m
  ∧ msg_reply_to m' = msg_reply_to m
  ∧ (msg_status m' = MessageStatus.UNREAD → msg_status m = MessageStatus.UNREAD).

#[export] Instance revised_refl : Reflexive revised.
Proof. done. Qed.

#[export] Instance revised_trans : Transitive revised.
Proof. unfold revised. intros a b c H1 H2. destruct_and!. split_and!; try congruence. auto. Qed.

Lemma revised_same m : revised m m.
Proof. done. Qed.

#[local] Hint Resolve revised_same : core.

Record steady (s s' : MStore) : Prop := {
  st_procs : store_inv (mbase s) → store_inv (mbase s');
  st_waits : ∀ p filters, waits_on s' p filters → waits_on s p filters;
  st_kept : ∀ id m, messages s !! id = Some m → ∃ m', messages s' !! id = Some m' ∧ revised m m';
  st_old : ∀ id m', messages s' !! id = Some m' → is_Some (messages s !! id);
}.

#[export] Instance steady_preorder : PreOrder steady.
Proof.
  split.
  - intros s. split; eauto.
  - intros a b c [P W K O] [P' W' K' O']. split; eauto.
    + intros id m Hm. destruct (K id m Hm) as (m1 & H1 & R1). destruct (K' id m1 H1) as (m2 & H2 & R2).
      exists m2. split; [done|]. by transitivity m1.
    + intros id m Hm. destruct (O' id m Hm) as [m1 H1]. by eapply O.
Qed.

Lemma same_tables_steady s s' : same_tables s s' → steady s s'.
Proof. intros [t ->]. split; eauto. intros Hinv. apply (takeover_le (mbase s) t), Hinv. Qed.

Lemma add_evidence_steady e s : steady s (add_evidence e s).
Proof. split; eauto. Qed.

(** Rows changed in place. *)
Lemma map_rows_steady (f : ProcessMessage → ProcessMessage) (ids : list string) s s' :
  mbase s' = mbase s → (∀ m, revised m (f m)) →
  (∀ id, messages s' !! id = if decide (id ∈ ids) then f <$> messages s !! id else messages s !! id) →
  steady s s'.
Proof.
  intros Hb Hf Hm. split; unfold waits_on; rewrite ?Hb; [done|done| |].
  - intros id m Hid. rewrite Hm, Hid. destruct (decide _); eauto.
  - intros id m. rewrite Hm. destruct (decide _); [|eauto]. destruct (messages s !! id); [eauto|done].
Qed.

Lemma acked_revised now m : revised m (acked now m).
Proof. unfold revised. by split_and!. Qed.

Section History.
Context `{MessageHost}.

Lemma witness_steady e d : keeps steady (witness e d).
Proof.
  intros s s' r E. unfold witness in E. apply bind_run in E as [(x & E & ->)|(x & s1 & E1 & E)].
  - by injection E as <- _.
  - injection E1 as <- _. injection E as <- _. apply add_evidence_steady.
Qed.

(** The metadata column is rewritten for retention; the row stays where it is. *)
Lemma update_metadata_steady id recipient expected metadata now :
  keeps steady (update_process_message_metadata message_str id recipient expected metadata now).
Proof.
  unfold update_process_message_metadata. keep. intros s s' r. unfold update_message_where.
  destruct (messages s !! id) as [row|] eqn:Hrow; [|by intros [= <- _]].
  destruct (_ && _); [|by intros [= <- _]]. intros [= <- _]. split; [done|done| |]; cbn.
  - intros i m Hm. destruct (decide (i = id)) as [->|Hne].
    + rewrite lookup_insert_eq. rewrite Hm in Hrow. injection Hrow as <-. by eexists.
    + rewrite lookup_insert_ne by done. eauto.
  - intros i m. destruct (decide (i = id)) as [->|Hne]; [by rewrite Hrow|]. rewrite lookup_insert_ne by done. eauto.
Qed.

(** Any process operation after which no process waits on a message wait it was
    not waiting on. *)
Lemma process_op_steady (sha : string → string) op s :
  op_ok op → let s' := set_mbase (run_op message_json_dumps sha op (mbase s)) s in
  (∀ p filters, waits_on s' p filters → waits_on s p filters) → steady s s'.
Proof.
  intros Hop s' Hw. split; [|done|eauto|eauto]. intros Hinv.
  by apply (le_inv _ _ (run_op_le message_json_dumps sha op (mbase s) Hop Hinv)).
Qed.

(** ** Histories *)

Inductive message_step (s : MStore) : MStore → Prop :=
| step_post amb r : message_step s (fst (post amb r s))
| step_send amb r labels context : message_step s (fst (send_from_process amb r labels context s))
| step_receive amb p block include_acked r limit :
    message_step s (fst (receive amb p block include_acked r limit s))
| step_receive_page amb p block include_acked r limit :
    message_step s (fst (receive_page amb p block include_acked r limit s))
| step_ack p ids r : message_step s (fst (ack p ids r s))
| step_notice p kind phase source instruction : message_step s (fst (notice p kind phase source instruction s))
| step_other s' : steady s s' → message_step s s'.

(** What the host promises: a non-empty default window, and an Object-task hook
    that only reads and schedules. *)
Class MessageHostLaws : Prop := {
  default_window : (0 < message_read_limit)%Z;
  hook_steady : ∀ hook m, object_tasks = Some hook → keeps steady (hook m);
}.

Record messages_ok (s : MStore) : Prop := {
  mo_procs : store_inv (mbase s);
  mo_keyed : keyed s;
  mo_waits : ∀ p filters id m, waits_on s p filters → messages s !! id = Some m → msg_recipient m = p →
    _message_matches m filters ≠ Ok true;
}.

(** Rows stay, and do not become unread. *)
Definition settled_stays (s s' : MStore) : Prop :=
  ∀ id m, messages s !! id = Some m → ∃ m', messages s' !! id = Some m' ∧
    (msg_status m' = MessageStatus.UNREAD → msg_status m = MessageStatus.UNREAD).

#[export] Instance settled_stays_preorder : PreOrder settled_stays.
Proof.
  split; [intros s id m; eauto|]. intros a b c H1 H2 id m Hm. destruct (H1 id m Hm) as (m1 & Hm1 & S1).
  destruct (H2 id m1 Hm1) as (m2 & Hm2 & S2). eauto.
Qed.

Definition good_step (s s' : MStore) : Prop := messages_ok s → messages_ok s' ∧ settled_stays s s'.

#[export] Instance good_step_preorder : PreOrder good_step.
Proof.
  split; [by intros s Hs|]. intros a b c H1 H2 Ha. destruct (H1 Ha) as [Hb S1]. destruct (H2 Hb) as [Hc S2].
  split; [done|]. by transitivity b.
Qed.

Lemma matches_unread m filters : _message_matches m filters = Ok true → msg_status m = MessageStatus.UNREAD.
Proof. unfold _message_matches. by destruct (bool_decide_reflect (msg_status m = MessageStatus.UNREAD)). Qed.

Lemma matches_revised m m' filters : revised m m' → _message_matches m' filters = Ok true → _message_matches m filters = Ok true.
Proof.
  intros Hr Hm. pose proof (matches_unread _ _ Hm) as Hu. destruct Hr as (E1 & E2 & _ & E4 & E5 & E6 & E7 & E8).
  specialize (E8 Hu). rewrite <-Hm. unfold _message_matches. by rewrite Hu, E8, E1, E2, E4, E5, E6, E7.
Qed.

Lemma steady_good s s' : steady s s' → good_step s s'.
Proof.
  intros [P W K O] [Hp Hk Hw]. split.
  - split; [by apply P| |].
    + intros id m' Hm'. destruct (O id m' Hm') as [m Hm]. destruct (K id m Hm) as (m1 & Hm1 & R & _).
      rewrite Hm' in Hm1. injection Hm1 as <-. rewrite R. by apply Hk.
    + intros p f id m' Hwait Hm' Hrec Hmatch. destruct (O id m' Hm') as [m Hm]. destruct (K id m Hm) as (m1 & Hm1 & R).
      rewrite Hm' in Hm1. injection Hm1 as <-. apply (Hw p f id m); [by apply W|done| |by eapply matches_revised].
      destruct R as (_ & _ & R & _). congruence.
  - intros id m Hm. destruct (K id m Hm) as (m' & Hm' & R). exists m'. split; [done|]. apply R.
Qed.

Lemma keeps_eq_good {A} (m : M MStore A) : keeps eq m → keeps good_step m.
Proof. apply keeps_weaken. intros s s' ->. reflexivity. Qed.

Lemma same_tables_good s s' : same_tables s s' → good_step s s'.
Proof. intros Hs. by apply steady_good, same_tables_steady. Qed.

(** ** Each operation *)

Lemma stored_same m stored : stored_message m stored → revised m stored ∧ revised stored m.
Proof. intros (md & pc & mc & _ & _ & _ & ->). by unfold revised. Qed.

(** A committed post leaves no match behind: the only process that could wait
    on the new message has been woken. *)
Lemma posted_good m stored projection s s' :
  messages s !! msg_id m = None → stored_message m stored → woken m (with_post m stored projection s) s' →
  good_step s s'.
Proof.
  intros Hfresh Hst Hwoken Hok. destruct (stored_same _ _ Hst) as [R1 R2].
  assert (Hk : keyed (with_post m stored projection s)).
  { intros id x. cbn. intros [[<- <-]|[_ Hx]]%lookup_insert_Some; [apply R1|by apply (mo_keyed _ Hok)]. }
  assert (Hstay : settled_stays s (with_post m stored projection s)).
  { intros id x Hx. exists x. split; [|done]. cbn. rewrite lookup_insert_ne; [done|]. congruence. }
  destruct Hwoken as [Hnone ->|filters row b Hwait Hmatch Hrow Hrun Hnw Hothers Hinv ->].
  - split; [|done]. split; [apply Hok|done|]. intros p f id x Hp Hx Hrec Hm. cbn in Hx.
    apply lookup_insert_Some in Hx as [[<- <-]|[_ Hx]]; [|by apply (mo_waits _ Hok p f id x)].
    assert (Hrec' : msg_recipient m = p) by (rewrite <-Hrec; symmetry; apply R1).
    rewrite <-Hrec' in Hp. apply Hnone in Hp. apply (matches_revised m) in Hm; [|done]. congruence.
  - split; [|done]. split; [done|done|]. intros p f id x Hp Hx Hrec Hm. cbn in Hx.
    assert (Hpr : p ≠ msg_recipient m).
    { intros ->. destruct Hp as (r & Hr & Hs & _). rewrite Hrow in Hr. injection Hr as <-. congruence. }
    assert (Hp' : waits_on s p f).
    { destruct Hp as (r & Hr & Hs). rewrite Hothers in Hr by done. by exists r. }
    apply lookup_insert_Some in Hx as [[<- <-]|[_ Hx]]; [|by apply (mo_waits _ Hok p f id x)].
    apply Hpr. rewrite <-Hrec. apply R1.
Qed.

Context `{!MessageHostLaws}.

Lemma notify_steady m : keeps steady (notify_object_tasks m).
Proof.
  intros s s' r. unfold notify_object_tasks. destruct object_tasks as [hook|] eqn:Eh; [|by intros [= <- _]].
  destruct (hook m s) as [s1 [u|e]] eqn:E; pose proof (hook_steady hook m Eh _ _ _ E) as H1; [by intros [= <- _]|].
  destruct (witness _ _ s1) as [s2 x] eqn:E2. intros [= <- _]. transitivity s1; [done|]. by eapply witness_steady.
Qed.

Lemma post_good amb r : keeps good_step (post amb r).
Proof.
  intros s s' x E Hok. apply post_run in E as [(e & -> & E)|(m & projection & s1 & row & _ & _ & _ & E1 & E2 & _)];
    [by apply same_tables_good|].
  apply post_unit_run in E1 as (Hfresh & _ & stored & Hst & Hw); [|apply Hok].
  pose proof (posted_good _ _ _ _ _ Hfresh Hst Hw) as H1. apply notify_steady, steady_good in E2.
  revert Hok. change (good_step s s'). by transitivity s1.
Qed.

Lemma send_good amb r labels context : keeps good_step (send_from_process amb r labels context).
Proof.
  unfold send_from_process. apply keeps_bind; [apply _|apply keeps_eq_good, require_related_keeps|intros _].
  apply keeps_bind; [apply _|apply keeps_eq_good, looking_keeps|intros sources].
  apply keeps_bind; [apply _|apply keeps_eq_good, looking_keeps|intros c]. apply post_good.
Qed.

(** A process is parked only where no unread message matches. *)
Lemma parked_good p f s s' :
  (∀ id m, messages s !! id = Some m → msg_recipient m = p → _message_matches m (filters_json f) ≠ Ok true) →
  ∀ amb, register_wait amb p f s = (s', Ok tt) → good_step s s'.
Proof.
  intros Hnone amb E Hok. apply register_wait_run in E as (b & row & -> & Hinv & Hrow & Hst & Hw & Hq); [|apply Hok].
  split; [|intros id m Hm; by exists m]. split; [done|apply Hok|]. intros q g id m Hwait Hm Hrec Hmatch. cbn in Hm.
  destruct (decide (q = p)) as [->|Hne].
  - destruct Hwait as (r & Hr & _ & Hwr). cbn in Hr. rewrite Hrow in Hr. injection Hr as <-. rewrite Hw in Hwr.
    injection Hwr as <-. by apply (Hnone id m).
  - apply (mo_waits _ Hok q g id m); try done. destruct Hwait as (r & Hr & Hs). cbn in Hr. rewrite Hq in Hr by done.
    by exists r.
Qed.

Lemma wait_unless_good {A} amb p block f (query : M MStore A) none_found :
  keeps eq query →
  (block = true → ∀ s a, query s = (s, Ok a) → none_found a = true →
     ∀ id m, messages s !! id = Some m → msg_recipient m = p → _message_matches m (filters_json f) ≠ Ok true) →
  keeps good_step (wait_unless amb p block f query none_found).
Proof.
  intros Hq Hnone s s' x E Hok. apply wait_unless_run in E; [|done|apply Hok].
  destruct E as [(e & _ & E)|[(a & _ & -> & _)|(_ & Hb & (a & Ha & Hn) & E)]].
  - by apply same_tables_good.
  - done.
  - revert Hok. eapply parked_good; [|exact E]. by eapply Hnone.
Qed.

Lemma receive_good amb p block include_acked r limit : keeps good_step (receive amb p block include_acked r limit).
Proof.
  unfold receive. intros s s' x E. apply bind_run in E as [(e & [= <- _] & _)|(f & s1 & [= <- Ef] & E)]; [reflexivity|].
  apply bind_run in E as [(e & [= <- _] & _)|([] & s1 & [= <- Eb] & E)]; [reflexivity|].
  eapply wait_unless_good; [apply list_messages_keeps| |exact E]. intros -> s0 a Hl Ha%bool_decide_eq_true. subst a.
  eapply (nothing_found default_window); [exact Ef|exact Eb|left; by eexists].
Qed.

Lemma receive_page_good amb p block include_acked r limit :
  keeps good_step (receive_page amb p block include_acked r limit).
Proof.
  unfold receive_page. intros s s' x E. apply bind_run in E as [(e & [= <- _] & _)|(f & s1 & [= <- Ef] & E)]; [reflexivity|].
  apply bind_run in E as [(e & [= <- _] & _)|([] & s1 & [= <- Eb] & E)]; [reflexivity|].
  eapply wait_unless_good; [apply list_page_keeps| |exact E]. intros -> s0 [l n] Hl Ha%bool_decide_eq_true. cbn in Ha. subst l.
  eapply (nothing_found default_window); [exact Ef|exact Eb|right; by eexists _, _].
Qed.

(** The ids an acknowledgement selects by, and the query it makes. *)
Definition ack_ids (message_ids : option (list string)) : list string :=
  fromkeys (match message_ids with Some ids => ids | None => [] end).

Definition by_id (message_ids : option (list string)) : bool := negb (bool_decide (ack_ids message_ids = [])).

Definition ack_filters (message_ids : option (list string)) (r : RawFilters) : RawFilters :=
  {| rf_kind := rf_kind r; rf_sender := rf_sender r; rf_channel := rf_channel r;
     rf_correlation := rf_correlation r; rf_reply_to := rf_reply_to r;
     rf_ids := if by_id message_ids then Some (map PStr (ack_ids message_ids)) else None |}.

Definition ack_limit (message_ids : option (list string)) : option pyval :=
  if by_id message_ids then Some (PInt (Z.of_nat (length (ack_ids message_ids)))) else None.

Definition ack_selected (message_ids : option (list string)) (found : list ProcessMessage) : list ProcessMessage :=
  if by_id message_ids then List.filter (fun m => bool_decide (msg_id m ∈ ack_ids message_ids)) found else found.

(** What an acknowledgement that returns has read and written. *)
Lemma ack_run p ids r s s' x : ack p ids r s = (s', x) →
  (∃ e, x = Err e ∧ same_tables s s') ∨ (ids = Some [] ∧ x = Ok [] ∧ s' = s)
  ∨ ∃ found now, let selected := ack_selected ids found in
      ids ≠ Some [] ∧ list_messages p false (ack_filters ids r) (ack_limit ids) s = (s, Ok found)
      ∧ x = Ok (map (acked now) selected) ∧ mbase s' = mbase s ∧ NoDup (map msg_id selected)
      ∧ (∀ m, m ∈ selected → ∃ row, messages s !! msg_id m = Some row ∧ msg_recipient row = p
           ∧ msg_status row = MessageStatus.UNREAD)
      ∧ ∀ id, messages s' !! id =
          if decide (id ∈ map msg_id selected) then acked now <$> messages s !! id else messages s !! id.
Proof.
  intros E. assert (ids = Some [] ∨ ids ≠ Some []) as [->|Hne]; [destruct ids as [[]|]; auto| |].
  { injection E as <- <-. by right; left. }
  assert (E' : message_unit (
      found ← list_messages p false (ack_filters ids r) (ack_limit ids);
      now ← looking (fun s => Ok (message_now s));
      acknowledged ← ack_all p now (ack_selected ids found);
      _ ← (if bool_decide (acknowledged = []) then mret tt else
           _ ← witness (Event "process_message_acked" p p)
                 [("message_ids", PList (map (fun m => PStr (msg_id m)) acknowledged));
                  ("count", PInt (Z.of_nat (length acknowledged)))];
           witness (Audit p "process.message.ack" ("process:" +:+ p))
                 [("message_ids", PList (map (fun m => PStr (msg_id m)) acknowledged));
                  ("count", PInt (Z.of_nat (length acknowledged)))]);
      mret acknowledged) s = (s', x)) by (destruct ids as [[|i ids]|]; [done|exact E|exact E]).
  clear E. destruct x as [l|e]; [|left; exists e; split; [done|by eapply message_unit_Err]]. right; right.
  apply (proj1 (message_unit_Ok _ _ _ _)) in E'. apply M_bind_Ok in E' as (found & s1 & E1 & E).
  pose proof (list_messages_keeps _ _ _ _ _ _ _ E1) as <-. apply M_bind_Ok in E as (now & s1 & [= <- _] & E).
  apply M_bind_Ok in E as (l' & s1 & E2 & E). apply ack_all_run in E2 as (-> & Hb & Hl & Hnd & Hall & Hm).
  apply M_bind_Ok in E as ([] & s2 & E3 & E). injection E as <- <-. exists found, now.
  assert (mbase s2 = mbase s1 ∧ messages s2 = messages s1) as [Hb2 Hm2].
  { destruct (bool_decide _); [by injection E3 as <-|]. apply M_bind_Ok in E3 as ([] & s3 & E3 & E4).
    apply witness_Ok in E3 as ->. by apply witness_Ok in E4 as ->. }
  split_and!; try done; [congruence|]. intros id. by rewrite Hm2.
Qed.

Lemma ack_steady p ids r : keeps steady (ack p ids r).
Proof.
  intros s s' x E. apply ack_run in E as [(e & _ & E)|[(_ & _ & ->)|(found & now & _ & _ & _ & Hb & _ & _ & Hm)]].
  - by apply same_tables_steady.
  - done.
  - by eapply map_rows_steady; [|apply (acked_revised now)|].
Qed.

Lemma notice_steady p kind phase source instruction : keeps steady (notice p kind phase source instruction).
Proof.
  unfold notice. apply keeps_bind; [apply _| |intros found].
  { apply (keeps_weaken eq); [by intros s s' ->|apply unread_keeps]. }
  case_match; [apply keeps_ret; apply _|]. apply keeps_bind; [apply _|apply keeps_lift; apply _|intros k].
  do 2 (apply keeps_bind; [apply _|apply witness_steady|intros _]). apply keeps_ret; apply _.
Qed.

(** ** Any history *)

Lemma message_step_good s s' : message_step s s' → good_step s s'.
Proof.
  assert (Hfst : ∀ A (m : M MStore A), keeps good_step m → good_step s (fst (m s))).
  { intros A m Hm. destruct (m s) as [s1 x] eqn:E. by eapply Hm. }
  intros []; try apply Hfst.
  - apply post_good.
  - apply send_good.
  - apply receive_good.
  - apply receive_page_good.
  - eapply keeps_weaken; [apply steady_good|apply ack_steady].
  - eapply keeps_weaken; [apply steady_good|apply notice_steady].
  - by apply steady_good.
Qed.

Lemma history_good s s' : rtc message_step s s' → good_step s s'.
Proof. induction 1 as [|a b c Hab _ IH]; [reflexivity|]. transitivity b; [by apply message_step_good|done]. Qed.
End History.
