(* ===== verification/MessageProperties.v ===== *)
(** * What the message manager promises

    No wakeup is lost; messages are acknowledged once and as a whole batch; a
    post is one atomic write; windows are exact; the evidence of a message to a
    Run-bound process holds none of its content. *)

From S2P Require Import Prelude PyStr PyVal PyEnum ProcessState ProcessModel ProcessStore ProcessWrites ProcessInvariant ProcessProperties ProcessTransition DataLabels AuthorityRules ResourceTables JsonColumn StoreSteps MessageTables ProcessMessages MessageSteps MessageHistory.
From stdpp Require Import sorting.

Section Properties.
Context `{MessageHost}.

Lemma no_messages_ok s : store_inv (mbase s) → messages s = ∅ → messages_ok s.
Proof.
  intros Hinv Hm. split; [done| |].
  - intros id m. by rewrite Hm.
  - intros p f id m _. by rewrite Hm.
Qed.

(** (C14) No wakeup is lost. *)
Theorem no_lost_wakeup `{!MessageHostLaws} s s' p filters id m :
  store_inv (mbase s) → messages s = ∅ → rtc message_step s s' →
  waits_on s' p filters → messages s' !! id = Some m → msg_recipient m = p →
  _message_matches m filters ≠ Ok true.
Proof.
  intros Hinv Hm Hsteps. destruct (history_good s s' Hsteps (no_messages_ok s Hinv Hm)) as [Hok _].
  apply (mo_waits _ Hok).
Qed.

(** ** Acknowledging *)

Lemma filters_ids r f l : _filters r = Ok f → rf_ids r = Some (map PStr l) → fl_ids f = Some l.
Proof.
  unfold _filters. intros E Hr. repeat (apply bind_Ok in E as (? & ?Ex & E)). injection E as <-. cbn.
  match goal with E : _validate_message_ids _ = Ok ?o |- _ => rename E into Ei; rewrite Hr in Ei end.
  apply bind_Ok in Ei as ([] & _ & Ei). apply bind_Ok in Ei as (k & Ei & [= <-]). f_equal.
  apply mapR_Ok in Ei. clear - Ei. remember (map PStr l) as ps eqn:Hps. revert l Hps.
  induction Ei as [|x y ps k Hx _ IH]; intros [|z l] Hps; try done. injection Hps as -> ->. f_equal; [|by apply IH].
  unfold _normalize_identifier in Hx. repeat (apply bind_Ok in Hx as ([] & _ & Hx)). by injection Hx.
Qed.

(** The decoded rows have the ids of the rows. *)
Lemma decoded_ids rows l : mapR _row_to_process_message rows = Ok l → map msg_id l = map msg_id rows.
Proof.
  intros E. apply mapR_Ok in E. induction E as [|x y rows l Hx _ IH]; cbn; [done|]. f_equal; [|done].
  unfold _row_to_process_message, _persisted_model_decode in Hx.
  destruct (_canonical_process_message_metadata _) as [md|[]]; cbn in Hx; try done; by injection Hx as <-.
Qed.

Lemma by_id_Some i ids : by_id (Some (i :: ids)) = true.
Proof.
  unfold by_id. apply negb_true_iff, bool_decide_eq_false. intros Hn.
  assert (Hi : i ∈ ack_ids (Some (i :: ids))) by (apply fromkeys_spec; left). by rewrite Hn in Hi; apply elem_of_nil in Hi.
Qed.

(** The window of an acknowledgement by ids is as large as the ids are many, so
    that it never leaves a selected message out. *)
Lemma ack_complete p i ids r s found :
  keyed s → list_messages p false (ack_filters (Some (i :: ids)) r) (ack_limit (Some (i :: ids))) s = (s, Ok found) →
  ∃ f, _filters (ack_filters (Some (i :: ids)) r) = Ok f ∧ fl_ids f = Some (fromkeys (i :: ids))
    ∧ ∀ id row, messages s !! id = Some row →
        id ∈ map msg_id (ack_selected (Some (i :: ids)) found) ↔ message_clause p [MessageStatus.UNREAD] f row = true.
Proof.
  intros Hk E. apply list_messages_Ok in E as (_ & f & k & Hf & Hlim & E). pose proof (by_id_Some i ids) as Hby.
  assert (Hids : fl_ids f = Some (fromkeys (i :: ids))).
  { apply (filters_ids _ _ _ Hf). unfold ack_filters. by rewrite Hby. }
  unfold ack_limit in Hlim. rewrite Hby in Hlim. unfold _normalize_limit in Hlim. rewrite res_bind_ok in Hlim.
  apply bind_Ok in Hlim as ([] & _ & Hlim). apply bind_Ok in Hlim as ([] & _ & [= <-]).
  apply list_process_messages_eq in E; [|done]. set (rows := matching_messages p _ f s) in *.
  assert (Hlen : length rows <= length (fromkeys (i :: ids))).
  { rewrite <-(length_map msg_id rows). apply submseteq_length, NoDup_submseteq; [by apply matching_ids|].
    intros x (m & -> & Hm)%list_elem_of_fmap. apply elem_of_matching in Hm as [_ Hc].
    by apply (clause_ids _ _ _ _ _ Hc). }
  rewrite take_ge in E by (unfold ack_ids; lia). apply decoded_ids in E.
  exists f. split; [done|]. split; [done|]. intros id row Hrow.
  assert (Hrows : id ∈ map msg_id rows ↔ message_clause p [MessageStatus.UNREAD] f row = true).
  { rewrite list_elem_of_fmap. unfold rows. setoid_rewrite elem_of_matching. split.
    - intros (m & -> & [j Hj] & Hc). pose proof (Hk _ _ Hj) as <-. rewrite Hrow in Hj. by injection Hj as ->.
    - intros Hc. exists row. split; [symmetry; by apply Hk|]. split; [by exists id|done]. }
  rewrite <-Hrows, <-E. unfold ack_selected. rewrite Hby, !list_elem_of_fmap. split.
  - intros (m & -> & Hm%list_elem_of_In). apply filter_In in Hm as [Hm _]. exists m. by rewrite list_elem_of_In.
  - intros (m & -> & Hm). exists m. split; [done|]. apply list_elem_of_In, filter_In. rewrite <-list_elem_of_In.
    split; [done|]. apply bool_decide_eq_true. unfold ack_ids.
    assert (Hin : msg_id m ∈ map msg_id rows) by (rewrite <-E; by apply list_elem_of_fmap_2).
    apply list_elem_of_fmap in Hin as (x & -> & Hx). apply elem_of_matching in Hx as [_ Hc].
    by apply (clause_ids _ _ _ _ _ Hc).
Qed.

(** What was acknowledged is not unread in any later store. *)
Lemma acked_not_unread `{!MessageHostLaws} s s' id m :
  messages_ok s → rtc message_step s s' → messages s !! id = Some m → msg_status m ≠ MessageStatus.UNREAD →
  ∀ m', messages s' !! id = Some m' → msg_status m' ≠ MessageStatus.UNREAD.
Proof.
  intros Hok Hsteps Hm Hu m' Hm' Hu'. destruct (history_good _ _ Hsteps Hok) as [_ Hstay].
  destruct (Hstay id m Hm) as (m2 & Hm2 & Hs). rewrite Hm' in Hm2. injection Hm2 as <-. auto.
Qed.

(** (C15) Messages are acknowledged as a whole batch, exactly, and once. *)
Theorem ack_exactly_once `{!MessageHostLaws} p ids r s s1 x :
  messages_ok s → ack p ids r s = (s1, x) →
  match x with
  | Err _ => same_tables s s1
  | Ok l =>
      mbase s1 = mbase s
      ∧ (∃ now, (∀ m, m ∈ l → ∃ row, messages s !! msg_id m = Some row ∧ msg_recipient row = p
                   ∧ msg_status row = MessageStatus.UNREAD ∧ messages s1 !! msg_id m = Some (acked now row))
           ∧ ∀ id, id ∉ map msg_id l → messages s1 !! id = messages s !! id)
      ∧ (∀ i rest, ids = Some (i :: rest) → ∃ f, _filters (ack_filters ids r) = Ok f
           ∧ fl_ids f = Some (fromkeys (i :: rest))
           ∧ ∀ id row, messages s !! id = Some row →
               id ∈ map msg_id l ↔ message_clause p [MessageStatus.UNREAD] f row = true)
      ∧ ∀ s2 q ids' r' s3 l', rtc message_step s1 s2 → ack q ids' r' s2 = (s3, Ok l') →
          ∀ m m', m ∈ l → m' ∈ l' → msg_id m ≠ msg_id m'
  end.
Proof.
  intros Hok E. pose proof (steady_good _ _ (ack_steady _ _ _ _ _ _ E) Hok) as [Hok1 _].
  apply ack_run in E as [(e & -> & E)|[(-> & -> & ->)|(found & now & Hne & Hl & -> & Hb & Hnd & Hall & Hm)]]; [done| |].
  { split; [done|]. split; [|by split; [intros|intros ? ? ? ? ? ? _ _ ? ? ?%elem_of_nil]].
    exists "". split; [by intros m ?%elem_of_nil|done]. }
  set (selected := ack_selected ids found) in *.
  assert (Hids : map msg_id (map (acked now) selected) = map msg_id selected) by (rewrite map_map; by apply map_ext).
  assert (Hrow : ∀ m, m ∈ map (acked now) selected → ∃ row, messages s !! msg_id m = Some row ∧ msg_recipient row = p
      ∧ msg_status row = MessageStatus.UNREAD ∧ messages s1 !! msg_id m = Some (acked now row)).
  { intros m' (m & -> & Hin)%list_elem_of_fmap. destruct (Hall m Hin) as (row & Hr & Hp & Hu). exists row.
    split_and!; try done. cbn. rewrite Hm, decide_True by (by apply list_elem_of_fmap_2). by rewrite Hr. }
  split; [done|]. split; [exists now; split; [done|]; intros id Hid; rewrite Hids in Hid; by rewrite Hm, decide_False|].
  split.
  - intros i rest ->. destruct (ack_complete p i rest r s found (mo_keyed _ Hok) Hl) as (f & Hf & Hi & Hc).
    exists f. by rewrite Hids.
  - intros s2 q ids' r' s3 l' Hsteps E' m m' Hin Hin' Heq. destruct (Hrow m Hin) as (row & _ & _ & _ & Hr1).
    assert (Hu : ∃ row', messages s2 !! msg_id m' = Some row' ∧ msg_status row' = MessageStatus.UNREAD).
    { apply ack_run in E' as [(e & ? & _)|[(_ & [= ->] & _)|(found' & now' & _ & _ & [= ->] & _ & _ & Hall' & _)]];
        [done|by apply elem_of_nil in Hin'|]. apply list_elem_of_fmap in Hin' as (y & -> & Hy).
      destruct (Hall' y Hy) as (row' & Hr' & _ & Hu'). by exists row'. }
    destruct Hu as (row' & Hr' & Hu'). rewrite <-Heq in Hr'.
    by apply (acked_not_unread s1 s2 _ _ Hok1 Hsteps Hr1 ltac:(done) _ Hr').
Qed.

(** ** Posting *)

(** (C16) A post is one atomic write. *)
Theorem post_is_atomic amb r s s' x :
  store_inv (mbase s) → post amb r s = (s', x) →
  match x with
  | Err _ => same_tables s s'
  | Ok m =>
      messages s !! msg_id m = None ∧ msg_status m = MessageStatus.UNREAD
      ∧ msg_sender m = po_sender r ∧ msg_subject m = po_subject r ∧ msg_body m = po_body r
      ∧ (∃ row, processes (mbase s) !! po_recipient r = Some row ∧ status row ∉ TERMINAL_STATUSES)
      ∧ ∃ projection stored s1,
          stored_message m stored ∧ messages s1 = <[msg_id m := stored]> (messages s)
          ∧ notify_object_tasks m s1 = (s', Ok tt)
          ∧ ((mbase s1 = mbase s ∧ mlog s1 = mlog s ++ post_records m projection
              ∧ ∀ filters, waits_on s (po_recipient r) filters → _message_matches m filters = Ok false)
             ∨ ∃ filters row,
                 waits_on s (po_recipient r) filters ∧ _message_matches m filters = Ok true
                 ∧ processes (mbase s1) !! po_recipient r = Some row ∧ status row = RUNNABLE ∧ wait_state row = None
                 ∧ others_same (po_recipient r) s s1
                 ∧ mlog s1 = mlog s ++ post_records m projection ++ [wake_record m (po_recipient r) filters])
  end.
Proof.
  intros Hinv E. apply post_run in E as [(e & -> & E)|(m & projection & s1 & row & _ & Em & _ & E1 & E2 & ->)]; [done|].
  apply post_unit_run in E1 as (Hfresh & Hlive & stored & Hst & Hw); [|done].
  apply envelope_Ok in Em as (Hrec & Hs & Hu & Hsub & Hbody & _). rewrite <-Hrec.
  do 6 (split; [done|]). exists projection, stored, s1. split; [done|].
  destruct Hw as [Hnone ->|filters new b Hwait Hmatch Hrow Hrun Hnw Hothers Hinv' ->].
  - split; [done|]. split; [done|]. by left.
  - split; [done|]. split; [done|]. right. exists filters, new. split_and!; try done. cbn. by rewrite <-app_assoc.
Qed.

(** (C17) What is logged of a message to a Run-bound process holds only hashes of
    its content. *)
Theorem run_bound_evidence_is_content_free amb r s s' m row run :
  store_inv (mbase s) → processes (mbase s) !! po_recipient r = Some row → task_run_id row = Some run →
  post amb r s = (s', Ok m) →
  ∃ payload_hash s1 woken_records,
    canonical_sha256 (py_object (or_payload (po_payload r) [])) = Ok payload_hash
    ∧ notify_object_tasks m s1 = (s', Ok tt)
    ∧ (woken_records = [] ∨ ∃ filters, waits_on s (po_recipient r) filters
         ∧ woken_records = [wake_record m (po_recipient r) filters])
    ∧ let hashed := [("task_run_id", PStr run); ("message_id", PStr (msg_id m)); ("sender", PStr (po_sender r));
        ("recipient_pid", PStr (po_recipient r)); ("kind", PStr (enum_value (msg_kind m)));
        ("channel", PStr (msg_channel m)); ("correlation_id", py_opt (msg_correlation m));
        ("reply_to", py_opt (msg_reply_to m)); ("subject_sha256", PStr (text_sha256 (po_subject r)));
        ("body_sha256", PStr (text_sha256 (po_body r))); ("payload_sha256", PStr payload_hash);
        ("data_labels", match item_get (msg_metadata m) "data_labels" with Some v => v | None => PNone end)] in
      mlog s1 = mlog s ++ [(Event "process_message_posted" (po_sender r) (po_recipient r), hashed);
                           (Audit (po_sender r) "process.message.post" ("process:" +:+ po_recipient r), hashed)]
                ++ woken_records.
Proof.
  intros Hinv Hrow Hrun E.
  apply post_run in E as [(e & ? & _)|(m' & projection & s1 & row' & Hrow' & Em & Ep & E1 & E2 & [= <-])]; [done|].
  rewrite Hrow in Hrow'. injection Hrow' as <-.
  apply post_unit_run in E1 as (_ & _ & stored & _ & Hw); [|done].
  apply envelope_Ok in Em as (Hrec & Hs & _ & Hsub & Hbody & _ & Hpay & _ & _ & metadata & Hmd).
  unfold _bind_recipient_task_run_metadata in Hmd. rewrite Hrun in Hmd.
  apply bind_Ok in Hmd as ([] & _ & Hmd). apply bind_Ok in Hmd as ([] & _ & Hmd). injection Hmd as Hmd.
  unfold task_run_message_evidence_projection in Ep. rewrite <-Hmd, item_get_set, Hmd, Hpay, Hrec, Hs, Hsub, Hbody in Ep.
  apply bind_Ok in Ep as ([] & _ & Ep). apply bind_Ok in Ep as (h & Hh & Ep). injection Ep as <-. exists h, s1.
  destruct Hw as [_ ->|filters new b Hwait _ _ _ _ _ _ ->].
  - exists []. split_and!; [done|done|by left|]. cbn. unfold post_records. by rewrite Hrec, Hs.
  - exists [wake_record m (msg_recipient m) filters]. split_and!; [done|done| |].
    + right. exists filters. by rewrite <-Hrec.
    + cbn. unfold post_records. by rewrite Hrec, Hs, <-app_assoc.
Qed.

(** ** Windows *)

(** (C18) A page is the first rows of the sorted matching messages, with their
    exact number. *)
Theorem page_is_exact p include_acked r limit s s' l n :
  keyed s → list_page p include_acked r limit s = (s', Ok (l, n)) →
  s' = s ∧ ∃ f k rows,
    _filters r = Ok f ∧ _normalize_limit limit = Ok k
    ∧ StronglySorted message_le rows ∧ NoDup (map msg_id rows)
    ∧ (∀ m, m ∈ rows ↔ (∃ id, messages s !! id = Some m)
                       ∧ message_clause p (visible_statuses include_acked) f m = true)
    ∧ mapR _row_to_process_message (take (Z.to_nat k) rows) = Ok l
    ∧ n = Z.of_nat (length rows).
Proof.
  intros Hk E. apply list_page_Ok in E as (-> & f & k & Hf & Hlim & E1 & E2). split; [done|].
  exists f, k, (matching_messages p (visible_statuses include_acked) f s).
  apply list_process_messages_eq in E1; [|apply visible_nonempty].
  apply count_process_messages_eq in E2; [|apply visible_nonempty].
  assert (Hk0 : (0 <= k)%Z).
  { unfold _normalize_limit in Hlim. apply bind_Ok in Hlim as (j & _ & Hlim).
    apply bind_Ok in Hlim as ([] & Hj & Hlim). apply bind_Ok in Hlim as ([] & _ & [= <-]).
    by apply raise_if_Ok, Z.ltb_ge in Hj. }
  replace (Z.max 0 k) with k in E1 by lia. split_and!; try done.
  - apply sorted_matching.
  - by apply matching_ids.
  - intros m. apply elem_of_matching.
Qed.

(** ** Sending between processes *)

Definition related (a b : AgentProcess) : Prop :=
  pid a = pid b ∨ parent_pid a = Some (pid b) ∨ parent_pid b = Some (pid a).

(** A process cannot tell a missing recipient from one it is not related to. *)
Lemma unrelated_and_missing_look_alike amb r labels context s a :
  store_inv (mbase s) → processes (mbase s) !! po_sender r = Some a →
  (∀ b, processes (mbase s) !! po_recipient r = Some b → ¬ related a b) →
  send_from_process amb r labels context s
  = (s, Err (ProcessError (po_sender r +:+ " can only message itself, its parent, or its direct children"))).
Proof.
  intros Hinv Ha Hno.
  assert (Hget : ∀ p, in_processes (get_process p) s = (s, Ok (processes (mbase s) !! p))).
  { intros p. unfold in_processes. rewrite get_process_run by done. by rewrite set_mbase_id. }
  assert (E : _require_related_process (po_sender r) (po_recipient r) s
    = (s, Err (ProcessError (po_sender r +:+ " can only message itself, its parent, or its direct children")))).
  { unfold _require_related_process, _require_process. rewrite (run_bind _ _ s s a).
    - rewrite (run_bind _ _ _ _ _ (Hget _)). unfold lift_res. f_equal.
      destruct (processes (mbase s) !! po_recipient r) as [b|]; [|done]. specialize (Hno b eq_refl).
      unfold related in Hno. rewrite (proj2 (String.eqb_neq _ _)), !bool_decide_false by tauto. done.
    - rewrite (run_bind _ _ _ _ _ (Hget _)), Ha. done. }
  unfold send_from_process, mbind, M_bind. by rewrite E.
Qed.
End Properties.
