(* ===== verification/MessageSamples.v ===== *)
(** * Concrete message queues

    A host, a process that waits and is woken, and the windows and
    acknowledgements of its queue, on which the theorems are instantiated. *)

From S2P Require Import Prelude PyStr PyVal PyEnum ProcessState ProcessModel ProcessStore ProcessWrites ProcessInvariant ProcessProperties ProcessTransition DataLabels AuthorityRules ResourceTables JsonColumn StoreSteps MessageTables ProcessMessages MessageSteps MessageHistory MessageProperties.
From stdpp Require Import sorting pretty.

(** ** The host *)

Definition log_text (s : MStore) : string := pretty (length (mlog s)).

Definition local_context : DataFlowContext :=
  {| ctx_labels := default_labels; ctx_source_refs := []; ctx_materialization_id := None |}.

#[export] Instance message_host : MessageHost := {|
  message_exec := no_evidence; message_json_dumps := demo_dumps; message_str _ := "other";
  message_subject_max_chars := 100; message_body_max_chars := 100; message_payload_max_bytes := 1000;
  message_id_max_chars := 100; message_read_limit := 2; message_read_hard_limit := 10;
  message_filter_ids_hard_limit := 10; message_filter_json_max_bytes := 1000; message_wait_status_max_chars := 200;
  json_size_bytes _ := Ok 10%Z; message_now s := "t" +:+ log_text s; message_new_id s := "pmsg" +:+ log_text s;
  evidence_sink _ _ := Ok tt; text_sha256 s := "hash of a text"; canonical_sha256 _ := Ok "hash of a value";
  assert_data_flow_labels _ _ _ := Ok tt; trusted_source_context _ _ := Ok local_context;
  flow_source_oids _ _ _ := Ok []; flow_context _ _ _ _ _ := Ok local_context; object_tasks := None;
|}.

#[export] Instance message_host_laws : MessageHostLaws.
Proof. split; [done|]. intros hook m Hhook. by discriminate Hhook. Qed.

(** [p2] is runnable; [p3] belongs to a Task Run. *)
Definition bound_process : AgentProcess :=
  {| pid := "p3"; parent_pid := Some "p2"; image_id := "image"; status := RUNNABLE; goal_oid := None;
     memory_view := None; capabilities := []; loaded_skills := []; tool_table := []; event_cursor := None;
     checkpoint_head := None; resource_budget := mk_budget (fun _ => None) (NInt 8000); resource_usage := usage_zero;
     created_at := "t0"; updated_at := "t0"; working_directory := "."; status_message := None;
     wait_state := None; outcome := None; state_generation := 0; llm_profile_id := "default";
     model_tool_table := []; revision := 0; execution_generation := 0;
     execution_owner_id := None; execution_lease_id := None; task_run_id := Some "run";
     task_run_epoch := Some 1%Z; task_run_role := Some "worker" |}.

Definition queue_ops : list process_op := [OpInsert "t0" bound_process].

Definition no_queue : MStore := {|
  mbase := run_ops (H := no_evidence) demo_dumps demo_hash queue_ops claimed_store; messages := ∅; mlog := [] |}.

Lemma no_queue_inv : store_inv (mbase no_queue).
Proof.
  refine (le_inv _ _ (run_ops_le (H := no_evidence) demo_dumps demo_hash queue_ops claimed_store _ claimed_inv) claimed_inv).
  repeat constructor; cbn; try lia; by left.
Qed.

(** ** Runs *)

Definition on_channel (c : string) : RawFilters := {|
  rf_kind := None; rf_sender := None; rf_channel := Some c; rf_correlation := None; rf_reply_to := None; rf_ids := None |}.

Definition any_message : RawFilters := {|
  rf_kind := None; rf_sender := None; rf_channel := None; rf_correlation := None; rf_reply_to := None; rf_ids := None |}.

Definition hello (recipient channel : string) : PostRequest := {|
  po_sender := "human:ann"; po_recipient := recipient; po_kind := "normal"; po_channel := Some channel;
  po_correlation := None; po_reply_to := None; po_subject := "hello"; po_body := "how are you"; po_payload := None;
  po_metadata := None; po_source_oids := None |}.

Definition waiting_queue : MStore := fst (receive host "p2" true false (on_channel "work") None no_queue).
Definition other_posted : MStore := fst (post host (hello "p2" "chat") waiting_queue).
Definition work_posted : MStore := fst (post host (hello "p2" "work") other_posted).

(** What the sample runs answer: the receive parks the process, a message of
    another channel leaves it parked and a matching one wakes it. *)
Definition ids_of (r : res (list ProcessMessage * Z)) : option (list string * Z) :=
  match r with Ok (l, n) => Some (map msg_id l, n) | Err _ => None end.

Example queue_along :
  (snd (receive host "p2" true false (on_channel "work") None no_queue),
   status <$> processes (mbase other_posted) !! "p2", status <$> processes (mbase work_posted) !! "p2",
   ids_of (snd (list_page "p2" false any_message (Some (PInt 1)) work_posted)))
  = (Err (ProcessMessageWaitRequired "p2"), Some WAITING_EVENT, Some RUNNABLE, Some (["pmsg1"], 2%Z)).
Proof. by vm_compute. Qed.

Lemma other_history : rtc message_step no_queue other_posted.
Proof.
  eapply rtc_l; [exact (step_receive no_queue host "p2" true false (on_channel "work") None)|].
  eapply rtc_l; [exact (step_post waiting_queue host (hello "p2" "chat"))|]. apply rtc_refl.
Qed.

Lemma work_history : rtc message_step no_queue work_posted.
Proof.
  eapply rtc_r; [exact other_history|exact (step_post other_posted host (hello "p2" "work"))].
Qed.

Lemma work_ok : messages_ok work_posted.
Proof.
  assert (Hok : messages_ok no_queue) by (by apply no_messages_ok; [exact no_queue_inv|]).
  exact (proj1 (history_good _ _ work_history Hok)).
Qed.

(** [p2] is parked with an unread message of another channel. *)
Lemma no_lost_wakeup_witness :
  ∃ filters m, waits_on other_posted "p2" filters ∧ messages other_posted !! "pmsg1" = Some m
    ∧ _message_matches m filters ≠ Ok true.
Proof.
  destruct (processes (mbase other_posted) !! "p2") as [row|] eqn:Hrow; [|vm_compute in Hrow; discriminate Hrow].
  destruct (messages other_posted !! "pmsg1") as [m|] eqn:Hm; [|vm_compute in Hm; discriminate Hm].
  destruct (_filters (on_channel "work")) as [f|] eqn:Hf; [|vm_compute in Hf; discriminate Hf].
  assert (Hw : waits_on other_posted "p2" (filters_json f)).
  { exists row. split; [exact Hrow|]. vm_compute in Hrow, Hf. injection Hrow as <-. injection Hf as <-. exact (conj eq_refl eq_refl). }
  assert (Hrec : msg_recipient m = "p2") by (vm_compute in Hm; injection Hm as <-; reflexivity).
  exists (filters_json f), m. split; [exact Hw|]. split; [reflexivity|].
  exact (no_lost_wakeup no_queue other_posted "p2" (filters_json f) "pmsg1" m no_queue_inv eq_refl other_history Hw Hm Hrec).
Defined.

(** Acknowledging both messages by their ids. *)
Lemma ack_exactly_once_witness :
  ∃ s1 l, ack "p2" (Some ["pmsg3"; "pmsg1"]) any_message work_posted = (s1, Ok l)
    ∧ map msg_id l = ["pmsg1"; "pmsg3"] ∧ mbase s1 = mbase work_posted
    ∧ ∀ s3 l', ack "p2" None any_message s1 = (s3, Ok l') → ∀ m m', m ∈ l → m' ∈ l' → msg_id m ≠ msg_id m'.
Proof.
  destruct (run_ok (ack "p2" (Some ["pmsg3"; "pmsg1"]) any_message) work_posted) as [l E]; [vm_compute; reflexivity|].
  pose proof (ack_exactly_once "p2" (Some ["pmsg3"; "pmsg1"]) any_message work_posted _ _ work_ok E) as (Hb & _ & _ & Honce).
  exists (fst (ack "p2" (Some ["pmsg3"; "pmsg1"]) any_message work_posted)), l. split; [exact E|]. split.
  { apply (f_equal (fun x => match snd x with Ok k => map msg_id k | Err _ => [] end)) in E.
    cbn [snd] in E. rewrite <-E. vm_compute. reflexivity. }
  split; [exact Hb|]. intros s3 l' E'. exact (Honce _ "p2" None any_message s3 l' (rtc_refl _ _) E').
Defined.

(** The post that wakes. *)
Lemma post_is_atomic_witness :
  ∃ m, post host (hello "p2" "work") other_posted = (work_posted, Ok m)
    ∧ messages other_posted !! msg_id m = None ∧ msg_body m = "how are you".
Proof.
  destruct (run_ok (post host (hello "p2" "work")) other_posted) as [m E]; [vm_compute; reflexivity|].
  assert (Hinv : store_inv (mbase other_posted)).
  { assert (Hok : messages_ok no_queue) by (by apply no_messages_ok; [exact no_queue_inv|]).
    exact (mo_procs _ (proj1 (history_good _ _ other_history Hok))). }
  exists m. split; [exact E|].
  destruct (post_is_atomic host (hello "p2" "work") other_posted work_posted (Ok m) Hinv E)
    as (Hfresh & _ & _ & _ & Hbody & _). split; [exact Hfresh|exact Hbody].
Defined.

Lemma run_bound_evidence_is_content_free_witness :
  ∃ s' m h s1 (w : list (Evidence * Payload)), post host (hello "p3" "work") no_queue = (s', Ok m)
    ∧ canonical_sha256 (py_object []) = Ok h ∧ notify_object_tasks m s1 = (s', Ok tt)
    ∧ length (mlog s1) = 2 + length w.
Proof.
  destruct (run_ok (post host (hello "p3" "work")) no_queue) as [m E]; [vm_compute; reflexivity|].
  destruct (processes (mbase no_queue) !! "p3") as [row|] eqn:Hrow; [|vm_compute in Hrow; discriminate Hrow].
  assert (Hrun : task_run_id row = Some "run") by (vm_compute in Hrow; injection Hrow as <-; reflexivity).
  destruct (run_bound_evidence_is_content_free host (hello "p3" "work") no_queue _ m row "run" no_queue_inv Hrow Hrun E)
    as (h & s1 & w & Hh & Hn & _ & Hl).
  exists (fst (post host (hello "p3" "work") no_queue)), m, h, s1, w. split; [exact E|]. split; [exact Hh|]. split; [exact Hn|].
  cbn zeta in Hl. rewrite Hl. reflexivity.
Defined.

Lemma page_is_exact_witness :
  ∃ l n rows, list_page "p2" false any_message (Some (PInt 1)) work_posted = (work_posted, Ok (l, n))
    ∧ length l = 1 ∧ n = 2%Z ∧ n = Z.of_nat (length rows) ∧ StronglySorted message_le rows.
Proof.
  destruct (run_ok (list_page "p2" false any_message (Some (PInt 1))) work_posted) as [[l n] E]; [vm_compute; reflexivity|].
  pose proof (page_is_exact "p2" false any_message (Some (PInt 1)) work_posted _ l n (mo_keyed _ work_ok) E)
    as (Hs & f & k & rows & _ & _ & Hsorted & _ & _ & _ & Hn).
  exists l, n, rows. rewrite Hs in E. split; [exact E|].
  assert (Hv : (fun x : res (list ProcessMessage * Z) => match x with Ok (k, j) => (length k, j) | Err _ => (0, 0%Z) end)
    (snd (list_page "p2" false any_message (Some (PInt 1)) work_posted)) = (1, 2%Z)) by (vm_compute; reflexivity).
  rewrite E in Hv. injection Hv as H1 H2. split; [exact H1|]. split; [exact H2|]. split; [exact Hn|exact Hsorted].
Defined.
