(* ===== verification/WorkingDirectory.v ===== *)
(** * Working directories

    [runtime/process_manager.py]: a process names its working directory relative
    to the workspace.  A name from outside is normalized; a name the filesystem
    provider has validated, or a parent's, is checked and kept.  Paths are those
    of a POSIX host. *)

From Stdlib Require Import Ascii.
From S2P Require Import Prelude PyStr PyVal ProcessState.

Section Paths.
(** [config.process.default_working_directory]. *)
Variable default_working_directory : string.

(** [raw.replace(a, b)] for single characters. *)
Fixpoint replace_char (a b : ascii) (s : string) : string :=
  match s with
  | EmptyString => EmptyString
  | String c s' => String (if Ascii.eqb c a then b else c) (replace_char a b s')
  end.

(** [PurePosixPath(raw).is_absolute() or PureWindowsPath(raw).is_absolute()], of
    a path with forward slashes. *)
Definition is_absolute (raw : string) : bool :=
  startswith "/" raw || match raw with String _ (String ":" (String "/" _)) => true | _ => false end.

(** The parts that are kept, in order. *)
Fixpoint resolve_parts (path : option string) (parts : list string) (todo : list string) : res (list string) :=
  match todo with
  | [] => Ok parts
  | part :: rest =>
      if bool_decide (part ∈ [""; "."]) then resolve_parts path parts rest
      else if String.eqb part ".." then
        match parts with
        | [] => Err (ProcessError "working directory escapes workspace root")
        | _ => resolve_parts path (removelast parts) rest
        end
      else resolve_parts path (parts ++ [part]) rest
  end.

Definition _normalize_working_directory (path : option string) : res string :=
  let chosen := match path with Some t => if String.eqb t "" then default_working_directory else t | None => default_working_directory end in
  let raw := strip (replace_char "\" "/" chosen) in
  if bool_decide (raw ∈ [""; "."]) then Ok "." else
  _ ← raise_if (is_absolute raw) (ProcessError "working directory must be workspace-relative");
  parts ← resolve_parts path [] (split_all "/" raw);
  Ok (match parts with [] => "." | _ => join "/" parts end).

Definition plain_part (part : string) : bool := negb (bool_decide (part ∈ [""; "."; ".."])).

Definition _validated_working_directory_identity (path : string) : res string :=
  _ ← raise_if (String.eqb path "" || contains_char Ascii.zero path)
        (ProcessError "validated working directory must be a canonical string");
  if String.eqb path "." then Ok path else
  _ ← raise_if (startswith "/" path || negb (forallb plain_part (split_all "/" path)))
        (ProcessError "validated working directory is not canonical");
  Ok path.

Definition _select_child_working_directory (path : option string) (inherited : string) (validated : option string) : res string :=
  match validated with
  | Some v =>
      _ ← raise_if (match path with Some _ => true | None => false end)
            (ValidationError "raw and validated working directories are mutually exclusive");
      _validated_working_directory_identity v
  | None =>
      match path with
      | None | Some "" => _validated_working_directory_identity inherited
      | Some _ => _normalize_working_directory path
      end
  end.

(** ** A normalized directory stays inside the workspace *)

Lemma split_no_sep sep s : forallb (fun w => negb (contains_char sep w)) (split_all sep s) = true.
Proof.
  induction s as [|c s IH]; [done|]. cbn [split_all]. destruct (Ascii.eqb sep c) eqn:E; [done|].
  destruct (split_all sep s) as [|w ws]; cbn [forallb] in *; by rewrite contains_char_cons, E.
Qed.
(** A name that is kept: no separator, not empty, no dots. *)
Definition kept_part (part : string) : bool := plain_part part && negb (contains_char "/" part).

Lemma removelast_kept parts : forallb kept_part parts = true → forallb kept_part (removelast parts) = true.
Proof.
  induction parts as [|x [|y parts] IH]; [done|done|]. intros [Hx Hp]%andb_true_iff. cbn. rewrite Hx. by apply IH.
Qed.

Lemma resolve_kept path parts todo l :
  forallb kept_part parts = true → forallb (fun w => negb (contains_char "/" w)) todo = true →
  resolve_parts path parts todo = Ok l → forallb kept_part l = true.
Proof.
  revert parts. induction todo as [|part rest IH]; intros parts Hp Ht E; cbn in E; [by injection E as <-|].
  apply andb_true_iff in Ht as [Hs Ht]. case_bool_decide as Hdot; [by apply (IH parts)|].
  destruct (String.eqb_spec part "..") as [->|Hne].
  - destruct parts as [|x parts]; [done|]. apply (IH (removelast (x :: parts))); [by apply removelast_kept|done|done].
  - apply (IH (parts ++ [part])); [|done|done]. rewrite forallb_app, Hp. cbn. unfold kept_part, plain_part. rewrite Hs.
    rewrite bool_decide_false; [done|]. rewrite !elem_of_cons, elem_of_nil in *. naive_solver.
Qed.

Lemma split_join parts : parts ≠ [] → forallb kept_part parts = true → split_all "/" (join "/" parts) = parts.
Proof.
  induction parts as [|s parts IH]; [done|]. intros _ [[_ Hs%negb_true_iff]%andb_true_iff Hp]%andb_true_iff.
  destruct parts as [|t parts]; [by apply split_all_no_sep|].
  change (join "/" (s :: t :: parts)) with (s +:+ String "/" (join "/" (t :: parts))). rewrite split_all_app by done. by rewrite IH.
Qed.

(** A path that starts with a separator has an empty first part. *)
Lemma split_head s : startswith "/" s = true ∨ s = "" → ∃ rest, split_all "/" s = "" :: rest.
Proof.
  intros [H| ->]; [|by exists []]. destruct s as [|c s]; [done|]. cbn [startswith] in H. destruct (Ascii.eqb_spec "/" c) as [<-|]; [|done].
  by eexists.
Qed.

(** A normalized name is "." or a list of plain names below the workspace:
    unless it holds a NUL, it passes the check of validated names. *)
Lemma normalized_is_canonical path d :
  _normalize_working_directory path = Ok d → contains_char Ascii.zero d = false →
  _validated_working_directory_identity d = Ok d.
Proof.
  unfold _normalize_working_directory. cbv zeta. intros E Hnul. unfold _validated_working_directory_identity. rewrite Hnul, orb_false_r.
  case_bool_decide as Hdot; [by injection E as <-|]. apply bind_Ok in E as ([] & _ & E). apply bind_Ok in E as (parts & Hp & [= <-]).
  apply resolve_kept in Hp; [|done|apply split_no_sep]. destruct parts as [|x parts]; [done|].
  set (d := join "/" (x :: parts)) in *. assert (Hsplit : split_all "/" d = x :: parts) by (by apply split_join).
  assert (Hfirst : ¬ (startswith "/" d = true ∨ d = "")).
  { intros (rest & Hr)%split_head. rewrite Hsplit in Hr. injection Hr as -> _. done. }
  assert (String.eqb d "" = false) as -> by (apply String.eqb_neq; auto). cbn [raise_if].
  destruct (String.eqb d "."); [done|]. assert (startswith "/" d = false) as -> by (apply not_true_is_false; auto).
  assert (forallb plain_part (split_all "/" d) = true) as ->; [|done]. rewrite Hsplit.
  apply forallb_forall. intros w Hw. rewrite forallb_forall in Hp. specialize (Hp w Hw). by apply andb_true_iff in Hp as [? _].
Qed.

Example normalize_along :
  map (fun p => _normalize_working_directory (Some p)) ["a//b/./c/../d"; "a/../.."; "/etc"; "C:\tmp"; "x\y"; "./ a"]
  = [Ok "a/b/d"; Err (ProcessError "working directory escapes workspace root");
     Err (ProcessError "working directory must be workspace-relative");
     Err (ProcessError "working directory must be workspace-relative"); Ok "x/y"; Ok " a"].
Proof. vm_compute. reflexivity. Qed.
(** A NUL passes the normalization, and the result is refused where it is
    inherited. *)
Example nul_along :
  let d := String "a" (String Ascii.zero "b") in
  (_normalize_working_directory (Some d), _select_child_working_directory None d None)
  = (Ok d, Err (ProcessError "validated working directory must be a canonical string")).
Proof. vm_compute. reflexivity. Qed.
End Paths.
