(* ===== verification/ProcessLifecycle.v ===== *)
(** * The life of a process

    [runtime/process_manager.py]: waiting for a child, signals, exit, and the
    cleanup of a terminal process.  State changes go through the transition
    service; the resource reservations of a process that ends are released with
    it.  Object memory, capabilities and the notifiers are ports. *)

From S2P Require Import Prelude PyStr PyVal ProcessState ProcessModel ProcessStore ProcessWrites TerminalCleanup ProcessTransition AuthorityRules ResourceTables ResourceManager WorkingDirectory.
From stdpp Require Import sorting.

(** ** State and ports *)

(** The tables, and the memory and services the ports write. *)
Record LStore (World : Type) : Type := mkLStore { tables : RStore; world : World }.
Arguments mkLStore {World}.
Arguments tables {World}.
Arguments world {World}.

Class LifecycleHost (World : Type) : Type := {
  life_exec :: ExecEvidence;
  life_json_dumps : list (string * json) → string;
  life_str : pyval → string;
  life_now : LStore World → string;
  life_new_id : string → LStore World → string;
  (** [resources is not None]. *)
  has_resources : bool;
  owner_instance_id : string;
  life_default_directory : string;
  cleanup_page_size : nat;
  cleanup_page_hard_limit : nat;
  (** The audit and event sinks may raise. *)
  life_sink : Evidence → LStore World → res unit;
  exception_observation : exn → list (pyval * pyval);
  (** The subphases of the notifier that failed, kept on the exception. *)
  component_failures : exn → list (pyval * pyval);
  (** Object memory and capabilities. *)
  create_flow_text_carrier : string → string → M (LStore World) string;
  create_result_object : string → Payload → M (LStore World) string;
  release_rejected_exit_result : string → string → M (LStore World) unit;
  assert_object_data_flow : string → string → M (LStore World) unit;
  preserve_process_owned : string → list string → M (LStore World) unit;
  handle_for_object : string → string → string → M (LStore World) string;
  add_handle_to_process_view : string → string → M (LStore World) unit;
  release_process_owned : string → list string → M (LStore World) unit;
  redact_root_spawn_initial_goal : AgentProcess → M (LStore World) unit;
  (** The notifier and the runner check, when they are bound; the check
      answers [false] when it raises. *)
  object_task_terminal_notifier : option (string → M (LStore World) unit);
  host_managed_runner : option (string → LStore World → bool);
  recovery_lease : res unit;
}.

Section Lifecycle.
Context {World : Type} `{!LifecycleHost World}.
Abbreviation LStore := (LStore World).

Definition set_tables (r : RStore) (s : LStore) : LStore := mkLStore r (world s).
Definition set_procs (b : Store) (s : LStore) : LStore := set_tables (set_base b (tables s)) s.
Definition procs_of (s : LStore) : Store := base (tables s).

(** A read, an operation of the resource tables, and one of the process store. *)
Definition seeing {A} (f : LStore → res A) : M LStore A := fun s => (s, f s).
Definition in_tables {A} (m : M RStore A) : M LStore A := fun s =>
  let '(r, a) := m (tables s) in (set_tables r s, a).
Definition in_store {A} (m : M Store A) : M LStore A := in_tables (on_base m).

(** [store.transaction(include_object_payloads=True)]. *)
Definition life_unit {A} (m : M LStore A) : M LStore A := fun s =>
  match m s with
  | (s', Ok a) => (s', Ok a)
  | (s', Err e) => (set_procs (set_takeover (takeover (procs_of s')) (procs_of s)) s, Err e)
  end.

(** [try: .. except BaseException]: what the body answered. *)
Definition caught {A} (m : M LStore A) : M LStore (res A) := fun s => let '(s', r) := m s in (s', Ok r).

Definition note (e : Evidence) : M LStore unit :=
  _ ← seeing (life_sink e);
  in_tables (record e).

Definition get_proc (p : string) : M LStore (option AgentProcess) := in_store (get_process p).

(** [_get]. *)
Definition get_or_raise (p : string) : M LStore AgentProcess :=
  found ← get_proc p;
  lift_res (of_option (NotFound "process not found") found).

Definition _require_active_parent (p action : string) : M LStore AgentProcess :=
  process ← get_or_raise p;
  _ ← lift_res (raise_if (is_terminal (status process)) (ProcessError ("cannot " +:+ action +:+ " terminated process")));
  mret process.

Definition _require_child (parent child : string) : M LStore AgentProcess :=
  _ ← get_or_raise parent;
  child_proc ← get_or_raise child;
  _ ← lift_res (raise_if (negb (bool_decide (parent_pid child_proc = Some parent)))
        (ProcessError (child +:+ " is not a child of " +:+ parent)));
  mret child_proc.

(** The transition service on this store. *)
Definition move (amb : Ambient) (p : string) (args : TransitionArgs) : M LStore AgentProcess :=
  now ← seeing (fun s => Ok (life_now s));
  in_store (@transition Store (store_repository life_json_dumps amb now) p args).

Definition wake_up (amb : Ambient) (token : ProcessStateToken) (control : bool) (reason : string) : M LStore AgentProcess :=
  now ← seeing (fun s => Ok (life_now s));
  in_store (@wake Store (store_repository life_json_dumps amb now) token control reason).

Definition wake_default : string := "process wait condition satisfied".

(** ** Waiting for a child *)

Record ProcessResult : Type := {
  pr_pid : string;
  pr_status : ProcessStatus;
  pr_result : option string;
  pr_message : option string;
  pr_wait_state : option ProcessWaitState;
  pr_outcome : option ProcessOutcome;
  pr_state_generation : Z;
}.

Definition child_wait_args (parent : AgentProcess) (w : ProcessWaitState) : TransitionArgs :=
  {| ta_status := WAITING_EVENT; ta_expected_revision := revision parent; ta_expected_status := None;
     ta_expected_state_generation := Some (state_generation parent); ta_wait_state := Some w; ta_outcome := None;
     ta_status_message := None; ta_control := false; ta_allowed_statuses := None; ta_reason := None |}.

(** Park the parent unless the child has ended. *)
Definition wait_for_child (amb : Ambient) (p child : string) (timeout : option pyval) : M LStore unit :=
  parent ← _require_active_parent p "wait for child from";
  child_proc ← _require_child (pid parent) child;
  if is_terminal (status child_proc) then mret tt else
  _ ← lift_res (raise_if (match timeout with Some t => py_eq t (PInt 0) | None => false end)
        (TimeoutError "child still running"));
  w ← lift_res (mk_ChildProcessWait (PStr child));
  parent ← move amb p (child_wait_args parent w);
  token ← lift_res (wait_token parent);
  child_proc ← _require_child (pid parent) child;
  if negb (is_terminal (status child_proc)) then raise (ProcessWaitRequired child) else
  _ ← wake_up amb token false wake_default;
  mret tt.

(** The result Object of an outcome that carries one. *)
Definition outcome_result (o : option ProcessOutcome) : option string :=
  match o with
  | Some (ExitedProcessOutcome (Some oid)) | Some (FailedProcessOutcome (Some oid) _) =>
      if String.eqb oid "" then None else Some oid
  | _ => None
  end.

Definition wait (amb : Ambient) (p child : string) (timeout : option pyval) : M LStore ProcessResult :=
  _ ← wait_for_child amb p child timeout;
  life_unit (
    _ ← _require_active_parent p "receive child result in";
    child_proc ← _require_child p child;
    handle ← match outcome_result (outcome child_proc) with
             | None => mret None
             | Some oid =>
                 _ ← assert_object_data_flow p oid;
                 _ ← preserve_process_owned child [oid];
                 h ← handle_for_object p oid ("process.wait:" +:+ child);
                 _ ← add_handle_to_process_view p h;
                 mret (Some h)
             end;
    parent ← get_or_raise p;
    _ ← (if bool_decide (status parent = WAITING_EVENT)
            && match wait_state parent with Some (ChildProcessWait c) => String.eqb c child | _ => false end then
           token ← lift_res (wait_token parent);
           _ ← wake_up amb token false wake_default;
           mret tt
         else mret tt);
    _ ← note (Audit p "process.wait" ("process:" +:+ child));
    mret {| pr_pid := child; pr_status := status child_proc; pr_result := handle;
            pr_message := status_message child_proc; pr_wait_state := wait_state child_proc;
            pr_outcome := outcome child_proc; pr_state_generation := state_generation child_proc |}).

Definition list_children (p : string) (include_terminal : bool) : M LStore (list AgentProcess) :=
  _ ← get_or_raise p;
  children ← seeing (fun s => list_child_processes p (tables s));
  let children := if include_terminal then children
                  else List.filter (fun c => negb (is_terminal (status c))) children in
  _ ← note (Audit p "process.list_children" ("process:" +:+ p));
  mret children.

(** ** Working directory *)

Definition _persist_working_directory (amb : Ambient) (p path : string) : M LStore AgentProcess :=
  process ← get_or_raise p;
  _ ← lift_res (raise_if (is_terminal (status process))
        (ProcessError "cannot change working directory for terminated process"));
  now ← seeing (fun s => Ok (life_now s));
  process ← in_store (patch_process amb now p [SetWorkingDirectory path; SetUpdatedAt now] (revision process) None);
  _ ← note (Audit p "process.chdir" ("process:" +:+ p));
  mret process.

Definition set_working_directory (amb : Ambient) (p path : string) : M LStore AgentProcess :=
  d ← lift_res (_normalize_working_directory life_default_directory (Some path));
  _persist_working_directory amb p d.

Definition set_validated_working_directory (amb : Ambient) (p path : string) : M LStore AgentProcess :=
  d ← lift_res (_validated_working_directory_identity path);
  _persist_working_directory amb p d.

(** ** The cleanup of a terminal process *)

Definition terminal_cleanup_state (p : string) : M LStore CleanupRow :=
  process ← get_or_raise p;
  _ ← lift_res (raise_if (negb (is_terminal (status process)))
        (ProcessError "process is not terminal and has no cleanup outcome"));
  found ← seeing (fun s => get_process_terminal_cleanup p (procs_of s));
  lift_res (of_option (ProcessError "terminal cleanup intent is missing") found).

Definition _terminal_preserve_oids (process : AgentProcess) : list string :=
  match outcome process with
  | Some (ExitedProcessOutcome (Some oid)) | Some (FailedProcessOutcome (Some oid) _)
  | Some (KilledProcessOutcome (Some oid) _) => if String.eqb oid "" then [] else [oid]
  | _ => []
  end.

(** The terminal processes below one, from a stack, in visiting order. *)
Fixpoint terminal_descendants (fuel : nat) (stack : list AgentProcess) (s : RStore) : res (list AgentProcess) :=
  match stack, fuel with
  | [], _ => Ok []
  | _, O => Err (RuntimeError "process parent cycle")
  | child :: stack', S n =>
      if negb (is_terminal (status child)) then terminal_descendants n stack' s else
      children ← list_child_processes (pid child) s;
      rest ← terminal_descendants n
        (rev (List.filter (fun c => is_terminal (status c)) children) ++ stack') s;
      Ok (child :: rest)
  end.

Fixpoint release_each (preserve : list string) (children : list AgentProcess) : M LStore unit :=
  match children with
  | [] => mret tt
  | child :: rest => _ ← release_process_owned (pid child) preserve; release_each preserve rest
  end.

Definition table_fuel (s : RStore) : nat := S (size (processes (base s))).

Definition _release_terminal_child_memory (p : string) (preserve : list string) : M LStore unit :=
  found ← seeing (fun s =>
    children ← list_child_processes p (tables s);
    terminal_descendants (table_fuel (tables s))
      (rev (List.filter (fun c => is_terminal (status c)) children)) (tables s));
  release_each preserve (rev found).

Definition _finalize_terminal_process (process : AgentProcess) (preserve : list string) : M LStore unit :=
  _ ← _release_terminal_child_memory (pid process) preserve;
  match parent_pid process with
  | Some _ => mret tt
  | None =>
      _ ← release_process_owned (pid process) preserve;
      redact_root_spawn_initial_goal process
  end.

Definition _notify_object_task_process_terminal (p : string) : M LStore unit :=
  match object_task_terminal_notifier with Some notify => notify p | None => mret tt end.

(** One phase under the lease. *)
Definition run_phase (p lease phase : string) : M LStore CleanupRow :=
  process ← get_or_raise p;
  _ ← (if String.eqb phase "terminal_notify" then _notify_object_task_process_terminal p
       else _finalize_terminal_process process (_terminal_preserve_oids process));
  now ← seeing (fun s => Ok (life_now s));
  marked ← in_store (complete_process_terminal_cleanup_phase now p lease phase);
  lift_res (of_option (ProcessError "process terminal cleanup lost its phase lease") marked).

(** The phases are independent: a failure does not keep the later ones from
    running. *)
Fixpoint run_phases (p lease : string) (completed : list string) (phases : list string) : M LStore (list (string * exn)) :=
  match phases with
  | [] => mret []
  | phase :: rest =>
      if in_phases completed phase then run_phases p lease completed rest else
      answer ← caught (run_phase p lease phase);
      failures ← run_phases p lease completed rest;
      mret (match answer with Ok _ => failures | Err e => (phase, e) :: failures end)
  end.

Definition phase_error (f : string * exn) : pyval :=
  PDict ((PStr "phase", PStr (fst f)) :: exception_observation (snd f)
    ++ (if String.eqb (fst f) "terminal_notify" then component_failures (snd f) else [])).

Definition durable_error (first : exn) (failures : list (string * exn)) : list (pyval * pyval) :=
  exception_observation first ++ [(PStr "errors", PList (map phase_error failures))].

(** Records the failed attempt, whatever the diagnostics do, and raises. *)
Definition _raise_terminal_cleanup_failures {A} (p lease : string) (failed_phase : string) (first : exn)
    (failures : list (string * exn)) (actor : string) (legacy_audit_action : option string) : M LStore A :=
  now ← seeing (fun s => Ok (life_now s));
  _ ← caught (in_store (fail_process_terminal_cleanup now p lease failed_phase (durable_error first failures)));
  _ ← caught (note (Audit actor "process.terminal_cleanup_failed" ("process:" +:+ p)));
  _ ← match legacy_audit_action with
      | None => mret (Ok tt)
      | Some action => caught (note (Audit actor action ("process:" +:+ p)))
      end;
  raise (ProcessTerminalCleanupRequired p failed_phase).

(** The lease the claim may replace. *)
Definition expected_cleanup_lease (cleanup : CleanupRow) (recover_stale : bool) : res (option string) :=
  if negb (String.eqb (cl_state cleanup) "running") then Ok None else
  _ ← raise_if (negb recover_stale && negb (bool_decide (cl_owner_id cleanup = Some owner_instance_id)))
        (ProcessError "process terminal cleanup is already running");
  Ok (cl_lease_id cleanup).

Definition retry_terminal_cleanup (p actor : string) (legacy_audit_action : option string) (recover_stale : bool)
    : M LStore CleanupRow :=
  process ← get_or_raise p;
  _ ← lift_res (raise_if (negb (is_terminal (status process))) (ProcessError "cannot clean up non-terminal process"));
  cleanup ← terminal_cleanup_state p;
  if String.eqb (cl_state cleanup) "completed" then mret cleanup else
  expected ← lift_res (expected_cleanup_lease cleanup recover_stale);
  lease ← seeing (fun s => Ok (life_new_id "process_cleanup_lease" s));
  now ← seeing (fun s => Ok (life_now s));
  claimed ← in_store (claim_process_terminal_cleanup now p owner_instance_id lease expected);
  match claimed with
  | None =>
      latest ← terminal_cleanup_state p;
      if String.eqb (cl_state latest) "completed" then mret latest
      else raise (ProcessError "process terminal cleanup lease was not acquired")
  | Some claimed =>
      failures ← run_phases p lease (cl_completed_phases claimed) CLEANUP_PHASES;
      match failures with
      | (phase, first) :: _ => _raise_terminal_cleanup_failures p lease phase first failures actor legacy_audit_action
      | [] =>
          now ← seeing (fun s => Ok (life_now s));
          finished ← in_store (finish_process_terminal_cleanup now p lease);
          finished ← lift_res (of_option (ProcessError "process terminal cleanup could not commit completion") finished);
          _ ← caught (note (Audit actor "process.terminal_cleanup_completed" ("process:" +:+ p)));
          mret finished
      end
  end.

(** *** Startup recovery *)

Definition cleanup_key (kv : string * CleanupRow) : string * string := (cl_created_at (snd kv), fst kv).

Definition cleanup_le : relation (string * CleanupRow) := dated_le cleanup_key.

#[export] Instance cleanup_le_dec : RelDecision cleanup_le.
Proof. intros a b. unfold cleanup_le, dated_le. apply _. Defined.

Definition incomplete_after (after : option (string * string)) (kv : string * CleanupRow) : bool :=
  negb (String.eqb (cl_state (snd kv)) "completed")
  && match after with None => true | Some cursor => dated_ltb cursor (cleanup_key kv) end.

(** With the pid column of each row. *)
Definition list_process_terminal_cleanups (after : option (string * string)) (limit : nat) (s : LStore)
    : res (list (string * CleanupRow)) :=
  _ ← raise_if (limit =? 0) (ValidationError "process terminal cleanup recovery limit must be a positive integer");
  _ ← raise_if (cleanup_page_hard_limit <? limit)
        (ValidationError "process terminal cleanup recovery limit exceeds configured hard cap");
  mapR (fun kv => row ← _process_terminal_cleanup_from_row (snd kv); Ok (fst kv, row))
    (take limit (merge_sort cleanup_le (List.filter (incomplete_after after) (map_to_list (cleanups (procs_of s)))))).

Record CleanupRecovery : Type := {
  cr_pending : Z;
  cr_recovered_count : Z;
  cr_failure_count : Z;
  cr_recovered : list string;
  cr_failures : list (string * exn);
}.

(** One row: it is completed, or its failure is sampled. *)
Definition recover_one (sample : nat) (acc : CleanupRecovery) (kv : string * CleanupRow) : M LStore CleanupRecovery :=
  answer ← caught (retry_terminal_cleanup (fst kv) "runtime.recovery" None true);
  mret (match answer with
  | Ok row =>
      if String.eqb (cl_state row) "completed" then
        {| cr_pending := (cr_pending acc + 1)%Z; cr_recovered_count := (cr_recovered_count acc + 1)%Z;
           cr_failure_count := cr_failure_count acc;
           cr_recovered := if length (cr_recovered acc) <? sample then cr_recovered acc ++ [fst kv] else cr_recovered acc;
           cr_failures := cr_failures acc |}
      else {| cr_pending := (cr_pending acc + 1)%Z; cr_recovered_count := cr_recovered_count acc;
              cr_failure_count := cr_failure_count acc; cr_recovered := cr_recovered acc; cr_failures := cr_failures acc |}
  | Err e =>
      {| cr_pending := (cr_pending acc + 1)%Z; cr_recovered_count := cr_recovered_count acc;
         cr_failure_count := (cr_failure_count acc + 1)%Z; cr_recovered := cr_recovered acc;
         cr_failures := if length (cr_failures acc) <? sample then cr_failures acc ++ [(fst kv, e)] else cr_failures acc |}
  end).

Fixpoint recover_page (sample : nat) (acc : CleanupRecovery) (page : list (string * CleanupRow)) : M LStore CleanupRecovery :=
  match page with
  | [] => mret acc
  | kv :: rest => acc ← recover_one sample acc kv; recover_page sample acc rest
  end.

(** The keyset loop; one unit of fuel per page. *)
Fixpoint recover_cleanup_pages (fuel : nat) (after : option (string * string)) (acc : CleanupRecovery)
    : M LStore CleanupRecovery :=
  match fuel with
  | O => raise (RuntimeError "out of fuel")
  | S n =>
      page ← seeing (list_process_terminal_cleanups after cleanup_page_size);
      match list.last page with
      | None => mret acc
      | Some kv =>
          acc ← recover_page cleanup_page_size acc page;
          let next_cursor := cleanup_key kv in
          _ ← lift_res (raise_if (match after with Some c => negb (dated_ltb c next_cursor) | None => false end)
                (ProcessError "process terminal cleanup recovery page did not advance"));
          if length page <? cleanup_page_size then mret acc
          else recover_cleanup_pages n (Some next_cursor) acc
      end
  end.

Definition no_recovery : CleanupRecovery :=
  {| cr_pending := 0; cr_recovered_count := 0; cr_failure_count := 0; cr_recovered := []; cr_failures := [] |}.

Definition recover_terminal_cleanups (fuel : nat) : M LStore CleanupRecovery :=
  _ ← lift_res recovery_lease;
  recover_cleanup_pages fuel None no_recovery.

(** ** Signals *)

Definition _release_child_budget (p : string) : M LStore unit :=
  if has_resources then in_tables (release_process_reservations p) else mret tt.

Definition _wake_parent_waiting_on_child (amb : Ambient) (child : AgentProcess) : M LStore unit :=
  match parent_pid child with
  | None => mret tt
  | Some q =>
      found ← get_proc q;
      match found with
      | None => mret tt
      | Some parent =>
          if negb (bool_decide (status parent = WAITING_EVENT)) then mret tt else
          match wait_state parent with
          | Some (ChildProcessWait c) =>
              if negb (String.eqb c (pid child)) then mret tt else
              token ← lift_res (wait_token parent);
              _ ← wake_up amb token true "terminal child wakes its waiting parent";
              note (Audit "process" "process.wait_wake" ("process:" +:+ pid parent))
          | _ => mret tt
          end
      end
  end.

Definition ends_process (sig : ProcessSignal) : bool :=
  match sig with CANCEL | TERMINATE => true | _ => false end.

Definition signal_value (sig : ProcessSignal) : string :=
  match sig with
  | PAUSE => "pause" | RESUME => "resume" | CANCEL => "cancel" | INTERRUPT => "interrupt" | TERMINATE => "terminate"
  end.

Definition _require_signal_applicable (process : AgentProcess) (sig : ProcessSignal) : res unit :=
  _ ← raise_if (is_terminal (status process)) (ProcessError "cannot signal terminal process");
  _ ← raise_if (match sig with INTERRUPT => true | _ => false end)
        (ProcessError "process interrupt signals are not state transitions; send a durable interrupt process message instead");
  require_signal_preserves_condition_wait process sig.

(** A scope of the store around an operation of the whole state.  What else a
    raising body has written is rolled back by the transaction around it. *)
Definition scoped {A} (scope : M Store (LStore * A) → M Store (LStore * A)) (body : M LStore A) : M LStore A := fun s =>
  let inner : M Store (LStore * A) := fun b =>
    match body (set_procs b s) with
    | (s', Ok a) => (procs_of s', Ok (s', a))
    | (s', Err e) => (procs_of s', Err e)
    end in
  match scope inner (procs_of s) with
  | (b, Ok (s', a)) => (set_procs b s', Ok a)
  | (b, Err e) => (set_procs b s, Err e)
  end.

Definition _signal_takeover_scope {A} (process : AgentProcess) (sig : ProcessSignal) (reason_text reason_action : option string)
    (require_host_resume : bool) (nonce : string) (body : M LStore A) : M LStore A :=
  if negb (bool_decide (status process = RUNNING))
     || match sig with PAUSE | CANCEL | TERMINATE => false | _ => true end
  then body else
  match execution_owner_id process, execution_lease_id process with
  | None, None => body
  | Some owner, Some lease =>
      let pausing := match sig with PAUSE => true | _ => false end in
      scoped (trusted_process_execution_takeover (pid process) (revision process) (state_generation process)
        {| tok_pid := pid process; tok_generation := execution_generation process;
           tok_owner_id := owner; tok_lease_id := lease; tok_task_run_epoch := None |}
        (if pausing then PAUSED else KILLED) "trusted process signal takes over an execution lease" nonce
        reason_text reason_action
        (if pausing then Some (if require_host_resume then "host_resume" else "paused") else None)
        (if pausing then None else Some (signal_value sig))) body
  | _, _ => raise (ProcessError "running process has an incomplete execution lease")
  end.

(** [str(payload.get("reason_oid") or "").strip()]. *)
Definition payload_reason_oid (payload : Payload) : string :=
  match item_get payload "reason_oid" with
  | None => ""
  | Some (PStr t) => strip t
  | Some v => if py_falsy v then "" else strip (life_str v)
  end.

Definition opt_text (t : string) : pyval := if String.eqb t "" then PNone else PStr t.

(** Status, wait and outcome a signal asks for. *)
Definition signal_target (process : AgentProcess) (sig : ProcessSignal) (reason_oid : string) (require_host_resume : bool)
    : res (ProcessStatus * option ProcessWaitState * option ProcessOutcome) :=
  let gated := match wait_state process with Some (HostResumeProcessWait _) => true | _ => false end in
  match sig with
  | PAUSE =>
      if require_host_resume then (w ← mk_HostResumeProcessWait (PStr reason_oid); Ok (PAUSED, Some w, None))
      else if gated then Ok (PAUSED, wait_state process, None)
      else (w ← mk_PausedProcessWait (opt_text reason_oid); Ok (PAUSED, Some w, None))
  | RESUME =>
      Ok (if bool_decide (status process ∈ [PAUSED; SUSPENDED]) then RUNNABLE else status process, None, None)
  | CANCEL | TERMINATE =>
      o ← mk_KilledProcessOutcome (opt_text reason_oid) (PStr (signal_value sig)); Ok (KILLED, None, Some o)
  | INTERRUPT => Err (ProcessError "unsupported process signal")
  end.

Definition signal_args (process : AgentProcess) (st : ProcessStatus) (w : option ProcessWaitState)
    (o : option ProcessOutcome) : TransitionArgs :=
  {| ta_status := st; ta_expected_revision := revision process; ta_expected_status := Some (status process);
     ta_expected_state_generation := Some (state_generation process); ta_wait_state := w; ta_outcome := o;
     ta_status_message := None; ta_control := true; ta_allowed_statuses := Some [status process];
     ta_reason := Some "trusted process signal state transition" |}.

Definition _apply_signal (amb : Ambient) (p : string) (sig : ProcessSignal) (payload : Payload)
    (allow_host_resume require_host_resume : bool) : M LStore AgentProcess :=
  life_unit (
    process ← get_or_raise p;
    _ ← lift_res (_require_signal_applicable process sig);
    _ ← lift_res (raise_if (match sig, wait_state process with
                            | RESUME, Some (HostResumeProcessWait _) => negb allow_host_resume
                            | _, _ => false
                            end) (ProcessError "process requires explicit Host resume"));
    target ← lift_res (signal_target process sig (payload_reason_oid payload) require_host_resume);
    let '(st, w, o) := target in
    move amb (pid process) (signal_args process st w o)).

Definition _record_signal_transition (amb : Ambient) (process : AgentProcess) (actor action : string) : M LStore unit :=
  _ ← (if is_terminal (status process) then _release_child_budget (pid process) else mret tt);
  _ ← note (Event "process_signal" actor (pid process));
  _ ← note (Audit actor action ("process:" +:+ pid process));
  if is_terminal (status process) then _wake_parent_waiting_on_child amb process else mret tt.

(** The transaction of a signal: the reason carrier, the transition in its
    scopes, the evidence and the wake of a waiting parent. *)
Definition signal_unit (amb : Ambient) (process : AgentProcess) (sig : ProcessSignal) (payload : Payload)
    (reason : option string) (carrier : M LStore string) (actor action control_reason : string)
    (allow_host_resume require_host_resume : bool) : M LStore AgentProcess :=
  nonce ← seeing (fun s => Ok (life_new_id "process_takeover" s));
  life_unit (
    updated ← _signal_takeover_scope process sig reason
      (match reason with Some _ => Some (action +:+ ".reason") | None => None end) require_host_resume nonce
      (amb' ← lift_res (trusted_process_control_mutation amb (pid process) [status process] control_reason);
       payload ← match reason with
                 | None => mret payload
                 | Some _ => (oid ← carrier; mret (item_set payload "reason_oid" (PStr oid)))
                 end;
       _apply_signal amb' (pid process) sig payload allow_host_resume require_host_resume);
    _ ← _record_signal_transition amb updated actor action;
    mret updated).

(** Finish the cleanup of a process the signal has ended. *)
Definition complete_signal (updated : AgentProcess) (actor : string) : M LStore unit :=
  if is_terminal (status updated) then
    (_ ← retry_terminal_cleanup (pid updated) actor (Some "process.signal_finalize_failed") false; mret tt)
  else mret tt.

(** Whether the signal only retries the cleanup of a process that has ended. *)
Definition retries_cleanup (process : AgentProcess) (sig : ProcessSignal) : M LStore bool :=
  if is_terminal (status process) && ends_process sig then
    (cleanup ← terminal_cleanup_state (pid process); mret (negb (String.eqb (cl_state cleanup) "completed")))
  else mret false.

Definition signal_child (amb : Ambient) (p child : string) (sig : ProcessSignal) (reason : option string)
    : M LStore AgentProcess :=
  process ← _require_child p child;
  retry ← retries_cleanup process sig;
  if (retry : bool) then
    _ ← retry_terminal_cleanup child p (Some "process.signal_finalize_failed") false;
    get_or_raise child
  else
  _ ← lift_res (_require_signal_applicable process sig);
  updated ← signal_unit amb process sig [] reason
    (create_flow_text_carrier child (match reason with Some t => t | None => "" end))
    p "process.signal_child" "process.signal_child changes an authorized child" false false;
  _ ← complete_signal updated p;
  mret updated.

(** [payload.pop("reason", None)], as a text. *)
Definition pop_reason (payload : Payload) : option string :=
  match item_get payload "reason" with
  | None | Some PNone => None
  | Some (PStr t) => Some t
  | Some v => Some (life_str v)
  end.

Definition signal (amb : Ambient) (target : string) (sig : ProcessSignal) (payload : Payload)
    (require_host_resume : bool) : M LStore unit :=
  process ← get_or_raise target;
  retry ← retries_cleanup process sig;
  if (retry : bool) then
    (_ ← retry_terminal_cleanup target "runtime" (Some "process.signal_finalize_failed") false; mret tt)
  else
  _ ← lift_res (_require_signal_applicable process sig);
  let reason := pop_reason payload in
  updated ← signal_unit amb process sig (item_pop payload "reason") reason
    (create_flow_text_carrier target (match reason with Some t => t | None => "" end))
    "runtime" "process.signal" "process.signal applies trusted Host control" true require_host_resume;
  complete_signal updated "runtime".

Definition pause (amb : Ambient) (p reason : string) : M LStore unit := signal amb p PAUSE [("reason", PStr reason)] false.
Definition pause_for_host_resume (amb : Ambient) (p reason : string) : M LStore unit :=
  signal amb p PAUSE [("reason", PStr reason)] true.
Definition resume (amb : Ambient) (p : string) : M LStore unit := signal amb p RESUME [] false.
Definition cancel (amb : Ambient) (p reason : string) : M LStore unit := signal amb p CANCEL [("reason", PStr reason)] false.

(** ** Exit *)

Definition is_host_managed_runner (p : string) (s : LStore) : bool :=
  match host_managed_runner with Some check => check p s | None => false end.

(** The live processes below one, sorted. *)
Definition _live_descendant_pids (p : string) (s : LStore) : res (list string) :=
  children ← list_child_processes p (tables s);
  below ← descendants (table_fuel (tables s)) (rev children) (tables s);
  Ok (merge_sort str_le (map pid (List.filter
        (fun c => negb (is_terminal (status c)) && negb (is_host_managed_runner (pid c) s)) below))).

(** The processes below one with their depth, from a stack. *)
Fixpoint deep_descendants (fuel : nat) (stack : list (AgentProcess * nat)) (s : RStore) : res (list (AgentProcess * nat)) :=
  match stack, fuel with
  | [], _ => Ok []
  | _, O => Err (RuntimeError "process parent cycle")
  | (child, depth) :: stack', S n =>
      children ← list_child_processes (pid child) s;
      rest ← deep_descendants n (rev (map (fun c => (c, S depth)) children) ++ stack') s;
      Ok ((child, depth) :: rest)
  end.

(** [key=lambda item: (-item[1], item[0].pid)]. *)
Definition deepest_first (a b : AgentProcess * nat) : Prop :=
  snd b < snd a ∨ snd a = snd b ∧ str_le (pid (fst a)) (pid (fst b)).

#[export] Instance deepest_first_dec : RelDecision deepest_first.
Proof. intros a b. unfold deepest_first. apply _. Defined.

(** A descendant whose cleanup is left to do counts as terminated. *)
Definition terminate_descendant (amb : Ambient) (ancestor p : string) : M LStore unit :=
  found ← get_proc p;
  match found with
  | None => mret tt
  | Some current =>
      managed ← seeing (fun s => Ok (is_host_managed_runner p s));
      if is_terminal (status current) || managed then mret tt else
      answer ← caught (signal amb p TERMINATE [("reason", PStr ("ancestor process failed: " +:+ ancestor))] false);
      match answer with
      | Ok _ => mret tt
      | Err (ProcessTerminalCleanupRequired q phase) =>
          latest ← get_proc p;
          if match latest with Some row => is_terminal (status row) | None => false end then mret tt
          else raise (ProcessTerminalCleanupRequired q phase)
      | Err e => raise e
      end
  end.

Fixpoint terminate_each (amb : Ambient) (ancestor : string) (below : list (AgentProcess * nat)) : M LStore unit :=
  match below with
  | [] => mret tt
  | (child, _) :: rest => _ ← terminate_descendant amb ancestor (pid child); terminate_each amb ancestor rest
  end.

Definition _terminate_descendants_for_failed_exit (amb : Ambient) (p : string) : M LStore unit :=
  below ← seeing (fun s =>
    children ← list_child_processes p (tables s);
    deep_descendants (table_fuel (tables s)) (rev (map (fun c => (c, 1)) children)) (tables s));
  terminate_each amb p (merge_sort deepest_first below).

Definition live_descendants_error : exn :=
  ProcessError "cannot exit process while descendants are nonterminal; wait for or terminate them first".

Definition exit_args (process : AgentProcess) (failed : bool) (o : ProcessOutcome) : TransitionArgs :=
  {| ta_status := if failed then FAILED else EXITED; ta_expected_revision := revision process;
     ta_expected_status := Some (status process); ta_expected_state_generation := Some (state_generation process);
     ta_wait_state := None; ta_outcome := Some o; ta_status_message := None; ta_control := false;
     ta_allowed_statuses := None; ta_reason := None |}.

Definition exit_outcome (failed : bool) (result : option string) : res ProcessOutcome :=
  if failed then mk_FailedProcessOutcome (py_opt result) PNone else mk_ExitedProcessOutcome (py_opt result).

(** The result handle: given, or made of a payload or of a message. *)
Definition exit_result (p : string) (result : option string) (payload : option Payload) (message : option string)
    : M LStore (option string) :=
  match result, payload, message with
  | Some oid, _, _ => mret (Some oid)
  | None, Some d, _ => (oid ← create_result_object p d; mret (Some oid))
  | None, None, Some text => (oid ← create_flow_text_carrier p text; mret (Some oid))
  | None, None, None => mret None
  end.

Definition reject_result (p : string) (result : option string) : M LStore unit :=
  match result with Some oid => release_rejected_exit_result p oid | None => mret tt end.

(** The transaction of an exit. *)
Definition exit_unit (amb : Ambient) (p : string) (result : option string) (failed : bool) (message : option string)
    (payload : option Payload) : M LStore (AgentProcess * option string) :=
  life_unit (
    process ← get_or_raise p;
    if is_terminal (status process) then
      _ ← reject_result p result;
      raise (ProcessError "cannot exit terminal process")
    else
    live ← seeing (_live_descendant_pids p);
    _ ← lift_res (raise_if (negb (bool_decide (live = []))) live_descendants_error);
    result ← exit_result p result payload message;
    process ← get_or_raise p;
    o ← lift_res (exit_outcome failed result);
    process ← move amb p (exit_args process failed o);
    _ ← _release_child_budget p;
    _ ← note (Event "process_exited" p (match parent_pid process with Some q => q | None => "" end));
    _ ← note (Audit p "process.exit" ("process:" +:+ p));
    _ ← _wake_parent_waiting_on_child amb process;
    mret (process, result)).

Definition exit (amb : Ambient) (p : string) (result : option string) (failed : bool) (message : option string)
    (payload : option Payload) : M LStore (option string) :=
  process ← get_or_raise p;
  if is_terminal (status process) then
    _ ← reject_result p result;
    cleanup ← terminal_cleanup_state p;
    if negb (String.eqb (cl_state cleanup) "completed") then
      _ ← retry_terminal_cleanup p p (Some "process.exit_finalize_failed") false;
      mret None
    else raise (ProcessError "cannot exit terminal process")
  else
  live ← seeing (_live_descendant_pids p);
  live ← (if negb (bool_decide (live = [])) && failed then
            _ ← _terminate_descendants_for_failed_exit amb p;
            seeing (_live_descendant_pids p)
          else mret live);
  _ ← lift_res (raise_if (negb (bool_decide (live = []))) live_descendants_error);
  done_ ← exit_unit amb p result failed message payload;
  _ ← retry_terminal_cleanup (pid (fst done_)) p (Some "process.exit_finalize_failed") false;
  mret (snd done_).
End Lifecycle.
