(* ===== verification/LifecycleSteps.v ===== *)
(** * Steps of process lives

    What a transition, a wake and a scope do to the process table of the whole
    state, and the relation between states that ports and evidence keep; then the walks
    the manager makes over the tree of processes. *)

From S2P Require Import Prelude PyStr PyVal ProcessState ProcessModel ProcessStore ProcessWrites TerminalCleanup ProcessInvariant ProcessProperties ProcessTransition AuthorityRules ResourceTables ResourceManager StoreSteps ProcessLifecycle.
From stdpp Require Import sorting.

(** ** Transitions of the process store *)

Section Store.
Context `{ExecEvidence}.
Variable json_dumps : list (string * json) → string.
Variables (amb : Ambient) (now : string).
#[local] Instance repository : TransitionRepository Store := store_repository json_dumps amb now.

(** A committed transition moved one row and kept its parent. *)
Record moved (p : string) (args : TransitionArgs) (b b' : Store) (r : AgentProcess) (old new : AgentProcess) : Prop := {
  mv_old : processes b !! p = Some old;
  mv_new : processes b' !! p = Some new;
  mv_rest : ∀ q, q ≠ p → processes b' !! q = processes b !! q;
  mv_inv : store_inv b';
  mv_status : status new = ta_status args;
  mv_wait : wait_state new = ta_wait_state args;
  mv_outcome : outcome new = ta_outcome args;
  mv_parent : parent_pid new = parent_pid old;
  mv_terminal : is_terminal (status old) = true → ta_status args = status old;
  mv_register : ∀ w, ta_wait_state args = Some w → is_condition_wait (Some w) = true → may_register old w;
  mv_result : pid r = p ∧ parent_pid r = parent_pid old ∧ status r = ta_status args;
}.

Lemma transition_moves p args b b' r :
  store_inv b → transition p args b = (b', Ok r) → ∃ old new, moved p args b b' r old new.
Proof.
  intros Hinv E.
  assert (Hinv' : store_inv b').
  { eapply le_inv; [eapply (transition_preserves_store json_dumps amb now); [exact Hinv|exact E]|exact Hinv]. }
  apply (transition_Ok (S := Store) (row := store_row) (ok := store_inv)) in E
    as (Hreg & args' & E & A1 & A2 & A3 & _); [|done]. cbn [repo_transition store_repository repository] in E.
  destruct (transition_keeps_parent _ _ _ _ _ _ _ _ _ _ _ _ _ _ _ _ _ Hinv E) as (old & new & Ho & Hn & Hp & Hr).
  apply transition_run in E; [|done].
  destruct E as (old' & new' & Ho' & Hn' & _ & _ & S1 & W & O & _ & _ & _ & _ & _ & T & _ & Q).
  rewrite Ho in Ho'. injection Ho' as <-. rewrite Hn in Hn'. injection Hn' as <-. exists old, new.
  rewrite A1 in *. rewrite A2 in W. rewrite A3 in O. split; try done. intros w Hw Hc. by apply (Hreg w Hw Hc).
Qed.

Lemma transition_clean p args : err_clean (transition p args).
Proof.
  unfold transition. do 4 (apply err_clean_bind; [apply (read_only_pure (fun _ => _))|intros _]).
  apply err_clean_bind.
  - destruct (is_condition_wait _); [|apply (read_only_pure (fun _ => Ok tt))].
    intros s s' r E. apply bind_run in E as [(e & E & _)|([cur|] & s1 & E1 & E)].
    + by apply read_only_get_process in E.
    + apply read_only_get_process in E1 as ->.
      repeat (apply bind_run in E as [(e & [= <- _] & _)|(? & s1 & [= <- _] & E)]; [done|]). by injection E.
    + apply read_only_get_process in E1 as ->. by injection E.
  - intros _. apply err_clean_bind; [apply (read_only_pure (fun _ => _))|intros _].
    cbn [repo_transition repository store_repository]. apply err_clean_transition.
Qed.

Lemma wake_clean token control reason : err_clean (wake token control reason).
Proof.
  unfold wake. apply err_clean_bind; [apply (read_only_pure (fun _ => _))|intros _].
  apply err_clean_bind; [apply read_only_get_process|intros [cur|]].
  - do 3 (apply err_clean_bind; [apply (read_only_pure (fun _ => _))|intros _]). apply transition_clean.
  - apply err_clean_read, (read_only_pure (fun _ => Err _)).
Qed.

(** A committed wake made a waiting process runnable. *)
Lemma wake_moves token control reason b b' r :
  store_inv b → wake token control reason b = (b', Ok r) →
  ∃ args old new, moved (st_pid token) args b b' r old new
    ∧ ta_status args = RUNNABLE ∧ ta_wait_state args = None ∧ is_condition_waiting (status old) = true.
Proof.
  intros Hinv E. unfold wake in E. apply M_bind_Ok in E as ([] & ? & Hg & E); injection Hg as <- _.
  apply M_bind_Ok in E as (found & s1 & Hget & E). cbn [repo_get repository store_repository] in Hget.
  apply get_process_Ok in Hget as [-> ->]. destruct (processes b !! st_pid token) as [cur|] eqn:Hrow; [|done].
  do 2 (apply M_bind_Ok in E as ([] & ? & Hg & E); injection Hg as <- _).
  apply M_bind_Ok in E as ([] & ? & Hg & E); injection Hg as <- Hg.
  apply transition_moves in E as (old & new & Hm); [|done]. eexists _, old, new. split; [exact Hm|].
  apply raise_if_Ok, orb_false_iff in Hg as [Hg _]. apply negb_false_iff in Hg.
  pose proof (mv_old _ _ _ _ _ _ _ Hm) as Ho. rewrite Hrow in Ho. injection Ho as <-. done.
Qed.
End Store.

(** ** Lives: what waits and signals look at *)

Record Life : Set := {
  lf_parent : option string;
  lf_status : ProcessStatus;
  lf_wait : option ProcessWaitState;
}.

Definition life_of (row : AgentProcess) : Life :=
  {| lf_parent := parent_pid row; lf_status := status row; lf_wait := wait_state row |}.

Definition lives {World} (s : LStore World) (p : string) : option Life := life_of <$> processes (procs_of s) !! p.

(** The process tables are kept well formed and no life changes. *)
Record undisturbed {World} (s s' : LStore World) : Prop := {
  ud_inv : store_inv (procs_of s) → store_inv (procs_of s');
  ud_lives : ∀ p, lives s' p = lives s p;
}.

#[export] Instance undisturbed_preorder World : PreOrder (@undisturbed World).
Proof.
  split; [by intros s; split|]. intros a b c [I1 L1] [I2 L2]. split; [by auto|]. intros p. by rewrite L2, L1.
Qed.

(** Parked by the Host. *)
Definition is_gated (l : Life) : bool :=
  bool_decide (lf_status l = PAUSED) && match lf_wait l with Some (HostResumeProcessWait _) => true | _ => false end.

(** A process keeps its parent, and its status once it has ended; unless the
    Host acts, a process the Host has parked stays parked until it ends. *)
Definition succeeds (host : bool) (l l' : Life) : Prop :=
  lf_parent l' = lf_parent l ∧ (is_terminal (lf_status l) = true → lf_status l' = lf_status l)
  ∧ (host = false → is_gated l = true → is_gated l' = true ∨ is_terminal (lf_status l') = true).

#[export] Instance succeeds_preorder host : PreOrder (succeeds host).
Proof.
  split; [intros l; unfold succeeds; auto|]. intros a b c (P1 & T1 & G1) (P2 & T2 & G2). split_and!; [by rewrite P2| |].
  - intros Ht. rewrite T2; [by apply T1|]. by rewrite T1.
  - intros Hh Hg. destruct (G1 Hh Hg) as [Hb|Hb]; [by apply G2|right]. by rewrite T2.
Qed.

(** No process appears or disappears, and each succeeds its former self. *)
Definition grown {World} (host : bool) (s s' : LStore World) : Prop :=
  ∀ p, option_Forall2 (succeeds host) (lives s p) (lives s' p).

#[export] Instance grown_preorder World host : PreOrder (@grown World host).
Proof.
  split; [intros s p; reflexivity|]. intros a b c H1 H2 p. etrans; [apply H1|apply H2].
Qed.

Section Invariant.
Context {World : Type} (host : bool).
Implicit Type s : LStore World.

Definition waits_for s (p c : string) : Prop :=
  ∃ l, lives s p = Some l ∧ lf_status l = WAITING_EVENT ∧ lf_wait l = Some (ChildProcessWait c).
Definition child_of s (p c : string) : Prop := ∃ l, lives s c = Some l ∧ lf_parent l = Some p.
Definition ended s (c : string) : Prop := ∃ l, lives s c = Some l ∧ is_terminal (lf_status l) = true.

(** A process that waits for a child waits for one of its own, which has not
    ended; at most the child [x] has just ended. *)
Record life_ok_but (x : option string) s : Prop := {
  lo_inv : store_inv (procs_of s);
  lo_child : ∀ p c, waits_for s p c → child_of s p c;
  lo_live : ∀ p c, waits_for s p c → Some c ≠ x → ¬ ended s c;
  (** Waits keep stripped ids; the ids the runtime generates hold no space. *)
  lo_pids : ∀ p, is_Some (lives s p) → strip p = p;
}.

Definition life_ok : LStore World → Prop := life_ok_but None.

Definition good_step s s' : Prop := life_ok s → life_ok s' ∧ grown host s s'.

#[export] Instance good_step_preorder : PreOrder good_step.
Proof.
  split; [by intros s Hs|]. intros a b c H1 H2 Ha. destruct (H1 Ha) as [Hb G1]. destruct (H2 Hb) as [Hc G2].
  split; [done|]. by transitivity b.
Qed.

Lemma undisturbed_grown s s' : undisturbed s s' → grown host s s'.
Proof. intros [_ L] p. by rewrite L. Qed.

Lemma undisturbed_ok x s s' : undisturbed s s' → life_ok_but x s → life_ok_but x s'.
Proof.
  intros [I L] [Hi Hc Hl Hs]. split; [by apply I| | |intros p; rewrite L; apply Hs].
  - intros p c (l & H1 & H2). rewrite L in H1. destruct (Hc p c) as (k & K1 & K2); [by exists l|].
    exists k. by rewrite L.
  - intros p c (l & H1 & H2) Hne (k & K1 & K2). rewrite L in H1, K1. apply (Hl p c); [by exists l|done|by exists k].
Qed.

Lemma undisturbed_good s s' : undisturbed s s' → good_step s s'.
Proof. intros U Hok. split; [by eapply undisturbed_ok|by apply undisturbed_grown]. Qed.

(** What a committed transition does to the lives. *)
Record life_moved (p : string) (args : TransitionArgs) s s' (r : AgentProcess) : Prop := {
  lm_old : ∃ l, lives s p = Some l ∧ lf_parent l = parent_pid r
             ∧ (is_terminal (lf_status l) = true → ta_status args = lf_status l);
  lm_new : lives s' p = Some {| lf_parent := parent_pid r; lf_status := ta_status args; lf_wait := ta_wait_state args |};
  lm_rest : ∀ q, q ≠ p → lives s' q = lives s q;
  lm_inv : store_inv (procs_of s');
  lm_register : ∀ w l, ta_wait_state args = Some w → is_condition_wait (Some w) = true → lives s p = Some l →
    is_gated l = false;
  lm_pid : pid r = p;
  lm_status : status r = ta_status args;
}.

(** What a transition does to a process that the Host has parked. *)
Definition minds_gate (p : string) (args : TransitionArgs) s : Prop :=
  host = false → ∀ l, lives s p = Some l → is_gated l = true →
    is_terminal (ta_status args) = true
    ∨ ta_status args = PAUSED ∧ ∃ oid, ta_wait_state args = Some (HostResumeProcessWait oid).

Lemma life_moved_grown p args s s' r : life_moved p args s s' r → minds_gate p args s → grown host s s'.
Proof.
  intros [(l & Hl & Hp & Ht) Hn Hr _ _ _ _] Hg q. destruct (decide (q = p)) as [->|Hne]; [|by rewrite Hr].
  rewrite Hl, Hn. constructor. split_and!; [done..|]. intros Hh Hgl.
  destruct (Hg Hh l Hl Hgl) as [He|(Hs & oid & Hw)]; [by right|left]. unfold is_gated. cbn. by rewrite Hs, Hw.
Qed.

(** Parking on a condition, and ending, mind it. *)
Lemma park_minds_gate p args s s' r w :
  life_moved p args s s' r → ta_wait_state args = Some w → is_condition_wait (Some w) = true → minds_gate p args s.
Proof. intros Hm Hw Hc _ l Hl Hg. rewrite (lm_register _ _ _ _ _ Hm w l) in Hg by done. done. Qed.

Lemma end_minds_gate p args s : is_terminal (ta_status args) = true → minds_gate p args s.
Proof. intros Ht _ l _ _. by left. Qed.

(** A transition that waits for no ended or foreign child. *)
Lemma life_moved_ok x x' p args s s' r :
  life_moved p args s s' r → minds_gate p args s → life_ok_but x s → x = None ∨ x = x' →
  (is_terminal (ta_status args) = true → x' = Some p) →
  (∀ c, ta_status args = WAITING_EVENT → ta_wait_state args = Some (ChildProcessWait c) → child_of s p c ∧ ¬ ended s c) →
  life_ok_but x' s'.
Proof.
  intros Hm Hgate Hok Hx Ht Hw. pose proof (life_moved_grown _ _ _ _ _ Hm Hgate) as Hg. destruct Hm as [_ Hn Hr Hi _ _ _].
  assert (Hchild : ∀ q c, child_of s q c → child_of s' q c).
  { intros q c (l & Hl & Hp). specialize (Hg c). rewrite Hl in Hg. inversion Hg as [? l' [Hp' _] E1 E2|].
    exists l'. split; [done|]. by rewrite Hp'. }
  assert (Hend : ∀ c, ended s' c → ended s c ∨ (c = p ∧ is_terminal (ta_status args) = true)).
  { intros c (l & Hl & Hc). destruct (decide (c = p)) as [->|Hne].
    - rewrite Hn in Hl. injection Hl as <-. by right.
    - rewrite Hr in Hl by done. left. by exists l. }
  assert (Hwait : ∀ q c, waits_for s' q c → waits_for s q c
      ∨ (q = p ∧ ta_status args = WAITING_EVENT ∧ ta_wait_state args = Some (ChildProcessWait c))).
  { intros q c (l & Hl & Hs & Hc). destruct (decide (q = p)) as [->|Hne].
    - rewrite Hn in Hl. injection Hl as <-. by right.
    - rewrite Hr in Hl by done. left. by exists l. }
  split; [done| | |].
  3:{ intros q Hq. apply (lo_pids _ _ Hok). specialize (Hg q). by destruct Hg; [eexists|destruct Hq]. }
  - intros q c [H|(-> & H1 & H2)]%Hwait; apply Hchild; [by apply (lo_child _ _ Hok)|by apply Hw].
  - intros q c Hq Hne [He|[-> He]]%Hend; [|by rewrite Ht in Hne].
    apply Hwait in Hq as [Hq|(-> & H1 & H2)]; [|by apply (Hw c)].
    apply (lo_live _ _ Hok q c); [done| |done]. destruct Hx as [->| ->]; done.
Qed.
End Invariant.

(** ** Operations over the whole state *)

Section Operations.
Context {World : Type} `{!LifecycleHost World} (host : bool).
Implicit Type s : LStore World.

Lemma procs_set_procs b s : procs_of (set_procs b s) = b.
Proof. done. Qed.

Lemma M_seeing {A B} (a : LStore World → A) (k : A → M (LStore World) B) s s' x :
  (seeing (fun s => Ok (a s)) ≫= k) s = (s', x) → ∃ v, v = a s ∧ k v s = (s', x).
Proof. intros E. by exists (a s). Qed.

Lemma in_store_run {A} (m : M Store A) s s' x :
  in_store m s = (s', x) → ∃ b, m (procs_of s) = (b, x) ∧ s' = set_procs b s.
Proof.
  unfold in_store, in_tables, on_base, set_procs, procs_of. destruct (m (base (tables s))) as [b y] eqn:E.
  intros [= <- <-]. by exists b.
Qed.

Lemma set_takeover_undisturbed t s : undisturbed s (set_procs (set_takeover t (procs_of s)) s).
Proof. split; [|done]. apply (le_inv _ _ (takeover_le (procs_of s) t)). Qed.

Lemma life_unit_run {A} (m : M (LStore World) A) s s' x :
  life_unit m s = (s', x) → (∃ e, x = Err e ∧ undisturbed s s') ∨ ∃ a, x = Ok a ∧ m s = (s', Ok a).
Proof.
  unfold life_unit. destruct (m s) as [s1 [a|e]]; intros [= <- <-]; [right; by exists a|left].
  exists e. split; [done|apply set_takeover_undisturbed].
Qed.

Lemma life_unit_keeps {A} (m : M (LStore World) A) :
  (∀ s s' a, m s = (s', Ok a) → good_step host s s') → keeps (good_step host) (life_unit m).
Proof.
  intros Hm s s' x E. apply life_unit_run in E as [(e & _ & U)|(a & _ & E)]; [by apply undisturbed_good|by eapply Hm].
Qed.

Lemma life_seeing_keeps {A} (R : relation (LStore World)) `{!PreOrder R} (f : LStore World → res A) : keeps R (seeing f).
Proof. apply keeps_read, _. Qed.

Lemma in_store_read {A} (m : M Store A) (R : relation (LStore World)) `{!Reflexive R} : read_only m → keeps R (in_store m).
Proof.
  intros Hm s s' x E. apply in_store_run in E as (b & E & ->). apply Hm in E as ->.
  unfold set_procs, set_tables, set_base, procs_of. by destruct s as [[] ?].
Qed.

(** An operation of the tables that leaves the processes alone. *)
Lemma in_tables_undisturbed {A} (m : M RStore A) :
  (∀ r r' x, m r = (r', x) → base r' = base r) → keeps (@undisturbed World) (in_tables m).
Proof.
  intros Hm s s' x. unfold in_tables. destruct (m (tables s)) as [r y] eqn:E. intros [= <- _].
  apply Hm in E. split; unfold lives, procs_of; cbn; by rewrite E.
Qed.

Lemma note_undisturbed e : keeps undisturbed (note e).
Proof.
  unfold note. apply keeps_bind; [apply _|apply life_seeing_keeps, _|intros _].
  apply in_tables_undisturbed. by intros r r' x [= <- _].
Qed.

Lemma release_base p r r' x : release_process_reservations p r = (r', x) → base r' = base r.
Proof.
  unfold release_process_reservations. intros E. apply bind_run in E as [(e & [= <- _] & _)|(a & s1 & [= <- _] & E)]; [done|].
  apply bind_run in E as [(e & [= <- _] & _)|(b & s1 & [= <- _] & E)]; [done|].
  apply bind_run in E as [(e & Hx & _)|([] & s1 & Hx & E)]; injection Hx as <-; [done|].
  destruct (a ++ b); by injection E as <- _.
Qed.

Lemma release_budget_undisturbed p : keeps undisturbed (_release_child_budget p).
Proof.
  unfold _release_child_budget. destruct has_resources; [|apply keeps_ret, _].
  apply in_tables_undisturbed, release_base.
Qed.

Lemma get_proc_keeps (R : relation (LStore World)) `{!PreOrder R} p : keeps R (get_proc p).
Proof. apply in_store_read; [apply _|]. apply read_only_get_process. Qed.

Lemma get_or_raise_keeps (R : relation (LStore World)) `{!PreOrder R} p : keeps R (get_or_raise p).
Proof.
  unfold get_or_raise. apply keeps_bind; [apply _|apply get_proc_keeps, _|intros o]. apply keeps_lift, _.
Qed.

Lemma get_proc_Ok p s s' o : get_proc p s = (s', Ok o) → s' = s ∧ o = processes (procs_of s) !! p.
Proof.
  intros E. pose proof (get_proc_keeps eq p _ _ _ E) as <-. apply in_store_run in E as (b & E & _).
  by apply get_process_Ok in E as [_ ->].
Qed.

Lemma get_or_raise_Ok p s s' r : get_or_raise p s = (s', Ok r) → s' = s ∧ processes (procs_of s) !! p = Some r.
Proof.
  intros E. apply M_bind_Ok in E as (o & s1 & E1 & E). apply get_proc_Ok in E1 as [-> ->].
  injection E as <- E. split; [done|]. by apply of_option_Ok in E.
Qed.

Lemma caught_keeps {A} (R : relation (LStore World)) (m : M (LStore World) A) : keeps R m → keeps R (caught m).
Proof. intros Hm s s' x. unfold caught. destruct (m s) as [s1 y] eqn:E. intros [= <- _]. by eapply Hm. Qed.

(** ** Transitions *)

Lemma moved_life p args s b r old new :
  moved p args (procs_of s) b r old new → life_moved p args s (set_procs b s) r.
Proof.
  intros [Ho Hn Hr Hi Hs Hw _ Hp Ht Hreg (R1 & R2 & R3)]. split; [| |intros q Hne|done| |done|done].
  - exists (life_of old). unfold lives. rewrite Ho. split; [done|]. by split.
  - unfold lives. rewrite procs_set_procs, Hn. cbn. unfold life_of. by rewrite Hs, Hw, Hp, R2.
  - unfold lives. by rewrite procs_set_procs, Hr.
  - unfold lives. rewrite Ho. intros w l Hw' Hc [= <-]. specialize (Hreg w Hw' Hc). unfold may_register in Hreg.
    unfold is_gated. cbn. destruct (wait_state old) as [[]|]; rewrite ?andb_false_r; try done. by destruct Hreg.
Qed.

Lemma clean_undisturbed {A} (m : M Store A) s s' e :
  err_clean m → in_store m s = (s', Err e) → undisturbed s s'.
Proof.
  intros Hm E. apply in_store_run in E as (b & E & ->). apply Hm in E as [t ->]. apply set_takeover_undisturbed.
Qed.

Lemma move_run amb p args s s' x : move amb p args s = (s', x) → store_inv (procs_of s) →
  (∃ e, x = Err e ∧ undisturbed s s') ∨ ∃ r, x = Ok r ∧ life_moved p args s s' r.
Proof.
  unfold move. intros E Hinv. apply M_seeing in E as (now & _ & E).
  destruct x as [r|e]; [right; exists r|left; exists e]; (split; [done|]).
  - apply in_store_run in E as (b & E & ->). apply transition_moves in E as (old & new & Hm); [|done].
    by eapply moved_life.
  - eapply clean_undisturbed; [|exact E]. apply transition_clean.
Qed.

Lemma wake_up_run amb token control reason s s' x : wake_up amb token control reason s = (s', x) → store_inv (procs_of s) →
  (∃ e, x = Err e ∧ undisturbed s s')
  ∨ ∃ r args, x = Ok r ∧ life_moved (st_pid token) args s s' r ∧ minds_gate host (st_pid token) args s
      ∧ ta_status args = RUNNABLE ∧ ta_wait_state args = None.
Proof.
  unfold wake_up. intros E Hinv. apply M_seeing in E as (now & _ & E).
  destruct x as [r|e]; [right; exists r|left; exists e; split; [done|]].
  - apply in_store_run in E as (b & E & ->). apply wake_moves in E as (args & old & new & Hm & H1 & H2 & H3); [|done].
    exists args. split_and!; [done|by eapply moved_life| |done|done]. intros _ l. unfold lives. rewrite (mv_old _ _ _ _ _ _ _ Hm).
    intros [= <-]. unfold is_gated. cbn. by case_bool_decide as Hs; [rewrite Hs in H3|].
  - eapply clean_undisturbed; [|exact E]. apply wake_clean.
Qed.

Lemma wake_up_ok x amb token control reason s s' y :
  wake_up amb token control reason s = (s', y) → life_ok_but x s → life_ok_but x s' ∧ grown host s s'.
Proof.
  intros E Hok. apply wake_up_run in E as [(e & _ & U)|(r & args & _ & Hm & Hg & H1 & H2)]; [| |apply Hok].
  - split; [by eapply undisturbed_ok|by apply undisturbed_grown].
  - split; [|by eapply life_moved_grown]. eapply life_moved_ok; [exact Hm|exact Hg|exact Hok|by right| |].
    + rewrite H1. by vm_compute.
    + rewrite H2. done.
Qed.

Lemma wake_up_good amb token control reason : keeps (good_step host) (wake_up amb token control reason).
Proof. intros s s' y E Hok. by eapply wake_up_ok. Qed.

(** ** Waking the parent of a child that has ended *)

Lemma wait_token_pid r token : wait_token r = Ok token → st_pid token = pid r.
Proof. unfold wait_token. intros E. apply bind_Ok in E as ([] & _ & [= <-]). done. Qed.

Lemma wake_parent_ok amb child s s' :
  _wake_parent_waiting_on_child amb child s = (s', Ok tt) → life_ok_but (Some (pid child)) s →
  (∃ l, lives s (pid child) = Some l ∧ lf_parent l = parent_pid child) →
  life_ok s' ∧ grown host s s'.
Proof.
  intros E Hok (l & Hl & Hp).
  (* Only its parent can be waiting for it. *)
  assert (Honly : ∀ s1, undisturbed s s1 → (∀ q, parent_pid child = Some q → ¬ waits_for s q (pid child)) →
    life_ok s1 ∧ grown host s s1).
  { intros s1 U Hno. split; [|by apply undisturbed_grown]. apply (undisturbed_ok None s); [done|]. split; [apply Hok|apply Hok| |apply Hok].
    intros p c Hw _. destruct (decide (c = pid child)) as [->|Hne].
    - exfalso. destruct (lo_child _ _ Hok p _ Hw) as (k & Hk & Hkp). rewrite Hl in Hk. injection Hk as <-.
      apply (Hno p); [congruence|done].
    - apply (lo_live _ _ Hok p c Hw). congruence. }
  unfold _wake_parent_waiting_on_child in E. destruct (parent_pid child) as [q|] eqn:Hq.
  2:{ injection E as <-. by apply Honly. }
  apply M_bind_Ok in E as (found & s1 & E1 & E). apply get_proc_Ok in E1 as [-> ->].
  destruct (processes (procs_of s) !! q) as [parent|] eqn:Hrow.
  2:{ injection E as <-. apply Honly; [done|]. intros q' [= <-] (k & Hk & _). unfold lives in Hk. by rewrite Hrow in Hk. }
  assert (Hno : (status parent ≠ WAITING_EVENT ∨ wait_state parent ≠ Some (ChildProcessWait (pid child))) →
    ∀ q', Some q = Some q' → ¬ waits_for s q' (pid child)).
  { intros Hc q' [= <-] (k & Hk & K1 & K2). unfold lives in Hk. rewrite Hrow in Hk. injection Hk as <-. by destruct Hc. }
  case_bool_decide as Hs; cbn [negb] in E; [|injection E as <-; by apply Honly; [|apply Hno; left]].
  destruct (wait_state parent) as [[c| | | | | |]|] eqn:Hw;
    try (injection E as <-; apply Honly; [done|]; apply Hno; right; done).
  destruct (String.eqb_spec c (pid child)) as [->|Hne]; cbn [negb] in E.
  2:{ injection E as <-. apply Honly; [done|]. apply Hno. right. by intros [= ->]. }
  apply M_bind_Ok in E as (token & s1 & Et & E). injection Et as <- Et. apply wait_token_pid in Et.
  apply M_bind_Ok in E as (woken & s2 & Ew & E). apply note_undisturbed in E.
  assert (pid parent = q) as Hpq by apply (stored_row_decodes _ _ _ (lo_inv _ _ Hok) Hrow).
  apply wake_up_run in Ew as [(e & [=] & _)|(r & args & _ & Hm & Hg & H1 & H2)]; [|apply Hok].
  rewrite Et, Hpq in Hm, Hg.
  assert (Hok2 : life_ok_but (Some (pid child)) s2).
  { eapply life_moved_ok; [exact Hm|exact Hg|exact Hok|by right| |]; [rewrite H1; by vm_compute|by rewrite H2]. }
  split; [|transitivity s2; [by eapply life_moved_grown|by apply undisturbed_grown]].
  apply (undisturbed_ok None s2); [done|]. split; [apply Hok2|apply Hok2| |apply Hok2]. intros p c Hwait _ He.
  destruct (decide (c = pid child)) as [->|Hne]; [|by apply (lo_live _ _ Hok2 p c Hwait); [congruence|]].
  destruct (decide (p = q)) as [->|Hpne].
  - destruct Hwait as (k & Hk & K1 & _). rewrite (lm_new _ _ _ _ _ Hm) in Hk. injection Hk as <-. cbn in K1. congruence.
  - destruct Hwait as (k & Hk & K). rewrite (lm_rest _ _ _ _ _ Hm) in Hk by done.
    destruct (lo_child _ _ Hok p (pid child)) as (k' & Hk' & Hkp); [by exists k|]. rewrite Hl in Hk'. injection Hk' as <-. congruence.
Qed.
End Operations.

(** ** The tree of processes

    The processes below one, and the walks the manager makes over them: each
    ends within its fuel when no process is below itself, and sees everything
    below. *)

(** ** Walks from a stack *)

(** [exp] pushes what is below; the walk empties its stack within the fuel. *)
Inductive drains {A} (exp : A → list A) : nat → list A → Prop :=
| drains_nil n : drains exp n []
| drains_cons n x stack : drains exp n (exp x ++ stack) → drains exp (S n) (x :: stack).

Section Walk.
Context {A : Type} (exp : A → list A) (key par : A → string) (P : A → Prop).
Hypothesis exp_below : ∀ x c, P x → c ∈ exp x → P c ∧ par c = key x.
Hypothesis exp_distinct : ∀ x, P x → NoDup (map key (exp x)).
Hypothesis one_parent : ∀ x y, P x → P y → key x = key y → par x = par y.

(** What is left to see: the keys of [U] and of the stack. *)
Record walking (U : gset string) (stack : list A) : Prop := {
  wk_all : ∀ x, x ∈ stack → P x;
  wk_distinct : NoDup (map key stack);
  wk_fresh : ∀ x, x ∈ stack → key x ∉ U;
  wk_next : ∀ x c, P x → x ∈ stack ∨ key x ∈ U → c ∈ exp x → key c ∈ U;
}.

Lemma walking_step U x stack : walking U (x :: stack) → walking (U ∖ list_to_set (map key (exp x))) (exp x ++ stack).
Proof.
  intros [Ha Hd Hf Hn]. assert (Px : P x) by (apply Ha; by left). cbn in Hd. apply NoDup_cons in Hd as [Hx Hd].
  assert (Hkey : ∀ k, k ∈ map key (exp x) → k ∈ U).
  { intros k (c & -> & Hc)%list_elem_of_fmap. apply (Hn x c Px); [left; by left|done]. }
  split.
  - intros y [Hy|Hy]%elem_of_app; [by apply (exp_below x)|]. apply Ha. by right.
  - rewrite map_app. apply list.NoDup_app. split_and!; [by apply exp_distinct| |done].
    intros k Hk (y & -> & Hy)%list_elem_of_fmap. apply (Hf y); [by right|by apply Hkey].
  - intros y [Hy|Hy]%elem_of_app; rewrite elem_of_difference, elem_of_list_to_set.
    + intros [_ H]. apply H, list_elem_of_fmap. by exists y.
    + intros [H _]. apply (Hf y); [by right|done].
  - intros y c Py Hy Hc. assert (Hxy : key y ≠ key x).
    { intros Heq. destruct Hy as [[Hy|Hy]%elem_of_app|Hy].
      - apply (Hf x); [by left|]. rewrite <-Heq. apply Hkey, list_elem_of_fmap. by exists y.
      - apply Hx, list_elem_of_fmap. by exists y.
      - apply (Hf x); [by left|]. rewrite <-Heq. set_solver. }
    assert (HcU : key c ∈ U).
    { apply (Hn y c Py); [|done]. destruct Hy as [[Hy|Hy]%elem_of_app|Hy]; [right|left; by right|right; set_solver].
      apply Hkey, list_elem_of_fmap. by exists y. }
    apply elem_of_difference. split; [done|]. rewrite elem_of_list_to_set. intros (c' & Heq & Hc')%list_elem_of_fmap.
    destruct (exp_below y c Py Hc) as [Pc Hpc]. destruct (exp_below x c' Px Hc') as [Pc' Hpc'].
    apply Hxy. rewrite <-Hpc, <-Hpc'. by apply one_parent.
Qed.

Lemma walk_ends n : ∀ U stack, walking U stack → length stack + size U ≤ n → drains exp n stack.
Proof.
  induction n as [|n IH]; intros U [|x stack] Hw Hlen; try constructor; [cbn in Hlen; lia|].
  apply (IH _ _ (walking_step _ _ _ Hw)). destruct Hw as [Ha Hd Hf Hn]. assert (Px : P x) by (apply Ha; by left).
  assert (Hsub : list_to_set (map key (exp x)) ⊆ U).
  { intros k (c & -> & Hc)%elem_of_list_to_set%list_elem_of_fmap. apply (Hn x c Px); [left; by left|done]. }
  rewrite length_app, size_difference by done. rewrite (size_list_to_set (map key (exp x))) by (by apply exp_distinct).
  rewrite length_map. cbn in Hlen. pose proof (subseteq_size _ _ Hsub) as Hle.
  rewrite (size_list_to_set (map key (exp x))), length_map in Hle by (by apply exp_distinct). lia.
Qed.
End Walk.

Section Trees.
Context {World : Type} `{!LifecycleHost World}.
Implicit Type s : LStore World.

(** ** The processes below one *)

Lemma list_children_spec p (r : RStore) l row :
  store_inv (base r) → list_child_processes p r = Ok l →
  row ∈ l ↔ processes (base r) !! pid row = Some row ∧ parent_pid row = Some p.
Proof.
  intros Hinv E. unfold list_child_processes in E. apply mapR_Ok in E.
  match type of E with Forall2 _ ?k _ => set (rows := k) in * end.
  assert (l = rows) as ->.
  { clearbody rows. induction E as [|x y k k' Hx _ IH]; [done|]. f_equal; [|done].
    unfold _row_to_process in Hx. by apply bind_Ok in Hx as (? & _ & [= <-]). }
  unfold rows. rewrite merge_sort_Permutation, list_elem_of_In, filter_In, <-list_elem_of_In, list_elem_of_fmap, bool_decide_eq_true.
  split; intros [H1 H2]; (split; [|exact H2]).
  - destruct H1 as ([q row'] & -> & Hq). cbn. apply elem_of_map_to_list in Hq.
    by rewrite (proj2 (stored_row_decodes _ _ _ Hinv Hq)).
  - exists (pid row, row). split; [done|]. by apply elem_of_map_to_list.
Qed.

(** The traversal holds its stack and is closed under children. *)
Lemma descendants_closed n stack (r : RStore) l : descendants n stack r = Ok l →
  stack ⊆ l ∧ ∀ row children, row ∈ l → list_child_processes (pid row) r = Ok children → children ⊆ l.
Proof.
  revert stack l. induction n as [|n IH]; intros [|process stack] l E; cbn in E; try done;
    try (injection E as <-; split; [done|]; intros row children H; by apply elem_of_nil in H).
  apply bind_Ok in E as (children & Hc & E). apply bind_Ok in E as (rest & Hr & [= <-]).
  destruct (IH _ _ Hr) as [Hs Hcl]. split.
  - intros row [->|Hrow]%elem_of_cons; [by left|right]. apply Hs, elem_of_app. by right.
  - intros row ch Hrow Hch x Hx. right. apply elem_of_cons in Hrow as [->|Hrow]; [|by eapply Hcl].
    rewrite Hc in Hch. injection Hch as <-. apply Hs, elem_of_app. left. rewrite list_elem_of_In, <-in_rev, <-list_elem_of_In. done.
Qed.

(** [q] is below [p]. *)
Definition below s : relation string := tc (child_of s).

Lemma child_of_row s p c : store_inv (procs_of s) → child_of s p c →
  ∃ row, processes (procs_of s) !! c = Some row ∧ pid row = c ∧ parent_pid row = Some p.
Proof.
  intros Hinv (l & Hl & Hp). unfold lives in Hl. destruct (processes (procs_of s) !! c) as [row|] eqn:Hr; [|done].
  injection Hl as <-. exists row. split; [done|]. split; [|done]. by apply (stored_row_decodes _ _ _ Hinv Hr).
Qed.

Lemma children_decode s p : store_inv (procs_of s) → ∃ l, list_child_processes p (tables s) = Ok l.
Proof.
  intros Hinv. unfold list_child_processes. eexists. apply mapR_id. rewrite Forall_forall. intros row Hrow.
  rewrite merge_sort_Permutation, list_elem_of_In, filter_In, <-list_elem_of_In, list_elem_of_fmap in Hrow.
  destruct Hrow as [([q row'] & -> & Hq) _]. apply elem_of_map_to_list in Hq. by apply (stored_row_decodes _ _ _ Hinv Hq).
Qed.

(** When none is reported live, all have ended or are run by the Host. *)
Lemma no_live_below s p q :
  store_inv (procs_of s) → _live_descendant_pids p s = Ok [] → below s p q →
  ended s q ∨ is_host_managed_runner q s = true.
Proof.
  intros Hinv E Hbelow. unfold _live_descendant_pids in E. apply bind_Ok in E as (children & Hc & E).
  apply bind_Ok in E as (l & Hd & E). apply descendants_closed in Hd as [Hstack Hclosed].
  assert (Hin : ∀ a b, below s a b → (a = p ∨ ∃ row, row ∈ l ∧ pid row = a) → ∃ row, row ∈ l ∧ pid row = b
      ∧ processes (procs_of s) !! b = Some row).
  { assert (Hone : ∀ a b, child_of s a b → (a = p ∨ ∃ row, row ∈ l ∧ pid row = a) → ∃ row, row ∈ l ∧ pid row = b
      ∧ processes (procs_of s) !! b = Some row).
    { intros a b Hab Ha. destruct (child_of_row s a b Hinv Hab) as (row & Hrow & Hpid & Hpar). exists row. split; [|done].
      destruct Ha as [->|(arow & Hain & <-)].
      - apply Hstack. rewrite list_elem_of_In, <-in_rev, <-list_elem_of_In. apply (list_children_spec p (tables s)); [done..|].
        by rewrite Hpid.
      - destruct (children_decode s (pid arow) Hinv) as [ch Hch]. apply (Hclosed arow ch Hain Hch).
        apply (list_children_spec (pid arow) (tables s)); [done..|]. by rewrite Hpid. }
    induction 1 as [a b Hab|a b c Hab _ IH]; intros Ha; [exact (Hone a b Hab Ha)|].
    destruct (Hone a b Hab Ha) as (row & H1 & H2 & _). apply IH. right. by exists row. }
  destruct (Hin p q Hbelow ltac:(by left)) as (row & Hrow & Hpid & Hq).
  injection E as E. assert (length (merge_sort str_le (map pid (List.filter
    (fun c => negb (is_terminal (status c)) && negb (is_host_managed_runner (pid c) s)) l))) = 0) as Hlen by (by rewrite E).
  rewrite merge_sort_Permutation, length_map in Hlen. apply nil_length_inv in Hlen.
  destruct (is_terminal (status row)) eqn:Ht; [left; exists (life_of row); unfold lives; by rewrite Hq|].
  destruct (is_host_managed_runner q s) eqn:Hm; [by right|exfalso].
  assert (In row []) as []. rewrite <-Hlen. apply filter_In. rewrite <-list_elem_of_In, Ht, Hpid, Hm. done.
Qed.
(** ** The walks end *)

Definition children s (p : string) : list AgentProcess :=
  match list_child_processes p (tables s) with Ok l => l | Err _ => [] end.

Lemma children_Ok s p : store_inv (procs_of s) → list_child_processes p (tables s) = Ok (children s p).
Proof. intros Hinv. unfold children. by destruct (children_decode s p Hinv) as [l ->]. Qed.

Lemma filter_distinct {A} (f : A → string) (keep : A → bool) l : NoDup (map f l) → NoDup (map f (List.filter keep l)).
Proof.
  induction l as [|x l IH]; cbn; [done|]. intros [Hx Hl]%NoDup_cons. destruct (keep x); [|by apply IH].
  cbn. apply NoDup_cons. split; [|by apply IH]. intros (y & Hy & Hin)%list_elem_of_fmap. apply Hx, list_elem_of_fmap.
  exists y. split; [done|]. rewrite list_elem_of_In in Hin. apply filter_In in Hin as [Hin _]. by apply list_elem_of_In.
Qed.

Lemma children_distinct s p : store_inv (procs_of s) → NoDup (map pid (children s p)).
Proof.
  intros Hinv. pose proof (children_Ok s p Hinv) as E. unfold list_child_processes in E. apply mapR_Ok in E.
  match type of E with Forall2 _ ?k _ => set (rows := k) in * end.
  assert (children s p = rows) as ->.
  { clearbody rows. induction E as [|x y k k' Hx _ IH]; [done|]. f_equal; [|done].
    unfold _row_to_process in Hx. by apply bind_Ok in Hx as (? & _ & [= <-]). }
  unfold rows. rewrite (merge_sort_Permutation _ _). apply filter_distinct.
  assert (map pid (map snd (map_to_list (processes (base (tables s))))) = map fst (map_to_list (processes (base (tables s))))) as ->.
  { rewrite map_map. apply map_ext_in. intros [q row] Hq. cbn. rewrite <-list_elem_of_In in Hq. apply elem_of_map_to_list in Hq.
    by apply (stored_row_decodes _ _ _ Hinv Hq). }
  apply NoDup_fst_map_to_list.
Qed.

Lemma child_row s p c : store_inv (procs_of s) → c ∈ children s p →
  processes (procs_of s) !! pid c = Some c ∧ parent_pid c = Some p.
Proof. intros Hinv. by apply (list_children_spec p (tables s) _ c Hinv), children_Ok. Qed.

Section Below.
Variables (s : LStore World) (p : string) (keep : AgentProcess → bool).
Hypothesis Hinv : store_inv (procs_of s).
Hypothesis no_cycle : ¬ below s p p.

Definition pushed (q : string) : list AgentProcess := rev (List.filter keep (children s q)).
Definition node (x : AgentProcess) : Prop := processes (procs_of s) !! pid x = Some x ∧ below s p (pid x).
Definition parent_key (x : AgentProcess) : string := match parent_pid x with Some q => q | None => "" end.

Lemma pushed_elem q c : c ∈ pushed q → c ∈ children s q.
Proof.
  unfold pushed. rewrite list_elem_of_In, <-in_rev, filter_In, <-list_elem_of_In. by intros [H _].
Qed.

Lemma pushed_distinct q : NoDup (map pid (pushed q)).
Proof. unfold pushed. rewrite map_rev, <-(Permutation_rev _). by apply filter_distinct, children_distinct. Qed.

Lemma child_below q c : c ∈ children s q → child_of s q (pid c).
Proof.
  intros Hc. destruct (child_row s q c Hinv Hc) as [Hr Hp]. exists (life_of c). unfold lives. by rewrite Hr.
Qed.

Lemma below_walking : walking (λ x, pushed (pid x)) pid node
  (dom (processes (procs_of s)) ∖ list_to_set (map pid (pushed p))) (pushed p).
Proof.
  split.
  - intros x Hx%pushed_elem. split; [by apply (child_row s p x Hinv)|]. by apply tc_once, child_below.
  - apply pushed_distinct.
  - intros x Hx. rewrite elem_of_difference, elem_of_list_to_set. intros [_ H]. apply H, list_elem_of_fmap. by exists x.
  - intros x c [Hx Hb] _ Hc%pushed_elem. destruct (child_row s (pid x) c Hinv Hc) as [Hrow Hpar].
    apply elem_of_difference. split; [by apply elem_of_dom|]. rewrite elem_of_list_to_set.
    intros (c' & Heq & Hc'%pushed_elem)%list_elem_of_fmap. destruct (child_row s p c' Hinv Hc') as [Hrow' Hpar'].
    apply no_cycle. rewrite <-Heq, Hrow in Hrow'. injection Hrow' as <-. rewrite Hpar in Hpar'. by injection Hpar' as <-.
Qed.

(** The walk from the children of [p] ends within the size of the table. *)
Lemma below_drains : drains (λ x, pushed (pid x)) (table_fuel (tables s)) (pushed p).
Proof.
  eapply (walk_ends _ pid parent_key node); [| | |apply below_walking|].
  - intros x c [Hx Hb] Hc%pushed_elem. destruct (child_row s (pid x) c Hinv Hc) as [Hrow Hpar]. split; [split; [done|]|].
    + eapply tc_r; [exact Hb|]. by apply child_below.
    + unfold parent_key. by rewrite Hpar.
  - intros x _. apply pushed_distinct.
  - intros x y [Hx _] [Hy _] Heq. rewrite Heq in Hx. rewrite Hx in Hy. by injection Hy as ->.
  - assert (Hsub : list_to_set (map pid (pushed p)) ⊆ dom (processes (procs_of s))).
    { intros k (c & -> & Hc%pushed_elem)%elem_of_list_to_set%list_elem_of_fmap. apply elem_of_dom.
      exists c. by apply (child_row s p c Hinv). }
    pose proof (subseteq_size _ _ Hsub) as Hle. rewrite size_difference by done.
    rewrite (size_list_to_set (map pid (pushed p)) (pushed_distinct p)), length_map in *. rewrite size_dom in *.
    unfold table_fuel. change (processes (procs_of s)) with (processes (base (tables s))) in *. lia.
Qed.
End Below.

(** Every walk below a process that is not below itself ends in a list. *)
Lemma descendants_end s p : store_inv (procs_of s) → ¬ below s p p →
  ∃ l, descendants (table_fuel (tables s)) (rev (children s p)) (tables s) = Ok l.
Proof.
  intros Hinv Hp. pose proof (below_drains s p (fun _ => true) Hinv Hp) as Hd. unfold pushed in Hd at 2.
  assert (Hid : ∀ l : list AgentProcess, List.filter (fun _ => true) l = l)
    by (induction l as [|? ? IH]; cbn; [done|by rewrite IH]). rewrite Hid in Hd.
  induction Hd as [n|n x stack Hd [l Hl]]; [by destruct n; eexists|]. cbn [descendants]. rewrite (children_Ok s (pid x) Hinv).
  cbn. unfold pushed in Hl. rewrite Hid in Hl. rewrite Hl. by eexists.
Qed.

Lemma terminal_descendants_end s p : store_inv (procs_of s) → ¬ below s p p →
  ∃ l, terminal_descendants (table_fuel (tables s))
    (rev (List.filter (fun c => is_terminal (status c)) (children s p))) (tables s) = Ok l.
Proof.
  intros Hinv Hp. pose proof (below_drains s p (fun c => is_terminal (status c)) Hinv Hp) as Hd. unfold pushed in Hd at 2.
  assert (Hall : ∀ x, x ∈ rev (List.filter (fun c => is_terminal (status c)) (children s p)) → is_terminal (status x) = true).
  { intros x. rewrite list_elem_of_In, <-in_rev, filter_In. by intros [_ H]. }
  induction Hd as [n|n x stack Hd IH]; [by destruct n; eexists|]. cbn [terminal_descendants].
  rewrite (Hall x) by by left. cbn [negb]. rewrite (children_Ok s (pid x) Hinv). cbn. destruct IH as [l Hl].
  - intros y [Hy|Hy]%elem_of_app; [|apply Hall; by right]. unfold pushed in Hy.
    rewrite list_elem_of_In, <-in_rev, filter_In in Hy. by destruct Hy.
  - unfold pushed in Hl. rewrite Hl. by eexists.
Qed.
End Trees.
