(* ===== verification/LifecycleHistory.v ===== *)
(** * Histories of process lives

    Any sequence of waits, signals, exits and cleanups, mixed with steps that
    change no life: a parent is never left waiting for a child that has ended,
    and a process the Host has parked runs again only by the Host's hand. *)

From S2P Require Import Prelude PyStr PyVal ProcessState ProcessModel ProcessStore ProcessWrites TerminalCleanup ProcessInvariant ProcessProperties ProcessTransition AuthorityRules ResourceTables ResourceManager StoreSteps ProcessLifecycle LifecycleSteps.
From stdpp Require Import sorting.

(** ** What the ports promise *)

(** Object memory and capabilities change no life; the Object-task notifier may
    end and wake processes, within the same rules. *)
Class LifecycleLaws (World : Type) `{LifecycleHost World} : Prop := {
  carrier_quiet : ∀ p t, keeps undisturbed (create_flow_text_carrier p t);
  result_quiet : ∀ p d, keeps undisturbed (create_result_object p d);
  reject_quiet : ∀ p oid, keeps undisturbed (release_rejected_exit_result p oid);
  flow_quiet : ∀ p oid, keeps undisturbed (assert_object_data_flow p oid);
  preserve_quiet : ∀ p oids, keeps undisturbed (preserve_process_owned p oids);
  handle_quiet : ∀ p oid by_, keeps undisturbed (handle_for_object p oid by_);
  view_quiet : ∀ p h, keeps undisturbed (add_handle_to_process_view p h);
  release_quiet : ∀ p oids, keeps undisturbed (release_process_owned p oids);
  redact_quiet : ∀ p, keeps undisturbed (redact_root_spawn_initial_goal p);
  notifier_good : ∀ notify p, object_task_terminal_notifier = Some notify → keeps (good_step false) (notify p);
}.

Section History.
Context {World : Type} `{!LifecycleHost World} `{!LifecycleLaws World} (host : bool).
Implicit Type s : LStore World.
Abbreviation good := (good_step (World := World) host).

Lemma quiet_good {A} (m : M (LStore World) A) : keeps undisturbed m → keeps good m.
Proof. apply keeps_weaken. intros s s'. apply undisturbed_good. Qed.

Lemma false_good s s' : good_step false s s' → good s s'.
Proof.
  intros Hg Hok. destruct (Hg Hok) as [Hok' G]. split; [done|]. intros p. specialize (G p).
  destruct G as [l l' (P & T & Gt)|]; constructor. split_and!; [done..|]. intros _. by apply Gt.
Qed.

Lemma notify_good p : keeps good (_notify_object_task_process_terminal p).
Proof.
  unfold _notify_object_task_process_terminal. destruct object_task_terminal_notifier as [notify|] eqn:E.
  - eapply keeps_weaken; [apply false_good|]. by apply notifier_good.
  - apply keeps_ret, _.
Qed.

#[local] Hint Extern 1 (keeps _ (get_or_raise _)) => apply get_or_raise_keeps, _ : steps.
#[local] Hint Extern 1 (keeps _ (get_proc _)) => apply get_proc_keeps, _ : steps.
#[local] Hint Extern 1 (keeps _ (seeing _)) => apply life_seeing_keeps, _ : steps.
#[local] Hint Extern 2 (keeps undisturbed _) => apply carrier_quiet : steps.
#[local] Hint Extern 2 (keeps undisturbed _) => apply result_quiet : steps.
#[local] Hint Extern 2 (keeps undisturbed _) => apply reject_quiet : steps.
#[local] Hint Extern 2 (keeps undisturbed _) => apply flow_quiet : steps.
#[local] Hint Extern 2 (keeps undisturbed _) => apply preserve_quiet : steps.
#[local] Hint Extern 2 (keeps undisturbed _) => apply handle_quiet : steps.
#[local] Hint Extern 2 (keeps undisturbed _) => apply view_quiet : steps.
#[local] Hint Extern 2 (keeps undisturbed _) => apply release_quiet : steps.
#[local] Hint Extern 2 (keeps undisturbed _) => apply redact_quiet : steps.
#[local] Hint Extern 2 (keeps undisturbed _) => apply note_undisturbed : steps.
#[local] Hint Extern 2 (keeps undisturbed _) => apply release_budget_undisturbed : steps.

(** ** Cleanup *)

(** A cleanup operation writes one work item that exists. *)
Record items_only (b b' : Store) : Prop := {
  io_procs : processes b' = processes b;
  io_inv : store_inv b → store_inv b';
}.

#[export] Instance items_only_preorder : PreOrder items_only.
Proof. split; [by intros b; split|]. intros a b c [P1 I1] [P2 I2]. split; [by rewrite P2|by auto]. Qed.

Lemma items_tx {A} (m : M Store A) : keeps items_only m → keeps items_only (sql_transaction m).
Proof.
  intros Hm b b' [a|e] E; [apply (Hm _ _ _ (proj1 (sql_transaction_Ok _ _ _ _) E))|].
  apply sql_transaction_Err in E as [t ->]. split; [done|]. apply (le_inv _ _ (takeover_le b t)).
Qed.

Lemma items_update p clause set : keeps items_only (update_cleanup_where p clause set).
Proof.
  intros b b' x. unfold update_cleanup_where. destruct (cleanups b !! p) as [row|] eqn:Hp; [destruct (clause row)|];
    intros [= <- _]; try done. split; [done|]. intros [Hside Hcount]. split; [|exact Hcount].
  intros q r Hr. destruct (Hside q r Hr) as (Hwf & Hterm & Hb). split_and!; [done| |done]. intros Ht. cbn.
  destruct (decide (q = p)) as [->|Hne]; [by rewrite lookup_insert_eq|]. rewrite lookup_insert_ne by done. by apply Hterm.
Qed.

Lemma items_reread p : keeps items_only (reread_cleanup p).
Proof. intros b b' x. unfold reread_cleanup. by destruct (cleanups b !! p); intros [= <- _]. Qed.

#[local] Hint Resolve items_tx items_update items_reread : steps.

Lemma run_cleanup_items p o : keeps items_only (run_cleanup p o).
Proof.
  destruct o; cbn [run_cleanup]; unfold claim_process_terminal_cleanup, complete_process_terminal_cleanup_phase,
    fail_process_terminal_cleanup, finish_process_terminal_cleanup; repeat first [apply items_tx | keep_step].
Qed.

Lemma cleanup_undisturbed p o : keeps undisturbed (in_store (World := World) (run_cleanup p o)).
Proof.
  intros s s' x E. apply in_store_run in E as (b & E & ->). apply run_cleanup_items in E as [P I].
  split; [done|]. intros q. unfold lives. by rewrite procs_set_procs, P.
Qed.
Lemma claim_quiet now p owner lease expected :
  keeps undisturbed (in_store (World := World) (claim_process_terminal_cleanup now p owner lease expected)).
Proof. apply (cleanup_undisturbed p (CClaim now owner lease expected)). Qed.

Lemma phase_quiet now p lease phase :
  keeps undisturbed (in_store (World := World) (complete_process_terminal_cleanup_phase now p lease phase)).
Proof. apply (cleanup_undisturbed p (CComplete now lease phase)). Qed.

Lemma fail_quiet now p lease phase error :
  keeps undisturbed (in_store (World := World) (fail_process_terminal_cleanup now p lease phase error)).
Proof. apply (cleanup_undisturbed p (CFail now lease phase error)). Qed.

Lemma finish_quiet now p lease :
  keeps undisturbed (in_store (World := World) (finish_process_terminal_cleanup now p lease)).
Proof. apply (cleanup_undisturbed p (CFinish now lease)). Qed.

#[local] Hint Resolve claim_quiet phase_quiet fail_quiet finish_quiet caught_keeps : steps.

Lemma release_each_quiet preserve children : keeps undisturbed (release_each preserve children).
Proof. induction children as [|c rest IH]; cbn [release_each]; keep. Qed.

#[local] Hint Resolve release_each_quiet : steps.

Lemma finalize_quiet process preserve : keeps undisturbed (_finalize_terminal_process process preserve).
Proof. unfold _finalize_terminal_process, _release_terminal_child_memory. keep. Qed.

Lemma cleanup_state_quiet (R : relation (LStore World)) `{!PreOrder R} p : keeps R (terminal_cleanup_state p).
Proof. unfold terminal_cleanup_state. keep. Qed.

#[local] Hint Extern 1 (keeps _ (terminal_cleanup_state _)) => apply cleanup_state_quiet, _ : steps.
#[local] Hint Resolve finalize_quiet notify_good : steps.
#[local] Hint Extern 3 (keeps (good_step _) _) => apply quiet_good; solve [keep] : steps.

Lemma run_phase_good p lease phase : keeps good (run_phase p lease phase).
Proof. unfold run_phase. keep. Qed.

#[local] Hint Resolve run_phase_good : steps.

Lemma run_phases_good p lease completed phases : keeps good (run_phases p lease completed phases).
Proof. induction phases as [|phase rest IH]; cbn [run_phases]; keep. Qed.

#[local] Hint Resolve run_phases_good : steps.

Lemma raise_failures_quiet {A} p lease phase first failures actor action :
  keeps undisturbed (_raise_terminal_cleanup_failures (A := A) p lease phase first failures actor action).
Proof. unfold _raise_terminal_cleanup_failures. keep. Qed.

#[local] Hint Resolve raise_failures_quiet : steps.

Lemma retry_good p actor action stale : keeps good (retry_terminal_cleanup p actor action stale).
Proof. unfold retry_terminal_cleanup. keep. Qed.

#[local] Hint Resolve retry_good : steps.

Lemma recover_page_good sample acc page : keeps good (recover_page sample acc page).
Proof. revert acc. induction page as [|kv rest IH]; intros acc; cbn [recover_page]; unfold recover_one; keep. Qed.

#[local] Hint Resolve recover_page_good : steps.

Lemma recover_pages_good fuel after acc : keeps good (recover_cleanup_pages fuel after acc).
Proof. revert after acc. induction fuel as [|n IH]; intros after acc; cbn [recover_cleanup_pages]; keep. Qed.

Lemma recover_good fuel : keeps good (recover_terminal_cleanups fuel).
Proof. unfold recover_terminal_cleanups. keep. apply recover_pages_good. Qed.
#[local] Hint Resolve recover_pages_good recover_good : steps.

(** ** Waiting *)

Lemma active_parent_keeps (R : relation (LStore World)) `{!PreOrder R} p action : keeps R (_require_active_parent p action).
Proof. unfold _require_active_parent. keep. Qed.

Lemma require_child_keeps (R : relation (LStore World)) `{!PreOrder R} p c : keeps R (_require_child p c).
Proof. unfold _require_child. keep. Qed.

#[local] Hint Extern 1 (keeps _ (_require_active_parent _ _)) => apply active_parent_keeps, _ : steps.
#[local] Hint Extern 1 (keeps _ (_require_child _ _)) => apply require_child_keeps, _ : steps.
#[local] Hint Resolve wake_up_good : steps.

Lemma active_parent_Ok p action s s' r : _require_active_parent p action s = (s', Ok r) →
  s' = s ∧ processes (procs_of s) !! p = Some r ∧ is_terminal (status r) = false.
Proof.
  intros E. apply M_bind_Ok in E as (r' & s1 & E1 & E). apply get_or_raise_Ok in E1 as [-> Hr].
  apply M_bind_Ok in E as ([] & s1 & Et & E). injection Et as <- Et. injection E as <- <-. by apply raise_if_Ok in Et.
Qed.

Lemma require_child_Ok p c s s' r : _require_child p c s = (s', Ok r) →
  s' = s ∧ processes (procs_of s) !! c = Some r ∧ parent_pid r = Some p.
Proof.
  intros E. apply M_bind_Ok in E as (r' & s1 & E1 & E). apply get_or_raise_Ok in E1 as [-> _].
  apply M_bind_Ok in E as (r2 & s1 & E1 & E). apply get_or_raise_Ok in E1 as [-> Hc].
  apply M_bind_Ok in E as ([] & s1 & Et & E). injection Et as <- Et. injection E as <- <-.
  apply raise_if_Ok, negb_false_iff, bool_decide_eq_true in Et. done.
Qed.

Lemma row_pid s p row : store_inv (procs_of s) → processes (procs_of s) !! p = Some row → pid row = p.
Proof. intros Hi Hr. by apply (stored_row_decodes _ _ _ Hi Hr). Qed.

Lemma child_wait_shape v w : mk_ChildProcessWait (PStr v) = Ok w → w = ChildProcessWait (strip v).
Proof. unfold mk_ChildProcessWait, _non_empty_string. intros E. res_simpl. done. Qed.

(** A parent is parked on a child of its own that runs. *)
Lemma park_good amb p child parent child_row s s' x :
  processes (procs_of s) !! p = Some parent → processes (procs_of s) !! child = Some child_row →
  parent_pid child_row = Some p → is_terminal (status child_row) = false →
  move amb p (child_wait_args parent (ChildProcessWait child)) s = (s', x) → good s s'.
Proof.
  intros Hp Hc Hpar Ht E Hok. apply move_run in E as [(e & _ & U)|(r & _ & Hm)]; [|  |apply Hok].
  - by apply undisturbed_good.
  - assert (Hg : minds_gate host p (child_wait_args parent (ChildProcessWait child)) s)
      by (by eapply park_minds_gate).
    split; [|by eapply life_moved_grown]. eapply life_moved_ok; [exact Hm|exact Hg|exact Hok|by left|done|].
    intros c _ [= <-]. split.
    + exists (life_of child_row). unfold lives. by rewrite Hc.
    + intros (l & Hl & Hend). unfold lives in Hl. rewrite Hc in Hl. injection Hl as <-. cbn in Hend. congruence.
Qed.

Lemma wait_for_child_good amb p child timeout : keeps good (wait_for_child amb p child timeout).
Proof.
  intros s s' x E Hok. unfold wait_for_child in E.
  apply bind_run in E as [(e & E & _)|(parent & s1 & E1 & E)].
  { revert Hok. change (good s s'). eapply active_parent_keeps; [apply _|exact E]. }
  apply active_parent_Ok in E1 as (-> & Hp & _). pose proof (row_pid _ _ _ (lo_inv _ _ Hok) Hp) as Hpid. rewrite Hpid in E.
  apply bind_run in E as [(e & E & _)|(child_row & s1 & E1 & E)].
  { revert Hok. change (good s s'). eapply require_child_keeps; [apply _|exact E]. }
  apply require_child_Ok in E1 as (-> & Hc & Hpar).
  destruct (is_terminal (status child_row)) eqn:Ht; [injection E as <- _; by split|].
  apply bind_run in E as [(e & Hx & _)|([] & s1 & Hx & E)]; injection Hx as <- _; [by split|].
  apply bind_run in E as [(e & Hx & _)|(w & s1 & Hx & E)]; injection Hx as <- Hw; [by split|].
  apply child_wait_shape in Hw as ->.
  rewrite (lo_pids _ _ Hok child) in E by (unfold lives; by rewrite Hc).
  apply bind_run in E as [(e & E & _)|(parked & s1 & E1 & E)]; [exact (park_good _ _ _ _ _ _ _ _ Hp Hc Hpar Ht E Hok)|].
  revert Hok. change (good s s'). transitivity s1; [exact (park_good _ _ _ _ _ _ _ _ Hp Hc Hpar Ht E1)|].
  revert E. generalize s1 s' x. change (∀ s s' x, ?m s = (s', x) → good s s') with (keeps good m). keep.
Qed.

Lemma wait_good amb p child timeout : keeps good (wait amb p child timeout).
Proof.
  unfold wait. apply keeps_bind; [apply _|apply wait_for_child_good|intros _].
  apply life_unit_keeps. intros s s' a. revert s s'. intros s s' E.
  match type of E with ?m s = _ => assert (Hm : keeps good m) by keep end. by eapply Hm.
Qed.

(** A new working directory changes no life. *)
Lemma chdir_good amb p path : keeps good (_persist_working_directory amb p path).
Proof.
  unfold _persist_working_directory. keep. intros s s' x E Hok. apply in_store_run in E as (b & E & ->).
  match type of E with patch_process ?a ?n ?q ?l ?r ?e _ = _ => set (patch := l) in *; set (rev := r) in * end.
  enough (undisturbed s (set_procs b s)) as U by (split; [by eapply undisturbed_ok|by apply undisturbed_grown]).
  pose proof (lo_inv _ _ Hok) as Hinv. split.
  - intros _. apply (le_inv _ _ (patch_process_preserves _ _ _ _ _ _ _ _ _ Hinv E) Hinv).
  - intros q. unfold lives. rewrite procs_set_procs. destruct x as [r|e].
    + edestruct (patch_keeps_life (fun x : string => x)) as (old & new & Ho & Hn & P & S & W & R); [exact Hinv|exact E|set_solver|].
      destruct (decide (q = p)) as [->|Hne]; [|by rewrite R]. rewrite Ho, Hn. cbn. unfold life_of. by rewrite P, S, W.
    + apply err_clean_patch in E as [t ->]. done.
Qed.

#[local] Hint Resolve chdir_good : steps.

Lemma set_directory_good amb p path : keeps good (set_working_directory amb p path).
Proof. unfold set_working_directory. keep. Qed.

Lemma set_validated_good amb p path : keeps good (set_validated_working_directory amb p path).
Proof. unfold set_validated_working_directory. keep. Qed.

Lemma list_children_good p include_terminal : keeps good (list_children p include_terminal).
Proof. unfold list_children. keep. Qed.
(** ** Signals *)

(** A takeover scope around a body: what it runs is the body. *)
Lemma signal_scope_run {A} process sig rt ra rhr nonce (body : M (LStore World) A) s s' a :
  _signal_takeover_scope process sig rt ra rhr nonce body s = (s', Ok a) →
  ∃ s0 s1, undisturbed s s0 ∧ body s0 = (s1, Ok a) ∧ undisturbed s1 s'.
Proof.
  unfold _signal_takeover_scope. intros E. destruct (_ || _); [by exists s, s'|].
  destruct (execution_owner_id process) as [owner|], (execution_lease_id process) as [lease|]; try done; [|by exists s, s'].
  unfold scoped in E. match type of E with match ?m with _ => _ end = _ => destruct m as [b [[s1 a']|e]] eqn:Es end; [|done].
  injection E as <- ->. apply takeover_scope_closes in Es as (_ & _ & Hs). destruct (Hs eq_refl) as (i & b1 & x & Hb & _ & _ & _ & -> & [= <-]).
  exists (set_procs (set_takeover (Some i) (procs_of s)) s), s1. split; [apply set_takeover_undisturbed|].
  destruct (body _) as [s2 [a1|e]]; [|done]. injection Hb as <- -> ->. split; [done|]. apply set_takeover_undisturbed.
Qed.

Lemma host_wait_shape v w : mk_HostResumeProcessWait v = Ok w → ∃ oid, w = HostResumeProcessWait oid.
Proof. unfold mk_HostResumeProcessWait. intros E. apply bind_Ok in E as (oid & _ & [= <-]). by exists oid. Qed.

Lemma paused_wait_shape v w : mk_PausedProcessWait v = Ok w → ∃ oid, w = PausedProcessWait oid.
Proof. unfold mk_PausedProcessWait. intros E. apply bind_Ok in E as (oid & _ & [= <-]). by exists oid. Qed.

(** What a signal asks for: no child wait, and a Host's pause is kept, unless
    the process ends or the signal resumes it. *)
Lemma signal_target_spec process sig reason_oid rhr st w o :
  signal_target process sig reason_oid rhr = Ok (st, w, o) →
  (∀ c, w ≠ Some (ChildProcessWait c))
  ∧ (is_gated (life_of process) = true → sig = RESUME ∨ is_terminal st = true
      ∨ st = PAUSED ∧ ∃ oid, w = Some (HostResumeProcessWait oid)).
Proof.
  unfold signal_target, is_gated, life_of. cbn [lf_status lf_wait]. intros E. destruct sig.
  - destruct rhr; [apply bind_Ok in E as (v & Hv & [= <- <- <-]); apply host_wait_shape in Hv as (oid & ->); eauto 6|].
    destruct (wait_state process) as [[]|] eqn:Hw; cbv beta iota zeta in E;
      try (apply bind_Ok in E as (v & Hv & [= <- <- <-]); apply paused_wait_shape in Hv as (oid & ->);
           split; [done|]; rewrite andb_false_r; done).
    injection E as <- <- <-. eauto 7.
  - injection E as <- <- <-. split; [done|]. by left.
  - apply bind_Ok in E as (v & Hv & [= <- <- <-]). split; [done|]. right; left. by vm_compute.
  - done.
  - apply bind_Ok in E as (v & Hv & [= <- <- <-]). split; [done|]. right; left. by vm_compute.
Qed.

Lemma apply_signal_run amb p sig payload allow rhr s s' r :
  _apply_signal amb p sig payload allow rhr s = (s', Ok r) → store_inv (procs_of s) → (sig = RESUME → allow = false ∨ host = true) →
  ∃ args, life_moved p args s s' r ∧ minds_gate host p args s ∧ ∀ c, ta_wait_state args ≠ Some (ChildProcessWait c).
Proof.
  unfold _apply_signal. intros E Hinv Ha. apply life_unit_run in E as [(e & [=] & _)|(a & [= <-] & E)].
  apply M_bind_Ok in E as (process & s1 & E1 & E). apply get_or_raise_Ok in E1 as [-> Hrow].
  apply M_bind_Ok in E as ([] & s1 & Hx & E); injection Hx as <- _.
  apply M_bind_Ok in E as ([] & s1 & Hx & E); injection Hx as <- Hgate.
  apply M_bind_Ok in E as ([[st w] o] & s1 & Hx & E); injection Hx as <- Htarget.
  rewrite (row_pid _ _ _ Hinv Hrow) in E. apply move_run in E as [(e & [=] & _)|(r' & [= <-] & Hm)]; [|done].
  apply signal_target_spec in Htarget as [Hc Hg]. eexists. split; [exact Hm|]. split; [|exact Hc].
  intros Hh l Hl Hgl. unfold lives in Hl. rewrite Hrow in Hl. injection Hl as <-. destruct (Hg Hgl) as [->|H]; [|exact H].
  destruct (Ha eq_refl) as [->|Ha']; [|congruence]. apply raise_if_Ok in Hgate. unfold is_gated in Hgl. cbn in Hgl.
  apply andb_true_iff in Hgl as [_ Hw]. by destruct (wait_state process) as [[]|].
Qed.

(** The state after a transition that starts no wait for a child. *)
Definition just_moved (r : AgentProcess) s : Prop :=
  life_ok_but (if is_terminal (status r) then Some (pid r) else None) s
  ∧ ∃ l, lives s (pid r) = Some l ∧ lf_parent l = parent_pid r.

Lemma moved_just p args s s' r :
  life_moved p args s s' r → minds_gate host p args s → life_ok s → (∀ c, ta_wait_state args ≠ Some (ChildProcessWait c)) →
  just_moved r s' ∧ grown host s s'.
Proof.
  intros Hm Hg Hok Hc. split; [|by eapply life_moved_grown]. unfold just_moved. rewrite (lm_pid _ _ _ _ _ Hm), (lm_status _ _ _ _ _ Hm). split.
  - eapply life_moved_ok; [exact Hm|exact Hg|exact Hok|by left| |].
    + intros ->. done.
    + intros c _ Hw. by destruct (Hc c).
  - eexists. split; [apply (lm_new _ _ _ _ _ Hm)|done].
Qed.

Lemma undisturbed_just r s s' : undisturbed s s' → just_moved r s → just_moved r s'.
Proof.
  intros U [Hok (l & Hl & Hp)]. split; [by eapply undisturbed_ok|]. exists l. by rewrite (ud_lives _ _ U).
Qed.

(** The end of a unit that has moved a process. *)
Lemma settle_ok amb r s s' :
  (if is_terminal (status r) then _wake_parent_waiting_on_child amb r else mret tt) s = (s', Ok tt) →
  just_moved r s → life_ok s' ∧ grown host s s'.
Proof.
  unfold just_moved. intros E [Hok Hl]. destruct (is_terminal (status r)); [by eapply wake_parent_ok|by injection E as <-].
Qed.

Lemma record_ok amb r actor action s s' :
  _record_signal_transition amb r actor action s = (s', Ok tt) → just_moved r s → life_ok s' ∧ grown host s s'.
Proof.
  unfold _record_signal_transition. intros E Hj.
  apply M_bind_Ok in E as ([] & s1 & E1 & E). assert (undisturbed s s1) as U1.
  { destruct (is_terminal _); [by apply release_budget_undisturbed in E1|by injection E1 as <-]. }
  apply M_bind_Ok in E as ([] & s2 & E2 & E). apply note_undisturbed in E2.
  apply M_bind_Ok in E as ([] & s3 & E3 & E). apply note_undisturbed in E3.
  assert (U : undisturbed s s3) by (transitivity s1; [done|]; by transitivity s2).
  destruct (settle_ok _ _ _ _ E) as [Hok G]; [by eapply undisturbed_just|]. split; [done|].
  transitivity s3; [by apply undisturbed_grown|done].
Qed.

Lemma signal_unit_good amb process sig payload reason carrier actor action why allow rhr :
  keeps undisturbed carrier → (sig = RESUME → allow = false ∨ host = true) →
  keeps good (signal_unit amb process sig payload reason carrier actor action why allow rhr).
Proof.
  intros Hcar Ha s s' x E. unfold signal_unit in E. apply M_seeing in E as (nonce & _ & E). revert E.
  apply life_unit_keeps. clear s s' x. intros s s' r E Hok.
  apply M_bind_Ok in E as (updated & s3 & E1 & E). apply signal_scope_run in E1 as (s0 & s2 & U1 & E1 & U2).
  apply M_bind_Ok in E1 as (amb' & s1 & Hx & E1). injection Hx as <- _.
  apply M_bind_Ok in E1 as (payload' & s1 & Ep & E1). assert (undisturbed s0 s1) as U3.
  { destruct reason; [|by injection Ep as <-]. apply M_bind_Ok in Ep as (oid & s5 & Ec & Ep). injection Ep as <- _.
    by apply Hcar in Ec. }
  assert (U : undisturbed s s1) by (by transitivity s0).
  assert (Hok1 : life_ok s1) by (by eapply undisturbed_ok).
  apply apply_signal_run in E1 as (args & Hm & Hg & Hc); [|apply Hok1|done].
  destruct (moved_just _ _ _ _ _ Hm Hg Hok1 Hc) as [Hj G1]. apply (undisturbed_just _ _ _ U2) in Hj.
  apply M_bind_Ok in E as ([] & s4 & E2 & E). injection E as <- _.
  destruct (record_ok _ _ _ _ _ _ E2 Hj) as [Hok4 G2]. split; [done|].
  transitivity s1; [by apply undisturbed_grown|]. transitivity s2; [done|].
  transitivity s3; [by apply undisturbed_grown|done].
Qed.

Lemma retries_keeps (R : relation (LStore World)) `{!PreOrder R} process sig : keeps R (retries_cleanup process sig).
Proof. unfold retries_cleanup. keep. Qed.

#[local] Hint Extern 1 (keeps _ (retries_cleanup _ _)) => apply retries_keeps, _ : steps.

#[local] Hint Extern 1 (keeps _ (signal_unit _ _ _ _ _ _ _ _ _ _ _)) => apply signal_unit_good; [solve [keep]|by auto] : steps.

Lemma complete_good updated actor : keeps good (complete_signal updated actor).
Proof. unfold complete_signal. keep. Qed.

#[local] Hint Resolve complete_good : steps.

Lemma signal_child_good amb p child sig reason : keeps good (signal_child amb p child sig reason).
Proof. unfold signal_child. keep. Qed.

(** Only the Host's resume lifts its own pause. *)
Lemma signal_good amb target sig payload rhr :
  (sig = RESUME → host = true) → keeps good (signal amb target sig payload rhr).
Proof. intros Hs. unfold signal. cbv zeta. keep. Qed.

(** ** Exit *)

Lemma terminate_good amb ancestor p : keeps good (terminate_descendant amb ancestor p).
Proof.
  unfold terminate_descendant. keep; apply caught_keeps, signal_good; done.
Qed.

#[local] Hint Resolve terminate_good : steps.

Lemma terminate_each_good amb ancestor below : keeps good (terminate_each amb ancestor below).
Proof. induction below as [|[c d] rest IH]; cbn [terminate_each]; keep. Qed.

#[local] Hint Resolve terminate_each_good : steps.

Lemma exit_result_quiet p result payload message : keeps undisturbed (exit_result p result payload message).
Proof. unfold exit_result. keep. Qed.

Lemma reject_result_quiet p result : keeps undisturbed (reject_result p result).
Proof. unfold reject_result. keep. Qed.

#[local] Hint Resolve exit_result_quiet reject_result_quiet : steps.

Lemma exit_terminal failed : is_terminal (if failed : bool then FAILED else EXITED) = true.
Proof. by destruct failed. Qed.

(** What a committed exit has done. *)
Lemma exit_unit_run amb p result failed message payload s s' r oid :
  exit_unit amb p result failed message payload s = (s', Ok (r, oid)) → life_ok s →
  (∃ l, lives s p = Some l ∧ is_terminal (lf_status l) = false) ∧ _live_descendant_pids p s = Ok []
  ∧ life_ok s' ∧ grown host s s' ∧ pid r = p
  ∧ ∃ l, lives s' p = Some l ∧ lf_status l = if failed then FAILED else EXITED.
Proof.
  intros E Hok. unfold exit_unit in E. apply life_unit_run in E as [(e & [=] & _)|(a & [= <-] & E)].
  apply M_bind_Ok in E as (process & s1 & E1 & E). apply get_or_raise_Ok in E1 as [-> Hrow].
  destruct (is_terminal (status process)) eqn:Ht; [by apply M_bind_Ok in E as ([] & s1 & _ & E)|].
  apply M_bind_Ok in E as (live & s1 & Hx & E); injection Hx as <- Hlive.
  apply M_bind_Ok in E as ([] & s1 & Hx & E); injection Hx as <- Hnil.
  apply raise_if_Ok, negb_false_iff, bool_decide_eq_true in Hnil as ->.
  apply M_bind_Ok in E as (oid' & s1 & E1 & E). pose proof (exit_result_quiet _ _ _ _ _ _ _ E1) as U1.
  assert (Hok1 : life_ok s1) by (by eapply undisturbed_ok).
  apply M_bind_Ok in E as (process' & s2 & E2 & E). apply get_or_raise_Ok in E2 as [-> Hrow'].
  apply M_bind_Ok in E as (o & s2 & Hx & E); injection Hx as <- Ho.
  apply M_bind_Ok in E as (r' & s2 & E2 & E). apply move_run in E2 as [(e & [=] & _)|(r2 & [= <-] & Hm)]; [|apply Hok1].
  assert (Hg : minds_gate host p (exit_args process' failed o) s1) by apply end_minds_gate, exit_terminal.
  destruct (moved_just _ _ _ _ _ Hm Hg Hok1) as [Hj G1]; [done|].
  apply M_bind_Ok in E as ([] & s3 & E3 & E). apply release_budget_undisturbed in E3.
  apply M_bind_Ok in E as ([] & s4 & E4 & E). apply note_undisturbed in E4.
  apply M_bind_Ok in E as ([] & s5 & E5 & E). apply note_undisturbed in E5.
  apply M_bind_Ok in E as ([] & s6 & E6 & E). injection E as <- <- <-.
  assert (U2 : undisturbed s2 s5) by (transitivity s3; [done|]; by transitivity s4).
  assert (Hend : is_terminal (status r') = true) by (rewrite (lm_status _ _ _ _ _ Hm); apply exit_terminal).
  destruct (settle_ok amb r' s5 s6) as [Hok6 G2]; [by rewrite Hend|by eapply undisturbed_just|].
  split_and!; [|done|done| |apply (lm_pid _ _ _ _ _ Hm)|].
  - exists (life_of process). unfold lives. by rewrite Hrow.
  - transitivity s1; [by apply undisturbed_grown|]. transitivity s2; [done|].
    transitivity s5; [by apply undisturbed_grown|done].
  - pose proof (lm_new _ _ _ _ _ Hm) as Hn. rewrite <-(ud_lives _ _ U2) in Hn. specialize (G2 p). rewrite Hn in G2.
    inversion G2 as [l0 l' (_ & Hs & _) E0 El|]. symmetry in El. exists l'. split; [done|]. rewrite Hs; [done|apply exit_terminal].
Qed.

Lemma exit_unit_good amb p result failed message payload : keeps good (exit_unit amb p result failed message payload).
Proof.
  intros s s' x E. destruct x as [[r oid]|e].
  - intros Hok. apply exit_unit_run in E as (_ & _ & Hok' & G & _); [done|exact Hok].
  - unfold exit_unit in E. apply life_unit_run in E as [(e' & _ & U)|(a & [=] & _)]. by apply undisturbed_good.
Qed.

#[local] Hint Resolve exit_unit_good : steps.

Lemma exit_good amb p result failed message payload : keeps good (exit amb p result failed message payload).
Proof. unfold exit, _terminate_descendants_for_failed_exit. keep. Qed.
End History.
