(* ===== verification/HumanInterrupt.v ===== *)
(** * Human interrupts

    [HumanManager.interrupt] of [human/manager.py]: a trusted signal that
    writes the process through the transition service on its own, beside the
    signals of the process manager.  It neither looks at a Host's pause nor
    wakes the parent of the process it ends; where neither matters it keeps
    the invariant of process lives. *)

From S2P Require Import Prelude PyStr PyVal ProcessState ProcessModel ProcessStore ProcessWrites TerminalCleanup ProcessInvariant ProcessProperties ProcessTransition AuthorityRules ResourceTables ResourceManager StoreSteps ProcessLifecycle LifecycleSteps LifecycleHistory.

(** The requests of the human manager: cancelling the pending ones of a process
    changes no life. *)
Class HumanRequests (World : Type) `{LifecycleHost World} : Type := {
  cancel_pending_for_process : string → string → M (LStore World) unit;
  cancel_quiet : ∀ p reason, keeps undisturbed (cancel_pending_for_process p reason);
}.

Section Interrupt.
Context {World : Type} `{!LifecycleHost World} `{!HumanRequests World}.
Abbreviation LStore := (LStore World).

(** ** The operation *)

(** Status, wait and outcome an interrupt asks for. *)
Definition interrupt_target (sig : ProcessSignal) : res (ProcessStatus * option ProcessWaitState * option ProcessOutcome) :=
  match sig with
  | INTERRUPT => Err (ProcessError "process interrupt signals are not state transitions; send a durable interrupt process message instead")
  | PAUSE => w ← mk_PausedProcessWait PNone; Ok (PAUSED, Some w, None)
  | RESUME => Ok (RUNNABLE, None, None)
  | CANCEL | TERMINATE => o ← mk_KilledProcessOutcome PNone (PStr (signal_value sig)); Ok (KILLED, None, Some o)
  end.

(** [takeover_scope]: only a running process is taken over.  The body is one
    transaction, which has rolled back when it raises. *)
Definition interrupt_scope {A} (process : AgentProcess) (p : string) (sig : ProcessSignal) (st : ProcessStatus)
    (nonce : string) (body : M LStore A) : M LStore A :=
  if bool_decide (status process = RUNNING) && bool_decide (st ∈ [PAUSED; KILLED]) then
    match execution_owner_id process, execution_lease_id process with
    | Some owner, Some lease =>
        scoped (trusted_process_execution_takeover p (revision process) (state_generation process)
          {| tok_pid := p; tok_generation := execution_generation process;
             tok_owner_id := owner; tok_lease_id := lease; tok_task_run_epoch := None |}
          st "human interrupt takes over an execution lease" nonce None None
          (if bool_decide (st = PAUSED) then Some "paused" else None)
          (if bool_decide (st = KILLED) then Some (signal_value sig) else None)) body
    | _, _ => raise (ProcessError "running process has no execution lease")
    end
  else body.

Definition interrupt_args (process : AgentProcess) (st : ProcessStatus) (w : option ProcessWaitState)
    (o : option ProcessOutcome) (reason : option string) : TransitionArgs :=
  {| ta_status := st; ta_expected_revision := revision process; ta_expected_status := Some (status process);
     ta_expected_state_generation := Some (state_generation process); ta_wait_state := w; ta_outcome := o;
     ta_status_message := reason; ta_control := false; ta_allowed_statuses := None; ta_reason := None |}.

(** [reason or ..]. *)
Definition cancel_reason (sig : ProcessSignal) (reason : option string) : string :=
  match reason with
  | Some t => if String.eqb t "" then "process interrupted with " +:+ signal_value sig else t
  | None => "process interrupted with " +:+ signal_value sig
  end.

(** The transition, the cancelled requests and the evidence. *)
Definition interrupt_unit (amb : Ambient) (process : AgentProcess) (p : string) (sig : ProcessSignal) (reason : option string)
    (st : ProcessStatus) (w : option ProcessWaitState) (o : option ProcessOutcome) : M LStore AgentProcess :=
  life_unit (
    process ← move amb p (interrupt_args process st w o reason);
    _ ← (if is_terminal (status process) then cancel_pending_for_process p (cancel_reason sig reason) else mret tt);
    _ ← note (Event "process_signal" "human" p);
    _ ← note (Audit "human" "human.interrupt" ("process:" +:+ p));
    mret process).

(** [reason] is the payload's. *)
Definition interrupt (amb : Ambient) (p : string) (sig : ProcessSignal) (reason : option string) : M LStore unit :=
  target ← lift_res (interrupt_target sig);
  let '(st, w, o) := target in
  process ← get_or_raise p;
  _ ← lift_res (require_signal_preserves_condition_wait process sig);
  nonce ← seeing (fun s => Ok (life_new_id "process_takeover" s));
  process ← interrupt_scope process p sig st nonce (interrupt_unit amb process p sig reason st w o);
  if is_terminal (status process) then
    (_ ← retry_terminal_cleanup p "runtime.process_terminal" None false; mret tt)
  else mret tt.

(** ** Where it does no harm *)

Section History.
Context `{!LifecycleLaws World} (host : bool).
Implicit Type s : LStore.

(** The Host has not parked the process, unless the interrupt ends it; and
    nobody waits for a process it ends. *)
Record interruptible s (p : string) (sig : ProcessSignal) : Prop := {
  it_gate : host = false → ends_process sig = false → ∀ l, lives s p = Some l → is_gated l = false;
  it_waits : ends_process sig = true → ∀ q, ¬ waits_for s q p;
}.

Lemma interruptible_undisturbed s s0 p sig : undisturbed s s0 → interruptible s p sig → interruptible s0 p sig.
Proof.
  intros [_ L] [G W]. split.
  - intros Hh He l. rewrite L. by apply G.
  - intros He q (l & Hl & Hw). rewrite L in Hl. apply (W He q). by exists l.
Qed.

Lemma interrupt_target_spec sig st w o :
  interrupt_target sig = Ok (st, w, o) → (∀ c, w ≠ Some (ChildProcessWait c)) ∧ is_terminal st = ends_process sig.
Proof.
  unfold interrupt_target. intros E. destruct sig; try done.
  - apply bind_Ok in E as (v & Hv & [= <- <- <-]). apply paused_wait_shape in Hv as (oid & ->). done.
  - by injection E as <- <- <-.
  - by apply bind_Ok in E as (v & Hv & [= <- <- <-]).
  - by apply bind_Ok in E as (v & Hv & [= <- <- <-]).
Qed.

Lemma interrupt_unit_good amb process p sig reason st w o s s' x :
  interrupt_target sig = Ok (st, w, o) → interruptible s p sig →
  interrupt_unit amb process p sig reason st w o s = (s', x) → good_step host s s'.
Proof.
  intros [Hc Ht]%interrupt_target_spec [Hgate Hwaits] E. unfold interrupt_unit in E.
  apply life_unit_run in E as [(e & _ & U)|(a & _ & E)]; [by apply undisturbed_good|]. intros Hok.
  apply M_bind_Ok in E as (r & s1 & E1 & E). apply move_run in E1 as [(e & [=] & _)|(r' & [= <-] & Hm)]; [|apply Hok].
  set (args := interrupt_args process st w o reason) in *.
  assert (Hg : minds_gate host p args s).
  { intros Hh l Hl Hgl. left. cbn. rewrite Ht. destruct (ends_process sig) eqn:Ee; [done|]. by rewrite (Hgate Hh eq_refl l Hl) in Hgl. }
  destruct (moved_just _ _ _ _ _ _ Hm Hg Hok) as [[Hj _] G1]; [done|].
  rewrite (lm_pid _ _ _ _ _ Hm), (lm_status _ _ _ _ _ Hm) in Hj. change (ta_status args) with st in Hj.
  assert (U : undisturbed s1 s').
  { apply M_bind_Ok in E as ([] & s2 & E2 & E). assert (undisturbed s1 s2) as U1.
    { destruct (is_terminal (status r)); [exact (cancel_quiet _ _ _ _ _ E2)|by injection E2 as <-]. }
    apply M_bind_Ok in E as ([] & s3 & E3 & E). apply note_undisturbed in E3.
    apply M_bind_Ok in E as ([] & s4 & E4 & E). apply note_undisturbed in E4. injection E as <- _.
    transitivity s2; [done|]. by transitivity s3. }
  split; [|transitivity s1; [done|by apply undisturbed_grown]]. apply (undisturbed_ok None s1); [done|].
  split; [apply Hj|apply Hj| |apply Hj]. intros q c Hq _. rewrite Ht in Hj. destruct (ends_process sig) eqn:Ee.
  - destruct (decide (c = p)) as [->|Hne]; [|apply (lo_live _ _ Hj q c Hq); congruence]. exfalso.
    destruct Hq as (l & Hl & Hs & Hw). destruct (decide (q = p)) as [->|Hne].
    + rewrite (lm_new _ _ _ _ _ Hm) in Hl. injection Hl as <-. by apply (Hc p).
    + rewrite (lm_rest _ _ _ _ _ Hm) in Hl by done. apply (Hwaits eq_refl q). by exists l.
  - by apply (lo_live _ _ Hj q c Hq).
Qed.

(** A takeover scope around a body that keeps the lives in order. *)
Lemma scoped_takeover_good {A} p rev sg token st why nonce rt ra wk oc (body : M LStore A) s s' x :
  (∀ s0 s1 y, undisturbed s s0 → body s0 = (s1, y) → good_step host s0 s1) →
  scoped (trusted_process_execution_takeover p rev sg token st why nonce rt ra wk oc) body s = (s', x) → good_step host s s'.
Proof.
  intros Hbody E. unfold scoped, trusted_process_execution_takeover in E.
  assert (Hsame : ∀ b, b = procs_of s → undisturbed s (set_procs b s)) by (by intros b ->).
  destruct (_ || _); [injection E as <- _; by apply undisturbed_good, Hsame|].
  destruct (negb _); [injection E as <- _; by apply undisturbed_good, Hsame|].
  destruct (takeover (procs_of s)); [injection E as <- _; by apply undisturbed_good, Hsame|].
  match type of E with context [body (set_procs (set_takeover (Some ?i) _) _)] => set (intent := i) in * end.
  set (s0 := set_procs (set_takeover (Some intent) (procs_of s)) s) in *.
  assert (U0 : undisturbed s s0) by apply set_takeover_undisturbed.
  destruct (body s0) as [s1 y] eqn:Eb. pose proof (Hbody _ _ _ U0 Eb) as Hg.
  assert (Hfin : ∀ t f, good_step host s (set_procs (set_takeover t (procs_of s1)) f)).
  { intros t f. transitivity s0; [by apply undisturbed_good|]. transitivity s1; [done|].
    apply undisturbed_good. split; [apply (le_inv _ _ (takeover_le (procs_of s1) t))|done]. }
  destruct y as [a|e]; [|injection E as <- _; apply Hfin].
  destruct (match takeover (procs_of s1) with Some i => _ | None => _ end); injection E as <- _; apply Hfin.
Qed.

Lemma interrupt_good amb p sig reason s s' x :
  interruptible s p sig → interrupt amb p sig reason s = (s', x) → good_step host s s'.
Proof.
  intros Hi E. unfold interrupt in E.
  apply bind_run in E as [(e & Hx & _)|([[st w] o] & s1 & Hx & E)]; injection Hx as <- Htarget; [done|].
  apply bind_run in E as [(e & E & _)|(process & s1 & E1 & E)].
  { eapply get_or_raise_keeps; [apply _|exact E]. }
  apply get_or_raise_Ok in E1 as [-> _].
  apply bind_run in E as [(e & Hx & _)|([] & s1 & Hx & E)]; injection Hx as <- _; [done|].
  apply M_seeing in E as (nonce & _ & E).
  assert (Hscope : ∀ s1 y, interrupt_scope process p sig st nonce (interrupt_unit amb process p sig reason st w o) s = (s1, y) → good_step host s s1).
  { intros s1 y Es. unfold interrupt_scope in Es. destruct (_ && _); [|by eapply interrupt_unit_good].
    destruct (execution_owner_id process), (execution_lease_id process); [|by injection Es as <- _..].
    eapply scoped_takeover_good; [|exact Es]. intros b0 b1 z U Eb.
    eapply interrupt_unit_good; [done|by eapply interruptible_undisturbed|exact Eb]. }
  apply bind_run in E as [(e & E & _)|(r & s1 & E1 & E)]; [by eapply Hscope|].
  transitivity s1; [by eapply Hscope|]. destruct (is_terminal (status r)); [|by injection E as <- _].
  apply bind_run in E as [(e & E & _)|(row & s2 & E2 & E)]; [by eapply retry_good|]. injection E as <- _. by eapply retry_good.
Qed.
End History.
End Interrupt.
