(* ===== verification/LifecycleCleanup.v ===== *)
(** * Terminal cleanup, driven to its end

    What a cleanup that returned has done, and that a cleanup whose ports do
    their work returns, whatever the earlier attempts left behind; then the
    recovery of every cleanup at startup. *)

From S2P Require Import Prelude PyStr PyVal ProcessState ProcessModel ProcessStore ProcessWrites TerminalCleanup ProcessInvariant ProcessProperties ProcessTransition AuthorityRules ResourceTables ResourceManager StoreSteps ProcessLifecycle LifecycleSteps LifecycleHistory.
From stdpp Require Import sorting.

Section Cleanup.
Context {World : Type} `{!LifecycleHost World}.
Implicit Type s : LStore World.

(** ** A cleanup that returns has been done *)

Definition cleaned s (p : string) (row : CleanupRow) : Prop :=
  cleanups (procs_of s) !! p = Some row ∧ cl_state row = "completed".

Lemma note_procs e s s' x : note e s = (s', x) → procs_of s' = procs_of s.
Proof.
  unfold note. intros E. apply bind_run in E as [(y & [= <- _] & _)|(u & s1 & [= <- _] & E)]; [done|].
  unfold in_tables, record, modify in E. by injection E as <- _.
Qed.

Lemma caught_note_procs e s s' x : caught (note e) s = (s', x) → procs_of s' = procs_of s.
Proof. unfold caught. destruct (note e s) as [s1 y] eqn:E. intros [= <- _]. by eapply note_procs. Qed.

Lemma cleanup_state_Ok p s s' row :
  terminal_cleanup_state p s = (s', Ok row) → s' = s ∧ cleanups (procs_of s) !! p = Some row.
Proof.
  unfold terminal_cleanup_state. intros E. apply M_bind_Ok in E as (process & s1 & E1 & E). apply get_or_raise_Ok in E1 as [-> _].
  apply M_bind_Ok in E as ([] & s1 & Hx & E); injection Hx as <- _.
  apply M_bind_Ok in E as (found & s1 & Hx & E). injection Hx as <- Hf. injection E as <- E. apply of_option_Ok in E as ->.
  split; [done|]. by apply get_cleanup_Some.
Qed.

Lemma finish_Ok now p lease b b' row : finish_process_terminal_cleanup now p lease b = (b', Ok (Some row)) →
  cleanups b' !! p = Some row ∧ cl_state row = "completed".
Proof.
  unfold finish_process_terminal_cleanup. intros E. apply (proj1 (sql_transaction_Ok _ _ _ _)) in E.
  apply M_bind_Ok in E as (b0 & b1 & Hx & E). injection Hx as <- <-.
  apply M_bind_Ok in E as (found & b1 & Hx & E). injection Hx as <- Hf. destruct found as [cur|]; [|done].
  destruct (_ || _); [done|]. apply M_bind_Ok in E as (updated & b1 & Hu & E).
  apply update_cleanup_where_Ok in Hu as [[-> ->]|(-> & row0 & Hrow & _ & ->)]; [done|]. cbn [negb] in E.
  apply reread_cleanup_after in E as [-> [= ->]]. by rewrite set_cleanups_insert.
Qed.

Lemma retry_done p actor action stale s s' row :
  retry_terminal_cleanup p actor action stale s = (s', Ok row) → cleaned s' p row.
Proof.
  unfold retry_terminal_cleanup. intros E. apply M_bind_Ok in E as (process & s1 & E1 & E). apply get_or_raise_Ok in E1 as [-> _].
  apply M_bind_Ok in E as ([] & s1 & Hx & E); injection Hx as <- _.
  apply M_bind_Ok in E as (cleanup & s1 & E1 & E). apply cleanup_state_Ok in E1 as [-> Hrow].
  destruct (String.eqb_spec (cl_state cleanup) "completed") as [Hst|_]; [by injection E as <- <-|].
  apply M_bind_Ok in E as (expected & s1 & Hx & E); injection Hx as <- _.
  apply M_bind_Ok in E as (lease & s1 & Hx & E); injection Hx as <- _.
  apply M_bind_Ok in E as (now & s1 & Hx & E); injection Hx as <- _.
  apply M_bind_Ok in E as (claimed & s1 & _ & E). destruct claimed as [claimed|].
  - apply M_bind_Ok in E as (failures & s2 & _ & E). destruct failures as [|[phase first] rest].
    + apply M_bind_Ok in E as (now' & s3 & Hx & E); injection Hx as <- _.
      apply M_bind_Ok in E as (finished & s3 & Ef & E). apply in_store_run in Ef as (b & Ef & ->).
      apply M_bind_Ok in E as (row' & s3 & Hx & E). injection Hx as <- Hx. apply of_option_Ok in Hx as ->.
      apply M_bind_Ok in E as (u & s3 & En & E). injection E as <- <-. apply caught_note_procs in En.
      unfold cleaned. rewrite En, procs_set_procs. by eapply finish_Ok.
    + unfold _raise_terminal_cleanup_failures in E.
      do 4 (apply M_bind_Ok in E as (? & ? & _ & E)). done.
  - apply M_bind_Ok in E as (latest & s2 & E1 & E). apply cleanup_state_Ok in E1 as [-> Hl].
    destruct (String.eqb_spec (cl_state latest) "completed") as [Hst|_]; [by injection E as <- <-|done].
Qed.
(** ** A cleanup whose ports do their work returns *)

(** The port answers and leaves processes and work items alone. *)
Record idle s s' : Prop := {
  idle_procs : processes (procs_of s') = processes (procs_of s);
  idle_items : cleanups (procs_of s') = cleanups (procs_of s);
  idle_inv : store_inv (procs_of s) → store_inv (procs_of s');
}.

#[export] Instance idle_preorder : PreOrder idle.
Proof. split; [by intros s; split|]. intros a b c [P1 I1 V1] [P2 I2 V2]. split; [by rewrite P2|by rewrite I2|by auto]. Qed.

Definition serves (m : M (LStore World) unit) : Prop := ∀ s, ∃ s', m s = (s', Ok tt) ∧ idle s s'.

Record phase_ports (p : string) : Prop := {
  pp_notify : ∀ notify, object_task_terminal_notifier = Some notify → serves (notify p);
  pp_release : ∀ q oids, serves (release_process_owned q oids);
  pp_redact : ∀ process, serves (redact_root_spawn_initial_goal process);
}.

Lemma serves_ret : serves (mret tt).
Proof. intros s. by exists s. Qed.

Lemma serves_then m k : serves m → serves k → serves (_ ← m; k).
Proof.
  intros Hm Hk s. destruct (Hm s) as (s1 & E1 & U1). destruct (Hk s1) as (s2 & E2 & U2). exists s2.
  split; [by rewrite (run_bind _ _ _ _ _ E1)|by transitivity s1].
Qed.

Lemma below_idle s s' p q : processes (procs_of s') = processes (procs_of s) → below s' p q → below s p q.
Proof.
  intros Hp. assert (Hc : ∀ a b, child_of s' a b → child_of s a b).
  { intros a b (l & Hl & Hpar). exists l. unfold lives in *. by rewrite <-Hp. }
  induction 1 as [a b H|a b c H _ IH]; [by apply tc_once, Hc|]. eapply tc_l; [by apply Hc|exact IH].
Qed.

(** The processes and the other items are as before. *)
Record one_item (p : string) s s' : Prop := {
  oi_procs : processes (procs_of s') = processes (procs_of s);
  oi_items : ∀ q, q ≠ p → cleanups (procs_of s') !! q = cleanups (procs_of s) !! q;
  oi_inv : store_inv (procs_of s) → store_inv (procs_of s');
}.

#[export] Instance one_item_preorder p : PreOrder (one_item p).
Proof.
  split; [by intros s; split|]. intros a b c [P1 I1 V1] [P2 I2 V2]. split; [by rewrite P2| |by auto].
  intros q Hq. by rewrite I2, I1.
Qed.

Lemma idle_one p s s' : idle s s' → one_item p s s'.
Proof. intros [P I V]. split; [done|intros q _; by rewrite I|done]. Qed.

Lemma cleanup_one p o s b x : run_cleanup p o (procs_of s) = (b, x) → one_item p s (set_procs b s).
Proof.
  intros E. pose proof (run_cleanup_items _ _ _ _ _ E) as [P V]. split; [done| |done]. intros q Hq. rewrite procs_set_procs.
  apply run_cleanup_refines in E as [[-> _]|(row & row' & _ & _ & _ & -> & _)]; [done|]. cbn. by rewrite lookup_insert_ne.
Qed.

Section Worker.
Variables (p lease : string) (process : AgentProcess).
Hypothesis ports : phase_ports p.

(** The worker holds the item of an ended process that is not below itself. *)
Record working (row : CleanupRow) s : Prop := {
  wo_inv : store_inv (procs_of s);
  wo_tree : ¬ below s p p;
  wo_process : processes (procs_of s) !! p = Some process;
  wo_item : cleanups (procs_of s) !! p = Some row;
  wo_wf : cleanup_wf row;
  wo_state : cl_state row = "running";
  wo_lease : cl_lease_id row = Some lease;
}.

Lemma working_idle row s s' : idle s s' → working row s → working row s'.
Proof.
  intros [Hp Hi Hv] [W1 W2 W3 W4 W5 W6 W7]. split; [by apply Hv| |by rewrite Hp|by rewrite Hi|done|done|done].
  intros H. by apply W2, (below_idle _ _ _ _ Hp).
Qed.

(** Writing the item goes on with the written row. *)
Lemma working_written row row' s b :
  working row s → items_only (procs_of s) b → cleanups b !! p = Some row' → cleanup_wf row' →
  cl_state row' = "running" → cl_lease_id row' = Some lease → working row' (set_procs b s).
Proof.
  intros [W1 W2 W3 W4 W5 W6 W7] [Hp Hv] Hrow Hwf Hst Hl.
  split; rewrite ?procs_set_procs; [by apply Hv| |by rewrite Hp|done|done|done|done].
  intros H. by apply W2, (below_idle _ (set_procs b s)).
Qed.

Lemma release_each_serves preserve l : serves (release_each preserve l).
Proof.
  induction l as [|c l IH]; cbn [release_each]; [apply serves_ret|]. apply serves_then; [apply (pp_release _ ports)|done].
Qed.

Lemma finalize_runs row s : working row s → pid process = p →
  ∃ s', _finalize_terminal_process process (_terminal_preserve_oids process) s = (s', Ok tt) ∧ idle s s'.
Proof.
  intros Hw Hpid. unfold _finalize_terminal_process, _release_terminal_child_memory. rewrite Hpid.
  destruct (terminal_descendants_end s p (wo_inv _ _ Hw) (wo_tree _ _ Hw)) as [l Hl].
  assert (Htree : seeing (fun s => children ← list_child_processes p (tables s);
    terminal_descendants (table_fuel (tables s)) (rev (List.filter (fun c => is_terminal (status c)) children)) (tables s)) s
    = (s, Ok l)).
  { unfold seeing. rewrite (children_Ok s p (wo_inv _ _ Hw)). cbn [mbind res_bind]. by rewrite Hl. }
  destruct (release_each_serves (_terminal_preserve_oids process) (rev l) s) as (s1 & E1 & U1).
  rewrite (run_bind _ _ s s1 tt); [|by rewrite (run_bind _ _ _ _ _ Htree)].
  destruct (parent_pid process); [by exists s1|].
  destruct (serves_then _ _ (pp_release _ ports p (_terminal_preserve_oids process)) (pp_redact _ ports process) s1)
    as (s2 & E2 & U2). exists s2. split; [exact E2|by transitivity s1].
Qed.

Lemma get_or_raise_row row s : working row s → get_or_raise p s = (s, Ok process).
Proof.
  intros Hw. unfold get_or_raise, get_proc, in_store, in_tables, on_base. unfold mbind at 1, M_bind at 1.
  change (base (tables s)) with (procs_of s). rewrite (get_process_run p _ (wo_inv _ _ Hw)), (wo_process _ _ Hw).
  unfold set_tables, set_base, procs_of. by destruct s as [[] ?].
Qed.

(** A phase that has not been lost is recorded. *)
Lemma phase_runs row s phase : working row s → phase ∈ CLEANUP_PHASES →
  ∃ s' row', run_phase p lease phase s = (s', Ok row') ∧ working row' s'
    ∧ phase ∈ cl_completed_phases row' ∧ cl_completed_phases row ⊆ cl_completed_phases row' ∧ one_item p s s'.
Proof.
  intros Hw Hph. unfold run_phase. rewrite (run_bind _ _ _ _ _ (get_or_raise_row row s Hw)).
  assert (∃ s1, (if String.eqb phase "terminal_notify" then _notify_object_task_process_terminal p
     else _finalize_terminal_process process (_terminal_preserve_oids process)) s = (s1, Ok tt) ∧ idle s s1) as (s1 & E1 & U1).
  { destruct (String.eqb phase _).
    - unfold _notify_object_task_process_terminal. destruct object_task_terminal_notifier eqn:E; [|apply serves_ret].
      by apply (pp_notify _ ports).
    - apply (finalize_runs row); [done|]. by apply (stored_row_decodes _ _ _ (wo_inv _ _ Hw) (wo_process _ _ Hw)). }
  rewrite (run_bind _ _ _ _ _ E1). pose proof (working_idle _ _ _ U1 Hw) as Hw1.
  destruct (complete_succeeds p (procs_of s1) row (life_now s1) lease phase) as (b & row' & Eb & Hrow & Hwf & Hst & Hl & Hin & Hsub);
    [apply Hw1|apply Hw1|apply Hw1|apply Hw1|done|].
  exists (set_procs b s1), row'. split; [|split; [|split; [done|split; [done|]]]].
  3:{ transitivity s1; [by apply idle_one|by eapply cleanup_one]. }
  - unfold mbind at 1, M_bind at 1, seeing at 1. cbn in Eb.
    assert (Ei : in_store (complete_process_terminal_cleanup_phase (life_now s1) p lease phase) s1 = (set_procs b s1, Ok (Some row'))).
    { unfold in_store, in_tables, on_base. change (base (tables s1)) with (procs_of s1). by rewrite Eb. }
    by rewrite (run_bind _ _ _ _ _ Ei).
  - eapply working_written; [exact Hw1| |done..]. by apply run_cleanup_items in Eb.
Qed.

(** All phases that are left are recorded. *)
Lemma phases_run row s completed : working row s → completed ⊆ cl_completed_phases row →
  ∃ s' row', run_phases p lease completed CLEANUP_PHASES s = (s', Ok []) ∧ working row' s'
    ∧ cl_completed_phases row' = CLEANUP_PHASES ∧ one_item p s s'.
Proof.
  intros Hw Hc.
  assert (Hall : ∀ phases row s, working row s → completed ⊆ cl_completed_phases row → phases ⊆ CLEANUP_PHASES →
    ∃ s' row', run_phases p lease completed phases s = (s', Ok []) ∧ working row' s' ∧ phases ⊆ cl_completed_phases row'
      ∧ cl_completed_phases row ⊆ cl_completed_phases row' ∧ one_item p s s').
  { clear row s Hw Hc. induction phases as [|phase rest IH]; intros row s Hw Hc Hsub; cbn [run_phases].
    { exists s, row. split_and!; [done|done|by intros x Hx; apply elem_of_nil in Hx|done|done]. }
    destruct (in_phases completed phase) eqn:Ein.
    - apply bool_decide_eq_true in Ein. destruct (IH row s Hw Hc ltac:(set_solver)) as (s' & row' & E & W & S1 & S2 & O).
      exists s', row'. split_and!; [done|done| |done|done]. intros x [->|Hx]%elem_of_cons; [by apply S2, Hc|by apply S1].
    - destruct (phase_runs row s phase Hw ltac:(set_solver)) as (s1 & row1 & E1 & W1 & P1 & S1 & O1).
      assert (Ec : caught (run_phase p lease phase) s = (s1, Ok (Ok row1))) by (unfold caught; by rewrite E1).
      destruct (IH row1 s1 W1 ltac:(set_solver) ltac:(set_solver)) as (s2 & row2 & E2 & W2 & P2 & S2 & O2).
      exists s2, row2. rewrite (run_bind _ _ _ _ _ Ec), (run_bind _ _ _ _ _ E2). split_and!; [done|done| |set_solver|by transitivity s1].
      intros x [->|Hx]%elem_of_cons; [by apply S2|by apply P2]. }
  destruct (Hall CLEANUP_PHASES row s Hw Hc ltac:(done)) as (s' & row' & E & W & S1 & _ & O). exists s', row'.
  split_and!; [done|done| |done]. apply both_phases; [apply W|apply S1; by left|apply S1; by right; left].
Qed.
End Worker.

(** What the claim of a work item presents, when it may. *)
Definition claimable (stale : bool) (row : CleanupRow) : Prop :=
  cl_state row = "running" → stale = true ∨ cl_owner_id row = Some owner_instance_id.

Lemma expected_lease stale row : cleanup_wf row → cl_state row ≠ "completed" → claimable stale row →
  expected_cleanup_lease row stale = Ok (cl_lease_id row).
Proof.
  intros (_ & _ & Hst) Hne Hcl. unfold expected_cleanup_lease. destruct (String.eqb_spec (cl_state row) "running") as [Hr|Hr].
  - cbn [negb]. destruct (Hcl Hr) as [->| ->]; [done|]. rewrite bool_decide_true by done. by rewrite andb_false_r.
  - destruct Hst as [(H & -> & _)|[[H _]|[(H & -> & _)|[H _]]]]; done.
Qed.
(** A claimed item is worked off. *)
Lemma cleanup_claim_run p process row s lease expected actor : store_inv (procs_of s) → ¬ below s p p →
  processes (procs_of s) !! p = Some process → cleanups (procs_of s) !! p = Some row → cleanup_wf row →
  cl_state row ≠ "completed" → expected = cl_lease_id row → owner_instance_id ≠ "" → lease ≠ "" →
  ∃ b row', claim_process_terminal_cleanup actor p owner_instance_id lease expected (procs_of s) = (b, Ok (Some row'))
    ∧ working p lease process row' (set_procs b s) ∧ one_item p s (set_procs b s).
Proof.
  intros Hinv Htree Hp Hrow Hwf Hst -> Ho Hl.
  pose proof (claim_succeeds p (procs_of s) row actor owner_instance_id lease Hrow Hwf Hst Ho Hl) as E. cbv zeta in E.
  match type of E with _ = (?b, Ok (Some ?r)) => set (b' := b) in *; set (row' := r) in * end.
  exists b', row'. split; [exact E|]. pose proof (run_cleanup_items _ _ _ _ _ E) as [Hps Hi].
  split; [|by eapply cleanup_one].
  split; rewrite ?procs_set_procs; [by apply Hi| |by rewrite Hps|apply set_cleanups_insert| |done|done].
  - intros H. by apply Htree, (below_idle s (set_procs b' s)).
  - eapply cleanup_step_wf; [exact Hwf|by constructor].
Qed.

Lemma in_store_Ok {A} (m : M Store A) s b (a : A) : m (procs_of s) = (b, Ok a) → in_store m s = (set_procs b s, Ok a).
Proof. intros E. unfold in_store, in_tables, on_base. change (base (tables s)) with (procs_of s). by rewrite E. Qed.

Lemma cleanup_state_run p process row s : store_inv (procs_of s) → processes (procs_of s) !! p = Some process →
  is_terminal (status process) = true → cleanups (procs_of s) !! p = Some row → cleanup_wf row →
  terminal_cleanup_state p s = (s, Ok row) ∧ get_or_raise p s = (s, Ok process).
Proof.
  intros Hinv Hp Ht Hrow Hwf. assert (Eg : get_or_raise p s = (s, Ok process)).
  { unfold get_or_raise, get_proc. rewrite (run_bind _ _ s s (Some process)); [done|].
    rewrite (in_store_Ok _ _ (procs_of s) (Some process)); [|by rewrite get_process_run, Hp].
    unfold set_procs, set_tables, set_base, procs_of. by destruct s as [[] ?]. }
  split; [|done]. unfold terminal_cleanup_state. rewrite (run_bind _ _ _ _ _ Eg), Ht.
  unfold seeing, get_process_terminal_cleanup. cbn [negb raise_if]. unfold mbind, M_bind, lift_res. rewrite Hrow.
  cbn [mbind res_bind]. by rewrite from_row_ok.
Qed.

Lemma caught_returns {A} (m : M (LStore World) A) s : ∃ s' x, caught m s = (s', Ok x).
Proof. unfold caught. destruct (m s) as [s' x]. eauto. Qed.

(** A run that goes on from an answered read. *)
Lemma seeing_run {A B} (f : LStore World → A) (k : A → M (LStore World) B) s :
  (seeing (fun s => Ok (f s)) ≫= k) s = k (f s) s.
Proof. done. Qed.

Lemma retry_runs p process row s actor action stale :
  store_inv (procs_of s) → ¬ below s p p → phase_ports p →
  processes (procs_of s) !! p = Some process → is_terminal (status process) = true →
  cleanups (procs_of s) !! p = Some row → cleanup_wf row → claimable stale row →
  owner_instance_id ≠ "" → life_new_id "process_cleanup_lease" s ≠ "" →
  ∃ s' row', retry_terminal_cleanup p actor action stale s = (s', Ok row') ∧ one_item p s s'.
Proof.
  intros Hinv Htree Hports Hp Ht Hrow Hwf Hcl Ho Hlease.
  destruct (cleanup_state_run p process row s Hinv Hp Ht Hrow Hwf) as [Es Eg].
  unfold retry_terminal_cleanup. rewrite (run_bind _ _ _ _ _ Eg), Ht. cbn [negb raise_if].
  rewrite (lift_ok_bind _ _ tt) by done. rewrite (run_bind _ _ _ _ _ Es).
  destruct (String.eqb_spec (cl_state row) "completed") as [|Hst]; [by exists s, row|].
  rewrite (lift_ok_bind _ _ _ _ (expected_lease stale row Hwf Hst Hcl)), !seeing_run.
  destruct (cleanup_claim_run p process row s (life_new_id "process_cleanup_lease" s) (cl_lease_id row) (life_now s))
    as (b & row1 & Ec & W1 & O1); try done.
  rewrite (run_bind _ _ _ _ _ (in_store_Ok _ _ _ _ Ec)).
  destruct (phases_run p _ process Hports row1 _ (cl_completed_phases row1) W1 ltac:(done)) as (s2 & row2 & E2 & W2 & Hall & O2).
  rewrite (run_bind _ _ _ _ _ E2), seeing_run.
  pose proof (finish_succeeds p (procs_of s2) row2 (life_now s2) _ (wo_item _ _ _ _ _ W2) (wo_wf _ _ _ _ _ W2)
    (proj2 (running_lease_spec _ _) (conj (wo_state _ _ _ _ _ W2) (wo_lease _ _ _ _ _ W2))) Hall) as Ef.
  cbv zeta in Ef. pose proof (cleanup_one _ _ _ _ _ Ef) as O3. cbn [run_cleanup] in Ef. rewrite (run_bind _ _ _ _ _ (in_store_Ok _ _ _ _ Ef)).
  cbn [of_option]. rewrite (lift_ok_bind (Ok _) _ _ _ eq_refl). match goal with |- context [(caught ?m ≫= _) ?t] => destruct (caught_returns m t) as (s3 & x & E3) end.
  rewrite (run_bind _ _ _ _ _ E3). do 2 eexists. split; [reflexivity|]. apply caught_note_procs in E3.
  transitivity (set_procs b s); [done|]. transitivity s2; [done|]. etrans; [exact O3|]. split; by rewrite E3.
Qed.
End Cleanup.

(** ** Startup recovery of terminal cleanups

    The items that are not completed, in keyset pages that are read while the
    items before them are being completed: the loop ends, and completes them
    all. *)

Section Recovery.
Context {World : Type} `{!LifecycleHost World}.
Implicit Type s : LStore World.

(** ** Items in order *)

Definition items_after (after : option (string * string)) s : list (string * CleanupRow) :=
  merge_sort cleanup_le (List.filter (incomplete_after after) (map_to_list (cleanups (procs_of s)))).

Lemma items_after_elem after s kv :
  kv ∈ items_after after s ↔ incomplete_after after kv = true ∧ cleanups (procs_of s) !! fst kv = Some (snd kv).
Proof.
  unfold items_after. rewrite (merge_sort_Permutation _ _), list_elem_of_In, filter_In, <-list_elem_of_In.
  destruct kv as [p row]. rewrite elem_of_map_to_list. cbn. tauto.
Qed.

Lemma items_after_pids after s : NoDup (map fst (items_after after s)).
Proof. unfold items_after. rewrite (merge_sort_Permutation _ _). apply filter_distinct, NoDup_fst_map_to_list. Qed.

Lemma items_after_strict after s : StronglySorted (dated_lt cleanup_key) (items_after after s).
Proof.
  apply dated_sorted_strict; [|apply StronglySorted_merge_sort; apply _].
  eapply (NoDup_fmap_1 snd). rewrite <-list_fmap_compose. exact (items_after_pids after s).
Qed.

Lemma items_after_length after s : length (items_after after s) ≤ size (cleanups (procs_of s)).
Proof.
  unfold items_after. rewrite (merge_sort_Permutation _ _). etrans; [apply filter_length_le|]. by rewrite length_map_to_list.
Qed.

(** ** One item *)

(** What recovery needs of the tables, the host and the ports. *)
Record recoverable s : Prop := {
  rc_inv : store_inv (procs_of s);
  rc_tree : ∀ p, ¬ below s p p;
  rc_items : ∀ p row, cleanups (procs_of s) !! p = Some row → cl_state row ≠ "completed" →
    cleanup_wf row ∧ ∃ process, processes (procs_of s) !! p = Some process ∧ is_terminal (status process) = true;
}.

Record recovery_host : Prop := {
  rh_ports : ∀ p, phase_ports (World := World) p;
  rh_owner : owner_instance_id ≠ "";
  rh_lease : ∀ s, life_new_id "process_cleanup_lease" s ≠ "";
}.

(** Items are completed, and nothing else of the tables changes. *)
Record completes (pids : list string) s s' : Prop := {
  co_procs : processes (procs_of s') = processes (procs_of s);
  co_rest : ∀ q, q ∉ pids → cleanups (procs_of s') !! q = cleanups (procs_of s) !! q;
  co_done : ∀ q, q ∈ pids → ∃ row, cleaned s' q row;
  co_inv : store_inv (procs_of s) → store_inv (procs_of s');
}.

Lemma completes_recoverable pids s s' : completes pids s s' → recoverable s → recoverable s'.
Proof.
  intros [P R D V] [I T Hi]. split; [by apply V| |].
  - intros p Hp. by apply (T p), (below_idle s s').
  - intros p row Hp Hst. destruct (decide (p ∈ pids)) as [Hin|Hout].
    + destruct (D p Hin) as (row' & Hr & Hs). rewrite Hp in Hr. injection Hr as <-. done.
    + rewrite R in Hp by done. rewrite P. by apply Hi.
Qed.

Lemma completes_nil s : completes [] s s.
Proof. split; [done|done|intros q Hq; by apply elem_of_nil in Hq|done]. Qed.

(** The items of a list are taken once each. *)
Lemma completes_app ps qs s s1 s2 : (∀ q, q ∈ ps → q ∉ qs) →
  completes ps s s1 → completes qs s1 s2 → completes (ps ++ qs) s s2.
Proof.
  intros Hdis [P1 R1 D1 V1] [P2 R2 D2 V2]. split; [by rewrite P2| | |by auto].
  - intros q Hq. rewrite elem_of_app in Hq. rewrite R2, R1; [done|tauto|tauto].
  - intros q [Hq|Hq]%elem_of_app; [|by apply D2]. destruct (D1 q Hq) as (row & Hr & Hs). exists row. split; [|done].
    by rewrite R2 by auto.
Qed.

Context (Hhost : recovery_host) (sample : nat).

Definition counted (acc : CleanupRecovery) : Z * Z * Z := (cr_pending acc, cr_recovered_count acc, cr_failure_count acc).

Definition counted_more (n : nat) (acc acc' : CleanupRecovery) : Prop :=
  counted acc' = ((cr_pending acc + Z.of_nat n)%Z, (cr_recovered_count acc + Z.of_nat n)%Z, cr_failure_count acc).

Lemma counted_more_add n m a b c : counted_more n a b → counted_more m b c → counted_more (n + m) a c.
Proof. unfold counted_more, counted. intros [= H1 H2 H3] ->. rewrite H1, H2, H3. f_equal; f_equal; lia. Qed.

Lemma recover_one_runs acc kv s : recoverable s →
  cleanups (procs_of s) !! fst kv = Some (snd kv) → cl_state (snd kv) ≠ "completed" →
  ∃ s' acc', recover_one sample acc kv s = (s', Ok acc') ∧ completes [fst kv] s s' ∧ counted_more 1 acc acc'.
Proof.
  intros Hr Hrow Hst. destruct (rc_items _ Hr _ _ Hrow Hst) as (Hwf & process & Hp & Ht).
  destruct (retry_runs (fst kv) process (snd kv) s "runtime.recovery" None true) as (s' & row' & E & O);
    [apply Hr|apply Hr|apply Hhost|done|done|done|done|by left|apply Hhost|apply Hhost|].
  pose proof (retry_done _ _ _ _ _ _ _ E) as Hc. unfold recover_one.
  assert (Ec : caught (retry_terminal_cleanup (fst kv) "runtime.recovery" None true) s = (s', Ok (Ok row'))) by (unfold caught; by rewrite E).
  rewrite (run_bind _ _ _ _ _ Ec). rewrite (proj2 Hc). cbn [String.eqb]. do 2 eexists. split; [reflexivity|]. split; [|done].
  destruct O as [P R V]. split; [done| | |done].
  - intros q Hq. apply R. intros ->. apply Hq. by left.
  - intros q ->%list_elem_of_singleton. by exists row'.
Qed.

Lemma recover_page_runs page acc s : recoverable s → NoDup (map fst page) →
  (∀ kv, kv ∈ page → cleanups (procs_of s) !! fst kv = Some (snd kv) ∧ cl_state (snd kv) ≠ "completed") →
  ∃ s' acc', recover_page sample acc page s = (s', Ok acc') ∧ completes (map fst page) s s' ∧ counted_more (length page) acc acc'.
Proof.
  revert acc s. induction page as [|kv page IH]; intros acc s Hr Hnd Hall; cbn [recover_page].
  - exists s, acc. split; [done|]. split; [apply completes_nil|]. unfold counted_more, counted. cbn. by rewrite !Z.add_0_r.
  - cbn in Hnd. apply NoDup_cons in Hnd as [Hni Hnd]. destruct (Hall kv ltac:(by left)) as [Hrow Hst].
    destruct (recover_one_runs acc kv s Hr Hrow Hst) as (s1 & acc1 & E1 & C1 & N1).
    destruct (IH acc1 s1) as (s2 & acc2 & E2 & C2 & N2); [by eapply completes_recoverable|done| |].
    { intros kv' Hin. rewrite (co_rest _ _ _ C1); [apply Hall; by right|]. intros Heq%list_elem_of_singleton.
      apply Hni. rewrite <-Heq. by apply list_elem_of_fmap_2. }
    exists s2, acc2. split; [by rewrite (run_bind _ _ _ _ _ E1)|]. split; [|by apply (counted_more_add 1 (length page) _ acc1)].
    apply (completes_app [fst kv] (map fst page) s s1 s2); [|done|done]. by intros q ->%list_elem_of_singleton.
Qed.
(** ** The pages *)

Lemma decode_items after s n : recoverable s →
  mapR (fun kv => row ← _process_terminal_cleanup_from_row (snd kv); Ok (fst kv, row)) (take n (items_after after s))
  = Ok (take n (items_after after s)).
Proof.
  intros Hr. apply mapR_id. rewrite Forall_forall. intros [p row] Hin%elem_of_take. destruct Hin as (k & Hin & _).
  apply list_elem_of_lookup_2, items_after_elem in Hin as [Hinc Hrow]. cbn in *. apply andb_true_iff in Hinc as [Hst _].
  destruct (rc_items _ Hr p row Hrow) as [Hwf _]; [by apply negb_true_iff, String.eqb_neq in Hst|]. by rewrite from_row_ok.
Qed.

Context (Hpage : 0 < cleanup_page_size) (Hlimit : cleanup_page_size ≤ cleanup_page_hard_limit).

Lemma page_run after s : recoverable s →
  list_process_terminal_cleanups after cleanup_page_size s = Ok (take cleanup_page_size (items_after after s)).
Proof using Hpage Hlimit.
  intros Hr. unfold list_process_terminal_cleanups.
  replace (cleanup_page_size =? 0) with false by (symmetry; apply Nat.eqb_neq; lia).
  replace (cleanup_page_hard_limit <? cleanup_page_size) with false by (symmetry; apply Nat.ltb_ge; lia).
  by apply decode_items.
Qed.

(** After a page is done, the items beyond its last key are the rest. *)
Lemma items_beyond after s s1 n kv : list.last (take n (items_after after s)) = Some kv →
  completes (map fst (take n (items_after after s))) s s1 →
  items_after (Some (cleanup_key kv)) s1 = drop n (items_after after s).
Proof.
  intros Hlast C. pose proof (items_after_strict after s) as Hstrict. apply (dated_strict_ext cleanup_key).
  { apply items_after_strict. }
  { pose proof (take_drop n (items_after after s)) as Hs. rewrite <-Hs in Hstrict. by apply dated_app_inv in Hstrict as (_ & ? & _). }
  assert (Hkv : kv ∈ items_after after s).
  { apply last_Some_elem_of, elem_of_take in Hlast as (k & Hin & _). by apply list_elem_of_lookup_2 in Hin. }
  intros x. rewrite <-(dated_beyond_last cleanup_key n _ _ _ Hstrict Hlast), items_after_elem. unfold dated_lt. split.
  - intros [[Hst Hlt]%andb_true_iff Hrow]. split; [|done]. apply items_after_elem. split.
    + apply andb_true_iff. split; [done|]. apply items_after_elem in Hkv as [[_ Hafter]%andb_true_iff _].
      destruct after as [c|]; [|done]. by eapply dated_trans.
    + destruct (decide (fst x ∈ map fst (take n (items_after after s)))) as [Hin|Hout]; [|by rewrite (co_rest _ _ _ C) in Hrow].
      destruct (co_done _ _ _ C _ Hin) as (row & Hr & Hc). rewrite Hrow in Hr. injection Hr as <-.
      rewrite Hc in Hst. discriminate Hst.
  - intros [Hin Hlt]. pose proof Hin as Hx. apply items_after_elem in Hin as [[Hst _]%andb_true_iff Hrow].
    split; [apply andb_true_iff; by split|]. rewrite (co_rest _ _ _ C); [done|].
    assert (Hd : x ∈ drop n (items_after after s)) by (by apply (dated_beyond_last cleanup_key n _ _ _ Hstrict Hlast)).
    pose proof (items_after_pids after s) as Hnd. rewrite <-(take_drop n (items_after after s)), map_app in Hnd.
    apply list.NoDup_app in Hnd as (_ & Hdis & _). intros Hp. apply (Hdis _ Hp). by apply list_elem_of_fmap_2.
Qed.

Context (Hsample : sample = cleanup_page_size).

Lemma cleanup_pages_run fuel after acc s : recoverable s → length (items_after after s) < fuel →
  ∃ s' acc', recover_cleanup_pages fuel after acc s = (s', Ok acc')
    ∧ completes (map fst (items_after after s)) s s' ∧ counted_more (length (items_after after s)) acc acc'.
Proof using Hpage Hlimit Hsample Hhost.
  revert after acc s. induction fuel as [|fuel IH]; intros after acc s Hr Hlen; [lia|]. cbn [recover_cleanup_pages].
  assert (Eread : seeing (list_process_terminal_cleanups after cleanup_page_size) s = (s, Ok (take cleanup_page_size (items_after after s))))
    by (unfold seeing; by rewrite page_run).
  rewrite (run_bind _ _ _ _ _ Eread). set (rows := items_after after s) in *. set (page := take cleanup_page_size rows) in *.
  destruct (list.last page) as [kv|] eqn:Hlast.
  2:{ apply last_None in Hlast. assert (rows = []) as ->.
      { destruct rows as [|x rows]; [done|]. unfold page in Hlast. destruct cleanup_page_size; [lia|done]. }
      exists s, acc. split; [done|]. split; [apply completes_nil|]. unfold counted_more, counted. cbn. by rewrite !Z.add_0_r. }
  assert (Hin : ∀ x, x ∈ page → x ∈ rows).
  { intros x (k & Hx & _)%elem_of_take. by apply list_elem_of_lookup_2 in Hx. }
  destruct (recover_page_runs page acc s Hr) as (s1 & acc1 & E1 & C1 & N1).
  { pose proof (items_after_pids after s) as Hnd. fold rows in Hnd. rewrite <-(take_drop cleanup_page_size rows), map_app in Hnd.
    by apply list.NoDup_app in Hnd as (Hnd & _ & _). }
  { intros x Hx%Hin. apply items_after_elem in Hx as [[Hst _]%andb_true_iff Hrow]. split; [done|].
    by apply negb_true_iff, String.eqb_neq in Hst. }
  rewrite Hsample in E1. rewrite (run_bind _ _ _ _ _ E1). rewrite (lift_ok_bind _ _ tt).
  2:{ assert (Hkv : kv ∈ rows) by (by apply Hin, last_Some_elem_of). apply items_after_elem in Hkv as [[_ Hkv]%andb_true_iff _].
      destruct after as [c|]; [|done]. by rewrite Hkv. }
  pose proof (take_drop cleanup_page_size rows) as Hsplit. fold page in Hsplit.
  destruct (Nat.ltb_spec (length page) cleanup_page_size) as [Hlt|Hge].
  - assert (page = rows) as Hall by (unfold page; apply take_ge; unfold page in Hlt; rewrite length_take in Hlt; lia).
    exists s1, acc1. rewrite Hall in C1, N1. done.
  - assert (Hrest : items_after (Some (cleanup_key kv)) s1 = drop cleanup_page_size rows) by (by apply items_beyond).
    assert (Hlen' : length rows = length page + length (drop cleanup_page_size rows)) by (by rewrite <-length_app, Hsplit).
    destruct (IH (Some (cleanup_key kv)) acc1 s1) as (s2 & acc2 & E2 & C2 & N2);
      [by eapply completes_recoverable|rewrite Hrest; lia|]. rewrite Hrest in C2, N2. exists s2, acc2. split; [done|]. split.
    + rewrite <-Hsplit, map_app. apply (completes_app _ _ s s1 s2); [|done|done].
      pose proof (items_after_pids after s) as Hnd. fold rows in Hnd. rewrite <-Hsplit, map_app in Hnd. by apply list.NoDup_app in Hnd as (_ & ? & _).
    + rewrite Hlen'. by eapply counted_more_add.
Qed.
End Recovery.
