(* ===== verification/LifecycleProperties.v ===== *)
(** * What the process manager promises

    No wakeup of a waiting parent is lost; the Host's pause holds until the Host
    lifts it; an exit leaves nothing running below it; a terminal cleanup that
    can be done is done; and the signals a running Task-Run process ignores. *)

From S2P Require Import Prelude PyStr PyVal ProcessState ProcessModel ProcessStore ProcessWrites TerminalCleanup ProcessInvariant ProcessProperties ProcessTransition AuthorityRules ResourceTables ResourceManager ResourceKill StoreSteps ProcessLifecycle LifecycleSteps LifecycleHistory HumanInterrupt LifecycleCleanup.
From stdpp Require Import sorting.

Section Properties.
Context {World : Type} `{!LifecycleHost World} `{!HumanRequests World} `{!LifecycleLaws World}.
Implicit Type s : LStore World.

(** ** Histories *)

(** An operation of the process manager, an interrupt by the human manager
    where it does no harm, or a step that changes no life.  With [host] unset,
    nobody sends the Host's own resume. *)
Inductive life_step (host : bool) s : LStore World → Prop :=
| step_wait amb p child timeout : life_step host s (fst (wait amb p child timeout s))
| step_children p all : life_step host s (fst (list_children p all s))
| step_signal_child amb p child sig reason : life_step host s (fst (signal_child amb p child sig reason s))
| step_signal amb target sig payload rhr : (sig = RESUME → host = true) →
    life_step host s (fst (signal amb target sig payload rhr s))
| step_exit amb p result failed message payload :
    life_step host s (fst (exit amb p result failed message payload s))
| step_retry p actor action stale : life_step host s (fst (retry_terminal_cleanup p actor action stale s))
| step_recover fuel : life_step host s (fst (recover_terminal_cleanups fuel s))
| step_chdir amb p path : life_step host s (fst (set_working_directory amb p path s))
| step_validated_chdir amb p path : life_step host s (fst (set_validated_working_directory amb p path s))
| step_interrupt amb p sig reason : interruptible host s p sig →
    life_step host s (fst (interrupt amb p sig reason s))
| step_quiet s' : undisturbed s s' → life_step host s s'.

Lemma life_step_good host s s' : life_step host s s' → good_step host s s'.
Proof.
  assert (Hfst : ∀ A (m : M (LStore World) A), keeps (good_step host) m → good_step host s (fst (m s))).
  { intros A m Hm. destruct (m s) as [s1 x] eqn:E. exact (Hm _ _ _ E). }
  intros []; lazymatch goal with Hi : interruptible _ _ _ _ |- _ => idtac | _ => try apply Hfst end.
  - apply wait_good.
  - apply list_children_good.
  - apply signal_child_good.
  - by apply signal_good.
  - apply exit_good.
  - apply retry_good.
  - apply recover_good.
  - apply set_directory_good.
  - apply set_validated_good.
  - match goal with |- good_step _ _ (fst ?x) => destruct x as [s1 y] eqn:E end. by eapply interrupt_good.
  - by apply undisturbed_good.
Qed.

Lemma life_history_good host s s' : rtc (life_step host) s s' → good_step host s s'.
Proof. induction 1 as [|a b c Hab _ IH]; [reflexivity|]. transitivity b; [by apply life_step_good|done]. Qed.

(** Where every history starts: no process waits for another. *)
Record unwaited s : Prop := {
  fr_inv : store_inv (procs_of s);
  fr_waits : ∀ p c, ¬ waits_for s p c;
  fr_pids : ∀ p, is_Some (lives s p) → strip p = p;
}.

Lemma unwaited_ok s : unwaited s → life_ok s.
Proof. intros [I W S]. split; [done| | |done]; intros p c Hw; by destruct (W p c). Qed.

(** (C19) No wakeup of a waiting parent is lost.  Over any history of waits,
    signals from parents and from the Host, exits, cleanups, human interrupts
    that end no process somebody waits for, and steps that change no life, a
    process that waits for a child waits for one of its own that has not ended:
    whoever ends a child has woken its parent.  A human interrupt that ends an
    awaited child is left out because it wakes nobody
    ([LifecycleSamples.interrupt_strands_parent]). *)
Theorem no_lost_child_wakeup host s s' p c :
  unwaited s → rtc (life_step host) s s' → waits_for s' p c → child_of s' p c ∧ ¬ ended s' c.
Proof.
  intros Hs Hsteps Hw. destruct (life_history_good _ _ _ Hsteps (unwaited_ok _ Hs)) as [Hok _].
  split; [by apply (lo_child _ _ Hok)|by apply (lo_live _ _ Hok p c)].
Qed.

(** Parked until the Host says otherwise. *)
Definition host_parked s (p : string) : Prop := ∃ l, lives s p = Some l ∧ is_gated l = true.

(** (C20) The process manager holds the Host's pause.  A process that the Host
    has parked stays parked, or ends, over any history of the manager's own
    operations without a Host's resume, of human interrupts that end their
    process or do not aim at a parked one, and of steps that change no life: no
    parent's signal, no wait, no exit of another process and no cleanup makes it
    run again.  A human interrupt that pauses or resumes a parked process is
    left out because it lifts the Host's pause
    ([LifecycleSamples.interrupt_lifts_host_pause]). *)
Theorem host_pause_holds s s' p :
  life_ok s → rtc (life_step false) s s' → host_parked s p → host_parked s' p ∨ ended s' p.
Proof.
  intros Hok Hsteps (l & Hl & Hg). destruct (life_history_good _ _ _ Hsteps Hok) as [_ G]. specialize (G p).
  rewrite Hl in G. inversion G as [l0 l' (_ & _ & Hgate) E0 E|]. symmetry in E.
  destruct (Hgate eq_refl Hg) as [H|H]; [left|right]; by exists l'.
Qed.
(** ** Cleanup *)

(** A terminal cleanup that can be done is done, whatever the earlier attempts
    have left: a pending or failed item, one with phases recorded, one whose
    runtime has died, which only recovery may take over. *)
Theorem terminal_cleanup_converges p process row s actor action stale :
  store_inv (procs_of s) → ¬ below s p p → phase_ports p →
  processes (procs_of s) !! p = Some process → is_terminal (status process) = true →
  cleanups (procs_of s) !! p = Some row → cleanup_wf row → claimable stale row →
  owner_instance_id ≠ "" → life_new_id "process_cleanup_lease" s ≠ "" →
  ∃ s' row', retry_terminal_cleanup p actor action stale s = (s', Ok row') ∧ cleaned s' p row'.
Proof.
  intros. destruct (retry_runs p process row s actor action stale) as (s' & row' & E & _); try assumption.
  exists s', row'. split; [exact E|by eapply retry_done].
Qed.
(** (C22) Startup recovery leaves no cleanup undone.  It reads the items that are
    not completed in keyset pages, while it completes the very rows it pages
    over, whatever state an earlier runtime left them in.  When the processes of
    those items have ended, no process is below itself and the ports of the
    phases answer, it returns with one page of fuel for each item, every item of
    the table is completed afterwards, and it reports each of them once and no
    failure. *)
Theorem recovery_completes fuel s :
  recoverable s → recovery_host (World := World) → recovery_lease (World := World) = Ok tt →
  0 < cleanup_page_size ≤ cleanup_page_hard_limit → size (cleanups (procs_of s)) < fuel →
  let pending := items_after None s in
  ∃ s' report, recover_terminal_cleanups fuel s = (s', Ok report)
    ∧ (∀ p row, cleanups (procs_of s) !! p = Some row → ∃ row', cleaned s' p row')
    ∧ processes (procs_of s') = processes (procs_of s)
    ∧ cr_pending report = Z.of_nat (length pending) ∧ cr_recovered_count report = Z.of_nat (length pending)
    ∧ cr_failure_count report = 0%Z.
Proof.
  intros Hr Hh Hl [Hpage Hlimit] Hfuel pending. pose proof (items_after_length None s) as Hlen.
  destruct (cleanup_pages_run Hh cleanup_page_size Hpage Hlimit eq_refl fuel None no_recovery s Hr) as (s' & report & E & C & N);
    [lia|]. fold pending in C, N. unfold counted_more, counted in N. injection N as N1 N2 N3. cbn in N1, N2, N3.
  exists s', report. split_and!; [|clear E|by apply C|lia|lia|done].
  - unfold recover_terminal_cleanups. by rewrite (lift_ok_bind _ _ tt).
  - intros p row Hrow. destruct (decide (p ∈ map fst pending)) as [Hin|Hout]; [by apply (co_done _ _ _ C)|].
    exists row. split; [by rewrite (co_rest _ _ _ C)|]. destruct (decide (cl_state row = "completed")) as [|Hst]; [done|].
    exfalso. apply Hout. apply (list_elem_of_fmap_2 fst pending (p, row)), items_after_elem. split; [|done].
    unfold incomplete_after. cbn. by rewrite (proj2 (String.eqb_neq _ _) Hst).
Qed.

(** ** Exit *)

Lemma grown_ended host s s' p : grown host s s' → ended s p → ended s' p.
Proof.
  intros G (l & Hl & Ht). specialize (G p). rewrite Hl in G. inversion G as [l0 l' (_ & Hs & _) E0 E|]. symmetry in E.
  exists l'. split; [done|]. by rewrite Hs.
Qed.

Lemma grown_child host s s' p c : grown host s s' → child_of s' p c ↔ child_of s p c.
Proof.
  intros G. specialize (G c). unfold child_of. destruct G as [l l' (Hp & _)|]; [|done].
  split; intros (k & [= <-] & Hk); eexists; (split; [done|]); congruence.
Qed.

Lemma grown_below host s s' p q : grown host s s' → below s' p q → below s p q.
Proof.
  intros G. induction 1 as [a b H|a b c H _ IH]; [by apply tc_once, (grown_child host s s')|].
  eapply tc_l; [by apply (grown_child host s s')|exact IH].
Qed.

(** (C21) An exit that returns is complete.  The process has ended, with the status
    that was asked for unless it had already ended; its cleanup is stored as
    completed; no process is left waiting for it; and nothing runs below it but
    what the Host runs itself. *)
Theorem exit_completes amb p result failed message payload s s' oid :
  life_ok s → exit amb p result failed message payload s = (s', Ok oid) →
  ended s' p ∧ (∃ row, cleaned s' p row) ∧ (∀ q, ¬ waits_for s' q p)
  ∧ (¬ ended s p →
      (∃ l, lives s' p = Some l ∧ lf_status l = if failed then FAILED else EXITED)
      ∧ ∀ q, below s' p q → (∀ s1, is_host_managed_runner q s1 = false) → ended s' q).
Proof.
  intros Hok E. pose proof (exit_good true amb p result failed message payload _ _ _ E Hok) as [Hok' _].
  assert (Hnowait : ended s' p → ∀ q, ¬ waits_for s' q p).
  { intros He q Hw. by apply (lo_live _ _ Hok' q p). }
  unfold exit in E. apply M_bind_Ok in E as (process & s1 & E1 & E). apply get_or_raise_Ok in E1 as [-> Hrow].
  destruct (is_terminal (status process)) eqn:Ht.
  - assert (He : ended s p) by (exists (life_of process); unfold lives; by rewrite Hrow).
    apply M_bind_Ok in E as ([] & s1 & E1 & E). apply reject_result_quiet in E1 as U1.
    apply M_bind_Ok in E as (cleanup & s2 & E2 & E). apply cleanup_state_Ok in E2 as [-> _].
    destruct (negb _); [|done]. apply M_bind_Ok in E as (row & s3 & E3 & E). injection E as <- _.
    assert (Hes : ended s3 p).
    { apply (grown_ended true s s3); [|done]. transitivity s1; [by apply undisturbed_grown|].
      eapply retry_good; [exact E3|]. by eapply undisturbed_ok. }
    split_and!; [done|eexists; by eapply retry_done|by apply Hnowait|done].
  - apply M_bind_Ok in E as (live & s1 & Hx & E); injection Hx as <- _.
    apply M_bind_Ok in E as (live' & s2 & E2 & E).
    assert (good_step true s s2) as G2.
    { destruct (_ && _) in E2; [|injection E2 as <- _; by intros H].
      apply M_bind_Ok in E2 as (u & s3 & E3 & E2). injection E2 as <- _. revert E3. unfold _terminate_descendants_for_failed_exit.
      intros E3. apply M_bind_Ok in E3 as (b & s4 & E4 & E3). injection E4 as <- _. by eapply terminate_each_good. }
    apply M_bind_Ok in E as ([] & s3 & Hx & E); injection Hx as <- _.
    apply M_bind_Ok in E as ([r oid'] & s3 & E3 & E). apply M_bind_Ok in E as (row & s4 & E4 & E). injection E as <- _.
    cbn [fst] in E4. destruct (G2 Hok) as [Hok2 Gr2].
    destruct (exit_unit_run true _ _ _ _ _ _ _ _ _ _ E3 Hok2) as (_ & Hlive & Hok3 & Gr3 & Hpid & l3 & Hst & Hs3).
    rewrite Hpid in E4. destruct (retry_good true _ _ _ _ _ _ _ E4 Hok3) as [_ Gr4].
    assert (He : ended s3 p) by (exists l3; split; [exact Hst|rewrite Hs3; apply exit_terminal]).
    assert (Hes : ended s4 p) by (by eapply grown_ended).
    split_and!; [done|eexists; by eapply retry_done|by apply Hnowait|]. intros _. split.
    + specialize (Gr4 p). rewrite Hst in Gr4. inversion Gr4 as [l0 l' (_ & Hs & _) E0 E|]. symmetry in E.
      exists l'. split; [done|]. rewrite Hs, ?Hs3; [done|]. rewrite Hs3. apply exit_terminal.
    + intros q Hq Hm. assert (Hq2 : below s2 p q) by (eapply (grown_below true); [|exact Hq]; by transitivity s3).
      destruct (no_live_below s2 p q (lo_inv _ _ Hok2) Hlive Hq2) as [Hend|Hend]; [|by rewrite Hm in Hend].
      eapply (grown_ended true s2); [by transitivity s3|done].
Qed.
(** ** Signals to a running Task-Run process *)

(** The tables are as before. *)
Definition unchanged s s' : Prop := ∃ t, s' = set_procs (set_takeover t (procs_of s)) s.

Lemma unchanged_refl s : unchanged s s.
Proof. exists (takeover (procs_of s)). unfold set_procs, set_tables, set_base, procs_of. by destruct s as [[[] ? ? ? ?] ?]. Qed.

Lemma life_unit_Err {A} (m : M (LStore World) A) s s' e : life_unit m s = (s', Err e) → unchanged s s'.
Proof. unfold life_unit. destruct (m s) as [s1 [a|y]]; [done|]. intros [= <- _]. by eexists. Qed.

(** What the reason's carrier must not touch: leases, and the token of the scope. *)
Definition keeps_leases {A} (m : M (LStore World) A) : Prop := ∀ s s' a, m s = (s', Ok a) →
  (store_inv (procs_of s) → store_inv (procs_of s'))
  ∧ option_map ti_source_execution_token (takeover (procs_of s')) = option_map ti_source_execution_token (takeover (procs_of s))
  ∧ ∀ p row, processes (procs_of s) !! p = Some row → leased_task_run row →
      ∃ row', processes (procs_of s') !! p = Some row' ∧ leased_task_run row'.

(** A signal that takes the lease over. *)
Definition takes_over (sig : ProcessSignal) : bool := match sig with PAUSE | CANCEL | TERMINATE => true | _ => false end.

Lemma signal_wait process sig oid rhr st w o :
  signal_target process sig oid rhr = Ok (st, w, o) → is_condition_wait w = false.
Proof.
  unfold signal_target. intros E. destruct sig.
  - destruct rhr; [apply bind_Ok in E as (v & Hv & [= <- <- <-]); by apply host_wait_shape in Hv as (? & ->)|].
    destruct (wait_state process) as [[]|]; cbv beta iota zeta in E;
      try (apply bind_Ok in E as (v & Hv & [= <- <- <-]); by apply paused_wait_shape in Hv as (? & ->)); by injection E as <- <- <-.
  - by injection E as <- <- <-.
  - by apply bind_Ok in E as (v & Hv & [= <- <- <-]).
  - done.
  - by apply bind_Ok in E as (v & Hv & [= <- <- <-]).
Qed.

(** In a scope whose token has no epoch, the signal's write is refused. *)
Lemma apply_signal_refused amb p sig payload allow rhr row tok s s' r :
  store_inv (procs_of s) → processes (procs_of s) !! p = Some row → leased_task_run row →
  option_map ti_source_execution_token (takeover (procs_of s)) = Some tok → tok_task_run_epoch tok = None →
  _apply_signal amb p sig payload allow rhr s ≠ (s', Ok r).
Proof.
  intros Hinv Hp (Hs & [owner Ho] & [lease Hl] & [epoch He]) Htok Hnone E. unfold _apply_signal in E.
  apply life_unit_run in E as [(e & [=] & _)|(a & [= <-] & E)].
  apply M_bind_Ok in E as (process & s1 & E1 & E). apply get_or_raise_Ok in E1 as [-> Hrow].
  rewrite Hp in Hrow. injection Hrow as <-.
  do 2 (apply M_bind_Ok in E as ([] & s1 & Hx & E); injection Hx as <- _).
  apply M_bind_Ok in E as ([[st w] o] & s1 & Hx & E); injection Hx as <- Htarget. apply signal_wait in Htarget.
  unfold move in E. apply M_seeing in E as (now & _ & E). apply in_store_run in E as (b & E & _).
  apply transition_applies in E as (?&?&?&?&?&?&?&?&?&?&E); [|exact Htarget].
  destruct (takeover (procs_of s)) as [i|] eqn:Hi; [|done]. injection Htok as Htok.
  revert E. apply transition_mismatch with (row := row) (owner := owner) (lease := lease) (i := i); try assumption.
  - by rewrite (row_pid _ _ _ Hinv Hp).
  - rewrite Htok. intros ->. unfold token_of in Hnone. cbn in Hnone. congruence.
Qed.

Lemma signal_unit_refused amb process sig payload reason carrier actor action why allow rhr s s' x :
  store_inv (procs_of s) → processes (procs_of s) !! pid process = Some process → leased_task_run process →
  takes_over sig = true → keeps_leases carrier →
  signal_unit amb process sig payload reason carrier actor action why allow rhr s = (s', x) →
  (∃ e, x = Err e) ∧ unchanged s s'.
Proof.
  intros Hinv Hp Hrun Hsig Hcar E. unfold signal_unit in E. apply M_seeing in E as (nonce & _ & E).
  destruct x as [updated|e]; [exfalso|by split; [eexists|eapply life_unit_Err]].
  apply life_unit_run in E as [(e & [=] & _)|(a & [= <-] & E)]. apply M_bind_Ok in E as (r & s1 & E & _).
  unfold _signal_takeover_scope in E. destruct Hrun as (Hs & [owner Ho] & [lease Hl] & Hepoch).
  rewrite Ho, Hl, (bool_decide_true _ Hs) in E. cbn [negb orb] in E.
  replace (match sig with PAUSE | CANCEL | TERMINATE => false | _ => true end) with false in E by (by destruct sig).
  unfold scoped in E. match type of E with match ?m with _ => _ end = _ => destruct m as [b [[s2 a']|e]] eqn:Es end; [|done].
  apply takeover_scope_opens in Es as (i & b1 & Hb & Htok). match type of Hb with match ?m with _ => _ end = _ => destruct m as [s3 [u|e]] eqn:Eb end; [|done].
  apply M_bind_Ok in Eb as (amb' & s4 & Hx & Eb). injection Hx as <- _.
  apply M_bind_Ok in Eb as (payload' & s4 & Ep & Eb).
  assert (store_inv (procs_of s4) ∧ option_map ti_source_execution_token (takeover (procs_of s4)) = Some (ti_source_execution_token i)
    ∧ ∃ row', processes (procs_of s4) !! pid process = Some row' ∧ leased_task_run row') as (Hi4 & Ht4 & row' & Hr4 & Hl4).
  { assert (Hi0 : store_inv (set_takeover (Some i) (procs_of s))) by (by apply (le_inv _ _ (takeover_le (procs_of s) (Some i)))).
    assert (Hrun : leased_task_run process) by (unfold leased_task_run; rewrite Ho, Hl; eauto).
    destruct reason; [|injection Ep as <- _; split_and!; [exact Hi0|done|by exists process]].
    apply M_bind_Ok in Ep as (oid & s5 & Ec & Ep). injection Ep as <- _. destruct (Hcar _ _ _ Ec) as (C1 & C2 & C3).
    split_and!; [by apply C1|by rewrite C2|by apply (C3 _ process)]. }
  revert Eb. eapply apply_signal_refused; [exact Hi4|exact Hr4|exact Hl4|exact Ht4|]. by rewrite Htok.
Qed.
Lemma read_unchanged {A} (m : M (LStore World) A) s s' x : keeps eq m → m s = (s', x) → unchanged s s'.
Proof. intros Hm E. rewrite <-(Hm _ _ _ E). apply unchanged_refl. Qed.

(** A running process does not only have its cleanup retried. *)
Lemma running_no_retry process sig s : leased_task_run process → retries_cleanup process sig s = (s, Ok false).
Proof. intros [Hs _]. unfold retries_cleanup. by rewrite Hs. Qed.

(** (C23) Signals never reach a running Task-Run process.  Pausing, cancelling
    and terminating a running process under a Task Run's lease, from the Host or
    from its parent, always raise and leave every table as it was: the takeover
    token omits the epoch that the store's own token of the row has. *)
Theorem signals_spare_task_runs amb target row sig s :
  (∀ p t, keeps_leases (create_flow_text_carrier p t)) →
  store_inv (procs_of s) → processes (procs_of s) !! target = Some row → leased_task_run row → takes_over sig = true →
  (∀ payload rhr s' x, signal amb target sig payload rhr s = (s', x) → (∃ e, x = Err e) ∧ unchanged s s')
  ∧ (∀ p reason s' x, signal_child amb p target sig reason s = (s', x) → (∃ e, x = Err e) ∧ unchanged s s').
Proof.
  intros Hcar Hinv Hp Hrun Hsig. pose proof (row_pid _ _ _ Hinv Hp) as Hpid. split.
  - intros payload rhr s' x E. unfold signal in E.
    apply bind_run in E as [(e & E & ->)|(process & s1 & E1 & E)].
    { split; [by eexists|]. eapply read_unchanged; [|exact E]. apply get_or_raise_keeps, _. }
    apply get_or_raise_Ok in E1 as [-> Hrow]. rewrite Hp in Hrow. injection Hrow as <-.
    rewrite (run_bind _ _ _ _ _ (running_no_retry row sig s Hrun)) in E.
    apply bind_run in E as [(e & [= <- _] & ->)|([] & s1 & [= <- _] & E)]; [split; [by eexists|apply unchanged_refl]|].
    cbv zeta in E. rewrite <-Hpid in Hp. apply bind_run in E as [(e & E & ->)|(updated & s1 & E & _)];
      apply signal_unit_refused in E as [He U]; try assumption; try apply Hcar; [split; [by eexists|exact U]|by destruct He].
  - intros p reason s' x E. unfold signal_child in E.
    apply bind_run in E as [(e & E & ->)|(process & s1 & E1 & E)].
    { split; [by eexists|]. eapply read_unchanged; [|exact E]. apply require_child_keeps, _. }
    apply require_child_Ok in E1 as (-> & Hrow & _). rewrite Hp in Hrow. injection Hrow as <-.
    rewrite (run_bind _ _ _ _ _ (running_no_retry row sig s Hrun)) in E.
    apply bind_run in E as [(e & [= <- _] & ->)|([] & s1 & [= <- _] & E)]; [split; [by eexists|apply unchanged_refl]|].
    rewrite <-Hpid in Hp at 1. apply bind_run in E as [(e & E & ->)|(updated & s1 & E & _)];
      apply signal_unit_refused in E as [He U]; try assumption; try apply Hcar; [split; [by eexists|exact U]|by destruct He].
Qed.
End Properties.
