(* ===== verification/LifecycleSamples.v ===== *)
(** * Concrete process lives

    A host, a parent and its child, the waits, signals and exits they make, on
    which the theorems are instantiated. *)

From stdpp Require Import sorting.
From S2P Require Import Prelude PyStr PyVal ProcessState ProcessModel ProcessStore ProcessWrites TerminalCleanup ProcessInvariant ProcessProperties ProcessTransition AuthorityRules ResourceTables ResourceManager ResourceKill StoreSteps ProcessLifecycle LifecycleSteps LifecycleHistory HumanInterrupt LifecycleCleanup LifecycleProperties.

(** ** The host *)

#[export] Instance life_host : LifecycleHost unit := {|
  life_exec := no_evidence; life_json_dumps := demo_dumps; life_str _ := "other"; life_now _ := "t1";
  life_new_id kind _ := kind +:+ "_1"; has_resources := true; owner_instance_id := "runtime";
  cleanup_page_size := 2; cleanup_page_hard_limit := 10; life_sink _ _ := Ok tt; exception_observation _ := []; component_failures _ := []; life_default_directory := ".";
  create_flow_text_carrier _ _ := mret "obj_reason"; create_result_object _ _ := mret "obj_result";
  release_rejected_exit_result _ _ := mret tt; assert_object_data_flow _ _ := mret tt;
  preserve_process_owned _ _ := mret tt; handle_for_object _ oid _ := mret oid;
  add_handle_to_process_view _ _ := mret tt; release_process_owned _ _ := mret tt;
  redact_root_spawn_initial_goal _ := mret tt; object_task_terminal_notifier := None;
  host_managed_runner := None; recovery_lease := Ok tt;
|}.

#[export] Instance life_host_laws : LifecycleLaws unit.
Proof. split; intros; try (apply keeps_ret, _). by discriminate. Qed.

#[export] Instance no_requests : HumanRequests unit := {|
  cancel_pending_for_process _ _ := mret tt; cancel_quiet _ _ := keeps_ret undisturbed tt |}.

(** [kid] is a child of the runnable [p2]. *)
Definition kid : AgentProcess :=
  let d := demo_process "kid" RUNNABLE in
  {| pid := "kid"; parent_pid := Some "p2"; image_id := image_id d; status := RUNNABLE; goal_oid := None;
     memory_view := None; capabilities := []; loaded_skills := []; tool_table := []; event_cursor := None;
     checkpoint_head := None; resource_budget := resource_budget d; resource_usage := usage_zero;
     created_at := "t0"; updated_at := "t0"; working_directory := "."; status_message := None;
     wait_state := None; outcome := None; state_generation := 0; llm_profile_id := "default";
     model_tool_table := []; revision := 0; execution_generation := 0;
     execution_owner_id := None; execution_lease_id := None; task_run_id := None;
     task_run_epoch := None; task_run_role := None |}.

Definition on_tables (b : Store) : LStore unit := mkLStore (mkRStore b ∅ ∅ ∅ []) tt.

Definition family_ops : list process_op := [OpInsert "t0" kid].

Definition family : LStore unit := on_tables (run_ops (H := no_evidence) demo_dumps demo_hash family_ops claimed_store).

Lemma family_inv : store_inv (procs_of family).
Proof.
  refine (le_inv _ _ (run_ops_le (H := no_evidence) demo_dumps demo_hash family_ops claimed_store _ claimed_inv) claimed_inv).
  repeat constructor; cbn; try lia; by left.
Qed.

(** ** Runs *)

Definition waiting : LStore unit := fst (wait host "p2" "kid" None family).
Definition exited : LStore unit := fst (exit host "kid" None false (Some "done") None waiting).
Definition paused : LStore unit := fst (pause_for_host_resume host "kid" "maintenance" family).
Definition prodded : LStore unit := fst (signal_child host "p2" "kid" RESUME None paused).
Definition resumed : LStore unit := fst (resume host "kid" prodded).

Definition statuses (s : LStore unit) : list (option ProcessStatus) := map (fun p => status <$> processes (procs_of s) !! p) ["p2"; "kid"].

(** The wait parks the parent, the exit wakes it; the parent cannot resume what
    the Host has paused, and the Host can. *)
Example family_along :
  (snd (wait host "p2" "kid" None family), statuses waiting, statuses exited,
   cl_state <$> cleanups (procs_of exited) !! "kid", statuses paused,
   snd (signal_child host "p2" "kid" RESUME None paused), statuses prodded, statuses resumed)
  = (Err (ProcessWaitRequired "kid"), [Some WAITING_EVENT; Some RUNNABLE], [Some RUNNABLE; Some EXITED],
     Some "completed", [Some RUNNABLE; Some PAUSED],
     Err (ProcessError "process requires explicit Host resume"), [Some RUNNABLE; Some PAUSED], [Some RUNNABLE; Some RUNNABLE]).
Proof. vm_compute. reflexivity. Qed.

Lemma all_rows (check : string * AgentProcess → bool) (b : Store) p row :
  forallb check (map_to_list (processes b)) = true → processes b !! p = Some row → check (p, row) = true.
Proof.
  intros Hall Hp. rewrite forallb_forall in Hall. apply Hall. rewrite <-list_elem_of_In. by apply elem_of_map_to_list.
Qed.

Lemma family_fresh : unwaited family.
Proof.
  split; [exact family_inv| |].
  - intros p c (l & Hl & _ & Hw). unfold lives in Hl. destruct (processes (procs_of family) !! p) as [row|] eqn:Hrow; [|discriminate Hl].
    apply (all_rows (fun kv => match wait_state (snd kv) with None => true | Some _ => false end)) in Hrow; [|vm_compute; reflexivity].
    injection Hl as <-. cbn in Hrow, Hw. rewrite Hw in Hrow. discriminate Hrow.
  - intros p [l Hl]. unfold lives in Hl. destruct (processes (procs_of family) !! p) as [row|] eqn:Hrow; [|discriminate Hl].
    apply (all_rows (fun kv => String.eqb (strip (fst kv)) (fst kv))) in Hrow; [|vm_compute; reflexivity].
    by apply String.eqb_eq in Hrow.
Qed.

Lemma waiting_history : rtc (life_step true) family waiting.
Proof. eapply rtc_l; [exact (step_wait true family host "p2" "kid" None)|apply rtc_refl]. Qed.

Lemma waiting_life_ok : life_ok waiting.
Proof. exact (proj1 (life_history_good true _ _ waiting_history (unwaited_ok _ family_fresh))). Qed.

Lemma paused_history : rtc (life_step true) family paused.
Proof.
  eapply rtc_l; [|apply rtc_refl].
  exact (step_signal true family host "kid" PAUSE [("reason", PStr "maintenance")] true (fun _ => eq_refl)).
Qed.

Lemma paused_life_ok : life_ok paused.
Proof. exact (proj1 (life_history_good true _ _ paused_history (unwaited_ok _ family_fresh))). Qed.

Lemma prodded_history : rtc (life_step false) paused prodded.
Proof. eapply rtc_l; [exact (step_signal_child false paused host "p2" "kid" RESUME None)|apply rtc_refl]. Qed.

(** [p2] waits for [kid]. *)
Lemma no_lost_child_wakeup_witness : waits_for waiting "p2" "kid" ∧ child_of waiting "p2" "kid" ∧ ¬ ended waiting "kid".
Proof.
  assert (Hw : waits_for waiting "p2" "kid").
  { destruct (lives waiting "p2") as [l|] eqn:Hl; [|vm_compute in Hl; discriminate Hl]. exists l.
    vm_compute in Hl. injection Hl as <-. exact (conj eq_refl (conj eq_refl eq_refl)). }
  exact (conj Hw (no_lost_child_wakeup true family waiting "p2" "kid" family_fresh waiting_history Hw)).
Defined.

(** [kid] is parked by the Host, and its parent's resume does not lift it. *)
Lemma host_pause_holds_witness : host_parked paused "kid" ∧ (host_parked prodded "kid" ∨ ended prodded "kid").
Proof.
  assert (Hp : host_parked paused "kid").
  { destruct (lives paused "kid") as [l|] eqn:Hl; [|vm_compute in Hl; discriminate Hl]. exists l. split; [exact Hl|].
    vm_compute in Hl. injection Hl as <-. reflexivity. }
  exact (conj Hp (host_pause_holds paused prodded "kid" paused_life_ok prodded_history Hp)).
Defined.

(** *** Human interrupts *)

Definition interrupted : LStore unit := fst (interrupt host "kid" PAUSE None paused).
Definition escaped : LStore unit := fst (signal_child host "p2" "kid" RESUME None interrupted).
Definition stranded : LStore unit := fst (interrupt host "kid" TERMINATE None waiting).

(** An interrupt pauses [kid], whom the Host has parked: the Host's wait is
    gone, and now the parent's resume makes it run. *)
Lemma interrupt_lifts_host_pause :
  (option_map is_gated (lives paused "kid"), snd (interrupt host "kid" PAUSE None paused),
   option_map is_gated (lives interrupted "kid"), statuses interrupted, is_Ok (snd (signal_child host "p2" "kid" RESUME None interrupted)),
   statuses escaped)
  = (Some true, Ok tt, Some false, [Some RUNNABLE; Some PAUSED], true, [Some RUNNABLE; Some RUNNABLE]).
Proof. vm_compute. reflexivity. Qed.

(** An interrupt ends [kid], and the parent that waits for it is not woken. *)
Lemma interrupt_strands_parent :
  (snd (interrupt host "kid" TERMINATE None waiting), statuses stranded, option_map lf_wait (lives stranded "p2"),
   cl_state <$> cleanups (procs_of stranded) !! "kid")
  = (Ok tt, [Some WAITING_EVENT; Some KILLED], Some (Some (ChildProcessWait "kid")), Some "completed").
Proof. vm_compute. reflexivity. Qed.

(** [kid] exits while its parent waits for it. *)
Lemma exit_completes_witness :
  ∃ oid, exit host "kid" None false (Some "done") None waiting = (exited, Ok oid)
    ∧ ended exited "kid" ∧ (∃ row, cleaned exited "kid" row) ∧ ∀ q, ¬ waits_for exited q "kid".
Proof.
  destruct (exit host "kid" None false (Some "done") None waiting) as [s' r] eqn:E.
  assert (Hr : is_Ok r = true) by (replace r with (snd (exit host "kid" None false (Some "done") None waiting)) by (by rewrite E); vm_compute; reflexivity).
  destruct r as [oid|e]; [|discriminate Hr].
  assert (Hs : exited = s') by (unfold exited; rewrite E; reflexivity). rewrite Hs. exists oid. split; [reflexivity|].
  destruct (exit_completes host "kid" None false (Some "done") None waiting s' oid waiting_life_ok E) as (H1 & H2 & H3 & _).
  exact (conj H1 (conj H2 H3)).
Defined.

(** ** A cleanup left to do *)

Definition failed_ops : list process_op :=
  [OpTransition host "t1" "kid" FAILED 0 None None None (Some (FailedProcessOutcome None None)) None false None None].

Definition failed_kid : LStore unit := on_tables (run_ops (H := no_evidence) demo_dumps demo_hash failed_ops (procs_of family)).

Lemma failed_inv : store_inv (procs_of failed_kid).
Proof.
  refine (le_inv _ _ (run_ops_le (H := no_evidence) demo_dumps demo_hash failed_ops (procs_of family) _ family_inv) family_inv).
  by repeat constructor.
Qed.

Lemma phase_ports_ok p : phase_ports (World := unit) p.
Proof. split; [by intros ? ?|intros ? ?; apply serves_ret|intros ?; apply serves_ret]. Qed.

(** [kid] has no child of its own. *)
Lemma kid_leaf q : ¬ below failed_kid "kid" q.
Proof.
  assert (Hone : ∀ c, ¬ child_of failed_kid "kid" c).
  { intros c (l & Hl & Hp). unfold lives in Hl. destruct (processes (procs_of failed_kid) !! c) as [row|] eqn:Hrow; [|discriminate Hl].
    apply (all_rows (fun kv => negb (bool_decide (parent_pid (snd kv) = Some "kid")))) in Hrow; [|vm_compute; reflexivity].
    injection Hl as <-. cbn in Hp. cbn in Hrow. by rewrite (bool_decide_true _ Hp) in Hrow. }
  intros Hb. remember "kid" as k eqn:Hk. destruct Hb as [a b H|a b c H _]; subst a; by destruct (Hone b).
Qed.

Lemma terminal_cleanup_converges_witness :
  (cl_state <$> cleanups (procs_of failed_kid) !! "kid") = Some "pending"
  ∧ ∃ s' row', retry_terminal_cleanup "kid" "runtime" None false failed_kid = (s', Ok row') ∧ cleaned s' "kid" row'.
Proof.
  split; [vm_compute; reflexivity|].
  destruct (processes (procs_of failed_kid) !! "kid") as [process|] eqn:Hp; [|vm_compute in Hp; discriminate Hp].
  destruct (cleanups (procs_of failed_kid) !! "kid") as [row|] eqn:Hr; [|vm_compute in Hr; discriminate Hr].
  assert (Hrow : is_terminal (status process) = true ∧ cleanup_wf row ∧ claimable false row).
  { vm_compute in Hp, Hr. injection Hp as <-. injection Hr as <-. split; [reflexivity|].
    split; [|intros H; discriminate H]. unfold cleanup_wf. cbn. rewrite !elem_of_cons. auto 8. }
  exact (terminal_cleanup_converges "kid" process row failed_kid "runtime" None false failed_inv (kid_leaf "kid")
    (phase_ports_ok "kid") Hp (proj1 Hrow) Hr (proj1 (proj2 Hrow)) (proj2 (proj2 Hrow)) ltac:(by intros H) ltac:(by intros H)).
Defined.

(** Nothing is below itself where only [kid] has a parent. *)
Lemma failed_tree p : ¬ below failed_kid p p.
Proof.
  assert (Hkid : ∀ a b, child_of failed_kid a b → b = "kid").
  { intros a b (l & Hl & Hp). unfold lives in Hl. destruct (processes (procs_of failed_kid) !! b) as [row|] eqn:Hrow; [|discriminate Hl].
    apply (all_rows (fun kv => String.eqb (fst kv) "kid" || match parent_pid (snd kv) with None => true | Some _ => false end)) in Hrow;
      [|vm_compute; reflexivity].
    injection Hl as <-. cbn in Hp, Hrow. rewrite Hp, orb_false_r in Hrow. by apply String.eqb_eq in Hrow. }
  assert (Hend : ∀ a b, below failed_kid a b → b = "kid") by (induction 1; [by eapply Hkid|done]).
  intros Hb. pose proof (Hend p p Hb) as ->. by apply (kid_leaf "kid").
Qed.

Lemma failed_recoverable : recoverable failed_kid.
Proof.
  split; [exact failed_inv|exact failed_tree|]. intros p row Hp Hst.
  assert (Hkid : p = "kid").
  { assert (Hall : forallb (fun kv => String.eqb (fst kv) "kid") (map_to_list (cleanups (procs_of failed_kid))) = true) by (vm_compute; reflexivity).
    rewrite forallb_forall in Hall. apply elem_of_map_to_list, list_elem_of_In, Hall in Hp. by apply String.eqb_eq in Hp. }
  subst p. split.
  - vm_compute in Hp. injection Hp as <-. unfold cleanup_wf. cbn. rewrite !elem_of_cons. auto 8.
  - destruct (processes (procs_of failed_kid) !! "kid") as [process|] eqn:E; [|vm_compute in E; discriminate E].
    exists process. split; [reflexivity|]. vm_compute in E. injection E as <-. reflexivity.
Qed.

Lemma sample_recovery_host : recovery_host (World := unit).
Proof. split; [exact phase_ports_ok|by intros H|intros s H; discriminate H]. Qed.

(** The runtime died before it cleaned [kid] up. *)
Lemma recovery_completes_witness :
  (cl_state <$> cleanups (procs_of failed_kid) !! "kid") = Some "pending"
  ∧ ∃ s' report, recover_terminal_cleanups 2 failed_kid = (s', Ok report) ∧ (∃ row, cleaned s' "kid" row)
      ∧ cr_recovered_count report = 1%Z.
Proof.
  split; [vm_compute; reflexivity|].
  destruct (cleanups (procs_of failed_kid) !! "kid") as [row|] eqn:Hr; [|vm_compute in Hr; discriminate Hr].
  destruct (recovery_completes 2 failed_kid failed_recoverable sample_recovery_host eq_refl
    ltac:(vm_compute; split; lia) ltac:(vm_compute; lia)) as (s' & report & E & Hall & _ & _ & Hcount & _).
  exists s', report. split; [exact E|]. split; [exact (Hall "kid" row Hr)|]. rewrite Hcount. vm_compute. reflexivity.
Defined.

(** ** A running Task-Run process *)

Definition job : AgentProcess :=
  let d := demo_process "job" RUNNING in
  {| pid := "job"; parent_pid := Some "p2"; image_id := image_id d; status := RUNNING; goal_oid := None;
     memory_view := None; capabilities := []; loaded_skills := []; tool_table := []; event_cursor := None;
     checkpoint_head := None; resource_budget := resource_budget d; resource_usage := usage_zero;
     created_at := "t0"; updated_at := "t0"; working_directory := "."; status_message := None;
     wait_state := None; outcome := None; state_generation := 0; llm_profile_id := "default";
     model_tool_table := []; revision := 0; execution_generation := 1;
     execution_owner_id := Some "worker"; execution_lease_id := Some "lease"; task_run_id := Some "run";
     task_run_epoch := Some 1%Z; task_run_role := Some "worker" |}.

Definition with_job : LStore unit :=
  on_tables (run_ops (H := no_evidence) demo_dumps demo_hash [OpInsert "t1" job] (procs_of family)).

Lemma with_job_store : store_inv (procs_of with_job).
Proof.
  refine (le_inv _ _ (run_ops_le (H := no_evidence) demo_dumps demo_hash [OpInsert "t1" job] (procs_of family) _ family_inv) family_inv).
  constructor; [|constructor]. split; [right; by split_and!|by vm_compute].
Qed.

Lemma carrier_leases p t : keeps_leases (create_flow_text_carrier (World := unit) p t).
Proof. intros s s' a [= <- _]. split_and!; [done|done|]. intros q row Hq Hl. by exists row. Qed.

Lemma signals_spare_task_runs_witness :
  (∃ e, snd (cancel host "job" "stop" with_job) = Err e) ∧ unchanged with_job (fst (cancel host "job" "stop" with_job))
  ∧ ∃ e, snd (signal_child host "p2" "job" PAUSE None with_job) = Err e.
Proof.
  destruct (processes (procs_of with_job) !! "job") as [row|] eqn:Hp; [|vm_compute in Hp; discriminate Hp].
  assert (Hrun : leased_task_run row).
  { vm_compute in Hp. injection Hp as <-. split; [reflexivity|]. split; [eexists; reflexivity|]. split; eexists; reflexivity. }
  destruct (signals_spare_task_runs host "job" row CANCEL with_job carrier_leases with_job_store Hp Hrun eq_refl) as [Hhost _].
  destruct (signals_spare_task_runs host "job" row PAUSE with_job carrier_leases with_job_store Hp Hrun eq_refl) as [_ Hparent].
  destruct (cancel host "job" "stop" with_job) as [s1 x1] eqn:E1. destruct (signal_child host "p2" "job" PAUSE None with_job) as [s2 x2] eqn:E2.
  destruct (Hhost _ _ _ _ E1) as [He U]. destruct (Hparent _ _ _ _ E2) as [He2 _]. exact (conj He (conj U He2)).
Defined.

(** A leased process outside a Task Run is taken over and killed. *)
Example takeover_along :
  (snd (signal host "p1" CANCEL [] false family),
   status <$> processes (procs_of (fst (signal host "p1" CANCEL [] false family))) !! "p1",
   snd (signal host "job" CANCEL [] false with_job))
  = (Ok tt, Some KILLED, Err (ProcessRevisionConflict "process execution takeover write is outside its exact intent")).
Proof. vm_compute. reflexivity. Qed.
